(* ===== verification/_CoqProject ===== *)
-Q . S2P
Prelude.v
KernelList.v
KernelListSort.v
Bitmap.v
Bytes.v
FsState.v
Inode.v
FreeMap.v
Directory.v
CString.v
CStdlib.v
Hash.v
Arith64.v
Coordinator.v
Vaddr.v
Palloc.v
Pagedir.v
Sbrk.v
Thread.v
Synch.v
Machine.v
MmAlloc.v
KMalloc.v
Stdio.v
Ustar.v
Blockdev.v
Process.v
ProcessExit.v
Input.v
Syscall.v
Interrupt.v
Paging.v
Ide.v
Vga.v
Rtc.v
Random.v
FixedPoint.v
Timer.v
Init.v
MapReduce.v
MapReduceJob.v
Shell.v
Http.v
WorkQueue.v
Words.v
WordList.v
