(* ===== verification/Prelude.v ===== *)
(** * A verification of the Pintos kernel and the course programs around it

    The repository holds the work of an operating systems course.  Its core is
    Pintos, a small kernel for the 80x86 ([hw-memory/pintos/src]), with a heap
    allocator that runs on top of its [sbrk] system call ([hw-memory/mm_alloc]).
    Beside it are a MapReduce system ([hw-map-reduce]), a command shell
    ([hw-shell]), an HTTP server ([hw-http]) and word counting programs
    ([hw-intro], [hw-list]).  This development models the parts that hold the
    logic of these programs as functions of Rocq and proves them correct.  Paths
    below are relative to [hw-memory/pintos/src] unless they start with [hw-].

    ** How C code is modelled

    Code is a function in the state and fault monad [M] of this file: it maps a
    state to the returned value and the next state, or to a fault (a failed
    ASSERT, a PANIC, an access to memory that is not there, a division trap).
    [wp] is total correctness: a theorem that says [wp m Q s], or that there is
    a result [m s = Ok ..], says that the code returns.  Machine integers are
    [Z] with the wrap-around of their width written out ([wrap8], [wrap32],
    [wrap64], [signed]).  Loops are [for_loop], recursion on the data, or
    recursion on a bound ([OutOfFuel]); each bound is computed from the data
    (the length of a list or string, the number of bits left, the number of
    sectors, the number of digits) and the theorems show that it is never
    reached.

    ** The parts and their files

    Data structures and the C library of the kernel.
    - [KernelList], [KernelListSort]: [lib/kernel/list.c], doubly linked lists
      on a heap of link cells; [KernelList.v] shows that every operation
      implements the operation on sequences, [KernelListSort.v] the natural
      merge sort, stable and in place.
    - [Bitmap]: [lib/kernel/bitmap.c], arrays of bits in words.
    - [Hash]: [lib/kernel/hash.c], chained tables that grow and shrink.
    - [CString], [CStdlib], [Arith64]: [lib/string.c], [lib/stdlib.c] (heap
      sort, binary search, [atoi]) and [lib/arithmetic.c] (64-bit division by
      long division).
    - [Stdio]: [lib/stdio.c] and the writing part of [lib/kernel/console.c];
      formats and their arguments.
    - [Ustar], [Random], [FixedPoint]: [lib/ustar.c], [lib/random.c] (the RC4
      cipher) and [threads/fixed-point.h].

    Devices.
    - [Blockdev]: [devices/block.c] and [devices/partition.c].
    - [Ide]: [devices/ide.c], on a controller that is a parameter with the laws
      of the ATA protocol.
    - [Input]: [devices/intq.c], [input.c], [kbd.c] and [serial.c]; queues
      between threads and interrupt handlers.
    - [Vga], [Rtc], [Timer]: [devices/vga.c], [devices/rtc.c] (the clock chip is
      a parameter), and the arithmetic of [devices/timer.c], [devices/pit.c]
      and [devices/speaker.c].

    File system, from the disk up; every layer is proved on top of the one
    below it.
    - [Bytes], [FsState]: byte encodings of what is on disk, and the state (the
      device, the open inodes, files and directories, the free map).
    - [Inode]: [filesys/inode.c], reading and writing through sector-sized
      chunks with a bounce buffer, against an abstract array of bytes.
    - [FreeMap]: [filesys/free-map.c], and the opening, closing and removal of
      inodes that depend on it.
    - [Directory]: [filesys/directory.c] and [filesys/filesys.c]; a directory
      implements a finite map from names to sectors.

    Memory.
    - [Vaddr]: [threads/vaddr.h] and [threads/pte.h].
    - [Palloc]: [threads/palloc.c], the page allocator over bitmaps.
    - [KMalloc]: [threads/malloc.c], the block allocator, a client of the class
      [PageAllocator] that [Palloc] implements.
    - [Pagedir]: [userprog/pagedir.c]; a page directory implements a finite map
      from user pages to frames.
    - [Sbrk]: the [sbrk] system call of [userprog/syscall.c].
    - [MmAlloc]: [hw-memory/mm_alloc/mm_alloc.c] at the level of bytes, on top
      of [sbrk] as a parameter.

    Threads, processes and system calls.
    - [Thread]: [threads/thread.c], [threads/synch.c], the interrupt entry of
      [threads/interrupt.c] and the ticks of [devices/timer.c], as one machine
      in which a thread that blocks leaves the rest of its call on its stack.
    - [Synch]: the invariant of the machine, and what each operation does to it.
    - [Machine]: the steps of the machine (calls and interrupts in any order)
      and the properties of all reachable states.
    - [Process]: the loader of [userprog/process.c]: ELF headers, segments, the
      stack of a process.
    - [ProcessExit]: the end of a process and the wait for it, in the same file:
      which pages are freed.
    - [Syscall]: [userprog/syscall.c] and the page fault of
      [userprog/exception.c]; the calls, and their refusal of bad
      arguments.
    - [Interrupt]: the descriptor tables and the interrupt controller of
      [threads/interrupt.c], [userprog/exception.c] and [userprog/gdt.c].
    - [Paging], [Init]: [threads/init.c], the page tables of the kernel, the
      command line and the devices that get a role.

    User programs.
    - [Coordinator]: [hw-map-reduce/coordinator/coordinator.c], the job queue,
      the assignment of tasks and their reassignment after a timeout, with
      reports of the workers that may be repeated.
    - [MapReduce], [MapReduceJob]: [hw-map-reduce/worker], [codec], [lib], [app]
      and the output of [client]: map and reduce tasks, the three applications
      and whole jobs.
    - [Shell]: [hw-shell], the tokenizer and the commands of the shell, as the
      calls of one process and the PATH in its environment.
    - [Http]: [hw-http/libhttp.c] and the handling of files in
      [hw-http/httpserver.c].
    - [WorkQueue]: [hw-http/wq.c] on the list macros of [utlist.h], and its
      threads.
    - [Words], [WordList]: [hw-intro/words] and [hw-list], word counts in a
      linked list, with and without threads.  What the repository holds only as
      object files (the splitting into words and the comparison of [hw-list],
      the sort of [hw-intro]) is a parameter.

    ** What the theorems show

    Refinement: lists are sequences, bitmaps arrays of booleans, hash tables and
    directories and page directories finite maps, disks and partitions arrays
    of sectors, and the three allocators keep sets of disjoint blocks that only
    [malloc], [free] and [realloc] change, the way they should.  Functional
    correctness: sorting, searching, scanning, string and number routines, the
    inode data path (what is written is read back, nothing else changes),
    division, formatted output, the image of a loaded program and the page
    tables of the kernel, word counts, and the output of MapReduce jobs for
    every division of the work.  Equivalence with reference definitions:
    tokens, requests, digits.  Invariants and safety: the coordinator's job
    table and the scheduler's queues in every reachable state, mutual exclusion
    of locks, no failed assertion in any run of the thread machine, no lost
    wake-up of semaphores, no count lost by threads that share a list; liveness
    of round-robin scheduling.  Errors: bad pointers in system calls, double
    frees, failed allocations and failed disk writes, with what is undone.
    Where the code does not do what its comments say, a theorem shows what it
    does instead.

    ** Not modelled

    Assembly ([threads/start.S], [threads/switch.S], [threads/intr-stubs.S]);
    the creation of threads, which lays out the stack that [switch.S] pops, and
    the starting of processes on top of it; [main] of [threads/init.c], a list
    of calls to the parts above; [filesys/fsutil.c], the commands that copy
    files; [devices/shutdown.c], [userprog/tss.c] and [lib/debug.c], accesses
    to hardware and messages before the machine stops.  The locks inside the
    page, block and inode code, whose calls run one at a time, and messages,
    which are left out of the functions that print.  Interrupts are taken to be
    on in the disk driver.  Memory is taken to be there in the steps of the
    threads of [WorkQueue] and [WordList], whose code does not test for a null
    pointer, and the files of MapReduce jobs to have different names.  The pipes of the shell,
    whose branch is not valid C; the sockets and the proxy of the HTTP server
    and the remote procedure calls of MapReduce and [lab-rpc], which are calls
    of libraries outside the repository.  User library stubs, example programs,
    host utilities and tests; [proj-pregame], another copy of Pintos; the Rust
    versions of the exercises.

    The rest of this file is the prelude: the monad and its logic, machine
    integers, searching, counting and filtering. *)
From Stdlib Require Export ZArith Lia.
From stdpp Require Export base tactics numbers gmap option.
From stdpp Require Export list.

#[global] Open Scope Z_scope.

(** ** Outcomes of C code

    A piece of C code either returns a value or stops the program:
    an [ASSERT] that does not hold, a [PANIC], a dereference of memory that
    is not there, a division trap.  [OutOfFuel] is the only value of this
    type that does not stand for behaviour of the code: it is returned by a
    bounded loop whose bound is too small. *)

Inductive fault :=
  | AssertFailed
  | Panicked
  | BadAccess
  | DivideError
  | OutOfFuel.

Inductive result (A : Type) :=
  | Ok (a : A)
  | Err (f : fault).
Arguments Ok {A} a.
Arguments Err {A} f.

#[export] Instance fault_eq_dec : EqDecision fault.
Proof. solve_decision. Defined.
#[export] Instance result_eq_dec `{EqDecision A} : EqDecision (result A).
Proof. solve_decision. Defined.

#[export] Instance result_ret : MRet result := λ A a, Ok a.
#[export] Instance result_bind : MBind result := λ A B k m,
  match m with Ok a => k a | Err f => Err f end.

(** ** The state and fault monad

    Stateful code is a function from a state to an outcome that carries the
    next state. *)

Definition M (S A : Type) : Type := S → result (A * S).

#[export] Instance M_ret {S} : MRet (M S) := λ A a s, Ok (a, s).
#[export] Instance M_bind {S} : MBind (M S) := λ A B k m s,
  match m s with Ok (a, s') => k a s' | Err f => Err f end.

Definition throw {S A} (f : fault) : M S A := λ _, Err f.
Definition ASSERT {S} (b : bool) : M S unit :=
  λ s, if b then Ok (tt, s) else Err AssertFailed.
Definition PANIC {S A} : M S A := throw Panicked.
Definition gets {S A} (f : S → A) : M S A := λ s, Ok (f s, s).
Definition modify {S} (f : S → S) : M S unit := λ s, Ok (tt, f s).
Definition when {S} (b : bool) (m : M S unit) : M S unit :=
  if b then m else mret tt.

(** [for_loop n i body] runs [body i], [body (i+1)], ..., [n] times: the C
    loop [for (; i < i0 + n; i++)]. *)
Fixpoint for_loop {S} (n : nat) (i : Z) (body : Z → M S unit) : M S unit :=
  match n with
  | O => mret tt
  | Datatypes.S n' => body i ;; for_loop n' (i + 1) body
  end.

(** ** Total correctness

    [wp m Q s]: from [s] the code [m] returns normally, and the value and the
    final state satisfy [Q].  A fault, and a loop that runs out of its bound,
    make it false. *)

Definition wp {S A} (m : M S A) (Q : A → S → Prop) (s : S) : Prop :=
  match m s with Ok (a, s') => Q a s' | Err _ => False end.

Section wp.
Context {St : Type}.
Implicit Types s : St.

Lemma wp_ret {A} (a : A) Q s : Q a s → wp (mret a) Q s.
Proof. done. Qed.

Lemma wp_bind {A B} (m : M St A) (k : A → M St B) Q s :
  wp m (λ a s', wp (k a) Q s') s → wp (m ≫= k) Q s.
Proof.
  unfold wp, mbind, M_bind. destruct (m s) as [[a s']|f]; done.
Qed.

Lemma wp_mono {A} (m : M St A) (Q Q' : A → St → Prop) s :
  wp m Q s → (∀ a s', Q a s' → Q' a s') → wp m Q' s.
Proof. unfold wp. destruct (m s) as [[a s']|f]; naive_solver. Qed.

Lemma wp_assert b (Q : unit → St → Prop) s :
  b = true → Q tt s → wp (ASSERT b) Q s.
Proof. unfold wp, ASSERT. by intros ->. Qed.

Lemma wp_gets {A} (f : St → A) Q s : Q (f s) s → wp (gets f) Q s.
Proof. done. Qed.

Lemma wp_modify (f : St → St) (Q : unit → St → Prop) s :
  Q tt (f s) → wp (modify f) Q s.
Proof. done. Qed.

Lemma wp_Ok {A} (m : M St A) Q s :
  wp m Q s ↔ ∃ a s', m s = Ok (a, s') ∧ Q a s'.
Proof.
  unfold wp. destruct (m s) as [[a s']|f]; naive_solver.
Qed.

Lemma wp_run {A} (m : M St A) Q s a s' : wp m Q s → m s = Ok (a, s') → Q a s'.
Proof. unfold wp. by intros H E; rewrite E in H. Qed.

(** A loop of [n] rounds keeps an invariant that holds of the index. *)
Lemma wp_for_loop (I : Z → St → Prop) (body : Z → M St unit) (n : nat) i s :
  I i s →
  (∀ j s', i ≤ j < i + Z.of_nat n → I j s' →
     wp (body j) (λ _ s'', I (j + 1) s'') s') →
  wp (for_loop n i body) (λ _ s', I (i + Z.of_nat n) s') s.
Proof.
  revert i s. induction n as [|n IH]; intros i s HI Hbody; cbn [for_loop].
  - apply wp_ret. by replace (i + Z.of_nat 0) with i by lia.
  - apply wp_bind. eapply wp_mono; [apply Hbody; [lia|done]|].
    intros [] s' HI'. cbv beta in *.
    replace (i + Z.of_nat (Datatypes.S n)) with (i + 1 + Z.of_nat n) by lia.
    apply IH; [done|]. intros j s'' Hj. apply Hbody. lia.
Qed.
End wp.

(** [wp_step] runs one primitive of the monad. *)
Ltac wp_step :=
  lazymatch goal with
  | |- wp (mbind _ _) _ _ => apply wp_bind
  | |- wp (mret _) _ _ => apply wp_ret
  | |- wp (gets _) _ _ => apply wp_gets
  | |- wp (modify _) _ _ => apply wp_modify
  | |- wp (ASSERT _) _ _ => apply wp_assert
  | |- wp (when true _) _ _ => unfold when at 1
  | |- wp (when false _) _ _ => unfold when at 1
  end; cbv beta.

(** ** Machine integers *)

Abbreviation NULL := 0%Z (only parsing).

Definition wrap8 (z : Z) : Z := z mod 2 ^ 8.
Definition wrap32 (z : Z) : Z := z mod 2 ^ 32.
Definition wrap64 (z : Z) : Z := z mod 2 ^ 64.

(** The signed reading of a [w]-bit pattern, two's complement. *)
Definition signed (w : Z) (z : Z) : Z :=
  let m := z mod 2 ^ w in if m <? 2 ^ (w - 1) then m else m - 2 ^ w.
Abbreviation int32 := (signed 32).
Abbreviation int64 := (signed 64).

Lemma wrap32_small z : 0 ≤ z < 2 ^ 32 → wrap32 z = z.
Proof. apply Z.mod_small. Qed.
Lemma wrap64_small z : 0 ≤ z < 2 ^ 64 → wrap64 z = z.
Proof. apply Z.mod_small. Qed.
Lemma wrap8_small z : 0 ≤ z < 2 ^ 8 → wrap8 z = z.
Proof. apply Z.mod_small. Qed.
Lemma wrap32_range z : 0 ≤ wrap32 z < 2 ^ 32.
Proof. apply Z.mod_pos_bound. lia. Qed.
Lemma wrap64_range z : 0 ≤ wrap64 z < 2 ^ 64.
Proof. apply Z.mod_pos_bound. lia. Qed.
Lemma wrap8_range z : 0 ≤ wrap8 z < 2 ^ 8.
Proof. apply Z.mod_pos_bound. lia. Qed.

Lemma signed_small w z : 0 < w → - 2 ^ (w - 1) ≤ z < 2 ^ (w - 1) → signed w z = z.
Proof.
  intros Hw Hz. unfold signed.
  assert (2 ^ w = 2 * 2 ^ (w - 1)) as Hpow.
  { rewrite <- Z.pow_succ_r by lia. f_equal. lia. }
  destruct (decide (0 ≤ z)).
  - rewrite Z.mod_small by lia. destruct (Z.ltb_spec z (2 ^ (w - 1))); lia.
  - replace (z mod 2 ^ w) with (z + 2 ^ w).
    + destruct (Z.ltb_spec (z + 2 ^ w) (2 ^ (w - 1))); lia.
    + rewrite <- (Z.mod_small (z + 2 ^ w) (2 ^ w)) by lia.
      rewrite <- Z.add_mod_idemp_r by lia. rewrite Z.mod_same by lia.
      f_equal. lia.
Qed.

Lemma int32_small z : - 2 ^ 31 ≤ z < 2 ^ 31 → int32 z = z.
Proof. intros. apply (signed_small 32); lia. Qed.
Lemma int64_small z : - 2 ^ 63 ≤ z < 2 ^ 63 → int64 z = z.
Proof. intros. apply (signed_small 64); lia. Qed.

Lemma signed_range w z : 0 < w → - 2 ^ (w - 1) ≤ signed w z < 2 ^ (w - 1).
Proof.
  intros Hw. unfold signed.
  assert (2 ^ w = 2 * 2 ^ (w - 1)) as Hpow.
  { rewrite <- Z.pow_succ_r by lia. f_equal. lia. }
  pose proof (Z.mod_pos_bound z (2 ^ w)).
  destruct (Z.ltb_spec (z mod 2 ^ w) (2 ^ (w - 1))); lia.
Qed.

(** [div_lia]: linear arithmetic with quotients and remainders. *)
Ltac div_lia := Z.to_euclidean_division_equations; lia.

(** ** Searching a range of indices *)

Fixpoint find_from (P : Z → bool) (n : nat) (k : Z) : option Z :=
  match n with
  | O => None
  | S n => if P k then Some k else find_from P n (k + 1)
  end.

Lemma find_from_Some P n k j :
  find_from P n k = Some j ↔ k ≤ j < k + Z.of_nat n ∧ P j = true ∧ ∀ m, k ≤ m < j → P m = false.
Proof.
  revert k. induction n as [|n IH]; intros k; cbn [find_from].
  { split; [done|lia]. }
  destruct (P k) eqn:HP.
  - split; [intros [= <-]|].
    + split; [lia|]. split; [done|]. lia.
    + intros (Hj & _ & Hm). f_equal. destruct (decide (k = j)); [done|].
      by rewrite Hm in HP by lia.
  - rewrite IH. split.
    + intros (? & ? & Hm). split; [lia|]. split; [done|]. intros m ?.
      destruct (decide (m = k)) as [->|]; [done|]. apply Hm. lia.
    + intros (? & HPj & Hm). destruct (decide (j = k)) as [->|]; [congruence|].
      split; [lia|]. split; [done|]. intros m ?. apply Hm. lia.
Qed.

Lemma find_from_None P n k :
  find_from P n k = None ↔ ∀ m, k ≤ m < k + Z.of_nat n → P m = false.
Proof.
  revert k. induction n as [|n IH]; intros k; cbn [find_from].
  { split; [lia|done]. }
  destruct (P k) eqn:HP.
  - split; [done|]. intros Hm. rewrite Hm in HP by lia. done.
  - rewrite IH. split; intros Hm m ?; [|apply Hm; lia].
    destruct (decide (m = k)) as [->|]; [done|]. apply Hm. lia.
Qed.

Lemma find_from_ext P P' n k :
  (∀ m, k ≤ m < k + Z.of_nat n → P m = P' m) → find_from P n k = find_from P' n k.
Proof.
  revert k. induction n as [|n IH]; intros k Hext; cbn [find_from]; [done|].
  rewrite Hext by lia. destruct (P' k); [done|]. apply IH. intros. apply Hext. lia.
Qed.

(** ** Counting the entries of a map *)

Definition count_entries {A} (P : A → bool) (m : gmap Z A) : Z :=
  Z.of_nat (size (filter (λ kx, P kx.2 = true) m)).

Section count_entries.
Context {A : Type} (P : A → bool).
Implicit Types m : gmap Z A.

Lemma count_entries_fresh m k x :
  m !! k = None → count_entries P (<[k := x]> m) = count_entries P m + Z.b2z (P x).
Proof.
  intros Hk. unfold count_entries. destruct (P x) eqn:Hx; cbn [Z.b2z].
  - rewrite map_filter_insert_True by done.
    rewrite map_size_insert_None; [lia|]. apply map_lookup_filter_None. by left.
  - rewrite map_filter_insert_False by (cbn; congruence). rewrite delete_id by done. lia.
Qed.

Lemma count_entries_delete m k x :
  m !! k = Some x → count_entries P (delete k m) = count_entries P m - Z.b2z (P x).
Proof.
  intros Hk. rewrite <-(insert_delete_id _ _ _ Hk) at 2.
  rewrite count_entries_fresh by apply lookup_delete_eq. lia.
Qed.

Lemma count_entries_insert m k x y :
  m !! k = Some y →
  count_entries P (<[k := x]> m) = count_entries P m - Z.b2z (P y) + Z.b2z (P x).
Proof.
  intros Hk. rewrite <-insert_delete_eq, count_entries_fresh by apply lookup_delete_eq.
  by rewrite (count_entries_delete m k y).
Qed.

Lemma count_entries_nonneg m : 0 ≤ count_entries P m.
Proof. unfold count_entries. lia. Qed.

Lemma count_entries_pos m k x : m !! k = Some x → P x = true → 0 < count_entries P m.
Proof.
  intros Hk Hx. pose proof (count_entries_nonneg (delete k m)) as H.
  rewrite (count_entries_delete m k x Hk), Hx in H. cbn in H. lia.
Qed.

Lemma count_entries_zero m : (∀ k x, m !! k = Some x → P x = false) → count_entries P m = 0.
Proof.
  intros H. unfold count_entries. replace (filter _ m) with (∅ : gmap Z A); [done|].
  symmetry. apply map_empty. intros k. apply map_lookup_filter_None. right.
  intros x Hk. cbn. by rewrite (H k x Hk).
Qed.

Lemma count_entries_exists m : 0 < count_entries P m → ∃ k x, m !! k = Some x ∧ P x = true.
Proof.
  unfold count_entries. intros H. destruct (map_choose (filter (λ kx, P kx.2 = true) m)) as (k & x & Hk).
  { intros E. rewrite E in H. cbn in H. rewrite map_size_empty in H. lia. }
  apply map_lookup_filter_Some in Hk as [Hk Hx]. by exists k, x.
Qed.
End count_entries.

(** ** Filtering a list *)

Section list_filter.
Context {A : Type} (P : A → Prop) `{!∀ x, Decision (P x)}.

Lemma list_filter_all (l : list A) : (∀ x, x ∈ l → P x) → filter P l = l.
Proof.
  induction l as [|x l IH]; intros HP; [done|]. rewrite filter_cons_True by (apply HP; left).
  f_equal. apply IH. intros y Hy. apply HP. by right.
Qed.

Lemma list_filter_none (l : list A) : (∀ x, x ∈ l → ¬ P x) → filter P l = [].
Proof.
  induction l as [|x l IH]; intros HP; [done|]. rewrite filter_cons_False by (apply HP; left).
  apply IH. intros y Hy. apply HP. by right.
Qed.
End list_filter.

(** ** Hints shared by the components *)

Create HintDb cmodel.
#[export] Hint Resolve wrap8_range wrap32_range wrap64_range : cmodel.
Create Rewrite HintDb cmodel.
#[export] Hint Rewrite wrap8_small wrap32_small wrap64_small using lia : cmodel.
