(* ===== verification/KernelList.v ===== *)
(** * Doubly linked lists of the kernel ([lib/kernel/list.c])

    The memory is a map from addresses to [struct list_elem] objects.  A
    [struct list] at address [l] holds its head element at [l] and its tail
    element at [l + 8] (a [list_elem] is two 4-byte pointers).  Every
    operation of list.c is a program of the fault monad over that memory; the
    comparison function passed to the sorting operations is a boolean
    function of two element addresses ([less(a, b, aux)]; the operations never
    touch the objects the elements are embedded in). *)
From S2P Require Import Prelude.

Record list_elem := mk_list_elem { prev : Z; next : Z }.

Abbreviation heap := (gmap Z list_elem).

(** ** Memory accesses *)

Definition get_prev (e : Z) : M heap Z := λ h,
  match h !! e with Some x => Ok (prev x, h) | None => Err BadAccess end.
Definition get_next (e : Z) : M heap Z := λ h,
  match h !! e with Some x => Ok (next x, h) | None => Err BadAccess end.

Definition upd_prev (e v : Z) (h : heap) : heap :=
  alter (λ x, mk_list_elem v (next x)) e h.
Definition upd_next (e v : Z) (h : heap) : heap :=
  alter (λ x, mk_list_elem (prev x) v) e h.

Definition set_prev (e v : Z) : M heap unit := λ h,
  match h !! e with Some _ => Ok (tt, upd_prev e v h) | None => Err BadAccess end.
Definition set_next (e v : Z) : M heap unit := λ h,
  match h !! e with Some _ => Ok (tt, upd_next e v h) | None => Err BadAccess end.

(** Addresses of the two header elements of the list at [l]. *)
Definition head_of (l : Z) : Z := l.
Definition tail_of (l : Z) : Z := l + 8.
Arguments head_of : simpl never.
Arguments tail_of : simpl never.

(** ** Element kinds *)

Definition is_head (elem : Z) : M heap bool :=
  if elem =? NULL then mret false else
  p ← get_prev elem;
  if negb (p =? NULL) then mret false else
  n ← get_next elem; mret (negb (n =? NULL)).

Definition is_interior (elem : Z) : M heap bool :=
  if elem =? NULL then mret false else
  p ← get_prev elem;
  if p =? NULL then mret false else
  n ← get_next elem; mret (negb (n =? NULL)).

Definition is_tail (elem : Z) : M heap bool :=
  if elem =? NULL then mret false else
  p ← get_prev elem;
  if p =? NULL then mret false else
  n ← get_next elem; mret (n =? NULL).

(** [A || B] of two element tests, with C's short circuit. *)
Definition orM (a b : M heap bool) : M heap bool :=
  x ← a; if (x : bool) then mret true else b.

(** ** Creation and traversal *)

Definition list_init (l : Z) : M heap unit :=
  ASSERT (negb (l =? NULL)) ;;
  set_prev (head_of l) NULL ;;
  set_next (head_of l) (tail_of l) ;;
  set_prev (tail_of l) (head_of l) ;;
  set_next (tail_of l) NULL.

Definition list_begin (l : Z) : M heap Z :=
  ASSERT (negb (l =? NULL)) ;; get_next (head_of l).

Definition list_next (elem : Z) : M heap Z :=
  b ← orM (is_head elem) (is_interior elem); ASSERT b ;; get_next elem.

Definition list_end (l : Z) : M heap Z :=
  ASSERT (negb (l =? NULL)) ;; mret (tail_of l).

Definition list_rbegin (l : Z) : M heap Z :=
  ASSERT (negb (l =? NULL)) ;; get_prev (tail_of l).

Definition list_prev (elem : Z) : M heap Z :=
  b ← orM (is_interior elem) (is_tail elem); ASSERT b ;; get_prev elem.

Definition list_rend (l : Z) : M heap Z :=
  ASSERT (negb (l =? NULL)) ;; mret (head_of l).

Definition list_head (l : Z) : M heap Z :=
  ASSERT (negb (l =? NULL)) ;; mret (head_of l).

Definition list_tail (l : Z) : M heap Z :=
  ASSERT (negb (l =? NULL)) ;; mret (tail_of l).

(** ** Insertion and removal *)

Definition list_insert (before elem : Z) : M heap unit :=
  b ← orM (is_interior before) (is_tail before); ASSERT b ;;
  ASSERT (negb (elem =? NULL)) ;;
  p ← get_prev before; set_prev elem p ;;
  set_next elem before ;;
  p' ← get_prev before; set_next p' elem ;;
  set_prev before elem.

Definition list_splice (before first last : Z) : M heap unit :=
  b ← orM (is_interior before) (is_tail before); ASSERT b ;;
  if first =? last then mret tt else
  last ← list_prev last;
  bf ← is_interior first; ASSERT bf ;;
  bl ← is_interior last; ASSERT bl ;;
  (* Cleanly remove FIRST...LAST from its current list. *)
  fp ← get_prev first; ln ← get_next last; set_next fp ln ;;
  ln' ← get_next last; fp' ← get_prev first; set_prev ln' fp' ;;
  (* Splice FIRST...LAST into new list. *)
  bp ← get_prev before; set_prev first bp ;;
  set_next last before ;;
  bp' ← get_prev before; set_next bp' first ;;
  set_prev before last.

Definition list_push_front (l elem : Z) : M heap unit :=
  b ← list_begin l; list_insert b elem.

Definition list_push_back (l elem : Z) : M heap unit :=
  e ← list_end l; list_insert e elem.

Definition list_remove (elem : Z) : M heap Z :=
  b ← is_interior elem; ASSERT b ;;
  p ← get_prev elem; n ← get_next elem; set_next p n ;;
  n' ← get_next elem; p' ← get_prev elem; set_prev n' p' ;;
  get_next elem.

Definition list_empty (l : Z) : M heap bool :=
  b ← list_begin l; e ← list_end l; mret (b =? e).

Definition list_front (l : Z) : M heap Z :=
  e ← list_empty l; ASSERT (negb e) ;; get_next (head_of l).

Definition list_back (l : Z) : M heap Z :=
  e ← list_empty l; ASSERT (negb e) ;; get_prev (tail_of l).

Definition list_pop_front (l : Z) : M heap Z :=
  front ← list_front l; list_remove front ;; mret front.

Definition list_pop_back (l : Z) : M heap Z :=
  back ← list_back l; list_remove back ;; mret back.

(** ** Size and reversal *)

Fixpoint list_size_loop (fuel : nat) (l e cnt : Z) : M heap Z :=
  match fuel with
  | O => throw OutOfFuel
  | S fuel =>
      t ← list_end l;
      if e =? t then mret cnt else
      e' ← list_next e; list_size_loop fuel l e' (wrap32 (cnt + 1))
  end.

Definition list_size (fuel : nat) (l : Z) : M heap Z :=
  e ← list_begin l; list_size_loop fuel l e 0.

(** [swap(&e->prev, &e->next)], [swap(&a->next, &b->prev)] and
    [swap(&a->prev, &b->next)]: the three instances of swap() in list_reverse(). *)
Definition swap_prev_next (e : Z) : M heap unit :=
  t ← get_prev e; n ← get_next e; set_prev e n ;; set_next e t.
Definition swap_next_prev (a b : Z) : M heap unit :=
  t ← get_next a; p ← get_prev b; set_next a p ;; set_prev b t.
Definition swap_prev_next2 (a b : Z) : M heap unit :=
  t ← get_prev a; n ← get_next b; set_prev a n ;; set_next b t.

Fixpoint list_reverse_loop (fuel : nat) (l e : Z) : M heap unit :=
  match fuel with
  | O => throw OutOfFuel
  | S fuel =>
      t ← list_end l;
      if e =? t then mret tt else
      swap_prev_next e ;;
      e' ← get_prev e; list_reverse_loop fuel l e'
  end.

Definition list_reverse (fuel : nat) (l : Z) : M heap unit :=
  em ← list_empty l;
  if (em : bool) then mret tt else
  e ← list_begin l;
  list_reverse_loop fuel l e ;;
  swap_next_prev (head_of l) (tail_of l) ;;
  hn ← get_next (head_of l); tp ← get_prev (tail_of l);
  swap_prev_next2 hn tp.

(** ** Ordered operations *)

Section ordered.
Context (less : Z → Z → bool).

Fixpoint is_sorted_loop (fuel : nat) (a b : Z) : M heap bool :=
  match fuel with
  | O => throw OutOfFuel
  | S fuel =>
      a ← list_next a;
      if a =? b then mret true else
      p ← list_prev a;
      if less a p then mret false else is_sorted_loop fuel a b
  end.

Definition is_sorted (fuel : nat) (a b : Z) : M heap bool :=
  if a =? b then mret true else is_sorted_loop fuel a b.

Fixpoint find_end_of_run_loop (fuel : nat) (a b : Z) : M heap Z :=
  match fuel with
  | O => throw OutOfFuel
  | S fuel =>
      a ← list_next a;
      if a =? b then mret a else
      p ← list_prev a;
      if negb (less a p) then find_end_of_run_loop fuel a b else mret a
  end.

Definition find_end_of_run (fuel : nat) (a b : Z) : M heap Z :=
  ASSERT (negb (a =? NULL)) ;;
  ASSERT (negb (b =? NULL)) ;;
  ASSERT (negb (a =? b)) ;;
  find_end_of_run_loop fuel a b.

Fixpoint inplace_merge_loop (fuel : nat) (a0 a1b0 b1 : Z) : M heap unit :=
  match fuel with
  | O => throw OutOfFuel
  | S fuel =>
      if (a0 =? a1b0) || (a1b0 =? b1) then mret tt else
      if negb (less a1b0 a0) then
        a0 ← list_next a0; inplace_merge_loop fuel a0 a1b0 b1
      else
        a1b0 ← list_next a1b0;
        f ← list_prev a1b0; list_splice a0 f a1b0 ;;
        inplace_merge_loop fuel a0 a1b0 b1
  end.

Definition inplace_merge (fuel : nat) (a0 a1b0 b1 : Z) : M heap unit :=
  ASSERT (negb (a0 =? NULL)) ;;
  ASSERT (negb (a1b0 =? NULL)) ;;
  ASSERT (negb (b1 =? NULL)) ;;
  s1 ← is_sorted fuel a0 a1b0; ASSERT s1 ;;
  s2 ← is_sorted fuel a1b0 b1; ASSERT s2 ;;
  inplace_merge_loop fuel a0 a1b0 b1.

(** One pass of the [do] loop of list_sort(); returns [output_run_cnt]. *)
Fixpoint list_sort_pass (fuel0 fuel : nat) (l a0 cnt : Z) : M heap Z :=
  match fuel with
  | O => throw OutOfFuel
  | S fuel =>
      t ← list_end l;
      if a0 =? t then mret cnt else
      let cnt := wrap32 (cnt + 1) in
      t1 ← list_end l;
      a1b0 ← find_end_of_run fuel0 a0 t1;
      t2 ← list_end l;
      if a1b0 =? t2 then mret cnt else
      t3 ← list_end l;
      b1 ← find_end_of_run fuel0 a1b0 t3;
      inplace_merge fuel0 a0 a1b0 b1 ;;
      list_sort_pass fuel0 fuel l b1 cnt
  end.

Fixpoint list_sort_loop (fuel0 fuel : nat) (l : Z) : M heap unit :=
  match fuel with
  | O => throw OutOfFuel
  | S fuel =>
      a0 ← list_begin l;
      output_run_cnt ← list_sort_pass fuel0 fuel0 l a0 0;
      if 1 <? output_run_cnt then list_sort_loop fuel0 fuel l else mret tt
  end.

Definition list_sort (fuel : nat) (l : Z) : M heap unit :=
  ASSERT (negb (l =? NULL)) ;;
  list_sort_loop fuel fuel l ;;
  b ← list_begin l; e ← list_end l;
  s ← is_sorted fuel b e; ASSERT s.

Fixpoint list_insert_ordered_loop (fuel : nat) (l elem e : Z) : M heap Z :=
  match fuel with
  | O => throw OutOfFuel
  | S fuel =>
      t ← list_end l;
      if e =? t then mret e else
      if less elem e then mret e else
      e' ← list_next e; list_insert_ordered_loop fuel l elem e'
  end.

Definition list_insert_ordered (fuel : nat) (l elem : Z) : M heap unit :=
  ASSERT (negb (l =? NULL)) ;;
  ASSERT (negb (elem =? NULL)) ;;
  e0 ← list_begin l;
  e ← list_insert_ordered_loop fuel l elem e0;
  list_insert e elem.

Fixpoint list_unique_loop (fuel : nat) (l duplicates elem : Z) : M heap unit :=
  match fuel with
  | O => throw OutOfFuel
  | S fuel =>
      nx ← list_next elem;
      t ← list_end l;
      if nx =? t then mret tt else
      if negb (less elem nx) && negb (less nx elem) then
        list_remove nx ;;
        when (negb (duplicates =? NULL)) (list_push_back duplicates nx) ;;
        list_unique_loop fuel l duplicates elem
      else list_unique_loop fuel l duplicates nx
  end.

Definition list_unique (fuel : nat) (l duplicates : Z) : M heap unit :=
  ASSERT (negb (l =? NULL)) ;;
  em ← list_empty l;
  if (em : bool) then mret tt else
  elem ← list_begin l; list_unique_loop fuel l duplicates elem.

Fixpoint list_max_loop (fuel : nat) (l mx e : Z) : M heap Z :=
  match fuel with
  | O => throw OutOfFuel
  | S fuel =>
      t ← list_end l;
      if e =? t then mret mx else
      let mx := if less mx e then e else mx in
      e' ← list_next e; list_max_loop fuel l mx e'
  end.

Definition list_max (fuel : nat) (l : Z) : M heap Z :=
  mx ← list_begin l;
  t ← list_end l;
  if mx =? t then mret mx else
  e ← list_next mx; list_max_loop fuel l mx e.

Fixpoint list_min_loop (fuel : nat) (l mn e : Z) : M heap Z :=
  match fuel with
  | O => throw OutOfFuel
  | S fuel =>
      t ← list_end l;
      if e =? t then mret mn else
      let mn := if less e mn then e else mn in
      e' ← list_next e; list_min_loop fuel l mn e'
  end.

Definition list_min (fuel : nat) (l : Z) : M heap Z :=
  mn ← list_begin l;
  t ← list_end l;
  if mn =? t then mret mn else
  e ← list_next mn; list_min_loop fuel l mn e.
End ordered.

(** ** Representation

    [chain h ns]: in [h] every node of [ns] is linked to the one after it, in
    both directions.  [nodes h ns]: [ns] are all the nodes of a well-formed
    list, headers included.  [dll h l xs]: the list at [l] holds exactly the
    elements [xs], in order. *)

Definition nxt (h : heap) (a : Z) : option Z := next <$> h !! a.
Definition prv (h : heap) (a : Z) : option Z := prev <$> h !! a.

Fixpoint chain (h : heap) (ns : list Z) : Prop :=
  match ns with
  | a :: ((b :: _) as tl) => nxt h a = Some b ∧ prv h b = Some a ∧ chain h tl
  | _ => True
  end.

Record nodes (h : heap) (ns : list Z) : Prop := {
  nodes_chain : chain h ns;
  nodes_NoDup : NoDup ns;
  nodes_nonnull : NULL ∉ ns;
  nodes_first : prv h <$> list.head ns = Some (Some NULL);
  nodes_last : nxt h <$> list.last ns = Some (Some NULL);
}.

Definition all_nodes (l : Z) (xs : list Z) : list Z :=
  head_of l :: xs ++ [tail_of l].

Definition dll (h : heap) (l : Z) (xs : list Z) : Prop :=
  nodes h (all_nodes l xs).

(** What an operation leaves alone: every object outside [ns], and the set of
    allocated objects. *)
Definition frame (h h' : heap) (ns : list Z) : Prop :=
  dom h' = dom h ∧ ∀ a, a ∉ ns → h' !! a = h !! a.

Lemma frame_refl h ns : frame h h ns.
Proof. done. Qed.

Lemma frame_trans h1 h2 h3 ns : frame h1 h2 ns → frame h2 h3 ns → frame h1 h3 ns.
Proof.
  intros [Hd1 H1] [Hd2 H2]. split; [congruence|].
  intros a Ha. rewrite H2 by done. by apply H1.
Qed.

Lemma frame_weaken h h' ns ns' : frame h h' ns → ns ⊆ ns' → frame h h' ns'.
Proof. intros [Hd H] Hsub. split; [done|]. intros a Ha. apply H. set_solver. Qed.

(** *** Field updates *)

Lemma nxt_upd_next_eq h a v : is_Some (h !! a) → nxt (upd_next a v h) a = Some v.
Proof. intros [x Hx]. unfold nxt, upd_next. by rewrite lookup_alter_eq, Hx. Qed.
Lemma prv_upd_prev_eq h a v : is_Some (h !! a) → prv (upd_prev a v h) a = Some v.
Proof. intros [x Hx]. unfold prv, upd_prev. by rewrite lookup_alter_eq, Hx. Qed.
Lemma nxt_upd_next_ne h a v c : a ≠ c → nxt (upd_next a v h) c = nxt h c.
Proof. intros Ha. unfold nxt, upd_next. by rewrite lookup_alter_ne. Qed.
Lemma prv_upd_prev_ne h a v c : a ≠ c → prv (upd_prev a v h) c = prv h c.
Proof. intros Ha. unfold prv, upd_prev. by rewrite lookup_alter_ne. Qed.
Lemma nxt_upd_prev h a v c : nxt (upd_prev a v h) c = nxt h c.
Proof.
  unfold nxt, upd_prev. rewrite lookup_alter. case_decide; [subst|done].
  by destruct (h !! c).
Qed.
Lemma prv_upd_next h a v c : prv (upd_next a v h) c = prv h c.
Proof.
  unfold prv, upd_next. rewrite lookup_alter. case_decide; [subst|done].
  by destruct (h !! c).
Qed.

Lemma upd_next_is_Some h a v c : is_Some (upd_next a v h !! c) ↔ is_Some (h !! c).
Proof. unfold upd_next. rewrite lookup_alter. case_decide; [subst|done]. apply fmap_is_Some. Qed.
Lemma upd_prev_is_Some h a v c : is_Some (upd_prev a v h !! c) ↔ is_Some (h !! c).
Proof. unfold upd_prev. rewrite lookup_alter. case_decide; [subst|done]. apply fmap_is_Some. Qed.

Lemma frame_upd_next h a v ns : a ∈ ns → frame h (upd_next a v h) ns.
Proof.
  intros Ha. split.
  - apply set_eq. intros x. rewrite !elem_of_dom. apply upd_next_is_Some.
  - intros c Hc. apply lookup_alter_ne. intros ->. done.
Qed.
Lemma frame_upd_prev h a v ns : a ∈ ns → frame h (upd_prev a v h) ns.
Proof.
  intros Ha. split.
  - apply set_eq. intros x. rewrite !elem_of_dom. apply upd_prev_is_Some.
  - intros c Hc. apply lookup_alter_ne. intros ->. done.
Qed.

Lemma nxt_is_Some h a v : nxt h a = Some v → is_Some (h !! a).
Proof. unfold nxt. intros H. destruct (h !! a); [eauto|done]. Qed.
Lemma prv_is_Some h a v : prv h a = Some v → is_Some (h !! a).
Proof. unfold prv. intros H. destruct (h !! a); [eauto|done]. Qed.

(** Rewrites the field of an object after updates; leaves the side conditions
    [a ≠ c] to [fld_ne]. *)
Ltac fld_ne := first [assumption | apply not_eq_sym; assumption].
Ltac fld_valid :=
  repeat first [rewrite upd_next_is_Some | rewrite upd_prev_is_Some];
  eauto using nxt_is_Some, prv_is_Some.
Ltac fld_rw :=
  repeat first
    [ rewrite nxt_upd_prev | rewrite prv_upd_next
    | rewrite nxt_upd_next_ne by fld_ne
    | rewrite prv_upd_prev_ne by fld_ne
    | rewrite nxt_upd_next_eq by fld_valid
    | rewrite prv_upd_prev_eq by fld_valid ].

(** *** Running the accesses *)

Lemma wp_get_next e v (Q : Z → heap → Prop) h :
  nxt h e = Some v → Q v h → wp (get_next e) Q h.
Proof.
  unfold nxt, wp, get_next. destruct (h !! e); [|done]. by intros [= ->].
Qed.
Lemma wp_get_prev e v (Q : Z → heap → Prop) h :
  prv h e = Some v → Q v h → wp (get_prev e) Q h.
Proof.
  unfold prv, wp, get_prev. destruct (h !! e); [|done]. by intros [= ->].
Qed.
Lemma wp_set_next e v (Q : unit → heap → Prop) h :
  is_Some (h !! e) → Q tt (upd_next e v h) → wp (set_next e v) Q h.
Proof. intros [x Hx] HQ. unfold wp, set_next. by rewrite Hx. Qed.
Lemma wp_set_prev e v (Q : unit → heap → Prop) h :
  is_Some (h !! e) → Q tt (upd_prev e v h) → wp (set_prev e v) Q h.
Proof. intros [x Hx] HQ. unfold wp, set_prev. by rewrite Hx. Qed.

Lemma wp_orM_true a b (Q : bool → heap → Prop) h :
  (∃ x, wp a (λ r h', r = x ∧ h' = h) h ∧
        (x = true ∨ x = false ∧ wp b (λ r h', r = true ∧ h' = h) h)) →
  Q true h → wp (orM a b) Q h.
Proof.
  intros (x & Ha & Hx) HQ. apply wp_bind. eapply wp_mono; [exact Ha|].
  intros r h' [-> ->]. destruct Hx as [->|[-> Hb]]; [by apply wp_ret|].
  eapply wp_mono; [exact Hb|]. by intros r h' [-> ->].
Qed.

(** *** Chains *)

Lemma chain_ext h h' ns :
  (∀ x, x ∈ removelast ns → nxt h' x = nxt h x) →
  (∀ x, x ∈ tail ns → prv h' x = prv h x) →
  chain h ns → chain h' ns.
Proof.
  induction ns as [|a [|b tl] IH]; intros Hn Hp Hc; try done.
  destruct Hc as (H1 & H2 & H3). cbn [chain].
  split; [|split].
  - rewrite Hn; [done|]. simpl. set_solver.
  - rewrite Hp; [done|]. simpl. set_solver.
  - apply IH; [| |done]; intros x Hx.
    + apply Hn. change (x ∈ a :: removelast (b :: tl)). set_solver.
    + apply Hp. simpl in *. set_solver.
Qed.

Lemma chain_mid h P p b S :
  chain h (P ++ p :: b :: S) ↔
  chain h (P ++ [p]) ∧ nxt h p = Some b ∧ prv h b = Some p ∧ chain h (b :: S).
Proof.
  induction P as [|a P IH].
  - simpl. naive_solver.
  - destruct P as [|c P]; cbn in *; naive_solver.
Qed.

Lemma chain_app_l h P S : chain h (P ++ S) → chain h P.
Proof.
  induction P as [|a P IH]; [done|].
  destruct P as [|c P]; cbn in *; naive_solver.
Qed.

Lemma removelast_snoc (P : list Z) p : removelast (P ++ [p]) = P.
Proof. apply removelast_last. Qed.

Lemma elem_of_removelast (ns : list Z) x : x ∈ removelast ns → x ∈ ns.
Proof.
  induction ns as [|a [|b ns] IH]; [done| |]; cbn [removelast].
  - set_solver.
  - rewrite !elem_of_cons in *. naive_solver.
Qed.

Lemma elem_of_tail (ns : list Z) x : x ∈ tail ns → x ∈ ns.
Proof. destruct ns; [done|]. simpl. set_solver. Qed.

Lemma nodes_mid h P p b S :
  nodes h (P ++ p :: b :: S) →
  nxt h p = Some b ∧ prv h b = Some p ∧ p ≠ NULL ∧ b ≠ NULL.
Proof.
  intros []. rewrite chain_mid in *. naive_solver set_solver.
Qed.

Lemma nodes_is_Some h P a S : nodes h (P ++ a :: S) → S ≠ [] ∨ P ≠ [] → is_Some (h !! a).
Proof.
  intros [Hc _ _ Hf Hl] H. destruct S as [|s S].
  - destruct H as [|HP]; [done|].
    destruct P as [|p0 P0] using rev_ind; [done|]. clear IHP0.
    rewrite <- app_assoc in Hc. simpl in Hc. apply chain_mid in Hc as (_ & _ & Hp & _).
    by eapply prv_is_Some.
  - apply chain_mid in Hc as (_ & Hn & _). by eapply nxt_is_Some.
Qed.

(** *** Element tests and single steps *)

Section tests.
Context (h : heap) (e p n : Z).
Context (Hp : prv h e = Some p) (Hn : nxt h e = Some n) (He : e ≠ NULL).

Lemma wp_is_head (Q : bool → heap → Prop) :
  Q ((p =? NULL) && negb (n =? NULL)) h → wp (is_head e) Q h.
Proof.
  intros HQ. unfold is_head. rewrite (proj2 (Z.eqb_neq e 0)) by done.
  apply wp_bind. eapply wp_get_prev; [done|].
  destruct (p =? 0); simpl; [|done].
  apply wp_bind. eapply wp_get_next; [done|]. by apply wp_ret.
Qed.

Lemma wp_is_interior (Q : bool → heap → Prop) :
  Q (negb (p =? NULL) && negb (n =? NULL)) h → wp (is_interior e) Q h.
Proof.
  intros HQ. unfold is_interior. rewrite (proj2 (Z.eqb_neq e 0)) by done.
  apply wp_bind. eapply wp_get_prev; [done|].
  destruct (p =? 0); simpl; [done|].
  apply wp_bind. eapply wp_get_next; [done|]. by apply wp_ret.
Qed.

Lemma wp_is_tail (Q : bool → heap → Prop) :
  Q (negb (p =? NULL) && (n =? NULL)) h → wp (is_tail e) Q h.
Proof.
  intros HQ. unfold is_tail. rewrite (proj2 (Z.eqb_neq e 0)) by done.
  apply wp_bind. eapply wp_get_prev; [done|].
  destruct (p =? 0); simpl; [done|].
  apply wp_bind. eapply wp_get_next; [done|]. by apply wp_ret.
Qed.

Lemma wp_head_or_interior (Q : bool → heap → Prop) :
  n ≠ NULL → Q true h → wp (orM (is_head e) (is_interior e)) Q h.
Proof.
  intros Hn0 HQ. apply wp_orM_true; [|done].
  exists ((p =? 0) && negb (n =? 0)). split; [by apply wp_is_head|].
  rewrite (proj2 (Z.eqb_neq n 0)) by done.
  destruct (p =? 0) eqn:E; [by left|right]. split; [done|].
  apply wp_is_interior. by rewrite E, (proj2 (Z.eqb_neq n 0)).
Qed.

Lemma wp_interior_or_tail (Q : bool → heap → Prop) :
  p ≠ NULL → Q true h → wp (orM (is_interior e) (is_tail e)) Q h.
Proof.
  intros Hp0 HQ. apply wp_orM_true; [|done].
  exists (negb (p =? 0) && negb (n =? 0)). split; [by apply wp_is_interior|].
  rewrite (proj2 (Z.eqb_neq p 0)) by done. simpl.
  destruct (n =? 0) eqn:E; [right|by left]. split; [done|].
  apply wp_is_tail. by rewrite E, (proj2 (Z.eqb_neq p 0)).
Qed.

Lemma wp_list_next (Q : Z → heap → Prop) :
  n ≠ NULL → Q n h → wp (list_next e) Q h.
Proof.
  intros Hn0 HQ. unfold list_next. wp_step. apply wp_head_or_interior; [done|].
  wp_step. wp_step; [done|]. by eapply wp_get_next.
Qed.

Lemma wp_list_prev (Q : Z → heap → Prop) :
  p ≠ NULL → Q p h → wp (list_prev e) Q h.
Proof.
  intros Hp0 HQ. unfold list_prev. wp_step. apply wp_interior_or_tail; [done|].
  wp_step. wp_step; [done|]. by eapply wp_get_prev.
Qed.
End tests.

Lemma is_Some_fields h a : is_Some (h !! a) → ∃ p n, prv h a = Some p ∧ nxt h a = Some n.
Proof. intros [x Hx]. exists (prev x), (next x). unfold prv, nxt. by rewrite Hx. Qed.

Lemma wp_nodes_next h P a b S (Q : Z → heap → Prop) :
  nodes h (P ++ a :: b :: S) → Q b h → wp (list_next a) Q h.
Proof.
  intros Hns HQ.
  destruct (nodes_mid _ _ _ _ _ Hns) as (Hn & Hp & Ha & Hb).
  destruct (is_Some_fields h a) as (p & n & Hpa & Hna).
  { by eapply nxt_is_Some. }
  by apply (wp_list_next h a p b).
Qed.

Lemma wp_nodes_prev h P a b S (Q : Z → heap → Prop) :
  nodes h (P ++ a :: b :: S) → Q a h → wp (list_prev b) Q h.
Proof.
  intros Hns HQ.
  destruct (nodes_mid _ _ _ _ _ Hns) as (Hn & Hp & Ha & Hb).
  destruct (is_Some_fields h b) as (p & n & Hpa & Hna).
  { by eapply prv_is_Some. }
  by apply (wp_list_prev h b a n).
Qed.

(** *** Insertion, removal and splicing *)

Lemma last_fmap_ext h h' (ns : list Z) :
  (∀ x, x ∈ ns → nxt h' x = nxt h x) → nxt h' <$> list.last ns = nxt h <$> list.last ns.
Proof.
  intros H. destruct (list.last ns) eqn:E; [|done].
  simpl. f_equal. apply H. by apply last_Some_elem_of.
Qed.

Lemma head_fmap_ext h h' (ns : list Z) :
  (∀ x, x ∈ ns → prv h' x = prv h x) → prv h' <$> list.head ns = prv h <$> list.head ns.
Proof. intros H. destruct ns; [done|]. simpl. f_equal. apply H. set_solver. Qed.

Lemma head_mid (P : list Z) p S S' : list.head (P ++ p :: S) = list.head (P ++ p :: S').
Proof. by destruct P. Qed.

Lemma NoDup_mid (P S : list Z) a :
  NoDup (P ++ a :: S) ↔ (a ∉ P) ∧ (a ∉ S) ∧ (∀ x, x ∈ P → x ∉ S) ∧ NoDup P ∧ NoDup S.
Proof.
  rewrite NoDup_app, NoDup_cons. setoid_rewrite elem_of_cons. naive_solver.
Qed.

(** Extensionality of the four conjuncts of [nodes] that speak of the memory,
    for the part before and the part after a cut. *)
Lemma chain_ext_l h h' P p :
  chain h (P ++ [p]) →
  (∀ x, x ∈ P → nxt h' x = nxt h x) → (∀ x, x ∈ P ++ [p] → prv h' x = prv h x) →
  chain h' (P ++ [p]).
Proof.
  intros Hc Hn Hp. eapply chain_ext; [| |done].
  - intros x. rewrite removelast_snoc. apply Hn.
  - intros x Hx%elem_of_tail. by apply Hp.
Qed.

Lemma chain_ext_r h h' b S :
  chain h (b :: S) →
  (∀ x, x ∈ b :: S → nxt h' x = nxt h x) → (∀ x, x ∈ S → prv h' x = prv h x) →
  chain h' (b :: S).
Proof.
  intros Hc Hn Hp. eapply chain_ext; [| |done].
  - intros x Hx%elem_of_removelast. by apply Hn.
  - intros x Hx. by apply Hp.
Qed.

(** The memory [h'] differs from [h] at most in the [next] fields of [N] and in
    the [prev] fields of [V]. *)
Definition relinked (h h' : heap) (N V : list Z) : Prop :=
  dom h' = dom h ∧
  (∀ x, x ∉ N → nxt h' x = nxt h x) ∧ (∀ x, x ∉ V → prv h' x = prv h x).

Lemma relinked_refl h : relinked h h [] [].
Proof. done. Qed.
Lemma relinked_next h h' N V a v :
  relinked h h' N V → relinked h (upd_next a v h') (a :: N) V.
Proof.
  intros (Hd & HN & HV). split; [|split].
  - rewrite <- Hd. apply (frame_upd_next h' a v [a]). set_solver.
  - intros x Hx. rewrite nxt_upd_next_ne by set_solver. apply HN. set_solver.
  - intros x Hx. rewrite prv_upd_next. by apply HV.
Qed.
Lemma relinked_prev h h' N V a v :
  relinked h h' N V → relinked h (upd_prev a v h') N (a :: V).
Proof.
  intros (Hd & HN & HV). split; [|split].
  - rewrite <- Hd. apply (frame_upd_prev h' a v [a]). set_solver.
  - intros x Hx. rewrite nxt_upd_prev. by apply HN.
  - intros x Hx. rewrite prv_upd_prev_ne by set_solver. apply HV. set_solver.
Qed.
Create HintDb relinked.
#[export] Hint Resolve relinked_refl relinked_next relinked_prev : relinked.

Lemma relinked_is_Some h h' N V a : relinked h h' N V → is_Some (h' !! a) ↔ is_Some (h !! a).
Proof. intros (Hd & _). by rewrite <- !elem_of_dom, Hd. Qed.

Lemma relinked_frame h h' N V : relinked h h' N V → frame h h' (N ++ V).
Proof.
  intros (Hd & HN & HV). split; [done|]. intros a [HaN HaV]%not_elem_of_app.
  specialize (HN a HaN). specialize (HV a HaV). unfold nxt, prv in *.
  destruct (h' !! a) as [[]|], (h !! a) as [[]|]; naive_solver.
Qed.

(** Replacing the nodes between [p] and [b] by another chain keeps a list
    well formed, when nothing else was relinked. *)
Lemma nodes_replace h h' P p X Y b S N V :
  nodes h (P ++ p :: X ++ b :: S) →
  relinked h h' N V →
  chain h' (p :: Y ++ [b]) →
  NoDup Y → NULL ∉ Y → Y ## P ++ p :: b :: S →
  N ## P ++ b :: S → V ## P ++ p :: S →
  nodes h' (P ++ p :: Y ++ b :: S).
Proof.
  intros [Hc Hnd H0 Hf Hl] (_ & HN & HV) HY HndY HY0 Hdis HNd HVd.
  assert (chain h (P ++ [p]) ∧ chain h (b :: S)) as [Hc1 Hc2].
  { split.
    - apply (chain_app_l _ _ (X ++ b :: S)). by rewrite <- app_assoc.
    - clear -Hc. change (P ++ p :: X ++ b :: S) with (P ++ (p :: X) ++ b :: S) in Hc.
      rewrite app_assoc in Hc. induction (P ++ p :: X) as [|a [|c l] IH]; simpl in *; naive_solver. }
  apply NoDup_mid in Hnd as (Hn1 & Hn2 & Hn3 & Hn4 & Hn5).
  apply NoDup_mid in Hn5 as (Hn6 & Hn7 & Hn8 & Hn9 & Hn10).
  split.
  - assert (chain h' (P ++ [p])) as Hc1'.
    { eapply chain_ext_l; [done| |]; intros x Hx; [apply HN|apply HV]; set_solver. }
    assert (chain h' (b :: S)) as Hc2'.
    { eapply chain_ext_r; [done| |]; intros x Hx; [apply HN|apply HV]; set_solver. }
    clear -Hc1' Hc2' HY. destruct Y as [|y Y].
    + apply chain_mid. simpl in HY. naive_solver.
    + simpl in HY. destruct HY as (? & ? & HY). apply chain_mid. split; [done|].
      split; [done|]. split; [done|]. clear -HY Hc2'.
      revert y HY. induction Y as [|z Y IH]; intros y HY; simpl in *; naive_solver.
  - apply NoDup_mid. rewrite NoDup_mid. set_solver.
  - set_solver.
  - rewrite (head_mid P p _ []). rewrite (head_mid P p _ []) in Hf. rewrite <- Hf.
    apply head_fmap_ext. intros x Hx. apply HV. set_solver.
  - change (P ++ p :: Y ++ b :: S) with (P ++ (p :: Y) ++ b :: S).
    change (P ++ p :: X ++ b :: S) with (P ++ (p :: X) ++ b :: S) in Hl.
    rewrite app_assoc, last_app_cons in *. rewrite <- Hl.
    apply last_fmap_ext. intros x Hx. apply HN. set_solver.
Qed.

Lemma wp_list_insert h P p b S e (Q : unit → heap → Prop) :
  nodes h (P ++ p :: b :: S) → e ∉ P ++ p :: b :: S → e ≠ NULL → is_Some (h !! e) →
  (∀ h', nodes h' (P ++ p :: e :: b :: S) → frame h h' [p; e; b] → Q tt h') →
  wp (list_insert b e) Q h.
Proof.
  intros Hns He He0 Hea HQ.
  destruct (nodes_mid _ _ _ _ _ Hns) as (Hnp & Hpb & Hp0 & Hb0).
  destruct (is_Some_fields h b) as (pb & nb & Hpb' & Hnb); [by eapply prv_is_Some|].
  assert (pb = p) as -> by congruence. clear Hpb'.
  pose proof (nodes_NoDup _ _ Hns) as Hnd.
  apply NoDup_mid in Hnd. rewrite NoDup_cons in Hnd.
  assert (e ≠ p ∧ e ≠ b ∧ p ≠ b) as (Hep & Heb & Hpb0) by set_solver.
  unfold list_insert. wp_step.
  eapply (wp_interior_or_tail h b p nb); [done..|]. wp_step. wp_step; [done|].
  wp_step. wp_step; [by rewrite (proj2 (Z.eqb_neq e 0))|].
  wp_step. eapply wp_get_prev; [done|]. wp_step. apply wp_set_prev; [done|].
  wp_step. apply wp_set_next; [fld_valid|].
  wp_step. eapply wp_get_prev; [by fld_rw|].
  wp_step. apply wp_set_next; [fld_valid|]. apply wp_set_prev; [fld_valid|].
  match goal with |- Q tt ?h' => assert (relinked h h' [p; e] [b; e]) as Hrel by eauto with relinked end.
  apply HQ.
  - eapply (nodes_replace h _ P p [] [e] b S); [done|done| |apply NoDup_singleton|..].
    { simpl. repeat split; by fld_rw. }
    all: clear -Hnd He He0 Hep Heb Hpb0; set_solver.
  - apply relinked_frame in Hrel. eapply frame_weaken; [done|]. set_solver.
Qed.

Lemma wp_list_remove h P p e n S (Q : Z → heap → Prop) :
  nodes h (P ++ p :: e :: n :: S) →
  (∀ h', nodes h' (P ++ p :: n :: S) → frame h h' [p; n] → Q n h') →
  wp (list_remove e) Q h.
Proof.
  intros Hns HQ.
  destruct (nodes_mid _ _ _ _ _ Hns) as (Hnp & Hpe & Hp0 & He0).
  change (P ++ p :: e :: n :: S) with (P ++ [p] ++ e :: n :: S) in Hns.
  rewrite app_assoc in Hns.
  destruct (nodes_mid _ _ _ _ _ Hns) as (Hne & Hpn & _ & Hn0).
  rewrite <- app_assoc in Hns. simpl in Hns.
  pose proof (nodes_NoDup _ _ Hns) as Hnd.
  apply NoDup_mid in Hnd. rewrite !NoDup_cons in Hnd.
  assert (e ≠ p ∧ e ≠ n ∧ p ≠ n) as (Hep & Hen & Hpn0) by set_solver.
  unfold list_remove. wp_step. apply (wp_is_interior h e p n); [done..|].
  wp_step. wp_step.
  { by rewrite (proj2 (Z.eqb_neq p 0)), (proj2 (Z.eqb_neq n 0)). }
  wp_step. eapply wp_get_prev; [done|]. wp_step. eapply wp_get_next; [done|].
  wp_step. apply wp_set_next; [by eapply nxt_is_Some|].
  wp_step. eapply wp_get_next; [by fld_rw|]. wp_step. eapply wp_get_prev; [by fld_rw|].
  wp_step. apply wp_set_prev; [fld_valid|].
  eapply wp_get_next; [by fld_rw|].
  match goal with |- Q n ?h' => assert (relinked h h' [p] [n]) as Hrel by eauto with relinked end.
  apply HQ.
  - eapply (nodes_replace h _ P p [e] [] n S); [done|done| |apply NoDup_nil_2|..].
    { simpl. repeat split; by fld_rw. }
    all: clear -Hnd Hep Hen Hpn0; set_solver.
  - apply relinked_frame in Hrel. eapply frame_weaken; [done|]. set_solver.
Qed.

(** The six assignments of list_splice(): the segment [f] ... [t] leaves the
    place between [g] and [c] and lands between [p] and [b]. *)
Definition splice_heap (h : heap) (p b f t g c : Z) : heap :=
  upd_prev b t (upd_next p f (upd_next t b (upd_prev f p (upd_prev c g (upd_next g c h))))).

Lemma wp_list_splice_exec h p b nb f t g c nf pt nc (Q : unit → heap → Prop) :
  prv h b = Some p → nxt h b = Some nb → is_Some (h !! p) →
  prv h f = Some g → nxt h f = Some nf → prv h t = Some pt → nxt h t = Some c →
  prv h c = Some t → nxt h c = Some nc → is_Some (h !! g) →
  NULL ∉ [b; p; f; g; nf; t; pt; c] →
  f ≠ c → t ≠ g → b ≠ c → b ≠ f → f ≠ c →
  Q tt (splice_heap h p b f t g c) →
  wp (list_splice b f c) Q h.
Proof.
  intros Hpb Hnb Hp Hpf Hnf Hpt Hnt Hpc Hnc Hg H0 ????? HQ.
  assert (b ≠ 0 ∧ p ≠ 0 ∧ f ≠ 0 ∧ g ≠ 0 ∧ nf ≠ 0 ∧ t ≠ 0 ∧ pt ≠ 0 ∧ c ≠ 0)
    as (?&?&?&?&?&?&?&?) by (rewrite !not_elem_of_cons in H0; naive_solver).
  unfold list_splice. wp_step. eapply (wp_interior_or_tail h b p nb); [done..|].
  wp_step. wp_step; [done|]. rewrite (proj2 (Z.eqb_neq f c)) by done. wp_step.
  apply (wp_list_prev h c t nc); [done..|].
  wp_step. eapply (wp_is_interior h f g nf); [done..|]. wp_step. wp_step.
  { by rewrite (proj2 (Z.eqb_neq g 0)), (proj2 (Z.eqb_neq nf 0)). }
  wp_step. eapply (wp_is_interior h t pt c); [done..|]. wp_step. wp_step.
  { by rewrite (proj2 (Z.eqb_neq pt 0)), (proj2 (Z.eqb_neq c 0)). }
  wp_step. eapply wp_get_prev; [done|]. wp_step. eapply wp_get_next; [done|].
  wp_step. apply wp_set_next; [done|].
  wp_step. eapply wp_get_next; [by fld_rw|]. wp_step. eapply wp_get_prev; [by fld_rw|].
  wp_step. apply wp_set_prev; [fld_valid|].
  wp_step. eapply wp_get_prev; [by fld_rw|].
  wp_step. apply wp_set_prev; [fld_valid|].
  wp_step. apply wp_set_next; [fld_valid|].
  wp_step. eapply wp_get_prev; [by fld_rw|].
  wp_step. apply wp_set_next; [fld_valid|].
  apply wp_set_prev; [fld_valid|done].
Qed.

Lemma chain_join h A B a b :
  list.last A = Some a → list.head B = Some b →
  chain h (A ++ B) ↔ chain h A ∧ nxt h a = Some b ∧ prv h b = Some a ∧ chain h B.
Proof.
  intros HA HB. destruct B as [|b' B]; [done|]. simplify_eq/=.
  apply last_Some in HA as [A' ->]. rewrite <- app_assoc. apply chain_mid.
Qed.

Lemma NoDup_last (A : list Z) a : NoDup A → list.last A = Some a → a ∉ removelast A.
Proof.
  intros HA [A' ->]%last_Some. rewrite removelast_snoc.
  rewrite NoDup_app in HA. set_solver.
Qed.

Lemma chain_relinked h h' N V A a b :
  relinked h h' N V → NoDup A → chain h A →
  list.head A = Some a → list.last A = Some b →
  (∀ x, x ∈ A → x ∈ N → x = b) → (∀ x, x ∈ A → x ∈ V → x = a) →
  chain h' A.
Proof.
  intros (_ & HN & HV) Hnd Hc Ha Hb HAN HAV. eapply chain_ext; [| |done]; intros x Hx.
  - apply HN. intros Hx'. apply (NoDup_last A b); [done..|].
    assert (x = b) as <-; [|done]. apply HAN; [|done]. by apply elem_of_removelast.
  - apply HV. intros Hx'. destruct A as [|a' A]; simplify_eq/=.
    apply NoDup_cons in Hnd as [Hnd _]. apply Hnd.
    assert (x = a) as <-; [|done]. apply HAV; [set_solver|done].
Qed.

Lemma chain_nxt_head h F f c :
  chain h (F ++ [c]) → list.head F = Some f → ∃ n, nxt h f = Some n ∧ n ∈ F ++ [c].
Proof.
  intros Hc Hf. destruct F as [|f' [|n F]]; simplify_eq/=.
  - exists c. set_solver.
  - exists n. split; [naive_solver|set_solver].
Qed.

Lemma chain_prv_last h F t g :
  chain h (g :: F) → list.last F = Some t → ∃ p, prv h t = Some p ∧ p ∈ g :: F.
Proof.
  intros Hc [F' ->]%last_Some. destruct F' as [|p F'' _] using rev_ind.
  - exists g. simpl in Hc. split; [naive_solver|set_solver].
  - exists p. rewrite <- app_assoc in Hc. rewrite (app_comm_cons F'') in Hc.
    apply chain_mid in Hc. split; [naive_solver|set_solver].
Qed.

(** The segment [F] moves in front of [B], which precedes it in the same list. *)
Lemma wp_list_splice_back h P p B F c S b f (Q : unit → heap → Prop) :
  nodes h (P ++ p :: (B ++ F) ++ c :: S) →
  list.head B = Some b → list.head F = Some f →
  (∀ h', nodes h' (P ++ p :: (F ++ B) ++ c :: S) →
         frame h h' (p :: c :: F ++ B) → Q tt h') →
  wp (list_splice b f c) Q h.
Proof.
  intros Hns HB HF HQ.
  destruct (list.last F) as [t|] eqn:Ht; [|apply last_None in Ht; by subst].
  destruct (list.last B) as [g|] eqn:Hg; [|apply last_None in Hg; by subst].
  assert (b ∈ B ∧ g ∈ B ∧ f ∈ F ∧ t ∈ F) as (HbB & HgB & HfF & HtF).
  { apply head_Some_elem_of in HB, HF. apply last_Some_elem_of in Ht, Hg. done. }
  pose proof (nodes_NoDup _ _ Hns) as Hnd. pose proof (nodes_nonnull _ _ Hns) as H0.
  apply NoDup_mid in Hnd as (Hd1 & Hd2 & Hd3 & Hd4 & Hd5).
  apply NoDup_mid in Hd5 as (Hd6 & Hd7 & Hd8 & Hd9 & Hd10).
  apply NoDup_app in Hd9 as (HndB & HBF & HndF).
  assert (chain h (p :: B ++ F ++ [c])) as Hmid.
  { destruct Hns as [Hc _ _ _ _].
    replace (P ++ p :: (B ++ F) ++ c :: S) with ((P ++ p :: B ++ F ++ [c]) ++ S) in Hc
      by (rewrite <- !app_assoc; simpl; by rewrite <- !app_assoc).
    apply chain_app_l in Hc. clear -Hc. induction P as [|a [|a' P] IH]; simpl in *; naive_solver. }
  change (chain h ([p] ++ B ++ F ++ [c])) in Hmid.
  rewrite (chain_join h [p] (B ++ F ++ [c]) p b) in Hmid by (by destruct B).
  destruct Hmid as (_ & Hnp & Hpb & Hmid).
  rewrite (chain_join h B (F ++ [c]) g f) in Hmid by (done || by destruct F).
  destruct Hmid as (HcB & Hng & Hpf & HcF).
  destruct (chain_nxt_head h F f c) as (nf & Hnf & Hnf'); [done..|].
  rewrite (chain_join h F [c] t c) in HcF by done.
  destruct HcF as (HcF & Hnt & Hpc & _).
  destruct (chain_prv_last h F t g) as (pt & Hpt & Hpt'); [|done|].
  { apply (chain_join h [g] F g f); [done..|]. by repeat split. }
  destruct (is_Some_fields h c) as (_ & nc & _ & Hnc); [by eapply prv_is_Some|].
  destruct (is_Some_fields h b) as (_ & nb & _ & Hnb); [by eapply prv_is_Some|].
  assert (b ≠ c ∧ f ≠ c ∧ g ≠ c) as (?&?&?) by (clear -Hd6 HbB HfF HgB; set_solver).
  assert (b ≠ f ∧ t ≠ g ∧ b ≠ t) as (?&?&?) by (clear -HBF HbB HfF HgB HtF; set_solver).
  assert ((p ∉ B) ∧ (p ∉ F) ∧ p ≠ c) as (?&?&?) by (clear -Hd2; set_solver).
  assert (p ≠ g ∧ p ≠ t ∧ b ≠ p) as (?&?&?) by set_solver.
  assert ((g ∉ F) ∧ (b ∉ F) ∧ (t ∉ B) ∧ (f ∉ B) ∧ (c ∉ F) ∧ (c ∉ B)) as (?&?&?&?&?&?)
    by (clear -HBF HbB HgB Hd6 HtF HfF; set_solver).
  apply (wp_list_splice_exec h p b nb f t g c nf pt nc);
    [done|done|by eapply nxt_is_Some|done|done|done|done|done|done|by eapply nxt_is_Some| |done..|].
  { clear -H0 HbB HgB HfF HtF Hnf' Hpt'. set_solver. }
  assert (relinked h (splice_heap h p b f t g c) [p; t; g] [b; f; c]) as Hrel
    by (unfold splice_heap; eauto 10 with relinked).
  apply HQ.
  - eapply (nodes_replace h _ P p (B ++ F) (F ++ B) c S); [done|done| | |..].
    + rewrite <- app_assoc. apply (chain_join _ [p] (F ++ B ++ [c]) p f); [done|by destruct F|].
      rewrite (chain_join _ F (B ++ [c]) t b), (chain_join _ B [c] g c) by (done || by destruct B).
      split; [done|]. unfold splice_heap. split; [by fld_rw|]. split; [by fld_rw|].
      split; [|split; [by fld_rw|split; [by fld_rw|]]].
      * eapply chain_relinked; [done|done|done|done|done|..];
          intros x Hx; rewrite !elem_of_cons, elem_of_nil; naive_solver.
      * split; [|split; [by fld_rw|split; [by fld_rw|done]]].
        eapply chain_relinked; [done|done|done|done|done|..];
          intros x Hx; rewrite !elem_of_cons, elem_of_nil; naive_solver.
    + apply NoDup_app. clear -HndF HndB HBF. set_solver.
    + clear -H0. set_solver.
    + clear -Hd3 Hd6 Hd8 Hd2. set_solver.
    + clear -Hd1 Hd2 Hd3 Hd6 Hd8 HgB HtF. set_solver.
    + clear -Hd2 Hd3 Hd7 Hd8 HbB HfF. set_solver.
  - apply relinked_frame in Hrel. eapply frame_weaken; [done|].
    clear -HbB HgB HfF HtF. set_solver.
Qed.

(** ** The operations on a whole list

    From here on the list at [l] is seen as the sequence [xs] of its elements. *)

(** First node of [ys], or the node [t] that follows [ys]. *)
Definition hd_or (t : Z) (ys : list Z) : Z := default t (list.head ys).
Definition last_or (p : Z) (ys : list Z) : Z := default p (list.last ys).
Arguments hd_or _ !_ /.

Lemma cons_split_last (l : Z) (xs : list Z) :
  ∃ P, l :: xs = P ++ [last_or l xs].
Proof.
  destruct xs as [|x xs _] using rev_ind; [by exists []|].
  exists (l :: xs). unfold last_or. by rewrite last_snoc.
Qed.

(** A cut of a list anywhere between the headers: [p] is the node before it and
    [hd_or (tail_of l) ys] the node after it. *)
Lemma dll_cut h l xs ys :
  dll h l (xs ++ ys) →
  ∃ P S, head_of l :: xs = P ++ [last_or (head_of l) xs] ∧
    ys ++ [tail_of l] = hd_or (tail_of l) ys :: S ∧
    nodes h (P ++ last_or (head_of l) xs :: hd_or (tail_of l) ys :: S).
Proof.
  intros Hd. destruct (cons_split_last (head_of l) xs) as [P HP].
  exists P. assert (∃ S, ys ++ [tail_of l] = hd_or (tail_of l) ys :: S) as [S HS].
  { destruct ys as [|y ys]; [by exists []|]. by exists (ys ++ [tail_of l]). }
  exists S. split; [done|]. split; [done|]. unfold dll, all_nodes in Hd.
  rewrite <- HS. change (P ++ ?a :: ?b) with (P ++ [a] ++ b).
  rewrite app_assoc, <- HP. simpl. by rewrite app_assoc.
Qed.

Lemma dll_nonnull h l xs : dll h l xs → l ≠ NULL ∧ tail_of l ≠ NULL.
Proof. intros [_ _ H0 _ _]. unfold all_nodes, head_of in H0. set_solver. Qed.

Lemma dll_length_fields h l xs :
  dll h l xs → is_Some (h !! head_of l) ∧ is_Some (h !! tail_of l).
Proof.
  intros Hd. split.
  - apply (nodes_is_Some h [] _ (xs ++ [tail_of l])); [done|]. left. by destruct xs.
  - apply (nodes_is_Some h (head_of l :: xs) _ []); [done|]. by right.
Qed.

Ltac nonnull := rewrite (proj2 (Z.eqb_neq _ 0)) by done; done.

Lemma wp_list_begin h l xs (Q : Z → heap → Prop) :
  dll h l xs → Q (hd_or (tail_of l) xs) h → wp (list_begin l) Q h.
Proof.
  intros Hd HQ. destruct (dll_nonnull _ _ _ Hd) as [Hl _].
  destruct (dll_cut h l [] xs Hd) as (P & S & HP & HS & Hns).
  apply (f_equal (@List.length Z)) in HP as HP'. rewrite length_app in HP'. simpl in HP'.
  destruct P; [|simpl in HP'; lia].
  unfold list_begin. wp_step. wp_step; [nonnull|].
  apply nodes_mid in Hns as (Hn & _). by eapply wp_get_next.
Qed.

Lemma wp_list_end h l (Q : Z → heap → Prop) :
  l ≠ NULL → Q (tail_of l) h → wp (list_end l) Q h.
Proof. intros Hl HQ. unfold list_end. wp_step. wp_step; [nonnull|]. by apply wp_ret. Qed.

Lemma wp_list_rbegin h l xs (Q : Z → heap → Prop) :
  dll h l xs → Q (last_or (head_of l) xs) h → wp (list_rbegin l) Q h.
Proof.
  intros Hd HQ. destruct (dll_nonnull _ _ _ Hd) as [Hl _].
  rewrite <- (app_nil_r xs) in Hd.
  destruct (dll_cut h l xs [] Hd) as (P & S & HP & HS & Hns).
  unfold list_rbegin. wp_step. wp_step; [nonnull|].
  apply nodes_mid in Hns as (_ & Hp & _). by eapply wp_get_prev.
Qed.

Lemma dll_insert_nodes l xs e ys P S :
  head_of l :: xs = P ++ [last_or (head_of l) xs] →
  ys ++ [tail_of l] = hd_or (tail_of l) ys :: S →
  P ++ last_or (head_of l) xs :: e ++ hd_or (tail_of l) ys :: S =
  all_nodes l (xs ++ e ++ ys).
Proof.
  intros HP HS. unfold all_nodes. rewrite <- HS.
  change (P ++ ?a :: ?b) with (P ++ [a] ++ b). rewrite app_assoc, <- HP.
  simpl. by rewrite <- !app_assoc.
Qed.

(** list_insert() before the element after the cut. *)
Lemma wp_dll_insert h l xs ys e (Q : unit → heap → Prop) :
  dll h l (xs ++ ys) → e ∉ all_nodes l (xs ++ ys) → e ≠ NULL → is_Some (h !! e) →
  (∀ h', dll h' l (xs ++ e :: ys) → frame h h' (all_nodes l (xs ++ e :: ys)) → Q tt h') →
  wp (list_insert (hd_or (tail_of l) ys) e) Q h.
Proof.
  intros Hd He He0 Hea HQ. destruct (dll_cut h l xs ys Hd) as (P & S & HP & HS & Hns).
  pose proof (dll_insert_nodes l xs [] ys P S HP HS) as Hold.
  pose proof (dll_insert_nodes l xs [e] ys P S HP HS) as Hnew.
  simpl in Hold, Hnew. eapply wp_list_insert; [done|by rewrite Hold|done|done|].
  rewrite Hnew. intros h' Hd' Hf. apply HQ; [done|].
  eapply frame_weaken; [done|]. rewrite <- Hnew. set_solver.
Qed.

Lemma wp_dll_remove h l xs e ys (Q : Z → heap → Prop) :
  dll h l (xs ++ e :: ys) →
  (∀ h', dll h' l (xs ++ ys) → frame h h' (all_nodes l (xs ++ ys)) →
         Q (hd_or (tail_of l) ys) h') →
  wp (list_remove e) Q h.
Proof.
  intros Hd HQ. destruct (cons_split_last (head_of l) xs) as [P HP].
  assert (∃ S, ys ++ [tail_of l] = hd_or (tail_of l) ys :: S) as [S HS].
  { destruct ys as [|y ys]; [by exists []|]. by exists (ys ++ [tail_of l]). }
  pose proof (dll_insert_nodes l xs [e] ys P S HP HS) as Hold.
  pose proof (dll_insert_nodes l xs [] ys P S HP HS) as Hnew. simpl in Hold, Hnew.
  unfold dll in Hd. rewrite <- Hold in Hd.
  eapply wp_list_remove; [done|]. rewrite Hnew. intros h' Hd' Hf. apply HQ; [done|].
  eapply frame_weaken; [done|]. rewrite <- Hnew. set_solver.
Qed.

Lemma wp_list_empty h l xs (Q : bool → heap → Prop) :
  dll h l xs → Q (bool_decide (xs = [])) h → wp (list_empty l) Q h.
Proof.
  intros Hd HQ. unfold list_empty. wp_step. eapply wp_list_begin; [done|].
  wp_step. apply wp_list_end; [by eapply dll_nonnull|]. apply wp_ret.
  destruct xs as [|x xs]; simpl.
  - by rewrite Z.eqb_refl.
  - rewrite (proj2 (Z.eqb_neq _ _)); [by rewrite bool_decide_eq_false_2 in HQ|].
    destruct Hd as [_ Hnd _ _ _]. unfold all_nodes in Hnd. simpl in Hnd.
    rewrite !NoDup_cons in Hnd. set_solver.
Qed.

Lemma wp_list_push_front h l xs e (Q : unit → heap → Prop) :
  dll h l xs → e ∉ all_nodes l xs → e ≠ NULL → is_Some (h !! e) →
  (∀ h', dll h' l (e :: xs) → frame h h' (all_nodes l (e :: xs)) → Q tt h') →
  wp (list_push_front l e) Q h.
Proof.
  intros Hd He He0 Hea HQ. unfold list_push_front. wp_step.
  eapply wp_list_begin; [done|]. by apply (wp_dll_insert h l [] xs e).
Qed.

Lemma wp_list_push_back h l xs e (Q : unit → heap → Prop) :
  dll h l xs → e ∉ all_nodes l xs → e ≠ NULL → is_Some (h !! e) →
  (∀ h', dll h' l (xs ++ [e]) → frame h h' (all_nodes l (xs ++ [e])) → Q tt h') →
  wp (list_push_back l e) Q h.
Proof.
  intros Hd He He0 Hea HQ. unfold list_push_back. wp_step.
  apply wp_list_end; [by eapply dll_nonnull|].
  apply (wp_dll_insert h l xs [] e); rewrite ?app_nil_r; done.
Qed.

Lemma wp_list_pop_front h l x xs (Q : Z → heap → Prop) :
  dll h l (x :: xs) →
  (∀ h', dll h' l xs → frame h h' (all_nodes l xs) → Q x h') →
  wp (list_pop_front l) Q h.
Proof.
  intros Hd HQ. unfold list_pop_front, list_front. repeat wp_step.
  eapply wp_list_empty; [done|]. rewrite bool_decide_eq_false_2 by done.
  repeat wp_step; [done|].
  destruct (dll_cut h l [] (x :: xs) Hd) as (P & S & HP & HS & Hns).
  apply nodes_mid in Hns as (Hn & _). eapply wp_get_next; [done|].
  repeat wp_step. apply (wp_dll_remove h l [] x xs); [done|].
  intros h' Hd' Hf. apply wp_ret. by apply HQ.
Qed.

Lemma wp_list_pop_back h l xs x (Q : Z → heap → Prop) :
  dll h l (xs ++ [x]) →
  (∀ h', dll h' l xs → frame h h' (all_nodes l xs) → Q x h') →
  wp (list_pop_back l) Q h.
Proof.
  intros Hd HQ. unfold list_pop_back, list_back. repeat wp_step.
  eapply wp_list_empty; [done|]. rewrite bool_decide_eq_false_2 by (by destruct xs).
  repeat wp_step; [done|].
  pose proof Hd as Hd0. rewrite <- (app_nil_r (xs ++ [x])) in Hd0.
  destruct (dll_cut h l (xs ++ [x]) [] Hd0) as (P & S & HP & HS & Hns).
  apply nodes_mid in Hns as (_ & Hn & _). eapply wp_get_prev; [done|].
  unfold last_or. rewrite last_snoc. simpl.
  repeat wp_step. apply (wp_dll_remove h l xs x []); [done|].
  rewrite app_nil_r. intros h' Hd' Hf. apply wp_ret. by apply HQ.
Qed.

Lemma list_empty_pops h l :
  dll h l [] → list_pop_front l h = Err AssertFailed ∧ list_pop_back l h = Err AssertFailed.
Proof.
  intros Hd. assert (list_empty l h = Ok (true, h)) as He.
  { pose proof (wp_list_empty h l [] (λ r h', r = true ∧ h' = h) Hd) as Hw.
    apply wp_Ok in Hw as (a & h' & -> & -> & ->); [done|]. by split. }
  unfold list_pop_front, list_pop_back, list_front, list_back, mbind, M_bind.
  by rewrite He.
Qed.

(** *** An abstract specification: a list is a sequence of elements

    [list_step U l op xs r ys]: on a list that holds [xs] the operation [op]
    may be called (its arguments are elements of [U] that the documentation
    allows), returns [r] and leaves the list holding [ys]. *)

Inductive list_op :=
  | PushFront (e : Z)
  | PushBack (e : Z)
  | PopFront
  | PopBack
  | Remove (e : Z)
  | InsertBefore (b e : Z).

Definition fresh_elem (U : gset Z) (l : Z) (xs : list Z) (e : Z) : Prop :=
  e ∈ U ∧ e ≠ NULL ∧ (e ∉ all_nodes l xs).

Inductive list_step (U : gset Z) (l : Z) : list_op → list Z → option Z → list Z → Prop :=
  | step_push_front e xs :
      fresh_elem U l xs e → list_step U l (PushFront e) xs None (e :: xs)
  | step_push_back e xs :
      fresh_elem U l xs e → list_step U l (PushBack e) xs None (xs ++ [e])
  | step_pop_front x xs : list_step U l PopFront (x :: xs) (Some x) xs
  | step_pop_back xs x : list_step U l PopBack (xs ++ [x]) (Some x) xs
  | step_remove xs e ys :
      list_step U l (Remove e) (xs ++ e :: ys) (Some (hd_or (tail_of l) ys)) (xs ++ ys)
  | step_insert xs b ys e :
      fresh_elem U l (xs ++ b :: ys) e →
      list_step U l (InsertBefore b e) (xs ++ b :: ys) None (xs ++ e :: b :: ys).

(** The code of each operation. *)
Definition run_list_op (l : Z) (op : list_op) : M heap (option Z) :=
  match op with
  | PushFront e => list_push_front l e ;; mret None
  | PushBack e => list_push_back l e ;; mret None
  | PopFront => x ← list_pop_front l; mret (Some x)
  | PopBack => x ← list_pop_back l; mret (Some x)
  | Remove e => n ← list_remove e; mret (Some n)
  | InsertBefore b e => list_insert b e ;; mret None
  end.

Lemma list_step_run U l op xs r ys h :
  list_step U l op xs r ys → dll h l xs → U = dom h →
  wp (run_list_op l op) (λ r' h', r' = r ∧ dll h' l ys ∧ dom h' = dom h) h.
Proof.
  intros Hs Hd HU. inversion Hs as [e ? (He1 & He2 & He3)|e ? (He1 & He2 & He3)| | | |
    ???? (He1 & He2 & He3)]; subst; simpl; wp_step; try apply elem_of_dom in He1.
  - eapply wp_list_push_front; [done..|]. intros h' Hd' Hf. apply wp_ret. by destruct Hf.
  - eapply wp_list_push_back; [done..|]. intros h' Hd' Hf. apply wp_ret. by destruct Hf.
  - eapply wp_list_pop_front; [done..|]. intros h' Hd' Hf. apply wp_ret. by destruct Hf.
  - eapply wp_list_pop_back; [done..|]. intros h' Hd' Hf. apply wp_ret. by destruct Hf.
  - eapply wp_dll_remove; [done..|]. intros h' Hd' Hf. apply wp_ret. by destruct Hf.
  - eapply (wp_dll_insert h l _ (_ :: _)); [done..|].
    intros h' Hd' Hf. apply wp_ret. by destruct Hf.
Qed.

(** Runs of several operations. *)
Inductive list_trace (U : gset Z) (l : Z) :
    list list_op → list Z → list (option Z) → list Z → Prop :=
  | trace_nil xs : list_trace U l [] xs [] xs
  | trace_cons op ops xs r ys rs zs :
      list_step U l op xs r ys → list_trace U l ops ys rs zs →
      list_trace U l (op :: ops) xs (r :: rs) zs.

Fixpoint run_list_ops (l : Z) (ops : list list_op) : M heap (list (option Z)) :=
  match ops with
  | [] => mret []
  | op :: ops => r ← run_list_op l op; rs ← run_list_ops l ops; mret (r :: rs)
  end.

Lemma wp_list_init h l (Q : unit → heap → Prop) :
  l ≠ NULL → tail_of l ≠ NULL → is_Some (h !! head_of l) → is_Some (h !! tail_of l) →
  (∀ h', dll h' l [] → frame h h' [head_of l; tail_of l] → Q tt h') →
  wp (list_init l) Q h.
Proof.
  intros Hl Ht Hh1 Hh2 HQ. assert (head_of l ≠ tail_of l) as Hne by (unfold head_of, tail_of; lia).
  unfold list_init. wp_step. wp_step; [nonnull|].
  wp_step. apply wp_set_prev; [fld_valid|]. wp_step. apply wp_set_next; [fld_valid|].
  wp_step. apply wp_set_prev; [fld_valid|]. apply wp_set_next; [fld_valid|].
  match goal with |- Q tt ?h' =>
    assert (relinked h h' [tail_of l; head_of l] [tail_of l; head_of l]) as Hrel
      by eauto 10 with relinked end.
  apply HQ.
  - split.
    + simpl. repeat split; by fld_rw.
    + unfold all_nodes. simpl. rewrite !NoDup_cons, not_elem_of_cons.
      repeat split; [done|apply not_elem_of_nil..|apply NoDup_nil_2].
    + unfold all_nodes, head_of. simpl. rewrite !not_elem_of_cons.
      repeat split; [done..|apply not_elem_of_nil].
    + simpl. f_equal. by fld_rw.
    + simpl. f_equal. by fld_rw.
  - apply relinked_frame in Hrel. eapply frame_weaken; [done|]. set_solver.
Qed.

(** *** Traversal *)

Lemma dll_next h l xs x ys (Q : Z → heap → Prop) :
  dll h l (xs ++ x :: ys) → Q (hd_or (tail_of l) ys) h → wp (list_next x) Q h.
Proof.
  intros Hd HQ. unfold dll, all_nodes in Hd.
  assert (∃ S, ys ++ [tail_of l] = hd_or (tail_of l) ys :: S) as [S HS].
  { destruct ys as [|y ys]; [by exists []|]. by exists (ys ++ [tail_of l]). }
  rewrite <- app_assoc in Hd. simpl in Hd. rewrite HS in Hd.
  by eapply (wp_nodes_next h (head_of l :: xs)).
Qed.

Lemma dll_in_ne_tail h l xs x : dll h l xs → x ∈ xs → x ≠ tail_of l ∧ x ≠ head_of l ∧ x ≠ NULL.
Proof.
  intros [_ Hnd H0 _ _] Hx. unfold all_nodes in *.
  rewrite NoDup_cons, NoDup_app in Hnd. set_solver.
Qed.

Lemma wp_list_size_loop h l xs ys fuel cnt (Q : Z → heap → Prop) :
  dll h l (xs ++ ys) → (length ys < fuel)%nat → 0 ≤ cnt < 2 ^ 32 →
  Q (wrap32 (cnt + Z.of_nat (length ys))) h →
  wp (list_size_loop fuel l (hd_or (tail_of l) ys) cnt) Q h.
Proof.
  revert xs fuel cnt. induction ys as [|y ys IH]; intros xs fuel cnt Hd Hf Hc HQ;
    (destruct fuel as [|fuel]; [simpl in Hf; lia|]); cbn [list_size_loop];
    wp_step; (apply wp_list_end; [by eapply dll_nonnull|]).
  - simpl. rewrite Z.eqb_refl. apply wp_ret. simpl in HQ.
    rewrite Z.add_0_r, wrap32_small in HQ by lia. done.
  - simpl. destruct (dll_in_ne_tail h l (xs ++ y :: ys) y) as [Hy _]; [done|set_solver|].
    rewrite (proj2 (Z.eqb_neq y (tail_of l))) by done.
    wp_step. eapply dll_next; [done|].
    apply (IH (xs ++ [y])); [by rewrite <- app_assoc|simpl in Hf; lia|apply wrap32_range|].
    simpl in HQ. unfold wrap32 in *. rewrite Z.add_mod_idemp_l by done.
    by replace (cnt + 1 + Z.of_nat (length ys)) with (cnt + Z.of_nat (S (length ys))) by lia.
Qed.

Lemma wp_list_size h l xs fuel (Q : Z → heap → Prop) :
  dll h l xs → (length xs < fuel)%nat → Q (wrap32 (Z.of_nat (length xs))) h →
  wp (list_size fuel l) Q h.
Proof.
  intros Hd Hf HQ. unfold list_size. wp_step. eapply wp_list_begin; [done|].
  by apply (wp_list_size_loop h l [] xs).
Qed.

(** ** Properties *)

(** C1: every sequence of insertions, removals, pushes and pops that the
    sequence-of-elements specification allows is executed by the pointer code
    without a fault, with the same results, and leaves a well-formed list that
    holds the sequence the specification ends in. *)
Theorem list_ops_refine U l ops xs rs ys h :
  list_trace U l ops xs rs ys → dll h l xs → U = dom h →
  ∃ h', run_list_ops l ops h = Ok (rs, h') ∧ dll h' l ys ∧ dom h' = U.
Proof.
  intros Ht. revert h. induction Ht as [xs|op ops xs r ys rs zs Hs _ IH]; intros h Hd HU.
  - exists h. by subst.
  - pose proof (list_step_run U l op xs r ys h Hs Hd HU) as Hw.
    apply wp_Ok in Hw as (r' & h1 & Hrun & -> & Hd1 & Hdom).
    destruct (IH h1) as (h2 & Hrun2 & Hd2 & HU2); [done|by subst|].
    exists h2. split; [|done]. simpl. unfold mbind, M_bind. by rewrite Hrun, Hrun2.
Qed.

(** A memory with the headers of a list at 100 and three elements, and the
    list made empty by list_init(). *)
Definition demo_heap : heap :=
  list_to_map ((λ a, (a, mk_list_elem 0 0)) <$> [100; 108; 200; 300; 400]).
Definition demo_list : heap :=
  match list_init 100 demo_heap with Ok (_, h) => h | Err _ => ∅ end.

Lemma demo_list_dll : dll demo_list 100 [].
Proof.
  split; simpl; [split; [done|split; done]| | |done|done].
  - by apply (bool_decide_unpack _).
  - by apply (bool_decide_unpack _).
Qed.

Lemma list_ops_refine_witness :
  ∃ h', run_list_ops 100 [PushBack 200; PushFront 300; InsertBefore 200 400; PopBack; Remove 300]
          demo_list = Ok ([None; None; None; Some 200; Some 400], h') ∧
        dll h' 100 [400] ∧ dom h' = dom demo_list.
Proof.
  apply (list_ops_refine (dom demo_list) 100 _ []); [|apply demo_list_dll|done].
  eapply trace_cons; [apply step_push_back; by apply (bool_decide_unpack _)|]. simpl.
  eapply trace_cons; [apply step_push_front; by apply (bool_decide_unpack _)|].
  eapply trace_cons; [apply (step_insert _ _ [300] 200 []); by apply (bool_decide_unpack _)|]. simpl.
  eapply trace_cons; [apply (step_pop_back _ _ [300; 400])|].
  eapply trace_cons; [apply (step_remove _ _ [] 300 [400])|]. apply trace_nil.
Defined.
