(* ===== verification/KernelListSort.v ===== *)
(** * Sorting kernel lists ([lib/kernel/list.c], list_sort() and its helpers)

    list_sort() is a natural merge sort in place: passes over the list merge
    adjacent non-decreasing runs until one run is left.  This file relates the
    pointer code to runs and merges of sequences and proves that it
    terminates, sorts, permutes and is stable. *)
From stdpp Require Import sorting.
From S2P Require Import Prelude KernelList.

Section sort.
Context (less : Z → Z → bool).

(** [x] may stand before [y]: the code swaps neighbours only when
    [less y x]. *)
Definition in_order (x y : Z) : Prop := less y x = false.

#[export] Instance in_order_dec x y : Decision (in_order x y).
Proof. unfold in_order. apply _. Defined.

(** The equivalence of elements that [less] does not tell apart. *)
Definition same_rank (x y : Z) : Prop := less x y = false ∧ less y x = false.

#[export] Instance same_rank_dec x y : Decision (same_rank x y).
Proof. unfold same_rank. apply _. Defined.

(** [zs] keeps the relative order in [ys] of elements of the same rank. *)
Definition stable (ys zs : list Z) : Prop :=
  ∀ x, filter (same_rank x) zs = filter (same_rank x) ys.

(** What is_sorted() computes. *)
Fixpoint sortedb (A : list Z) : bool :=
  match A with
  | x :: ((y :: _) as tl) => negb (less y x) && sortedb tl
  | _ => true
  end.

(** What find_end_of_run() finds: the maximal run that starts at [x], and the
    rest. *)
Fixpoint run_split (x : Z) (l : list Z) : list Z * list Z :=
  match l with
  | [] => ([x], [])
  | y :: l' => if less y x then ([x], l) else
               let '(r, s) := run_split y l' in (x :: r, s)
  end.

(** Number of maximal runs. *)
Fixpoint nruns (l : list Z) : nat :=
  match l with
  | [] => 0
  | x :: tl => match tl with
               | [] => 1
               | y :: _ => if less y x then S (nruns tl) else nruns tl
               end
  end.

Lemma sortedb_Sorted A : sortedb A = true ↔ Sorted in_order A.
Proof.
  induction A as [|x [|y A] IH]; [split; [constructor|done]|split; [by repeat constructor|done]|].
  cbn [sortedb]. rewrite andb_true_iff, IH. unfold in_order at 2. split.
  - intros [Hxy Hs]. constructor; [done|]. constructor. unfold in_order.
    by destruct (less y x).
  - intros Hs. inversion Hs as [|?? Hs' Hhd]; subst. inversion Hhd as [|?? Hxy]; subst.
    unfold in_order in Hxy. by rewrite Hxy.
Qed.

Lemma run_split_spec x l r s :
  run_split x l = (r, s) →
  x :: l = r ++ s ∧ Sorted in_order r ∧ list.head r = Some x ∧
  nruns (x :: l) = S (nruns s).
Proof.
  revert x r s. induction l as [|y l IH]; intros x r s Hr.
  - cbn in Hr. simplify_eq. split; [done|]. split; [by repeat constructor|done].
  - cbn [run_split] in Hr. cbn [nruns]. destruct (less y x) eqn:E.
    + simplify_eq. split; [done|]. split; [by repeat constructor|]. done.
    + destruct (run_split y l) as [r' s'] eqn:Er. simplify_eq.
      destruct (IH y r' s Er) as (Hl & Hs & Hh & Hn). split; [by rewrite Hl|].
      split; [|by split]. destruct r' as [|y' r']; simplify_eq/=.
      constructor; [done|]. by constructor.
Qed.

Lemma nruns_Sorted l : Sorted in_order l → (nruns l ≤ 1)%nat.
Proof.
  induction l as [|x [|y l] IH]; intros Hs; [simpl; lia|simpl; lia|].
  inversion Hs as [|?? Hs' Hhd]; subst. inversion Hhd as [|?? Hxy]; subst.
  unfold in_order in Hxy. cbn [nruns]. rewrite Hxy. by apply IH.
Qed.

Lemma nruns_app l1 l2 : (nruns (l1 ++ l2) ≤ nruns l1 + nruns l2)%nat.
Proof.
  induction l1 as [|x l1 IH]; [simpl; lia|].
  destruct l1 as [|y l1].
  - destruct l2 as [|y l2]; [simpl; lia|]. cbn [nruns app]. destruct (less y x); lia.
  - cbn [nruns app] in *. destruct (less y x); lia.
Qed.

Lemma nruns_le_length l : (nruns l ≤ length l)%nat.
Proof.
  induction l as [|x [|y l] IH]; [done|done|]. cbn [nruns length] in *.
  destruct (less y x); lia.
Qed.

Lemma nruns_cons_pos x l : (0 < nruns (x :: l))%nat.
Proof.
  revert x. induction l as [|y l IH]; intros x; [simpl; lia|].
  cbn [nruns]. specialize (IH y). destruct (less y x); cbn [nruns] in IH; lia.
Qed.

Lemma nruns_one_Sorted l : (nruns l ≤ 1)%nat → Sorted in_order l.
Proof.
  induction l as [|x [|y l] IH]; intros Hn; [constructor|by repeat constructor|].
  cbn [nruns] in Hn. destruct (less y x) eqn:E.
  - pose proof (nruns_cons_pos y l). cbn [nruns] in *. lia.
  - constructor; [apply IH; exact Hn|]. constructor. exact E.
Qed.

(** ** The reading loops *)

Lemma wp_is_sorted_loop h P a A b S fuel (Q : bool → heap → Prop) :
  nodes h (P ++ (a :: A) ++ b :: S) → (length A < fuel)%nat →
  Q (sortedb (a :: A)) h → wp (is_sorted_loop less fuel a b) Q h.
Proof.
  revert P a fuel. induction A as [|a' A IH]; intros P a fuel Hns Hf HQ;
    (destruct fuel as [|fuel]; [simpl in Hf; lia|]); cbn [is_sorted_loop]; wp_step.
  - eapply wp_nodes_next; [exact Hns|]. rewrite Z.eqb_refl. by apply wp_ret.
  - eapply wp_nodes_next; [exact Hns|].
    assert (a' ≠ b) as Hne.
    { destruct Hns as [_ Hnd _ _ _]. clear -Hnd. simpl in Hnd.
      rewrite NoDup_app, !NoDup_cons in Hnd. set_solver. }
    rewrite (proj2 (Z.eqb_neq a' b)) by done. wp_step.
    eapply wp_nodes_prev; [exact Hns|]. cbn [sortedb] in HQ.
    destruct (less a' a) eqn:E; simpl in HQ; [by apply wp_ret|].
    apply (IH (P ++ [a])); [by rewrite <- app_assoc|simpl in Hf; lia|done].
Qed.

Lemma nodes_hd_ne h P A b S a :
  nodes h (P ++ A ++ b :: S) → a ∈ A → a ≠ b ∧ a ≠ NULL.
Proof.
  intros [_ Hnd H0 _ _] Ha. rewrite !NoDup_app in Hnd. set_solver.
Qed.

Lemma wp_is_sorted h P A b S fuel (Q : bool → heap → Prop) :
  nodes h (P ++ A ++ b :: S) → (length A ≤ fuel)%nat →
  Q (sortedb A) h → wp (is_sorted less fuel (hd_or b A) b) Q h.
Proof.
  intros Hns Hf HQ. unfold is_sorted. destruct A as [|a A]; simpl.
  - rewrite Z.eqb_refl. by apply wp_ret.
  - destruct (nodes_hd_ne h P (a :: A) b S a) as [Hne _]; [done|set_solver|].
    rewrite (proj2 (Z.eqb_neq a b)) by done.
    eapply (wp_is_sorted_loop h P a A b S); [done|simpl in Hf; lia|done].
Qed.

Lemma wp_find_end_of_run_loop h P a A b S fuel r s (Q : Z → heap → Prop) :
  nodes h (P ++ (a :: A) ++ b :: S) → (length A < fuel)%nat →
  run_split a A = (r, s) → Q (hd_or b s) h →
  wp (find_end_of_run_loop less fuel a b) Q h.
Proof.
  revert P a fuel r. induction A as [|a' A IH]; intros P a fuel r Hns Hf Hr HQ;
    (destruct fuel as [|fuel]; [simpl in Hf; lia|]); cbn [find_end_of_run_loop]; wp_step.
  - eapply wp_nodes_next; [exact Hns|]. rewrite Z.eqb_refl. apply wp_ret.
    simpl in Hr. by simplify_eq.
  - eapply wp_nodes_next; [exact Hns|].
    destruct (nodes_hd_ne h P (a :: a' :: A) b S a') as [Hne _]; [done|set_solver|].
    rewrite (proj2 (Z.eqb_neq a' b)) by done. wp_step.
    eapply wp_nodes_prev; [exact Hns|]. cbn [run_split] in Hr.
    destruct (less a' a); simpl in *; simplify_eq; [by apply wp_ret|].
    destruct (run_split a' A) as [r' s'] eqn:Er. simplify_eq.
    eapply (IH (P ++ [a])); [by rewrite <- app_assoc|lia|done|done].
Qed.

Lemma wp_find_end_of_run h P a A b S fuel r s (Q : Z → heap → Prop) :
  nodes h (P ++ (a :: A) ++ b :: S) → (length A < fuel)%nat →
  run_split a A = (r, s) → Q (hd_or b s) h →
  wp (find_end_of_run less fuel a b) Q h.
Proof.
  intros Hns Hf Hr HQ. unfold find_end_of_run.
  destruct (nodes_hd_ne h P (a :: A) b S a) as [Hne Ha]; [done|set_solver|].
  assert (b ≠ 0) by (destruct Hns; set_solver).
  wp_step. wp_step; [nonnull|]. wp_step. wp_step; [nonnull|]. wp_step. wp_step.
  { by rewrite (proj2 (Z.eqb_neq a b)). }
  by eapply wp_find_end_of_run_loop.
Qed.

(** ** Merging *)

Lemma wp_inplace_merge_loop h P p A B b1 S fuel (Q : unit → heap → Prop) :
  nodes h (P ++ p :: A ++ B ++ b1 :: S) → (length A + length B < fuel)%nat →
  (∀ h', nodes h' (P ++ p :: list_merge in_order A B ++ b1 :: S) →
         frame h h' (p :: A ++ B ++ [b1]) → Q tt h') →
  wp (inplace_merge_loop less fuel (hd_or (hd_or b1 B) A) (hd_or b1 B) b1) Q h.
Proof.
  revert h P p A B Q. induction fuel as [|fuel IH]; intros h P p A B Q Hns Hf HQ; [lia|].
  cbn [inplace_merge_loop].
  destruct A as [|a A]; simpl.
  { rewrite Z.eqb_refl. apply wp_ret. apply HQ; [|apply frame_refl].
    by rewrite list_merge_nil_l. }
  destruct B as [|b B]; simpl.
  { rewrite Z.eqb_refl, orb_true_r. apply wp_ret. apply HQ; [|apply frame_refl].
    by rewrite list_merge_nil_r. }
  assert (a ≠ b ∧ b ≠ b1) as [Hab Hbb1].
  { destruct Hns as [_ Hnd _ _ _]. apply NoDup_mid in Hnd as (_ & _ & _ & _ & Hnd).
    rewrite !NoDup_app, !NoDup_cons in Hnd. set_solver. }
  rewrite (proj2 (Z.eqb_neq a b)), (proj2 (Z.eqb_neq b b1)) by done. simpl.
  rewrite list_merge_cons in HQ.
  destruct (decide (in_order a b)) as [E|E%not_false_is_true].
  2: {
    rewrite E. simpl.
    assert (∃ S', B ++ b1 :: S = hd_or b1 B :: S') as [S' HS'].
    { destruct B as [|c B]; [by exists S|]. by exists (B ++ b1 :: S). }
    pose proof Hns as Hns'.
    replace (P ++ p :: (a :: A) ++ (b :: B) ++ b1 :: S)
      with ((P ++ p :: a :: A) ++ b :: hd_or b1 B :: S') in Hns'
      by (rewrite <- HS', <- app_assoc; done).
    wp_step. eapply wp_nodes_next; [done|]. wp_step. eapply wp_nodes_prev; [done|].
    wp_step. eapply (wp_list_splice_back h P p (a :: A) [b] (hd_or b1 B) S'); [|done|done|].
    { rewrite <- HS'. rewrite <- app_assoc. done. }
    intros h1 Hns1 Hf1.
    apply (IH h1 (P ++ [p]) b (a :: A) B); [|simpl in *; lia|].
    { rewrite HS', <- app_assoc. simpl. done. }
    intros h2 Hns2 Hf2. apply HQ.
    + by rewrite <- app_assoc in Hns2.
    + eapply frame_trans; eapply frame_weaken; [exact Hf1| |exact Hf2|];
        destruct B; clear; set_solver. }
  - rewrite E. simpl.
    wp_step. eapply (wp_nodes_next h (P ++ [p]) a (hd_or b A) (tail (A ++ b :: B ++ b1 :: S))).
    { rewrite <- app_assoc. destruct A; done. }
    apply (IH h (P ++ [p]) a A (b :: B)); [by rewrite <- app_assoc|simpl in *; lia|].
    intros h2 Hns2 Hf2. apply HQ.
    + by rewrite <- app_assoc in Hns2.
    + eapply frame_weaken; [done|]. clear. set_solver.
Qed.

Lemma wp_inplace_merge h P p A B b1 S fuel (Q : unit → heap → Prop) :
  nodes h (P ++ p :: A ++ B ++ b1 :: S) → (length A + length B < fuel)%nat →
  Sorted in_order A → Sorted in_order B →
  (∀ h', nodes h' (P ++ p :: list_merge in_order A B ++ b1 :: S) →
         frame h h' (p :: A ++ B ++ [b1]) → Q tt h') →
  wp (inplace_merge less fuel (hd_or (hd_or b1 B) A) (hd_or b1 B) b1) Q h.
Proof.
  intros Hns Hf HsA HsB HQ. apply sortedb_Sorted in HsA, HsB. unfold inplace_merge.
  assert (∀ x, x ∈ A ++ B ++ [b1] → x ≠ 0) as H0 by (destruct Hns; set_solver).
  assert (∃ S', B ++ b1 :: S = hd_or b1 B :: S') as [S' HS'].
  { destruct B as [|c B]; [by exists S|]. by exists (B ++ b1 :: S). }
  assert (hd_or b1 B ≠ 0) by (apply H0; destruct B; set_solver).
  assert (hd_or (hd_or b1 B) A ≠ 0) by (destruct A; [done|apply H0; set_solver]).
  assert (b1 ≠ 0) by (apply H0; set_solver).
  wp_step. wp_step; [nonnull|]. wp_step. wp_step; [nonnull|]. wp_step. wp_step; [nonnull|].
  wp_step. eapply (wp_is_sorted h (P ++ [p]) A _ S');
    [rewrite <- app_assoc, <- HS'; done|lia|]. wp_step. wp_step; [done|].
  wp_step. eapply (wp_is_sorted h (P ++ p :: A) B b1 S);
    [rewrite <- app_assoc; done|lia|]. wp_step. wp_step; [done|].
  by eapply wp_inplace_merge_loop.
Qed.
(** ** Stability *)

Context (less_asym : ∀ x y, less x y = true → less y x = false).
Context (in_order_trans : ∀ x y z, in_order x y → in_order y z → in_order x z).

#[local] Instance in_order_total : Total in_order.
Proof.
  intros x y. unfold in_order. destruct (less y x) eqn:E; [right|by left].
  by apply less_asym.
Qed.
#[local] Instance in_order_transitive : Transitive in_order.
Proof. exact in_order_trans. Qed.

Lemma same_rank_none x a A b :
  Sorted in_order (a :: A) → less b a = true → same_rank x b →
  filter (same_rank x) (a :: A) = [].
Proof.
  intros Hs Hba [Hxb Hbx]. apply Sorted_StronglySorted in Hs; [|apply _].
  apply StronglySorted_cons in Hs as [Hall _].
  assert (∀ a', a' ∈ a :: A → ¬ same_rank x a') as Hno.
  { intros a' Ha' [Hxa Hax].
    assert (in_order a a') as Haa.
    { apply elem_of_cons in Ha' as [->|Ha'].
      - unfold in_order. destruct (less a a) eqn:E; [|done].
        pose proof (less_asym _ _ E). congruence.
      - by apply (proj1 (Forall_forall _ _) Hall). }
    assert (in_order a b) as Hab; [|unfold in_order in Hab; congruence].
    apply (in_order_trans a a' b); [done|]. by apply (in_order_trans a' x b). }
  clear -Hno. induction (a :: A) as [|c l IH]; [done|].
  rewrite filter_cons_False by (apply Hno; set_solver). apply IH. set_solver.
Qed.

Lemma filter_merge x A B :
  Sorted in_order A → Sorted in_order B →
  filter (same_rank x) (list_merge in_order A B) =
  filter (same_rank x) A ++ filter (same_rank x) B.
Proof.
  revert B. induction A as [|a A IHA]; intros B HsA HsB.
  { by rewrite list_merge_nil_l. }
  induction B as [|b B IHB]; [by rewrite list_merge_nil_r, app_nil_r|].
  rewrite list_merge_cons.
  destruct (decide (in_order a b)) as [E|E%not_false_is_true].
  - inversion HsA; subst. rewrite !(filter_cons _ a).
    rewrite IHA by done. by destruct (decide (same_rank x a)).
  - inversion HsB; subst. rewrite (filter_cons _ b).
    rewrite IHB by done. destruct (decide (same_rank x b)) as [Hxb|Hxb].
    + rewrite (same_rank_none x a A b) by done. simpl. by rewrite filter_cons_True.
    + by rewrite (filter_cons_False _ b).
Qed.

Lemma stable_merge A B rest zs :
  Sorted in_order A → Sorted in_order B → stable rest zs →
  stable (A ++ B ++ rest) (list_merge in_order A B ++ zs).
Proof.
  intros HA HB Hst x. rewrite !filter_app, filter_merge, Hst by done. by rewrite app_assoc.
Qed.

(** ** Passes *)

Definition pass_post (h : heap) (P : list Z) (p t : Z) (ys : list Z) (cnt : Z)
    (n : Z) (h' : heap) : Prop :=
  ∃ zs k, n = cnt + Z.of_nat k ∧ nodes h' (P ++ p :: zs ++ [t]) ∧
    zs ≡ₚ ys ∧ stable ys zs ∧ (nruns zs ≤ k)%nat ∧ (2 * k ≤ nruns ys + 1)%nat ∧
    (ys ≠ [] → 0 < k)%nat ∧ frame h h' (p :: ys ++ [t]).

Lemma pass_post_merge h h1 h2 P p t r1 r2 rest cnt n P' p' :
  Sorted in_order r1 → Sorted in_order r2 →
  nruns (r1 ++ r2 ++ rest) = S (S (nruns rest)) →
  P ++ p :: list_merge in_order r1 r2 = P' ++ [p'] → p' ∈ r1 ++ r2 →
  frame h h1 (p :: r1 ++ r2 ++ [hd_or t rest]) →
  pass_post h1 P' p' t rest (cnt + 1) n h2 →
  pass_post h P p t (r1 ++ r2 ++ rest) cnt n h2.
Proof.
  intros Hs1 Hs2 Hn HP' Hp' Hf (zs & k & -> & Hns & Hperm & Hst & Hk1 & Hk2 & _ & Hf2).
  exists (list_merge in_order r1 r2 ++ zs), (S k). split_and!.
  - lia.
  - rewrite <- app_assoc. change (P ++ p :: ?a) with (P ++ [p] ++ a).
    rewrite !app_assoc. rewrite <- (app_assoc P [p]). simpl. rewrite HP', <- app_assoc.
    by rewrite <- app_assoc.
  - rewrite merge_Permutation, Hperm. by rewrite app_assoc.
  - by apply stable_merge.
  - pose proof (nruns_app (list_merge in_order r1 r2) zs).
    pose proof (nruns_Sorted _ (Sorted_list_merge in_order r1 r2 Hs1 Hs2)). lia.
  - lia.
  - lia.
  - eapply frame_trans; eapply frame_weaken; [exact Hf| |exact Hf2|].
    + destruct rest; clear; set_solver.
    + clear -Hp'. set_solver.
Qed.

Lemma last_merge P p r1 r2 :
  r1 ≠ [] → ∃ P' p', P ++ p :: list_merge in_order r1 r2 = P' ++ [p'] ∧ p' ∈ r1 ++ r2.
Proof.
  intros Hne. pose proof (merge_Permutation in_order r1 r2) as Hm.
  destruct (list_merge in_order r1 r2) as [|p' m _] eqn:E using rev_ind.
  - apply Permutation_nil_l in Hm. symmetry in Hm. by apply app_eq_nil in Hm as [-> _].
  - exists (P ++ p :: m), p'. split; [by rewrite <- app_assoc|].
    rewrite <- Hm. set_solver.
Qed.

Lemma wp_list_sort_pass l t fuel0 fuel h P p ys cnt :
  t = tail_of l → l ≠ NULL →
  nodes h (P ++ p :: ys ++ [t]) → (length ys < fuel)%nat → (length ys < fuel0)%nat →
  0 ≤ cnt → cnt + Z.of_nat (length ys) < 2 ^ 32 →
  wp (list_sort_pass less fuel0 fuel l (hd_or t ys) cnt) (pass_post h P p t ys cnt) h.
Proof.
  intros -> Hl. revert h P p ys cnt. induction fuel as [|fuel IH];
    intros h P p ys cnt Hns Hf Hf0 Hc Hlen; [lia|].
  cbn [list_sort_pass]. wp_step. apply wp_list_end; [done|].
  destruct ys as [|y ys]; simpl hd_or.
  { rewrite Z.eqb_refl. apply wp_ret. exists [], 0%nat.
    split_and!; [lia|done|done|done|simpl; lia|simpl; lia|done|apply frame_refl]. }
  destruct (nodes_hd_ne h (P ++ [p]) (y :: ys) (tail_of l) [] y) as [Hyt _];
    [by rewrite <- app_assoc|set_solver|].
  rewrite (proj2 (Z.eqb_neq y (tail_of l))) by done.
  simpl length in *. rewrite wrap32_small by lia.
  wp_step. apply wp_list_end; [done|].
  destruct (run_split y ys) as [r1 rest1] eqn:E1.
  destruct (run_split_spec _ _ _ _ E1) as (Hy1 & Hs1 & Hh1 & Hn1).
  assert (r1 ≠ []) by (by intros ->).
  wp_step. eapply (wp_find_end_of_run h (P ++ [p]) y ys _ []);
    [by rewrite <- app_assoc|lia|done|].
  wp_step. apply wp_list_end; [done|].
  destruct rest1 as [|z rest1]; simpl hd_or.
  { rewrite Z.eqb_refl. apply wp_ret. rewrite app_nil_r in Hy1. subst r1.
    exists (y :: ys), 1%nat. rewrite Hn1.
    split_and!; [lia|done|done|done|simpl; lia|simpl; lia|lia|apply frame_refl]. }
  assert (nodes h (P ++ p :: r1 ++ (z :: rest1) ++ [tail_of l])) as Hns1.
  { rewrite (app_assoc r1), <- Hy1. done. }
  destruct (nodes_hd_ne h (P ++ p :: r1) (z :: rest1) (tail_of l) [] z) as [Hzt _];
    [by rewrite <- app_assoc|set_solver|].
  rewrite (proj2 (Z.eqb_neq z (tail_of l))) by done.
  wp_step. apply wp_list_end; [done|].
  destruct (run_split z rest1) as [r2 rest2] eqn:E2.
  destruct (run_split_spec _ _ _ _ E2) as (Hy2 & Hs2 & Hh2 & Hn2).
  assert (length (y :: ys) = length r1 + length (z :: rest1))%nat as Hl1
    by (rewrite Hy1, length_app; done).
  assert (length (z :: rest1) = length r2 + length rest2)%nat as Hl2
    by (rewrite Hy2, length_app; done).
  assert (0 < length r1)%nat by (destruct r1; [done|simpl; lia]).
  simpl length in Hl1, Hl2.
  wp_step. eapply (wp_find_end_of_run h (P ++ p :: r1) z rest1 _ []);
    [by rewrite <- app_assoc|lia|done|].
  assert (∃ S', rest2 ++ [tail_of l] = hd_or (tail_of l) rest2 :: S') as [S' HS'].
  { destruct rest2 as [|c B]; [by exists []|]. by exists (B ++ [tail_of l]). }
  wp_step.
  assert (y = hd_or z r1) as -> by (destruct r1; simplify_eq/=; done).
  assert (z = hd_or (hd_or (tail_of l) rest2) r2) as Hz by (destruct r2; simplify_eq/=; done).
  rewrite Hz at 1 2.
  destruct (last_merge P p r1 r2) as (P' & p' & HP' & Hp'); [done|].
  rewrite Hy2, <- app_assoc, HS' in Hns1.
  eapply wp_inplace_merge; [done|lia|done|done|].
  intros h1 Hns2 Hfr. rewrite <- HS' in Hns2.
  eapply wp_mono; [apply (IH h1 P' p' rest2); [|lia..]|].
  { change (P' ++ p' :: ?a) with (P' ++ [p'] ++ a).
    rewrite (app_assoc P'), <- HP', <- app_assoc. done. }
  intros n h2 Hpost. rewrite Hy1, Hy2.
  eapply pass_post_merge; [done|done| |done|done|done|done].
  rewrite <- Hy2, <- Hy1. congruence.
Qed.
Definition sort_post (h : heap) (l : Z) (xs : list Z) (h' : heap) : Prop :=
  ∃ zs, dll h' l zs ∧ Sorted in_order zs ∧ zs ≡ₚ xs ∧ stable xs zs ∧
        frame h h' (all_nodes l xs).

Lemma sort_post_trans h h1 h2 l xs ys :
  ys ≡ₚ xs → stable xs ys → frame h h1 (all_nodes l xs) →
  sort_post h1 l ys h2 → sort_post h l xs h2.
Proof.
  intros Hp Hst Hf (zs & Hd & Hs & Hp' & Hst' & Hf').
  exists zs. split_and!; [done|done|by rewrite Hp'|intros x; by rewrite Hst'|].
  eapply frame_trans; [done|]. eapply frame_weaken; [done|].
  unfold all_nodes. intros a. rewrite !elem_of_cons, !elem_of_app.
  assert (a ∈ ys ↔ a ∈ xs) by (by rewrite Hp). naive_solver.
Qed.

Lemma wp_list_sort_loop h l xs fuel0 fuel :
  dll h l xs → (length xs < fuel0)%nat → (nruns xs < fuel)%nat →
  Z.of_nat (length xs) < 2 ^ 32 →
  wp (list_sort_loop less fuel0 fuel l) (λ _, sort_post h l xs) h.
Proof.
  revert h xs. induction fuel as [|fuel IH]; intros h xs Hd Hf0 Hf Hlen; [lia|].
  destruct (dll_nonnull _ _ _ Hd) as [Hl _].
  cbn [list_sort_loop]. wp_step. eapply wp_list_begin; [done|]. wp_step.
  eapply wp_mono; [apply (wp_list_sort_pass l _ fuel0 fuel0 h [] (head_of l)); [done..|lia|lia]|].
  intros n h1 (zs & k & -> & Hns & Hperm & Hst & Hk1 & Hk2 & Hk3 & Hfr). simpl.
  assert (dll h1 l zs) as Hd1 by done.
  assert (frame h h1 (all_nodes l xs)) as Hfr' by done.
  rewrite Z.add_0_l. destruct (Z.ltb_spec 1 (Z.of_nat k)).
  - pose proof (Permutation_length Hperm).
    eapply wp_mono; [apply (IH h1 zs); [done|lia|lia|lia]|].
    intros [] h2 Hpost. by eapply sort_post_trans.
  - apply wp_ret. exists zs. split_and!; [done| |done|done|done].
    apply nruns_one_Sorted. lia.
Qed.

Lemma wp_list_sort h l xs fuel :
  dll h l xs → (length xs < fuel)%nat → Z.of_nat (length xs) < 2 ^ 32 →
  wp (list_sort less fuel l) (λ _, sort_post h l xs) h.
Proof.
  intros Hd Hf Hlen. destruct (dll_nonnull _ _ _ Hd) as [Hl _].
  unfold list_sort. wp_step. wp_step; [nonnull|]. wp_step.
  pose proof (nruns_le_length xs).
  eapply wp_mono; [apply wp_list_sort_loop; [done|done|lia|done]|].
  intros [] h1 (zs & Hd1 & Hs & Hp & Hst & Hfr).
  wp_step. eapply wp_list_begin; [done|]. wp_step. apply wp_list_end; [done|].
  wp_step. pose proof (Permutation_length Hp).
  eapply (wp_is_sorted h1 [head_of l] zs (tail_of l) []); [done|lia|].
  wp_step; [by apply sortedb_Sorted|]. by exists zs.
Qed.
End sort.

(** ** Properties *)

(** C3: for any comparison that is a strict weak order, list_sort() returns on
    every well-formed list (a bound of one more than the length on each of its
    loops is enough), none of its assertions fails, and afterwards the list
    holds the same elements in non-decreasing order, with elements that compare
    equal in their original order; memory outside the list is untouched. *)
Theorem list_sort_correct (less : Z → Z → bool) h l xs fuel :
  (∀ x y, less x y = true → less y x = false) →
  (∀ x y z, less y x = false → less z y = false → less z x = false) →
  dll h l xs → (length xs < fuel)%nat → Z.of_nat (length xs) < 2 ^ 32 →
  ∃ h' ys, list_sort less fuel l h = Ok (tt, h') ∧ dll h' l ys ∧
    Sorted (λ x y, less y x = false) ys ∧ ys ≡ₚ xs ∧
    (∀ x, filter (same_rank less x) ys = filter (same_rank less x) xs) ∧
    frame h h' (all_nodes l xs).
Proof.
  intros Hasym Htrans Hd Hf Hlen.
  assert (∀ x y z, in_order less x y → in_order less y z → in_order less x z) as Htr
    by (unfold in_order; eauto).
  pose proof (wp_list_sort less Hasym Htr h l xs fuel Hd Hf Hlen) as Hw.
  apply wp_Ok in Hw as ([] & h' & Hrun & ys & Hd' & Hs & Hp & Hst & Hfr).
  exists h', ys. by split_and!.
Qed.

(** Five elements ordered by address modulo 4. *)
Definition sort_demo : heap :=
  match (list_init 100 ;; list_push_back 100 203 ;; list_push_back 100 201 ;;
         list_push_back 100 202 ;; list_push_back 100 207 ;; list_push_back 100 205)
        (list_to_map ((λ a, (a, mk_list_elem 0 0)) <$> [100; 108; 201; 202; 203; 205; 207]))
  with Ok (_, h) => h | Err _ => ∅ end.
Definition mod4_less (x y : Z) : bool := x mod 4 <? y mod 4.

Lemma list_sort_correct_witness :
  ∃ h' ys, list_sort mod4_less 6 100 sort_demo = Ok (tt, h') ∧ dll h' 100 ys ∧
    Sorted (λ x y, mod4_less y x = false) ys ∧ ys ≡ₚ [203; 201; 202; 207; 205] ∧
    (∀ x, filter (same_rank mod4_less x) ys =
          filter (same_rank mod4_less x) [203; 201; 202; 207; 205]) ∧
    frame sort_demo h' (all_nodes 100 [203; 201; 202; 207; 205]).
Proof.
  apply list_sort_correct.
  - unfold mod4_less. lia.
  - unfold mod4_less. lia.
  - split; simpl; [split_and!; done| | |done|done]; by apply (bool_decide_unpack _).
  - simpl. lia.
  - simpl. lia.
Defined.
