(* ===== verification/Bitmap.v ===== *)
(** * Bitmaps ([lib/kernel/bitmap.c])

    A bitmap is an array of 32-bit words ([elem_type] is [unsigned long] on
    i386) that simulates an array of bits.  The operations run in the fault
    monad over one [struct bitmap]. *)
From S2P Require Import Prelude.

Definition ELEM_BITS : Z := 32.
Definition sizeof_elem_type : Z := 4.
Definition BITMAP_ERROR : Z := 2 ^ 32 - 1.

Record bitmap := mk_bitmap { bit_cnt : Z; bits : list Z }.

#[export] Instance bitmap_eq_dec : EqDecision bitmap.
Proof. solve_decision. Defined.

Definition DIV_ROUND_UP (x step : Z) : Z := wrap32 (x + step - 1) / step.

Definition elem_idx (bit_idx : Z) : Z := bit_idx / ELEM_BITS.
Definition bit_mask (bit_idx : Z) : Z := wrap32 (Z.shiftl 1 (bit_idx mod ELEM_BITS)).
Definition elem_cnt (bit_cnt : Z) : Z := DIV_ROUND_UP bit_cnt ELEM_BITS.
Definition byte_cnt (bit_cnt : Z) : Z := wrap32 (sizeof_elem_type * elem_cnt bit_cnt).
Definition last_mask (b : bitmap) : Z :=
  let last_bits := bit_cnt b mod ELEM_BITS in
  if last_bits =? 0 then 2 ^ 32 - 1 else wrap32 (Z.shiftl 1 last_bits - 1).

(** [b->bits[idx]]: reading or writing outside the array is a bad access. *)
Definition get_elem (idx : Z) : M bitmap Z := λ b,
  match bits b !! Z.to_nat idx with Some w => Ok (w, b) | None => Err BadAccess end.
Definition set_elem (idx w : Z) : M bitmap unit := λ b,
  match bits b !! Z.to_nat idx with
  | Some _ => Ok (tt, mk_bitmap (bit_cnt b) (<[Z.to_nat idx := w]> (bits b)))
  | None => Err BadAccess
  end.

Definition bitmap_size : M bitmap Z := gets bit_cnt.

(** ** Single bits *)

Definition bitmap_mark (bit_idx : Z) : M bitmap unit :=
  let idx := elem_idx bit_idx in
  let mask := bit_mask bit_idx in
  w ← get_elem idx; set_elem idx (Z.lor w mask).

Definition bitmap_reset (bit_idx : Z) : M bitmap unit :=
  let idx := elem_idx bit_idx in
  let mask := bit_mask bit_idx in
  w ← get_elem idx; set_elem idx (Z.land w (wrap32 (Z.lnot mask))).

Definition bitmap_flip (bit_idx : Z) : M bitmap unit :=
  let idx := elem_idx bit_idx in
  let mask := bit_mask bit_idx in
  w ← get_elem idx; set_elem idx (Z.lxor w mask).

Definition bitmap_set (idx : Z) (value : bool) : M bitmap unit :=
  n ← gets bit_cnt; ASSERT (idx <? n) ;;
  if value then bitmap_mark idx else bitmap_reset idx.

Definition bitmap_test (idx : Z) : M bitmap bool :=
  n ← gets bit_cnt; ASSERT (idx <? n) ;;
  w ← get_elem (elem_idx idx); mret (negb (Z.land w (bit_mask idx) =? 0)).

(** ** Ranges of bits *)

Definition bitmap_set_multiple (start cnt : Z) (value : bool) : M bitmap unit :=
  n ← gets bit_cnt;
  ASSERT (start <=? n) ;;
  ASSERT (wrap32 (start + cnt) <=? n) ;;
  for_loop (Z.to_nat cnt) 0 (λ i, bitmap_set (wrap32 (start + i)) value).

Definition bitmap_set_all (value : bool) : M bitmap unit :=
  n ← bitmap_size; bitmap_set_multiple 0 n value.

Fixpoint bitmap_count_loop (n : nat) (start i value_cnt : Z) (value : bool) : M bitmap Z :=
  match n with
  | O => mret value_cnt
  | S n =>
      t ← bitmap_test (wrap32 (start + i));
      bitmap_count_loop n start (i + 1)
        (if Bool.eqb t value then wrap32 (value_cnt + 1) else value_cnt) value
  end.

Definition bitmap_count (start cnt : Z) (value : bool) : M bitmap Z :=
  n ← gets bit_cnt;
  ASSERT (start <=? n) ;;
  ASSERT (wrap32 (start + cnt) <=? n) ;;
  bitmap_count_loop (Z.to_nat cnt) start 0 0 value.

Fixpoint bitmap_contains_loop (n : nat) (start i : Z) (value : bool) : M bitmap bool :=
  match n with
  | O => mret false
  | S n =>
      t ← bitmap_test (wrap32 (start + i));
      if Bool.eqb t value then mret true
      else bitmap_contains_loop n start (i + 1) value
  end.

Definition bitmap_contains (start cnt : Z) (value : bool) : M bitmap bool :=
  n ← gets bit_cnt;
  ASSERT (start <=? n) ;;
  ASSERT (wrap32 (start + cnt) <=? n) ;;
  bitmap_contains_loop (Z.to_nat cnt) start 0 value.

Definition bitmap_any (start cnt : Z) : M bitmap bool := bitmap_contains start cnt true.

Definition bitmap_none (start cnt : Z) : M bitmap bool :=
  c ← bitmap_contains start cnt true; mret (negb c).

Definition bitmap_all (start cnt : Z) : M bitmap bool :=
  c ← bitmap_contains start cnt false; mret (negb c).

(** ** Finding groups of bits

    [bitmap_scan_loop n i]: the loop [for (; i <= last; i++)] with [n]
    candidates left. *)

Fixpoint bitmap_scan_loop (n : nat) (i cnt : Z) (value : bool) : M bitmap Z :=
  match n with
  | O => mret BITMAP_ERROR
  | S n =>
      c ← bitmap_contains i cnt (negb value);
      if negb c then mret i else bitmap_scan_loop n (i + 1) cnt value
  end.

Definition bitmap_scan (start cnt : Z) (value : bool) : M bitmap Z :=
  n ← gets bit_cnt;
  ASSERT (start <=? n) ;;
  if cnt <=? n then
    let last := n - cnt in
    bitmap_scan_loop (Z.to_nat (last - start + 1)) start cnt value
  else mret BITMAP_ERROR.

Definition bitmap_scan_and_flip (start cnt : Z) (value : bool) : M bitmap Z :=
  idx ← bitmap_scan start cnt value;
  when (negb (idx =? BITMAP_ERROR)) (bitmap_set_multiple idx cnt (negb value)) ;;
  mret idx.

(** ** Creation

    [malloc_b] and [malloc_bits] are the outcomes of the two calls of malloc():
    the second one, when it succeeds, is storage with arbitrary contents. *)

Definition bitmap_create (malloc_b : bool) (malloc_bits : option (list Z)) (n : Z)
    : result (option bitmap) :=
  if malloc_b then
    if (match malloc_bits with Some _ => true | None => false end) || (n =? 0) then
      '(_, b) ← bitmap_set_all false (mk_bitmap n (default [] malloc_bits));
      mret (Some b)
    else mret None
  else mret None.

(** [sizeof (struct bitmap)] is 8: a [size_t] and a pointer. *)
Definition bitmap_buf_size (n : Z) : Z := wrap32 (8 + byte_cnt n).

(** The block after the [struct bitmap] header is the array of words. *)
Definition bitmap_create_in_buf (n : Z) (block : list Z) (block_size : Z) : result bitmap :=
  if bitmap_buf_size n <=? block_size then
    '(_, b) ← bitmap_set_all false (mk_bitmap n block);
    mret b
  else Err AssertFailed.

Definition bitmap_file_size (b : bitmap) : Z := byte_cnt (bit_cnt b).

(** ** The array of bits a bitmap stands for *)

Definition bit (b : bitmap) (i : Z) : bool :=
  Z.testbit (default 0 (bits b !! Z.to_nat (elem_idx i))) (i mod ELEM_BITS).

(** [wf]: there is a word for every bit and the words are 32 bits wide. *)
Record wf (b : bitmap) : Prop := {
  wf_cnt : 0 ≤ bit_cnt b < 2 ^ 32;
  wf_len : bit_cnt b ≤ ELEM_BITS * Z.of_nat (length (bits b));
  wf_words : Forall (λ w, 0 ≤ w < 2 ^ 32) (bits b)
}.

(** [all_bits b start cnt v]: the [cnt] bits from [start] on are all [v]. *)
Definition all_bits (b : bitmap) (start cnt : Z) (v : bool) : Prop :=
  ∀ i, start ≤ i < start + cnt → bit b i = v.

(** [same_size b b']: an operation changes neither the number of bits nor the
    number of words. *)
Definition same_size (b b' : bitmap) : Prop :=
  bit_cnt b' = bit_cnt b ∧ length (bits b') = length (bits b).

Lemma bits_above w n i : 0 ≤ n → 0 ≤ w < 2 ^ n → n ≤ i → Z.testbit w i = false.
Proof.
  intros Hn Hw Hi. destruct (decide (w = 0)) as [->|Hw0]; [apply Z.testbit_0_l|].
  apply Z.bits_above_log2; [lia|]. enough (Z.log2 w < n) by lia.
  apply Z.log2_lt_pow2; lia.
Qed.

Lemma bits_range w n : 0 ≤ n → 0 ≤ w → (∀ i, n ≤ i → Z.testbit w i = false) → w < 2 ^ n.
Proof.
  intros Hn Hw Hbits. destruct (decide (w = 0)) as [->|Hw0]; [lia|].
  apply Z.log2_lt_pow2; [lia|].
  destruct (decide (n ≤ Z.log2 w)) as [Hle|]; [|lia].
  specialize (Hbits _ Hle). rewrite Z.bit_log2 in Hbits by lia. done.
Qed.

Lemma bit_mask_pow i : bit_mask i = 2 ^ (i mod ELEM_BITS).
Proof.
  unfold bit_mask, ELEM_BITS. pose proof (Z.mod_pos_bound i 32).
  rewrite Z.shiftl_mul_pow2 by lia. rewrite Z.mul_1_l.
  apply wrap32_small. split; [lia|]. apply Z.pow_lt_mono_r; lia.
Qed.

Lemma testbit_bit_mask i j : 0 ≤ j → Z.testbit (bit_mask i) j = bool_decide (i mod ELEM_BITS = j).
Proof.
  intros Hj. rewrite bit_mask_pow. unfold ELEM_BITS. pose proof (Z.mod_pos_bound i 32).
  rewrite Z.pow2_bits_eqb by lia.
  case_bool_decide; [by apply Z.eqb_eq|by apply Z.eqb_neq].
Qed.

(** Two indices name the same bit only if they are equal. *)
Lemma elem_bit_inj i j : elem_idx i = elem_idx j → i mod ELEM_BITS = j mod ELEM_BITS → i = j.
Proof. unfold elem_idx, ELEM_BITS. div_lia. Qed.

Lemma wf_elem b i : wf b → 0 ≤ i < bit_cnt b →
  ∃ w, bits b !! Z.to_nat (elem_idx i) = Some w ∧ 0 ≤ w < 2 ^ 32.
Proof.
  intros [Hc Hl Hw] Hi. unfold ELEM_BITS, elem_idx in *.
  destruct (lookup_lt_is_Some_2 (bits b) (Z.to_nat (i / 32))) as [w Hlk]; [div_lia|].
  exists w. split; [done|]. by eapply Forall_lookup_1 in Hw.
Qed.

(** Replacing one word by a 32-bit word that differs in one bit only. *)
Lemma wf_update b i w w' v :
  wf b → 0 ≤ i < bit_cnt b →
  bits b !! Z.to_nat (elem_idx i) = Some w →
  0 ≤ w' →
  (∀ k, 0 ≤ k → Z.testbit w' k = if decide (i mod ELEM_BITS = k) then v else Z.testbit w k) →
  let b' := mk_bitmap (bit_cnt b) (<[Z.to_nat (elem_idx i) := w']> (bits b)) in
  wf b' ∧ same_size b b' ∧
  ∀ j, 0 ≤ j → bit b' j = if decide (j = i) then v else bit b j.
Proof.
  intros Hwf Hi Hlk Hw' Hbits b'.
  destruct (wf_elem b i Hwf Hi) as (w0 & Hlk0 & Hw0). simplify_eq.
  pose proof (lookup_lt_Some _ _ _ Hlk) as Hlt.
  pose proof Hwf as [Hc Hl Hws].
  split; [|split].
  - constructor; simpl; rewrite ?length_insert; auto.
    apply Forall_insert; [done|]. split; [done|].
    apply bits_range; [lia..|]. intros k Hk. rewrite Hbits by lia.
    unfold ELEM_BITS. pose proof (Z.mod_pos_bound i 32).
    rewrite decide_False by lia. by apply (bits_above _ 32).
  - split; simpl; [done|]. by rewrite length_insert.
  - intros j Hj. unfold bit; simpl.
    assert (0 ≤ j mod ELEM_BITS) by (unfold ELEM_BITS; div_lia).
    destruct (decide (elem_idx j = elem_idx i)) as [He|He].
    + rewrite He, list_lookup_insert_eq by done. simpl. rewrite Hbits by done.
      rewrite Hlk; simpl. destruct (decide (j = i)) as [->|Hne]; [by rewrite decide_True|].
      rewrite decide_False; [done|]. intros ?. apply Hne. by apply elem_bit_inj.
    + rewrite list_lookup_insert_ne; [|unfold elem_idx, ELEM_BITS in *; div_lia].
      rewrite decide_False; [done|]. by intros ->.
Qed.

Lemma wp_get_elem b i w (Q : Z → bitmap → Prop) :
  bits b !! Z.to_nat i = Some w → Q w b → wp (get_elem i) Q b.
Proof. unfold wp, get_elem. by intros ->. Qed.

Lemma wp_set_elem b i w w' (Q : unit → bitmap → Prop) :
  bits b !! Z.to_nat i = Some w →
  Q tt (mk_bitmap (bit_cnt b) (<[Z.to_nat i := w']> (bits b))) →
  wp (set_elem i w') Q b.
Proof. unfold wp, set_elem. by intros ->. Qed.

(** What an operation on the single bit [i] promises: the bit becomes [v] and
    every other bit keeps its value. *)
Definition bit_updated (b : bitmap) (i : Z) (v : bool) (b' : bitmap) : Prop :=
  wf b' ∧ same_size b b' ∧ ∀ j, 0 ≤ j → bit b' j = if decide (j = i) then v else bit b j.

Ltac bitmap_bits :=
  repeat match goal with
  | |- context [Z.testbit (bit_mask _) _] => rewrite testbit_bit_mask by lia
  | |- context [bool_decide _] => case_bool_decide
  | |- context [decide _] => destruct (decide _)
  end; subst; simpl; try done; try congruence.

Lemma wp_bitmap_mark b i : wf b → 0 ≤ i < bit_cnt b →
  wp (bitmap_mark i) (λ _ b', bit_updated b i true b') b.
Proof.
  intros Hwf Hi. destruct (wf_elem b i Hwf Hi) as (w & Hlk & Hw).
  unfold bitmap_mark. wp_step. eapply wp_get_elem; [done|]. eapply wp_set_elem; [done|].
  eapply wf_update; [done..| |].
  - apply Z.lor_nonneg. rewrite bit_mask_pow. split; [lia|]. apply Z.pow_nonneg. lia.
  - intros k Hk. rewrite Z.lor_spec. bitmap_bits; by rewrite ?orb_true_r, ?orb_false_r.
Qed.

Lemma wp_bitmap_reset b i : wf b → 0 ≤ i < bit_cnt b →
  wp (bitmap_reset i) (λ _ b', bit_updated b i false b') b.
Proof.
  intros Hwf Hi. destruct (wf_elem b i Hwf Hi) as (w & Hlk & Hw).
  unfold bitmap_reset. wp_step. eapply wp_get_elem; [done|]. eapply wp_set_elem; [done|].
  eapply wf_update; [done..| |].
  - apply Z.land_nonneg. lia.
  - intros k Hk. rewrite Z.land_spec. unfold wrap32.
    destruct (decide (k < 32)).
    + rewrite Z.mod_pow2_bits_low by lia. rewrite Z.lnot_spec by lia.
      bitmap_bits; by rewrite ?andb_true_r, ?andb_false_r.
    + rewrite (bits_above w 32) by lia. bitmap_bits.
Qed.

Lemma wp_bitmap_flip b i : wf b → 0 ≤ i < bit_cnt b →
  wp (bitmap_flip i) (λ _ b', bit_updated b i (negb (bit b i)) b') b.
Proof.
  intros Hwf Hi. destruct (wf_elem b i Hwf Hi) as (w & Hlk & Hw).
  unfold bitmap_flip. wp_step. eapply wp_get_elem; [done|]. eapply wp_set_elem; [done|].
  eapply wf_update; [done..| |].
  - apply Z.lxor_nonneg. rewrite bit_mask_pow. split; [intros; apply Z.pow_nonneg|]; lia.
  - intros k Hk. rewrite Z.lxor_spec. unfold bit. rewrite Hlk; simpl.
    bitmap_bits; by rewrite ?xorb_true_r, ?xorb_false_r.
Qed.

Lemma wp_bitmap_set b i v : wf b → 0 ≤ i < bit_cnt b →
  wp (bitmap_set i v) (λ _ b', bit_updated b i v b') b.
Proof.
  intros Hwf Hi. unfold bitmap_set. repeat wp_step; [lia|].
  destruct v; [by apply wp_bitmap_mark|by apply wp_bitmap_reset].
Qed.

Lemma wp_bitmap_test b i (Q : bool → bitmap → Prop) : wf b → 0 ≤ i < bit_cnt b →
  Q (bit b i) b → wp (bitmap_test i) Q b.
Proof.
  intros Hwf Hi HQ. destruct (wf_elem b i Hwf Hi) as (w & Hlk & Hw).
  unfold bitmap_test. repeat wp_step; [lia|].
  eapply wp_get_elem; [done|]. wp_step.
  replace (negb _) with (bit b i); [done|]. unfold bit. rewrite Hlk; simpl.
  rewrite bit_mask_pow. assert (0 ≤ i mod ELEM_BITS) by (unfold ELEM_BITS; div_lia).
  destruct (Z.eqb_spec (Z.land w (2 ^ (i mod ELEM_BITS))) 0) as [He|He]; simpl.
  - apply (f_equal (λ z, Z.testbit z (i mod ELEM_BITS))) in He.
    rewrite Z.land_spec, Z.pow2_bits_true, andb_true_r, Z.testbit_0_l in He by lia. done.
  - apply not_false_is_true. intros Hf. apply He. apply Z.bits_inj_iff'. intros k Hk.
    rewrite Z.land_spec, Z.pow2_bits_eqb, Z.testbit_0_l by lia.
    destruct (Z.eqb_spec (i mod ELEM_BITS) k); subst; rewrite ?Hf; by rewrite ?andb_false_r.
Qed.

(** ** Ranges *)

Lemma wp_bitmap_set_multiple b start cnt v :
  wf b → 0 ≤ start → 0 ≤ cnt → start + cnt ≤ bit_cnt b →
  wp (bitmap_set_multiple start cnt v) (λ _ b',
    wf b' ∧ same_size b b' ∧
    ∀ j, 0 ≤ j → bit b' j = if decide (start ≤ j < start + cnt) then v else bit b j) b.
Proof.
  intros Hwf Hs Hc Hn. pose proof (wf_cnt b Hwf).
  unfold bitmap_set_multiple. repeat wp_step; [lia|rewrite wrap32_small; lia|].
  eapply wp_mono; [apply (wp_for_loop (λ k b', wf b' ∧ same_size b b' ∧
    ∀ j, 0 ≤ j → bit b' j = if decide (start ≤ j < start + k) then v else bit b j))|].
  - split; [done|split; [done|]]. intros j Hj. by rewrite decide_False by lia.
  - intros k b1 Hk (Hwf1 & [Hc1 Hl1] & Hb1). cbv beta.
    rewrite wrap32_small by lia.
    eapply wp_mono; [apply wp_bitmap_set; [done|lia]|].
    intros [] b2 (Hwf2 & [Hc2 Hl2] & Hb2). split; [done|split; [split; congruence|]].
    intros j Hj. rewrite Hb2, Hb1 by done. repeat destruct (decide _); try done; lia.
  - intros [] b' H'. rewrite Z.add_0_l, Z2Nat.id in H' by lia. exact H'.
Qed.

Lemma wp_bitmap_set_all b v : wf b →
  wp (bitmap_set_all v) (λ _ b',
    wf b' ∧ same_size b b' ∧ all_bits b' 0 (bit_cnt b) v) b.
Proof.
  intros Hwf. pose proof (wf_cnt b Hwf). unfold bitmap_set_all, bitmap_size. repeat wp_step.
  eapply wp_mono; [apply wp_bitmap_set_multiple; [done|lia..]|].
  intros [] b' (? & ? & Hb). split; [done|split; [done|]].
  intros j Hj. rewrite Hb by lia. by rewrite decide_True by lia.
Qed.

(** The number of bits equal to [v] among [n] bits from [i] on. *)
Fixpoint bits_eq_count (b : bitmap) (n : nat) (i : Z) (v : bool) : Z :=
  match n with
  | O => 0
  | S n => (if Bool.eqb (bit b i) v then 1 else 0) + bits_eq_count b n (i + 1) v
  end.

Lemma bits_eq_count_range b n i v : 0 ≤ bits_eq_count b n i v ≤ Z.of_nat n.
Proof.
  revert i. induction n as [|n IH]; intros i; simpl; [lia|].
  specialize (IH (i + 1)). destruct (Bool.eqb _ _); lia.
Qed.

Lemma wp_bitmap_count_loop b n start i c v (Q : Z → bitmap → Prop) :
  wf b → 0 ≤ start → 0 ≤ i → start + i + Z.of_nat n ≤ bit_cnt b →
  0 ≤ c → c + Z.of_nat n < 2 ^ 32 →
  Q (c + bits_eq_count b n (start + i) v) b →
  wp (bitmap_count_loop n start i c v) Q b.
Proof.
  intros Hwf Hs. revert i c. pose proof (wf_cnt b Hwf).
  induction n as [|n IH]; intros i c Hi Hn Hc Hov HQ; cbn [bitmap_count_loop].
  - wp_step. simpl in HQ. by rewrite Z.add_0_r in HQ.
  - wp_step. rewrite wrap32_small by lia. apply wp_bitmap_test; [done|lia|].
    simpl in HQ. apply IH; [lia..| | |].
    + destruct (Bool.eqb _ _); [rewrite wrap32_small|]; lia.
    + destruct (Bool.eqb _ _); [rewrite wrap32_small|]; lia.
    + replace (start + (i + 1)) with (start + i + 1) by lia.
      destruct (Bool.eqb _ _); [rewrite wrap32_small by lia|];
        revert HQ; match goal with |- Q ?x _ → Q ?y _ => by replace x with y by lia end.
Qed.

Lemma wp_bitmap_count b start cnt v (Q : Z → bitmap → Prop) :
  wf b → 0 ≤ start → 0 ≤ cnt → start + cnt ≤ bit_cnt b →
  Q (bits_eq_count b (Z.to_nat cnt) start v) b →
  wp (bitmap_count start cnt v) Q b.
Proof.
  intros Hwf Hs Hc Hn HQ. pose proof (wf_cnt b Hwf).
  unfold bitmap_count. repeat wp_step; [lia|rewrite wrap32_small; lia|].
  apply wp_bitmap_count_loop; [done|lia..|]. by rewrite Z.add_0_r, Z.add_0_l.
Qed.

Lemma all_bits_cons b i n v : 0 ≤ n →
  all_bits b i (n + 1) v ↔ bit b i = v ∧ all_bits b (i + 1) n v.
Proof.
  intros Hn. unfold all_bits. split.
  - intros Hall. split; [|intros]; apply Hall; lia.
  - intros [H0 H1] j Hj. destruct (decide (j = i)) as [->|]; [done|]. apply H1. lia.
Qed.

Lemma wp_bitmap_contains_loop b n start i v (Q : bool → bitmap → Prop) :
  wf b → 0 ≤ start → 0 ≤ i → start + i + Z.of_nat n ≤ bit_cnt b →
  (∀ r, (r = false ↔ all_bits b (start + i) (Z.of_nat n) (negb v)) → Q r b) →
  wp (bitmap_contains_loop n start i v) Q b.
Proof.
  intros Hwf Hs. revert i. pose proof (wf_cnt b Hwf).
  induction n as [|n IH]; intros i Hi Hn HQ; cbn [bitmap_contains_loop].
  - wp_step. apply HQ. split; [|done]. intros _ j Hj. lia.
  - wp_step. rewrite wrap32_small by lia. apply wp_bitmap_test; [done|lia|].
    replace (Z.of_nat (S n)) with (Z.of_nat n + 1) in HQ by lia.
    setoid_rewrite all_bits_cons in HQ; [|lia].
    destruct (Bool.eqb _ _) eqn:He.
    + wp_step. apply HQ. split; [done|]. apply eqb_prop in He. intros [H0 _].
      rewrite He in H0. by destruct v.
    + apply IH; [lia..|]. intros r Hr. apply HQ. rewrite Hr.
      replace (start + (i + 1)) with (start + i + 1) by lia.
      apply eqb_false_iff in He. destruct (bit b (start + i)), v; naive_solver.
Qed.

Lemma wp_bitmap_contains b start cnt v (Q : bool → bitmap → Prop) :
  wf b → 0 ≤ start → 0 ≤ cnt → start + cnt ≤ bit_cnt b →
  (∀ r, (r = false ↔ all_bits b start cnt (negb v)) → Q r b) →
  wp (bitmap_contains start cnt v) Q b.
Proof.
  intros Hwf Hs Hc Hn HQ. pose proof (wf_cnt b Hwf).
  unfold bitmap_contains. repeat wp_step; [lia|rewrite wrap32_small; lia|].
  apply wp_bitmap_contains_loop; [done|lia..|].
  by rewrite Z.add_0_r, Z2Nat.id by lia.
Qed.

(** ** Scanning *)

(** [first_group b start cnt v i]: [i] is the lowest index, at or after
    [start], of [cnt] consecutive bits equal to [v]. *)
Definition first_group (b : bitmap) (start cnt : Z) (v : bool) (i : Z) : Prop :=
  start ≤ i ∧ i + cnt ≤ bit_cnt b ∧ all_bits b i cnt v ∧
  ∀ j, start ≤ j < i → ¬ all_bits b j cnt v.

Definition no_group (b : bitmap) (start cnt : Z) (v : bool) : Prop :=
  ∀ j, start ≤ j → j + cnt ≤ bit_cnt b → ¬ all_bits b j cnt v.

Definition scan_result (b : bitmap) (start cnt : Z) (v : bool) (r : Z) : Prop :=
  (r = BITMAP_ERROR ∧ no_group b start cnt v) ∨
  (r ≠ BITMAP_ERROR ∧ first_group b start cnt v r).

Lemma wp_bitmap_scan_loop b n start i cnt v (Q : Z → bitmap → Prop) :
  wf b → 0 ≤ start ≤ i → 0 ≤ cnt → bit_cnt b < BITMAP_ERROR →
  (0 < n)%nat → Z.of_nat n + i = bit_cnt b - cnt + 1 →
  (∀ j, start ≤ j < i → ¬ all_bits b j cnt v) →
  (∀ r, scan_result b start cnt v r → Q r b) →
  wp (bitmap_scan_loop n i cnt v) Q b.
Proof.
  intros Hwf Hs Hc Hne Hpos. revert i Hs. pose proof (wf_cnt b Hwf).
  clear Hpos. induction n as [|n IH]; intros i Hs Hn Hbefore HQ; cbn [bitmap_scan_loop].
  - wp_step. apply HQ. left. split; [done|]. intros j Hj1 Hj2. apply Hbefore. lia.
  - wp_step. apply wp_bitmap_contains; [done|lia..|]. intros r Hr.
    rewrite negb_involutive in Hr. destruct r; simpl.
    + apply IH; [lia..| |done]. intros j Hj.
      destruct (decide (j = i)) as [->|]; [|apply Hbefore; lia].
      intros Hall. by apply Hr in Hall.
    + wp_step. apply HQ. right. split; [lia|]. split_and!; [lia|lia|by apply Hr|done].
Qed.

Lemma wp_bitmap_scan b start cnt v (Q : Z → bitmap → Prop) :
  wf b → 0 ≤ start ≤ bit_cnt b → 0 ≤ cnt → bit_cnt b < BITMAP_ERROR →
  (∀ r, scan_result b start cnt v r → Q r b) →
  wp (bitmap_scan start cnt v) Q b.
Proof.
  intros Hwf Hs Hc Hne HQ. unfold bitmap_scan. repeat wp_step; [lia|].
  destruct (Z.leb_spec cnt (bit_cnt b)).
  - destruct (decide (start ≤ bit_cnt b - cnt)).
    + apply (wp_bitmap_scan_loop b _ start); [done|lia..| |done]. lia.
    + replace (Z.to_nat _) with O by lia. simpl. wp_step. apply HQ. left.
      split; [done|]. intros j ??. lia.
  - wp_step. apply HQ. left. split; [done|]. intros j ??. lia.
Qed.

(** What a run of [bitmap_scan_and_flip] may end in. *)
Definition flip_result (b : bitmap) (start cnt : Z) (v : bool) (r : Z) (b' : bitmap) : Prop :=
  wf b' ∧ same_size b b' ∧
  ((r = BITMAP_ERROR ∧ no_group b start cnt v ∧ b' = b) ∨
   (r ≠ BITMAP_ERROR ∧ first_group b start cnt v r ∧
    ∀ j, 0 ≤ j → bit b' j = if decide (r ≤ j < r + cnt) then negb v else bit b j)).

Lemma wp_bitmap_scan_and_flip b start cnt v :
  wf b → 0 ≤ start ≤ bit_cnt b → 0 ≤ cnt → bit_cnt b < BITMAP_ERROR →
  wp (bitmap_scan_and_flip start cnt v) (flip_result b start cnt v) b.
Proof.
  intros Hwf Hs Hc Hne. unfold bitmap_scan_and_flip. wp_step.
  apply wp_bitmap_scan; [done..|]. intros r [[-> Hno]|[Hr Hgrp]]; simpl.
  - repeat wp_step. split; [done|]. split; [done|]. by left.
  - rewrite (proj2 (Z.eqb_neq _ _) Hr). simpl. repeat wp_step.
    pose proof Hgrp as (? & ? & _).
    eapply wp_mono; [apply wp_bitmap_set_multiple; [done|lia..]|].
    intros [] b' (? & ? & Hb). wp_step. split; [done|]. split; [done|]. by right.
Qed.

(** C4: [bitmap_scan_and_flip] of at least one bit, from a start within the
    bitmap, allocates.  On a well-formed bitmap of fewer than SIZE_MAX bits it
    does not fault; it returns [BITMAP_ERROR] exactly when no group of [cnt]
    consecutive bits equal to [v] lies at or after [start], and leaves the
    bitmap alone; otherwise it returns the start of the first such group,
    turns exactly the bits of that group to [negb v] and keeps every other
    bit. *)
Theorem bitmap_scan_and_flip_correct b start cnt v :
  wf b → 0 ≤ start ≤ bit_cnt b → 0 < cnt → bit_cnt b < BITMAP_ERROR →
  ∃ r b', bitmap_scan_and_flip start cnt v b = Ok (r, b') ∧
    wf b' ∧ same_size b b' ∧
    ((r = BITMAP_ERROR ∧ no_group b start cnt v ∧ b' = b) ∨
     (r ≠ BITMAP_ERROR ∧ first_group b start cnt v r ∧
      ∀ j, 0 ≤ j → bit b' j = if decide (r ≤ j < r + cnt) then negb v else bit b j)).
Proof.
  intros Hwf Hs Hc Hne. apply wp_Ok. apply wp_bitmap_scan_and_flip; done || lia.
Qed.

(** A bitmap of 40 bits, bits 0..31 and 34 in use: the first group of three
    free bits is 35..37. *)
Definition example_bitmap : bitmap := mk_bitmap 40 [2 ^ 32 - 1; 4].

Lemma example_bitmap_wf : wf example_bitmap.
Proof.
  constructor; simpl; unfold ELEM_BITS; [lia..|].
  repeat (apply Forall_cons_2; [lia|]). apply Forall_nil_2.
Qed.

Lemma bitmap_scan_and_flip_correct_witness :
  ∃ r b', bitmap_scan_and_flip 0 3 false example_bitmap = Ok (r, b') ∧
    wf b' ∧ same_size example_bitmap b' ∧
    ((r = BITMAP_ERROR ∧ no_group example_bitmap 0 3 false ∧ b' = example_bitmap) ∨
     (r ≠ BITMAP_ERROR ∧ first_group example_bitmap 0 3 false r ∧
      ∀ j, 0 ≤ j → bit b' j = if decide (r ≤ j < r + 3) then true else bit example_bitmap j)).
Proof.
  apply (bitmap_scan_and_flip_correct example_bitmap 0 3 false);
    [exact example_bitmap_wf|unfold example_bitmap, BITMAP_ERROR; simpl; lia..].
Defined.

Example bitmap_scan_example :
  bitmap_scan_and_flip 0 3 false example_bitmap = Ok (35, mk_bitmap 40 [2 ^ 32 - 1; 60]).
Proof. vm_compute. reflexivity. Qed.

(** The word array implements an array of bits: [bitmap_set],
    [bitmap_flip] and [bitmap_set_multiple] change exactly the bits they name
    and keep the bitmap well formed, and [bitmap_test] and [bitmap_count] read
    the same bits back. *)
Theorem bitmap_array_of_bits b i cnt v :
  wf b → 0 ≤ i < bit_cnt b → 0 ≤ cnt → i + cnt ≤ bit_cnt b →
  (∃ b', bitmap_set i v b = Ok (tt, b') ∧ bit_updated b i v b' ∧
     bitmap_test i b' = Ok (v, b')) ∧
  (∃ b', bitmap_flip i b = Ok (tt, b') ∧ bit_updated b i (negb (bit b i)) b') ∧
  (∃ b', bitmap_set_multiple i cnt v b = Ok (tt, b') ∧ wf b' ∧ same_size b b' ∧
     (∀ j, 0 ≤ j → bit b' j = if decide (i ≤ j < i + cnt) then v else bit b j) ∧
     bitmap_all i cnt b' = Ok (v || (cnt =? 0), b')) ∧
  bitmap_count i cnt v b = Ok (bits_eq_count b (Z.to_nat cnt) i v, b).
Proof.
  intros Hwf Hi Hc Hn. split_and!.
  - pose proof (wp_bitmap_set b i v Hwf Hi) as ([] & b' & Hrun & Hupd)%wp_Ok.
    exists b'. split; [done|]. split; [done|]. destruct Hupd as (Hwf' & [Hc' _] & Hb).
    assert (wp (bitmap_test i) (λ r s, r = v ∧ s = b') b') as (? & ? & -> & -> & ->)%wp_Ok; [|done].
    apply wp_bitmap_test; [done|lia|]. rewrite Hb by lia. by rewrite decide_True.
  - pose proof (wp_bitmap_flip b i Hwf Hi) as ([] & b' & Hrun & Hupd)%wp_Ok. eauto.
  - pose proof (wp_bitmap_set_multiple b i cnt v Hwf ltac:(lia) Hc Hn)
      as ([] & b' & Hrun & Hwf' & Hsame & Hb)%wp_Ok.
    exists b'. split; [done|]. split; [done|]. split; [done|]. split; [done|].
    destruct Hsame as [Hc' _].
    assert (wp (bitmap_all i cnt) (λ r s, r = v || (cnt =? 0) ∧ s = b') b')
      as (? & ? & -> & -> & ->)%wp_Ok; [|done].
    unfold bitmap_all. wp_step. apply wp_bitmap_contains; [done|lia..|].
    intros r Hr. wp_step. split; [|done]. simpl in Hr.
    destruct (Z.eqb_spec cnt 0) as [->|Hcnt].
    + rewrite orb_true_r. destruct Hr as [_ ->]; [done|]. intros j Hj; lia.
    + rewrite orb_false_r. destruct v, r; simpl; try done.
      * symmetry. apply Hr. intros j Hj. rewrite Hb by lia. by rewrite decide_True by lia.
      * assert (bit b' i = true) as Hbi by (apply Hr; [done|lia]).
        rewrite Hb, decide_True in Hbi by lia. done.
  - assert (wp (bitmap_count i cnt v) (λ r s, r = bits_eq_count b (Z.to_nat cnt) i v ∧ s = b) b)
      as (? & ? & -> & -> & ->)%wp_Ok; [|done].
    apply wp_bitmap_count; [done|lia..|done].
Qed.

Lemma bitmap_array_of_bits_witness :
  (∃ b', bitmap_set 33 true example_bitmap = Ok (tt, b') ∧
     bit_updated example_bitmap 33 true b' ∧ bitmap_test 33 b' = Ok (true, b')).
Proof.
  refine (proj1 (bitmap_array_of_bits example_bitmap 33 2 true _ _ _ _));
    [exact example_bitmap_wf|unfold example_bitmap; simpl; lia..].
Defined.

(** A call of [bitmap_scan_and_flip] for no bits does not return 0, as its
    comment says, but [start], whatever the bitmap holds. *)
Theorem bitmap_scan_zero b start v :
  wf b → 0 ≤ start ≤ bit_cnt b → bit_cnt b < BITMAP_ERROR →
  ∃ b', bitmap_scan_and_flip start 0 v b = Ok (start, b') ∧ ∀ j, 0 ≤ j → bit b' j = bit b j.
Proof.
  intros Hwf Hs Hne. unfold bitmap_scan_and_flip.
  assert (wp (bitmap_scan start 0 v) (λ r s, r = start ∧ s = b) b)
    as (? & ? & Hscan & -> & ->)%wp_Ok.
  { apply wp_bitmap_scan; [done|done|lia|done|]. intros r [[-> Hno]|[_ (?&?&?&Hfst)]].
    - destruct (Hno start); [lia..|]. intros j Hj; lia.
    - split; [|done]. destruct (decide (r = start)); [done|].
      destruct (Hfst start); [lia|]. intros j Hj; lia. }
  pose proof (wp_bitmap_set_multiple b start 0 (negb v) Hwf ltac:(lia) ltac:(lia) ltac:(lia))
    as ([] & b' & Hrun & _ & _ & Hb)%wp_Ok.
  exists b'. unfold mbind, M_bind. rewrite Hscan.
  rewrite (proj2 (Z.eqb_neq start BITMAP_ERROR)) by lia. simpl. rewrite Hrun.
  split; [done|]. intros j Hj. rewrite Hb by done. by rewrite decide_False by lia.
Qed.

Lemma bitmap_scan_zero_witness :
  ∃ b', bitmap_scan_and_flip 34 0 false example_bitmap = Ok (34, b') ∧
    ∀ j, 0 ≤ j → bit b' j = bit example_bitmap j.
Proof.
  apply (bitmap_scan_zero example_bitmap 34 false);
    [exact example_bitmap_wf|unfold example_bitmap, BITMAP_ERROR; simpl; lia..].
Defined.
