(* ===== verification/Bytes.v ===== *)
(** * Byte buffers

    Buffers, sectors and on-disk structures are lists of bytes ([Z] values
    below 256).  [slice] and [put] are the copies [memcpy] makes out of and
    into a buffer; [mem_read] and [mem_write] are the same copies with the
    bounds of the buffer checked, an access outside being a [BadAccess].
    [le32] is the little-endian layout of a 32-bit word on i386. *)
From S2P Require Import Prelude.

Definition slice {A} (ofs n : Z) (l : list A) : list A :=
  take (Z.to_nat n) (drop (Z.to_nat ofs) l).
Definition put {A} (ofs : Z) (d l : list A) : list A :=
  take (Z.to_nat ofs) l ++ d ++ drop (Z.to_nat ofs + length d) l.

Abbreviation len l := (Z.of_nat (length l)).

Definition mem_read {S A} (buf : list A) (ofs n : Z) : M S (list A) := λ s,
  if (0 <=? ofs) && (0 <=? n) && (ofs + n <=? len buf)
  then Ok (slice ofs n buf, s) else Err BadAccess.
Definition mem_write {S A} (buf : list A) (ofs : Z) (d : list A) : M S (list A) := λ s,
  if (0 <=? ofs) && (ofs + len d <=? len buf)
  then Ok (put ofs d buf, s) else Err BadAccess.

Section slices.
Context {A : Type}.
Implicit Types l d : list A.

Lemma length_slice ofs n l : 0 ≤ ofs → 0 ≤ n → ofs + n ≤ len l → len (slice ofs n l) = n.
Proof. intros. unfold slice. rewrite length_take, length_drop. lia. Qed.

Lemma length_put ofs d l : 0 ≤ ofs → ofs + len d ≤ len l → length (put ofs d l) = length l.
Proof. intros. unfold put. rewrite !length_app, length_take, length_drop. lia. Qed.

Lemma lookup_slice ofs n l i : 0 ≤ ofs → (Z.of_nat i < n) →
  slice ofs n l !! i = l !! (Z.to_nat ofs + i)%nat.
Proof. intros. unfold slice. rewrite lookup_take_lt by lia. by rewrite lookup_drop. Qed.

Lemma lookup_slice_ge ofs n l i : n ≤ Z.of_nat i → slice ofs n l !! i = None.
Proof. intros. unfold slice. rewrite lookup_take_ge by lia. done. Qed.

(** The element [i] of a buffer after a copy into it. *)
Lemma lookup_put ofs d l i : 0 ≤ ofs → ofs + len d ≤ len l →
  put ofs d l !! i =
    if decide (ofs ≤ Z.of_nat i < ofs + len d) then d !! (i - Z.to_nat ofs)%nat else l !! i.
Proof.
  intros Ho Hl. unfold put. case_decide as Hi.
  - rewrite lookup_app_r; rewrite length_take; [|lia].
    rewrite lookup_app_l by lia. f_equal. lia.
  - destruct (decide (Z.of_nat i < ofs)).
    + rewrite lookup_app_l; [|rewrite length_take; lia]. rewrite lookup_take_lt by lia. done.
    + rewrite lookup_app_r; rewrite length_take; [|lia].
      rewrite lookup_app_r by lia. rewrite lookup_drop. f_equal. lia.
Qed.

Lemma list_eq_len (l1 l2 : list A) : length l1 = length l2 →
  (∀ i : nat, (i < length l2)%nat → l1 !! i = l2 !! i) → l1 = l2.
Proof.
  intros Hlen H. apply list_eq. intros i. destruct (decide (i < length l2)%nat) as [|Hge]; [auto|].
  rewrite !lookup_ge_None_2 by lia. done.
Qed.

Lemma slice_nil ofs l : slice ofs 0 l = [].
Proof. done. Qed.

Lemma slice_all l : slice 0 (len l) l = l.
Proof. unfold slice. rewrite drop_0, Nat2Z.id. by apply firstn_all. Qed.

Lemma put_nil ofs l : put ofs [] l = l.
Proof. unfold put. simpl. rewrite Nat.add_0_r. apply take_drop. Qed.

Lemma slice_app ofs n m l : 0 ≤ ofs → 0 ≤ n → 0 ≤ m →
  slice ofs n l ++ slice (ofs + n) m l = slice ofs (n + m) l.
Proof.
  intros. unfold slice. rewrite !Z2Nat.inj_add by lia.
  rewrite <- drop_drop. generalize (drop (Z.to_nat ofs) l) as k. intros k.
  rewrite take_take_drop. done.
Qed.

Lemma slice_slice o1 n1 o2 n2 l : 0 ≤ o1 → 0 ≤ o2 → 0 ≤ n2 → o2 + n2 ≤ n1 →
  slice o2 n2 (slice o1 n1 l) = slice (o1 + o2) n2 l.
Proof.
  intros. apply list_eq. intros i. destruct (decide (Z.of_nat i < n2)).
  - rewrite !lookup_slice by lia. f_equal. lia.
  - by rewrite !lookup_slice_ge by lia.
Qed.

Lemma put_put_app ofs d1 d2 l : 0 ≤ ofs → ofs + len d1 + len d2 ≤ len l →
  put (ofs + len d1) d2 (put ofs d1 l) = put ofs (d1 ++ d2) l.
Proof.
  intros Ho Hl. assert (length (put ofs d1 l) = length l) as Hlp by (apply length_put; lia).
  apply list_eq. intros i. rewrite !lookup_put; rewrite ?Hlp, ?length_app; try lia.
  repeat case_decide; try lia; try done.
  - rewrite lookup_app_r by lia. f_equal. lia.
  - by rewrite lookup_app_l by lia.
Qed.

Lemma slice_put_same ofs d l : 0 ≤ ofs → ofs + len d ≤ len l → slice ofs (len d) (put ofs d l) = d.
Proof.
  intros. apply list_eq. intros i. destruct (decide (Z.of_nat i < len d)).
  - rewrite lookup_slice, lookup_put by lia. rewrite decide_True by lia. f_equal. lia.
  - rewrite lookup_slice_ge by lia. symmetry. apply lookup_ge_None_2. lia.
Qed.

(** A copy out of a region the copy into the buffer did not touch. *)
Lemma slice_put_disjoint o n ofs d l : 0 ≤ o → 0 ≤ ofs → ofs + len d ≤ len l →
  o + n ≤ ofs ∨ ofs + len d ≤ o →
  slice o n (put ofs d l) = slice o n l.
Proof.
  intros. apply list_eq. intros i. destruct (decide (Z.of_nat i < n)).
  - rewrite !lookup_slice, lookup_put by lia. by rewrite decide_False by lia.
  - by rewrite !lookup_slice_ge by lia.
Qed.

(** A copy into a region, seen through a slice that contains it. *)
Lemma slice_put_inside o n ofs d l : 0 ≤ o ≤ ofs → ofs + len d ≤ o + n → o + n ≤ len l →
  slice o n (put ofs d l) = put (ofs - o) d (slice o n l).
Proof.
  intros. assert (len (slice o n l) = n) by (apply length_slice; lia).
  apply list_eq. intros i. destruct (decide (Z.of_nat i < n)).
  - rewrite lookup_slice, !lookup_put by lia. repeat case_decide; try lia.
    + f_equal. lia.
    + by rewrite lookup_slice by lia.
  - rewrite lookup_slice_ge by lia. symmetry. apply lookup_ge_None_2.
    assert (length (put (ofs - o) d (slice o n l)) = length (slice o n l)) by (apply length_put; lia).
    lia.
Qed.

Lemma put_comm o1 d1 o2 d2 l : 0 ≤ o1 → 0 ≤ o2 → o1 + len d1 ≤ len l → o2 + len d2 ≤ len l →
  o1 + len d1 ≤ o2 ∨ o2 + len d2 ≤ o1 →
  put o1 d1 (put o2 d2 l) = put o2 d2 (put o1 d1 l).
Proof.
  intros. assert (length (put o2 d2 l) = length l) by (apply length_put; lia).
  assert (length (put o1 d1 l) = length l) by (apply length_put; lia).
  apply list_eq. intros i. rewrite !lookup_put by lia. repeat case_decide; done || lia.
Qed.

(** Replacing a part of a slice and writing the slice back is a copy of the
    part: the bounce buffer of the file system. *)
Lemma put_bounce o n k d l : 0 ≤ o → 0 ≤ k → k + len d ≤ n → o + n ≤ len l →
  put o (put k d (slice o n l)) l = put (o + k) d l.
Proof.
  intros. assert (len (slice o n l) = n) as Hs by (apply length_slice; lia).
  assert (length (put k d (slice o n l)) = length (slice o n l)) by (apply length_put; lia).
  apply list_eq. intros i. rewrite !lookup_put by lia. repeat case_decide; try lia; try done.
  - f_equal. lia.
  - rewrite lookup_slice by lia. f_equal. lia.
Qed.

Lemma Forall_slice (P : A → Prop) o n l : Forall P l → Forall P (slice o n l).
Proof. intros. by apply Forall_take, Forall_drop. Qed.

Lemma Forall_put (P : A → Prop) o d l : Forall P d → Forall P l → Forall P (put o d l).
Proof.
  intros. unfold put. rewrite !Forall_app.
  split_and!; [by apply Forall_take|done|by apply Forall_drop].
Qed.

Lemma wp_mem_read {St} buf ofs n (Q : list A → St → Prop) s :
  0 ≤ ofs → 0 ≤ n → ofs + n ≤ len buf → Q (slice ofs n buf) s → wp (mem_read buf ofs n) Q s.
Proof.
  intros. unfold wp, mem_read.
  by rewrite (proj2 (Z.leb_le _ _)), (proj2 (Z.leb_le 0 n)), (proj2 (Z.leb_le _ (len buf))).
Qed.

Lemma wp_mem_write {St} buf ofs d (Q : list A → St → Prop) s :
  0 ≤ ofs → ofs + len d ≤ len buf → Q (put ofs d buf) s → wp (mem_write buf ofs d) Q s.
Proof.
  intros. unfold wp, mem_write.
  by rewrite (proj2 (Z.leb_le _ _)), (proj2 (Z.leb_le _ (len buf))).
Qed.
End slices.

(** ** Little-endian words *)

Definition is_byte (b : Z) : Prop := 0 ≤ b < 256.
Definition bytes (l : list Z) : Prop := Forall is_byte l.

Definition le32 (w : Z) : list Z :=
  [w mod 256; (w / 2 ^ 8) mod 256; (w / 2 ^ 16) mod 256; (w / 2 ^ 24) mod 256].

Definition of_le32 (l : list Z) : Z :=
  match l with
  | [b0; b1; b2; b3] => b0 + b1 * 2 ^ 8 + b2 * 2 ^ 16 + b3 * 2 ^ 24
  | _ => 0
  end.

Lemma le32_bytes w : bytes (le32 w).
Proof.
  unfold bytes, le32, is_byte.
  repeat (apply Forall_cons_2; [apply Z.mod_pos_bound; lia|]). apply Forall_nil_2.
Qed.

Lemma of_le32_le32 w : of_le32 (le32 w) = wrap32 w.
Proof. unfold of_le32, le32, wrap32. change (2 ^ 32) with 4294967296. div_lia. Qed.

Lemma le32_of_le32 l : length l = 4%nat → bytes l → le32 (of_le32 l) = l.
Proof.
  intros Hl Hb. destruct l as [|b0 [|b1 [|b2 [|b3 [|]]]]]; try done.
  unfold bytes, is_byte in Hb. rewrite !Forall_cons in Hb. destruct Hb as (?&?&?&?&_).
  unfold le32, of_le32. repeat f_equal; div_lia.
Qed.

Lemma of_le32_range l : length l = 4%nat → bytes l → 0 ≤ of_le32 l < 2 ^ 32.
Proof.
  intros Hl Hb. destruct l as [|b0 [|b1 [|b2 [|b3 [|]]]]]; try done.
  unfold bytes, is_byte in Hb. rewrite !Forall_cons in Hb. destruct Hb as (?&?&?&?&_).
  unfold of_le32. lia.
Qed.

Lemma bytes_app l1 l2 : bytes l1 → bytes l2 → bytes (l1 ++ l2).
Proof. intros. by apply Forall_app. Qed.

#[export] Hint Resolve le32_bytes bytes_app : cmodel.

(** An array of words as it lies in memory, and back. *)
Definition words_to_bytes (ws : list Z) : list Z := flat_map le32 ws.

Fixpoint bytes_to_words (l : list Z) : list Z :=
  match l with
  | b0 :: b1 :: b2 :: b3 :: l => of_le32 [b0; b1; b2; b3] :: bytes_to_words l
  | _ => []
  end.

Lemma words_to_bytes_length ws : length (words_to_bytes ws) = (4 * length ws)%nat.
Proof. induction ws as [|w ws IH]; simpl; [done|]. rewrite IH. lia. Qed.

Lemma words_to_bytes_bytes ws : bytes (words_to_bytes ws).
Proof.
  induction ws as [|w ws IH]; simpl; [by apply Forall_nil|].
  apply (bytes_app (le32 w)); auto with cmodel.
Qed.

Lemma bytes_to_words_to_bytes ws : Forall (λ w, 0 ≤ w < 2 ^ 32) ws →
  bytes_to_words (words_to_bytes ws) = ws.
Proof.
  induction 1 as [|w ws Hw _ IH]; [done|].
  change (words_to_bytes (w :: ws)) with (le32 w ++ words_to_bytes ws).
  change (bytes_to_words (le32 w ++ words_to_bytes ws))
    with (of_le32 (le32 w) :: bytes_to_words (words_to_bytes ws)).
  by rewrite IH, of_le32_le32, wrap32_small.
Qed.
