(* ===== verification/FsState.v ===== *)
(** * The state of the file system

    One record holds what the files of [filesys/] share: the block device
    behind [fs_device] ([devices/block.c]), the [struct inode], [struct file]
    and [struct dir] objects in kernel memory, reached by address so that two
    openers of one inode share it, the list of open inodes and the free map.

    Memory allocation is part of the state: [oom n] says whether the [n]-th
    call of malloc() or calloc() fails, [allocs] counts the calls and an
    address is never handed out twice. *)
From S2P Require Import Prelude Bytes Bitmap.

(** ** Block devices ([devices/block.c]) *)

Definition BLOCK_SECTOR_SIZE : Z := 512.

Inductive block_type :=
  | BLOCK_KERNEL | BLOCK_FILESYS | BLOCK_SCRATCH | BLOCK_SWAP | BLOCK_RAW | BLOCK_FOREIGN.

#[export] Instance block_type_eq_dec : EqDecision block_type.
Proof. solve_decision. Defined.

(** The driver behind [ops] and [aux] is the contents of the device, sector
    [n] being the bytes [512 n .. 512 n + 511]. *)
Record block := mk_block {
  btype : block_type;
  bsize : Z;
  contents : list Z;
  read_cnt : Z;
  write_cnt : Z
}.

Definition check_sector (b : block) (sector : Z) : result unit :=
  if bsize b <=? sector then Err Panicked else Ok tt.

Definition block_read (sector : Z) : M block (list Z) := λ b,
  _ ← check_sector b sector;
  Ok (slice (512 * sector) 512 (contents b),
      mk_block (btype b) (bsize b) (contents b) (wrap64 (read_cnt b + 1)) (write_cnt b)).

Definition block_write (sector : Z) (buffer : list Z) : M block unit := λ b,
  _ ← check_sector b sector;
  if decide (btype b = BLOCK_FOREIGN) then Err AssertFailed else
  if len buffer <? 512 then Err BadAccess else
  Ok (tt, mk_block (btype b) (bsize b) (put (512 * sector) (slice 0 512 buffer) (contents b))
            (read_cnt b) (wrap64 (write_cnt b + 1))).

Definition block_size (b : block) : Z := bsize b.

(** ** The objects of [filesys/] *)

Definition INODE_MAGIC : Z := 0x494e4f44.

Record inode_disk := mk_inode_disk {
  id_start : Z;
  id_length : Z;
  id_magic : Z;
  id_unused : list Z
}.

Record inode := mk_inode {
  i_sector : Z;
  open_cnt : Z;
  removed : bool;
  deny_write_cnt : Z;
  i_data : inode_disk
}.

Record file := mk_file { f_inode : Z; f_pos : Z; f_deny_write : bool }.

Record dir := mk_dir { d_inode : Z; d_pos : Z }.

Record fs := mk_fs {
  fs_device : block;
  inodes : gmap Z inode;
  open_inodes : list Z;
  files : gmap Z file;
  dirs : gmap Z dir;
  free_map : bitmap;
  free_map_file : Z;
  oom : nat → bool;
  allocs : nat;
  next_addr : Z
}.

Definition set_fs_device (x : block) (s : fs) : fs :=
  mk_fs x (inodes s) (open_inodes s) (files s) (dirs s) (free_map s) (free_map_file s)
    (oom s) (allocs s) (next_addr s).
Definition set_inodes (x : gmap Z inode) (s : fs) : fs :=
  mk_fs (fs_device s) x (open_inodes s) (files s) (dirs s) (free_map s) (free_map_file s)
    (oom s) (allocs s) (next_addr s).
Definition set_open_inodes (x : list Z) (s : fs) : fs :=
  mk_fs (fs_device s) (inodes s) x (files s) (dirs s) (free_map s) (free_map_file s)
    (oom s) (allocs s) (next_addr s).
Definition set_files (x : gmap Z file) (s : fs) : fs :=
  mk_fs (fs_device s) (inodes s) (open_inodes s) x (dirs s) (free_map s) (free_map_file s)
    (oom s) (allocs s) (next_addr s).
Definition set_dirs (x : gmap Z dir) (s : fs) : fs :=
  mk_fs (fs_device s) (inodes s) (open_inodes s) (files s) x (free_map s) (free_map_file s)
    (oom s) (allocs s) (next_addr s).
Definition set_free_map (x : bitmap) (s : fs) : fs :=
  mk_fs (fs_device s) (inodes s) (open_inodes s) (files s) (dirs s) x (free_map_file s)
    (oom s) (allocs s) (next_addr s).
Definition set_free_map_file (x : Z) (s : fs) : fs :=
  mk_fs (fs_device s) (inodes s) (open_inodes s) (files s) (dirs s) (free_map s) x
    (oom s) (allocs s) (next_addr s).

(** ** Access to the parts of the state *)

(** A call of malloc() or calloc(): a fresh address, or NULL. *)
Definition malloc : M fs Z := λ s,
  let s' := mk_fs (fs_device s) (inodes s) (open_inodes s) (files s) (dirs s) (free_map s)
              (free_map_file s) (oom s) (S (allocs s)) (next_addr s + 1) in
  Ok (if oom s (allocs s) then NULL else next_addr s, s').

(** Runs an operation of the block layer on [fs_device]. *)
Definition on_device {A} (m : M block A) : M fs A := λ s,
  '(a, b) ← m (fs_device s); Ok (a, set_fs_device b s).

(** Runs a bitmap operation on the free map. *)
Definition on_free_map {A} (m : M bitmap A) : M fs A := λ s,
  '(a, b) ← m (free_map s); Ok (a, set_free_map b s).

(** Dereferences of pointers to the three kinds of objects. *)
Definition inode_at (p : Z) : M fs inode := λ s,
  match inodes s !! p with Some i => Ok (i, s) | None => Err BadAccess end.
Definition file_at (p : Z) : M fs file := λ s,
  match files s !! p with Some f => Ok (f, s) | None => Err BadAccess end.
Definition dir_at (p : Z) : M fs dir := λ s,
  match dirs s !! p with Some d => Ok (d, s) | None => Err BadAccess end.

Definition put_inode (p : Z) (i : inode) : M fs unit :=
  modify (λ s, set_inodes (<[p := i]> (inodes s)) s).
Definition put_file (p : Z) (f : file) : M fs unit :=
  modify (λ s, set_files (<[p := f]> (files s)) s).
Definition put_dir (p : Z) (d : dir) : M fs unit :=
  modify (λ s, set_dirs (<[p := d]> (dirs s)) s).
Definition free_inode (p : Z) : M fs unit :=
  modify (λ s, set_inodes (delete p (inodes s)) s).
Definition free_file (p : Z) : M fs unit :=
  modify (λ s, set_files (delete p (files s)) s).
Definition free_dir (p : Z) : M fs unit :=
  modify (λ s, set_dirs (delete p (dirs s)) s).

(** ** The on-disk inode as it lies in a sector *)

Definition encode_inode_disk (d : inode_disk) : list Z :=
  le32 (id_start d) ++ le32 (id_length d) ++ le32 (id_magic d) ++ words_to_bytes (id_unused d).

Definition decode_inode_disk (l : list Z) : inode_disk :=
  mk_inode_disk (of_le32 (slice 0 4 l)) (int32 (of_le32 (slice 4 4 l)))
    (of_le32 (slice 8 4 l)) (bytes_to_words (slice 12 500 l)).

(** ** What the operations of this file promise *)

Record dev_ok (b : block) : Prop := {
  dev_size : 0 ≤ bsize b < 2 ^ 32;
  dev_len : len (contents b) = 512 * bsize b;
  dev_bytes : bytes (contents b);
  dev_writable : btype b ≠ BLOCK_FOREIGN
}.

(** [dev_step c s s']: from [s] to [s'] the device has got the contents [c],
    memory may have been allocated and released again, and nothing else has
    changed. *)
Record dev_step (c : list Z) (s s' : fs) : Prop := {
  ds_contents : contents (fs_device s') = c;
  ds_bsize : bsize (fs_device s') = bsize (fs_device s);
  ds_btype : btype (fs_device s') = btype (fs_device s);
  ds_inodes : inodes s' = inodes s;
  ds_open : open_inodes s' = open_inodes s;
  ds_files : files s' = files s;
  ds_dirs : dirs s' = dirs s;
  ds_free_map : free_map s' = free_map s;
  ds_free_map_file : free_map_file s' = free_map_file s;
  ds_oom : oom s' = oom s;
  ds_addr : next_addr s ≤ next_addr s'
}.

Abbreviation quiet s s' := (dev_step (contents (fs_device s)) s s').

Definition no_oom (s : fs) : Prop := ∀ n, oom s n = false.

Lemma quiet_refl s : quiet s s.
Proof. by constructor. Qed.

Lemma dev_step_trans c1 c2 s1 s2 s3 : dev_step c1 s1 s2 → dev_step c2 s2 s3 → dev_step c2 s1 s3.
Proof. intros [] []. constructor; congruence || lia. Qed.

Lemma quiet_trans c s1 s2 s3 : dev_step c s1 s2 → quiet s2 s3 → dev_step c s1 s3.
Proof. intros H1 H2. rewrite (ds_contents _ _ _ H1) in H2. by eapply dev_step_trans. Qed.

Lemma dev_ok_step c s s' : dev_ok (fs_device s) → dev_step c s s' →
  bytes c → length c = length (contents (fs_device s)) → dev_ok (fs_device s').
Proof.
  intros [Hs Hl Hb Ht] []. intros ? Hlc. constructor; try congruence; try lia.
  all: rewrite ?ds_contents0, ?ds_bsize0, ?Hlc; done.
Qed.

Lemma dev_ok_quiet s s' : dev_ok (fs_device s) → quiet s s' → dev_ok (fs_device s').
Proof. intros Hok Hq. eapply dev_ok_step; [done..|apply Hok|done]. Qed.

Lemma no_oom_step c s s' : dev_step c s s' → no_oom s → no_oom s'.
Proof. intros Hs. unfold no_oom. by rewrite (ds_oom _ _ _ Hs). Qed.

#[export] Hint Resolve quiet_refl dev_ok_quiet no_oom_step : cmodel.

Lemma wp_malloc (Q : Z → fs → Prop) s : 0 < next_addr s →
  (∀ p s', quiet s s' → next_addr s < next_addr s' →
     (p = NULL ∧ oom s (allocs s) = true ∨ p = next_addr s ∧ p ≠ NULL) → Q p s') →
  wp malloc Q s.
Proof.
  intros Hn HQ. unfold wp, malloc. apply HQ; simpl.
  - constructor; simpl; try done. lia.
  - lia.
  - destruct (oom s (allocs s)); [by left|right]. lia.
Qed.

Lemma wp_block_read sector (Q : list Z → fs → Prop) s :
  sector < bsize (fs_device s) →
  (∀ s', quiet s s' → next_addr s' = next_addr s →
     Q (slice (512 * sector) 512 (contents (fs_device s))) s') →
  wp (on_device (block_read sector)) Q s.
Proof.
  intros Hs HQ. unfold wp, on_device, block_read, check_sector.
  rewrite (proj2 (Z.leb_gt _ _) Hs). simpl. apply HQ; [by constructor|done].
Qed.

Lemma wp_block_write sector buf (Q : unit → fs → Prop) s :
  sector < bsize (fs_device s) → btype (fs_device s) ≠ BLOCK_FOREIGN → len buf = 512 →
  (∀ s', dev_step (put (512 * sector) buf (contents (fs_device s))) s s' → Q tt s') →
  wp (on_device (block_write sector buf)) Q s.
Proof.
  intros Hs Ht Hl HQ. unfold wp, on_device, block_write, check_sector.
  rewrite (proj2 (Z.leb_gt _ _) Hs). simpl. rewrite decide_False by done.
  rewrite (proj2 (Z.ltb_ge _ _)) by lia. simpl. apply HQ. constructor; simpl; try done.
  by rewrite <- Hl, slice_all.
Qed.

Lemma wp_inode_at p i (Q : inode → fs → Prop) s :
  inodes s !! p = Some i → Q i s → wp (inode_at p) Q s.
Proof. unfold wp, inode_at. by intros ->. Qed.

Lemma wp_file_at p f (Q : file → fs → Prop) s :
  files s !! p = Some f → Q f s → wp (file_at p) Q s.
Proof. unfold wp, file_at. by intros ->. Qed.

Lemma wp_dir_at p d (Q : dir → fs → Prop) s :
  dirs s !! p = Some d → Q d s → wp (dir_at p) Q s.
Proof. unfold wp, dir_at. by intros ->. Qed.

Lemma wp_on_free_map {A} (m : M bitmap A) (Q : A → fs → Prop) s :
  wp m (λ a b, Q a (set_free_map b s)) (free_map s) → wp (on_free_map m) Q s.
Proof. unfold wp, on_free_map. by destruct (m (free_map s)) as [[a b]|f]. Qed.

(** A sector holds what an inode written to it holds. *)
Lemma decode_encode_inode_disk d :
  0 ≤ id_start d < 2 ^ 32 → - 2 ^ 31 ≤ id_length d < 2 ^ 31 → 0 ≤ id_magic d < 2 ^ 32 →
  length (id_unused d) = 125%nat → Forall (λ w, 0 ≤ w < 2 ^ 32) (id_unused d) →
  decode_inode_disk (encode_inode_disk d) = d.
Proof.
  intros Hs Hl Hm Hn Hu. destruct d as [st ln mg un]; simpl in *.
  unfold decode_inode_disk, encode_inode_disk; cbn [id_start id_length id_magic id_unused].
  change (slice 0 4 _) with (le32 st). change (slice 4 4 _) with (le32 ln).
  change (slice 8 4 _) with (le32 mg).
  assert (slice 12 500 (le32 st ++ le32 ln ++ le32 mg ++ words_to_bytes un) = words_to_bytes un) as Hun.
  { change (words_to_bytes un) with (drop 12 (le32 st ++ le32 ln ++ le32 mg ++ words_to_bytes un)) at 2.
    unfold slice. apply take_ge.
    rewrite length_drop, !length_app, words_to_bytes_length. simpl. lia. }
  rewrite Hun, !of_le32_le32, bytes_to_words_to_bytes by done.
  rewrite (wrap32_small st), (wrap32_small mg) by done.
  f_equal. unfold wrap32, signed. rewrite Z.mod_mod by lia. apply (signed_small 32); lia.
Qed.

(** [fs_step]: one step that only updates an object in memory. *)
Ltac fs_step :=
  lazymatch goal with
  | |- wp (put_inode _ _) _ _ => unfold put_inode
  | |- wp (put_file _ _) _ _ => unfold put_file
  | |- wp (put_dir _ _) _ _ => unfold put_dir
  | |- wp (free_inode _) _ _ => unfold free_inode
  | |- wp (free_file _) _ _ => unfold free_file
  | |- wp (free_dir _) _ _ => unfold free_dir
  | |- _ => idtac
  end; wp_step.

(** ** A small file system for the examples

    A device of 40 sectors.  Sector 0 is the inode of the free map, whose data
    is sector 2; sector 3 is the inode of a removed file of 700 bytes in the
    sectors 4 and 5.  Both are open. *)
Definition example_device : block := mk_block BLOCK_FILESYS 40 (replicate (Z.to_nat 20480) 0) 0 0.

Lemma example_device_ok : dev_ok example_device.
Proof.
  unfold example_device. constructor; cbn [bsize contents btype]; [lia| | |done].
  - rewrite length_replicate. reflexivity.
  - apply Forall_replicate. unfold is_byte. lia.
Qed.

Definition example_free_map_inode : inode :=
  mk_inode 0 1 false 0 (mk_inode_disk 2 8 INODE_MAGIC (replicate 125 0)).
Definition example_inode : inode :=
  mk_inode 3 1 true 0 (mk_inode_disk 4 700 INODE_MAGIC (replicate 125 0)).
Definition example_file : file := mk_file 10 0 false.

Definition example_fs : fs :=
  mk_fs example_device (<[10 := example_free_map_inode]> {[ 12 := example_inode ]}) [12; 10]
    {[ 11 := example_file ]} ∅ (mk_bitmap 40 [63; 0]) 11 (λ _, false) 0 20.
