(* ===== verification/Inode.v ===== *)
(** * Inodes: access to file data ([filesys/inode.c])

    The operations of inode.c that do not allocate or release sectors:
    locating a byte, reading, writing, write denial, opening and reopening.
    [inode_create] and [inode_close] are in [FreeMap]. *)
From S2P Require Import Prelude Bytes Bitmap FsState.

(** [off_t] is a signed type, and the quotient and the remainder of C round
    toward zero. *)
Definition bytes_to_sectors (size : Z) : Z :=
  wrap32 (Z.quot (int32 (size + BLOCK_SECTOR_SIZE - 1)) BLOCK_SECTOR_SIZE).

Definition byte_to_sector (i : inode) (pos : Z) : Z :=
  if pos <? id_length (i_data i)
  then wrap32 (id_start (i_data i) + Z.quot pos BLOCK_SECTOR_SIZE)
  else wrap32 (-1).

Definition inode_length (i : inode) : Z := id_length (i_data i).

Definition inode_init : M fs unit := modify (set_open_inodes []).

Definition inode_get_inumber (p : Z) : M fs Z := i ← inode_at p; mret (i_sector i).

Definition inode_reopen (p : Z) : M fs Z :=
  (if p =? NULL then mret tt else
   i ← inode_at p;
   put_inode p (mk_inode (i_sector i) (int32 (open_cnt i + 1)) (removed i) (deny_write_cnt i) (i_data i))) ;;
  mret p.

(** The search of the list of open inodes. *)
Fixpoint inode_open_search (ps : list Z) (sector : Z) : M fs (option Z) :=
  match ps with
  | [] => mret None
  | p :: ps =>
      i ← inode_at p;
      if i_sector i =? sector then mret (Some p) else inode_open_search ps sector
  end.

Definition inode_open (sector : Z) : M fs Z :=
  ps ← gets open_inodes;
  found ← inode_open_search ps sector;
  match found with
  | Some p => inode_reopen p
  | None =>
      p ← malloc;
      if p =? NULL then mret NULL else
      modify (λ s, set_open_inodes (p :: open_inodes s) s) ;;
      buf ← on_device (block_read sector);
      put_inode p (mk_inode sector 1 false 0 (decode_inode_disk buf)) ;;
      mret p
  end.

Definition inode_remove (p : Z) : M fs unit :=
  ASSERT (negb (p =? NULL)) ;;
  i ← inode_at p;
  put_inode p (mk_inode (i_sector i) (open_cnt i) true (deny_write_cnt i) (i_data i)).

(** ** Reading

    One round of the loop: where the next chunk lies and how long it is.  The
    rounds share the bounce buffer: [bounce] says whether it has been
    allocated. *)

Definition chunk_size (i : inode) (size offset : Z) : Z * Z * Z :=
  let sector_ofs := Z.rem offset BLOCK_SECTOR_SIZE in
  let inode_left := int32 (inode_length i - offset) in
  let sector_left := BLOCK_SECTOR_SIZE - sector_ofs in
  let min_left := if inode_left <? sector_left then inode_left else sector_left in
  (sector_ofs, sector_left, if size <? min_left then size else min_left).

Definition get_bounce (bounce : bool) : M fs bool :=
  if bounce then mret true else p ← malloc; mret (negb (p =? NULL)).

Fixpoint inode_read_loop (fuel : nat) (p : Z) (bounce : bool) (buffer : list Z)
    (size offset bytes_read : Z) : M fs (Z * list Z) :=
  match fuel with
  | O => throw OutOfFuel
  | S fuel =>
      if size <=? 0 then mret (bytes_read, buffer) else
      i ← inode_at p;
      let sector_idx := byte_to_sector i offset in
      let '(sector_ofs, sector_left, chunk) := chunk_size i size offset in
      if chunk <=? 0 then mret (bytes_read, buffer) else
      if (sector_ofs =? 0) && (chunk =? BLOCK_SECTOR_SIZE) then
        sec ← on_device (block_read sector_idx);
        buffer ← mem_write buffer bytes_read sec;
        inode_read_loop fuel p bounce buffer (int32 (size - chunk)) (int32 (offset + chunk))
          (int32 (bytes_read + chunk))
      else
        bounce ← get_bounce bounce;
        if negb bounce then mret (bytes_read, buffer) else
        sec ← on_device (block_read sector_idx);
        part ← mem_read sec sector_ofs chunk;
        buffer ← mem_write buffer bytes_read part;
        inode_read_loop fuel p bounce buffer (int32 (size - chunk)) (int32 (offset + chunk))
          (int32 (bytes_read + chunk))
  end.

(** Every round but the last reads at least one byte. *)
Definition inode_read_at (p : Z) (buffer : list Z) (size offset : Z) : M fs (Z * list Z) :=
  inode_read_loop (S (Z.to_nat size)) p false buffer size offset 0.

(** ** Writing *)

Fixpoint inode_write_loop (fuel : nat) (p : Z) (bounce : bool) (buffer : list Z)
    (size offset bytes_written : Z) : M fs Z :=
  match fuel with
  | O => throw OutOfFuel
  | S fuel =>
      if size <=? 0 then mret bytes_written else
      i ← inode_at p;
      let sector_idx := byte_to_sector i offset in
      let '(sector_ofs, sector_left, chunk) := chunk_size i size offset in
      if chunk <=? 0 then mret bytes_written else
      if (sector_ofs =? 0) && (chunk =? BLOCK_SECTOR_SIZE) then
        part ← mem_read buffer bytes_written BLOCK_SECTOR_SIZE;
        on_device (block_write sector_idx part) ;;
        inode_write_loop fuel p bounce buffer (int32 (size - chunk)) (int32 (offset + chunk))
          (int32 (bytes_written + chunk))
      else
        bounce ← get_bounce bounce;
        if negb bounce then mret bytes_written else
        sec ← (if (0 <? sector_ofs) || (chunk <? sector_left)
               then on_device (block_read sector_idx)
               else mret (replicate 512 0));
        part ← mem_read buffer bytes_written chunk;
        sec ← mem_write sec sector_ofs part;
        on_device (block_write sector_idx sec) ;;
        inode_write_loop fuel p bounce buffer (int32 (size - chunk)) (int32 (offset + chunk))
          (int32 (bytes_written + chunk))
  end.

Definition inode_write_at (p : Z) (buffer : list Z) (size offset : Z) : M fs Z :=
  i ← inode_at p;
  if negb (deny_write_cnt i =? 0) then mret 0 else
  inode_write_loop (S (Z.to_nat size)) p false buffer size offset 0.

(** ** Write denial *)

Definition set_deny_write_cnt (p : Z) (i : inode) (n : Z) : M fs unit :=
  put_inode p (mk_inode (i_sector i) (open_cnt i) (removed i) n (i_data i)).

Definition inode_deny_write (p : Z) : M fs unit :=
  i ← inode_at p;
  set_deny_write_cnt p i (int32 (deny_write_cnt i + 1)) ;;
  i ← inode_at p;
  ASSERT (deny_write_cnt i <=? open_cnt i).

Definition inode_allow_write (p : Z) : M fs unit :=
  i ← inode_at p;
  ASSERT (0 <? deny_write_cnt i) ;;
  ASSERT (deny_write_cnt i <=? open_cnt i) ;;
  set_deny_write_cnt p i (int32 (deny_write_cnt i - 1)).

(** ** The contents of a file *)

(** [placed b d]: the data sectors of the inode lie on the device. *)
Record placed (b : block) (d : inode_disk) : Prop := {
  pl_start : 0 ≤ id_start d;
  pl_length : 0 ≤ id_length d < 2 ^ 31;
  pl_fits : 512 * id_start d + id_length d ≤ 512 * bsize b
}.

Definition data_ofs (d : inode_disk) : Z := 512 * id_start d.

Definition file_data (s : fs) (d : inode_disk) : list Z :=
  slice (data_ofs d) (id_length d) (contents (fs_device s)).

(** The number of bytes an access of [size] bytes at [offset] reaches. *)
Definition io_count (d : inode_disk) (size offset : Z) : Z :=
  Z.max 0 (Z.min size (id_length d - offset)).

(** [chunk_at d size offset n]: [n] bytes are left in the sector, the file and
    the request. *)
Definition next_chunk (d : inode_disk) (size offset : Z) : Z :=
  Z.min size (Z.min (id_length d - offset) (512 - offset mod 512)).

Lemma placed_step c s s' d : dev_step c s s' → placed (fs_device s) d → placed (fs_device s') d.
Proof. intros Hs []. constructor; rewrite ?(ds_bsize _ _ _ Hs); done. Qed.
#[export] Hint Resolve placed_step : cmodel.

Lemma chunk_size_eq i size offset :
  0 ≤ id_length (i_data i) < 2 ^ 31 → 0 ≤ offset < 2 ^ 31 → 0 < size < 2 ^ 31 →
  chunk_size i size offset =
    (offset mod 512, 512 - offset mod 512, next_chunk (i_data i) size offset).
Proof.
  intros Hl Ho Hs. unfold chunk_size, inode_length, BLOCK_SECTOR_SIZE, next_chunk.
  rewrite Z.rem_mod_nonneg by lia. rewrite int32_small by lia.
  f_equal. set (m := offset mod 512).
  destruct (Z.ltb_spec (id_length (i_data i) - offset) (512 - m));
    match goal with |- context [size <? ?b] => destruct (Z.ltb_spec size b) end; lia.
Qed.

Lemma byte_to_sector_eq b i offset : dev_ok b → placed b (i_data i) →
  0 ≤ offset < id_length (i_data i) →
  byte_to_sector i offset = id_start (i_data i) + offset / 512 ∧
  id_start (i_data i) + offset / 512 < bsize b.
Proof.
  intros [Hb _ _ _] [Hs Hl Hf] Ho. unfold byte_to_sector, BLOCK_SECTOR_SIZE.
  rewrite (proj2 (Z.ltb_lt _ _)) by lia. rewrite Z.quot_div_nonneg by lia.
  rewrite wrap32_small; div_lia.
Qed.

(** Splitting an access after its first chunk. *)
Lemma io_count_chunk d size offset : 0 ≤ offset → 0 < size →
  0 < next_chunk d size offset →
  io_count d size offset =
    next_chunk d size offset +
    io_count d (size - next_chunk d size offset) (offset + next_chunk d size offset) ∧
  next_chunk d size offset ≤ size ∧ offset mod 512 + next_chunk d size offset ≤ 512 ∧
  offset + next_chunk d size offset ≤ id_length d ∧ 0 ≤ offset < id_length d.
Proof. unfold io_count, next_chunk. lia. Qed.

Lemma io_count_none d size offset : 0 < size → next_chunk d size offset ≤ 0 → io_count d size offset = 0.
Proof.
  unfold io_count, next_chunk. pose proof (Z.mod_pos_bound offset 512). lia.
Qed.

Lemma io_count_empty d size offset : size ≤ 0 → io_count d size offset = 0.
Proof. unfold io_count. lia. Qed.

Lemma wp_get_bounce bounce (Q : bool → fs → Prop) s : 0 < next_addr s →
  (∀ ok s', quiet s s' → (no_oom s → ok = true) → Q ok s') →
  wp (get_bounce bounce) Q s.
Proof.
  intros Hn HQ. unfold get_bounce. destruct bounce.
  - wp_step. apply HQ; [apply quiet_refl|done].
  - wp_step. apply wp_malloc; [done|]. intros p s' Hq _ Hp. wp_step. apply HQ; [done|].
    intros Hno. destruct Hp as [[_ Hp]|[_ Hp]]; [by rewrite Hno in Hp|].
    by rewrite (proj2 (Z.eqb_neq _ _) Hp).
Qed.

(** ** Reading *)

(** What reading [n] bytes from [offset] on leaves in the buffer. *)
Definition read_into (s : fs) (d : inode_disk) (buffer : list Z) (at_ offset n : Z) : list Z :=
  put at_ (slice (data_ofs d + offset) n (contents (fs_device s))) buffer.

Lemma read_into_chunk s d buffer k offset c n :
  dev_ok (fs_device s) → placed (fs_device s) d →
  0 ≤ k → 0 ≤ offset → 0 ≤ c → 0 ≤ n → offset + c + n ≤ id_length d →
  k + c + n ≤ len buffer →
  read_into s d (read_into s d buffer k offset c) (k + c) (offset + c) n =
  read_into s d buffer k offset (c + n).
Proof.
  intros Hok [Hs Hl Hf] Hk Ho Hc Hn Hle Hbuf. unfold read_into, data_ofs in *.
  pose proof (dev_len _ Hok) as Hdl.
  assert (len (slice (512 * id_start d + offset) c (contents (fs_device s))) = c) as Hlen
    by (apply length_slice; lia).
  rewrite <- slice_app by lia. rewrite <- put_put_app; rewrite ?Hlen.
  - do 2 f_equal. lia.
  - done.
  - rewrite length_slice by lia. lia.
Qed.

(** The state of a read loop with [size] bytes still wanted at [offset]. *)
Record io_pre (s : fs) (p : Z) (i : inode) (buffer : list Z) (size offset k : Z) : Prop := {
  io_inode : inodes s !! p = Some i;
  io_dev : dev_ok (fs_device s);
  io_placed : placed (fs_device s) (i_data i);
  io_addr : 0 < next_addr s;
  io_size : size < 2 ^ 31;
  io_offset : 0 ≤ offset < 2 ^ 31;
  io_pos : 0 ≤ k;
  io_buffer : k + Z.max 0 size ≤ len buffer;
  io_bound : k + Z.max 0 size < 2 ^ 31
}.

Lemma io_pre_step s s' p i buffer buffer' size offset k n :
  quiet s s' → io_pre s p i buffer size offset k → length buffer' = length buffer →
  0 ≤ n ≤ size → offset + n ≤ id_length (i_data i) →
  io_pre s' p i buffer' (size - n) (offset + n) (k + n).
Proof.
  intros Hq [] Hl Hn Ho. pose proof (pl_length _ _ io_placed0).
  constructor; eauto with cmodel; try lia.
  - by rewrite (ds_inodes _ _ _ Hq).
  - pose proof (ds_addr _ _ _ Hq). lia.
Qed.

(** The geometry of one round: the chunk [c] is not empty. *)
Record io_round (s : fs) (i : inode) (size offset c : Z) : Prop := {
  ir_count : io_count (i_data i) size offset =
               c + io_count (i_data i) (size - c) (offset + c);
  ir_size : c ≤ size;
  ir_sector_end : offset mod 512 + c ≤ 512;
  ir_file_end : offset + c ≤ id_length (i_data i);
  ir_sector : byte_to_sector i offset = id_start (i_data i) + offset / 512;
  ir_on_device : id_start (i_data i) + offset / 512 < bsize (fs_device s);
  ir_addr : 512 * (id_start (i_data i) + offset / 512) + offset mod 512 = data_ofs (i_data i) + offset;
  ir_mod : 0 ≤ offset mod 512 < 512;
  ir_div : 0 ≤ offset / 512
}.

Lemma io_pre_round s p i buffer size offset k :
  io_pre s p i buffer size offset k → 0 < size → 0 < next_chunk (i_data i) size offset →
  io_round s i size offset (next_chunk (i_data i) size offset).
Proof.
  intros [Hi Hok Hpl Ha Hsz Hof Hk Hbuf Hbd] Hs Hc.
  destruct (io_count_chunk (i_data i) size offset) as (Hcnt & Hcs & Hcsec & Hcl & Hol); [lia..|].
  destruct (byte_to_sector_eq (fs_device s) i offset Hok Hpl) as [Hsec Hdev]; [done|].
  constructor; try done.
  - unfold data_ofs. div_lia.
  - apply Z.mod_pos_bound. lia.
  - apply Z.div_pos; lia.
Qed.

Lemma wp_inode_read_loop fuel p i bounce buffer size offset k s :
  io_pre s p i buffer size offset k → (Z.to_nat size < fuel)%nat →
  wp (inode_read_loop fuel p bounce buffer size offset k) (λ r s',
    ∃ n, r = (k + n, read_into s (i_data i) buffer k offset n) ∧
      quiet s s' ∧ 0 ≤ n ≤ io_count (i_data i) size offset ∧
      (no_oom s → n = io_count (i_data i) size offset)) s.
Proof.
  revert bounce buffer size offset k s.
  induction fuel as [|fuel IH]; intros bounce buffer size offset k s Hpre Hfuel; [lia|].
  cbn [inode_read_loop]. pose proof Hpre as [Hi Hok Hpl Ha Hsz Hof Hk Hbuf Hbd].
  pose proof (dev_len _ Hok) as Hdl. pose proof Hpl as [Hps Hpln Hpf].
  destruct (Z.leb_spec size 0) as [Hs0|Hs0].
  { wp_step. exists 0. rewrite io_count_empty by done. unfold read_into.
    rewrite slice_nil, put_nil, Z.add_0_r. auto using quiet_refl with lia. }
  wp_step. eapply wp_inode_at; [done|]. rewrite chunk_size_eq by (try done; lia).
  pose proof (io_pre_round _ _ _ _ _ _ _ Hpre Hs0) as Hround.
  set (d := i_data i) in *. set (c := next_chunk d size offset) in *.
  destruct (Z.leb_spec c 0) as [Hc0|Hc0].
  { wp_step. exists 0. rewrite io_count_none by done. unfold read_into.
    rewrite slice_nil, put_nil, Z.add_0_r. auto using quiet_refl with lia. }
  destruct (Hround Hc0) as [Hcnt Hcs Hcsec Hcl -> Hsec Haddr Hmod Hdiv].
  fold d in Hcnt, Hcl, Hsec, Haddr |- *.
  (* the rest of the loop, once the chunk is in the buffer *)
  assert (∀ s1 b1, quiet s s1 →
    wp (inode_read_loop fuel p b1 (read_into s d buffer k offset c)
          (int32 (size - c)) (int32 (offset + c)) (int32 (k + c))) (λ r s',
      ∃ n, r = (k + n, read_into s d buffer k offset n) ∧
        quiet s s' ∧ 0 ≤ n ≤ io_count d size offset ∧
        (no_oom s → n = io_count d size offset)) s1) as Hrest.
  { intros s1 b1 Hq1. rewrite !int32_small by lia.
    assert (length (read_into s d buffer k offset c) = length buffer) as Hlr.
    { unfold read_into, data_ofs. apply length_put; [lia|]. rewrite length_slice by lia. lia. }
    assert (io_pre s1 p i (read_into s d buffer k offset c) (size - c) (offset + c) (k + c)) as Hpre1
      by (eapply io_pre_step; [done..|lia|fold d; lia]).
    eapply wp_mono; [apply IH; [done|lia]|].
    intros r s' (n & -> & Hq' & Hn & Hno). fold d in Hn, Hno.
    exists (c + n). rewrite Hcnt. split; [f_equal; [lia|]|split_and!; try lia].
    - rewrite <- read_into_chunk; try done; try lia.
      + unfold read_into. by rewrite (ds_contents _ _ _ Hq1).
      + unfold io_count in Hn. lia.
      + unfold io_count in Hn. lia.
    - eapply quiet_trans; eauto.
    - intros Hns. rewrite Hno; [done|]. by eapply no_oom_step. }
  destruct ((offset mod 512 =? 0) && (c =? BLOCK_SECTOR_SIZE)) eqn:Hfull.
  - apply andb_prop in Hfull as [Hm%Z.eqb_eq Hcf%Z.eqb_eq]. unfold BLOCK_SECTOR_SIZE in Hcf.
    wp_step. apply wp_block_read; [lia|]. intros s1 Hq1 Ha1. wp_step.
    assert (512 * (id_start d + offset / 512) = data_ofs d + offset) as -> by lia.
    apply wp_mem_write; [lia| |].
    + unfold data_ofs in *. rewrite length_slice by lia. lia.
    + specialize (Hrest s1 bounce Hq1). unfold read_into in Hrest at 1. by rewrite Hcf in Hrest |- *.
  - wp_step. apply wp_get_bounce; [done|]. intros ok s1 Hq1 Hokb.
    destruct ok; simpl.
    + wp_step. apply wp_block_read; [rewrite (ds_bsize _ _ _ Hq1); lia|]. intros s2 Hq2 Ha2.
      wp_step. apply wp_mem_read; [lia..| |].
      { rewrite length_slice; rewrite ?(ds_contents _ _ _ Hq1); unfold data_ofs in *; lia. }
      wp_step. rewrite slice_slice by lia. rewrite Haddr, (ds_contents _ _ _ Hq1).
      apply wp_mem_write; [lia| |].
      * unfold data_ofs in *. rewrite length_slice by lia. lia.
      * apply Hrest. by eapply quiet_trans.
    + wp_step. exists 0. unfold read_into. rewrite slice_nil, put_nil, Z.add_0_r.
      split; [done|]. split; [done|]. split; [unfold io_count in *; lia|].
      intros Hns. by apply Hokb in Hns.
Qed.

(** ** Writing *)

(** The device after [n] bytes of the buffer, from [k] on, have been written
    at [offset] of the file. *)
Definition written (s : fs) (d : inode_disk) (buffer : list Z) (k offset n : Z) : list Z :=
  put (data_ofs d + offset) (slice k n buffer) (contents (fs_device s)).

Lemma length_written s d buffer k offset n :
  dev_ok (fs_device s) → placed (fs_device s) d → 0 ≤ k → 0 ≤ offset → 0 ≤ n →
  offset + n ≤ id_length d → k + n ≤ len buffer →
  length (written s d buffer k offset n) = length (contents (fs_device s)).
Proof.
  intros Hok [] ?????. pose proof (dev_len _ Hok). unfold written, data_ofs in *.
  apply length_put; [lia|]. rewrite length_slice by lia. lia.
Qed.

Lemma written_chunk s s1 d buffer k offset c n :
  dev_ok (fs_device s) → placed (fs_device s) d →
  contents (fs_device s1) = written s d buffer k offset c →
  0 ≤ k → 0 ≤ offset → 0 ≤ c → 0 ≤ n → offset + c + n ≤ id_length d → k + c + n ≤ len buffer →
  written s1 d buffer (k + c) (offset + c) n = written s d buffer k offset (c + n).
Proof.
  intros Hok [Hs Hl Hf] Hs1 Hk Ho Hc Hn Hle Hbuf. pose proof (dev_len _ Hok) as Hdl.
  unfold written, data_ofs in *. rewrite Hs1. rewrite <- slice_app by lia.
  assert (len (slice k c buffer) = c) as Hlen by (apply length_slice; lia).
  assert (len (slice (k + c) n buffer) = n) as Hlen2 by (apply length_slice; lia).
  rewrite <- put_put_app by lia. rewrite Hlen. f_equal. lia.
Qed.

(** The bytes that reach the device are bytes of the buffer. *)
Lemma dev_ok_written s s' d buffer k offset n :
  dev_ok (fs_device s) → placed (fs_device s) d → bytes buffer →
  0 ≤ k → 0 ≤ offset → 0 ≤ n → offset + n ≤ id_length d → k + n ≤ len buffer →
  dev_step (written s d buffer k offset n) s s' → dev_ok (fs_device s').
Proof.
  intros Hok Hpl Hb ????? Hst. eapply dev_ok_step; [done|done| |by apply length_written].
  apply Forall_put; [by apply Forall_slice|apply Hok].
Qed.

(** One chunk of the buffer reaches the device, directly or through the
    bounce buffer. *)
Lemma written_bounce s d buffer k offset c :
  dev_ok (fs_device s) → placed (fs_device s) d →
  id_start d + offset / 512 < bsize (fs_device s) → 0 ≤ offset → 0 ≤ offset / 512 →
  0 ≤ k → 0 ≤ c → offset mod 512 + c ≤ 512 → k + c ≤ len buffer →
  put (512 * (id_start d + offset / 512))
    (put (offset mod 512) (slice k c buffer)
       (slice (512 * (id_start d + offset / 512)) 512 (contents (fs_device s))))
    (contents (fs_device s)) = written s d buffer k offset c.
Proof.
  intros Hok [] ???????. pose proof (dev_len _ Hok). pose proof (Z.mod_pos_bound offset 512).
  unfold written, data_ofs. rewrite put_bounce; rewrite ?length_slice; try lia.
  f_equal. div_lia.
Qed.

Lemma wp_inode_write_loop fuel p i bounce buffer size offset k s :
  io_pre s p i buffer size offset k → bytes buffer → (Z.to_nat size < fuel)%nat →
  wp (inode_write_loop fuel p bounce buffer size offset k) (λ r s',
    ∃ n, r = k + n ∧ dev_step (written s (i_data i) buffer k offset n) s s' ∧
      0 ≤ n ≤ io_count (i_data i) size offset ∧
      (no_oom s → n = io_count (i_data i) size offset)) s.
Proof.
  intros Hpre Hbytes. revert bounce size offset k s Hpre.
  induction fuel as [|fuel IH]; intros bounce size offset k s Hpre Hfuel; [lia|].
  cbn [inode_write_loop]. pose proof Hpre as [Hi Hok Hpl Ha Hsz Hof Hk Hbuf Hbd].
  pose proof (dev_len _ Hok) as Hdl. pose proof Hpl as [Hps Hpln Hpf].
  assert (∀ s1, quiet s s1 → dev_step (written s (i_data i) buffer k offset 0) s s1) as Hnone.
  { intros s1 Hq. unfold written. by rewrite slice_nil, put_nil. }
  destruct (Z.leb_spec size 0) as [Hs0|Hs0].
  { wp_step. exists 0. rewrite io_count_empty by done. rewrite Z.add_0_r.
    auto using quiet_refl with lia. }
  wp_step. eapply wp_inode_at; [done|]. rewrite chunk_size_eq by (try done; lia).
  pose proof (io_pre_round _ _ _ _ _ _ _ Hpre Hs0) as Hround.
  set (d := i_data i) in *. set (c := next_chunk d size offset) in *.
  destruct (Z.leb_spec c 0) as [Hc0|Hc0].
  { wp_step. exists 0. rewrite io_count_none by done. rewrite Z.add_0_r.
    auto using quiet_refl with lia. }
  destruct (Hround Hc0) as [Hcnt Hcs Hcsec Hcl -> Hsec Haddr Hmod Hdiv].
  fold d in Hcnt, Hcl, Hsec, Haddr |- *.
  assert (∀ s1 b1, dev_step (written s d buffer k offset c) s s1 →
    wp (inode_write_loop fuel p b1 buffer
          (int32 (size - c)) (int32 (offset + c)) (int32 (k + c))) (λ r s',
      ∃ n, r = k + n ∧ dev_step (written s d buffer k offset n) s s' ∧
        0 ≤ n ≤ io_count d size offset ∧ (no_oom s → n = io_count d size offset)) s1) as Hrest.
  { intros s1 b1 Hst. rewrite !int32_small by lia.
    assert (dev_ok (fs_device s1)) as Hok1 by (apply (dev_ok_written s s1 d buffer k offset c); try done; lia).
    assert (io_pre s1 p i buffer (size - c) (offset + c) (k + c)) as Hpre1.
    { constructor; eauto with cmodel; try lia.
      - by rewrite (ds_inodes _ _ _ Hst).
      - pose proof (ds_addr _ _ _ Hst). lia. }
    eapply wp_mono; [apply IH; [done|lia]|].
    intros r s' (n & -> & Hst' & Hn & Hno). fold d in Hn, Hno, Hst'.
    exists (c + n). rewrite Hcnt.
    rewrite (written_chunk s s1) in Hst'; try done; try lia.
    - split_and!; try lia; [by eapply dev_step_trans|].
      intros Hns. rewrite Hno; [done|]. by eapply no_oom_step.
    - by rewrite (ds_contents _ _ _ Hst).
    - unfold io_count in Hn. lia.
    - unfold io_count in Hn. lia. }
  destruct ((offset mod 512 =? 0) && (c =? BLOCK_SECTOR_SIZE)) eqn:Hfull.
  - apply andb_prop in Hfull as [Hm%Z.eqb_eq Hcf%Z.eqb_eq]. unfold BLOCK_SECTOR_SIZE in *.
    wp_step. apply wp_mem_read; [lia..|]. wp_step.
    apply wp_block_write; [lia|apply Hok|rewrite length_slice; lia|].
    intros s1 Hst. apply Hrest. unfold written. rewrite Hcf.
    by replace (data_ofs d + offset) with (512 * (id_start d + offset / 512)) by lia.
  - wp_step. apply wp_get_bounce; [done|]. intros ok s1 Hq1 Hokb. destruct ok; simpl.
    + assert (offset mod 512 > 0 ∨ c < 512 - offset mod 512) as Hpart.
      { apply andb_false_iff in Hfull as [?%Z.eqb_neq|?%Z.eqb_neq];
          unfold BLOCK_SECTOR_SIZE in *; lia. }
      replace ((0 <? offset mod 512) || (c <? 512 - offset mod 512)) with true by lia.
      wp_step. apply wp_block_read; [rewrite (ds_bsize _ _ _ Hq1); lia|]. intros s2 Hq2 _.
      rewrite (ds_contents _ _ _ Hq1).
      assert (len (slice (512 * (id_start d + offset / 512)) 512 (contents (fs_device s))) = 512) as Hl5
        by (apply length_slice; unfold data_ofs in *; lia).
      assert (len (slice k c buffer) = c) as Hlc by (apply length_slice; lia).
      wp_step. apply wp_mem_read; [lia..|]. wp_step. apply wp_mem_write; [lia..|]. wp_step.
      assert (quiet s s2) as Hq12 by (by eapply quiet_trans).
      apply wp_block_write.
      * rewrite (ds_bsize _ _ _ Hq12). lia.
      * rewrite (ds_btype _ _ _ Hq12). apply Hok.
      * rewrite length_put by lia. done.
      * intros s3 Hst. apply Hrest. rewrite (ds_contents _ _ _ Hq12) in Hst.
        rewrite written_bounce in Hst by (try done; lia). by eapply dev_step_trans.
    + wp_step. exists 0. rewrite Z.add_0_r.
      split; [done|]. split; [auto|]. split; [unfold io_count in *; lia|].
      intros Hns. by apply Hokb in Hns.
Qed.

(** ** Correctness of reading and writing *)

(** What a caller has to provide for an access to the file of inode [p]. *)
Record io_call (s : fs) (p : Z) (i : inode) (buffer : list Z) (size offset : Z) : Prop := {
  ic_inode : inodes s !! p = Some i;
  ic_dev : dev_ok (fs_device s);
  ic_placed : placed (fs_device s) (i_data i);
  ic_addr : 0 < next_addr s;
  ic_offset : 0 ≤ offset < 2 ^ 31;
  ic_size : 0 ≤ size < 2 ^ 31;
  ic_buffer : size ≤ len buffer
}.

Lemma io_call_pre s p i buffer size offset :
  io_call s p i buffer size offset → io_pre s p i buffer size offset 0.
Proof. intros []. constructor; done || lia. Qed.

Lemma file_data_slice s d o n : placed (fs_device s) d → 0 ≤ o → 0 ≤ n → o + n ≤ id_length d →
  slice (data_ofs d + o) n (contents (fs_device s)) = slice o n (file_data s d).
Proof. intros [] ???. unfold file_data, data_ofs. by rewrite slice_slice by lia. Qed.

Lemma io_count_bound d size offset n : 0 ≤ n ≤ io_count d size offset →
  n = 0 ∨ (0 < n ≤ size ∧ offset + n ≤ id_length d).
Proof. unfold io_count. lia. Qed.

Lemma wp_inode_read_at p i buffer size offset s :
  io_call s p i buffer size offset →
  wp (inode_read_at p buffer size offset) (λ r s',
    ∃ n, r = (n, put 0 (slice offset n (file_data s (i_data i))) buffer) ∧
      quiet s s' ∧ 0 ≤ n ≤ io_count (i_data i) size offset ∧
      (no_oom s → n = io_count (i_data i) size offset)) s.
Proof.
  intros Hc. eapply wp_mono; [apply wp_inode_read_loop; [by apply io_call_pre|lia]|].
  intros r s' (n & -> & Hq & Hn & Hno). exists n. split; [|done]. f_equal.
  unfold read_into. destruct Hc. destruct (io_count_bound _ _ _ _ Hn) as [->|?].
  - done.
  - rewrite file_data_slice by (done || lia). done.
Qed.

Lemma wp_inode_write_at p i buffer size offset s :
  io_call s p i buffer size offset → bytes buffer →
  wp (inode_write_at p buffer size offset) (λ r s',
    if decide (deny_write_cnt i = 0) then
      dev_step (written s (i_data i) buffer 0 offset r) s s' ∧
      0 ≤ r ≤ io_count (i_data i) size offset ∧
      (no_oom s → r = io_count (i_data i) size offset)
    else r = 0 ∧ s' = s) s.
Proof.
  intros Hc Hb. unfold inode_write_at. wp_step. eapply wp_inode_at; [apply Hc|].
  case_decide as Hd.
  - rewrite Hd, Z.eqb_refl. cbn [negb]. eapply wp_mono; [apply wp_inode_write_loop; [by apply io_call_pre|done|lia]|].
    by intros r s' (n & -> & ?).
  - rewrite (proj2 (Z.eqb_neq _ _) Hd). cbn [negb]. by wp_step.
Qed.

(** A write replaces a part of the file's data. *)
Lemma file_data_written s s' d buffer offset n :
  dev_ok (fs_device s) → placed (fs_device s) d → 0 ≤ offset → 0 ≤ n →
  n = 0 ∨ offset + n ≤ id_length d → n ≤ len buffer →
  dev_step (written s d buffer 0 offset n) s s' →
  file_data s' d = put offset (slice 0 n buffer) (file_data s d).
Proof.
  intros Hok [] Ho Hn Hf Hb Hst. pose proof (dev_len _ Hok).
  unfold file_data. rewrite (ds_contents _ _ _ Hst). unfold written, data_ofs in *.
  destruct (decide (n = 0)) as [->|]; [by rewrite slice_nil, !put_nil|].
  rewrite slice_put_inside; rewrite ?length_slice; try lia. f_equal. lia.
Qed.

(** A write leaves alone the data of a file in other sectors. *)
Lemma file_data_frame s s' d d' buffer offset n :
  dev_ok (fs_device s) → placed (fs_device s) d → placed (fs_device s) d' →
  0 ≤ offset → 0 ≤ n → n = 0 ∨ offset + n ≤ id_length d → n ≤ len buffer →
  data_ofs d + id_length d ≤ data_ofs d' ∨ data_ofs d' + id_length d' ≤ data_ofs d →
  dev_step (written s d buffer 0 offset n) s s' →
  file_data s' d' = file_data s d'.
Proof.
  intros Hok [] [] Ho Hn Hf Hb Hdis Hst. pose proof (dev_len _ Hok).
  unfold file_data. rewrite (ds_contents _ _ _ Hst). unfold written, data_ofs in *.
  destruct (decide (n = 0)) as [->|]; [by rewrite slice_nil, !put_nil|].
  apply slice_put_disjoint; rewrite ?length_slice; try lia.
Qed.

(** C8: [inode_write_at] followed by [inode_read_at].  With memory for the
    bounce buffer and writes not denied, a write of [size] bytes at [offset]
    writes as many bytes as the file has room for, replaces exactly these
    bytes of the file, keeps the data of every file in other sectors and every
    other part of the state; reading the same range back returns the bytes
    written. *)
Theorem inode_write_read s p i buffer buffer' size offset d' :
  io_call s p i buffer size offset → bytes buffer → length buffer' = length buffer →
  no_oom s → deny_write_cnt i = 0 →
  placed (fs_device s) d' →
  data_ofs (i_data i) + id_length (i_data i) ≤ data_ofs d' ∨
    data_ofs d' + id_length d' ≤ data_ofs (i_data i) →
  let n := io_count (i_data i) size offset in
  ∃ s1 s2, inode_write_at p buffer size offset s = Ok (n, s1) ∧
    dev_step (written s (i_data i) buffer 0 offset n) s s1 ∧
    file_data s1 (i_data i) = put offset (slice 0 n buffer) (file_data s (i_data i)) ∧
    file_data s1 d' = file_data s d' ∧
    inode_read_at p buffer' size offset s1 = Ok ((n, put 0 (slice 0 n buffer) buffer'), s2) ∧
    quiet s1 s2.
Proof.
  intros Hc Hb Hl' Hno Hd Hpl' Hdis n.
  pose proof (wp_inode_write_at p i buffer size offset s Hc Hb) as (r & s1 & Hw & Hpost)%wp_Ok.
  rewrite decide_True in Hpost by done. destruct Hpost as (Hst & Hr & Hrn).
  specialize (Hrn Hno). fold n in Hrn, Hr. subst r.
  pose proof Hc as [Hi Hok Hpl Ha Ho Hs Hbuf].
  pose proof (io_count_bound _ _ _ _ Hr) as Hnb.
  assert (file_data s1 (i_data i) = put offset (slice 0 n buffer) (file_data s (i_data i))) as Hfd
    by (apply file_data_written; try done; lia).
  assert (dev_ok (fs_device s1)) as Hok1.
  { destruct Hnb as [Hn0|?].
    - unfold written in Hst. rewrite Hn0, slice_nil, put_nil in Hst. eauto with cmodel.
    - apply (dev_ok_written s s1 (i_data i) buffer 0 offset n); try done; lia. }
  assert (io_call s1 p i buffer' size offset) as Hc1.
  { constructor; eauto with cmodel.
    - by rewrite (ds_inodes _ _ _ Hst).
    - pose proof (ds_addr _ _ _ Hst). lia.
    - by rewrite Hl'. }
  pose proof (wp_inode_read_at p i buffer' size offset s1 Hc1)
    as ([r b] & s2 & Hrd & m & Heq & Hq & _ & Hm)%wp_Ok.
  rewrite Hm in Heq by eauto with cmodel. fold n in Heq. injection Heq as -> ->.
  exists s1, s2. split_and!; try done.
  - apply (file_data_frame s s1 (i_data i) d' buffer offset n); try done; lia.
  - rewrite Hrd, Hfd. do 4 f_equal.
    assert (len (slice 0 n buffer) = n) as Hln by (apply length_slice; lia).
    destruct Hnb as [Hn0|?]; [by rewrite Hn0|].
    rewrite <- Hln at 1. apply slice_put_same; [lia|].
    unfold file_data, data_ofs. destruct Hpl. pose proof (dev_len _ Hok).
    rewrite !length_slice; lia.
Qed.

Lemma example_io_call : io_call example_fs 12 example_inode [1; 2; 3] 3 510.
Proof.
  constructor; try (simpl; lia).
  - reflexivity.
  - exact example_device_ok.
  - constructor; simpl; lia.
Qed.

Lemma inode_write_read_witness :
  io_count (i_data example_inode) 3 510 = 3 ∧
  ∃ s1 s2, inode_write_at 12 [1; 2; 3] 3 510 example_fs = Ok (3, s1) ∧
    dev_step (written example_fs (i_data example_inode) [1; 2; 3] 0 510 3) example_fs s1 ∧
    file_data s1 (i_data example_inode) =
      put 510 (slice 0 3 [1; 2; 3]) (file_data example_fs (i_data example_inode)) ∧
    file_data s1 (i_data example_free_map_inode) =
      file_data example_fs (i_data example_free_map_inode) ∧
    inode_read_at 12 [0; 0; 0] 3 510 s1 = Ok ((3, put 0 (slice 0 3 [1; 2; 3]) [0; 0; 0]), s2) ∧
    quiet s1 s2.
Proof.
  split; [reflexivity|].
  apply (inode_write_read example_fs 12 example_inode [1; 2; 3] [0; 0; 0] 3 510
           (i_data example_free_map_inode)).
  - exact example_io_call.
  - repeat (apply Forall_cons_2; [unfold is_byte; lia|]). apply Forall_nil_2.
  - reflexivity.
  - intros n. reflexivity.
  - reflexivity.
  - constructor; simpl; lia.
  - unfold data_ofs. simpl. lia.
Defined.

(** ** The table of open inodes *)

(** [itable s]: the list of open inodes holds every in-memory inode once, no
    two of them stand for the same sector, each has an opener, writes are
    denied at most once per opener, and addresses have been handed out. *)
Record itable (s : fs) : Prop := {
  it_nodup : NoDup (open_inodes s);
  it_dom : ∀ p, p ∈ open_inodes s ↔ is_Some (inodes s !! p);
  it_inj : ∀ p q i j, inodes s !! p = Some i → inodes s !! q = Some j →
             i_sector i = i_sector j → p = q;
  it_cnt : ∀ p i, inodes s !! p = Some i →
             0 < open_cnt i < 2 ^ 31 ∧ 0 ≤ deny_write_cnt i ≤ open_cnt i;
  it_next : 0 < next_addr s;
  it_addr : ∀ p, is_Some (inodes s !! p) → 0 < p < next_addr s
}.

Definition with_open_cnt (n : Z) (i : inode) : inode :=
  mk_inode (i_sector i) n (removed i) (deny_write_cnt i) (i_data i).

Lemma itable_step c s s' : dev_step c s s' → itable s → itable s'.
Proof.
  intros Hst [Hnd Hdom Hinj Hcnt Hnx Had]. pose proof (ds_addr _ _ _ Hst).
  constructor; rewrite ?(ds_open _ _ _ Hst), ?(ds_inodes _ _ _ Hst); try done; try lia.
  intros p Hp. specialize (Had p Hp). lia.
Qed.

(** Replacing an inode by one for the same sector keeps the table. *)
Lemma itable_update s p i i' :
  itable s → inodes s !! p = Some i → i_sector i' = i_sector i →
  0 < open_cnt i' < 2 ^ 31 → 0 ≤ deny_write_cnt i' ≤ open_cnt i' →
  itable (set_inodes (<[p := i']> (inodes s)) s).
Proof.
  intros [Hnd Hdom Hinj Hcnt Hnx Had] Hp Hsec Hc Hd. constructor; simpl; try done.
  - intros q. rewrite Hdom, lookup_insert_is_Some. destruct (decide (p = q)) as [->|]; naive_solver.
  - intros q1 q2 j1 j2. rewrite !lookup_insert_Some. intros H1 H2 Heq.
    destruct H1 as [[<- <-]|[? H1]], H2 as [[<- <-]|[? H2]]; try done.
    + apply (Hinj p q2 i j2); congruence.
    + apply (Hinj q1 p j1 i); congruence.
    + by apply (Hinj q1 q2 j1 j2).
  - intros q j. rewrite lookup_insert_Some. intros [[<- <-]|[? Hj]]; [lia|by apply (Hcnt q)].
  - intros q [<-|[_ Hq]]%lookup_insert_is_Some; apply Had; eauto.
Qed.

(** Adding an inode for a sector that has none. *)
Lemma itable_insert s p i :
  itable s → p ∉ open_inodes s → 0 < p < next_addr s →
  (∀ q j, inodes s !! q = Some j → i_sector j ≠ i_sector i) →
  open_cnt i = 1 → deny_write_cnt i = 0 →
  itable (set_inodes (<[p := i]> (inodes s)) (set_open_inodes (p :: open_inodes s) s)).
Proof.
  intros [Hnd Hdom Hinj Hcnt Hnx Had] Hp Hpa Hsec Hc Hd. constructor; simpl; try done.
  - by apply NoDup_cons.
  - intros q. rewrite elem_of_cons, Hdom, lookup_insert_is_Some.
    destruct (decide (p = q)) as [->|]; naive_solver.
  - intros q1 q2 j1 j2. rewrite !lookup_insert_Some. intros H1 H2 Heq.
    destruct H1 as [[<- <-]|[? H1]], H2 as [[<- <-]|[? H2]]; try done.
    + by destruct (Hsec q2 j2).
    + by destruct (Hsec q1 j1).
    + by apply (Hinj q1 q2 j1 j2).
  - intros q j. rewrite lookup_insert_Some. intros [[<- <-]|[? Hj]]; [lia|by apply (Hcnt q)].
  - intros q [<-|[_ Hq]]%lookup_insert_is_Some; [lia|]. by apply Had.
Qed.

Lemma wp_inode_open_search ps sector (Q : option Z → fs → Prop) s :
  (∀ p, p ∈ ps → is_Some (inodes s !! p)) →
  (∀ p i, p ∈ ps → inodes s !! p = Some i → i_sector i = sector → Q (Some p) s) →
  ((∀ p i, p ∈ ps → inodes s !! p = Some i → i_sector i ≠ sector) → Q None s) →
  wp (inode_open_search ps sector) Q s.
Proof.
  induction ps as [|p ps IH]; intros Hdom Hsome Hnone; cbn [inode_open_search].
  - wp_step. apply Hnone. set_solver.
  - destruct (Hdom p) as [i Hi]; [set_solver|]. wp_step. eapply wp_inode_at; [done|].
    destruct (Z.eqb_spec (i_sector i) sector) as [He|He].
    + wp_step. apply (Hsome p i); [set_solver|done..].
    + apply IH.
      * intros q Hq. apply Hdom. set_solver.
      * intros q j Hq. apply (Hsome q j). set_solver.
      * intros Hno. apply Hnone. intros q j [->|Hq]%elem_of_cons Hj; [congruence|]. by apply (Hno q j).
Qed.

(** The three ways [inode_open] can go. *)
Definition inode_opened (s : fs) (sector p : Z) (s' : fs) : Prop :=
  (∃ i, inodes s !! p = Some i ∧ i_sector i = sector ∧
     s' = set_inodes (<[p := with_open_cnt (open_cnt i + 1) i]> (inodes s)) s) ∨
  ((∀ q i, inodes s !! q = Some i → i_sector i ≠ sector) ∧
   p = NULL ∧ oom s (allocs s) = true ∧ quiet s s') ∨
  ((∀ q i, inodes s !! q = Some i → i_sector i ≠ sector) ∧
   p = next_addr s ∧ p ≠ NULL ∧ inodes s !! p = None ∧ p ∉ open_inodes s ∧
   ∃ s1, quiet s s1 ∧ next_addr s < next_addr s1 ∧
     s' = set_inodes (<[p := mk_inode sector 1 false 0
            (decode_inode_disk (slice (512 * sector) 512 (contents (fs_device s))))]> (inodes s))
            (set_open_inodes (p :: open_inodes s) s1)).

Lemma wp_inode_open sector s :
  itable s → sector < bsize (fs_device s) →
  (∀ p i, inodes s !! p = Some i → open_cnt i + 1 < 2 ^ 31) →
  wp (inode_open sector) (λ p s', itable s' ∧ inode_opened s sector p s') s.
Proof.
  intros Hit Hsec Hcnt. pose proof Hit as [Hnd Hdom Hinj Hc Hnx Had].
  unfold inode_open. wp_step. wp_step. wp_step. apply wp_inode_open_search.
  - intros p. apply Hdom.
  - intros p i Hp Hi Hs. unfold inode_reopen.
    pose proof (Had p ltac:(eauto)) as Hpa. rewrite (proj2 (Z.eqb_neq p 0)) by lia.
    wp_step. wp_step. eapply wp_inode_at; [done|]. fs_step. fs_step.
    destruct (Hc p i Hi). specialize (Hcnt p i Hi).
    rewrite int32_small by lia. split.
    + apply (itable_update _ p i); simpl; done || lia.
    + left. exists i. by split_and!.
  - intros Hno. assert (∀ q i, inodes s !! q = Some i → i_sector i ≠ sector) as Hno'.
    { intros q i Hq. apply (Hno q i); [apply Hdom; eauto|done]. }
    wp_step. apply wp_malloc; [done|]. intros p s1 Hq Hlt [[-> Ho]|[-> Hp]].
    + rewrite Z.eqb_refl. wp_step. split; [by eapply itable_step|]. right. left. by split_and!.
    + rewrite (proj2 (Z.eqb_neq _ _) Hp). wp_step. wp_step. wp_step.
      apply wp_block_read; [simpl; by rewrite (ds_bsize _ _ _ Hq)|]. intros s2 Hq2 Hnx2.
      fs_step. fs_step. fs_step.
      assert (next_addr s ∉ open_inodes s) as Hfresh by (rewrite Hdom; intros ?%Had; lia).
      assert (inodes s !! next_addr s = None) as Hnone.
      { apply eq_None_not_Some. rewrite <- Hdom. done. }
      simpl. rewrite (ds_contents _ _ _ Hq).
      assert (∃ s3, quiet s s3 ∧ next_addr s < next_addr s3 ∧
        s2 = set_open_inodes (next_addr s :: open_inodes s) s3) as (s3 & Hq3 & Hlt3 & ->).
      { assert (open_inodes s2 = next_addr s :: open_inodes s) as Ho.
        { rewrite (ds_open _ _ _ Hq2). simpl. by rewrite (ds_open _ _ _ Hq). }
        exists (set_open_inodes (open_inodes s) s2). split_and!.
        - destruct Hq, Hq2; simpl in *. constructor; simpl; congruence || lia.
        - simpl in *. lia.
        - rewrite <- Ho. by destruct s2. }
      change (inodes (set_open_inodes _ s3)) with (inodes s3).
      rewrite (ds_inodes _ _ _ Hq3). split.
      * rewrite <- (ds_inodes _ _ _ Hq3), <- (ds_open _ _ _ Hq3).
        apply itable_insert; simpl; rewrite ?(ds_inodes _ _ _ Hq3), ?(ds_open _ _ _ Hq3); try done.
        by eapply itable_step.
      * right. right. split_and!; eauto.
Qed.

Lemma example_itable : itable example_fs.
Proof.
  constructor.
  - apply (bool_decide_unpack _). reflexivity.
  - intros p. simpl. rewrite !elem_of_cons, elem_of_nil, lookup_insert_is_Some, lookup_singleton_is_Some.
    destruct (decide (p = 10)); naive_solver.
  - intros p q i j. simpl. rewrite !lookup_insert_Some, !lookup_singleton_Some.
    intros [[<- <-]|[_ [<- <-]]] [[<- <-]|[_ [<- <-]]]; simpl; done.
  - intros p i. simpl. rewrite !lookup_insert_Some, !lookup_singleton_Some.
    intros [[<- <-]|[_ [<- <-]]]; simpl; lia.
  - reflexivity.
  - intros p. simpl. rewrite lookup_insert_is_Some, lookup_singleton_is_Some.
    intros [<-|[_ <-]]; lia.
Qed.
