(* ===== verification/FreeMap.v ===== *)
(** * The free map, and the operations that use it

    [filesys/free-map.c], the file input and output of [lib/kernel/bitmap.c],
    [filesys/file.c], and the two operations of [filesys/inode.c] that
    allocate and release sectors, [inode_create] and [inode_close]. *)
From S2P Require Import Prelude Bytes Bitmap FsState Inode.

Definition FREE_MAP_SECTOR : Z := 0.
Definition ROOT_DIR_SECTOR : Z := 1.

(** ** Reading and writing at an offset of an open file *)

Definition file_read_at (p : Z) (buffer : list Z) (size file_ofs : Z) : M fs (Z * list Z) :=
  f ← file_at p; inode_read_at (f_inode f) buffer size file_ofs.

Definition file_write_at (p : Z) (buffer : list Z) (size file_ofs : Z) : M fs Z :=
  f ← file_at p; inode_write_at (f_inode f) buffer size file_ofs.

(** ** A bitmap in a file *)

Definition bitmap_read (b : bitmap) (file : Z) : M fs (bool * bitmap) :=
  if 0 <? bit_cnt b then
    let size := int32 (byte_cnt (bit_cnt b)) in
    '(n, buf) ← file_read_at file (words_to_bytes (bits b)) size 0;
    let ws := bytes_to_words buf in
    let last := Z.to_nat (elem_cnt (bit_cnt b) - 1) in
    match ws !! last with
    | Some w => mret (n =? size, mk_bitmap (bit_cnt b) (<[last := Z.land w (last_mask b)]> ws))
    | None => throw BadAccess
    end
  else mret (true, b).

Definition bitmap_write (b : bitmap) (file : Z) : M fs bool :=
  let size := int32 (byte_cnt (bit_cnt b)) in
  n ← file_write_at file (words_to_bytes (bits b)) size 0;
  mret (n =? size).

(** ** Allocating and releasing sectors ([filesys/free-map.c]) *)

(** [garbage] is what the storage for the bits holds when it is allocated. *)
Definition free_map_init (garbage : list Z) : M fs unit :=
  n ← gets (λ s, block_size (fs_device s));
  p_b ← malloc;
  p_bits ← (if p_b =? NULL then mret NULL else malloc);
  match bitmap_create (negb (p_b =? NULL))
          (if p_bits =? NULL then None else Some garbage) n with
  | Err f => throw f
  | Ok None => PANIC
  | Ok (Some b) =>
      modify (set_free_map b) ;;
      on_free_map (bitmap_mark FREE_MAP_SECTOR) ;;
      on_free_map (bitmap_mark ROOT_DIR_SECTOR)
  end.

(** The result is [*sectorp] when the function returns true. *)
Definition free_map_allocate (cnt : Z) : M fs (option Z) :=
  sector ← on_free_map (bitmap_scan_and_flip 0 cnt false);
  fmf ← gets free_map_file;
  fm ← gets free_map;
  undo ← (if negb (sector =? BITMAP_ERROR) && negb (fmf =? NULL)
          then ok ← bitmap_write fm fmf; mret (negb ok) else mret false);
  sector ← (if (undo : bool)
            then on_free_map (bitmap_set_multiple sector cnt false) ;; mret BITMAP_ERROR
            else mret sector);
  if sector =? BITMAP_ERROR then mret None else mret (Some sector).

Definition free_map_release (sector cnt : Z) : M fs unit :=
  all ← on_free_map (bitmap_all sector cnt);
  ASSERT all ;;
  on_free_map (bitmap_set_multiple sector cnt false) ;;
  fm ← gets free_map;
  fmf ← gets free_map_file;
  _ ← bitmap_write fm fmf;
  mret tt.

(** ** Creating and closing inodes ([filesys/inode.c]) *)

Definition inode_create (sector length : Z) : M fs bool :=
  ASSERT (0 <=? length) ;;
  p ← malloc;
  if p =? NULL then mret false else
  let sectors := bytes_to_sectors length in
  alloc ← free_map_allocate sectors;
  match alloc with
  | None => mret false
  | Some start =>
      let disk_inode := mk_inode_disk start length INODE_MAGIC (replicate 125 0) in
      on_device (block_write sector (encode_inode_disk disk_inode)) ;;
      for_loop (Z.to_nat sectors) 0
        (λ i, on_device (block_write (wrap32 (start + i)) (replicate 512 0))) ;;
      mret true
  end.

Definition inode_close (p : Z) : M fs unit :=
  if p =? NULL then mret tt else
  i ← inode_at p;
  let i' := mk_inode (i_sector i) (int32 (open_cnt i - 1)) (removed i) (deny_write_cnt i) (i_data i) in
  put_inode p i' ;;
  if open_cnt i' =? 0 then
    modify (λ s, set_open_inodes (filter (λ q, q ≠ p) (open_inodes s)) s) ;;
    (if removed i' then
       free_map_release (i_sector i') 1 ;;
       free_map_release (id_start (i_data i')) (bytes_to_sectors (id_length (i_data i')))
     else mret tt) ;;
    free_inode p
  else mret tt.

(** ** Open files ([filesys/file.c]) *)

Definition file_open (inode : Z) : M fs Z :=
  file ← malloc;
  if negb (inode =? NULL) && negb (file =? NULL) then
    put_file file (mk_file inode 0 false) ;; mret file
  else
    inode_close inode ;; mret NULL.

Definition file_reopen (p : Z) : M fs Z :=
  f ← file_at p; i ← inode_reopen (f_inode f); file_open i.

Definition file_deny_write (p : Z) : M fs unit :=
  ASSERT (negb (p =? NULL)) ;;
  f ← file_at p;
  when (negb (f_deny_write f))
    (put_file p (mk_file (f_inode f) (f_pos f) true) ;; inode_deny_write (f_inode f)).

Definition file_allow_write (p : Z) : M fs unit :=
  ASSERT (negb (p =? NULL)) ;;
  f ← file_at p;
  when (f_deny_write f)
    (put_file p (mk_file (f_inode f) (f_pos f) false) ;; inode_allow_write (f_inode f)).

Definition file_close (p : Z) : M fs unit :=
  if p =? NULL then mret tt else
  file_allow_write p ;;
  f ← file_at p; inode_close (f_inode f) ;; free_file p.

Definition file_get_inode (p : Z) : M fs Z := f ← file_at p; mret (f_inode f).

Definition file_read (p : Z) (buffer : list Z) (size : Z) : M fs (Z * list Z) :=
  f ← file_at p;
  '(n, buffer) ← inode_read_at (f_inode f) buffer size (f_pos f);
  put_file p (mk_file (f_inode f) (int32 (f_pos f + n)) (f_deny_write f)) ;;
  mret (n, buffer).

Definition file_write (p : Z) (buffer : list Z) (size : Z) : M fs Z :=
  f ← file_at p;
  n ← inode_write_at (f_inode f) buffer size (f_pos f);
  put_file p (mk_file (f_inode f) (int32 (f_pos f + n)) (f_deny_write f)) ;;
  mret n.

Definition file_length (p : Z) : M fs Z :=
  ASSERT (negb (p =? NULL)) ;;
  f ← file_at p; i ← inode_at (f_inode f); mret (inode_length i).

Definition file_seek (p new_pos : Z) : M fs unit :=
  ASSERT (negb (p =? NULL)) ;;
  ASSERT (0 <=? new_pos) ;;
  f ← file_at p;
  put_file p (mk_file (f_inode f) new_pos (f_deny_write f)).

Definition file_tell (p : Z) : M fs Z :=
  ASSERT (negb (p =? NULL)) ;; f ← file_at p; mret (f_pos f).

(** ** The free map file *)

Definition free_map_open : M fs unit :=
  i ← inode_open FREE_MAP_SECTOR;
  f ← file_open i;
  modify (set_free_map_file f) ;;
  if f =? NULL then PANIC else
  fm ← gets free_map;
  '(ok, b) ← bitmap_read fm f;
  modify (set_free_map b) ;;
  if (ok : bool) then mret tt else PANIC.

(** [file_close] frees the file; the pointer itself keeps its value. *)
Definition free_map_close : M fs unit := f ← gets free_map_file; file_close f.

Definition free_map_create : M fs unit :=
  fm ← gets free_map;
  ok ← inode_create FREE_MAP_SECTOR (int32 (bitmap_file_size fm));
  if negb ok then PANIC else
  i ← inode_open FREE_MAP_SECTOR;
  f ← file_open i;
  modify (set_free_map_file f) ;;
  if f =? NULL then PANIC else
  fm ← gets free_map;
  ok ← bitmap_write fm f;
  if (ok : bool) then mret tt else PANIC.

(** ** The free map and its copy on disk *)

(** [fm_ok s f i]: the free map is a bitmap in memory and the open file [f] of
    inode [i], which has room for exactly that bitmap. *)
Record fm_ok (s : fs) (f : file) (i : inode) : Prop := {
  fm_nonnull : free_map_file s ≠ NULL;
  fm_file : files s !! free_map_file s = Some f;
  fm_inode : inodes s !! f_inode f = Some i;
  fm_wf : wf (free_map s);
  fm_elems : len (bits (free_map s)) = elem_cnt (bit_cnt (free_map s));
  fm_cnt : bit_cnt (free_map s) < BITMAP_ERROR - 31;
  fm_len : id_length (i_data i) = byte_cnt (bit_cnt (free_map s));
  fm_deny : deny_write_cnt i = 0;
  fm_dev : dev_ok (fs_device s);
  fm_placed : placed (fs_device s) (i_data i);
  fm_addr : 0 < next_addr s
}.

(** The file holds the bits that are in memory. *)
Definition synced (s : fs) (i : inode) : Prop :=
  file_data s (i_data i) = words_to_bytes (bits (free_map s)).

(** What the operations on the free map never touch. *)
Definition same_objects (s s' : fs) : Prop :=
  inodes s' = inodes s ∧ open_inodes s' = open_inodes s ∧ files s' = files s ∧
  dirs s' = dirs s ∧ free_map_file s' = free_map_file s ∧ oom s' = oom s.

(** The part of the device outside the file of inode [i]. *)
Definition same_outside (s s' : fs) (i : inode) : Prop :=
  ∀ o n, 0 ≤ o → 0 ≤ n →
    o + n ≤ data_ofs (i_data i) ∨ data_ofs (i_data i) + id_length (i_data i) ≤ o →
    slice o n (contents (fs_device s')) = slice o n (contents (fs_device s)).

Lemma same_objects_refl s : same_objects s s.
Proof. by repeat split. Qed.

Lemma byte_cnt_eq b : 0 ≤ bit_cnt b < BITMAP_ERROR - 31 →
  len (bits b) = elem_cnt (bit_cnt b) →
  byte_cnt (bit_cnt b) = len (words_to_bytes (bits b)) ∧ byte_cnt (bit_cnt b) < 2 ^ 30.
Proof.
  unfold byte_cnt, sizeof_elem_type, elem_cnt, DIV_ROUND_UP, ELEM_BITS, BITMAP_ERROR.
  rewrite words_to_bytes_length. intros Hb. rewrite (wrap32_small (bit_cnt b + 32 - 1)) by lia.
  intros Hl. rewrite wrap32_small; div_lia.
Qed.

(** [fm_ok] for a changed bitmap of the same size on a changed device. *)
Lemma fm_ok_step c b s s' f i :
  fm_ok s f i → wf b → same_size (free_map s) b →
  dev_step c (set_free_map b s) s' → dev_ok (fs_device s') → fm_ok s' f i.
Proof.
  intros [] Hwf [Hc Hl] Hst Hok. pose proof (ds_free_map _ _ _ Hst) as Hfm. simpl in Hfm.
  pose proof (ds_addr _ _ _ Hst) as Ha. simpl in Ha.
  pose proof (ds_free_map_file _ _ _ Hst). pose proof (ds_files _ _ _ Hst).
  pose proof (ds_inodes _ _ _ Hst). simpl in *.
  constructor; rewrite ?Hfm; try congruence; try lia.
  by apply (placed_step c (set_free_map b s)).
Qed.

Lemma same_outside_written s s' i buffer n :
  dev_ok (fs_device s) → placed (fs_device s) (i_data i) →
  0 ≤ n ≤ id_length (i_data i) → n ≤ len buffer →
  contents (fs_device s') = written s (i_data i) buffer 0 0 n → same_outside s s' i.
Proof.
  intros Hok [] Hn Hb Hc o m Ho Hm Hdis. pose proof (dev_len _ Hok). rewrite Hc.
  unfold written, data_ofs in *. apply slice_put_disjoint; rewrite ?length_slice; lia.
Qed.

Lemma wp_bitmap_write s f i :
  fm_ok s f i →
  wp (bitmap_write (free_map s) (free_map_file s)) (λ ok s',
    (∃ c, dev_step c s s') ∧ dev_ok (fs_device s') ∧ same_outside s s' i ∧
    (ok = true → synced s' i) ∧ (no_oom s → ok = true)) s.
Proof.
  intros Hfm. destruct Hfm as [Hnn Hf Hi Hwf Hel Hcnt Hlen Hd Hok Hpl Ha].
  pose proof (wf_cnt _ Hwf) as Hwc. destruct (byte_cnt_eq (free_map s)) as [Hbc Hb30]; [lia|done|].
  unfold bitmap_write, file_write_at. rewrite int32_small by lia.
  wp_step. wp_step. eapply wp_file_at; [done|].
  set (buf := words_to_bytes (bits (free_map s))) in *.
  assert (io_call s (f_inode f) i buf (byte_cnt (bit_cnt (free_map s))) 0) as Hcall
    by (constructor; try done; lia).
  eapply wp_mono; [apply (wp_inode_write_at _ i); [done|apply words_to_bytes_bytes]|].
  intros n s'. cbv beta. rewrite decide_True by done. intros (Hst & Hn & Hno). wp_step.
  assert (io_count (i_data i) (byte_cnt (bit_cnt (free_map s))) 0 = byte_cnt (bit_cnt (free_map s)))
    as Hcount by (unfold io_count; lia).
  rewrite Hcount in Hn, Hno. pose proof (ds_contents _ _ _ Hst) as Hc.
  split_and!; [by eexists|..].
  - apply (dev_ok_written s s' (i_data i) buf 0 0 n); try done; try lia. apply words_to_bytes_bytes.
  - apply (same_outside_written s s' i buf n); done || lia.
  - intros ->%Z.eqb_eq. unfold synced. rewrite (ds_free_map _ _ _ Hst). fold buf.
    rewrite (file_data_written s s' (i_data i) buf 0 (byte_cnt (bit_cnt (free_map s)))); try done; try lia.
    rewrite Hbc, slice_all. unfold put. simpl. rewrite drop_ge, app_nil_r; [done|].
    unfold file_data, data_ofs. destruct Hpl. pose proof (dev_len _ Hok).
    apply Nat2Z.inj_le. rewrite length_slice by lia. lia.
  - intros Hns. by rewrite (Hno Hns), Z.eqb_refl.
Qed.

(** A run of a free map operation that has written a bitmap [b'] of the same
    size: what still holds of the state. *)
Record fm_run (s s' : fs) (f : file) (i : inode) : Prop := {
  fr_ok : fm_ok s' f i;
  fr_objects : same_objects s s';
  fr_outside : same_outside s s' i;
  fr_size : same_size (free_map s) (free_map s')
}.

Lemma fm_run_intro c b s s' f i :
  fm_ok s f i → wf b → same_size (free_map s) b →
  dev_step c (set_free_map b s) s' → dev_ok (fs_device s') →
  same_outside (set_free_map b s) s' i → fm_run s s' f i ∧ free_map s' = b.
Proof.
  intros Hfm Hwf Hsz Hst Hok Hout. split; [constructor|].
  - by eapply fm_ok_step.
  - destruct Hst; simpl in *. by repeat split.
  - exact Hout.
  - by rewrite (ds_free_map _ _ _ Hst).
  - by destruct Hst.
Qed.

Lemma fm_run_memory b s f i :
  fm_ok s f i → wf b → same_size (free_map s) b → fm_run s (set_free_map b s) f i.
Proof.
  intros Hfm Hwf Hsz. constructor.
  - apply (fm_ok_step (contents (fs_device s)) b s); try done. apply Hfm.
  - by repeat split.
  - by intros o n.
  - done.
Qed.

Lemma fm_run_trans s1 s2 s3 f i : fm_run s1 s2 f i → fm_run s2 s3 f i → fm_run s1 s3 f i.
Proof.
  intros [? Ho1 Hs1 [Hc1 Hl1]] [? Ho2 Hs2 [Hc2 Hl2]].
  constructor; [done|unfold same_objects in *; intuition congruence| |split; congruence].
  intros o n ???. rewrite Hs2, Hs1 by done. done.
Qed.

Lemma first_group_bits b start cnt v r j :
  first_group b start cnt v r → r ≤ j < r + cnt → bit b j = v.
Proof. intros (_ & _ & Hall & _). apply Hall. Qed.

(** The three ways [free_map_allocate] can go. *)
Definition allocated (s : fs) (i : inode) (cnt : Z) (r : option Z) (s' : fs) : Prop :=
  match r with
  | Some sector =>
      first_group (free_map s) 0 cnt false sector ∧
      (∀ j, 0 ≤ j → bit (free_map s') j =
         if decide (sector ≤ j < sector + cnt) then true else bit (free_map s) j) ∧
      synced s' i
  | None =>
      (∀ j, 0 ≤ j → bit (free_map s') j = bit (free_map s) j) ∧
      (no_oom s → no_group (free_map s) 0 cnt false)
  end.

Lemma wp_free_map_allocate s f i cnt :
  fm_ok s f i → 0 ≤ cnt →
  wp (free_map_allocate cnt) (λ r s', fm_run s s' f i ∧ allocated s i cnt r s') s.
Proof.
  intros Hfm Hc. pose proof Hfm as [Hnn Hf Hi Hwf Hel Hcnt Hlen Hd Hok Hpl Ha].
  pose proof (wf_cnt _ Hwf) as Hwc. unfold free_map_allocate. wp_step. apply wp_on_free_map.
  eapply wp_mono; [apply wp_bitmap_scan_and_flip; [done|lia..]|].
  intros r b' (Hwf' & Hsz & [(-> & Hno & ->)|(Hr & Hgrp & Hbits)]).
  - rewrite Z.eqb_refl. repeat wp_step. split; [|done]. by apply fm_run_memory.
  - rewrite (proj2 (Z.eqb_neq _ _) Hr). wp_step. wp_step. wp_step. wp_step.
    change (free_map_file (set_free_map b' s)) with (free_map_file s).
    rewrite (proj2 (Z.eqb_neq _ _) Hnn). cbn [negb andb].
    pose proof (fm_run_memory b' s f i Hfm Hwf' Hsz) as Hrun1.
    wp_step. wp_step. eapply wp_mono; [apply (wp_bitmap_write (set_free_map b' s) f i); apply Hrun1|].
    intros ok s' ([c Hst] & Hok' & Hout & Hsync & Hno). wp_step.
    destruct (fm_run_intro c b' s s' f i) as [Hrun' Hfm']; try done.
    destruct ok; cbn [negb].
    + wp_step. wp_step. rewrite (proj2 (Z.eqb_neq _ _) Hr). wp_step.
      split; [done|]. split; [done|]. split; [by rewrite Hfm'|auto].
    + wp_step. wp_step. apply wp_on_free_map. rewrite Hfm'.
      pose proof Hgrp as (Hr0 & Hrc & Hall & _). destruct Hsz as [Hszc Hszl].
      eapply wp_mono; [apply wp_bitmap_set_multiple; [done|lia..]|].
      intros [] b'' (Hwf'' & Hsz'' & Hbits''). repeat wp_step.
      split; [|split].
      * eapply fm_run_trans; [done|]. apply fm_run_memory; [apply Hrun'|done|by rewrite Hfm'].
      * intros j Hj. simpl. rewrite Hbits'' by done. case_decide as Hjr.
        -- symmetry. by eapply first_group_bits.
        -- rewrite Hbits by done. by rewrite decide_False.
      * intros Hns. by specialize (Hno Hns).
Qed.

(** [free_map_allocate] on a consistent free map never faults.  When it
    succeeds, the sectors it returns are the first run of [cnt] free sectors;
    they and only they become used, the copy on disk agrees with memory again
    and no byte outside the free map file changes.  When it fails, every bit
    of the free map has its old value, and with memory available it fails
    only if there is no run of [cnt] free sectors. *)
Theorem free_map_allocate_correct s f i cnt :
  fm_ok s f i → 0 ≤ cnt →
  ∃ r s', free_map_allocate cnt s = Ok (r, s') ∧
    fm_ok s' f i ∧ same_objects s s' ∧ same_outside s s' i ∧
    match r with
    | Some sector =>
        first_group (free_map s) 0 cnt false sector ∧
        (∀ j, 0 ≤ j → bit (free_map s') j =
           if decide (sector ≤ j < sector + cnt) then true else bit (free_map s) j) ∧
        synced s' i
    | None =>
        (∀ j, 0 ≤ j → bit (free_map s') j = bit (free_map s) j) ∧
        (no_oom s → no_group (free_map s) 0 cnt false)
    end.
Proof.
  intros Hfm Hc.
  pose proof (wp_free_map_allocate s f i cnt Hfm Hc) as (r & s' & Hrun & [] & Hr)%wp_Ok.
  by exists r, s'.
Qed.

Lemma wp_free_map_release s f i sector cnt :
  fm_ok s f i → 0 ≤ sector → 0 ≤ cnt → sector + cnt ≤ bit_cnt (free_map s) →
  all_bits (free_map s) sector cnt true →
  wp (free_map_release sector cnt) (λ _ s',
    fm_run s s' f i ∧ (no_oom s → synced s' i) ∧
    ∀ j, 0 ≤ j → bit (free_map s') j =
      if decide (sector ≤ j < sector + cnt) then false else bit (free_map s) j) s.
Proof.
  intros Hfm Hs Hc Hle Hall. pose proof Hfm as [Hnn Hf Hi Hwf Hel Hcnt Hlen Hd Hok Hpl Ha].
  unfold free_map_release. wp_step. apply wp_on_free_map. unfold bitmap_all. wp_step.
  apply wp_bitmap_contains; [done..|]. intros r Hr. wp_step. wp_step. wp_step.
  { simpl in Hr. by rewrite (proj2 Hr Hall). }
  wp_step. apply wp_on_free_map.
  eapply wp_mono; [apply wp_bitmap_set_multiple; simpl; done|].
  intros [] b' (Hwf' & Hsz & Hbits). simpl in Hsz, Hbits. wp_step. wp_step. wp_step. wp_step.
  pose proof (fm_run_memory b' s f i Hfm Hwf' Hsz) as Hrun1.
  wp_step. eapply wp_mono; [apply (wp_bitmap_write (set_free_map b' s) f i); apply Hrun1|].
  intros ok s' ([c Hst] & Hok' & Hout & Hsync & Hno). wp_step.
  destruct (fm_run_intro c b' s s' f i) as [Hrun' Hfm']; try done.
  rewrite Hfm'. split; [done|]. split; [|done]. intros Hns. apply Hsync, Hno. done.
Qed.

(** [free_map_release] gives sectors back: a run of used sectors becomes
    free, nothing else changes in the free map or outside its file, and with
    memory available the copy on disk agrees with memory; releasing a run
    that holds a free sector fails the assertion, so that a double release is
    caught.  Allocating and then releasing restores every bit. *)
Theorem free_map_release_correct s f i sector cnt :
  fm_ok s f i → 0 ≤ sector → 0 ≤ cnt → sector + cnt ≤ bit_cnt (free_map s) →
  (all_bits (free_map s) sector cnt true →
   ∃ s', free_map_release sector cnt s = Ok (tt, s') ∧ fm_run s s' f i ∧
     (no_oom s → synced s' i) ∧
     ∀ j, 0 ≤ j → bit (free_map s') j =
       if decide (sector ≤ j < sector + cnt) then false else bit (free_map s) j) ∧
  (¬ all_bits (free_map s) sector cnt true →
   free_map_release sector cnt s = Err AssertFailed) ∧
  (∀ sector' s1, free_map_allocate cnt s = Ok (Some sector', s1) →
   ∃ s2, free_map_release sector' cnt s1 = Ok (tt, s2) ∧ fm_run s s2 f i ∧
     ∀ j, 0 ≤ j → bit (free_map s2) j = bit (free_map s) j).
Proof.
  intros Hfm Hs Hc Hle. split_and!.
  - intros Hall. pose proof (wp_free_map_release s f i sector cnt Hfm Hs Hc Hle Hall)
      as ([] & s' & Hrun & ? & ? & ?)%wp_Ok. eauto.
  - intros Hnot.
    assert (wp (bitmap_all sector cnt) (λ r b, r = false ∧ b = free_map s) (free_map s))
      as (r & b & Hrun & -> & ->)%wp_Ok.
    { unfold bitmap_all. wp_step. apply wp_bitmap_contains; [apply Hfm|done..|].
      intros [] Hr; wp_step; [done|]. by destruct Hnot; apply Hr. }
    unfold free_map_release, mbind, M_bind, on_free_map. by rewrite Hrun.
  - intros sector' s1 Halloc.
    pose proof (wp_free_map_allocate s f i cnt Hfm Hc) as (r & s' & Hrun & Hfr & Hr)%wp_Ok.
    rewrite Halloc in Hrun. injection Hrun as <- <-. destruct Hr as (Hgrp & Hbits & _).
    pose proof Hgrp as (? & ? & _).
    pose proof (fr_size _ _ _ _ Hfr) as [Hsc _].
    assert (all_bits (free_map s1) sector' cnt true) as Hall1.
    { intros j Hj. rewrite Hbits by lia. by rewrite decide_True. }
    pose proof (wp_free_map_release s1 f i sector' cnt ltac:(apply Hfr) ltac:(lia) Hc ltac:(lia) Hall1)
      as ([] & s2 & Hrun2 & Hfr2 & _ & Hbits2)%wp_Ok.
    exists s2. split; [done|]. split; [by eapply fm_run_trans|]. intros j Hj.
    rewrite Hbits2, Hbits by done. case_decide; [|done].
    symmetry. by eapply first_group_bits.
Qed.

(** ** Closing inodes *)

Definition open_list_without (p : Z) (s : fs) : list Z := filter (λ q, q ≠ p) (open_inodes s).

Lemma inode_close_shared s p i :
  p ≠ NULL → inodes s !! p = Some i → 1 < open_cnt i < 2 ^ 31 →
  inode_close p s = Ok (tt, set_inodes (<[p := with_open_cnt (open_cnt i - 1) i]> (inodes s)) s).
Proof.
  intros Hp Hi Hc. unfold inode_close. rewrite (proj2 (Z.eqb_neq _ _) Hp).
  unfold mbind, M_bind, inode_at. rewrite Hi. simpl. rewrite int32_small by lia.
  by rewrite (proj2 (Z.eqb_neq _ 0)) by lia.
Qed.

Lemma inode_close_last s p i :
  p ≠ NULL → inodes s !! p = Some i → open_cnt i = 1 → removed i = false →
  inode_close p s = Ok (tt, set_inodes (delete p (inodes s)) (set_open_inodes (open_list_without p s) s)).
Proof.
  intros Hp Hi Hc Hr. unfold inode_close. rewrite (proj2 (Z.eqb_neq _ _) Hp).
  unfold mbind, M_bind, inode_at. rewrite Hi. simpl. rewrite Hc, Hr. simpl.
  unfold free_inode, modify. simpl. by rewrite delete_insert_eq.
Qed.

Lemma itable_close s p i :
  itable s → inodes s !! p = Some i →
  itable (set_inodes (delete p (inodes s)) (set_open_inodes (open_list_without p s) s)).
Proof.
  intros [Hnd Hdom Hinj Hcnt Hnx Had] Hp. constructor; simpl; try done.
  - by apply NoDup_filter.
  - intros q. unfold open_list_without. rewrite list_elem_of_filter, Hdom, lookup_delete_is_Some.
    naive_solver.
  - intros q1 q2 j1 j2 [_ H1]%lookup_delete_Some [_ H2]%lookup_delete_Some. by apply (Hinj q1 q2 j1 j2).
  - intros q j [_ Hj]%lookup_delete_Some. by apply (Hcnt q).
  - intros q [_ Hq]%lookup_delete_is_Some. by apply Had.
Qed.

Lemma filter_without p (l : list Z) : p ∉ l → filter (λ q, q ≠ p) l = l.
Proof.
  induction l as [|q l IH]; intros Hp; [done|]. apply not_elem_of_cons in Hp as [Hq Hl].
  rewrite filter_cons_True by congruence. by rewrite IH.
Qed.

(** Opening and closing inodes.  Opening a sector keeps the table of open
    inodes well formed and gives every opener of one sector the same
    [struct inode], with one more opener; a sector that was not open gets a
    fresh inode holding what the sector holds.  Closing undoes opening: the
    table and the list of open inodes are what they were. *)
Theorem inode_open_close s sector :
  itable s → sector < bsize (fs_device s) →
  (∀ p i, inodes s !! p = Some i → open_cnt i + 1 < 2 ^ 31) →
  ∃ p s1, inode_open sector s = Ok (p, s1) ∧ itable s1 ∧ inode_opened s sector p s1 ∧
    (p ≠ NULL →
     (∃ i, inodes s1 !! p = Some i ∧ i_sector i = sector ∧ 0 < open_cnt i ∧
        ∀ q j, inodes s1 !! q = Some j → i_sector j = sector → q = p) ∧
     ∃ s2, inode_close p s1 = Ok (tt, s2) ∧ itable s2 ∧
       inodes s2 = inodes s ∧ open_inodes s2 = open_inodes s ∧
       contents (fs_device s2) = contents (fs_device s)).
Proof.
  intros Hit Hsec Hcnt.
  pose proof (wp_inode_open sector s Hit Hsec Hcnt) as (p & s1 & Hrun & Hit1 & Hop)%wp_Ok.
  exists p, s1. split_and!; [done..|]. intros Hp.
  destruct Hop as [(i & Hi & Hs & ->)|[(_ & ? & _)|(Hno & -> & _ & Hnone & Hfresh & s0 & Hq & Hlt & ->)]];
    [|done|].
  - destruct (it_cnt _ Hit p i Hi) as [Hc Hd]. specialize (Hcnt p i Hi). split.
    + exists (with_open_cnt (open_cnt i + 1) i). split; [by simplify_map_eq/=|].
      split; [done|]. split; [simpl; lia|]. intros q j Hj Hjs.
      apply (it_inj _ Hit1 q p j (with_open_cnt (open_cnt i + 1) i)); [done|by simplify_map_eq/=|].
      by rewrite Hjs.
    + eexists. split; [apply (inode_close_shared _ p (with_open_cnt (open_cnt i + 1) i)); simpl;
        [done|by simplify_map_eq/=|lia]|].
      simpl. rewrite insert_insert_eq, Z.add_simpl_r.
      assert (with_open_cnt (open_cnt i) (with_open_cnt (open_cnt i + 1) i) = i) as -> by (by destruct i).
      rewrite insert_id by done. split_and!; try done. by destruct s.
  - split.
    + eexists. split; [by simplify_map_eq/=|]. split; [done|]. split; [done|].
      intros q j Hj Hjs. simpl in Hj. apply lookup_insert_Some in Hj as [[-> _]|[_ Hj]]; [done|].
      by destruct (Hno q j).
    + eexists. split; [eapply inode_close_last; [done|by simplify_map_eq/=|done..]|].
      split; [eapply itable_close; [done|by simplify_map_eq/=]|].
      simpl. rewrite delete_insert_id by done. split; [done|]. split; [|apply (ds_contents _ _ _ Hq)].
      unfold open_list_without. simpl. rewrite filter_cons_False by naive_solver.
      by apply filter_without.
Qed.

(** The free map does not depend on the other inodes. *)
Lemma fm_ok_inodes s f j m os :
  fm_ok s f j → m !! f_inode f = Some j → fm_ok (set_inodes m (set_open_inodes os s)) f j.
Proof. intros [] Hm. by constructor. Qed.

(** The sectors of an inode: its own and its data. *)
Definition owns (i : inode) (k : Z) : Prop :=
  k = i_sector i ∨
  id_start (i_data i) ≤ k < id_start (i_data i) + bytes_to_sectors (id_length (i_data i)).
#[export] Instance owns_dec i k : Decision (owns i k).
Proof. unfold owns. apply _. Defined.

(** [releasable b i]: the sectors of the inode lie on the device, are marked
    used in [b], and the inode is not in its own data. *)
Record releasable (b : bitmap) (i : inode) : Prop := {
  re_sector : 0 ≤ i_sector i < bit_cnt b;
  re_start : 0 ≤ id_start (i_data i);
  re_end : id_start (i_data i) + bytes_to_sectors (id_length (i_data i)) ≤ bit_cnt b;
  re_disjoint : ¬ (id_start (i_data i) ≤ i_sector i <
                   id_start (i_data i) + bytes_to_sectors (id_length (i_data i)));
  re_used : ∀ k, owns i k → bit b k = true
}.

(** What the last close of a removed inode leaves behind. *)
Record inode_released (s : fs) (f : file) (j : inode) (p : Z) (i : inode) (s' : fs) : Prop := {
  rl_ok : fm_ok s' f j;
  rl_synced : no_oom s → synced s' j;
  rl_inodes : inodes s' = delete p (inodes s);
  rl_open : open_inodes s' = open_list_without p s;
  rl_files : files s' = files s;
  rl_dirs : dirs s' = dirs s;
  rl_outside : same_outside s s' j;
  rl_bits : ∀ k, 0 ≤ k → bit (free_map s') k = if decide (owns i k) then false else bit (free_map s) k
}.

Lemma inode_close_releases s f j p i :
  fm_ok s f j → inodes s !! p = Some i → p ≠ NULL → p ≠ f_inode f →
  open_cnt i = 1 → removed i = true → releasable (free_map s) i →
  ∃ s', inode_close p s = Ok (tt, s') ∧ inode_released s f j p i s'.
Proof.
  intros Hfm Hi Hp Hpf Hc Hr [Hsec Hst Hn Hdis Hused].
  set (n := bytes_to_sectors (id_length (i_data i))) in *.
  set (start := id_start (i_data i)) in *.
  assert (0 ≤ n) by (apply (wrap32_range _)).
  set (i' := mk_inode (i_sector i) 0 true (deny_write_cnt i) (i_data i)).
  set (s0 := set_inodes (<[p := i']> (inodes s)) (set_open_inodes (open_list_without p s) s)).
  assert (fm_ok s0 f j) as Hfm0.
  { apply fm_ok_inodes; [done|]. rewrite lookup_insert_ne by done. apply Hfm. }
  assert (all_bits (free_map s0) (i_sector i) 1 true) as Hall1.
  { intros k Hk. apply Hused. left. lia. }
  pose proof (wp_free_map_release s0 f j (i_sector i) 1 Hfm0 ltac:(lia) ltac:(lia) ltac:(simpl; lia) Hall1)
    as ([] & s1 & Hrun1 & Hfr1 & _ & Hbits1)%wp_Ok.
  pose proof (fr_size _ _ _ _ Hfr1) as [Hsz1 _]. simpl in Hsz1.
  assert (all_bits (free_map s1) start n true) as Hall2.
  { intros k Hk. rewrite Hbits1 by lia. rewrite decide_False by lia. apply Hused. by right. }
  pose proof (wp_free_map_release s1 f j start n (fr_ok _ _ _ _ Hfr1) Hst ltac:(done) ltac:(lia) Hall2)
    as ([] & s2 & Hrun2 & Hfr2 & Hsync2 & Hbits2)%wp_Ok.
  pose proof (fm_run_trans _ _ _ _ _ Hfr1 Hfr2) as Hfr.
  pose proof (fr_objects _ _ _ _ Hfr) as (Hino & Hopen & Hfiles & Hdirs & _ & Hoom).
  pose proof (fr_objects _ _ _ _ Hfr1) as (_ & _ & _ & _ & _ & Hoom1).
  exists (set_inodes (delete p (inodes s2)) s2). split; [|constructor].
  - unfold inode_close. rewrite (proj2 (Z.eqb_neq _ _) Hp).
    unfold mbind, M_bind, inode_at. rewrite Hi. simpl. rewrite Hc, Hr.
    change (int32 (1 - 1)) with 0. simpl. fold i'. unfold start, n in *.
    change (set_open_inodes _ (set_inodes (<[p:=i']> (inodes s)) s)) with s0.
    by rewrite Hrun1, Hrun2.
  - assert (set_inodes (delete p (inodes s2)) s2 =
      set_inodes (delete p (inodes s2)) (set_open_inodes (open_inodes s2) s2)) as -> by (by destruct s2).
    apply fm_ok_inodes; [apply Hfr2|]. rewrite lookup_delete_ne by done.
    rewrite Hino. apply Hfm0.
  - intros Hns. apply Hsync2. unfold no_oom. rewrite Hoom1. apply Hns.
  - simpl. rewrite Hino. simpl. by rewrite delete_insert_eq.
  - simpl. by rewrite Hopen.
  - simpl. by rewrite Hfiles.
  - simpl. by rewrite Hdirs.
  - intros o m Ho Hm Hd. simpl. rewrite (fr_outside _ _ _ _ Hfr) by done. done.
  - intros k Hk. simpl. rewrite Hbits2, Hbits1 by done. unfold owns. fold n start.
    repeat case_decide; done || lia.
Qed.

(** The last close of a removed inode gives its sectors back.  If the
    inode's own sector and its data sectors are marked used, the close does
    not fault, the inode leaves memory, exactly these sectors become free, and
    the free map stays consistent. *)
Theorem inode_close_removed s f j p i :
  fm_ok s f j → inodes s !! p = Some i → p ≠ NULL → p ≠ f_inode f →
  open_cnt i = 1 → removed i = true → releasable (free_map s) i →
  ∃ s', inode_close p s = Ok (tt, s') ∧ inode_released s f j p i s'.
Proof. apply inode_close_releases. Qed.

(** ** The example file system *)

Lemma example_fm_ok : fm_ok example_fs example_file example_free_map_inode.
Proof.
  constructor; try reflexivity; try done.
  - constructor; simpl; unfold ELEM_BITS; [lia..|].
    repeat (apply Forall_cons_2; [lia|]). apply Forall_nil_2.
  - exact example_device_ok.
Qed.

Lemma free_map_allocate_correct_witness :
  ∃ r s', free_map_allocate 2 example_fs = Ok (r, s') ∧
    fm_ok s' example_file example_free_map_inode ∧ same_objects example_fs s' ∧
    same_outside example_fs s' example_free_map_inode ∧
    match r with
    | Some sector =>
        first_group (free_map example_fs) 0 2 false sector ∧
        (∀ j, 0 ≤ j → bit (free_map s') j =
           if decide (sector ≤ j < sector + 2) then true else bit (free_map example_fs) j) ∧
        synced s' example_free_map_inode
    | None =>
        (∀ j, 0 ≤ j → bit (free_map s') j = bit (free_map example_fs) j) ∧
        (no_oom example_fs → no_group (free_map example_fs) 0 2 false)
    end.
Proof.
  apply (free_map_allocate_correct example_fs example_file example_free_map_inode 2);
    [exact example_fm_ok|lia].
Defined.

Lemma free_map_release_correct_witness :
  ∃ s', free_map_release 4 2 example_fs = Ok (tt, s') ∧
    fm_run example_fs s' example_file example_free_map_inode ∧
    (no_oom example_fs → synced s' example_free_map_inode) ∧
    ∀ j, 0 ≤ j → bit (free_map s') j =
      if decide (4 ≤ j < 4 + 2) then false else bit (free_map example_fs) j.
Proof.
  refine (proj1 (free_map_release_correct example_fs example_file example_free_map_inode 4 2 _ _ _ _) _);
    [exact example_fm_ok|lia|lia|simpl; lia|].
  intros j Hj. assert (j = 4 ∨ j = 5) as [->| ->] by lia; reflexivity.
Defined.

Lemma inode_open_close_witness :
  ∃ p s1, inode_open 3 example_fs = Ok (p, s1) ∧ itable s1 ∧ inode_opened example_fs 3 p s1 ∧
    (p ≠ NULL →
     (∃ i, inodes s1 !! p = Some i ∧ i_sector i = 3 ∧ 0 < open_cnt i ∧
        ∀ q j, inodes s1 !! q = Some j → i_sector j = 3 → q = p) ∧
     ∃ s2, inode_close p s1 = Ok (tt, s2) ∧ itable s2 ∧
       inodes s2 = inodes example_fs ∧ open_inodes s2 = open_inodes example_fs ∧
       contents (fs_device s2) = contents (fs_device example_fs)).
Proof.
  apply (inode_open_close example_fs 3); [exact example_itable|reflexivity|].
  intros p i. simpl. rewrite lookup_insert_Some, lookup_singleton_Some.
  intros [[<- <-]|[_ [<- <-]]]; simpl; lia.
Defined.

Lemma inode_close_removed_witness :
  ∃ s', inode_close 12 example_fs = Ok (tt, s') ∧
    inode_released example_fs example_file example_free_map_inode 12 example_inode s'.
Proof.
  apply (inode_close_removed example_fs example_file example_free_map_inode 12 example_inode);
    [exact example_fm_ok|reflexivity|done|done|reflexivity|reflexivity|].
  constructor; unfold owns; change (bytes_to_sectors _) with 2; simpl; try lia.
  intros k [->|Hk]; [reflexivity|]. assert (k = 4 ∨ k = 5) as [->| ->] by lia; reflexivity.
Defined.
