(* ===== verification/Directory.v ===== *)
(** * Directories ([filesys/directory.c]) and the file system ([filesys/filesys.c])

    A directory is a file of 20-byte entries: a sector number, a
    zero-terminated name of at most 14 characters and an in-use flag. *)
From S2P Require Import Prelude Bytes Bitmap FsState Inode FreeMap.

Definition NAME_MAX : Z := 14.
Definition sizeof_dir_entry : Z := 20.

(** Names are C strings: the bytes before the terminating zero.  The field
    [de_name] is the whole array of 15 bytes. *)
Record dir_entry := mk_dir_entry { de_sector : Z; de_name : list Z; de_in_use : bool }.

Definition encode_dir_entry (e : dir_entry) : list Z :=
  le32 (de_sector e) ++ de_name e ++ [if de_in_use e then 1 else 0].

Definition decode_dir_entry (l : list Z) : dir_entry :=
  mk_dir_entry (of_le32 (slice 0 4 l)) (slice 4 15 l)
    (negb (default 0 (l !! 19%nat) =? 0)).

(** The C string an array of characters holds: up to the first zero. *)
Fixpoint cstr (l : list Z) : list Z :=
  match l with
  | [] => []
  | c :: l => if c =? 0 then [] else c :: cstr l
  end.

(** strlcpy (e.name, name, sizeof e.name): the rest of the array keeps what it
    held. *)
Definition strlcpy_name (name old : list Z) : list Z :=
  let n := take 14 name in put 0 (n ++ [0]) old.

Definition dir_create (sector entry_cnt : Z) : M fs bool :=
  inode_create sector (int32 (entry_cnt * sizeof_dir_entry)).

Definition dir_open (inode : Z) : M fs Z :=
  d ← malloc;
  if negb (inode =? NULL) && negb (d =? NULL) then
    put_dir d (mk_dir inode 0) ;; mret d
  else
    inode_close inode ;; mret NULL.

Definition dir_open_root : M fs Z := i ← inode_open ROOT_DIR_SECTOR; dir_open i.

Definition dir_reopen (p : Z) : M fs Z := d ← dir_at p; i ← inode_reopen (d_inode d); dir_open i.

Definition dir_close (p : Z) : M fs unit :=
  if p =? NULL then mret tt else
  d ← dir_at p; inode_close (d_inode d) ;; free_dir p.

Definition dir_get_inode (p : Z) : M fs Z := d ← dir_at p; mret (d_inode d).

(** ** Searching

    [fuel] bounds the number of entries; it is more than a file can hold. *)

(** [inode_read_at (dir->inode, &e, sizeof e, ofs)]: the local [e] keeps its
    old bytes where the read is short. *)
Definition read_entry (inode : Z) (e : list Z) (ofs : Z) : M fs (bool * list Z) :=
  '(n, e) ← inode_read_at inode e sizeof_dir_entry ofs;
  mret (n =? sizeof_dir_entry, e).

Fixpoint lookup_loop (fuel : nat) (inode : Z) (name : list Z) (e : list Z) (ofs : Z)
    : M fs (option (dir_entry * Z)) :=
  match fuel with
  | O => throw OutOfFuel
  | S fuel =>
      '(full, e) ← read_entry inode e ofs;
      if negb full then mret None else
      let ent := decode_dir_entry e in
      if de_in_use ent && bool_decide (name = cstr (de_name ent))
      then mret (Some (ent, ofs))
      else lookup_loop fuel inode name e (wrap32 (ofs + sizeof_dir_entry))
  end.

(** The uninitialised local entry. *)
Definition e0 : list Z := replicate 20 0.

Definition dir_fuel (s : fs) : nat := S (Z.to_nat (512 * bsize (fs_device s))).

Definition lookup (p : Z) (name : list Z) : M fs (option (dir_entry * Z)) :=
  ASSERT (negb (p =? NULL)) ;;
  d ← dir_at p;
  fuel ← gets dir_fuel;
  lookup_loop fuel (d_inode d) name e0 0.

(** [*inode], NULL when the name is not found or cannot be opened. *)
Definition dir_lookup (p : Z) (name : list Z) : M fs Z :=
  ASSERT (negb (p =? NULL)) ;;
  r ← lookup p name;
  match r with
  | Some (e, _) => inode_open (de_sector e)
  | None => mret NULL
  end.

(** The search for a free slot. *)
Fixpoint free_slot_loop (fuel : nat) (inode : Z) (e : list Z) (ofs : Z) : M fs (list Z * Z) :=
  match fuel with
  | O => throw OutOfFuel
  | S fuel =>
      '(full, e) ← read_entry inode e ofs;
      if negb full then mret (e, ofs) else
      if negb (de_in_use (decode_dir_entry e)) then mret (e, ofs)
      else free_slot_loop fuel inode e (int32 (ofs + sizeof_dir_entry))
  end.

Definition dir_add (p : Z) (name : list Z) (inode_sector : Z) : M fs bool :=
  ASSERT (negb (p =? NULL)) ;;
  if (len name =? 0) || (NAME_MAX <? len name) then mret false else
  found ← lookup p name;
  match found with
  | Some _ => mret false
  | None =>
      d ← dir_at p;
      fuel ← gets dir_fuel;
      '(e, ofs) ← free_slot_loop fuel (d_inode d) e0 0;
      let e' := mk_dir_entry inode_sector (strlcpy_name name (de_name (decode_dir_entry e))) true in
      n ← inode_write_at (d_inode d) (encode_dir_entry e') sizeof_dir_entry ofs;
      mret (n =? sizeof_dir_entry)
  end.

Definition dir_remove (p : Z) (name : list Z) : M fs bool :=
  ASSERT (negb (p =? NULL)) ;;
  found ← lookup p name;
  match found with
  | None => inode_close NULL ;; mret false
  | Some (e, ofs) =>
      i ← inode_open (de_sector e);
      if i =? NULL then inode_close i ;; mret false else
      d ← dir_at p;
      n ← inode_write_at (d_inode d)
            (encode_dir_entry (mk_dir_entry (de_sector e) (de_name e) false)) sizeof_dir_entry ofs;
      if negb (n =? sizeof_dir_entry) then inode_close i ;; mret false else
      inode_remove i ;;
      inode_close i ;;
      mret true
  end.

Fixpoint dir_readdir_loop (fuel : nat) (p : Z) (e : list Z) : M fs (option (list Z)) :=
  match fuel with
  | O => throw OutOfFuel
  | S fuel =>
      d ← dir_at p;
      '(full, e) ← read_entry (d_inode d) e (d_pos d);
      if negb full then mret None else
      put_dir p (mk_dir (d_inode d) (int32 (d_pos d + sizeof_dir_entry))) ;;
      if de_in_use (decode_dir_entry e) then mret (Some (cstr (de_name (decode_dir_entry e))))
      else dir_readdir_loop fuel p e
  end.

(** The name, when the function returns true. *)
Definition dir_readdir (p : Z) : M fs (option (list Z)) :=
  fuel ← gets dir_fuel; dir_readdir_loop fuel p e0.

(** ** The file system ([filesys/filesys.c]) *)

Definition do_format : M fs unit :=
  free_map_create ;;
  ok ← dir_create ROOT_DIR_SECTOR 16;
  (if (ok : bool) then mret tt else PANIC) ;;
  free_map_close.

Definition filesys_init (garbage : list Z) (format : bool) : M fs unit :=
  inode_init ;;
  free_map_init garbage ;;
  when format do_format ;;
  free_map_open.

Definition filesys_done : M fs unit := free_map_close.

Definition filesys_create (name : list Z) (initial_size : Z) : M fs bool :=
  dir ← dir_open_root;
  alloc ← (if dir =? NULL then mret None else free_map_allocate 1);
  success ← (match alloc with
             | None => mret false
             | Some inode_sector =>
                 ok ← inode_create inode_sector initial_size;
                 if (ok : bool) then dir_add dir name inode_sector else mret false
             end);
  let inode_sector := default 0 alloc in
  when (negb success && negb (inode_sector =? 0)) (free_map_release inode_sector 1) ;;
  dir_close dir ;;
  mret success.

Definition filesys_open (name : list Z) : M fs Z :=
  dir ← dir_open_root;
  inode ← (if dir =? NULL then mret NULL else dir_lookup dir name);
  dir_close dir ;;
  file_open inode.

Definition filesys_remove (name : list Z) : M fs bool :=
  dir ← dir_open_root;
  success ← (if dir =? NULL then mret false else dir_remove dir name);
  dir_close dir ;;
  mret success.

(** ** A directory as a map from names to sectors *)

Definition entry (data : list Z) (k : Z) : dir_entry := decode_dir_entry (slice (20 * k) 20 data).
Definition entry_count (data : list Z) : Z := len data / 20.

Definition names (data : list Z) (name : list Z) (k : Z) : bool :=
  de_in_use (entry data k) && bool_decide (name = cstr (de_name (entry data k))).
Definition slot_free (data : list Z) (k : Z) : bool := negb (de_in_use (entry data k)).

Definition dir_index (data name : list Z) : option Z :=
  find_from (names data name) (Z.to_nat (entry_count data)) 0.
Definition dir_map (data name : list Z) : option Z :=
  (λ k, de_sector (entry data k)) <$> dir_index data name.
Definition free_slot (data : list Z) : option Z :=
  find_from (slot_free data) (Z.to_nat (entry_count data)) 0.

(** No two entries in use have the same name. *)
Definition dir_unique (data : list Z) : Prop :=
  ∀ j k name, 0 ≤ j < entry_count data → 0 ≤ k < entry_count data →
    names data name j = true → names data name k = true → j = k.

(** ** Entries and their bytes *)

Record entry_ok (e : dir_entry) : Prop := {
  eo_sector : 0 ≤ de_sector e < 2 ^ 32;
  eo_name : length (de_name e) = 15%nat;
  eo_bytes : bytes (de_name e)
}.

Lemma length_encode_dir_entry e : length (de_name e) = 15%nat → length (encode_dir_entry e) = 20%nat.
Proof. intros Hl. unfold encode_dir_entry. rewrite !length_app, Hl. reflexivity. Qed.

Lemma decode_encode_dir_entry e : entry_ok e → decode_dir_entry (encode_dir_entry e) = e.
Proof.
  intros [Hs Hn Hb]. destruct e as [sec nm use]; simpl in *.
  do 15 (destruct nm as [|? nm]; [done|]). destruct nm; [|done].
  unfold decode_dir_entry, encode_dir_entry; cbn [de_sector de_name de_in_use].
  change (slice 0 4 _) with (le32 sec). rewrite of_le32_le32, wrap32_small by done.
  by destruct use.
Qed.

Lemma encode_dir_entry_bytes e : bytes (de_name e) → bytes (encode_dir_entry e).
Proof.
  intros Hb. unfold encode_dir_entry. apply bytes_app; [apply le32_bytes|]. apply bytes_app; [done|].
  apply Forall_cons_2; [|apply Forall_nil_2]. unfold is_byte. destruct (de_in_use e); lia.
Qed.

(** A name that can be stored: not empty, not too long, no zero byte. *)
Record name_ok (name : list Z) : Prop := {
  no_len : 0 < len name ≤ NAME_MAX;
  no_bytes : Forall (λ c, 0 < c < 256) name
}.

Lemma cstr_app name rest : Forall (λ c, 0 < c < 256) name → cstr (name ++ 0 :: rest) = name.
Proof.
  induction 1 as [|c name Hc _ IH]; simpl; [done|].
  rewrite (proj2 (Z.eqb_neq c 0)) by lia. by rewrite IH.
Qed.

Lemma strlcpy_name_spec name old : name_ok name → length old = 15%nat → bytes old →
  cstr (strlcpy_name name old) = name ∧ length (strlcpy_name name old) = 15%nat ∧
  bytes (strlcpy_name name old).
Proof.
  intros [Hl Hb] Ho Hob. unfold strlcpy_name, NAME_MAX in *. rewrite take_ge by lia.
  split_and!.
  - unfold put. change (take (Z.to_nat 0) old) with (@nil Z). rewrite app_nil_l, <- app_assoc.
    by apply cstr_app.
  - rewrite length_put; [done|lia|]. rewrite length_app. simpl. lia.
  - apply Forall_put; [|done]. apply Forall_app. split.
    + eapply Forall_impl; [done|]. unfold is_byte. intros. lia.
    + apply Forall_cons_2; [unfold is_byte; lia|apply Forall_nil_2].
Qed.

(** Writing entry [k] changes that entry only. *)
Lemma entry_put data k e j :
  entry_ok e → 0 ≤ k < entry_count data → 0 ≤ j →
  entry (put (20 * k) (encode_dir_entry e) data) j = if decide (j = k) then e else entry data j.
Proof.
  intros He Hk Hj. pose proof (length_encode_dir_entry e (eo_name e He)) as Hle.
  unfold entry_count in Hk. pose proof (Z.mul_div_le (len data) 20 ltac:(lia)).
  unfold entry. case_decide as Hjk.
  - subst. replace 20 with (len (encode_dir_entry e)) at 2 by lia.
    rewrite slice_put_same by lia. by apply decode_encode_dir_entry.
  - f_equal. apply slice_put_disjoint; lia.
Qed.

Lemma entry_count_put data k e : entry_ok e → 0 ≤ k < entry_count data →
  entry_count (put (20 * k) (encode_dir_entry e) data) = entry_count data.
Proof.
  intros He Hk. pose proof (length_encode_dir_entry e (eo_name e He)) as Hle.
  unfold entry_count in *. pose proof (Z.mul_div_le (len data) 20 ltac:(lia)).
  rewrite length_put; lia.
Qed.

Ltac fmap_simpl := cbn [fmap option_fmap option_map].

(** The effect on the map of names of filling a free slot. *)
Lemma dir_map_add data k e name :
  entry_ok e → 0 ≤ k < entry_count data → slot_free data k = true →
  de_in_use e = true → cstr (de_name e) = name → dir_index data name = None →
  let data' := put (20 * k) (encode_dir_entry e) data in
  (∀ n, dir_map data' n = if decide (n = name) then Some (de_sector e) else dir_map data n) ∧
  (dir_unique data → dir_unique data').
Proof.
  intros He Hk Hfree Huse Hname Hnone data'.
  assert (∀ j, 0 ≤ j → entry data' j = if decide (j = k) then e else entry data j) as Hent
    by (intros; by apply entry_put).
  assert (entry_count data' = entry_count data) as Hcnt by (by apply entry_count_put).
  assert (∀ n j, 0 ≤ j → names data' n j =
            if decide (j = k) then bool_decide (n = name) else names data n j) as Hnm.
  { intros n j Hj. unfold names. rewrite Hent by done. case_decide; [|done]. by rewrite Huse, Hname. }
  assert (∀ n, names data n k = false) as Hk0.
  { intros n. unfold names, slot_free in *. by destruct (de_in_use (entry data k)). }
  unfold dir_index in Hnone. rewrite find_from_None in Hnone.
  split.
  - intros n. unfold dir_map, dir_index. rewrite Hcnt. case_decide as Hn.
    + subst n. assert (find_from (names data' name) (Z.to_nat (entry_count data)) 0 = Some k) as ->.
      { apply find_from_Some. split; [lia|]. rewrite Hnm by lia. rewrite decide_True by done.
        split; [by apply bool_decide_eq_true|]. intros m Hm. rewrite Hnm by lia.
        rewrite decide_False by lia. apply Hnone. lia. }
      fmap_simpl. rewrite Hent by lia. by rewrite decide_True.
    + rewrite (find_from_ext (names data' n) (names data n)).
      * destruct (find_from (names data n) _ 0) as [j|] eqn:Hj; fmap_simpl; [|done].
        apply find_from_Some in Hj as (? & Hj & _). rewrite Hent by lia.
        rewrite decide_False; [done|]. intros ->. by rewrite Hk0 in Hj.
      * intros m Hm. rewrite Hnm by lia. case_decide; [|done]. subst m.
        rewrite Hk0. by apply bool_decide_eq_false.
  - intros Huniq j1 j2 n H1 H2. rewrite Hcnt in H1, H2. rewrite !Hnm by lia.
    repeat case_decide; subst; try done.
    + intros _ Hj2. rewrite Hnone in Hj2 by lia. done.
    + intros Hj1 _. rewrite Hnone in Hj1 by lia. done.
    + intros. by eapply Huniq.
Qed.

(** The effect of clearing the in-use flag of the entry with a name. *)
Lemma dir_map_remove data k e name :
  entry_ok e → dir_index data name = Some k → dir_unique data → de_in_use e = false →
  let data' := put (20 * k) (encode_dir_entry e) data in
  (∀ n, dir_map data' n = if decide (n = name) then None else dir_map data n) ∧ dir_unique data'.
Proof.
  intros He Hidx Huniq Huse data'.
  apply find_from_Some in Hidx as (Hk & Hkn & Hbefore).
  assert (0 ≤ k < entry_count data) as Hk' by lia.
  assert (∀ j, 0 ≤ j → entry data' j = if decide (j = k) then e else entry data j) as Hent
    by (intros; by apply entry_put).
  assert (entry_count data' = entry_count data) as Hcnt by (by apply entry_count_put).
  assert (∀ n j, 0 ≤ j → names data' n j = if decide (j = k) then false else names data n j) as Hnm.
  { intros n j Hj. unfold names. rewrite Hent by done. case_decide; [|done]. by rewrite Huse. }
  split.
  - intros n. unfold dir_map, dir_index. rewrite Hcnt. case_decide as Hn.
    + subst n. rewrite (proj2 (find_from_None _ _ _)); [done|]. intros m Hm.
      rewrite Hnm by lia. case_decide as Hmk; [done|]. apply not_true_is_false. intros Hmn.
      apply Hmk. by apply (Huniq m k name); [lia..| |].
    + rewrite (find_from_ext (names data' n) (names data n)).
      * destruct (find_from (names data n) _ 0) as [j|] eqn:Hj; fmap_simpl; [|done].
        apply find_from_Some in Hj as (? & Hj & _). rewrite Hent by lia.
        rewrite decide_False; [done|]. intros ->. unfold names in Hj, Hkn.
        destruct (de_in_use (entry data k)); [|done]. simpl in Hj, Hkn.
        apply bool_decide_eq_true in Hj, Hkn. congruence.
      * intros m Hm. rewrite Hnm by lia. case_decide; [|done]. subst m.
        symmetry. apply not_true_is_false. intros Hkn'. unfold names in Hkn, Hkn'.
        destruct (de_in_use (entry data k)); [|done]. simpl in Hkn, Hkn'.
        apply bool_decide_eq_true in Hkn, Hkn'. congruence.
  - intros j1 j2 n H1 H2. rewrite Hcnt in H1, H2. rewrite !Hnm by lia.
    repeat case_decide; try done. intros. by eapply Huniq.
Qed.

(** ** Runs of the directory operations *)

(** [dir_inode s q i]: inode [i] at address [q] is a directory: whole entries,
    on the device; there is memory. *)
Record dir_inode (s : fs) (q : Z) (i : inode) : Prop := {
  di_inode : inodes s !! q = Some i;
  di_dev : dev_ok (fs_device s);
  di_placed : placed (fs_device s) (i_data i);
  di_addr : 0 < next_addr s;
  di_oom : no_oom s;
  di_whole : id_length (i_data i) mod 20 = 0;
  di_small : id_length (i_data i) < 2 ^ 31 - 20
}.

Lemma dir_inode_quiet s s' q i : quiet s s' → dir_inode s q i → dir_inode s' q i.
Proof.
  intros Hq []. pose proof (ds_addr _ _ _ Hq). constructor; eauto with cmodel; try lia.
  by rewrite (ds_inodes _ _ _ Hq).
Qed.

Lemma file_data_quiet s s' d : quiet s s' → file_data s' d = file_data s d.
Proof. intros Hq. unfold file_data. by rewrite (ds_contents _ _ _ Hq). Qed.

Lemma dir_inode_count s q i : dir_inode s q i →
  len (file_data s (i_data i)) = id_length (i_data i) ∧
  20 * entry_count (file_data s (i_data i)) = id_length (i_data i) ∧
  0 ≤ entry_count (file_data s (i_data i)).
Proof.
  intros [Hi Hok [Hs Hl Hf] Ha Hno Hw Hsm]. pose proof (dev_len _ Hok).
  assert (len (file_data s (i_data i)) = id_length (i_data i)) as Hlen
    by (unfold file_data, data_ofs; apply length_slice; lia).
  unfold entry_count. rewrite Hlen. split; [done|]. div_lia.
Qed.

Lemma wp_read_entry s q i e k :
  dir_inode s q i → length e = 20%nat →
  let data := file_data s (i_data i) in
  0 ≤ k ≤ entry_count data →
  wp (read_entry q e (20 * k)) (λ r s', quiet s s' ∧
    if decide (k < entry_count data) then r = (true, slice (20 * k) 20 data)
    else r = (false, e)) s.
Proof.
  intros Hdi Hle data Hk. pose proof (dir_inode_count s q i Hdi) as (Hdl & Hcnt & Hc0).
  fold data in Hdl, Hcnt, Hc0. destruct Hdi as [Hi Hok Hpl Ha Hno Hw Hsm].
  unfold read_entry, sizeof_dir_entry. wp_step.
  eapply wp_mono; [apply (wp_inode_read_at q i e 20 (20 * k)); constructor; try done; lia|].
  intros r s' (n & -> & Hq & _ & Hn). specialize (Hn Hno). wp_step. split; [done|].
  unfold io_count in Hn. case_decide.
  - assert (n = 20) as -> by lia. simpl. f_equal. unfold put. simpl. fold data.
    assert (len (slice (20 * k) 20 data) = 20) by (apply length_slice; lia).
    rewrite drop_ge by lia. by rewrite app_nil_r.
  - assert (n = 0) as -> by lia. by rewrite slice_nil, put_nil.
Qed.

Lemma wp_lookup_loop fuel s q i name e k :
  dir_inode s q i → length e = 20%nat →
  let data := file_data s (i_data i) in
  0 ≤ k ≤ entry_count data → (Z.to_nat (entry_count data - k) < fuel)%nat →
  wp (lookup_loop fuel q name e (20 * k)) (λ r s', quiet s s' ∧
    r = (λ j, (entry data j, 20 * j)) <$> find_from (names data name) (Z.to_nat (entry_count data - k)) k) s.
Proof.
  revert s e k. induction fuel as [|fuel IH]; intros s e k Hdi Hle data Hk Hfuel; [lia|].
  cbn [lookup_loop]. pose proof (dir_inode_count s q i Hdi) as (Hdl & Hcnt & Hc0).
  fold data in Hdl, Hcnt, Hc0. wp_step.
  eapply wp_mono; [by apply wp_read_entry|]. intros [full e'] s1 [Hq Hr]. fold data in Hr.
  case_decide as Hlt; injection Hr as -> ->; cbn [negb].
  - replace (Z.to_nat (entry_count data - k)) with (S (Z.to_nat (entry_count data - (k + 1)))) by lia.
    cbn [find_from]. fold (entry data k). fold (names data name k).
    destruct (names data name k).
    + wp_step. by split.
    + pose proof (di_small _ _ _ Hdi). unfold sizeof_dir_entry.
      rewrite wrap32_small by lia. replace (20 * k + 20) with (20 * (k + 1)) by lia.
      eapply wp_mono; [apply IH|].
      * by eapply dir_inode_quiet.
      * apply Nat2Z.inj. rewrite length_slice; lia.
      * rewrite (file_data_quiet s) by done. fold data. lia.
      * rewrite (file_data_quiet s) by done. fold data. lia.
      * intros r s2 [Hq2 ->]. rewrite (file_data_quiet s) by done. fold data.
        split; [by eapply quiet_trans|done].
  - wp_step. split; [done|]. by replace (Z.to_nat (entry_count data - k)) with O by lia.
Qed.

Lemma wp_free_slot_loop fuel s q i e k :
  dir_inode s q i → length e = 20%nat →
  let data := file_data s (i_data i) in
  0 ≤ k ≤ entry_count data → (Z.to_nat (entry_count data - k) < fuel)%nat →
  wp (free_slot_loop fuel q e (20 * k)) (λ r s', quiet s s' ∧ length r.1 = 20%nat ∧
    (bytes e → bytes (contents (fs_device s)) → bytes r.1) ∧
    r.2 = 20 * default (entry_count data)
            (find_from (slot_free data) (Z.to_nat (entry_count data - k)) k)) s.
Proof.
  revert s e k. induction fuel as [|fuel IH]; intros s e k Hdi Hle data Hk Hfuel; [lia|].
  cbn [free_slot_loop]. pose proof (dir_inode_count s q i Hdi) as (Hdl & Hcnt & Hc0).
  fold data in Hdl, Hcnt, Hc0. wp_step.
  eapply wp_mono; [by apply wp_read_entry|]. intros [full e'] s1 [Hq Hr]. fold data in Hr.
  case_decide as Hlt; injection Hr as -> ->; cbn [negb].
  - replace (Z.to_nat (entry_count data - k)) with (S (Z.to_nat (entry_count data - (k + 1)))) by lia.
    cbn [find_from]. fold (entry data k). fold (slot_free data k).
    assert (length (slice (20 * k) 20 data) = 20%nat) as Hls by (apply Nat2Z.inj; rewrite length_slice; lia).
    assert (bytes (contents (fs_device s)) → bytes (slice (20 * k) 20 data)) as Hbs
      by (intros; do 2 apply Forall_slice; done).
    destruct (slot_free data k).
    + wp_step. by split_and!.
    + pose proof (di_small _ _ _ Hdi). unfold sizeof_dir_entry.
      rewrite int32_small by lia. replace (20 * k + 20) with (20 * (k + 1)) by lia.
      eapply wp_mono; [apply IH|].
      * by eapply dir_inode_quiet.
      * done.
      * rewrite (file_data_quiet s) by done. fold data. lia.
      * rewrite (file_data_quiet s) by done. fold data. lia.
      * intros r s2 (Hq2 & Hl2 & Hb2 & ->). rewrite (file_data_quiet s) by done. fold data.
        rewrite (ds_contents _ _ _ Hq) in Hb2.
        split_and!; [by eapply quiet_trans|done|auto|done].
  - wp_step. replace (Z.to_nat (entry_count data - k)) with O by lia. simpl.
    split_and!; [done..|lia].
Qed.

(** [dir_call s p d i]: [p] is an open directory on inode [i]. *)
Record dir_call (s : fs) (p : Z) (d : dir) (i : inode) : Prop := {
  dc_nonnull : p ≠ NULL;
  dc_dir : dirs s !! p = Some d;
  dc_inode : dir_inode s (d_inode d) i
}.

Lemma dir_call_quiet s s' p d i : quiet s s' → dir_call s p d i → dir_call s' p d i.
Proof.
  intros Hq []. constructor; [done|by rewrite (ds_dirs _ _ _ Hq)|by eapply dir_inode_quiet].
Qed.

Lemma dir_fuel_enough s q i k : dir_inode s q i → 0 ≤ k →
  (Z.to_nat (entry_count (file_data s (i_data i)) - k) < dir_fuel s)%nat.
Proof.
  intros Hdi Hk. pose proof (dir_inode_count s q i Hdi) as (_ & Hcnt & Hc0).
  destruct Hdi as [_ _ [? ? ?] _ _ _ _]. unfold dir_fuel. lia.
Qed.

Lemma wp_lookup s p d i name :
  dir_call s p d i → let data := file_data s (i_data i) in
  wp (lookup p name) (λ r s', quiet s s' ∧
    r = (λ j, (entry data j, 20 * j)) <$> dir_index data name) s.
Proof.
  intros [Hp Hd Hdi] data. pose proof (dir_inode_count s _ i Hdi) as (_ & _ & Hc0).
  unfold lookup. wp_step. wp_step; [by rewrite (proj2 (Z.eqb_neq _ _) Hp)|].
  wp_step. eapply wp_dir_at; [done|]. wp_step. wp_step.
  eapply wp_mono; [apply (wp_lookup_loop _ s _ i name e0 0)|]; [done|done|lia| |].
  - by eapply dir_fuel_enough.
  - intros r s' [Hq ->]. split; [done|]. unfold dir_index. by rewrite Z.sub_0_r.
Qed.

(** Writing one entry, at a slot or at the end of the directory, where there
    is no room. *)
Lemma wp_write_entry s q i e k :
  dir_inode s q i → deny_write_cnt i = 0 → entry_ok e →
  let data := file_data s (i_data i) in
  0 ≤ k ≤ entry_count data →
  wp (inode_write_at q (encode_dir_entry e) sizeof_dir_entry (20 * k)) (λ n s',
    (∃ c, dev_step c s s') ∧ dev_ok (fs_device s') ∧ same_outside s s' i ∧
    if decide (k < entry_count data)
    then n = 20 ∧ file_data s' (i_data i) = put (20 * k) (encode_dir_entry e) data
    else n = 0 ∧ file_data s' (i_data i) = data) s.
Proof.
  intros Hdi Hdeny He data Hk. pose proof (dir_inode_count s q i Hdi) as (Hdl & Hcnt & Hc0).
  fold data in Hdl, Hcnt, Hc0. destruct Hdi as [Hi Hok Hpl Ha Hno Hw Hsm].
  pose proof (length_encode_dir_entry e (eo_name _ He)) as Hle. unfold sizeof_dir_entry.
  eapply wp_mono; [apply (wp_inode_write_at q i (encode_dir_entry e) 20 (20 * k))|].
  { constructor; try done; lia. } { by apply encode_dir_entry_bytes, He. }
  intros n s'. cbv beta. rewrite decide_True by done. intros (Hst & _ & Hn). specialize (Hn Hno).
  assert (n = if decide (k < entry_count data) then 20 else 0) as ->
    by (unfold io_count in Hn; case_decide; lia).
  split; [by eexists|]. case_decide.
  - split_and!; [| |done|].
    + apply (dev_ok_written s s' (i_data i) (encode_dir_entry e) 0 (20 * k) 20); try done; try lia.
      by apply encode_dir_entry_bytes, He.
    + intros o m ???. rewrite (ds_contents _ _ _ Hst). unfold written, data_ofs in *.
      destruct Hpl. pose proof (dev_len _ Hok).
      apply slice_put_disjoint; rewrite ?length_slice; lia.
    + rewrite (file_data_written s s' (i_data i) (encode_dir_entry e) (20 * k) 20); try done; try lia.
      f_equal. rewrite <- (slice_all (encode_dir_entry e)) at 2. f_equal. lia.
  - unfold written in Hst. rewrite slice_nil, put_nil in Hst.
    split_and!; [by eapply dev_ok_quiet| |done|by apply file_data_quiet].
    intros o m ???. by rewrite (ds_contents _ _ _ Hst).
Qed.

Lemma same_outside_quiet s s1 s2 i : quiet s s1 → same_outside s1 s2 i → same_outside s s2 i.
Proof. intros Hq Ho o n ???. rewrite Ho by done. by rewrite (ds_contents _ _ _ Hq). Qed.

(** What [dir_add] does to the directory with contents [data]. *)
Definition added (data name : list Z) (sector : Z) (ok : bool) (data' : list Z) : Prop :=
  if decide (dir_index data name = None ∧ free_slot data ≠ None)
  then ok = true ∧
       (∀ n, dir_map data' n = if decide (n = name) then Some sector else dir_map data n) ∧
       (dir_unique data → dir_unique data')
  else ok = false ∧ data' = data.

Lemma wp_dir_add s p d i name sector :
  dir_call s p d i → deny_write_cnt i = 0 → name_ok name → 0 ≤ sector < 2 ^ 32 →
  let data := file_data s (i_data i) in
  wp (dir_add p name sector) (λ ok s',
    (∃ c, dev_step c s s') ∧ dev_ok (fs_device s') ∧ same_outside s s' i ∧
    added data name sector ok (file_data s' (i_data i))) s.
Proof.
  intros Hdc Hdeny Hname Hsec data. pose proof Hdc as [Hp Hd Hdi].
  unfold dir_add. wp_step. wp_step; [by rewrite (proj2 (Z.eqb_neq _ _) Hp)|].
  pose proof (no_len _ Hname) as Hlen.
  replace ((len name =? 0) || (NAME_MAX <? len name)) with false by (unfold NAME_MAX in *; lia).
  wp_step. eapply wp_mono; [by eapply wp_lookup|]. intros found s1 [Hq1 ->]. fold data.
  unfold added. pose proof (di_dev _ _ _ Hdi) as Hok.
  destruct (dir_index data name) as [j|] eqn:Hidx; fmap_simpl.
  { wp_step. rewrite decide_False by naive_solver.
    split_and!; [by eexists|by eapply dev_ok_quiet| |done|by apply file_data_quiet].
    intros o n ???. by rewrite (ds_contents _ _ _ Hq1). }
  pose proof (dir_call_quiet _ _ _ _ _ Hq1 Hdc) as [_ Hd1 Hdi1].
  wp_step. eapply wp_dir_at; [done|]. wp_step. wp_step. wp_step.
  pose proof (dir_inode_count s _ i Hdi) as (Hdl & Hcnt & Hc0). fold data in Hdl, Hcnt, Hc0.
  eapply wp_mono; [apply (wp_free_slot_loop _ s1 _ i e0 0)|].
  { done. } { done. } { rewrite (file_data_quiet s) by done. fold data. lia. }
  { by eapply dir_fuel_enough. }
  intros [e ofs] s2 (Hq2 & Hle & Hbe & Hofs). cbn [fst snd] in Hle, Hbe, Hofs.
  rewrite (file_data_quiet s) in Hofs by done. fold data in Hofs. rewrite Z.sub_0_r in Hofs.
  fold (free_slot data) in Hofs.
  assert (quiet s s2) as Hq by (by eapply quiet_trans).
  assert (bytes e) as Hbe'.
  { apply Hbe; [|apply Hdi1]. apply Forall_replicate. unfold is_byte. lia. }
  destruct (strlcpy_name_spec name (de_name (decode_dir_entry e)) Hname) as (Hcs & Hnl & Hnb).
  { simpl. apply Nat2Z.inj. rewrite length_slice; lia. } { by apply Forall_slice. }
  set (e' := mk_dir_entry sector (strlcpy_name name (de_name (decode_dir_entry e))) true) in *.
  assert (entry_ok e') as He' by (by constructor).
  assert (0 ≤ default (entry_count data) (free_slot data) ≤ entry_count data) as Hslot.
  { destruct (free_slot data) as [k|] eqn:Hfs; simpl; [|lia]. apply find_from_Some in Hfs. lia. }
  assert (file_data s2 (i_data i) = data) as Hfd by (by apply file_data_quiet).
  wp_step. subst ofs. eapply wp_mono; [apply (wp_write_entry s2 (d_inode d) i e')|];
    [by eapply dir_inode_quiet|done|done|by rewrite Hfd|].
  intros n s3 ([c Hst] & Hok3 & Hout & Hres). rewrite Hfd in Hres. wp_step.
  split_and!; [exists c; by eapply dev_step_trans|done|by eapply same_outside_quiet|].
  destruct (free_slot data) as [k|] eqn:Hfs; simpl default in *.
  - apply find_from_Some in Hfs as (Hk & Hfree & _). rewrite decide_True in Hres by lia.
    destruct Hres as [-> ->]. rewrite decide_True by naive_solver. split; [done|].
    apply dir_map_add; try done; lia.
  - rewrite decide_False in Hres by lia. destruct Hres as [-> ->]. by rewrite decide_False by naive_solver.
Qed.

(** ** Removing a name *)

(** The data of a directory and of the free map file do not overlap. *)
Definition apart (i j : inode) : Prop :=
  data_ofs (i_data i) + id_length (i_data i) ≤ data_ofs (i_data j) ∨
  data_ofs (i_data j) + id_length (i_data j) ≤ data_ofs (i_data i).

Definition with_removed (i : inode) : inode :=
  mk_inode (i_sector i) (open_cnt i) true (deny_write_cnt i) (i_data i).

(** The inode a sector holds when nobody has it open, as the last closer of a
    removed file sees it. *)
Definition disk_inode_removed (s : fs) (sector : Z) : inode :=
  mk_inode sector 1 true 0
    (decode_inode_disk (slice (512 * sector) 512 (contents (fs_device s)))).

(** What becomes of the file that the removed name stood for: it stays, marked
    as removed, while it is open; otherwise its sectors are free. *)
Definition file_removed (s : fs) (sector : Z) (s' : fs) : Prop :=
  (∃ q t, inodes s !! q = Some t ∧ i_sector t = sector ∧
     inodes s' = <[q := with_removed t]> (inodes s) ∧ free_map s' = free_map s) ∨
  ((∀ q t, inodes s !! q = Some t → i_sector t ≠ sector) ∧ inodes s' = inodes s ∧
   ∀ k, 0 ≤ k → bit (free_map s') k =
     if decide (owns (disk_inode_removed s sector) k) then false else bit (free_map s) k).

Lemma entry_from_disk s q i k : dir_inode s q i →
  let data := file_data s (i_data i) in
  0 ≤ k < entry_count data → ∀ u, entry_ok (mk_dir_entry (de_sector (entry data k)) (de_name (entry data k)) u).
Proof.
  intros Hdi data Hk u. pose proof (dir_inode_count s q i Hdi) as (Hdl & Hcnt & _).
  fold data in Hdl, Hcnt. pose proof (dev_bytes _ (di_dev _ _ _ Hdi)) as Hb.
  assert (len (slice (20 * k) 20 data) = 20) as Hl by (apply length_slice; lia).
  assert (bytes (slice (20 * k) 20 data)) as Hbs by (do 2 apply Forall_slice; done).
  constructor; simpl.
  - apply of_le32_range; [apply Nat2Z.inj; rewrite length_slice; lia|by apply Forall_slice].
  - apply Nat2Z.inj. rewrite length_slice; lia.
  - by apply Forall_slice.
Qed.

Lemma same_outside_data s s' i j : placed (fs_device s) (i_data i) →
  same_outside s s' j → apart i j → file_data s' (i_data i) = file_data s (i_data i).
Proof. intros [] Hout Hap. unfold file_data. apply Hout; unfold apart, data_ofs in *; lia. Qed.

(** Marking an inode removed and closing it: the end of [dir_remove]. *)
Lemma remove_close_shared s q t :
  q ≠ NULL → inodes s !! q = Some t → 1 < open_cnt t < 2 ^ 31 →
  wp (inode_remove q ;; inode_close q ;; mret true) (λ ok s', ok = true ∧
    s' = set_inodes (<[q := with_open_cnt (open_cnt t - 1) (with_removed t)]> (inodes s)) s) s.
Proof.
  intros Hq Ht Hc. unfold inode_remove. wp_step. wp_step. wp_step; [by rewrite (proj2 (Z.eqb_neq _ _) Hq)|].
  wp_step. eapply wp_inode_at; [done|]. fs_step. wp_step.
  unfold wp. rewrite (inode_close_shared _ q (with_removed t)); [|done|by simplify_map_eq/=|done].
  simpl. split; [done|]. by rewrite insert_insert_eq.
Qed.

Lemma remove_close_last s q t f j :
  q ≠ NULL → inodes s !! q = Some t → open_cnt t = 1 → fm_ok s f j → q ≠ f_inode f →
  releasable (free_map s) (with_removed t) →
  wp (inode_remove q ;; inode_close q ;; mret true) (λ ok s', ok = true ∧
    inode_released (set_inodes (<[q := with_removed t]> (inodes s)) s) f j q (with_removed t) s') s.
Proof.
  intros Hq Ht Hc Hfm Hqf Hre. unfold inode_remove. wp_step. wp_step.
  wp_step; [by rewrite (proj2 (Z.eqb_neq _ _) Hq)|].
  wp_step. eapply wp_inode_at; [done|]. fs_step. wp_step.
  change (mk_inode _ _ _ _ _) with (with_removed t).
  destruct (inode_close_releases (set_inodes (<[q := with_removed t]> (inodes s)) s) f j q (with_removed t))
    as (s' & Hrun & Hrel); try done.
  - replace (set_inodes (<[q:=with_removed t]> (inodes s)) s) with
      (set_inodes (<[q:=with_removed t]> (inodes s)) (set_open_inodes (open_inodes s) s)) by (by destruct s).
    apply fm_ok_inodes; [done|]. rewrite lookup_insert_ne by done. apply Hfm.
  - by simplify_map_eq/=.
  - unfold wp. rewrite Hrun. by split.
Qed.

Lemma fm_ok_dev c s s' f j : fm_ok s f j → dev_step c s s' → dev_ok (fs_device s') → fm_ok s' f j.
Proof.
  intros Hfm Hst. apply (fm_ok_step c (free_map s) s); [done|apply Hfm|done|]. by destruct s.
Qed.

Lemma dir_inode_objects s q i m os : dir_inode s q i → m !! q = Some i →
  dir_inode (set_inodes m (set_open_inodes os s)) q i.
Proof. intros [] Hm. by constructor. Qed.

Lemma set_open_inodes_id s : set_open_inodes (open_inodes s) s = s.
Proof. by destruct s. Qed.

(** Erasing the entry of [name] in the directory, the file having been opened
    at [q]. *)
Lemma wp_erase_entry s p d i name k :
  dir_call s p d i → deny_write_cnt i = 0 →
  let data := file_data s (i_data i) in
  dir_index data name = Some k → dir_unique data →
  wp (inode_write_at (d_inode d)
        (encode_dir_entry (mk_dir_entry (de_sector (entry data k)) (de_name (entry data k)) false))
        sizeof_dir_entry (20 * k)) (λ n s',
    n = 20 ∧ (∃ c, dev_step c s s') ∧ dev_ok (fs_device s') ∧ same_outside s s' i ∧
    (∀ n, dir_map (file_data s' (i_data i)) n = if decide (n = name) then None else dir_map data n) ∧
    dir_unique (file_data s' (i_data i))) s.
Proof.
  intros [Hp Hd Hdi] Hdeny data Hidx Huniq.
  pose proof (proj1 (find_from_Some _ _ _ _) Hidx) as (Hk & _).
  assert (0 ≤ k < entry_count data) as Hk' by lia.
  pose proof (entry_from_disk s _ i k Hdi Hk' false) as He. fold data in He.
  eapply wp_mono; [apply (wp_write_entry s (d_inode d) i _ k Hdi Hdeny He); fold data; lia|].
  intros n s' (Hst & Hok & Hout & Hres). fold data in Hres. rewrite decide_True in Hres by lia.
  destruct Hres as [-> ->]. do 4 (split; [done|]). by apply dir_map_remove.
Qed.

(** The outcome of [dir_remove] when the name is there. *)
Definition name_removed (s : fs) (i : inode) (name : list Z) (sector : Z) (s' : fs) : Prop :=
  (∀ n, dir_map (file_data s' (i_data i)) n =
     if decide (n = name) then None else dir_map (file_data s (i_data i)) n) ∧
  dir_unique (file_data s' (i_data i)) ∧ dirs s' = dirs s ∧ files s' = files s ∧
  file_removed s sector s'.

(** The two ways the opened file is closed again, from the state [s1] after
    [inode_open], where [q] is the file. *)
Lemma wp_remove_opened s s1 p d i f j name k q :
  dir_call s p d i → deny_write_cnt i = 0 → itable s → fm_ok s f j → apart i j →
  dir_unique (file_data s (i_data i)) → dir_index (file_data s (i_data i)) name = Some k →
  let sector := de_sector (entry (file_data s (i_data i)) k) in
  sector ≠ i_sector i →
  ((∀ r t, inodes s !! r = Some t → i_sector t ≠ sector) →
   releasable (free_map s) (disk_inode_removed s sector)) →
  (∀ r t, inodes s !! r = Some t → open_cnt t + 1 < 2 ^ 31) →
  inode_opened s sector q s1 → q ≠ NULL → 
  wp (n ← inode_write_at (d_inode d)
        (encode_dir_entry (mk_dir_entry sector (de_name (entry (file_data s (i_data i)) k)) false))
        sizeof_dir_entry (20 * k);
      if negb (n =? sizeof_dir_entry) then inode_close q ;; mret false else
      inode_remove q ;; inode_close q ;; mret true) (λ ok s', ok = true ∧
    name_removed s i name sector s') s1.
Proof.
  intros Hdc Hdeny Hit Hfm Hap Huniq Hidx sector Hself Hrel Hcnt Hop Hq.
  pose proof Hdc as [Hp Hd Hdi]. pose proof (di_inode _ _ _ Hdi) as Hii.
  destruct Hop as [(t & Ht & Hts & ->)|[(_ & ? & _)|(Hno & -> & _ & Hnone & Hfresh & s0 & Hq0 & Hlt & ->)]];
    [|done|].
  - set (t1 := with_open_cnt (open_cnt t + 1) t).
    set (s1 := set_inodes (<[q := t1]> (inodes s)) s) in *.
    assert (q ≠ d_inode d) as Hqd by (intros ->; simplify_map_eq; congruence).
    assert (dir_call s1 p d i) as Hdc1.
    { constructor; [done..|]. unfold s1. rewrite <- (set_open_inodes_id s) at 2.
      apply dir_inode_objects; [done|]. by rewrite lookup_insert_ne. }
    wp_step. eapply wp_mono; [by apply (wp_erase_entry s1 p d i name k)|].
    intros n s2 (-> & [c Hst] & Hok2 & Hout & Hmap & Huniq2). simpl.
    pose proof (it_cnt _ Hit _ _ Ht) as [? _]. pose proof (Hcnt _ _ Ht).
    eapply wp_mono; [apply (remove_close_shared s2 q t1)|].
    { done. } { rewrite (ds_inodes _ _ _ Hst). by simplify_map_eq/=. } { simpl. lia. }
    intros ok s' [-> ->]. split; [done|]. destruct Hst as [_ _ _ Hin _ Hfi Hdi' Hfree _ _ _].
    split_and!; try done. left. exists q, t. split_and!; try done. simpl.
    rewrite Hin. simpl. rewrite insert_insert_eq. f_equal.
    unfold with_open_cnt, with_removed; simpl. by rewrite Z.add_simpl_r.
  - set (q := next_addr s) in *. set (t := mk_inode _ _ _ _ _).
    set (s1 := set_inodes (<[q := t]> (inodes s)) (set_open_inodes (q :: open_inodes s) s0)) in *.
    pose proof (fm_inode _ _ _ Hfm) as Hji.
    assert (q ≠ d_inode d) as Hqd by congruence.
    assert (q ≠ f_inode f) as Hqf by congruence.
    assert (dir_call s1 p d i) as Hdc1.
    { constructor; [done|simpl; by rewrite (ds_dirs _ _ _ Hq0)|].
      apply dir_inode_objects; [by eapply dir_inode_quiet|by rewrite lookup_insert_ne]. }
    assert (fm_ok s1 f j) as Hfm1.
    { apply fm_ok_inodes; [|by rewrite lookup_insert_ne].
      eapply fm_ok_dev; [done..|]. eapply dev_ok_quiet; [apply Hfm|done]. }
    assert (file_data s1 (i_data i) = file_data s (i_data i)) as Hfd by (by apply (file_data_quiet s s0)).
    pose proof (wp_erase_entry s1 p d i name k Hdc1 Hdeny) as Herase.
    cbv zeta in Herase. rewrite Hfd in Herase. specialize (Herase Hidx Huniq).
    wp_step. eapply wp_mono; [exact Herase|].
    intros n s2 (-> & [c Hst] & Hok2 & Hout & Hmap & Huniq2).
    change (negb (20 =? sizeof_dir_entry)) with false. cbv iota.
    pose proof (fm_ok_dev c s1 s2 f j Hfm1 Hst Hok2) as Hfm2.
    pose proof (ds_free_map _ _ _ Hst) as Hfree. simpl in Hfree.
    rewrite (ds_free_map _ _ _ Hq0) in Hfree.
    eapply wp_mono; [apply (remove_close_last s2 q t f j)|]; try done.
    { rewrite (ds_inodes _ _ _ Hst). by simplify_map_eq/=. } { rewrite Hfree. by apply Hrel. }
    intros ok s' [-> [Hfmr _ Hin _ Hfi Hdi' Hout' Hbits]]. split; [done|].
    assert (file_data s' (i_data i) = file_data s2 (i_data i)) as Hfd2.
    { apply (same_outside_data s2 s' i j); [|exact Hout'|done].
      eapply placed_step; [done|]. apply Hdc1. }
    unfold name_removed. rewrite Hfd2. simpl in Hin, Hfi, Hdi', Hbits.
    split_and!; try done.
    { rewrite Hdi', (ds_dirs _ _ _ Hst). simpl. by rewrite (ds_dirs _ _ _ Hq0). }
    { rewrite Hfi, (ds_files _ _ _ Hst). simpl. by rewrite (ds_files _ _ _ Hq0). }
    right. split; [done|]. split.
    + rewrite Hin, (ds_inodes _ _ _ Hst). simpl.
      rewrite delete_insert_eq, delete_insert_eq. by rewrite delete_id.
    + intros m Hm. rewrite Hbits by done. rewrite Hfree. done.
Qed.

Lemma wp_dir_remove s p d i f j name :
  dir_call s p d i → deny_write_cnt i = 0 → itable s → fm_ok s f j → apart i j →
  let data := file_data s (i_data i) in
  dir_unique data →
  (∀ r t, inodes s !! r = Some t → open_cnt t + 1 < 2 ^ 31) →
  (∀ k, dir_index data name = Some k →
     let sector := de_sector (entry data k) in
     sector ≠ i_sector i ∧ sector < bsize (fs_device s) ∧
     ((∀ r t, inodes s !! r = Some t → i_sector t ≠ sector) →
      releasable (free_map s) (disk_inode_removed s sector))) →
  wp (dir_remove p name) (λ ok s',
    match dir_index data name with
    | None => ok = false ∧ quiet s s'
    | Some k => ok = true ∧ ∃ s1, quiet s s1 ∧
                name_removed s1 i name (de_sector (entry data k)) s'
    end) s.
Proof.
  intros Hdc Hdeny Hit Hfm Hap data Huniq Hcnt Htarget. pose proof Hdc as [Hp Hd Hdi].
  unfold dir_remove. wp_step. wp_step; [by rewrite (proj2 (Z.eqb_neq _ _) Hp)|].
  wp_step. eapply wp_mono; [by eapply wp_lookup|]. intros found s1 [Hq1 ->]. fold data.
  pose proof (file_data_quiet s s1 (i_data i) Hq1) as Hfd. fold data in Hfd.
  destruct (dir_index data name) as [k|] eqn:Hidx; fmap_simpl.
  - destruct (Htarget k eq_refl) as (Hself & Hsec & Hrel).
    wp_step. eapply wp_mono; [apply (wp_inode_open _ s1)|].
    { by eapply itable_step. } { by rewrite (ds_bsize _ _ _ Hq1). }
    { rewrite (ds_inodes _ _ _ Hq1). exact Hcnt. }
    intros q s2 [_ Hop]. assert (q ≠ NULL) as Hq.
    { destruct Hop as [(t & Ht & _ & _)|[(_ & _ & Ho & _)|(_ & _ & Hq & _)]]; [|by rewrite (no_oom_step _ _ _ Hq1 (di_oom _ _ _ Hdi)) in Ho|done].
      rewrite (ds_inodes _ _ _ Hq1) in Ht. pose proof (it_addr _ Hit q ltac:(eauto)). lia. }
    rewrite (proj2 (Z.eqb_neq _ _) Hq). wp_step.
    eapply wp_dir_at.
    { assert (dirs s2 = dirs s1) as ->; [|by rewrite (ds_dirs _ _ _ Hq1)].
      destruct Hop as [(t & _ & _ & ->)|[(_ & ? & _)|(_ & _ & _ & _ & _ & s0 & Hq0 & _ & ->)]];
        [done|done|]. simpl. apply (ds_dirs _ _ _ Hq0). }
    pose proof (wp_remove_opened s1 s2 p d i f j name k q) as Hrm. cbv zeta in Hrm.
    rewrite Hfd, (ds_inodes _ _ _ Hq1), (ds_free_map _ _ _ Hq1) in Hrm.
    eapply wp_mono; [apply Hrm; try done|].
    + by eapply dir_call_quiet.
    + by eapply itable_step.
    + eapply fm_ok_dev; [done..|]. eapply dev_ok_quiet; [apply Hfm|done].
    + unfold disk_inode_removed. by rewrite (ds_contents _ _ _ Hq1).
    + intros ok s' [-> Hrem]. split; [done|]. by exists s1.
  - wp_step. unfold inode_close. rewrite Z.eqb_refl. wp_step. by wp_step.
Qed.

(** C13: Adding a name to a directory, on every branch.  With memory available
    [dir_add] returns true exactly when the name is new and there is a free
    slot; then the directory maps the name to the given sector and every
    other name to what it was mapped to, names stay unique, and a following
    [lookup] finds the sector.  Otherwise the directory is unchanged.  Nothing
    outside the directory's data changes on the device.  Invalid names are
    refused. *)
Theorem dir_add_correct s p d i name sector :
  dir_call s p d i → deny_write_cnt i = 0 → Forall (λ c, 0 < c < 256) name → 0 ≤ sector < 2 ^ 32 →
  let data := file_data s (i_data i) in
  if decide (0 < len name ≤ NAME_MAX) then
    ∃ ok s' c, dir_add p name sector s = Ok (ok, s') ∧ dev_step c s s' ∧
      same_outside s s' i ∧ added data name sector ok (file_data s' (i_data i)) ∧
      (ok = true → ∃ e ofs s'', lookup p name s' = Ok (Some (e, ofs), s'') ∧ de_sector e = sector)
  else dir_add p name sector s = Ok (false, s).
Proof.
  intros Hdc Hdeny Hname Hsec data. pose proof Hdc as [Hp Hd Hdi]. case_decide as Hlen.
  - pose proof (wp_dir_add s p d i name sector Hdc Hdeny ltac:(by constructor) Hsec)
      as (ok & s' & Hrun & [c Hst] & Hok' & Hout & Hadd)%wp_Ok.
    exists ok, s', c. do 4 (split; [done|]). intros ->. unfold added in Hadd.
    case_decide as Hcase; [|by destruct Hadd].
    destruct Hadd as (_ & Hmap & _). specialize (Hmap name). rewrite decide_True in Hmap by done.
    assert (dir_call s' p d i) as Hdc'.
    { constructor; [done|by rewrite (ds_dirs _ _ _ Hst)|]. destruct Hdi.
      pose proof (ds_addr _ _ _ Hst). constructor; eauto with cmodel; try lia.
      by rewrite (ds_inodes _ _ _ Hst). }
    pose proof (wp_lookup s' p d i name Hdc') as (r & s'' & Hlk & _ & ->)%wp_Ok.
    unfold dir_map in Hmap. destruct (dir_index (file_data s' (i_data i)) name) as [k|]; [|done].
    injection Hmap as Hk. eexists _, _, s''. split; [exact Hlk|]. exact Hk.
  - unfold dir_add, mbind, M_bind, ASSERT. rewrite (proj2 (Z.eqb_neq _ _) Hp). cbn [negb].
    by replace ((len name =? 0) || (NAME_MAX <? len name)) with true by (unfold NAME_MAX in *; lia).
Qed.

(** C14: Removing a name from a directory.  [dir_remove] returns false and
    changes nothing when the name is not there; otherwise the name disappears
    from the directory and from it only, and the file goes: while somebody
    has it open its inode is only marked removed, and if nobody has, its
    inode sector and its data sectors become free. *)
Theorem dir_remove_correct s p d i f j name :
  dir_call s p d i → deny_write_cnt i = 0 → itable s → fm_ok s f j → apart i j →
  let data := file_data s (i_data i) in
  dir_unique data →
  (∀ r t, inodes s !! r = Some t → open_cnt t + 1 < 2 ^ 31) →
  (∀ k, dir_index data name = Some k →
     let sector := de_sector (entry data k) in
     sector ≠ i_sector i ∧ sector < bsize (fs_device s) ∧
     ((∀ r t, inodes s !! r = Some t → i_sector t ≠ sector) →
      releasable (free_map s) (disk_inode_removed s sector))) →
  match dir_index data name with
  | None => ∃ s', dir_remove p name s = Ok (false, s') ∧ quiet s s'
  | Some k => ∃ s1 s', dir_remove p name s = Ok (true, s') ∧ quiet s s1 ∧
                name_removed s1 i name (de_sector (entry data k)) s'
  end.
Proof.
  intros Hdc Hdeny Hit Hfm Hap data Huniq Hcnt Htarget.
  pose proof (wp_dir_remove s p d i f j name Hdc Hdeny Hit Hfm Hap Huniq Hcnt Htarget)
    as (ok & s' & Hrun & Hres)%wp_Ok. fold data in Hres.
  destruct (dir_index data name) as [k|].
  - destruct Hres as [-> (s1 & ? & ?)]. by exists s1, s'.
  - destruct Hres as [-> ?]. by exists s'.
Qed.

(** ** An example directory

    The example file system with a directory of 16 entries in sector 6, open
    as [15] on the inode [14]; its first entry names the file of sector 3,
    which is open. *)
Definition example_dir_inode : inode :=
  mk_inode 1 1 false 0 (mk_inode_disk 6 320 INODE_MAGIC (replicate 125 0)).
Definition example_entry : dir_entry := mk_dir_entry 3 (97 :: replicate 14 0) true.
Definition example_dir_fs : fs :=
  mk_fs (mk_block BLOCK_FILESYS 40
           (put 3072 (encode_dir_entry example_entry) (replicate (Z.to_nat 20480) 0)) 0 0)
    (<[14 := example_dir_inode]> (<[10 := example_free_map_inode]> {[ 12 := example_inode ]}))
    [14; 12; 10] {[ 11 := example_file ]} {[ 15 := mk_dir 14 0 ]} (mk_bitmap 40 [127; 0]) 11
    (λ _, false) 0 20.

Lemma example_dir_dev : dev_ok (fs_device example_dir_fs).
Proof.
  unfold example_dir_fs. constructor; cbn [fs_device bsize contents btype]; [lia| | |done].
  - rewrite length_put; rewrite ?length_replicate; rewrite ?length_encode_dir_entry by done; lia.
  - apply Forall_put.
    + apply encode_dir_entry_bytes. repeat (apply Forall_cons_2; [unfold is_byte; lia|]). apply Forall_nil_2.
    + apply Forall_replicate. unfold is_byte. lia.
Qed.

Lemma example_dir_call : dir_call example_dir_fs 15 (mk_dir 14 0) example_dir_inode.
Proof.
  constructor; [done|reflexivity|]. constructor; try reflexivity.
  - exact example_dir_dev.
  - constructor; simpl; lia.
  - intros n. reflexivity.
Qed.

Lemma dir_add_correct_witness :
  ∃ ok s' c, dir_add 15 [98] 7 example_dir_fs = Ok (ok, s') ∧ dev_step c example_dir_fs s' ∧
    same_outside example_dir_fs s' example_dir_inode ∧
    added (file_data example_dir_fs (i_data example_dir_inode)) [98] 7 ok
      (file_data s' (i_data example_dir_inode)) ∧
    (ok = true → ∃ e ofs s'', lookup 15 [98] s' = Ok (Some (e, ofs), s'') ∧ de_sector e = 7).
Proof.
  pose proof (dir_add_correct example_dir_fs 15 (mk_dir 14 0) example_dir_inode [98] 7
    example_dir_call eq_refl) as Hadd.
  assert (Forall (λ c, 0 < c < 256) [98]) as Hname by (apply Forall_cons_2; [lia|apply Forall_nil_2]).
  specialize (Hadd Hname ltac:(lia)). cbv zeta in Hadd.
  rewrite decide_True in Hadd; [exact Hadd|]. unfold NAME_MAX. simpl. lia.
Defined.

Example dir_add_example :
  match dir_add 15 [98] 7 example_dir_fs with
  | Ok (ok, s') => (ok, dir_map (file_data s' (i_data example_dir_inode)) [97],
                        dir_map (file_data s' (i_data example_dir_inode)) [98])
  | Err _ => (false, None, None)
  end = (true, Some 3, Some 7).
Proof. vm_compute. reflexivity. Qed.

Lemma example_dir_itable : itable example_dir_fs.
Proof.
  constructor.
  - apply (bool_decide_unpack _). reflexivity.
  - intros p. simpl. rewrite !elem_of_cons, elem_of_nil, !lookup_insert_is_Some, lookup_singleton_is_Some.
    destruct (decide (p = 14)), (decide (p = 10)); naive_solver.
  - intros p q i j. simpl. rewrite !lookup_insert_Some, !lookup_singleton_Some.
    intros [[<- <-]|[_ [[<- <-]|[_ [<- <-]]]]] [[<- <-]|[_ [[<- <-]|[_ [<- <-]]]]]; simpl; done.
  - intros p i. simpl. rewrite !lookup_insert_Some, !lookup_singleton_Some.
    intros [[<- <-]|[_ [[<- <-]|[_ [<- <-]]]]]; simpl; lia.
  - reflexivity.
  - intros p. simpl. rewrite !lookup_insert_is_Some, lookup_singleton_is_Some.
    intros [<-|[_ [<-|[_ <-]]]]; lia.
Qed.

Lemma example_dir_fm_ok : fm_ok example_dir_fs example_file example_free_map_inode.
Proof.
  constructor; try reflexivity; try done.
  - constructor; simpl; unfold ELEM_BITS; [lia..|].
    repeat (apply Forall_cons_2; [lia|]). apply Forall_nil_2.
  - exact example_dir_dev.
Qed.

Lemma example_dir_unique : dir_unique (file_data example_dir_fs (i_data example_dir_inode)).
Proof.
  set (data := file_data _ _).
  assert (∀ k, 0 < k < 16 → de_in_use (entry data k) = false) as Hfree.
  { intros k Hk. assert (∃ n : nat, k = Z.of_nat n ∧ (0 < n < 16)%nat) as (n & -> & Hn)
      by (exists (Z.to_nat k); lia).
    do 16 (destruct n as [|n]; [first [lia|vm_compute; reflexivity]|]). lia. }
  assert (entry_count data = 16) as Hc by (vm_compute; reflexivity).
  clearbody data. intros j k name. rewrite Hc. unfold names. intros Hj Hk.
  destruct (decide (j = 0)), (decide (k = 0)); subst; try done;
    rewrite ?(Hfree j), ?(Hfree k) by lia; done.
Qed.

Lemma dir_remove_correct_witness :
  ∃ s1 s', dir_remove 15 [97] example_dir_fs = Ok (true, s') ∧ quiet example_dir_fs s1 ∧
    name_removed s1 example_dir_inode [97] 3 s'.
Proof.
  assert (dir_index (file_data example_dir_fs (i_data example_dir_inode)) [97] = Some 0) as Hidx
    by (vm_compute; reflexivity).
  assert (de_sector (entry (file_data example_dir_fs (i_data example_dir_inode)) 0) = 3) as Hsec
    by (vm_compute; reflexivity).
  pose proof (dir_remove_correct example_dir_fs 15 (mk_dir 14 0) example_dir_inode example_file
    example_free_map_inode [97] example_dir_call eq_refl example_dir_itable example_dir_fm_ok) as Hrm.
  cbv zeta in Hrm. rewrite Hidx, Hsec in Hrm. apply Hrm.
  - right. unfold data_ofs. simpl. lia.
  - exact example_dir_unique.
  - intros r t. simpl. rewrite !lookup_insert_Some, lookup_singleton_Some.
    intros [[<- <-]|[_ [[<- <-]|[_ [<- <-]]]]]; simpl; lia.
  - intros k [= <-]. rewrite Hsec. split; [done|]. split; [reflexivity|].
    intros Hno. by destruct (Hno 12 example_inode).
Defined.

(** ** A leak in [filesys_create]

    The file system freshly formatted on a device of 40 sectors, with a file
    "a" of 700 bytes. *)
Definition blank_fs : fs :=
  mk_fs example_device ∅ [] ∅ ∅ (mk_bitmap 0 []) NULL (λ _, false) 0 1.

(** Whether the sectors 7, 8 and 9 are in use. *)
Definition sectors_7_to_9 (s : fs) : list bool := (λ k, bit (free_map s) k) <$> [7; 8; 9].

(** Creating a file under a name that is taken fails, as it should, but
    the data sectors [inode_create] has allocated are never released:
    [filesys_create] gives back the inode's sector only.  The sectors 8 and 9
    are free before the failing call and used after it, although the table
    of inodes is the same. *)
Theorem filesys_create_leak :
  match (filesys_init [0; 0] true ;; filesys_create [97] 700) blank_fs with
  | Ok (ok1, s1) =>
      match filesys_create [97] 700 s1 with
      | Ok (ok2, s2) =>
          ok1 = true ∧ ok2 = false ∧ sectors_7_to_9 s1 = [false; false; false] ∧
          sectors_7_to_9 s2 = [false; true; true] ∧ open_inodes s2 = open_inodes s1
      | Err _ => False
      end
  | Err _ => False
  end.
Proof. vm_compute. by split_and!. Qed.
