(* ===== verification/CString.v ===== *)
(** * Memory blocks and C strings ([lib/string.c])

    Memory is a finite map from addresses to bytes; a load from or a store to
    an address that is not mapped is a [BadAccess].  The loops that run to the
    end of a string are bounded by the number of mapped bytes, which no scan
    of consecutive addresses can exceed. *)
From S2P Require Import Prelude Bytes.

Abbreviation mem := (gmap Z Z).

Definition load (a : Z) : M mem Z := λ m,
  match m !! a with Some b => Ok (b, m) | None => Err BadAccess end.
Definition store (a b : Z) : M mem unit := λ m,
  match m !! a with Some _ => Ok (tt, <[a := b]> m) | None => Err BadAccess end.

(** More steps than there are mapped bytes. *)
Definition scan_fuel : M mem nat := gets (λ m, S (size m)).

(** ** Blocks *)

Fixpoint copy_up (n : nat) (dst src : Z) : M mem unit :=
  match n with
  | O => mret tt
  | S n => b ← load src; store dst b ;; copy_up n (dst + 1) (src + 1)
  end.

(** [*--dst = *--src]: [dst] and [src] are one past the next byte. *)
Fixpoint copy_down (n : nat) (dst src : Z) : M mem unit :=
  match n with
  | O => mret tt
  | S n => b ← load (src - 1); store (dst - 1) b ;; copy_down n (dst - 1) (src - 1)
  end.

Definition memcpy (dst src size : Z) : M mem Z :=
  ASSERT (negb (dst =? NULL) || (size =? 0)) ;;
  ASSERT (negb (src =? NULL) || (size =? 0)) ;;
  copy_up (Z.to_nat size) dst src ;;
  mret dst.

(** The loop that counts up moves [dst], which is what is returned. *)
Definition memmove (dst src size : Z) : M mem Z :=
  ASSERT (negb (dst =? NULL) || (size =? 0)) ;;
  ASSERT (negb (src =? NULL) || (size =? 0)) ;;
  if dst <? src then
    copy_up (Z.to_nat size) dst src ;; mret (dst + size)
  else
    copy_down (Z.to_nat size) (dst + size) (src + size) ;; mret (dst + size - size).

Fixpoint memcmp_loop (n : nat) (a b : Z) : M mem Z :=
  match n with
  | O => mret 0
  | S n =>
      x ← load a; y ← load b;
      if x =? y then memcmp_loop n (a + 1) (b + 1)
      else mret (if y <? x then 1 else -1)
  end.

Definition memcmp (a b size : Z) : M mem Z :=
  ASSERT (negb (a =? NULL) || (size =? 0)) ;;
  ASSERT (negb (b =? NULL) || (size =? 0)) ;;
  memcmp_loop (Z.to_nat size) a b.

Fixpoint memchr_loop (n : nat) (block ch : Z) : M mem Z :=
  match n with
  | O => mret NULL
  | S n => b ← load block; if b =? ch then mret block else memchr_loop n (block + 1) ch
  end.

Definition memchr (block ch size : Z) : M mem Z :=
  ASSERT (negb (block =? NULL) || (size =? 0)) ;;
  memchr_loop (Z.to_nat size) block (wrap8 ch).

Fixpoint memset_loop (n : nat) (dst value : Z) : M mem unit :=
  match n with
  | O => mret tt
  | S n => store dst value ;; memset_loop n (dst + 1) value
  end.

Definition memset (dst value size : Z) : M mem Z :=
  ASSERT (negb (dst =? NULL) || (size =? 0)) ;;
  memset_loop (Z.to_nat size) dst (wrap8 value) ;;
  mret dst.

(** ** Strings *)

Fixpoint strcmp_loop (fuel : nat) (a b : Z) : M mem Z :=
  match fuel with
  | O => throw OutOfFuel
  | S fuel =>
      x ← load a;
      if x =? 0 then y ← load b; mret (if x <? y then -1 else if y <? x then 1 else 0)
      else
        y ← load b;
        if x =? y then strcmp_loop fuel (a + 1) (b + 1)
        else mret (if x <? y then -1 else if y <? x then 1 else 0)
  end.

Definition strcmp (a b : Z) : M mem Z :=
  ASSERT (negb (a =? NULL)) ;;
  ASSERT (negb (b =? NULL)) ;;
  fuel ← scan_fuel; strcmp_loop fuel a b.

Fixpoint strchr_loop (fuel : nat) (string c : Z) : M mem Z :=
  match fuel with
  | O => throw OutOfFuel
  | S fuel =>
      x ← load string;
      if x =? c then mret string
      else if x =? 0 then mret NULL
      else strchr_loop fuel (string + 1) c
  end.

(** Bytes stand for the values of [char]: the comparison of two [char]s is
    that of their bytes. *)
Definition strchr (string c : Z) : M mem Z :=
  ASSERT (negb (string =? NULL)) ;;
  fuel ← scan_fuel; strchr_loop fuel string (wrap8 c).

(** The common loop of [strspn] and [strcspn]: [stop_when] is the outcome of
    [strchr] on which the loop ends. *)
Fixpoint span_loop (fuel : nat) (string set length : Z) (stop_when : bool) : M mem Z :=
  match fuel with
  | O => throw OutOfFuel
  | S fuel =>
      x ← load (string + length);
      if x =? 0 then mret length else
      r ← strchr set x;
      if Bool.eqb (negb (r =? NULL)) stop_when then mret length
      else span_loop fuel string set (length + 1) stop_when
  end.

Definition strcspn (string stop : Z) : M mem Z :=
  fuel ← scan_fuel; span_loop fuel string stop 0 true.

Definition strspn (string skip : Z) : M mem Z :=
  fuel ← scan_fuel; span_loop fuel string skip 0 false.

Fixpoint strpbrk_loop (fuel : nat) (string stop : Z) : M mem Z :=
  match fuel with
  | O => throw OutOfFuel
  | S fuel =>
      x ← load string;
      if x =? 0 then mret NULL else
      r ← strchr stop x;
      if r =? NULL then strpbrk_loop fuel (string + 1) stop else mret string
  end.

Definition strpbrk (string stop : Z) : M mem Z :=
  fuel ← scan_fuel; strpbrk_loop fuel string stop.

Fixpoint strrchr_loop (fuel : nat) (string c p : Z) : M mem Z :=
  match fuel with
  | O => throw OutOfFuel
  | S fuel =>
      x ← load string;
      if x =? 0 then mret p
      else strrchr_loop fuel (string + 1) c (if x =? c then string else p)
  end.

Definition strrchr (string c : Z) : M mem Z :=
  fuel ← scan_fuel; strrchr_loop fuel string (wrap8 c) NULL.

Fixpoint strlen_loop (fuel : nat) (p : Z) : M mem Z :=
  match fuel with
  | O => throw OutOfFuel
  | S fuel => x ← load p; if x =? 0 then mret p else strlen_loop fuel (p + 1)
  end.

Definition strlen (string : Z) : M mem Z :=
  ASSERT (negb (string =? NULL)) ;;
  fuel ← scan_fuel; p ← strlen_loop fuel string; mret (p - string).

(** The byte is loaded before the bound is tested. *)
Fixpoint strnlen_loop (fuel : nat) (string maxlen length : Z) : M mem Z :=
  match fuel with
  | O => throw OutOfFuel
  | S fuel =>
      x ← load (string + length);
      if negb (x =? 0) && (length <? maxlen)
      then strnlen_loop fuel string maxlen (length + 1) else mret length
  end.

Definition strnlen (string maxlen : Z) : M mem Z :=
  fuel ← scan_fuel; strnlen_loop fuel string maxlen 0.

Fixpoint strstr_loop (n : nat) (haystack needle needle_len i : Z) : M mem Z :=
  match n with
  | O => mret NULL
  | S n =>
      r ← memcmp (haystack + i) needle needle_len;
      if r =? 0 then mret (haystack + i)
      else strstr_loop n haystack needle needle_len (i + 1)
  end.

Definition strstr (haystack needle : Z) : M mem Z :=
  haystack_len ← strlen haystack;
  needle_len ← strlen needle;
  if needle_len <=? haystack_len
  then strstr_loop (Z.to_nat (haystack_len - needle_len + 1)) haystack needle needle_len 0
  else mret NULL.

(** ** Tokens

    [*save_ptr] is passed in and returned. *)

Fixpoint skip_delimiters (fuel : nat) (s delimiters : Z) : M mem (option Z * Z) :=
  match fuel with
  | O => throw OutOfFuel
  | S fuel =>
      x ← load s;
      r ← strchr delimiters x;
      if r =? NULL then mret (Some s, s)
      else if x =? 0 then mret (None, s)
      else skip_delimiters fuel (s + 1) delimiters
  end.

Fixpoint skip_token (fuel : nat) (s delimiters : Z) : M mem Z :=
  match fuel with
  | O => throw OutOfFuel
  | S fuel =>
      x ← load s;
      r ← strchr delimiters x;
      if r =? NULL then skip_token fuel (s + 1) delimiters else mret s
  end.

(** The token and the new [*save_ptr]. *)
Definition strtok_r (s delimiters save : Z) : M mem (Z * Z) :=
  ASSERT (negb (delimiters =? NULL)) ;;
  let s := if s =? NULL then save else s in
  ASSERT (negb (s =? NULL)) ;;
  fuel ← scan_fuel;
  '(start, at_) ← skip_delimiters fuel s delimiters;
  match start with
  | None => mret (NULL, at_)
  | Some token =>
      s ← skip_token fuel token delimiters;
      x ← load s;
      if negb (x =? 0) then store s 0 ;; mret (token, s + 1) else mret (token, s)
  end.

(** ** Bounded copies *)

Definition strlcpy (dst src size : Z) : M mem Z :=
  ASSERT (negb (dst =? NULL)) ;;
  ASSERT (negb (src =? NULL)) ;;
  src_len ← strlen src;
  when (0 <? size)
    (let dst_len := size - 1 in
     let dst_len := if src_len <? dst_len then src_len else dst_len in
     _ ← memcpy dst src dst_len; store (dst + dst_len) 0) ;;
  mret src_len.

Definition strlcat (dst src size : Z) : M mem Z :=
  ASSERT (negb (dst =? NULL)) ;;
  ASSERT (negb (src =? NULL)) ;;
  src_len ← strlen src;
  dst_len ← strlen dst;
  when ((0 <? size) && (dst_len <? size))
    (let copy_cnt := size - dst_len - 1 in
     let copy_cnt := if src_len <? copy_cnt then src_len else copy_cnt in
     _ ← memcpy (dst + dst_len) src copy_cnt; store (dst + dst_len + copy_cnt) 0) ;;
  mret (wrap32 (src_len + dst_len)).

(** ** Arrays and strings in memory *)

(** [arr m p l]: the bytes [l] lie at [p]. *)
Definition arr (m : mem) (p : Z) (l : list Z) : Prop :=
  ∀ (i : nat) x, l !! i = Some x → m !! (p + Z.of_nat i) = Some x.

Definition chars (s : list Z) : Prop := Forall (λ c, 0 < c < 256) s.

(** [cstring m p s]: the string [s], zero-terminated, lies at [p]. *)
Definition cstring (m : mem) (p : Z) (s : list Z) : Prop := arr m p (s ++ [0]) ∧ chars s.

(** [upd m p l m']: [m'] is [m] with the bytes [l] at [p]. *)
Definition upd (m : mem) (p : Z) (l : list Z) (m' : mem) : Prop :=
  ∀ a, m' !! a = if decide (p ≤ a < p + len l) then l !! Z.to_nat (a - p) else m !! a.

Lemma arr_nil m p : arr m p [].
Proof. by intros i x. Qed.

Lemma arr_cons m p x l : arr m p (x :: l) ↔ m !! p = Some x ∧ arr m (p + 1) l.
Proof.
  split.
  - intros H. split; [rewrite <- (H 0%nat x eq_refl); f_equal; lia|].
    intros i y Hi. rewrite <- (H (S i) y Hi). f_equal. lia.
  - intros [H0 Hl] [|i] y Hi; simpl in Hi.
    + injection Hi as <-. rewrite <- H0. f_equal. lia.
    + rewrite <- (Hl i y Hi). f_equal. lia.
Qed.

Lemma arr_app m p l1 l2 : arr m p (l1 ++ l2) ↔ arr m p l1 ∧ arr m (p + len l1) l2.
Proof.
  revert p. induction l1 as [|x l1 IH]; intros p; simpl.
  - rewrite Z.add_0_r. split; [|naive_solver]. intros. split; [apply arr_nil|done].
  - rewrite !arr_cons, IH. replace (p + 1 + len l1) with (p + Z.of_nat (S (length l1))) by lia. tauto.
Qed.

Lemma arr_lookup m p l i x : arr m p l → l !! i = Some x → m !! (p + Z.of_nat i) = Some x.
Proof. intros H. apply H. Qed.

(** The bytes of an array are distinct bytes of the memory. *)
Lemma arr_size m p l : arr m p l → (length l ≤ size m)%nat.
Proof.
  intros Harr. rewrite <- size_dom.
  set (as_ := (λ i : nat, p + Z.of_nat i) <$> seq 0 (length l)).
  assert (NoDup as_) as Hnd. { apply NoDup_fmap_2; [intros ??; lia|apply NoDup_seq]. }
  assert (length as_ = length l) as <- by (unfold as_; by rewrite length_fmap, length_seq).
  rewrite <- (size_list_to_set (C := gset Z)) by done. apply subseteq_size.
  intros a Ha. apply elem_of_list_to_set, list_elem_of_fmap in Ha as (i & -> & Hi).
  apply elem_of_seq in Hi. destruct (lookup_lt_is_Some_2 l i) as [x Hx]; [lia|].
  apply elem_of_dom. exists x. by apply Harr.
Qed.

Lemma arr_upd_same m p l m' : upd m p l m' → arr m' p l.
Proof.
  intros Hu i x Hi. pose proof (lookup_lt_Some _ _ _ Hi). rewrite Hu, decide_True by lia.
  rewrite <- Hi. f_equal. lia.
Qed.

Lemma arr_upd_disjoint m p l m' q k : upd m p l m' → arr m q k →
  q + len k ≤ p ∨ p + len l ≤ q → arr m' q k.
Proof.
  intros Hu Hk Hd i x Hi. pose proof (lookup_lt_Some _ _ _ Hi).
  rewrite Hu, decide_False by lia. by apply Hk.
Qed.

Lemma upd_nil m p : upd m p [] m.
Proof. intros a. rewrite decide_False; [done|simpl; lia]. Qed.

Lemma upd_insert m p x : upd m p [x] (<[p := x]> m).
Proof.
  intros a. simpl. case_decide.
  - replace a with p by lia. rewrite lookup_insert_eq, Z.sub_diag. done.
  - rewrite lookup_insert_ne by lia. done.
Qed.

Lemma upd_app m p l1 l2 m1 m2 :
  upd m p l1 m1 → upd m1 (p + len l1) l2 m2 → upd m p (l1 ++ l2) m2.
Proof.
  intros H1 H2 a. rewrite H2, H1, length_app. repeat case_decide; try lia; try done.
  - rewrite lookup_app_r by lia. f_equal. lia.
  - rewrite lookup_app_l by lia. done.
Qed.

(** Writing the front part after the back part. *)
Lemma upd_app_rev m p l1 l2 m1 m2 :
  upd m (p + len l1) l2 m1 → upd m1 p l1 m2 → upd m p (l1 ++ l2) m2.
Proof.
  intros H1 H2 a. rewrite H2, H1, length_app. repeat case_decide; try lia; try done.
  - rewrite lookup_app_l by lia. done.
  - rewrite lookup_app_r by lia. f_equal. lia.
Qed.

Lemma wp_load m a b (Q : Z → mem → Prop) : m !! a = Some b → Q b m → wp (load a) Q m.
Proof. unfold wp, load. by intros ->. Qed.

Lemma wp_store m a b c (Q : unit → mem → Prop) :
  m !! a = Some b → Q tt (<[a := c]> m) → wp (store a c) Q m.
Proof. unfold wp, store. by intros ->. Qed.

Lemma wp_scan_fuel m (Q : nat → mem → Prop) : Q (S (size m)) m → wp scan_fuel Q m.
Proof. done. Qed.

(** ** Copying *)

(** [copy_up] copies [l] when it never overwrites a byte it has yet to read. *)
Lemma wp_copy_up m dst src l d :
  arr m src l → arr m dst d → length d = length l →
  dst ≤ src ∨ src + len l ≤ dst →
  wp (copy_up (length l) dst src) (λ _ m', upd m dst l m') m.
Proof.
  revert m dst src d. induction l as [|x l IH]; intros m dst src d Hs Hd Hl Hov; cbn [copy_up length].
  { wp_step. apply upd_nil. }
  destruct d as [|y d]; [done|]. apply arr_cons in Hs as [Hx Hs], Hd as [Hy Hd].
  wp_step. eapply wp_load; [done|]. wp_step. eapply wp_store; [done|].
  pose proof (upd_insert m dst x) as Hins. simpl in Hl, Hov.
  eapply wp_mono; [apply (IH _ _ _ d)|].
  - eapply arr_upd_disjoint; [done..|]. simpl. lia.
  - eapply arr_upd_disjoint; [done..|]. simpl. lia.
  - lia.
  - lia.
  - intros [] m' Hu. change (x :: l) with ([x] ++ l). by eapply upd_app.
Qed.

Lemma wp_copy_down m dst src l d :
  arr m src l → arr m dst d → length d = length l → src ≤ dst →
  wp (copy_down (length l) (dst + len l) (src + len l)) (λ _ m', upd m dst l m') m.
Proof.
  revert m d. induction l as [|x l IH] using rev_ind; intros m d Hs Hd Hl Hov; cbn [copy_down length].
  { wp_step. apply upd_nil. }
  rewrite length_app in *. simpl in *.
  destruct d as [|y d _] using rev_ind; [simpl in Hl; lia|]. rewrite length_app in Hl. simpl in Hl.
  apply arr_app in Hs as [Hs Hx], Hd as [Hd Hy]. apply arr_cons in Hx as [Hx _], Hy as [Hy _].
  assert (length d = length l) as Hdl by lia. rewrite Hdl in Hy.
  replace (length l + 1)%nat with (S (length l)) by lia. cbn [copy_down].
  replace (src + Z.of_nat (S (length l)) - 1) with (src + len l) by lia.
  replace (dst + Z.of_nat (S (length l)) - 1) with (dst + len l) by lia.
  wp_step. eapply wp_load; [done|]. wp_step. eapply wp_store; [done|].
  pose proof (upd_insert m (dst + len l) x) as Hins.
  eapply wp_mono; [apply (IH _ d)|]; [| |done|done|].
  - eapply arr_upd_disjoint; [done..|]. simpl. lia.
  - eapply arr_upd_disjoint; [done..|]. simpl. lia.
  - intros [] m' Hu. by eapply upd_app_rev.
Qed.

Lemma assert_nonnull p (l : list Z) : p ≠ NULL ∨ l = [] → negb (p =? NULL) || (len l =? 0) = true.
Proof.
  intros [Hp| ->]; [|by rewrite orb_true_r]. by rewrite (proj2 (Z.eqb_neq _ _) Hp).
Qed.

(** [memmove] copies a block onto any other, overlapping or not: the
    destination holds what the source held, and no other byte changes.  The
    pointer it returns is the destination only when the blocks are copied
    from the end; when [dst < src] it is the end of the destination. *)
Theorem memmove_correct m dst src l d :
  arr m src l → arr m dst d → length d = length l →
  dst ≠ NULL ∨ l = [] → src ≠ NULL ∨ l = [] →
  ∃ m', memmove dst src (len l) m = Ok (if dst <? src then dst + len l else dst, m') ∧
    upd m dst l m'.
Proof.
  intros Hs Hd Hl Hdn Hsn.
  assert (wp (memmove dst src (len l)) (λ r m', r = (if dst <? src then dst + len l else dst) ∧ upd m dst l m') m)
    as (r & m' & Hrun & -> & Hu)%wp_Ok; [|by exists m'].
  unfold memmove. repeat wp_step; [by apply assert_nonnull..|]. rewrite Nat2Z.id.
  destruct (Z.ltb_spec dst src).
  - wp_step. eapply wp_mono; [eapply wp_copy_up; eauto; lia|]. intros [] m' Hu. by wp_step.
  - wp_step. eapply wp_mono; [eapply wp_copy_down; eauto; lia|]. intros [] m' Hu. wp_step.
    split; [lia|done].
Qed.

(** Memory with the bytes 1 2 3 4 5 at 100: an overlapping move by one. *)
Definition example_mem : mem := list_to_map (zip (seqZ 100 5) [1; 2; 3; 4; 5]).

Lemma example_mem_arr : arr example_mem 100 [1; 2; 3; 4; 5].
Proof.
  repeat (apply arr_cons; split; [reflexivity|]). apply arr_nil.
Qed.

Lemma memmove_correct_witness :
  ∃ m', memmove 101 100 4 example_mem = Ok (101, m') ∧ upd example_mem 101 [1; 2; 3; 4] m'.
Proof.
  apply (memmove_correct example_mem 101 100 [1; 2; 3; 4] [2; 3; 4; 5]); try done; try (left; lia).
  - apply (arr_app _ 100 [1; 2; 3; 4] [5]). exact example_mem_arr.
  - apply (arr_cons _ 100 1 [2; 3; 4; 5]). exact example_mem_arr.
Defined.

(** ** Scanning strings *)

Lemma cstring_nil m p : cstring m p [] ↔ m !! p = Some 0.
Proof.
  unfold cstring. simpl. rewrite arr_cons. split; [naive_solver|].
  intros H. split; [|by apply Forall_nil]. split; [done|apply arr_nil].
Qed.

Lemma cstring_cons m p c s :
  cstring m p (c :: s) ↔ m !! p = Some c ∧ 0 < c < 256 ∧ cstring m (p + 1) s.
Proof. unfold cstring, chars. simpl. rewrite arr_cons, Forall_cons. tauto. Qed.

Lemma cstring_fuel m p s : cstring m p s → (length s < S (size m))%nat.
Proof. intros [Ha _]. apply arr_size in Ha. rewrite length_app in Ha. simpl in Ha. lia. Qed.

Lemma cstring_app m p s t : cstring m p (s ++ t) → arr m p s ∧ cstring m (p + len s) t.
Proof.
  unfold cstring, chars. rewrite <- app_assoc, arr_app, Forall_app. tauto.
Qed.

Lemma wp_strlen_loop fuel m p s (Q : Z → mem → Prop) :
  cstring m p s → (length s < fuel)%nat → Q (p + len s) m → wp (strlen_loop fuel p) Q m.
Proof.
  revert p s. induction fuel as [|fuel IH]; intros p s Hs Hf HQ; [lia|]. cbn [strlen_loop].
  destruct s as [|c s].
  - apply cstring_nil in Hs. wp_step. eapply wp_load; [done|]. simpl. wp_step.
    by rewrite Z.add_0_r in HQ.
  - apply cstring_cons in Hs as (Hc & Hr & Hs). wp_step. eapply wp_load; [done|].
    rewrite (proj2 (Z.eqb_neq c 0)) by lia. simpl in Hf. eapply IH; [done|lia|].
    revert HQ. simpl. by replace (p + Z.of_nat (S (length s))) with (p + 1 + len s) by lia.
Qed.

Lemma wp_strlen m p s (Q : Z → mem → Prop) :
  cstring m p s → p ≠ NULL → Q (len s) m → wp (strlen p) Q m.
Proof.
  intros Hs Hp HQ. unfold strlen. wp_step. wp_step; [by rewrite (proj2 (Z.eqb_neq _ _) Hp)|].
  wp_step. apply wp_scan_fuel. wp_step. eapply wp_strlen_loop; [done|by eapply cstring_fuel|].
  wp_step. by replace (p + len s - p) with (len s) by lia.
Qed.

(** The index of the first [c] in a list. *)
Fixpoint index_of (c : Z) (l : list Z) : option Z :=
  match l with
  | [] => None
  | x :: l => if x =? c then Some 0 else Z.succ <$> index_of c l
  end.

Lemma index_of_Some c l i : index_of c l = Some i →
  0 ≤ i < len l ∧ l !! Z.to_nat i = Some c ∧ c ∉ take (Z.to_nat i) l.
Proof.
  revert i. induction l as [|x l IH]; intros i; simpl; [done|].
  destruct (Z.eqb_spec x c) as [->|Hne].
  - intros [= <-]. split; [lia|]. split; [done|]. simpl. set_solver.
  - destruct (index_of c l) as [j|]; simpl; [|done]. intros [= <-].
    destruct (IH j eq_refl) as (Hj & Hl & Hn). split; [lia|].
    rewrite Z2Nat.inj_succ by lia. split; [done|]. simpl. set_solver.
Qed.

Lemma index_of_None c l : index_of c l = None ↔ c ∉ l.
Proof.
  induction l as [|x l IH]; simpl; [set_solver|]. destruct (Z.eqb_spec x c) as [->|Hne].
  - split; [done|set_solver].
  - rewrite fmap_None, IH. set_solver.
Qed.

Lemma index_of_is_Some c l : is_Some (index_of c l) ↔ c ∈ l.
Proof.
  destruct (index_of c l) eqn:H; [|apply index_of_None in H; split; [by intros []|done]].
  split; [intros _|done]. apply index_of_Some in H as (_ & H & _). by eapply list_elem_of_lookup_2.
Qed.

(** The pointer to the first [c] in the array at [p]. *)
Definition pointer_to (p : Z) (i : option Z) : Z := match i with Some i => p + i | None => NULL end.

Lemma wp_memchr_loop m p l ch (Q : Z → mem → Prop) :
  arr m p l → Q (pointer_to p (index_of ch l)) m → wp (memchr_loop (length l) p ch) Q m.
Proof.
  revert p. induction l as [|x l IH]; intros p Hl HQ; cbn [memchr_loop length]; [by wp_step|].
  apply arr_cons in Hl as [Hx Hl]. wp_step. eapply wp_load; [done|]. simpl in HQ.
  destruct (x =? ch); [wp_step; simpl in HQ; by rewrite Z.add_0_r in HQ|]. apply IH; [done|].
  revert HQ. destruct (index_of ch l); simpl; [|done].
  by replace (p + Z.succ z) with (p + 1 + z) by lia.
Qed.

Lemma wp_strchr_loop fuel m p s c (Q : Z → mem → Prop) :
  cstring m p s → (length s < fuel)%nat →
  Q (pointer_to p (index_of c (s ++ [0]))) m → wp (strchr_loop fuel p c) Q m.
Proof.
  revert p s. induction fuel as [|fuel IH]; intros p s Hs Hf HQ; [lia|]. cbn [strchr_loop].
  destruct s as [|x s].
  - apply cstring_nil in Hs. wp_step. eapply wp_load; [done|].
    cbn [index_of app] in HQ. destruct (0 =? c); simpl in HQ |- *; wp_step; [|done].
    by rewrite Z.add_0_r in HQ.
  - apply cstring_cons in Hs as (Hx & Hr & Hs). wp_step. eapply wp_load; [done|].
    cbn [index_of app] in HQ. simpl in Hf. destruct (x =? c).
    + wp_step. simpl in HQ. by rewrite Z.add_0_r in HQ.
    + rewrite (proj2 (Z.eqb_neq x 0)) by lia. eapply IH; [done|lia|].
      revert HQ. destruct (index_of c (s ++ [0])); simpl; [|done].
      by replace (p + Z.succ z) with (p + 1 + z) by lia.
Qed.

Lemma wp_strchr m p s c (Q : Z → mem → Prop) :
  cstring m p s → p ≠ NULL → 0 ≤ c < 256 →
  Q (pointer_to p (index_of c (s ++ [0]))) m → wp (strchr p c) Q m.
Proof.
  intros Hs Hp Hc HQ. unfold strchr. wp_step. wp_step; [by rewrite (proj2 (Z.eqb_neq _ _) Hp)|].
  wp_step. apply wp_scan_fuel. rewrite wrap8_small by lia.
  eapply wp_strchr_loop; [done|by eapply cstring_fuel|done].
Qed.

(** Membership as [strchr] tests it. *)
Definition in_set (set : list Z) (c : Z) : bool := bool_decide (c ∈ set).

Lemma strchr_null p set c : 0 < p → 0 < c →
  (pointer_to p (index_of c (set ++ [0])) =? NULL) = negb (in_set set c).
Proof.
  intros Hp Hc. unfold in_set. case_bool_decide as Hin; simpl.
  - assert (is_Some (index_of c (set ++ [0]))) as [i Hi] by (apply index_of_is_Some; set_solver).
    rewrite Hi. apply index_of_Some in Hi as (Hi & _). simpl. apply Z.eqb_neq. lia.
  - assert (index_of c (set ++ [0]) = None) as ->; [|done]. apply index_of_None.
    rewrite elem_of_app, list_elem_of_singleton. intros [?| ->]; [done|lia].
Qed.

(** The length of the longest prefix all of whose characters satisfy [P]. *)
Fixpoint span_len (P : Z → bool) (s : list Z) : Z :=
  match s with
  | [] => 0
  | c :: s => if P c then 1 + span_len P s else 0
  end.

Lemma span_len_range P s : 0 ≤ span_len P s ≤ len s.
Proof. induction s as [|c s IH]; simpl; [lia|]. destruct (P c); simpl; lia. Qed.

Lemma wp_span_loop fuel m p k s q set stop (Q : Z → mem → Prop) :
  cstring m (p + k) s → cstring m q set → 0 < q → (length s < fuel)%nat →
  Q (k + span_len (λ c, negb (Bool.eqb (in_set set c) stop)) s) m →
  wp (span_loop fuel p q k stop) Q m.
Proof.
  revert k s. induction fuel as [|fuel IH]; intros k s Hs Hq Hq0 Hf HQ; [lia|]. cbn [span_loop].
  destruct s as [|c s].
  - apply cstring_nil in Hs. wp_step. eapply wp_load; [done|]. simpl in HQ |- *. wp_step.
    by rewrite Z.add_0_r in HQ.
  - apply cstring_cons in Hs as (Hx & Hr & Hs). wp_step. eapply wp_load; [done|].
    rewrite (proj2 (Z.eqb_neq c 0)) by lia. wp_step. eapply wp_strchr; [done|lia|lia|].
    rewrite strchr_null, negb_involutive by lia. simpl in HQ, Hf.
    destruct (Bool.eqb (in_set set c) stop); simpl in HQ.
    + wp_step. by rewrite Z.add_0_r in HQ.
    + eapply IH; [by rewrite Z.add_assoc|done|done|lia|]. by rewrite <- Z.add_assoc.
Qed.

(** ** Comparing *)

(** The sign of the first difference, as [memcmp] and [strcmp] give it. *)
Fixpoint lex (s t : list Z) : Z :=
  match s, t with
  | [], [] => 0
  | [], _ => -1
  | _, [] => 1
  | x :: s, y :: t => if x =? y then lex s t else if x <? y then -1 else 1
  end.

Lemma lex_eq s t : lex s t = 0 ↔ s = t.
Proof.
  revert t. induction s as [|x s IH]; intros [|y t]; simpl; try done.
  destruct (Z.eqb_spec x y) as [->|Hne].
  - rewrite IH. naive_solver.
  - split; [|naive_solver]. destruct (x <? y); done.
Qed.

Lemma lex_swap s t : lex t s = - lex s t.
Proof.
  revert t. induction s as [|x s IH]; intros [|y t]; simpl; try done.
  rewrite (Z.eqb_sym y x). destruct (Z.eqb_spec x y); [done|].
  destruct (Z.ltb_spec x y), (Z.ltb_spec y x); lia.
Qed.

Lemma wp_memcmp_loop m a b l1 l2 (Q : Z → mem → Prop) :
  arr m a l1 → arr m b l2 → length l1 = length l2 → Q (lex l1 l2) m →
  wp (memcmp_loop (length l1) a b) Q m.
Proof.
  revert a b l2. induction l1 as [|x l1 IH]; intros a b [|y l2] H1 H2 Hl HQ; try done.
  cbn [memcmp_loop length]. apply arr_cons in H1 as [Hx H1], H2 as [Hy H2].
  wp_step. eapply wp_load; [done|]. wp_step. eapply wp_load; [done|]. simpl in HQ.
  destruct (Z.eqb_spec x y) as [->|Hne]; [apply (IH _ _ l2); auto|]. wp_step.
  destruct (Z.ltb_spec x y), (Z.ltb_spec y x); done || lia.
Qed.

Lemma wp_strcmp_loop fuel m a b s t (Q : Z → mem → Prop) :
  cstring m a s → cstring m b t → (length s < fuel)%nat → Q (lex s t) m →
  wp (strcmp_loop fuel a b) Q m.
Proof.
  revert a b s t. induction fuel as [|fuel IH]; intros a b s t Hs Ht Hf HQ; [lia|].
  cbn [strcmp_loop]. destruct s as [|x s].
  - apply cstring_nil in Hs. wp_step. eapply wp_load; [done|]. simpl.
    destruct t as [|y t].
    + apply cstring_nil in Ht. wp_step. eapply wp_load; [done|]. by wp_step.
    + apply cstring_cons in Ht as (Hy & Hyr & _). wp_step. eapply wp_load; [done|]. wp_step.
      by rewrite (proj2 (Z.ltb_lt 0 y)) by lia.
  - apply cstring_cons in Hs as (Hx & Hxr & Hs). wp_step. eapply wp_load; [done|].
    rewrite (proj2 (Z.eqb_neq x 0)) by lia. simpl in Hf. destruct t as [|y t].
    + apply cstring_nil in Ht. wp_step. eapply wp_load; [done|].
      rewrite (proj2 (Z.eqb_neq x 0)) by lia. wp_step.
      rewrite (proj2 (Z.ltb_ge x 0)), (proj2 (Z.ltb_lt 0 x)) by lia. done.
    + apply cstring_cons in Ht as (Hy & Hyr & Ht). wp_step. eapply wp_load; [done|].
      simpl in HQ. destruct (Z.eqb_spec x y) as [->|Hne]; [eapply IH; [done..|lia|done]|]. wp_step.
      destruct (Z.ltb_spec x y), (Z.ltb_spec y x); done || lia.
Qed.

Lemma wp_strcmp m a b s t (Q : Z → mem → Prop) :
  cstring m a s → cstring m b t → a ≠ NULL → b ≠ NULL → Q (lex s t) m → wp (strcmp a b) Q m.
Proof.
  intros Hs Ht Ha Hb HQ. unfold strcmp. wp_step. wp_step; [by rewrite (proj2 (Z.eqb_neq _ _) Ha)|].
  wp_step. wp_step; [by rewrite (proj2 (Z.eqb_neq _ _) Hb)|]. wp_step. apply wp_scan_fuel.
  eapply wp_strcmp_loop; [done..|by eapply cstring_fuel|done].
Qed.

Lemma wp_memcmp m a b l1 l2 (Q : Z → mem → Prop) :
  arr m a l1 → arr m b l2 → length l1 = length l2 → a ≠ NULL → b ≠ NULL →
  Q (lex l1 l2) m → wp (memcmp a b (len l1)) Q m.
Proof.
  intros H1 H2 Hl Ha Hb HQ. unfold memcmp. wp_step. wp_step; [apply assert_nonnull; by left|].
  wp_step. wp_step; [rewrite Hl; apply assert_nonnull; by left|]. rewrite Nat2Z.id.
  by apply (wp_memcmp_loop m a b l1 l2).
Qed.

(** ** Searching for a substring *)

(** [occurs_at s t i]: the string [t] lies in [s] at [i]. *)
Definition occurs_at (s t : list Z) (i : Z) : bool := bool_decide (slice i (len t) s = t).

(** The first occurrence of [t] in [s]. *)
Definition first_occurrence (s t : list Z) : option Z :=
  find_from (occurs_at s t) (Z.to_nat (len s - len t + 1)) 0.

Lemma arr_slice m p l i n : arr m p l → 0 ≤ i → 0 ≤ n → arr m (p + i) (slice i n l).
Proof.
  intros Hl Hi Hn k x Hk. destruct (decide (Z.of_nat k < n)).
  - rewrite lookup_slice in Hk by lia. rewrite <- (Hl _ _ Hk). f_equal. lia.
  - by rewrite lookup_slice_ge in Hk by lia.
Qed.

Lemma wp_strstr_loop n m p q s t i (Q : Z → mem → Prop) :
  arr m p s → arr m q t → 0 < p → 0 < q → 0 ≤ i → i + Z.of_nat n + len t ≤ len s + 1 →
  Q (pointer_to p (find_from (occurs_at s t) n i)) m →
  wp (strstr_loop n p q (len t) i) Q m.
Proof.
  intros Hs Ht Hp Hq. revert i. induction n as [|n IH]; intros i Hi Hle HQ;
    cbn [strstr_loop find_from] in *; [by wp_step|].
  assert (len (slice i (len t) s) = len t) as Hsl by (apply length_slice; lia).
  wp_step. rewrite <- Hsl at 1. apply (wp_memcmp m (p + i) q _ t); [apply arr_slice; done || lia|done|lia..|].
  unfold occurs_at in HQ at 1. case_bool_decide as Heq.
  - rewrite Heq, (proj2 (lex_eq t t)) by done. simpl. wp_step. done.
  - rewrite (proj2 (Z.eqb_neq _ 0)) by (by rewrite lex_eq). apply IH; [lia|lia|done].
Qed.

Lemma cstring_arr m p s : cstring m p s → arr m p s.
Proof. intros [Ha _]. by apply arr_app in Ha as [Ha _]. Qed.

(** The string queries agree with their meaning on lists of characters:
    [strlen] is the length, [strcmp] the sign of the lexicographic
    comparison (0 exactly on equal strings), [strchr] the first occurrence of
    a character, [strspn] and [strcspn] the longest prefix inside and outside
    a set, and [strstr] the first occurrence of a substring.  None of them
    changes memory, reads outside the strings or runs for ever. *)
Theorem string_queries_correct m p q s t c :
  cstring m p s → cstring m q t → 0 < p → 0 < q → 0 ≤ c < 256 →
  strlen p m = Ok (len s, m) ∧
  strcmp p q m = Ok (lex s t, m) ∧ (lex s t = 0 ↔ s = t) ∧
  strchr p c m = Ok (pointer_to p (index_of c (s ++ [0])), m) ∧
  strspn p q m = Ok (span_len (in_set t) s, m) ∧
  strcspn p q m = Ok (span_len (λ c, negb (in_set t c)) s, m) ∧
  strstr p q m = Ok (pointer_to p (first_occurrence s t), m).
Proof.
  intros Hs Ht Hp Hq Hc.
  assert (∀ (f : M mem Z) v, wp f (λ r m', r = v ∧ m' = m) m → f m = Ok (v, m)) as Hrun.
  { by intros f v (r & m' & -> & -> & ->)%wp_Ok. }
  split_and!; try apply lex_eq; try apply Hrun.
  - eapply wp_strlen; [done|lia|done].
  - eapply wp_strcmp; [done..|lia|lia|done].
  - eapply wp_strchr; [done|lia|lia|done].
  - unfold strspn. wp_step. apply wp_scan_fuel.
    eapply wp_span_loop; [by rewrite Z.add_0_r|done|done|by eapply cstring_fuel|].
    split; [|done]. rewrite Z.add_0_l. clear. induction s as [|x s IH]; simpl; [done|].
    rewrite IH. by destruct (in_set t x).
  - unfold strcspn. wp_step. apply wp_scan_fuel.
    eapply wp_span_loop; [by rewrite Z.add_0_r|done|done|by eapply cstring_fuel|].
    split; [|done]. rewrite Z.add_0_l. clear. induction s as [|x s IH]; simpl; [done|].
    rewrite IH. by destruct (in_set t x).
  - unfold strstr. wp_step. eapply wp_strlen; [done|lia|]. wp_step. eapply wp_strlen; [done|lia|].
    destruct (Z.leb_spec (len t) (len s)).
    + apply (wp_strstr_loop _ m p q s t 0); [by apply cstring_arr..|done|done|lia|lia|done].
    + wp_step. split; [|done]. unfold first_occurrence.
      by replace (Z.to_nat (len s - len t + 1)) with O by lia.
Qed.

(** Two strings: "abcab" at 100 and "ca" at 200. *)
Definition example_strings : mem :=
  list_to_map (zip (seqZ 100 6) [97; 98; 99; 97; 98; 0] ++ zip (seqZ 200 3) [99; 97; 0]).

Lemma example_string_1 : cstring example_strings 100 [97; 98; 99; 97; 98].
Proof. repeat (apply cstring_cons; split; [reflexivity|split; [lia|]]). by apply cstring_nil. Qed.
Lemma example_string_2 : cstring example_strings 200 [99; 97].
Proof. repeat (apply cstring_cons; split; [reflexivity|split; [lia|]]). by apply cstring_nil. Qed.

Lemma string_queries_correct_witness :
  strlen 100 example_strings = Ok (5, example_strings) ∧
  strcmp 100 200 example_strings = Ok (-1, example_strings) ∧
  strstr 100 200 example_strings = Ok (102, example_strings).
Proof.
  destruct (string_queries_correct example_strings 100 200 [97; 98; 99; 97; 98] [99; 97] 98
    example_string_1 example_string_2 ltac:(lia) ltac:(lia) ltac:(lia)) as (H1 & H2 & _ & _ & _ & _ & H3).
  split; [exact H1|]. split; [exact H2|exact H3].
Defined.

(** ** Bounded copies *)

Lemma wp_memcpy m dst src l d :
  arr m src l → arr m dst d → length d = length l → dst ≠ NULL → src ≠ NULL →
  dst ≤ src ∨ src + len l ≤ dst →
  wp (memcpy dst src (len l)) (λ r m', r = dst ∧ upd m dst l m') m.
Proof.
  intros Hs Hd Hl Hdn Hsn Hov. unfold memcpy. repeat wp_step; [apply assert_nonnull; by left..|].
  rewrite Nat2Z.id. eapply wp_mono; [by eapply wp_copy_up|]. intros [] m' Hu. by wp_step.
Qed.

(** Copying [l] and a terminator into a buffer. *)
Lemma wp_copy_terminate m dst src l d :
  arr m src l → arr m dst d → length d = S (length l) → dst ≠ NULL → src ≠ NULL →
  dst + len l < src ∨ src + len l ≤ dst → chars l →
  wp (_ ← memcpy dst src (len l); store (dst + len l) 0)
    (λ _ m', upd m dst (l ++ [0]) m' ∧ cstring m' dst l) m.
Proof.
  intros Hs Hd Hl Hdn Hsn Hov Hch. wp_step.
  destruct d as [|y d _] using rev_ind; [done|]. rewrite length_app in Hl. simpl in Hl.
  apply arr_app in Hd as [Hd Hy]. apply arr_cons in Hy as [Hy _].
  assert (length d = length l) as Hdl by lia. rewrite Hdl in Hy.
  eapply wp_mono; [apply (wp_memcpy m dst src l d); done || lia|]. intros r m' [_ Hu].
  eapply wp_store.
  { rewrite Hu, decide_False by lia. done. }
  assert (upd m dst (l ++ [0]) (<[dst + len l := 0]> m')) as Hu'
    by (eapply upd_app; [done|apply upd_insert]).
  split; [done|]. split; [by eapply arr_upd_same|done].
Qed.

Lemma chars_take n s : chars s → chars (take n s).
Proof. apply Forall_take. Qed.

Lemma arr_take m p l n : arr m p l → arr m p (take n l).
Proof. rewrite <- (take_drop n l) at 1. by intros [? _]%arr_app. Qed.

(** The buffer of [strlcpy] and [strlcat]: [d] at [dst], apart from the source
    string [s] at [src]. *)
Record copy_call (m : mem) (src : Z) (s : list Z) (dst : Z) (d : list Z) : Prop := {
  cc_src : cstring m src s;
  cc_dst : arr m dst d;
  cc_src_pos : 0 < src;
  cc_dst_pos : 0 < dst;
  cc_size : 0 < len d < 2 ^ 32;
  cc_apart : dst + len d ≤ src ∨ src + len s + 1 ≤ dst
}.

(** Writing a terminated string inside the buffer leaves the rest alone. *)
Lemma copy_frame m src s dst d l o m' :
  copy_call m src s dst d → 0 ≤ o → o + len l < len d → upd m (dst + o) (l ++ [0]) m' →
  cstring m' src s ∧ ∀ a, ¬ (dst ≤ a < dst + len d) → m' !! a = m !! a.
Proof.
  intros [Hs Hd Hsp Hdp Hsz Hap] Ho Hl Hu. split.
  - split; [|apply Hs]. eapply arr_upd_disjoint; [done|apply Hs|].
    rewrite !length_app. simpl. lia.
  - intros a Ha. rewrite Hu, decide_False; [done|]. rewrite length_app. simpl. lia.
Qed.

(** Both functions end by copying, at [o] in the buffer, as much of [s] as
    fits. *)
Lemma wp_copy_fit m src s dst d (o : nat) :
  copy_call m src s dst d → (o < length d)%nat →
  let l := take (length d - o - 1) s in
  wp (_ ← memcpy (dst + Z.of_nat o) src
            (if len s <? len d - Z.of_nat o - 1 then len s else len d - Z.of_nat o - 1);
      store (dst + Z.of_nat o +
            (if len s <? len d - Z.of_nat o - 1 then len s else len d - Z.of_nat o - 1)) 0)
    (λ _ m', upd m (dst + Z.of_nat o) (l ++ [0]) m' ∧ cstring m' (dst + Z.of_nat o) l) m.
Proof.
  intros [Hs Hd Hsp Hdp Hsz Hap] Ho l.
  replace (if len s <? len d - Z.of_nat o - 1 then len s else len d - Z.of_nat o - 1) with (len l)
    by (unfold l; rewrite length_take; destruct (Z.ltb_spec (len s) (len d - Z.of_nat o - 1)); lia).
  assert (len l < len d - Z.of_nat o ∧ len l ≤ len s) as [? ?] by (unfold l; rewrite length_take; lia).
  apply (wp_copy_terminate m _ src l (slice (Z.of_nat o) (len l + 1) d)); try lia.
  - apply arr_take. by apply cstring_arr.
  - apply arr_slice; [done|lia..].
  - apply Nat2Z.inj. rewrite length_slice; lia.
  - apply chars_take, Hs.
Qed.

Lemma wp_strlcpy m src s dst d : copy_call m src s dst d →
  wp (strlcpy dst src (len d)) (λ r m', r = len s ∧
    upd m dst (take (length d - 1) s ++ [0]) m' ∧ cstring m' dst (take (length d - 1) s)) m.
Proof.
  intros Hc. pose proof Hc as [Hs Hd Hsp Hdp Hsz Hap].
  unfold strlcpy. wp_step. wp_step; [by rewrite (proj2 (Z.eqb_neq dst 0)) by lia|].
  wp_step. wp_step; [by rewrite (proj2 (Z.eqb_neq src 0)) by lia|].
  wp_step. eapply wp_strlen; [done|lia|].
  rewrite (proj2 (Z.ltb_lt 0 (len d))) by lia. wp_step. unfold when. cbv zeta.
  pose proof (wp_copy_fit m src s dst d 0 Hc ltac:(lia)) as Hfit.
  rewrite Z.add_0_r, Z.sub_0_r, Nat.sub_0_r in Hfit.
  eapply wp_mono; [exact Hfit|]. intros [] m' Hm. by wp_step.
Qed.

Lemma wp_strlcat m src s dst d t :
  copy_call m src s dst d → cstring m dst t → len t < len d → len s + len t < 2 ^ 32 →
  wp (strlcat dst src (len d)) (λ r m', r = len s + len t ∧
    upd m (dst + len t) (take (length d - length t - 1) s ++ [0]) m' ∧
    cstring m' dst (take (length d - 1) (t ++ s))) m.
Proof.
  intros Hc Ht Htd Hsum. pose proof Hc as [Hs Hd Hsp Hdp Hsz Hap].
  unfold strlcat. wp_step. wp_step; [by rewrite (proj2 (Z.eqb_neq dst 0)) by lia|].
  wp_step. wp_step; [by rewrite (proj2 (Z.eqb_neq src 0)) by lia|].
  wp_step. eapply wp_strlen; [done|lia|]. wp_step. eapply wp_strlen; [done|lia|].
  rewrite (proj2 (Z.ltb_lt 0 (len d))), (proj2 (Z.ltb_lt (len t) (len d))) by lia.
  wp_step. unfold when, andb. cbv zeta.
  eapply wp_mono; [apply (wp_copy_fit m src s dst d (length t) Hc); lia|].
  intros [] m' [Hu Hl]. wp_step. rewrite wrap32_small by lia. split; [done|]. split; [done|].
  rewrite take_app, (take_ge t) by lia.
  replace (length d - 1 - length t)%nat with (length d - length t - 1)%nat by lia.
  split; [|apply Forall_app; split; [apply Ht|apply Hl]].
  rewrite <- app_assoc. apply arr_app. split; [|apply Hl].
  eapply arr_upd_disjoint; [done|by apply cstring_arr|lia].
Qed.

(** [strlcpy] and [strlcat] into a buffer of [size] bytes disjoint from
    the source: the buffer then holds the string, or the concatenation, cut
    to [size - 1] characters and terminated, no byte outside the buffer
    changes, and the result is the length the untruncated string has. *)
Theorem strlcpy_strlcat_correct m src s dst t d :
  copy_call m src s dst d → cstring m dst t → len t < len d → len s + len t < 2 ^ 32 →
  (∃ m', strlcpy dst src (len d) m = Ok (len s, m') ∧
     cstring m' dst (take (length d - 1) s) ∧ cstring m' src s ∧
     ∀ a, ¬ (dst ≤ a < dst + len d) → m' !! a = m !! a) ∧
  (∃ m', strlcat dst src (len d) m = Ok (len s + len t, m') ∧
     cstring m' dst (take (length d - 1) (t ++ s)) ∧ cstring m' src s ∧
     ∀ a, ¬ (dst ≤ a < dst + len d) → m' !! a = m !! a).
Proof.
  intros Hc Ht Htd Hsum. pose proof (cc_size _ _ _ _ _ Hc). split.
  - pose proof (wp_strlcpy m src s dst d Hc) as (r & m' & Hrun & -> & Hu & Hcs)%wp_Ok.
    exists m'. split; [done|]. split; [done|]. rewrite <- (Z.add_0_r dst) in Hu.
    eapply copy_frame; [done| | |exact Hu]; [lia|]. rewrite length_take. lia.
  - pose proof (wp_strlcat m src s dst d t Hc Ht Htd Hsum) as (r & m' & Hrun & -> & Hu & Hcs)%wp_Ok.
    exists m'. split; [done|]. split; [done|].
    eapply copy_frame; [done| | |exact Hu]; [lia|]. rewrite length_take. lia.
Qed.

(** The string "abcab" at 100, copied into the 4 bytes at 200 that hold "ca". *)
Lemma strlcpy_strlcat_correct_witness :
  let m := <[203 := 7]> example_strings in
  (∃ m', strlcpy 200 100 4 m = Ok (5, m') ∧
     cstring m' 200 [97; 98; 99] ∧ cstring m' 100 [97; 98; 99; 97; 98] ∧
     ∀ a, ¬ (200 ≤ a < 200 + 4) → m' !! a = m !! a) ∧
  (∃ m', strlcat 200 100 4 m = Ok (7, m') ∧
     cstring m' 200 [99; 97; 97] ∧ cstring m' 100 [97; 98; 99; 97; 98] ∧
     ∀ a, ¬ (200 ≤ a < 200 + 4) → m' !! a = m !! a).
Proof.
  intros m. apply (strlcpy_strlcat_correct m 100 [97; 98; 99; 97; 98] 200 [99; 97] [99; 97; 0; 7]);
    try (simpl; lia).
  - constructor; try (simpl; lia).
    + repeat (apply cstring_cons; split; [reflexivity|split; [lia|]]). by apply cstring_nil.
    + repeat (apply arr_cons; split; [reflexivity|]). apply arr_nil.
  - repeat (apply cstring_cons; split; [reflexivity|split; [lia|]]). by apply cstring_nil.
Defined.

(** ** Tokens *)

Lemma drop_span P s : P (default 0 (drop (Z.to_nat (span_len P s)) s !! 0%nat)) = true →
  drop (Z.to_nat (span_len P s)) s = [].
Proof.
  induction s as [|c s IH]; simpl; [done|]. destruct (P c) eqn:Hc; [|simpl; congruence].
  pose proof (span_len_range P s). rewrite Z.add_1_l, Z2Nat.inj_succ by lia. exact IH.
Qed.

Lemma wp_skip_delimiters fuel m p s q set (Q : option Z * Z → mem → Prop) :
  cstring m p s → cstring m q set → 0 < q → (length s < fuel)%nat →
  (let k := span_len (in_set set) s in
   Q (if decide (k = len s) then None else Some (p + k), p + k) m) →
  wp (skip_delimiters fuel p q) Q m.
Proof.
  intros Hs Hq Hq0. revert p s Hs. induction fuel as [|fuel IH]; intros p s Hs Hf HQ; [lia|].
  cbn [skip_delimiters]. destruct s as [|c s].
  - apply cstring_nil in Hs. wp_step. eapply wp_load; [done|]. wp_step.
    eapply wp_strchr; [done|lia|lia|].
    assert (is_Some (index_of 0 (set ++ [0]))) as [i Hi] by (apply index_of_is_Some; set_solver).
    rewrite Hi. apply index_of_Some in Hi as (Hi & _). simpl.
    rewrite (proj2 (Z.eqb_neq (q + i) 0)) by lia. simpl in HQ. wp_step. by rewrite Z.add_0_r in HQ.
  - apply cstring_cons in Hs as (Hx & Hr & Hs). wp_step. eapply wp_load; [done|].
    wp_step. eapply wp_strchr; [done|lia|lia|]. rewrite strchr_null by lia.
    cbv zeta in HQ. cbn [span_len length] in HQ. simpl in Hf.
    destruct (in_set set c); cbn [negb] in HQ |- *.
    + rewrite (proj2 (Z.eqb_neq c 0)) by lia. apply (IH _ s); [done|lia|].
      cbv zeta. rewrite <- Z.add_assoc. revert HQ.
      destruct (decide (1 + span_len (in_set set) s = Z.of_nat (S (length s)))),
        (decide (span_len (in_set set) s = len s)); done || lia.
    + wp_step. rewrite decide_False in HQ by lia. by rewrite Z.add_0_r in HQ.
Qed.

Lemma wp_skip_token fuel m p s q set (Q : Z → mem → Prop) :
  cstring m p s → cstring m q set → 0 < q → (length s < fuel)%nat →
  Q (p + span_len (λ c, negb (in_set set c)) s) m →
  wp (skip_token fuel p q) Q m.
Proof.
  intros Hs Hq Hq0. revert p s Hs. induction fuel as [|fuel IH]; intros p s Hs Hf HQ; [lia|].
  cbn [skip_token]. destruct s as [|c s].
  - apply cstring_nil in Hs. wp_step. eapply wp_load; [done|]. wp_step.
    eapply wp_strchr; [done|lia|lia|].
    assert (is_Some (index_of 0 (set ++ [0]))) as [i Hi] by (apply index_of_is_Some; set_solver).
    rewrite Hi. apply index_of_Some in Hi as (Hi & _). simpl.
    rewrite (proj2 (Z.eqb_neq (q + i) 0)) by lia. simpl in HQ. wp_step. by rewrite Z.add_0_r in HQ.
  - apply cstring_cons in Hs as (Hx & Hr & Hs). wp_step. eapply wp_load; [done|].
    wp_step. eapply wp_strchr; [done|lia|lia|]. rewrite strchr_null by lia. simpl in HQ, Hf.
    destruct (in_set set c); simpl in HQ |- *.
    + wp_step. by rewrite Z.add_0_r in HQ.
    + apply (IH _ s); [done|lia|]. by rewrite <- Z.add_assoc.
Qed.

Lemma cstring_drop m p s k : cstring m p s → 0 ≤ k ≤ len s →
  cstring m (p + k) (drop (Z.to_nat k) s).
Proof.
  intros Hs Hk. rewrite <- (take_drop (Z.to_nat k) s) in Hs.
  apply cstring_app in Hs as [_ Hs]. rewrite length_take in Hs.
  by replace (p + k) with (p + Z.of_nat (Z.to_nat k `min` length s)) by lia.
Qed.

(** What one call of [strtok_r] at the string [s] at [p] gives: nothing if
    only delimiters are left; otherwise the next token, and the rest of the
    string behind the delimiter that ends it. *)
Definition next_token (m : mem) (set s : list Z) (p : Z) (r : Z * Z) (m' : mem) : Prop :=
  let k := span_len (in_set set) s in
  let rest := drop (Z.to_nat k) s in
  let j := span_len (λ c, negb (in_set set c)) rest in
  if decide (rest = []) then r = (NULL, p + len s) ∧ m' = m
  else r.1 = p + k ∧ 0 < j ∧ cstring m' r.1 (take (Z.to_nat j) rest) ∧
       cstring m' r.2 (drop (Z.to_nat (j + 1)) rest) ∧
       ∀ a, a ≠ p + k + j → m' !! a = m !! a.

(** [strtok_r] splits off the next token.  Delimiters in front of it are
    skipped; the token is not empty and holds no delimiter; it is terminated
    in place, at most the byte behind it changes, and the saved position is
    the rest of the string.  With nothing but delimiters left it returns a
    null pointer. *)
Theorem strtok_r_correct m p s q set save (first : bool) :
  cstring m p s → cstring m q set → 0 < p → 0 < q →
  p + len s < q ∨ q + len set < p → first = true ∨ save = p →
  ∃ r m', strtok_r (if first then p else NULL) q save m = Ok (r, m') ∧
    next_token m set s p r m' ∧ cstring m' q set.
Proof.
  intros Hs Hq Hp Hq0 Hdis Hsave.
  assert (wp (strtok_r (if first then p else NULL) q save)
    (λ r m', next_token m set s p r m' ∧ cstring m' q set) m) as (r & m' & ? & ? & ?)%wp_Ok; [|by eauto].
  pose proof (cstring_fuel _ _ _ Hs) as Hfuel. pose proof (span_len_range (in_set set) s) as Hk.
  unfold strtok_r. wp_step. wp_step; [by rewrite (proj2 (Z.eqb_neq q 0)) by lia|].
  assert ((if (if first then p else NULL) =? NULL then save else if first then p else NULL) = p) as ->.
  { destruct first; [by rewrite (proj2 (Z.eqb_neq p 0)) by lia|]. simpl. by destruct Hsave. }
  wp_step. wp_step; [by rewrite (proj2 (Z.eqb_neq p 0)) by lia|].
  wp_step. apply wp_scan_fuel. wp_step. eapply wp_skip_delimiters; [done..|]. cbv zeta.
  set (k := span_len (in_set set) s) in *.
  assert (len (drop (Z.to_nat k) s) = len s - k) as Hlr by (rewrite length_drop; lia).
  destruct (decide (k = len s)) as [Hkl|Hkl].
  { wp_step. split; [|done]. unfold next_token. fold k.
    rewrite decide_True; [by rewrite Hkl|]. apply nil_length_inv. lia. }
  assert (drop (Z.to_nat k) s ≠ []) as Hne by (intros Hnil; rewrite Hnil in Hlr; simpl in Hlr; lia).
  pose proof (cstring_drop m p s k Hs ltac:(lia)) as Hrest.
  pose proof (drop_span (in_set set) s) as Hhead. fold k in Hhead.
  set (rest := drop (Z.to_nat k) s) in *.
  set (j := span_len (λ c, negb (in_set set c)) rest).
  pose proof (span_len_range (λ c, negb (in_set set c)) rest) as Hj. fold j in Hj.
  assert (0 < j) as Hj0.
  { unfold j. destruct rest as [|c rest']; [simpl in Hlr; lia|]. simpl in Hhead |- *.
    pose proof (span_len_range (λ c, negb (in_set set c)) rest').
    destruct (in_set set c); [by specialize (Hhead eq_refl)|simpl; lia]. }
  wp_step. eapply wp_skip_token; [done..|lia|]. fold j.
  assert (rest = take (Z.to_nat j) rest ++ drop (Z.to_nat j) rest) as Hsplit by (by rewrite take_drop).
  assert (chars rest) as Hchars by apply Hrest.
  assert (arr m (p + k) (take (Z.to_nat j) rest)) as Htok by (by apply arr_take, cstring_arr).
  pose proof (cstring_drop m (p + k) rest j Hrest ltac:(lia)) as Hafter.
  assert (len (take (Z.to_nat j) rest) = j) as Hlt by (rewrite length_take; lia).
  assert (drop (Z.to_nat (j + 1)) rest = drop 1 (drop (Z.to_nat j) rest)) as Hdrop
    by (rewrite drop_drop; f_equal; lia).
  assert (∀ m', (∀ a, a ≠ p + k + j → m' !! a = m !! a) → m' !! (p + k + j) = Some 0 →
    cstring m' (p + k) (take (Z.to_nat j) rest)) as Htoken.
  { intros m' Hm' H0. split; [|by apply Forall_take]. apply arr_app. split.
    - intros i x Hi. pose proof (lookup_lt_Some _ _ _ Hi).
      rewrite Hm' by lia. by apply Htok.
    - rewrite Hlt. apply arr_cons. split; [done|apply arr_nil]. }
  destruct (drop (Z.to_nat j) rest) as [|c after].
  - pose proof (proj1 (cstring_nil _ _) Hafter) as H0. wp_step. eapply wp_load; [done|]. simpl. wp_step.
    split; [|done]. unfold next_token. fold k rest j. rewrite decide_False, Hdrop by done.
    split_and!; try done. by apply Htoken.
  - apply cstring_cons in Hafter as (Hc & Hcr & Hafter). wp_step. eapply wp_load; [done|].
    rewrite (proj2 (Z.eqb_neq c 0)) by lia. simpl. wp_step. eapply wp_store; [done|]. wp_step.
    pose proof (upd_insert m (p + k + j) 0) as Hu.
    split; [unfold next_token; fold k rest j; rewrite decide_False, Hdrop by done; split_and!; try done|].
    + apply Htoken; [|apply lookup_insert_eq]. intros a Ha. by rewrite lookup_insert_ne.
    + split; [|apply Hafter]. eapply arr_upd_disjoint; [done|apply Hafter|]. simpl. lia.
    + intros a Ha. by rewrite lookup_insert_ne.
    + split; [|apply Hq]. eapply arr_upd_disjoint; [done|apply Hq|]. rewrite length_app. simpl. lia.
Qed.

(** The string " ab c" at 100 with the delimiter " " at 200: the token "ab". *)
Definition example_tokens : mem :=
  list_to_map (zip (seqZ 100 6) [32; 97; 98; 32; 99; 0] ++ zip (seqZ 200 2) [32; 0]).

Lemma strtok_r_correct_witness :
  ∃ r m', strtok_r 100 200 0 example_tokens = Ok (r, m') ∧
    next_token example_tokens [32] [32; 97; 98; 32; 99] 100 r m' ∧ cstring m' 200 [32].
Proof.
  apply (strtok_r_correct example_tokens 100 [32; 97; 98; 32; 99] 200 [32] 0 true);
    try (simpl; lia); try (by left).
  - repeat (apply cstring_cons; split; [reflexivity|split; [lia|]]). by apply cstring_nil.
  - repeat (apply cstring_cons; split; [reflexivity|split; [lia|]]). by apply cstring_nil.
Defined.

Example strtok_r_example :
  match strtok_r 100 200 0 example_tokens with
  | Ok ((token, save), m') => (token, save, m' !! 103)
  | Err _ => (0, 0, None)
  end = (101, 104, Some 0).
Proof. vm_compute. reflexivity. Qed.
