(* ===== verification/CStdlib.v ===== *)
(** * Sorting, searching and number parsing ([lib/stdlib.c])

    An array of [cnt] elements of [size] bytes is the list of its elements,
    each the list of its bytes.  The comparison function the caller passes is a
    parameter: a function of the bytes of the two elements. *)
From stdpp Require Import sorting.
From S2P Require Import Prelude Bytes CString.

Abbreviation elem := (list Z).

(** ** [do_swap], [heapify] and [sort] *)

(** The element with a 1-based index. *)
Definition elem_at (idx : Z) : M (list elem) elem := λ l,
  match l !! Z.to_nat (idx - 1) with Some x => Ok (x, l) | None => Err BadAccess end.
Definition byte_of (x : elem) (i : Z) : M (list elem) Z := λ l,
  match x !! Z.to_nat i with Some b => Ok (b, l) | None => Err BadAccess end.
Definition set_byte (idx i b : Z) : M (list elem) unit := λ l,
  match l !! Z.to_nat (idx - 1) with
  | Some x => if decide (Z.to_nat i < length x)%nat
              then Ok (tt, <[Z.to_nat (idx - 1) := <[Z.to_nat i := b]> x]> l) else Err BadAccess
  | None => Err BadAccess
  end.

Definition do_swap (a_idx b_idx size : Z) : M (list elem) unit :=
  for_loop (Z.to_nat size) 0 (λ i,
    a ← elem_at a_idx; t ← byte_of a i;
    b ← elem_at b_idx; u ← byte_of b i;
    set_byte a_idx i u ;; set_byte b_idx i t).

Section sort.
Context (compare : elem → elem → Z).

Definition do_compare (a_idx b_idx : Z) : M (list elem) Z :=
  a ← elem_at a_idx; b ← elem_at b_idx; mret (compare a b).

(** The index of the largest element among [i] and its children. *)
Definition pick_max (i cnt : Z) : M (list elem) Z :=
  let left := wrap32 (2 * i) in
  let right := wrap32 (2 * i + 1) in
  let max := i in
  max ← (if left <=? cnt then c ← do_compare left max; mret (if 0 <? c then left else max)
         else mret max);
  if right <=? cnt then c ← do_compare right max; mret (if 0 <? c then right else max)
  else mret max.

Fixpoint heapify (fuel : nat) (i cnt size : Z) : M (list elem) unit :=
  match fuel with
  | O => throw OutOfFuel
  | S fuel =>
      max ← pick_max i cnt;
      if max =? i then mret tt else
      do_swap i max size ;; heapify fuel max cnt size
  end.

(** [for (i = n; i > 0; i--)], with the bound [cnt] on the rounds of
    [heapify]: the index at least doubles. *)
Fixpoint build_heap (n : nat) (cnt size : Z) : M (list elem) unit :=
  match n with
  | O => mret tt
  | S n' => heapify (S (Z.to_nat cnt)) (Z.of_nat n) cnt size ;; build_heap n' cnt size
  end.

(** [for (i = n; i > 1; i--)] *)
Fixpoint sort_heap (n : nat) (size : Z) : M (list elem) unit :=
  match n with
  | O | 1%nat => mret tt
  | S n' =>
      do_swap 1 (Z.of_nat n) size ;;
      heapify (S (Z.to_nat (Z.of_nat n - 1))) 1 (Z.of_nat n - 1) size ;;
      sort_heap n' size
  end.

Definition sort (cnt size : Z) : M (list elem) unit :=
  ASSERT (0 <? size) ;;
  build_heap (Z.to_nat (cnt / 2)) cnt size ;;
  sort_heap (Z.to_nat cnt) size.

(** ** [binary_search]

    [first], [last] and [middle] are addresses; the element at an address is
    found by its distance from the array. *)

Fixpoint binary_search_loop (fuel : nat) (l : list elem) (key : elem) (array size first last : Z)
    : result Z :=
  match fuel with
  | O => Err OutOfFuel
  | S fuel =>
      if first <? last then
        let range := (last - first) / size in
        let middle := first + (range / 2) * size in
        match l !! Z.to_nat ((middle - array) / size) with
        | None => Err BadAccess
        | Some x =>
            let cmp := compare key x in
            if cmp <? 0 then binary_search_loop fuel l key array size first middle
            else if 0 <? cmp then binary_search_loop fuel l key array size (middle + size) last
            else Ok middle
        end
      else Ok NULL
  end.

Definition binary_search (l : list elem) (key : elem) (array cnt size : Z) : result Z :=
  binary_search_loop (S (Z.to_nat cnt)) l key array size array (array + size * cnt).

Definition bsearch (l : list elem) (key : elem) (array cnt size : Z) : result Z :=
  binary_search l key array cnt size.

Definition qsort (cnt size : Z) : M (list elem) unit := sort cnt size.
End sort.

(** ** [atoi] *)

Definition isspace (c : Z) : bool :=
  (c =? 32) || (c =? 12) || (c =? 10) || (c =? 13) || (c =? 9) || (c =? 11).
(** [*s] is a [char], which is signed: a byte from 128 on is negative and not
    a digit. *)
Definition isdigit (c : Z) : bool := (48 <=? c) && (c <=? 57).

Fixpoint skip_space (fuel : nat) (s : Z) : M mem Z :=
  match fuel with
  | O => throw OutOfFuel
  | S fuel => c ← load s; if isspace c then skip_space fuel (s + 1) else mret s
  end.

Fixpoint atoi_digits (fuel : nat) (s value : Z) : M mem Z :=
  match fuel with
  | O => throw OutOfFuel
  | S fuel =>
      c ← load s;
      if isdigit c then atoi_digits fuel (s + 1) (int32 (value * 10 - (c - 48))) else mret value
  end.

Definition atoi (s : Z) : M mem Z :=
  ASSERT (negb (s =? NULL)) ;;
  fuel ← scan_fuel;
  s ← skip_space fuel s;
  c ← load s;
  let negative := c =? 45 in
  let s := if (c =? 43) || (c =? 45) then s + 1 else s in
  value ← atoi_digits fuel s 0;
  mret (if negative then value else int32 (- value)).

(** ** Comparison functions *)

(** What [sort] and [binary_search] ask of the comparison function: the sign
    of its result orders the elements. *)
Class StrcmpLike (compare : elem → elem → Z) : Prop := {
  cmp_swap : ∀ x y, Z.sgn (compare y x) = - Z.sgn (compare x y);
  cmp_trans : ∀ x y z, compare x y ≤ 0 → compare y z ≤ 0 → compare x z ≤ 0
}.

(** The comparison [strcmp] and [memcmp] compute is such a function. *)
#[export] Instance lex_strcmp_like : StrcmpLike lex.
Proof.
  split.
  - intros x y. rewrite lex_swap, Z.sgn_opp. done.
  - induction x as [|a x IH]; intros [|b y] [|c z]; simpl; try lia.
    destruct (Z.eqb_spec a b), (Z.eqb_spec b c), (Z.eqb_spec a c); subst; try lia; eauto;
      repeat match goal with |- context [?u <? ?v] => destruct (Z.ltb_spec u v) end; lia.
Qed.

(** ** Swapping two elements *)

Definition swap_elems (a b : nat) (x y : elem) (l : list elem) : list elem :=
  <[b := x]> (<[a := y]> l).

Lemma wp_elem_at idx x (Q : elem → list elem → Prop) l :
  l !! Z.to_nat (idx - 1) = Some x → Q x l → wp (elem_at idx) Q l.
Proof. unfold wp, elem_at. by intros ->. Qed.

Lemma wp_byte_of x i b (Q : Z → list elem → Prop) l :
  x !! Z.to_nat i = Some b → Q b l → wp (byte_of x i) Q l.
Proof. unfold wp, byte_of. by intros ->. Qed.

Lemma wp_set_byte idx i b x (Q : unit → list elem → Prop) l :
  l !! Z.to_nat (idx - 1) = Some x → (Z.to_nat i < length x)%nat →
  Q tt (<[Z.to_nat (idx - 1) := <[Z.to_nat i := b]> x]> l) → wp (set_byte idx i b) Q l.
Proof. unfold wp, set_byte. intros -> Hi. by rewrite decide_True. Qed.

(** Exchanging byte [k] of two elements whose first [k] bytes have been
    exchanged. *)
Lemma swap_step (x y : elem) k a b : length x = length y →
  x !! k = Some a → y !! k = Some b →
  <[k := b]> (take k y ++ drop k x) = take (S k) y ++ drop (S k) x.
Proof.
  intros Hl Hx Hy. pose proof (lookup_lt_Some _ _ _ Hy) as Hk.
  rewrite insert_app_r_alt by (rewrite length_take; lia).
  rewrite length_take, Nat.min_l, Nat.sub_diag by lia.
  rewrite (drop_S x a k Hx). simpl. rewrite (take_S_r y k b Hy), <- app_assoc. done.
Qed.

Lemma wp_do_swap a_idx b_idx size x y l :
  let a := Z.to_nat (a_idx - 1) in let b := Z.to_nat (b_idx - 1) in
  a ≠ b → l !! a = Some x → l !! b = Some y → len x = size → len y = size →
  wp (do_swap a_idx b_idx size) (λ _ l', l' = swap_elems a b x y l) l.
Proof.
  intros a b Hab Ha Hb Hx Hy. unfold do_swap.
  pose proof (lookup_lt_Some _ _ _ Ha). pose proof (lookup_lt_Some _ _ _ Hb).
  set (st := λ k : nat, swap_elems a b (take k x ++ drop k y) (take k y ++ drop k x) l).
  assert (∀ k, st k !! a = Some (take k y ++ drop k x)) as Hsta.
  { intros k. unfold st, swap_elems. rewrite list_lookup_insert_ne by done.
    by rewrite list_lookup_insert_eq. }
  assert (∀ k, st k !! b = Some (take k x ++ drop k y)) as Hstb.
  { intros k. unfold st, swap_elems. rewrite list_lookup_insert_eq; [done|]. by rewrite length_insert. }
  eapply wp_mono; [apply (wp_for_loop (λ i l', l' = st (Z.to_nat i)))|].
  - unfold st, swap_elems. simpl. rewrite !drop_0, (list_insert_id l a x Ha). by rewrite list_insert_id.
  - intros i l' Hi ->. set (k := Z.to_nat i). assert (k < length x)%nat as Hk by lia.
    assert (Z.to_nat (i + 1) = S k) as -> by lia.
    destruct (lookup_lt_is_Some_2 x k) as [c Hc]; [lia|].
    destruct (lookup_lt_is_Some_2 y k) as [d Hd]; [lia|].
    assert ((take k y ++ drop k x) !! k = Some c) as Hc'.
    { rewrite lookup_app_r; rewrite length_take; [|lia]. rewrite lookup_drop. rewrite <- Hc. f_equal. lia. }
    assert ((take k x ++ drop k y) !! k = Some d) as Hd'.
    { rewrite lookup_app_r; rewrite length_take; [|lia]. rewrite lookup_drop. rewrite <- Hd. f_equal. lia. }
    wp_step. eapply wp_elem_at; [apply Hsta|]. wp_step. eapply wp_byte_of; [done|].
    wp_step. eapply wp_elem_at; [apply Hstb|]. wp_step. eapply wp_byte_of; [done|].
    wp_step. eapply wp_set_byte; [apply Hsta|by apply lookup_lt_Some in Hc'|].
    eapply wp_set_byte.
    { rewrite list_lookup_insert_ne by done. apply Hstb. }
    { by apply lookup_lt_Some in Hd'. }
    fold k a b. rewrite (swap_step x y k c d), (swap_step y x k d c) by (done || lia).
    unfold st, swap_elems. rewrite (list_insert_insert_ne _ b a) by done.
    rewrite list_insert_insert_eq, list_insert_insert_ne by done.
    by rewrite list_insert_insert_eq.
  - intros [] l' ->. unfold st. rewrite Z.add_0_l, Z2Nat.id by lia.
    replace (Z.to_nat size) with (length x) by lia.
    rewrite !take_ge, !drop_ge by lia. by rewrite !app_nil_r.
Qed.

(** ** Heaps *)

Section heap.
Context (compare : elem → elem → Z) `{!StrcmpLike compare}.

Definition le (x y : elem) : Prop := compare x y ≤ 0.

Lemma le_total x y : le x y ∨ le y x.
Proof. unfold le. pose proof (cmp_swap x y). lia. Qed.
Lemma le_refl x : le x x.
Proof. by destruct (le_total x x). Qed.
Lemma le_trans x y z : le x y → le y z → le x z.
Proof. apply cmp_trans. Qed.
Lemma not_gt_le x y : ¬ 0 < compare x y → le x y.
Proof. unfold le. lia. Qed.
Lemma gt_le x y : 0 < compare x y → le y x.
Proof. unfold le. pose proof (cmp_swap x y). lia. Qed.

(** The element with a 1-based index, and the children of an index. *)
Definition el (l : list elem) (k : Z) : elem := default [] (l !! Z.to_nat (k - 1)).
Definition child (c j : Z) : Prop := c = 2 * j ∨ c = 2 * j + 1.

(** Among the first [cnt] elements, no child is above its parent, for the
    parents from [lo] on except [i]. *)
Definition heap_except (l : list elem) (lo cnt i : Z) : Prop :=
  ∀ j c, lo ≤ j → j ≠ i → child c j → c ≤ cnt → le (el l c) (el l j).
Definition heap (l : list elem) (lo cnt : Z) : Prop :=
  ∀ j c, lo ≤ j → child c j → c ≤ cnt → le (el l c) (el l j).

Lemma el_lookup l k : 1 ≤ k ≤ len l → l !! Z.to_nat (k - 1) = Some (el l k).
Proof.
  intros Hk. unfold el. destruct (lookup_lt_is_Some_2 l (Z.to_nat (k - 1))) as [x ->]; [lia|done].
Qed.

Lemma wp_do_compare a b (Q : Z → list elem → Prop) l :
  1 ≤ a ≤ len l → 1 ≤ b ≤ len l → Q (compare (el l a) (el l b)) l → wp (do_compare compare a b) Q l.
Proof.
  intros Ha Hb HQ. unfold do_compare. wp_step. eapply wp_elem_at; [by apply el_lookup|].
  wp_step. eapply wp_elem_at; [by apply el_lookup|]. by wp_step.
Qed.

Definition swapped (l : list elem) (a b : Z) : list elem :=
  swap_elems (Z.to_nat (a - 1)) (Z.to_nat (b - 1)) (el l a) (el l b) l.

Lemma el_swapped l a b k : 1 ≤ a ≤ len l → 1 ≤ b ≤ len l → 1 ≤ k →
  el (swapped l a b) k =
    if decide (k = b) then el l a else if decide (k = a) then el l b else el l k.
Proof.
  intros Ha Hb Hk. unfold el at 1, swapped, swap_elems.
  destruct (decide (k = b)) as [->|Hkb].
  { rewrite list_lookup_insert_eq by (rewrite length_insert; lia). done. }
  rewrite list_lookup_insert_ne by lia. destruct (decide (k = a)) as [->|Hka].
  { rewrite list_lookup_insert_eq by lia. done. }
  by rewrite list_lookup_insert_ne by lia.
Qed.

Lemma swapped_perm l a b : 1 ≤ a ≤ len l → 1 ≤ b ≤ len l → a ≠ b → swapped l a b ≡ₚ l.
Proof.
  intros Ha Hb Hab. unfold swapped, swap_elems.
  pose proof (el_lookup l a Ha) as Hla. pose proof (el_lookup l b Hb) as Hlb.
  set (i := Z.to_nat (a - 1)) in *. set (j := Z.to_nat (b - 1)) in *.
  assert (i ≠ j) by lia. apply Permutation_inj. split; [by rewrite !length_insert|].
  exists (λ n, if decide (n = i) then j else if decide (n = j) then i else n).
  split.
  - intros n1 n2. repeat case_decide; lia.
  - intros n. case_decide as Hn1; [|case_decide as Hn2].
    + subst n. rewrite list_lookup_insert_ne by done.
      rewrite list_lookup_insert_eq; [done|by apply lookup_lt_Some in Hla].
    + subst n. rewrite list_lookup_insert_eq; [done|].
      rewrite length_insert. by apply lookup_lt_Some in Hlb.
    + by rewrite !list_lookup_insert_ne by congruence.
Qed.

Lemma swapped_drop l a b cnt : 1 ≤ a ≤ cnt → 1 ≤ b ≤ cnt →
  drop (Z.to_nat cnt) (swapped l a b) = drop (Z.to_nat cnt) l.
Proof. intros Ha Hb. unfold swapped, swap_elems. by rewrite !drop_insert_lt by lia. Qed.

(** The larger of an element and its children. *)
Definition largest (l : list elem) (i cnt m : Z) : Prop :=
  (∀ c, child c i → c ≤ cnt → le (el l c) (el l m)) ∧ le (el l i) (el l m) ∧
  (m = i ∨ child m i ∧ m ≤ cnt).

Lemma wp_pick_max i cnt (Q : Z → list elem → Prop) l :
  1 ≤ i ≤ cnt → cnt ≤ len l → len l < 2 ^ 31 →
  (∀ m, largest l i cnt m → Q m l) → wp (pick_max compare i cnt) Q l.
Proof.
  intros Hi Hc Hl HQ. unfold pick_max. rewrite !wrap32_small by lia. wp_step.
  assert (∀ m, largest l i cnt m → wp (mret m) Q l) as HQ' by (intros; wp_step; auto).
  destruct (Z.leb_spec (2 * i) cnt) as [Hle|Hgt].
  2: { wp_step. replace (2 * i + 1 <=? cnt) with false by lia. apply HQ'.
       split; [unfold child; lia|]. split; [apply le_refl|by left]. }
  wp_step. apply wp_do_compare; [lia..|]. wp_step.
  assert (∃ m, (if 0 <? compare (el l (2 * i)) (el l i) then 2 * i else i) = m ∧
    (m = i ∨ m = 2 * i) ∧ le (el l (2 * i)) (el l m) ∧ le (el l i) (el l m)) as (m & -> & Hm & H2 & Hmi).
  { destruct (Z.ltb_spec 0 (compare (el l (2 * i)) (el l i))).
    - exists (2 * i). split; [done|]. split; [by right|]. split; [apply le_refl|by apply gt_le].
    - exists i. split; [done|]. split; [by left|]. split; [apply not_gt_le; lia|apply le_refl]. }
  destruct (Z.leb_spec (2 * i + 1) cnt) as [Hle2|Hgt2].
  - wp_step. apply wp_do_compare; [lia..|].
    destruct (Z.ltb_spec 0 (compare (el l (2 * i + 1)) (el l m))).
    + apply HQ'. assert (le (el l m) (el l (2 * i + 1))) as Hm2 by (by apply gt_le).
      split; [|split; [by eapply le_trans|right; split; [by right|lia]]].
      intros c [->| ->] _; [by eapply le_trans|apply le_refl].
    + apply HQ'. split; [|split; [done|]].
      * intros c [->| ->] _; [done|]. apply not_gt_le. lia.
      * destruct Hm as [->| ->]; [by left|right]. split; [by left|lia].
  - apply HQ'. split; [|split; [done|]].
    + intros c [->| ->] ?; [done|lia].
    + destruct Hm as [->| ->]; [by left|right]. split; [by left|lia].
Qed.

(** An array to sort: [n] elements of [size] bytes. *)
Record sort_array (size : Z) (l : list elem) : Prop := {
  sa_len : len l < 2 ^ 31;
  sa_size : 0 < size;
  sa_elems : Forall (λ x : elem, len x = size) l
}.

Lemma sort_array_perm size l l' : l' ≡ₚ l → sort_array size l → sort_array size l'.
Proof. intros Hp []. constructor; [by rewrite Hp|done|by rewrite Hp]. Qed.

Lemma sort_array_el size l k : sort_array size l → 1 ≤ k ≤ len l → len (el l k) = size.
Proof. intros [_ _ He] Hk. by apply (Forall_lookup_1 _ _ _ _ He (el_lookup l k Hk)). Qed.

Lemma wp_swap size l a b : sort_array size l → 1 ≤ a ≤ len l → 1 ≤ b ≤ len l → a ≠ b →
  wp (do_swap a b size) (λ _ l', l' = swapped l a b) l.
Proof.
  intros Hl Ha Hb Hab. apply wp_do_swap; [lia|by apply el_lookup|by apply el_lookup|..];
    by apply sort_array_el.
Qed.

(** What [heapify] keeps: the elements, and their order behind [cnt]. *)
Definition rearranged (cnt : Z) (l l' : list elem) : Prop :=
  l' ≡ₚ l ∧ drop (Z.to_nat cnt) l' = drop (Z.to_nat cnt) l.

Lemma rearranged_trans cnt l1 l2 l3 : rearranged cnt l1 l2 → rearranged cnt l2 l3 → rearranged cnt l1 l3.
Proof. intros [? ?] [? ?]. split; [by etrans|congruence]. Qed.

Lemma rearranged_swapped cnt l a b : 1 ≤ a ≤ cnt → 1 ≤ b ≤ cnt → cnt ≤ len l → a ≠ b →
  rearranged cnt l (swapped l a b).
Proof. intros. split; [apply swapped_perm; lia|by apply swapped_drop]. Qed.

(** One round of [heapify] moves the place where the heap is broken down to
    [m]. *)
Lemma heap_except_swap l lo cnt i m :
  1 ≤ lo ≤ i → i ≤ cnt → cnt ≤ len l → largest l i cnt m → m ≠ i →
  heap_except l lo cnt i →
  (∀ c p, child c i → c ≤ cnt → child i p → lo ≤ p → le (el l c) (el l p)) →
  heap_except (swapped l i m) lo cnt m ∧
  (∀ c p, child c m → c ≤ cnt → child m p → lo ≤ p → le (el (swapped l i m) c) (el (swapped l i m) p)).
Proof.
  intros Hlo Hi Hc (Hmax & Him & Hm) Hmi Hheap Hup.
  destruct Hm as [?|[Hchild Hmc]]; [done|].
  assert (i < m) by (unfold child in Hchild; lia).
  assert (∀ k, 1 ≤ k → el (swapped l i m) k =
    if decide (k = m) then el l i else if decide (k = i) then el l m else el l k) as Hel
    by (intros; apply el_swapped; lia).
  split.
  - intros j c Hj Hjm Hcj Hcc. assert (j < c) by (unfold child in Hcj; lia).
    rewrite !Hel by lia.
    repeat case_decide; subst; try (unfold child in *; lia); try done; auto.
  - intros c p Hcm Hcc Hmp Hp. assert (p = i) as -> by (unfold child in *; lia).
    assert (m < c) by (unfold child in Hcm; lia). rewrite !Hel by lia.
    repeat case_decide; try lia. apply Hheap; done || lia.
Qed.

Lemma wp_heapify fuel lo i cnt size l :
  sort_array size l → 1 ≤ lo ≤ i → i ≤ cnt → cnt ≤ len l → (Z.to_nat (cnt - i) < fuel)%nat →
  heap_except l lo cnt i →
  (∀ c p, child c i → c ≤ cnt → child i p → lo ≤ p → le (el l c) (el l p)) →
  wp (heapify compare fuel i cnt size) (λ _ l', rearranged cnt l l' ∧ heap l' lo cnt) l.
Proof.
  revert i l. induction fuel as [|fuel IH]; intros i l Hl Hlo Hi Hc Hf Hheap Hup; [lia|].
  cbn [heapify]. wp_step. apply wp_pick_max; [lia|done|apply Hl|]. intros m Hm.
  destruct (Z.eqb_spec m i) as [->|Hne].
  - wp_step. split; [done|]. intros j c Hj Hcj Hcc. destruct (decide (j = i)) as [->|].
    + by apply Hm.
    + by apply Hheap.
  - assert (i < m ≤ cnt) as Hmc.
    { destruct Hm as (_ & _ & [?|[Hch ?]]); [done|]. unfold child in Hch. lia. }
    wp_step. eapply wp_mono; [apply wp_swap; done || lia|]. intros [] l' ->.
    destruct (heap_except_swap l lo cnt i m) as [Hheap' Hup']; try done.
    assert (rearranged cnt l (swapped l i m)) as Hre by (apply rearranged_swapped; lia).
    eapply wp_mono; [apply IH; try done; try lia|].
    + eapply sort_array_perm; [apply Hre|done].
    + destruct Hre as [Hp _]. rewrite Hp. lia.
    + intros [] l' [Hre' Hh]. split; [by eapply rearranged_trans|done].
Qed.

(** ** Building the heap *)

Lemma wp_build_heap n cnt size l :
  sort_array size l → cnt = len l → 2 * Z.of_nat n ≤ cnt → heap l (Z.of_nat n + 1) cnt →
  wp (build_heap compare n cnt size) (λ _ l', l' ≡ₚ l ∧ heap l' 1 cnt) l.
Proof.
  revert l. induction n as [|n IH]; intros l Hl Hcnt Hn Hheap; cbn [build_heap].
  - wp_step. done.
  - wp_step. eapply wp_mono; [apply (wp_heapify _ (Z.of_nat (S n)))|]; try done; try lia.
    + intros j c Hj Hne Hcj Hcc. apply Hheap; done || lia.
    + intros c p _ _ Hcp Hp. unfold child in Hcp. lia.
    + intros [] l' [[Hp _] Hh]. eapply wp_mono; [apply IH|].
      * by eapply sort_array_perm.
      * by rewrite Hp.
      * lia.
      * replace (Z.of_nat n + 1) with (Z.of_nat (S n)) by lia. done.
      * intros [] l'' [Hp' Hh']. split; [by rewrite Hp'|done].
Qed.

(** The root of a heap is its largest element. *)
Lemma heap_root l cnt k : heap l 1 cnt → 1 ≤ k ≤ cnt → le (el l k) (el l 1).
Proof.
  intros Hh. assert (0 ≤ k ∨ k < 0) as [Hk0|] by lia; [|lia].
  revert k Hk0. apply (Zlt_0_ind (λ k, 1 ≤ k ≤ cnt → le (el l k) (el l 1))). intros k IH Hk0 Hk.
  destruct (decide (k = 1)) as [->|]; [apply le_refl|].
  apply le_trans with (el l (k / 2)).
  - apply Hh; [div_lia| |lia]. unfold child. div_lia.
  - apply IH; div_lia.
Qed.

(** ** Sorting the heap

    The elements behind [n] are in order and above all others. *)
Definition sorted_behind (l : list elem) (n : Z) : Prop :=
  ∀ j k, 1 ≤ j < k → n < k ≤ len l → le (el l j) (el l k).

Lemma el_front l l' cnt : 0 ≤ cnt ≤ len l → rearranged cnt l l' →
  (∀ k, cnt < k ≤ len l → el l' k = el l k) ∧
  (∀ j, 1 ≤ j ≤ cnt → ∃ j', 1 ≤ j' ≤ cnt ∧ el l' j = el l j').
Proof.
  intros Hc [Hp Hd]. pose proof (Permutation_length Hp) as Hlen. split.
  - intros k Hk. unfold el. apply (f_equal (.!! Z.to_nat (k - 1 - cnt))) in Hd.
    rewrite !lookup_drop in Hd. replace (Z.to_nat cnt + Z.to_nat (k - 1 - cnt))%nat
      with (Z.to_nat (k - 1)) in Hd by lia. by rewrite Hd.
  - intros j Hj.
    assert (take (Z.to_nat cnt) l' ≡ₚ take (Z.to_nat cnt) l) as Hpt.
    { rewrite <- (take_drop (Z.to_nat cnt) l'), <- (take_drop (Z.to_nat cnt) l), Hd in Hp.
      by apply Permutation_app_inv_r in Hp. }
    assert (el l' j ∈ take (Z.to_nat cnt) l') as Hin.
    { apply (list_elem_of_lookup_2 _ (Z.to_nat (j - 1))). rewrite lookup_take_lt by lia.
      apply el_lookup. lia. }
    rewrite Hpt in Hin. apply list_elem_of_lookup in Hin as [i Hi].
    pose proof (lookup_lt_Some _ _ _ Hi) as Hil. rewrite length_take in Hil.
    rewrite lookup_take_lt in Hi by lia. exists (Z.of_nat i + 1). split; [lia|].
    unfold el at 2. replace (Z.to_nat (Z.of_nat i + 1 - 1)) with i by lia. by rewrite Hi.
Qed.

Lemma wp_sort_heap n size l :
  sort_array size l → Z.of_nat n ≤ len l → heap l 1 (Z.of_nat n) → sorted_behind l (Z.of_nat n) →
  wp (sort_heap compare n size) (λ _ l', l' ≡ₚ l ∧ sorted_behind l' 1) l.
Proof.
  revert l. induction n as [|n IH]; intros l Hl Hn Hheap Hsorted; cbn [sort_heap].
  { wp_step. split; [done|]. intros j k Hj Hk. apply Hsorted; lia. }
  destruct n as [|n']; [by wp_step|]. set (n := S n') in *.
  wp_step. eapply wp_mono; [apply (wp_swap size l 1 (Z.of_nat (S n))); done || lia|]. intros [] l1 ->.
  set (l1 := swapped l 1 (Z.of_nat (S n))).
  assert (l1 ≡ₚ l) as Hp1 by (apply swapped_perm; lia).
  pose proof (Permutation_length Hp1) as Hlen1.
  assert (∀ k, 1 ≤ k → el l1 k = if decide (k = Z.of_nat (S n)) then el l 1
    else if decide (k = 1) then el l (Z.of_nat (S n)) else el l k) as Hel1
    by (intros; apply el_swapped; lia).
  replace (Z.of_nat (S n) - 1) with (Z.of_nat n) by lia.
  wp_step. eapply wp_mono; [apply (wp_heapify _ 1 1 (Z.of_nat n) size l1)|]; try lia.
  - by eapply sort_array_perm.
  - intros j c Hj Hj1 Hcj Hcc. assert (j < c) by (unfold child in Hcj; lia).
    rewrite !Hel1 by lia. repeat case_decide; try lia. apply Hheap; done || lia.
  - intros c p _ _ Hcp Hp. unfold child in Hcp. lia.
  - intros [] l2 [Hre Hh]. pose proof (Permutation_length (proj1 Hre)) as Hlen2.
    destruct (el_front l1 l2 (Z.of_nat n)) as [Hback Hfront]; [lia|done|].
    eapply wp_mono; [apply IH|].
    + eapply sort_array_perm; [apply Hre|]. by eapply sort_array_perm.
    + lia.
    + done.
    + intros j k Hj Hk. rewrite (Hback k) by lia.
      assert (∃ j', 1 ≤ j' < k ∧ el l2 j = el l1 j') as (j' & Hj' & ->).
      { destruct (decide (j ≤ Z.of_nat n)).
        - destruct (Hfront j) as (j' & ? & ?); [lia|]. exists j'. split; [lia|done].
        - exists j. split; [lia|]. apply Hback. lia. }
      rewrite !Hel1 by lia. repeat case_decide; try lia; subst;
        try (apply heap_root with (Z.of_nat (S n)); [done|lia]); apply Hsorted; lia.
    + intros [] l3 [Hp3 Hs3]. split; [|done]. rewrite Hp3, (proj1 Hre). done.
Qed.

Lemma wp_sort size l : sort_array size l →
  wp (sort compare (len l) size) (λ _ l', l' ≡ₚ l ∧ sorted_behind l' 1) l.
Proof.
  intros Hl. unfold sort. wp_step. wp_step; [pose proof (sa_size _ _ Hl); lia|].
  wp_step. eapply wp_mono; [apply wp_build_heap; try done|].
  - div_lia.
  - intros j c Hj Hcj Hcc. unfold child in Hcj. div_lia.
  - intros [] l1 [Hp1 Hh1]. pose proof (Permutation_length Hp1) as Hlen.
    rewrite Nat2Z.id, <- Hlen. eapply wp_mono; [apply wp_sort_heap|].
    + by eapply sort_array_perm.
    + lia.
    + by rewrite Hlen.
    + intros j k Hj Hk. lia.
    + intros [] l2 [Hp2 Hs2]. split; [by rewrite Hp2|done].
Qed.

Lemma sorted_behind_sorted l : sorted_behind l 1 → StronglySorted le l.
Proof.
  intros Hs. assert (∀ i j x y, (i < j)%nat → l !! i = Some x → l !! j = Some y → le x y) as H.
  { intros i j x y Hij Hx Hy. pose proof (lookup_lt_Some _ _ _ Hy).
    specialize (Hs (Z.of_nat i + 1) (Z.of_nat j + 1) ltac:(lia) ltac:(lia)). unfold el in Hs.
    replace (Z.to_nat (Z.of_nat i + 1 - 1)) with i in Hs by lia.
    replace (Z.to_nat (Z.of_nat j + 1 - 1)) with j in Hs by lia. by rewrite Hx, Hy in Hs. }
  clear Hs. induction l as [|x l IH]; constructor.
  - apply IH. intros i j a b Hij Ha Hb. apply (H (S i) (S j)); done || lia.
  - apply Forall_lookup. intros i y Hy. apply (H 0%nat (S i)); done || lia.
Qed.
End heap.

(** [sort] is a correct heapsort.  For every comparison function that
    behaves like [strcmp] it terminates without a fault, and leaves the same
    elements in ascending order. *)
Theorem sort_correct compare size l :
  StrcmpLike compare → sort_array size l →
  ∃ l', sort compare (len l) size l = Ok (tt, l') ∧ l' ≡ₚ l ∧ StronglySorted (le compare) l'.
Proof.
  intros Hcmp Hl. pose proof (wp_sort compare size l Hl) as ([] & l' & Hrun & Hp & Hs)%wp_Ok.
  exists l'. split; [done|]. split; [done|]. by apply sorted_behind_sorted.
Qed.

Definition example_array : list elem := [[3; 1]; [1; 2]; [2; 9]; [1; 1]; [2; 0]].

Lemma sort_correct_witness :
  ∃ l', sort lex 5 2 example_array = Ok (tt, l') ∧ l' ≡ₚ example_array ∧ StronglySorted (le lex) l'.
Proof.
  apply (sort_correct lex 2 example_array); [exact lex_strcmp_like|]. constructor; [simpl; lia|lia|].
  repeat (apply Forall_cons_2; [reflexivity|]). apply Forall_nil_2.
Defined.

Example sort_example :
  sort lex 5 2 example_array = Ok (tt, [[1; 1]; [1; 2]; [2; 0]; [2; 9]; [3; 1]]).
Proof. vm_compute. reflexivity. Qed.

(** ** Binary search *)

Section binary_search.
Context (compare : elem → elem → Z) `{!StrcmpLike compare}.
Context (l : list elem) (key : elem) (array size : Z).
Context (Hsorted : StronglySorted (le compare) l) (Hsize : 0 < size).

Lemma sorted_lookup_le i j x y : (i ≤ j)%nat → l !! i = Some x → l !! j = Some y → le compare x y.
Proof using Hsorted StrcmpLike0.
  clear Hsize. revert i j. induction Hsorted as [|z k Hk IH Hz]; intros i j Hij Hx Hy; [done|].
  destruct i as [|i], j as [|j]; simpl in *; try lia; simplify_eq.
  - by apply le_refl.
  - by eapply Forall_lookup_1 in Hz.
  - apply (IH Hk i j); done || lia.
Qed.

(** If the key is below an element it is below everything above that element,
    and conversely. *)
Lemma key_below x y : compare key x < 0 → le compare x y → compare key y < 0.
Proof using StrcmpLike0.
  intros Hkx Hxy. unfold le in *. destruct (decide (compare key y < 0)); [done|].
  pose proof (cmp_swap (compare := compare) key y) as H1.
  pose proof (cmp_swap (compare := compare) key x) as H2.
  pose proof (cmp_trans (compare := compare) x y key Hxy ltac:(lia)). lia.
Qed.
Lemma key_above x y : 0 < compare key y → le compare x y → 0 < compare key x.
Proof using StrcmpLike0.
  intros Hky Hxy. unfold le in *. destruct (decide (0 < compare key x)); [done|].
  pose proof (cmp_trans (compare := compare) key x y ltac:(lia) Hxy). lia.
Qed.

(** The outcome of a search: the address of a match, or no match anywhere. *)
Definition search_result (r : Z) : Prop :=
  (∃ k x, l !! k = Some x ∧ r = array + Z.of_nat k * size ∧ compare key x = 0) ∨
  (r = NULL ∧ ∀ x, x ∈ l → compare key x ≠ 0).

Lemma binary_search_loop_correct fuel (a b : nat) :
  (a ≤ b ≤ length l)%nat → (b - a < fuel)%nat →
  (∀ k x, (k < a)%nat → l !! k = Some x → 0 < compare key x) →
  (∀ k x, (b ≤ k)%nat → l !! k = Some x → compare key x < 0) →
  ∃ r, binary_search_loop compare fuel l key array size
         (array + Z.of_nat a * size) (array + Z.of_nat b * size) = Ok r ∧ search_result r.
Proof using Hsorted Hsize StrcmpLike0.
  revert a b. induction fuel as [|fuel IH]; intros a b Hab Hf Hlo Hhi; [lia|].
  cbn [binary_search_loop].
  destruct (Z.ltb_spec (array + Z.of_nat a * size) (array + Z.of_nat b * size)) as [Hlt|Hge].
  2: { assert (a = b) as -> by nia. exists NULL. split; [done|]. right. split; [done|].
       intros x [k Hk]%list_elem_of_lookup. destruct (decide (k < b)%nat).
       - specialize (Hlo k x ltac:(lia) Hk). lia.
       - specialize (Hhi k x ltac:(lia) Hk). lia. }
  assert (a < b)%nat as Hab' by nia. set (mid := (a + (b - a) / 2)%nat).
  assert (a ≤ mid < b)%nat as Hmid.
  { unfold mid. pose proof (Nat.div_lt (b - a) 2 ltac:(lia) ltac:(lia)). lia. }
  assert ((array + Z.of_nat b * size - (array + Z.of_nat a * size)) / size = Z.of_nat (b - a)) as ->.
  { replace (array + Z.of_nat b * size - (array + Z.of_nat a * size)) with (Z.of_nat (b - a) * size) by lia.
    apply Z.div_mul. lia. }
  assert (array + Z.of_nat a * size + Z.of_nat (b - a) / 2 * size = array + Z.of_nat mid * size) as ->.
  { unfold mid. rewrite Nat2Z.inj_add, Nat2Z.inj_div. simpl Z.of_nat at 5. lia. }
  assert (Z.to_nat ((array + Z.of_nat mid * size - array) / size) = mid) as ->.
  { replace (array + Z.of_nat mid * size - array) with (Z.of_nat mid * size) by lia.
    rewrite Z.div_mul by lia. lia. }
  destruct (lookup_lt_is_Some_2 l mid) as [x Hx]; [lia|]. rewrite Hx.
  destruct (Z.ltb_spec (compare key x) 0) as [Hn|Hn].
  { apply IH; [lia|lia|done|]. intros k y Hk Hy.
    apply (key_below x y); [done|]. by apply (sorted_lookup_le mid k). }
  destruct (Z.ltb_spec 0 (compare key x)) as [Hp|Hp].
  - replace (array + Z.of_nat mid * size + size) with (array + Z.of_nat (S mid) * size) by lia.
    apply IH; [lia|lia| |done]. intros k y Hk Hy.
    apply (key_above y x); [done|]. apply (sorted_lookup_le k mid); done || lia.
  - eexists. split; [done|]. left. exists mid, x. split; [done|]. split; [done|lia].
Qed.
End binary_search.

(** [binary_search] on a sorted array terminates, returns the address of
    an element that compares equal to the key if there is one, and a null
    pointer if there is none. *)
Theorem binary_search_correct compare l key array size :
  StrcmpLike compare → StronglySorted (le compare) l → 0 < size →
  ∃ r, binary_search compare l key array (len l) size = Ok r ∧
    search_result compare l key array size r.
Proof.
  intros Hcmp Hs Hsz. unfold binary_search.
  pose proof (binary_search_loop_correct compare l key array size Hs Hsz
    (S (Z.to_nat (len l))) 0 (length l)) as Hloop.
  replace (array + Z.of_nat 0 * size) with array in Hloop by lia.
  replace (array + size * len l) with (array + len l * size) by lia.
  apply Hloop; [lia|lia|lia|]. intros k x Hk Hx. apply lookup_lt_Some in Hx. lia.
Qed.

Lemma binary_search_correct_witness :
  ∃ r, binary_search lex [[1; 1]; [1; 2]; [2; 9]] [1; 2] 1000 3 2 = Ok r ∧
    search_result lex [[1; 1]; [1; 2]; [2; 9]] [1; 2] 1000 2 r.
Proof.
  apply (binary_search_correct lex [[1; 1]; [1; 2]; [2; 9]] [1; 2] 1000 2);
    [exact lex_strcmp_like| |lia].
  repeat constructor; unfold le; vm_compute; intros [=].
Defined.

(** ** [atoi] *)

(** The number written by decimal digits, behind the number [acc]. *)
Fixpoint decimal (acc : Z) (ds : list Z) : Z :=
  match ds with
  | [] => acc
  | d :: ds => decimal (acc * 10 + (d - 48)) ds
  end.

Definition digits (ds : list Z) : Prop := Forall (λ c, isdigit c = true) ds.
Definition spaces (ss : list Z) : Prop := Forall (λ c, isspace c = true) ss.
(** The text does not go on with a digit. *)
Definition digits_end (rest : list Z) : Prop := isdigit (default 0 (head rest)) = false.

Lemma isdigit_range c : isdigit c = true → 48 ≤ c ≤ 57.
Proof. unfold isdigit. lia. Qed.

Lemma decimal_mono acc ds : 0 ≤ acc → digits ds → acc ≤ decimal acc ds.
Proof.
  intros Ha Hd. revert acc Ha. induction Hd as [|d ds Hd _ IH]; intros acc Ha; simpl; [lia|].
  apply isdigit_range in Hd. specialize (IH (acc * 10 + (d - 48)) ltac:(lia)). lia.
Qed.

Lemma wp_atoi_digits fuel m p ds rest acc (Q : Z → mem → Prop) :
  cstring m p (ds ++ rest) → digits ds → digits_end rest → (length (ds ++ rest) < fuel)%nat →
  0 ≤ acc → decimal acc ds ≤ 2 ^ 31 → Q (- decimal acc ds) m →
  wp (atoi_digits fuel p (- acc)) Q m.
Proof.
  intros Hs Hd Hend. revert p acc fuel Hs. induction Hd as [|d ds Hd Hds IH];
    intros p acc [|fuel] Hs Hf Ha Hle HQ; try lia; cbn [atoi_digits]; simpl in *.
  - destruct rest as [|c rest].
    + apply cstring_nil in Hs. wp_step. eapply wp_load; [done|]. simpl. by wp_step.
    + apply cstring_cons in Hs as (Hc & _ & _). wp_step. eapply wp_load; [done|].
      unfold digits_end in Hend. simpl in Hend. rewrite Hend. by wp_step.
  - apply cstring_cons in Hs as (Hc & _ & Hs). wp_step. eapply wp_load; [done|]. rewrite Hd.
    apply isdigit_range in Hd.
    pose proof (decimal_mono (acc * 10 + (d - 48)) ds ltac:(lia) Hds).
    assert (int32 (- acc * 10 - (d - 48)) = - (acc * 10 + (d - 48))) as ->.
    { rewrite (signed_small 32) by lia. lia. }
    apply IH; [done|lia|lia|done|done].
Qed.

Lemma wp_skip_space fuel m p ss rest (Q : Z → mem → Prop) :
  cstring m p (ss ++ rest) → spaces ss → isspace (default 0 (head rest)) = false →
  (length (ss ++ rest) < fuel)%nat → Q (p + len ss) m → wp (skip_space fuel p) Q m.
Proof.
  intros Hs Hsp Hend. revert p fuel Hs. induction Hsp as [|c ss Hc _ IH];
    intros p [|fuel] Hs Hf HQ; try lia; cbn [skip_space]; simpl in *.
  - rewrite Z.add_0_r in HQ. destruct rest as [|c rest].
    + apply cstring_nil in Hs. wp_step. eapply wp_load; [done|]. simpl. by wp_step.
    + apply cstring_cons in Hs as (Hc & _ & _). wp_step. eapply wp_load; [done|].
      simpl in Hend. rewrite Hend. by wp_step.
  - apply cstring_cons in Hs as (Hx & _ & Hs). wp_step. eapply wp_load; [done|]. rewrite Hc.
    apply IH; [done|lia|]. by replace (p + 1 + len ss) with (p + Z.of_nat (S (length ss))) by lia.
Qed.

(** The sign of a number and its text: none, '+' or '-'. *)
Inductive sign_text : bool → list Z → Prop :=
  | sign_none : sign_text false []
  | sign_plus : sign_text false [43]
  | sign_minus : sign_text true [45].

(** [atoi] reads a decimal number: leading white space, an optional sign
    and the digits up to the first character that is not one.  For every
    number an [int] can hold, the smallest one included, it returns that
    number. *)
Theorem atoi_correct m p ss neg sg ds rest :
  cstring m p (ss ++ sg ++ ds ++ rest) → p ≠ NULL →
  spaces ss → sign_text neg sg → digits ds → ds ≠ [] → digits_end rest →
  let v := if neg then - decimal 0 ds else decimal 0 ds in
  - 2 ^ 31 ≤ v < 2 ^ 31 →
  atoi p m = Ok (v, m).
Proof.
  intros Hs Hp Hss Hsg Hds Hne Hend v Hv.
  assert (wp (atoi p) (λ r m', r = v ∧ m' = m) m) as (? & ? & -> & -> & ->)%wp_Ok; [|done].
  pose proof (cstring_fuel _ _ _ Hs) as Hfuel. rewrite !length_app in Hfuel.
  assert (0 ≤ decimal 0 ds ≤ 2 ^ 31) as Hdec.
  { pose proof (decimal_mono 0 ds ltac:(lia) Hds). unfold v in Hv. destruct neg; lia. }
  unfold atoi. wp_step. wp_step; [by rewrite (proj2 (Z.eqb_neq _ _) Hp)|].
  wp_step. apply wp_scan_fuel. destruct ds as [|d ds]; [done|].
  pose proof (proj1 (Forall_cons _ _ _) Hds) as [Hd _]. pose proof (isdigit_range d Hd) as Hdr.
  wp_step. eapply wp_skip_space; [done|done| |rewrite !length_app; lia|].
  { destruct Hsg; simpl; try done. unfold isspace. lia. }
  apply cstring_app in Hs as [_ Hs].
  assert (∀ q neg', cstring m q ((d :: ds) ++ rest) → neg' = neg →
    wp (value ← atoi_digits (S (size m)) q 0; mret (if neg' then value else int32 (- value)))
      (λ r m', r = v ∧ m' = m) m) as Htail.
  { intros q neg' Hq ->. wp_step. change 0 with (- 0) at 1.
    eapply wp_atoi_digits; [done|done|done|rewrite !length_app in *; lia|lia|lia|].
    wp_step. split; [|done]. unfold v in *. destruct neg; [done|].
    rewrite Z.opp_involutive. rewrite (signed_small 32) by lia. done. }
  destruct Hsg; simpl in Hs.
  - pose proof (proj1 (cstring_cons _ _ _ _) Hs) as (Hc & _ & _).
    wp_step. eapply wp_load; [done|]. replace (d =? 43) with false by lia. replace (d =? 45) with false by lia.
    by apply (Htail (p + len ss) false).
  - apply cstring_cons in Hs as (Hc & _ & Hs). wp_step. eapply wp_load; [done|].
    by apply (Htail (p + len ss + 1) false).
  - apply cstring_cons in Hs as (Hc & _ & Hs). wp_step. eapply wp_load; [done|].
    by apply (Htail (p + len ss + 1) true).
Qed.

(** " -42x" *)
Definition example_number : mem := list_to_map (zip (seqZ 100 6) [32; 45; 52; 50; 120; 0]).

Lemma atoi_correct_witness : atoi 100 example_number = Ok (-42, example_number).
Proof.
  apply (atoi_correct example_number 100 [32] true [45] [52; 50] [120]); try done.
  - repeat (apply cstring_cons; split; [reflexivity|split; [lia|]]). by apply cstring_nil.
  - apply Forall_cons_2; [done|apply Forall_nil_2].
  - constructor.
  - repeat (apply Forall_cons_2; [done|]). apply Forall_nil_2.
Defined.
