(* ===== verification/Hash.v ===== *)
(** * Hash tables ([lib/kernel/hash.c])

    An element is the address of a [struct hash_elem].  A bucket is the
    sequence of the elements in its list; that the list operations the code
    uses ([list_push_front], [list_remove], [list_begin] ... [list_next])
    act on that sequence is what [KernelList] shows.  The functions [hash] and
    [less] of the table are parameters, and so is the outcome of the
    allocation in [rehash]. *)
From S2P Require Import Prelude Bytes CString.

Record hash := mk_hash { elem_cnt : Z; bucket_cnt : Z; buckets : list (list Z) }.

Definition set_buckets (bs : list (list Z)) (h : hash) : hash :=
  mk_hash (elem_cnt h) (bucket_cnt h) bs.
Definition set_elem_cnt (n : Z) (h : hash) : hash := mk_hash n (bucket_cnt h) (buckets h).

Definition MIN_ELEMS_PER_BUCKET : Z := 1.
Definition BEST_ELEMS_PER_BUCKET : Z := 2.
Definition MAX_ELEMS_PER_BUCKET : Z := 4.

Definition turn_off_least_1bit (x : Z) : Z := Z.land x (wrap32 (x - 1)).
Definition is_power_of_2 (x : Z) : bool := negb (x =? 0) && (turn_off_least_1bit x =? 0).

(** [while (!is_power_of_2 (n)) n = turn_off_least_1bit (n)]: each round turns
    one of the 32 bits off. *)
Fixpoint round_down_loop (fuel : nat) (n : Z) : result Z :=
  match fuel with
  | O => Err OutOfFuel
  | S fuel => if is_power_of_2 n then Ok n else round_down_loop fuel (turn_off_least_1bit n)
  end.

Section hash.
Context (hash_func : Z → Z) (less : Z → Z → bool).

(** Neither element is less than the other. *)
Definition equal_elems (a b : Z) : bool := negb (less a b) && negb (less b a).

Definition find_bucket (e : Z) : M hash Z :=
  gets (λ h, Z.land (hash_func e) (wrap32 (bucket_cnt h - 1))).

Definition bucket_at (idx : Z) : M hash (list Z) := λ h,
  match buckets h !! Z.to_nat idx with Some b => Ok (b, h) | None => Err BadAccess end.

Fixpoint find_elem_in (b : list Z) (e : Z) : Z :=
  match b with
  | [] => NULL
  | hi :: b => if equal_elems hi e then hi else find_elem_in b e
  end.

Definition find_elem (bucket e : Z) : M hash Z := b ← bucket_at bucket; mret (find_elem_in b e).

Definition push_front (bucket e : Z) : M hash unit :=
  b ← bucket_at bucket;
  modify (λ h, set_buckets (<[Z.to_nat bucket := e :: b]> (buckets h)) h).

Definition insert_elem (bucket e : Z) : M hash unit :=
  modify (λ h, set_elem_cnt (wrap32 (elem_cnt h + 1)) h) ;; push_front bucket e.

(** [list_remove] takes the element out of the list it is in. *)
Definition remove_elem (e : Z) : M hash unit :=
  modify (λ h, set_elem_cnt (wrap32 (elem_cnt h - 1)) h) ;;
  modify (λ h, set_buckets (filter (λ x, x ≠ e) <$> buckets h) h).

(** ** Resizing *)

(** Moves the elements of one old bucket, front first, to the front of their
    new buckets. *)
Fixpoint move_bucket (b : list Z) : M hash unit :=
  match b with
  | [] => mret tt
  | e :: b => i ← find_bucket e; push_front i e ;; move_bucket b
  end.

Fixpoint move_buckets (bs : list (list Z)) : M hash unit :=
  match bs with
  | [] => mret tt
  | b :: bs => move_bucket b ;; move_buckets bs
  end.

Definition rehash (malloc_ok : bool) : M hash unit :=
  old_buckets ← gets buckets;
  old_bucket_cnt ← gets bucket_cnt;
  n ← gets elem_cnt;
  let new_bucket_cnt := n / BEST_ELEMS_PER_BUCKET in
  let new_bucket_cnt := if new_bucket_cnt <? 4 then 4 else new_bucket_cnt in
  match round_down_loop 33 new_bucket_cnt with
  | Err f => throw f
  | Ok new_bucket_cnt =>
      if new_bucket_cnt =? old_bucket_cnt then mret tt else
      if negb malloc_ok then mret tt else
      modify (λ h, mk_hash (elem_cnt h) new_bucket_cnt (replicate (Z.to_nat new_bucket_cnt) [])) ;;
      move_buckets old_buckets
  end.

(** ** The operations *)

(** [hash_clear] runs the destructor on every element, front first: the
    result is the elements in the order it sees them. *)
Definition hash_clear : M hash (list Z) :=
  bs ← gets buckets;
  modify (λ h, mk_hash 0 (bucket_cnt h) ((λ _, []) <$> buckets h)) ;;
  mret (concat bs).

(** The buckets are freed; the destructor has seen the elements. *)
Definition hash_destroy : M hash (list Z) :=
  l ← hash_clear; modify (set_buckets []) ;; mret l.

Definition hash_init (malloc_ok : bool) : M hash bool :=
  modify (λ h, mk_hash 0 4 (if malloc_ok then replicate 4 [] else [])) ;;
  if malloc_ok then _ ← hash_clear; mret true else mret false.

Definition hash_insert (malloc_ok : bool) (new : Z) : M hash Z :=
  bucket ← find_bucket new;
  old ← find_elem bucket new;
  (if old =? NULL then insert_elem bucket new else mret tt) ;;
  rehash malloc_ok ;;
  mret old.

Definition hash_replace (malloc_ok : bool) (new : Z) : M hash Z :=
  bucket ← find_bucket new;
  old ← find_elem bucket new;
  (if old =? NULL then mret tt else remove_elem old) ;;
  insert_elem bucket new ;;
  rehash malloc_ok ;;
  mret old.

Definition hash_find (e : Z) : M hash Z := bucket ← find_bucket e; find_elem bucket e.

Definition hash_delete (malloc_ok : bool) (e : Z) : M hash Z :=
  bucket ← find_bucket e;
  found ← find_elem bucket e;
  (if found =? NULL then mret tt else remove_elem found ;; rehash malloc_ok) ;;
  mret found.

(** The elements in the order [hash_apply] passes them to its action. *)
Definition hash_apply : M hash (list Z) := gets (λ h, concat (buckets h)).

Definition hash_size : M hash Z := gets elem_cnt.
Definition hash_empty : M hash bool := gets (λ h, elem_cnt h =? 0).
End hash.

(** ** Iterators

    An iterator is a bucket and the part of the bucket behind the current
    element; [hash_first] stands before the first element of bucket 0. *)
Record hash_iterator := mk_iter { it_bucket : Z; it_cur : option Z; it_rest : list Z }.

Definition hash_first : M hash hash_iterator :=
  b ← bucket_at 0; mret (mk_iter 0 None b).

(** [while (i->elem == list_end (i->bucket)) ...]: [fuel] bounds the number of
    buckets. *)
Fixpoint hash_next_loop (fuel : nat) (bucket : Z) (rest : list Z) : M hash hash_iterator :=
  match fuel with
  | O => throw OutOfFuel
  | S fuel =>
      match rest with
      | e :: rest => mret (mk_iter bucket (Some e) rest)
      | [] =>
          n ← gets bucket_cnt;
          if n <=? bucket + 1 then mret (mk_iter (bucket + 1) None []) else
          b ← bucket_at (bucket + 1); hash_next_loop fuel (bucket + 1) b
      end
  end.

Definition hash_next (i : hash_iterator) : M hash hash_iterator :=
  n ← gets bucket_cnt; hash_next_loop (S (Z.to_nat n)) (it_bucket i) (it_rest i).

Definition hash_cur (i : hash_iterator) : Z := default NULL (it_cur i).

(** ** Hash values *)

Definition FNV_32_PRIME : Z := 16777619.
Definition FNV_32_BASIS : Z := 2166136261.

Definition fnv_step (h b : Z) : Z := Z.lxor (wrap32 (h * FNV_32_PRIME)) b.

Fixpoint hash_bytes_loop (n : nat) (buf h : Z) : M mem Z :=
  match n with
  | O => mret h
  | S n => b ← load buf; hash_bytes_loop n (buf + 1) (fnv_step h b)
  end.

Definition hash_bytes (buf size : Z) : M mem Z :=
  ASSERT (negb (buf =? NULL)) ;; hash_bytes_loop (Z.to_nat size) buf FNV_32_BASIS.

Fixpoint hash_string_loop (fuel : nat) (s h : Z) : M mem Z :=
  match fuel with
  | O => throw OutOfFuel
  | S fuel => b ← load s; if b =? 0 then mret h else hash_string_loop fuel (s + 1) (fnv_step h b)
  end.

Definition hash_string (s : Z) : M mem Z :=
  ASSERT (negb (s =? NULL)) ;; fuel ← scan_fuel; hash_string_loop fuel s FNV_32_BASIS.

(** The bytes of an [int] in memory. *)
Definition hash_int (i : Z) : Z := fold_left fnv_step (le32 (wrap32 i)) FNV_32_BASIS.

(** ** Powers of two *)

Lemma turn_off_divides j x : 0 ≤ j → 0 < x < 2 ^ 32 → (2 ^ j | x) →
  (2 ^ (j + 1) | turn_off_least_1bit x).
Proof.
  intros Hj Hx [y Hy]. unfold turn_off_least_1bit. rewrite wrap32_small by lia.
  assert (0 < 2 ^ j) as Hp by (apply Z.pow_pos_nonneg; lia).
  apply Z.mod_divide; [apply Z.pow_nonzero; lia|].
  apply Z.bits_inj_iff'. intros k Hk. rewrite Z.testbit_0_l.
  destruct (decide (k < j + 1)) as [Hlt|]; [|by rewrite Z.mod_pow2_bits_high by lia].
  rewrite Z.mod_pow2_bits_low, Z.land_spec by lia.
  destruct (decide (k = j)) as [->|].
  - apply andb_false_iff. destruct (Z.even y) eqn:Hev.
    + left. rewrite Z.testbit_odd, Z.shiftr_div_pow2, Hy, Z.div_mul by lia.
      by rewrite <- Z.negb_even, Hev.
    + right. rewrite Z.testbit_odd, Z.shiftr_div_pow2 by lia.
      replace ((x - 1) / 2 ^ j) with (y - 1).
      * rewrite Z.odd_sub. by rewrite <- Z.negb_even, Hev.
      * apply (Z.div_unique _ _ _ (2 ^ j - 1)); lia.
  - apply andb_false_iff. left. rewrite Hy, Z.mul_pow2_bits_low by lia. done.
Qed.

(** Turning the lowest bit off keeps the highest bit of a number that is not
    a power of two. *)
Lemma turn_off_log2 x : 0 < x < 2 ^ 32 → is_power_of_2 x = false →
  0 < turn_off_least_1bit x < 2 ^ 32 ∧ Z.log2 (turn_off_least_1bit x) = Z.log2 x.
Proof.
  intros Hx Hp. unfold is_power_of_2 in Hp. rewrite (proj2 (Z.eqb_neq x 0)) in Hp by lia. simpl in Hp.
  unfold turn_off_least_1bit in *. rewrite wrap32_small in * by lia.
  assert (0 ≤ Z.land x (x - 1)) as H0 by (apply Z.land_nonneg; lia).
  apply Z.eqb_neq in Hp. assert (x ≠ 1) by (intros ->; by apply Hp).
  assert (Z.log2 (Z.land x (x - 1)) ≤ Z.log2 x) as Hle.
  { pose proof (Z.log2_land x (x - 1) ltac:(lia) ltac:(lia)). lia. }
  assert (Z.log2 x < 32) by (apply Z.log2_lt_pow2; lia).
  split; [split; [lia|apply Z.log2_lt_pow2; lia]|]. apply Z.le_antisymm; [done|].
  destruct (decide (Z.log2 (x - 1) = Z.log2 x)) as [Hl|Hl].
  - apply Z.log2_le_pow2; [lia|].
    assert (Z.testbit (Z.land x (x - 1)) (Z.log2 x) = true) as Hb.
    { rewrite Z.land_spec, Z.bit_log2 by lia. rewrite <- Hl. by rewrite Z.bit_log2 by lia. }
    apply Z.testbit_true in Hb; [|apply Z.log2_nonneg].
    destruct (decide (2 ^ Z.log2 x ≤ Z.land x (x - 1))) as [|Hlt]; [done|].
    rewrite Z.div_small in Hb by lia. done.
  - exfalso. apply Hp.
    assert (Z.log2 (x - 1) < Z.log2 x) as Hl' by (pose proof (Z.log2_le_mono (x - 1) x); lia).
    pose proof (Z.log2_spec x ltac:(lia)) as Hspec. pose proof (Z.log2_nonneg x).
    assert (x - 1 < 2 ^ Z.log2 x) as Hlt.
    { destruct (decide (x - 1 = 0)) as [->|]; [lia|]. apply Z.log2_lt_pow2; lia. }
    assert (x = 2 ^ Z.log2 x) as Hx2 by lia. 
    clear Hp Hspec Hlt Hl Hl' Hle H0. set (k0 := Z.log2 x) in *. clearbody k0. subst x.
    apply Z.bits_inj_iff'. intros k Hk. rewrite Z.land_spec, Z.testbit_0_l, Z.pow2_bits_eqb by lia.
    destruct (Z.eqb_spec k0 k) as [->|]; [|done]. simpl.
    replace (2 ^ k - 1) with (Z.ones k) by (rewrite Z.ones_equiv; lia). apply Z.ones_spec_high. lia.
Qed.

Lemma round_down_loop_spec fuel j x : 0 ≤ j → 0 < x < 2 ^ 32 → (2 ^ j | x) →
  Z.log2 x - j < Z.of_nat fuel → round_down_loop fuel x = Ok (2 ^ Z.log2 x).
Proof.
  revert j x. induction fuel as [|fuel IH]; intros j x Hj Hx Hdiv Hf.
  { pose proof (Z.divide_pos_le (2 ^ j) x ltac:(lia) Hdiv) as Hle.
    apply Z.log2_le_mono in Hle. rewrite Z.log2_pow2 in Hle by lia. lia. }
  cbn [round_down_loop]. destruct (is_power_of_2 x) eqn:Hp.
  - f_equal. unfold is_power_of_2, turn_off_least_1bit in Hp. rewrite wrap32_small in Hp by lia.
    apply andb_true_iff in Hp as [_ Hp%Z.eqb_eq].
    pose proof (Z.log2_spec x ltac:(lia)) as Hspec. pose proof (Z.log2_nonneg x).
    destruct (decide (x = 2 ^ Z.log2 x)) as [|Hne]; [done|exfalso].
    assert (Z.testbit (Z.land x (x - 1)) (Z.log2 x) = true) as Hb.
    { rewrite Z.land_spec, Z.bit_log2 by lia.
      assert (Z.log2 (x - 1) = Z.log2 x) as <- by (apply Z.log2_unique; lia).
      by rewrite Z.bit_log2 by (destruct (decide (x = 1)); [subst; done|lia]). }
    by rewrite Hp, Z.testbit_0_l in Hb.
  - destruct (turn_off_log2 x Hx Hp) as [Hr Hlog].
    rewrite (IH (j + 1)); [by rewrite Hlog|lia|done|by apply turn_off_divides|lia].
Qed.

(** ** What the table needs of its functions *)

Class HashLaws (hash_func : Z → Z) (less : Z → Z → bool) : Prop := {
  hl_range : ∀ e, 0 ≤ hash_func e < 2 ^ 32;
  hl_refl : ∀ e, equal_elems less e e = true;
  hl_trans : ∀ a b c, equal_elems less a b = true → equal_elems less b c = true →
               equal_elems less a c = true;
  hl_hash : ∀ a b, equal_elems less a b = true → hash_func a = hash_func b
}.

Section laws.
Context (hash_func : Z → Z) (less : Z → Z → bool) `{!HashLaws hash_func less}.
Notation eqv := (equal_elems less).

Lemma eqv_sym a b : eqv a b = eqv b a.
Proof. unfold equal_elems. apply andb_comm. Qed.

(** The elements of the table, in the order of the buckets. *)
Definition elems (h : hash) : list Z := concat (buckets h).

Definition index (n e : Z) : Z := Z.land (hash_func e) (wrap32 (n - 1)).

(** The buckets are a power of two in number, and every element is in the
    bucket its hash value names. *)
Record placed_ok (h : hash) : Prop := {
  po_pow : ∃ k, 0 ≤ k < 32 ∧ bucket_cnt h = 2 ^ k;
  po_len : len (buckets h) = bucket_cnt h;
  po_place : ∀ (i : nat) b e, buckets h !! i = Some b → e ∈ b → Z.of_nat i = index (bucket_cnt h) e
}.

Record hash_ok (h : hash) : Prop := {
  ho_placed : placed_ok h;
  ho_cnt : elem_cnt h = len (elems h);
  ho_bound : len (elems h) < 2 ^ 32 - 1;
  ho_unique : ∀ a b, a ∈ elems h → b ∈ elems h → eqv a b = true → a = b;
  ho_nodup : NoDup (elems h);
  ho_nonnull : NULL ∉ elems h
}.

Lemma index_range h e : placed_ok h → 0 ≤ index (bucket_cnt h) e < bucket_cnt h.
Proof using HashLaws0.
  intros [(k & Hk & Hn) _ _]. unfold index. rewrite Hn.
  assert (2 ^ k ≤ 2 ^ 31) by (apply Z.pow_le_mono_r; lia).
  assert (0 < 2 ^ k) by (apply Z.pow_pos_nonneg; lia).
  rewrite wrap32_small by lia. replace (2 ^ k - 1) with (Z.ones k) by (rewrite Z.ones_equiv; lia).
  rewrite Z.land_ones by lia. by apply Z.mod_pos_bound.
Qed.

Lemma bucket_lookup h e : placed_ok h →
  ∃ b, buckets h !! Z.to_nat (index (bucket_cnt h) e) = Some b.
Proof using HashLaws0.
  intros Hp. apply lookup_lt_is_Some_2. pose proof (index_range h e Hp).
  pose proof (po_len _ Hp). lia.
Qed.

Lemma wp_bucket_at i b (Q : list Z → hash → Prop) h :
  buckets h !! Z.to_nat i = Some b → Q b h → wp (bucket_at i) Q h.
Proof. unfold wp, bucket_at. by intros ->. Qed.

Lemma elem_of_elems h e : e ∈ elems h ↔ ∃ (i : nat) b, buckets h !! i = Some b ∧ e ∈ b.
Proof.
  unfold elems. induction (buckets h) as [|b bs IH]; simpl; [set_solver|].
  rewrite elem_of_app, IH. split.
  - intros [Hb|(i & b' & Hi & He)]; [by exists 0%nat, b|by exists (S i), b'].
  - intros ([|i] & b' & Hi & He); simpl in Hi; [left; by simplify_eq|right; eauto].
Qed.

(** An element of the table that is equal to [e] is in the bucket of [e]. *)
Lemma equal_in_bucket h e x b : placed_ok h →
  buckets h !! Z.to_nat (index (bucket_cnt h) e) = Some b → x ∈ elems h → eqv x e = true → x ∈ b.
Proof using HashLaws0.
  intros Hp Hb Hx Heq. apply elem_of_elems in Hx as (i & b' & Hi & Hx).
  pose proof (po_place _ Hp i b' x Hi Hx) as Hix. unfold index in *.
  pose proof (hl_hash (hash_func := hash_func) x e Heq) as Hh. rewrite Hh in Hix. rewrite <- Hix, Nat2Z.id in Hb. by simplify_eq.
Qed.

Lemma find_elem_in_spec b e :
  (find_elem_in less b e = NULL ∧ (NULL ∉ b → ∀ x, x ∈ b → eqv x e = false)) ∨
  (find_elem_in less b e ∈ b ∧ eqv (find_elem_in less b e) e = true).
Proof.
  induction b as [|x b IH]; simpl; [left; split; [done|set_solver]|].
  destruct (eqv x e) eqn:Hx.
  - right. split; [set_solver|done].
  - destruct IH as [[Hn Hall]|[Hin Heq]].
    + left. split; [done|]. intros H0 y [->|Hy]%elem_of_cons; [done|]. apply Hall; set_solver.
    + right. split; [set_solver|done].
Qed.

(** The element of the table that is equal to [e], if there is one. *)
Definition member_equal (h : hash) (e r : Z) : Prop :=
  (r = NULL ∧ ∀ x, x ∈ elems h → eqv x e = false) ∨ (r ∈ elems h ∧ r ≠ NULL ∧ eqv r e = true).

Lemma wp_hash_find e (Q : Z → hash → Prop) h :
  hash_ok h → (∀ r, member_equal h e r → Q r h) → wp (hash_find hash_func less e) Q h.
Proof using HashLaws0.
  intros Hok HQ. pose proof (ho_placed _ Hok) as Hp. unfold hash_find, find_bucket, find_elem.
  wp_step. wp_step. fold (index (bucket_cnt h) e).
  destruct (bucket_lookup h e Hp) as [b Hb]. wp_step. eapply wp_bucket_at; [done|]. wp_step. apply HQ.
  assert (∀ x, x ∈ b → x ∈ elems h) as Hsub by (intros x Hx; apply elem_of_elems; eauto).
  pose proof (ho_nonnull _ Hok) as Hnn.
  destruct (find_elem_in_spec b e) as [[Hn Hall]|[Hin Heq]].
  - left. split; [done|]. intros x Hx. apply not_true_is_false. intros Heq.
    rewrite Hall in Heq; [done|by intros ?%Hsub|by eapply equal_in_bucket].
  - right. split; [auto|]. split; [|done]. intros H0. rewrite H0 in Hin. auto.
Qed.

(** ** Changing the buckets *)

Lemma concat_push (bs : list (list Z)) i b e : bs !! i = Some b →
  concat (<[i := e :: b]> bs) ≡ₚ e :: concat bs.
Proof.
  intros Hi. rewrite <- (take_drop_middle bs i b Hi) at 2.
  rewrite insert_take_drop by (by apply lookup_lt_Some in Hi).
  rewrite !concat_app. simpl. symmetry. apply Permutation_middle.
Qed.

Lemma concat_filter (e : Z) (bs : list (list Z)) :
  concat (filter (λ x, x ≠ e) <$> bs) = filter (λ x, x ≠ e) (concat bs).
Proof. induction bs as [|b bs IH]; simpl; [done|]. by rewrite filter_app, <- IH. Qed.

Lemma wp_push_front e h : placed_ok h →
  wp (push_front (index (bucket_cnt h) e) e) (λ _ h',
    placed_ok h' ∧ elems h' ≡ₚ e :: elems h ∧ elem_cnt h' = elem_cnt h ∧
    bucket_cnt h' = bucket_cnt h) h.
Proof using HashLaws0.
  intros Hp. destruct (bucket_lookup h e Hp) as [b Hb]. pose proof (index_range h e Hp).
  unfold push_front. wp_step. eapply wp_bucket_at; [done|]. wp_step.
  split_and!; simpl; try done; [|by apply concat_push]. destruct Hp as [Hpow Hlen Hplace].
  constructor; simpl; [done|by rewrite length_insert|].
  intros i b' x Hi Hx. apply list_lookup_insert_Some in Hi as [(<- & <- & _)|[_ Hi]].
  - apply elem_of_cons in Hx as [->|Hx]; [lia|]. by apply (Hplace _ b).
  - by apply (Hplace _ b').
Qed.

Lemma wp_move_bucket b h : placed_ok h →
  wp (move_bucket hash_func b) (λ _ h',
    placed_ok h' ∧ elems h' ≡ₚ b ++ elems h ∧ elem_cnt h' = elem_cnt h) h.
Proof using HashLaws0.
  revert h. induction b as [|e b IH]; intros h Hp; cbn [move_bucket]; [by wp_step|].
  unfold find_bucket. wp_step. wp_step. fold (index (bucket_cnt h) e).
  wp_step. eapply wp_mono; [by apply wp_push_front|]. intros [] h1 (Hp1 & He1 & Hc1 & _).
  eapply wp_mono; [by apply IH|]. intros [] h2 (Hp2 & He2 & Hc2).
  split; [done|]. split; [|congruence]. rewrite He2, He1. simpl. by rewrite Permutation_middle.
Qed.

Lemma wp_move_buckets bs h : placed_ok h →
  wp (move_buckets hash_func bs) (λ _ h',
    placed_ok h' ∧ elems h' ≡ₚ concat bs ++ elems h ∧ elem_cnt h' = elem_cnt h) h.
Proof using HashLaws0.
  revert h. induction bs as [|b bs IH]; intros h Hp; cbn [move_buckets]; [by wp_step|].
  wp_step. eapply wp_mono; [by apply wp_move_bucket|]. intros [] h1 (Hp1 & He1 & Hc1).
  eapply wp_mono; [by apply IH|]. intros [] h2 (Hp2 & He2 & Hc2).
  split; [done|]. split; [|congruence]. rewrite He2, He1. simpl. rewrite !app_assoc.
  by rewrite (Permutation_app_comm (concat bs) b).
Qed.

(** An empty table of [2 ^ k] buckets. *)
Lemma placed_ok_empty c k : 0 ≤ k < 32 →
  placed_ok (mk_hash c (2 ^ k) (replicate (Z.to_nat (2 ^ k)) [])) ∧
  elems (mk_hash c (2 ^ k) (replicate (Z.to_nat (2 ^ k)) [])) = [].
Proof.
  intros Hk. assert (0 < 2 ^ k) by (apply Z.pow_pos_nonneg; lia). split.
  - constructor; simpl; [by exists k|rewrite length_replicate; lia|].
    intros i b e Hi. apply lookup_replicate in Hi as [-> _]. set_solver.
  - unfold elems. simpl. induction (Z.to_nat (2 ^ k)); done.
Qed.

Lemma wp_rehash ok h : placed_ok h → 0 ≤ elem_cnt h < 2 ^ 32 →
  wp (rehash hash_func ok) (λ _ h', placed_ok h' ∧ elems h' ≡ₚ elems h ∧ elem_cnt h' = elem_cnt h) h.
Proof using HashLaws0.
  intros Hp Hc. unfold rehash, BEST_ELEMS_PER_BUCKET. do 6 wp_step.
  set (n := if elem_cnt h / 2 <? 4 then 4 else elem_cnt h / 2).
  assert (4 ≤ n < 2 ^ 31) as Hn by (unfold n; destruct (Z.ltb_spec (elem_cnt h / 2) 4); div_lia).
  assert (2 ≤ Z.log2 n < 31) as Hlog.
  { split; [apply (Z.log2_le_mono 4); lia|apply Z.log2_lt_pow2; lia]. }
  rewrite (round_down_loop_spec 33 0) by (lia || apply Z.divide_1_l).
  destruct (2 ^ Z.log2 n =? bucket_cnt h); [by wp_step|].
  destruct ok; simpl; [|by wp_step]. wp_step. wp_step.
  destruct (placed_ok_empty (elem_cnt h) (Z.log2 n)) as [Hpe Hee]; [lia|].
  eapply wp_mono; [by apply wp_move_buckets|]. intros [] h' (Hp' & He' & Hc').
  split; [done|]. split; [|done]. by rewrite He', Hee, app_nil_r.
Qed.

(** ** The operations on the set of elements *)

(** What a list must satisfy to be the contents of a table. *)
Record contents_ok (l : list Z) : Prop := {
  co_bound : len l < 2 ^ 32 - 1;
  co_unique : ∀ a b, a ∈ l → b ∈ l → eqv a b = true → a = b;
  co_nodup : NoDup l;
  co_nonnull : NULL ∉ l
}.

Lemma hash_ok_contents h : hash_ok h → contents_ok (elems h).
Proof. intros []. by constructor. Qed.

Lemma hash_ok_intro h l : placed_ok h → elems h ≡ₚ l → elem_cnt h = len l → contents_ok l → hash_ok h.
Proof.
  intros Hp He Hc []. constructor; try setoid_rewrite He; done.
Qed.

Lemma contents_ok_cons l e : contents_ok l → e ≠ NULL → (∀ x, x ∈ l → eqv x e = false) →
  len l + 1 < 2 ^ 32 - 1 → contents_ok (e :: l).
Proof using HashLaws0.
  intros [Hb Hu Hn H0] He Hall Hlen.
  assert (e ∉ l) as Hnot.
  { intros Hin%Hall. by rewrite (hl_refl (hash_func := hash_func) e) in Hin. }
  constructor; [simpl; lia| |by apply NoDup_cons|set_solver].
  intros a b [->|Ha]%elem_of_cons [->|Hb']%elem_of_cons Hab; try done.
  - rewrite eqv_sym, Hall in Hab by done. done.
  - by rewrite Hall in Hab.
  - by apply Hu.
Qed.

Lemma contents_ok_filter l e : contents_ok l → contents_ok (filter (λ x, x ≠ e) l).
Proof.
  intros [Hb Hu Hn H0]. constructor.
  - pose proof (length_filter (λ x, x ≠ e) l). lia.
  - intros a b [_ Ha]%list_elem_of_filter [_ Hb']%list_elem_of_filter. by apply Hu.
  - by apply NoDup_filter.
  - intros [_ ?]%list_elem_of_filter. done.
Qed.

Lemma filter_null (l : list Z) : NULL ∉ l → filter (λ x, x ≠ NULL) l = l.
Proof.
  induction l as [|x l IH]; intros H0; [done|].
  rewrite not_elem_of_cons in H0. rewrite filter_cons_True by naive_solver. f_equal. naive_solver.
Qed.

Lemma filter_out_perm (l : list Z) e : NoDup l → e ∈ l → l ≡ₚ e :: filter (λ x, x ≠ e) l.
Proof.
  induction 1 as [|x l Hx Hl IH]; [set_solver|]. intros [->|He]%elem_of_cons.
  - rewrite filter_cons_False by naive_solver. constructor.
    assert (filter (λ y, y ≠ x) l = l) as ->; [|done].
    clear -Hx. induction l as [|y l IH]; [done|].
    rewrite not_elem_of_cons in Hx. rewrite filter_cons_True by naive_solver. f_equal. naive_solver.
  - rewrite filter_cons_True by (by intros ->). etrans; [by apply perm_skip, IH|apply perm_swap].
Qed.

Lemma wp_find_elem e (Q : Z → hash → Prop) h : hash_ok h →
  (∀ r, member_equal h e r → Q r h) → wp (find_elem less (index (bucket_cnt h) e) e) Q h.
Proof using HashLaws0.
  intros Hok HQ. pose proof (wp_hash_find e Q h Hok HQ) as Hf.
  unfold hash_find, find_bucket in Hf. exact Hf.
Qed.

Lemma wp_insert_elem e h : placed_ok h → 0 ≤ elem_cnt h < 2 ^ 32 - 1 →
  wp (insert_elem (index (bucket_cnt h) e) e) (λ _ h',
    placed_ok h' ∧ elems h' ≡ₚ e :: elems h ∧ elem_cnt h' = elem_cnt h + 1) h.
Proof using HashLaws0.
  intros Hp Hc. unfold insert_elem. wp_step. wp_step. rewrite wrap32_small by lia.
  set (h1 := set_elem_cnt (elem_cnt h + 1) h).
  assert (placed_ok h1) as Hp1 by (destruct Hp; by constructor).
  eapply wp_mono; [exact (wp_push_front e h1 Hp1)|]. intros [] h' (? & ? & ? & _). done.
Qed.

Lemma wp_remove_elem e h : hash_ok h → e ∈ elems h →
  wp (remove_elem e) (λ _ h', placed_ok h' ∧ elems h' = filter (λ x, x ≠ e) (elems h) ∧
    elem_cnt h' = elem_cnt h - 1 ∧ bucket_cnt h' = bucket_cnt h) h.
Proof.
  intros Hok He. unfold remove_elem. wp_step. wp_step. wp_step. simpl.
  assert (0 < len (elems h)) by (destruct (elems h); [set_solver|simpl; lia]).
  pose proof (ho_cnt _ Hok). pose proof (ho_bound _ Hok). rewrite wrap32_small by lia.
  split_and!; try done; [|apply concat_filter].
  destruct (ho_placed _ Hok) as [Hpow Hlen Hplace]. constructor; simpl; [done|by rewrite length_fmap|].
  intros i b x Hi Hx. rewrite list_lookup_fmap in Hi.
  destruct (buckets h !! i) as [b0|] eqn:Hb0; [|done]. simplify_eq/=.
  apply list_elem_of_filter in Hx as [_ Hx]. by apply (Hplace i b0).
Qed.

(** [table_result h' l]: the table is well formed and holds the elements [l]. *)
Definition table_result (h' : hash) (l : list Z) : Prop := hash_ok h' ∧ elems h' ≡ₚ l.

(** Resizing ends an operation whose elements are [l]. *)
Lemma wp_rehash_end ok h l (r : Z) : placed_ok h → elems h ≡ₚ l → elem_cnt h = len l → contents_ok l →
  wp (rehash hash_func ok ;; mret r) (λ r' h', r' = r ∧ table_result h' l) h.
Proof using HashLaws0.
  intros Hp He Hc Hl. pose proof (co_bound _ Hl). wp_step.
  eapply wp_mono; [apply wp_rehash; [done|lia]|]. intros [] h' (Hp' & He' & Hc'). wp_step.
  split; [done|]. assert (elems h' ≡ₚ l) by (by rewrite He'). split; [|done].
  apply (hash_ok_intro h' l); [done|done|congruence|done].
Qed.

Lemma wp_hash_insert ok e h : hash_ok h → e ≠ NULL → len (elems h) + 1 < 2 ^ 32 - 1 →
  wp (hash_insert hash_func less ok e) (λ r h', member_equal h e r ∧
    table_result h' (if decide (r = NULL) then e :: elems h else elems h)) h.
Proof using HashLaws0.
  intros Hok He Hlen. pose proof (hash_ok_contents h Hok) as Hco. pose proof (ho_cnt _ Hok) as Hc.
  unfold hash_insert, find_bucket. wp_step. wp_step. fold (index (bucket_cnt h) e).
  wp_step. apply wp_find_elem; [done|]. intros r Hr. destruct (Z.eqb_spec r NULL) as [->|Hne].
  - wp_step. eapply wp_mono; [apply wp_insert_elem; [apply Hok|lia]|]. intros [] h1 (Hp1 & He1 & Hc1).
    eapply wp_mono; [apply (wp_rehash_end ok h1 (e :: elems h)); try done|].
    + simpl. lia.
    + apply contents_ok_cons; try done. by destruct Hr as [[_ ?]|(_ & ? & _)].
    + intros r' h' [-> ?]. by split.
  - wp_step. wp_step. eapply wp_mono; [apply (wp_rehash_end ok h (elems h)); try done; apply Hok|].
    intros r' h' [-> ?]. by rewrite decide_False.
Qed.

Lemma wp_hash_delete ok e h : hash_ok h →
  wp (hash_delete hash_func less ok e) (λ r h', member_equal h e r ∧
    table_result h' (filter (λ x, x ≠ r) (elems h))) h.
Proof using HashLaws0.
  intros Hok. pose proof (hash_ok_contents h Hok) as Hco.
  unfold hash_delete, find_bucket. wp_step. wp_step. fold (index (bucket_cnt h) e).
  wp_step. apply wp_find_elem; [done|]. intros r Hr. destruct (Z.eqb_spec r NULL) as [->|Hne].
  - wp_step. wp_step. wp_step. split; [done|].
    rewrite filter_null by apply Hok. by split.
  - destruct Hr as [[? _]|(Hin & _ & Heq)]; [done|].
    pose proof (filter_out_perm _ _ (ho_nodup _ Hok) Hin) as Hperm.
    wp_step. wp_step. eapply wp_mono; [by apply wp_remove_elem|]. intros [] h1 (Hp1 & He1 & Hc1 & _).
    apply Permutation_length in Hperm. simpl in Hperm. pose proof (ho_cnt _ Hok). pose proof (ho_bound _ Hok).
    pose proof (wp_rehash_end ok h1 (filter (λ x, x ≠ r) (elems h)) r Hp1 ltac:(by rewrite He1)
      ltac:(lia) (contents_ok_filter _ _ Hco)) as Hend.
    unfold wp, mbind, M_bind in Hend |- *. destruct (rehash hash_func ok h1) as [[[] h2]|]; [|done].
    destruct Hend as [_ ?]. split; [by right|done].
Qed.

Lemma wp_hash_replace ok e h : hash_ok h → e ≠ NULL → len (elems h) + 1 < 2 ^ 32 - 1 →
  wp (hash_replace hash_func less ok e) (λ r h', member_equal h e r ∧
    table_result h' (e :: filter (λ x, x ≠ r) (elems h))) h.
Proof using HashLaws0.
  intros Hok He Hlen. pose proof (hash_ok_contents h Hok) as Hco. pose proof (ho_cnt _ Hok) as Hc.
  unfold hash_replace, find_bucket. wp_step. wp_step. fold (index (bucket_cnt h) e).
  wp_step. apply wp_find_elem; [done|]. intros r Hr. wp_step.
  set (l := filter (λ x, x ≠ r) (elems h)).
  assert (contents_ok l) as Hl by (by apply contents_ok_filter).
  assert (∀ x, x ∈ l → eqv x e = false) as Hnone.
  { intros x [Hxr Hx]%list_elem_of_filter. destruct Hr as [[-> Hall]|(Hin & _ & Heq)]; [by apply Hall|].
    apply not_true_is_false. intros Hxe. apply Hxr.
    apply (ho_unique _ Hok); [done..|]. apply (hl_trans (hash_func := hash_func) _ e); [done|].
    by rewrite eqv_sym. }
  assert (∀ h1, placed_ok h1 → elems h1 = l → elem_cnt h1 = len l → bucket_cnt h1 = bucket_cnt h →
    wp (insert_elem (index (bucket_cnt h) e) e ;; rehash hash_func ok ;; mret r)
      (λ r0 h', member_equal h e r0 ∧ table_result h' (e :: filter (λ x, x ≠ r0) (elems h))) h1) as Hrest.
  { intros h1 Hp1 He1 Hc1 Hb1. pose proof (co_bound _ Hl).
    assert (len l ≤ len (elems h)) by (pose proof (length_filter (λ x, x ≠ r) (elems h)); unfold l; lia).
    rewrite <- Hb1. wp_step. eapply wp_mono; [apply wp_insert_elem; [done|lia]|].
    intros [] h2 (Hp2 & He2 & Hc2). rewrite He1 in He2.
    eapply wp_mono; [apply (wp_rehash_end ok h2 (e :: l)); try done|].
    - simpl. lia.
    - apply contents_ok_cons; done || lia.
    - intros r' h' [-> ?]. by split. }
  destruct (Z.eqb_spec r NULL) as [->|Hne].
  - wp_step. unfold l in Hrest. rewrite filter_null in Hrest by apply Hok.
    apply Hrest; try done. apply Hok.
  - destruct Hr as [[? _]|(Hin & _ & Heq)]; [done|].
    pose proof (filter_out_perm _ _ (ho_nodup _ Hok) Hin) as Hperm.
    apply Permutation_length in Hperm. simpl in Hperm. fold l in Hperm.
    eapply wp_mono; [by apply wp_remove_elem|]. intros [] h1 (Hp1 & He1 & Hc1 & Hb1).
    apply Hrest; try done. lia.
Qed.
End laws.

(** C36: The hash table implements a set of elements, whatever its functions
    [hash] and [less], as long as equality is an equivalence and equal
    elements hash alike.  On a well-formed table and whether or not memory
    for resizing is available, [hash_find] returns the member equal to its
    argument or a null pointer; [hash_insert] adds the element unless an
    equal one is there, [hash_replace] adds it in place of the equal one, and
    [hash_delete] removes the equal one; all return the equal member, and the
    table stays well formed: every element is in the bucket of its hash
    value, the number of buckets is a power of two, the count is right and no
    two members are equal. *)
Theorem hash_ops_correct hash_func less h e ok :
  HashLaws hash_func less → hash_ok hash_func less h → e ≠ NULL →
  len (elems h) + 1 < 2 ^ 32 - 1 →
  (∃ r, hash_find hash_func less e h = Ok (r, h) ∧ member_equal less h e r) ∧
  (∃ r h', hash_insert hash_func less ok e h = Ok (r, h') ∧ member_equal less h e r ∧
     hash_ok hash_func less h' ∧ elems h' ≡ₚ (if decide (r = NULL) then e :: elems h else elems h)) ∧
  (∃ r h', hash_replace hash_func less ok e h = Ok (r, h') ∧ member_equal less h e r ∧
     hash_ok hash_func less h' ∧ elems h' ≡ₚ e :: filter (λ x, x ≠ r) (elems h)) ∧
  (∃ r h', hash_delete hash_func less ok e h = Ok (r, h') ∧ member_equal less h e r ∧
     hash_ok hash_func less h' ∧ elems h' ≡ₚ filter (λ x, x ≠ r) (elems h)).
Proof.
  intros Hlaws Hok He Hlen. split_and!.
  - assert (wp (hash_find hash_func less e) (λ r h', member_equal less h e r ∧ h' = h) h)
      as (r & h' & Hrun & Hr & ->)%wp_Ok; [by apply wp_hash_find|]. eauto.
  - pose proof (wp_hash_insert hash_func less ok e h Hok He Hlen) as (r & h' & ? & ? & [? ?])%wp_Ok.
    by exists r, h'.
  - pose proof (wp_hash_replace hash_func less ok e h Hok He Hlen) as (r & h' & ? & ? & [? ?])%wp_Ok.
    by exists r, h'.
  - pose proof (wp_hash_delete hash_func less ok e h Hok) as (r & h' & ? & ? & [? ?])%wp_Ok.
    by exists r, h'.
Qed.

(** Elements that hash to their own address and are compared by it modulo
    100. *)
Definition example_hash (e : Z) : Z := e mod 100.
Definition example_less (a b : Z) : bool := a mod 100 <? b mod 100.

Lemma example_laws : HashLaws example_hash example_less.
Proof.
  unfold example_hash, example_less. constructor; unfold equal_elems.
  - intros e. pose proof (Z.mod_pos_bound e 100). lia.
  - intros e. lia.
  - intros a b c. lia.
  - intros a b. lia.
Qed.

Definition example_table : hash := mk_hash 2 4 [[4]; [105]; []; []].

Lemma example_table_ok : hash_ok example_hash example_less example_table.
Proof.
  constructor; unfold elems; simpl.
  - constructor; simpl; [exists 2; lia|lia|].
    intros [|[|[|[|]]]] b e Hb He; simplify_eq/=; try set_solver;
      apply list_elem_of_singleton in He as ->; reflexivity.
  - lia.
  - lia.
  - intros a b Ha Hb. rewrite !elem_of_cons, elem_of_nil in Ha, Hb.
    destruct Ha as [->|[->|[]]], Hb as [->|[->|[]]]; vm_compute; congruence.
  - apply (bool_decide_unpack _). reflexivity.
  - apply (bool_decide_unpack _). reflexivity.
Qed.

Lemma hash_ops_correct_witness :
  (∃ r h', hash_insert example_hash example_less true 205 example_table = Ok (r, h') ∧
     member_equal example_less example_table 205 r ∧ hash_ok example_hash example_less h' ∧
     elems h' ≡ₚ (if decide (r = NULL) then 205 :: elems example_table else elems example_table)).
Proof.
  refine (proj1 (proj2 (hash_ops_correct example_hash example_less example_table 205 true
    example_laws example_table_ok _ _))); [lia|vm_compute; reflexivity].
Defined.
