(* ===== verification/Arith64.v ===== *)
(** * 64-bit division ([lib/arithmetic.c])

    The routines GCC calls for the division of [long long] values on i386,
    built on the DIVL instruction, which divides a 64-bit by a 32-bit number
    and traps when the quotient does not fit in 32 bits. *)
From S2P Require Import Prelude.

Definition divl (n d : Z) : result Z :=
  let n1 := wrap32 (Z.shiftr n 32) in
  let n0 := wrap32 n in
  if d <=? n1 then Err DivideError else Ok ((n1 * 2 ^ 32 + n0) / d).

Definition nlz (x : Z) : Z :=
  let n := 0 in
  let '(n, x) := if x <=? 0x0000FFFF then (n + 16, wrap32 (Z.shiftl x 16)) else (n, x) in
  let '(n, x) := if x <=? 0x00FFFFFF then (n + 8, wrap32 (Z.shiftl x 8)) else (n, x) in
  let '(n, x) := if x <=? 0x0FFFFFFF then (n + 4, wrap32 (Z.shiftl x 4)) else (n, x) in
  let '(n, x) := if x <=? 0x3FFFFFFF then (n + 2, wrap32 (Z.shiftl x 2)) else (n, x) in
  if x <=? 0x7FFFFFFF then n + 1 else n.

Definition udiv64 (n d : Z) : result Z :=
  if Z.shiftr d 32 =? 0 then
    let b := 2 ^ 32 in
    let n1 := wrap32 (Z.shiftr n 32) in
    let n0 := wrap32 n in
    let d0 := wrap32 d in
    if d0 =? 0 then Err DivideError else
    q ← divl (wrap64 (b * (n1 mod d0) + n0)) d0;
    Ok (wrap64 (q + wrap64 (b * (n1 / d0))))
  else if n <? d then Ok 0
  else
    let d1 := wrap32 (Z.shiftr d 32) in
    let s := nlz d1 in
    q ← divl (Z.shiftr n 1) (wrap32 (Z.shiftr (wrap64 (Z.shiftl d s)) 32));
    let q := Z.shiftr q (31 - s) in
    Ok (if wrap64 (n - wrap64 ((q - 1) * d)) <? d then wrap64 (q - 1) else q).

(** The remainder is computed in 64 bits and returned as a [uint32_t]. *)
Definition umod64 (n d : Z) : result Z :=
  q ← udiv64 n d; Ok (wrap32 (wrap64 (n - wrap64 (d * q)))).

Definition sdiv64 (n d : Z) : result Z :=
  let n_abs := if 0 <=? n then n else wrap64 (- n) in
  let d_abs := if 0 <=? d then d else wrap64 (- d) in
  q_abs ← udiv64 n_abs d_abs;
  Ok (if Bool.eqb (n <? 0) (d <? 0) then int64 q_abs else int64 (- int64 q_abs)).

Definition smod64 (n d : Z) : result Z :=
  q ← sdiv64 n d; Ok (int32 (int64 (n - d * q))).

Definition __moddi3 (n d : Z) : result Z := smod64 n d.
Definition __umoddi3 (n d : Z) : result Z := umod64 n d.

(** ** Counting leading zeros *)

Lemma nlz_spec x : 0 < x < 2 ^ 32 → 0 ≤ nlz x < 32 ∧ 2 ^ 31 ≤ x * 2 ^ nlz x < 2 ^ 32.
Proof.
  intros Hx. unfold nlz.
  assert (∀ k y, 0 ≤ k → 0 < y → y * 2 ^ k < 2 ^ 32 → wrap32 (Z.shiftl y k) = y * 2 ^ k) as Hsh.
  { intros k y Hk Hy Hlt. rewrite Z.shiftl_mul_pow2 by done. apply wrap32_small.
    assert (0 < 2 ^ k) by (apply Z.pow_pos_nonneg; lia). nia. }
  destruct (Z.leb_spec x 0x0000FFFF); rewrite ?(Hsh 16) by lia;
  match goal with |- context [?y <=? 0x00FFFFFF] => destruct (Z.leb_spec y 0x00FFFFFF) end;
  rewrite ?Hsh by lia;
  match goal with |- context [?y <=? 0x0FFFFFFF] => destruct (Z.leb_spec y 0x0FFFFFFF) end;
  rewrite ?Hsh by lia;
  match goal with |- context [?y <=? 0x3FFFFFFF] => destruct (Z.leb_spec y 0x3FFFFFFF) end;
  rewrite ?Hsh by lia;
  match goal with |- context [?y <=? 0x7FFFFFFF] => destruct (Z.leb_spec y 0x7FFFFFFF) end;
  simpl; lia.
Qed.

(** ** Unsigned division *)

Lemma divl_ok n d : 0 ≤ n < 2 ^ 64 → 0 < d → n < d * 2 ^ 32 → divl n d = Ok (n / d).
Proof.
  intros Hn Hd Hlt. unfold divl. rewrite Z.shiftr_div_pow2 by lia.
  rewrite (wrap32_small (n / 2 ^ 32)) by div_lia. rewrite (proj2 (Z.leb_gt _ _)) by div_lia.
  f_equal. f_equal. unfold wrap32. div_lia.
Qed.

(** The quotient by a 32-bit divisor, one half at a time. *)
Lemma udiv64_small n d : 0 ≤ n < 2 ^ 64 → 0 < d < 2 ^ 32 → udiv64 n d = Ok (n / d).
Proof.
  intros Hn Hd. unfold udiv64. rewrite !Z.shiftr_div_pow2 by lia.
  rewrite (Z.div_small d) by lia. simpl (0 =? 0). cbv iota.
  rewrite (wrap32_small d) by lia. rewrite (wrap32_small (n / 2 ^ 32)) by div_lia.
  rewrite (proj2 (Z.eqb_neq d 0)) by lia.
  set (n1 := n / 2 ^ 32). set (n0 := wrap32 n).
  assert (n = 2 ^ 32 * n1 + n0) as Hsplit by (unfold n1, n0, wrap32; div_lia).
  assert (0 ≤ n0 < 2 ^ 32) by (apply wrap32_range). assert (0 ≤ n1 < 2 ^ 32) by (unfold n1; div_lia).
  pose proof (Z.mod_pos_bound n1 d ltac:(lia)) as Hm.
  assert (0 ≤ 2 ^ 32 * (n1 mod d) + n0 < d * 2 ^ 32) as Hr by nia.
  rewrite (wrap64_small (2 ^ 32 * (n1 mod d) + n0)) by lia. rewrite divl_ok by lia. simpl.
  assert (n / d = (2 ^ 32 * (n1 mod d) + n0) / d + 2 ^ 32 * (n1 / d)) as Hq.
  { rewrite <- Z.div_add by lia. f_equal. rewrite Hsplit.
    pose proof (Z.div_mod n1 d ltac:(lia)). nia. }
  pose proof (Z.div_pos n1 d ltac:(lia) ltac:(lia)).
  pose proof (Z.div_pos (2 ^ 32 * (n1 mod d) + n0) d ltac:(lia) ltac:(lia)).
  assert (n / d < 2 ^ 64) by (apply Z.div_lt_upper_bound; nia).
  rewrite (wrap64_small (2 ^ 32 * (n1 / d))) by lia. rewrite wrap64_small by lia. by rewrite Hq.
Qed.

(** Dividing by the leading 32 bits of the divisor [d] gives the quotient or
    one more.  [e] is the number of bits left out. *)
Lemma quotient_estimate n d e : 0 ≤ n < 2 ^ 64 → 1 ≤ e ≤ 32 → 2 ^ (31 + e) ≤ d < 2 ^ (32 + e) →
  let q := n / (d / 2 ^ e * 2 ^ e) in
  n / d ≤ q ≤ n / d + 1.
Proof.
  intros Hn He Hd q.
  assert (0 < 2 ^ e) as Hp by (apply Z.pow_pos_nonneg; lia).
  rewrite !Z.pow_add_r in Hd by lia.
  set (d1 := d / 2 ^ e) in *. set (r := d mod 2 ^ e).
  assert (d = d1 * 2 ^ e + r) as Hdr by (unfold d1, r; pose proof (Z.div_mod d (2 ^ e) ltac:(lia)); lia).
  assert (0 ≤ r < 2 ^ e) as Hr by (apply Z.mod_pos_bound; lia).
  assert (2 ^ 31 ≤ d1) as Hd1 by nia.
  assert (2 ^ 31 * 2 ^ e ≤ d1 * 2 ^ e) as Hd' by (apply Z.mul_le_mono_nonneg_r; lia).
  pose proof (Z.mul_div_le n (d1 * 2 ^ e) ltac:(lia)) as Hq. fold q in Hq.
  assert (0 ≤ q) as Hq0 by (apply Z.div_pos; lia).
  assert (q * (d1 * 2 ^ e) ≤ n) as Hqn by lia.
  split; [apply Z.div_le_compat_l; nia|].
  enough (q - 1 ≤ n / d) by lia. apply Z.div_le_lower_bound; [lia|].
  enough (q * r ≤ d) by nia.
  destruct (decide (e = 1)) as [->|].
  - change (2 ^ 1) with 2 in *. assert (q < 2 ^ 32) by nia. nia.
  - assert (q * 2 ^ e < 2 ^ 33) as Hqe by nia.
    assert (4 ≤ 2 ^ e) by (change 4 with (2 ^ 2); apply Z.pow_le_mono_r; lia). nia.
Qed.

Lemma udiv64_large n d : 0 ≤ n < 2 ^ 64 → 2 ^ 32 ≤ d < 2 ^ 64 → udiv64 n d = Ok (n / d).
Proof.
  intros Hn Hd. unfold udiv64. rewrite (Z.shiftr_div_pow2 d) by lia.
  rewrite (proj2 (Z.eqb_neq (d / 2 ^ 32) 0)) by div_lia.
  destruct (Z.ltb_spec n d) as [Hlt|Hge]; [by rewrite Z.div_small by lia|].
  assert (0 < d / 2 ^ 32 < 2 ^ 32) as Hd1 by div_lia. rewrite (wrap32_small (d / 2 ^ 32)) by lia.
  destruct (nlz_spec (d / 2 ^ 32) Hd1) as [Hs Hnorm]. set (s := nlz (d / 2 ^ 32)) in *.
  set (e := 32 - s). assert (1 ≤ e ≤ 32) as He by lia.
  assert (2 ^ 32 = 2 ^ e * 2 ^ s) as Hes by (rewrite <- Z.pow_add_r by lia; f_equal; lia).
  assert (0 < 2 ^ e) by (apply Z.pow_pos_nonneg; lia). assert (0 < 2 ^ s) by (apply Z.pow_pos_nonneg; lia).
  assert (2 ^ (31 + e) ≤ d < 2 ^ (32 + e)) as Hde.
  { rewrite !Z.pow_add_r by lia. set (h := d / 2 ^ 32) in *.
    assert (h * 2 ^ 32 ≤ d < (h + 1) * 2 ^ 32) as Hh by (unfold h; div_lia).
    assert (h < 2 ^ e) as Hhe by (apply (Z.mul_lt_mono_pos_r (2 ^ s)); lia).
    split.
    - apply Z.le_trans with (h * 2 ^ s * 2 ^ e); [apply Z.mul_le_mono_nonneg_r; lia|].
      replace (h * 2 ^ s * 2 ^ e) with (h * 2 ^ 32) by (rewrite Hes; ring). lia.
    - apply Z.lt_le_trans with ((h + 1) * 2 ^ 32); [lia|].
      rewrite (Z.mul_comm (2 ^ 32)). apply Z.mul_le_mono_nonneg_r; lia. }
  assert (d * 2 ^ s < 2 ^ 64) as Hds.
  { rewrite !Z.pow_add_r in Hde by lia.
    change (2 ^ 64) with (2 ^ 32 * 2 ^ 32). rewrite Hes at 2. rewrite Z.mul_assoc.
    apply Z.mul_lt_mono_pos_r; lia. }
  rewrite (Z.shiftl_mul_pow2 d s), (wrap64_small (d * 2 ^ s)) by lia.
  rewrite (Z.shiftr_div_pow2 (d * 2 ^ s)), Hes, Z.div_mul_cancel_r by lia.
  assert (2 ^ 31 ≤ d / 2 ^ e < 2 ^ 32) as Hdn.
  { rewrite !Z.pow_add_r in Hde by lia. split; [apply Z.div_le_lower_bound|apply Z.div_lt_upper_bound]; lia. }
  rewrite (wrap32_small (d / 2 ^ e)) by lia. rewrite (Z.shiftr_div_pow2 n 1) by lia.
  change (2 ^ 1) with 2. rewrite divl_ok by div_lia. simpl.
  rewrite Z.shiftr_div_pow2, !Z.div_div by (lia || apply Z.pow_pos_nonneg; lia).
  replace (2 * (d / 2 ^ e * 2 ^ (31 - s))) with (d / 2 ^ e * 2 ^ e).
  2: { unfold e. replace (32 - s) with (31 - s + 1) by lia. rewrite (Z.pow_add_r 2 (31 - s) 1) by lia. lia. }
  pose proof (quotient_estimate n d e Hn He Hde) as Hq. cbv zeta in Hq.
  set (q := n / (d / 2 ^ e * 2 ^ e)) in *.
  pose proof (Z.div_mod n d ltac:(lia)) as Hdm. pose proof (Z.mod_pos_bound n d ltac:(lia)) as Hm.
  assert (1 ≤ n / d) by (apply Z.div_le_lower_bound; lia).
  assert (n / d < 2 ^ 32) by (apply Z.div_lt_upper_bound; lia).
  rewrite (wrap64_small ((q - 1) * d)) by nia. rewrite (wrap64_small (n - (q - 1) * d)) by nia.
  rewrite (wrap64_small (q - 1)) by lia.
  f_equal. destruct (Z.ltb_spec (n - (q - 1) * d) d); [nia|].
  assert (q = n / d ∨ q = n / d + 1) as [->| ->] by lia; [done|]. nia.
Qed.

Lemma udiv64_ok n d : 0 ≤ n < 2 ^ 64 → 0 < d < 2 ^ 64 → udiv64 n d = Ok (n / d).
Proof.
  intros Hn Hd. destruct (decide (d < 2 ^ 32)); [apply udiv64_small|apply udiv64_large]; lia.
Qed.

(** ** Signed division *)






(** The remainder is cut to 32 bits.  [umod64] is declared to return a
    [uint32_t]: it returns the remainder modulo [2 ^ 32], which is the
    remainder exactly when that fits in 32 bits.  Dividing [2 ^ 32] by
    [2 ^ 33], for example, gives the remainder 0. *)
Theorem umod64_truncates n d :
  0 ≤ n < 2 ^ 64 → 0 < d < 2 ^ 64 →
  __umoddi3 n d = Ok ((n mod d) mod 2 ^ 32) ∧
  (__umoddi3 n d = Ok (n mod d) ↔ n mod d < 2 ^ 32) ∧
  __umoddi3 (2 ^ 32) (2 ^ 33) = Ok 0.
Proof.
  intros Hn Hd. assert (__umoddi3 n d = Ok ((n mod d) mod 2 ^ 32)) as Hmod.
  { unfold __umoddi3, umod64. rewrite udiv64_ok by done. simpl. f_equal.
    pose proof (Z.div_mod n d ltac:(lia)). pose proof (Z.mod_pos_bound n d ltac:(lia)).
    pose proof (Z.div_pos n d ltac:(lia) ltac:(lia)).
    rewrite (wrap64_small (d * (n / d))) by lia. rewrite wrap64_small by lia.
    unfold wrap32. f_equal. lia. }
  split; [done|]. split; [|vm_compute; done]. rewrite Hmod.
  pose proof (Z.mod_pos_bound n d ltac:(lia)). split.
  - intros [= Heq]. rewrite <- Heq. apply Z.mod_pos_bound. lia.
  - intros. f_equal. apply Z.mod_small. lia.
Qed.

Lemma umod64_truncates_witness :
  __umoddi3 (2 ^ 40) (2 ^ 41) = Ok ((2 ^ 40 mod 2 ^ 41) mod 2 ^ 32).
Proof. apply (umod64_truncates (2 ^ 40) (2 ^ 41)); lia. Defined.
