(* ===== verification/Coordinator.v ===== *)
(** * The MapReduce coordinator ([hw-map-reduce/coordinator])

    The RPC handlers of coordinator.c on the global state: the queue of job
    ids, the table of jobs and the counter of ids.  The reply of GET_TASK is
    a static variable of the handler, so that fields a call does not set keep
    their old values: it is part of the state.

    A GLib hash table is a finite map; the order in which its iterator visits
    the entries is not specified and is the parameter [iter].  The time of
    day is an argument of the handlers that read it.  Strings are lists of
    bytes. *)
From S2P Require Import Prelude.

Abbreviation str := (list Z).

Definition TASK_TIMEOUT_SECS : Z := 10.

Record task := mk_task {
  start_time : Z;
  complete : bool;
  reduce : bool;
  t_jobID : Z;
  taskID : Z;
  timeout : bool;
  t_file : option str
}.

Record job := mk_job {
  jobID : Z;
  n_reduce : Z;
  n_map : Z;
  args_len : Z;
  args_val : option str;
  app : str;
  output_dir : str;
  mapTasks : gmap Z str;
  taskInfo : gmap Z task;
  n_map_completed : Z;
  n_map_assigned : Z;
  n_reduce_completed : Z;
  n_reduce_assigned : Z;
  done : bool;
  failed : bool
}.

Record get_task_reply := mk_reply {
  r_job_id : Z;
  r_task : Z;
  r_file : str;
  r_output_dir : str;
  r_app : str;
  r_n_reduce : Z;
  r_n_map : Z;
  r_reduce : bool;
  r_wait : bool;
  r_args_len : Z;
  r_args_val : option str
}.

Record coordinator := mk_coordinator {
  jobs : list Z;
  jobInfo : gmap Z job;
  counter : Z;
  reply : get_task_reply
}.

Record submit_job_request := mk_submit {
  s_files : list str;
  s_output_dir : str;
  s_app : str;
  s_n_reduce : Z;
  s_args_len : Z;
  s_args_val : option str
}.

Record poll_job_reply := mk_poll { p_done : bool; p_failed : bool; p_invalid_job_id : bool }.

Record finish_task_request := mk_finish { f_job_id : Z; f_task : Z; f_reduce : bool; f_success : bool }.

(** ** Applications ([app/app.c]) *)

(** "wc", "grep" and "vertex-degree". *)
Definition apps : list str :=
  [[119; 99]; [103; 114; 101; 112];
   [118; 101; 114; 116; 101; 120; 45; 100; 101; 103; 114; 101; 101]].

Definition get_app (name : str) : option str :=
  if bool_decide (name ∈ apps) then Some name else None.

(** ** The state *)

Definition empty_reply : get_task_reply := mk_reply 0 0 [] [] [] 0 0 false false 0 None.

Definition coordinator_init : coordinator := mk_coordinator [] ∅ 0 empty_reply.

Definition set_jobs (x : list Z) (s : coordinator) : coordinator :=
  mk_coordinator x (jobInfo s) (counter s) (reply s).
Definition set_job (id : Z) (j : job) (s : coordinator) : coordinator :=
  mk_coordinator (jobs s) (<[id := j]> (jobInfo s)) (counter s) (reply s).
Definition set_reply (r : get_task_reply) (s : coordinator) : coordinator :=
  mk_coordinator (jobs s) (jobInfo s) (counter s) r.

(** A job that is looked up and dereferenced. *)
Definition job_at (id : Z) : M coordinator job := λ s,
  match jobInfo s !! id with Some j => Ok (j, s) | None => Err BadAccess end.

(** ** SUBMIT_JOB *)

Fixpoint insert_files (i : Z) (files : list str) (m : gmap Z str) : gmap Z str :=
  match files with
  | [] => m
  | f :: files => insert_files (i + 1) files (<[i := f]> m)
  end.

Definition new_job (id : Z) (r : submit_job_request) : job :=
  mk_job id (s_n_reduce r) (wrap32 (Z.of_nat (length (s_files r)))) (s_args_len r) (s_args_val r) (s_app r)
    (s_output_dir r) (insert_files 0 (s_files r) ∅) ∅ 0 0 0 0 false false.

(** The job is queued before the application is validated. *)
Definition submit_job_1_svc (r : submit_job_request) : M coordinator Z := λ s,
  let id := counter s in
  let s' := mk_coordinator (jobs s ++ [id]) (<[id := new_job id r]> (jobInfo s))
              (int32 (counter s + 1)) (reply s) in
  Ok (match get_app (s_app r) with Some _ => id | None => -1 end, s').

(** ** POLL_JOB *)

(** [g_list_remove]: the first element equal to the argument goes. *)
Fixpoint remove_first (x : Z) (l : list Z) : list Z :=
  match l with
  | [] => []
  | y :: l => if x =? y then l else y :: remove_first x l
  end.

Definition poll_job_1_svc (id : Z) : M coordinator poll_job_reply :=
  js ← gets jobs;
  if bool_decide (id ∈ js) then
    j ← job_at id;
    (if done j then modify (λ s, set_jobs (remove_first id (jobs s)) s) else mret tt) ;;
    mret (mk_poll (done j) (failed j) false)
  else mret (mk_poll false false true).

(** ** GET_TASK *)

(** The counters of a job and its table of tasks. *)
Definition set_map_assigned (n : Z) (m : gmap Z task) (j : job) : job :=
  mk_job (jobID j) (n_reduce j) (n_map j) (args_len j) (args_val j) (app j) (output_dir j)
    (mapTasks j) m (n_map_completed j) n (n_reduce_completed j) (n_reduce_assigned j)
    (done j) (failed j).
Definition set_reduce_assigned (n : Z) (m : gmap Z task) (j : job) : job :=
  mk_job (jobID j) (n_reduce j) (n_map j) (args_len j) (args_val j) (app j) (output_dir j)
    (mapTasks j) m (n_map_completed j) (n_map_assigned j) (n_reduce_completed j) n
    (done j) (failed j).

Definition first_reply (r : get_task_reply) : get_task_reply :=
  mk_reply (r_job_id r) (r_task r) [] [] [] (r_n_reduce r) (r_n_map r) (r_reduce r) true 0
    (r_args_val r).

Definition job_reply (j : job) (r : get_task_reply) : get_task_reply :=
  mk_reply (jobID j) (r_task r) (r_file r) (output_dir j) (app j) (n_reduce j) (n_map j)
    (r_reduce r) (r_wait r) (args_len j) (args_val j).

Definition task_reply (t : Z) (file : option str) (red : bool) (r : get_task_reply) : get_task_reply :=
  mk_reply (r_job_id r) t (default (r_file r) file) (r_output_dir r) (r_app r) (r_n_reduce r)
    (r_n_map r) red false (r_args_len r) (r_args_val r).

Definition overdue (now : Z) (t : task) : bool :=
  (TASK_TIMEOUT_SECS <=? now - start_time t) && negb (complete t).

(** A map task is left to assign; all map tasks are complete and a reduce task
    is left to assign.  [n_map] is unsigned, and the [int] it is compared with
    is converted. *)
Definition map_left (j : job) : bool :=
  (wrap32 (n_map_assigned j) <? n_map j) && (wrap32 (n_map_completed j) <? n_map j).
Definition reduce_left (j : job) : bool :=
  (wrap32 (n_map_completed j) =? n_map j) && (n_reduce_assigned j <? n_reduce j) &&
  (n_reduce_completed j <? n_reduce j).

Section handlers.
Context (iter : gmap Z task → list (Z * task)).

Definition reply_with (r : get_task_reply) : M coordinator get_task_reply :=
  modify (set_reply r) ;; mret r.

Definition assign_overdue (t : task) (r : get_task_reply) : M coordinator get_task_reply :=
  reply_with (task_reply (taskID t) (if reduce t then None else t_file t) (reduce t) r).

Definition assign_map (now : Z) (id : Z) (j : job) (r : get_task_reply) : M coordinator get_task_reply :=
  match mapTasks j !! n_map_assigned j with
  | None => throw BadAccess
  | Some task_file =>
      let k := n_map_assigned j in
      let new_task := mk_task now false false (jobID j) k false (Some task_file) in
      modify (set_job id (set_map_assigned (int32 (k + 1)) (<[k := new_task]> (taskInfo j)) j)) ;;
      reply_with (task_reply k (Some task_file) false r)
  end.

Definition assign_reduce (now : Z) (id : Z) (j : job) (r : get_task_reply) : M coordinator get_task_reply :=
  let k := n_reduce_assigned j in
  let new_task := mk_task now false true (jobID j) k false None in
  modify (set_job id (set_reduce_assigned (int32 (k + 1)) (<[k := new_task]> (taskInfo j)) j)) ;;
  reply_with (task_reply k None true r).

(** The loop over the queue. *)
Fixpoint get_task_loop (now : Z) (ids : list Z) (r : get_task_reply) : M coordinator get_task_reply :=
  match ids with
  | [] => reply_with r
  | id :: ids =>
      j ← job_at id;
      if done j then get_task_loop now ids r else
      let r := job_reply j r in
      match list_find (λ kt, overdue now kt.2 = true) (iter (taskInfo j)) with
      | Some (_, (_, t)) => assign_overdue t r
      | None =>
          if map_left j then assign_map now id j r
          else if reduce_left j then assign_reduce now id j r
          else get_task_loop now ids r
      end
  end.

Definition get_task_1_svc (now : Z) : M coordinator get_task_reply :=
  ids ← gets jobs; r ← gets reply; get_task_loop now ids (first_reply r).
End handlers.

(** ** FINISH_TASK *)

Definition set_failed (j : job) : job :=
  mk_job (jobID j) (n_reduce j) (n_map j) (args_len j) (args_val j) (app j) (output_dir j)
    (mapTasks j) (taskInfo j) (n_map_completed j) (n_map_assigned j) (n_reduce_completed j)
    (n_reduce_assigned j) true true.

Definition set_complete (t : task) : task :=
  mk_task (start_time t) true (reduce t) (t_jobID t) (taskID t) (timeout t) (t_file t).

(** The counter that goes up is chosen by the request. *)
Definition count_finished (key : Z) (red : bool) (t : task) (j : job) : job :=
  let m := if red then n_map_completed j else int32 (n_map_completed j + 1) in
  let r := if red then int32 (n_reduce_completed j + 1) else n_reduce_completed j in
  mk_job (jobID j) (n_reduce j) (n_map j) (args_len j) (args_val j) (app j) (output_dir j)
    (mapTasks j) (<[taskID t := set_complete t]> (<[key := set_complete t]> (taskInfo j)))
    m (n_map_assigned j) r (n_reduce_assigned j)
    (if (wrap32 m =? n_map j) && (r =? n_reduce j) then true else done j) (failed j).

Definition finish_task_1_svc (req : finish_task_request) : M coordinator unit :=
  s ← gets jobInfo;
  match s !! f_job_id req with
  | None => mret tt
  | Some j =>
      if negb (f_success req) then modify (set_job (f_job_id req) (set_failed j)) else
      match taskInfo j !! f_task req with
      | None => throw BadAccess
      | Some t => modify (set_job (f_job_id req) (count_finished (f_task req) (f_reduce req) t j))
      end
  end.

Definition example_1_svc (argp : Z) : Z := int32 (argp + 1).

(** ** What a queued job can give a worker *)

Definition available (now : Z) (j : job) : bool :=
  negb (done j) &&
  (existsb (λ kt, overdue now kt.2) (map_to_list (taskInfo j)) || map_left j || reduce_left j).

Definition available_at (now : Z) (s : coordinator) (id : Z) : bool :=
  from_option (available now) false (jobInfo s !! id).

(** Handing out a task of [j]: a task that is overdue, else the next map task,
    else the next reduce task.  [r] is the reply with the fields of the job
    filled in. *)
Inductive grant (now : Z) (j : job) (r : get_task_reply) : job → get_task_reply → Prop :=
  | grant_overdue k t :
      taskInfo j !! k = Some t → overdue now t = true →
      grant now j r j (task_reply (taskID t) (if reduce t then None else t_file t) (reduce t) r)
  | grant_map f :
      map_left j = true → mapTasks j !! n_map_assigned j = Some f →
      grant now j r
        (set_map_assigned (int32 (n_map_assigned j + 1))
           (<[n_map_assigned j := mk_task now false false (jobID j) (n_map_assigned j) false (Some f)]>
              (taskInfo j)) j)
        (task_reply (n_map_assigned j) (Some f) false r)
  | grant_reduce :
      map_left j = false → reduce_left j = true →
      grant now j r
        (set_reduce_assigned (int32 (n_reduce_assigned j + 1))
           (<[n_reduce_assigned j := mk_task now false true (jobID j) (n_reduce_assigned j) false None]>
              (taskInfo j)) j)
        (task_reply (n_reduce_assigned j) None true r).

(** ** The invariant *)

(** The tasks of one kind that were handed out and did not finish. *)
Definition is_pending (red : bool) (t : task) : bool :=
  Bool.eqb (reduce t) red && negb (complete t).

Definition pending (red : bool) (m : gmap Z task) : Z := count_entries (is_pending red) m.

Record task_ok (j : job) (k : Z) (t : task) : Prop := {
  tok_id : taskID t = k;
  tok_job : t_jobID t = jobID j;
  tok_range : 0 ≤ k < (if reduce t then n_reduce_assigned j else n_map_assigned j);
  tok_file : reduce t = false → mapTasks j !! k = t_file t ∧ is_Some (t_file t)
}.

Record job_ok (id : Z) (j : job) : Prop := {
  jok_id : jobID j = id;
  jok_n : 0 ≤ n_map j < 2 ^ 31 ∧ 0 ≤ n_reduce j < 2 ^ 31;
  jok_map : 0 ≤ n_map_completed j ∧ n_map_assigned j ≤ n_map j;
  jok_reduce : 0 ≤ n_reduce_completed j ∧ n_reduce_assigned j ≤ n_reduce j;
  jok_files k : 0 ≤ k < n_map j → is_Some (mapTasks j !! k);
  jok_tasks k t : taskInfo j !! k = Some t → task_ok j k t;
  jok_pending_map : pending false (taskInfo j) = n_map_assigned j - n_map_completed j;
  jok_pending_reduce : pending true (taskInfo j) = n_reduce_assigned j - n_reduce_completed j;
  jok_barrier : 0 < n_reduce_assigned j → n_map_completed j = n_map j;
  jok_failed : failed j = true → done j = true;
  jok_done : done j = true → failed j = false →
    n_map_completed j = n_map j ∧ n_reduce_completed j = n_reduce j
}.

Record state_ok (s : coordinator) : Prop := {
  sok_queue id : id ∈ jobs s → is_Some (jobInfo s !! id);
  sok_nodup : NoDup (jobs s);
  sok_counter : 0 ≤ counter s < 2 ^ 31;
  sok_job id j : jobInfo s !! id = Some j → 0 ≤ id < counter s ∧ job_ok id j
}.

(** ** Counting pending tasks *)

Lemma is_pending_true red t : is_pending red t = true ↔ reduce t = red ∧ complete t = false.
Proof. unfold is_pending. destruct (reduce t), red, (complete t); naive_solver. Qed.

Lemma pending_insert red m k t :
  pending red (<[k := t]> m) =
  pending red m - from_option (λ u, Z.b2z (is_pending red u)) 0 (m !! k) + Z.b2z (is_pending red t).
Proof.
  unfold pending. destruct (m !! k) as [u|] eqn:Hk; cbn [from_option].
  - by apply count_entries_insert.
  - rewrite count_entries_fresh by done. lia.
Qed.

Lemma pending_nonneg red m : 0 ≤ pending red m.
Proof. apply count_entries_nonneg. Qed.

(** A pending task is counted. *)
Lemma pending_pos red m k t :
  m !! k = Some t → reduce t = red → complete t = false → 0 < pending red m.
Proof. intros Hk Hr Hc. apply (count_entries_pos _ m k t Hk). by apply is_pending_true. Qed.

(** ** Each change of a job keeps its invariant *)

Lemma int32_nonneg z : 0 ≤ z < 2 ^ 31 → int32 z = z.
Proof. intros. apply signed_small; lia. Qed.

Lemma job_ok_counters id j :
  job_ok id j →
  n_map_completed j ≤ n_map_assigned j ∧ n_reduce_completed j ≤ n_reduce_assigned j.
Proof.
  intros H. pose proof (pending_nonneg false (taskInfo j)).
  pose proof (pending_nonneg true (taskInfo j)).
  destruct H; lia.
Qed.

Lemma job_ok_map_left id j :
  job_ok id j → map_left j = true → n_map_assigned j < n_map j ∧ n_map_completed j < n_map j.
Proof.
  intros Hj. pose proof (job_ok_counters _ _ Hj). destruct Hj. unfold map_left.
  rewrite !wrap32_small by lia. lia.
Qed.

Lemma job_ok_reduce_left id j :
  job_ok id j → reduce_left j = true →
  n_map_completed j = n_map j ∧ n_map_assigned j = n_map j ∧ n_reduce_assigned j < n_reduce j.
Proof.
  intros Hj. pose proof (job_ok_counters _ _ Hj). destruct Hj. unfold reduce_left.
  rewrite !wrap32_small by lia. lia.
Qed.

Lemma task_ok_mono j j' k t :
  jobID j' = jobID j → mapTasks j' = mapTasks j →
  n_map_assigned j ≤ n_map_assigned j' → n_reduce_assigned j ≤ n_reduce_assigned j' →
  task_ok j k t → task_ok j' k t.
Proof.
  intros E1 E2 L1 L2 [? ? Hr Hf]. split; [done|congruence| |by rewrite E2].
  destruct (reduce t); lia.
Qed.

Lemma tasks_ok_insert j j' k t (m : gmap Z task) :
  (∀ i u, m !! i = Some u → task_ok j i u) →
  (∀ i u, task_ok j i u → task_ok j' i u) → task_ok j' k t →
  ∀ i u, <[k := t]> m !! i = Some u → task_ok j' i u.
Proof.
  intros Hm Hmono Ht i u [[<- <-]|[_ Hu]]%lookup_insert_Some; auto.
Qed.

Lemma job_ok_map_fresh id j :
  job_ok id j → map_left j = true → taskInfo j !! n_map_assigned j = None.
Proof.
  intros Hj Hl. pose proof (job_ok_map_left _ _ Hj Hl).
  destruct (taskInfo j !! n_map_assigned j) as [t|] eqn:E; [exfalso|done].
  pose proof (tok_range _ _ _ (jok_tasks _ _ Hj _ _ E)).
  pose proof (jok_barrier _ _ Hj). destruct (reduce t); lia.
Qed.

Lemma job_ok_assign_map now id j f :
  job_ok id j → done j = false → map_left j = true → mapTasks j !! n_map_assigned j = Some f →
  job_ok id
    (set_map_assigned (int32 (n_map_assigned j + 1))
       (<[n_map_assigned j := mk_task now false false (jobID j) (n_map_assigned j) false (Some f)]>
          (taskInfo j)) j).
Proof.
  intros Hj Hd Hl Hf. pose proof (job_ok_map_left _ _ Hj Hl).
  pose proof (job_ok_counters _ _ Hj). pose proof (job_ok_map_fresh _ _ Hj Hl) as Hfresh.
  destruct Hj. rewrite int32_nonneg by lia.
  split; cbn; try done; try lia.
  - eapply tasks_ok_insert; [done| |].
    + intros i u. apply task_ok_mono; cbn; try done; lia.
    + split; cbn; [done|done|lia|done].
  - rewrite pending_insert, Hfresh. cbn. lia.
  - rewrite pending_insert, Hfresh. cbn. lia.
Qed.

(** The entry a reduce task overwrites is that of a map task that finished. *)
Lemma job_ok_reduce_slot id j red :
  job_ok id j → reduce_left j = true →
  from_option (λ u, Z.b2z (is_pending red u)) 0 (taskInfo j !! n_reduce_assigned j) = 0.
Proof.
  intros Hj Hl. destruct (job_ok_reduce_left _ _ Hj Hl) as (E1 & E2 & L).
  destruct (taskInfo j !! n_reduce_assigned j) as [t|] eqn:E; [cbn [from_option]|done].
  destruct (is_pending red t) eqn:Hp; [exfalso|done]. apply is_pending_true in Hp as [Hr Hc].
  pose proof (tok_range _ _ _ (jok_tasks _ _ Hj _ _ E)).
  pose proof (jok_pending_map _ _ Hj).
  destruct (reduce t) eqn:Ht; [lia|].
  pose proof (pending_pos false _ _ _ E Ht Hc). lia.
Qed.

Lemma job_ok_assign_reduce now id j :
  job_ok id j → done j = false → reduce_left j = true →
  job_ok id
    (set_reduce_assigned (int32 (n_reduce_assigned j + 1))
       (<[n_reduce_assigned j := mk_task now false true (jobID j) (n_reduce_assigned j) false None]>
          (taskInfo j)) j).
Proof.
  intros Hj Hd Hl. pose proof (job_ok_reduce_left _ _ Hj Hl).
  pose proof (job_ok_counters _ _ Hj). pose proof (λ red, job_ok_reduce_slot _ _ red Hj Hl) as Hslot.
  destruct Hj. rewrite int32_nonneg by lia.
  split; cbn; try done; try lia.
  - eapply tasks_ok_insert; [done| |].
    + intros i u. apply task_ok_mono; cbn; try done; lia.
    + split; cbn; [done|done|lia|done].
  - rewrite pending_insert, Hslot. cbn. lia.
  - rewrite pending_insert, Hslot. cbn. lia.
Qed.

Lemma job_ok_grant now id j r j' r' :
  job_ok id j → done j = false → grant now j r j' r' → job_ok id j'.
Proof.
  intros Hj Hd [k t Ht Ho|f Hl Hf|Hl Hr]; [done| |].
  - by apply job_ok_assign_map.
  - by apply job_ok_assign_reduce.
Qed.

Lemma job_ok_set_failed id j : job_ok id j → job_ok id (set_failed j).
Proof. intros []. split; cbn; try done. intros k t Ht. by destruct (jok_tasks0 k t Ht). Qed.

Lemma job_ok_count_finished id j k t :
  job_ok id j → taskInfo j !! k = Some t → complete t = false →
  job_ok id (count_finished k (reduce t) t j).
Proof.
  intros Hj Ht Hc. pose proof (job_ok_counters _ _ Hj).
  pose proof (jok_tasks _ _ Hj _ _ Ht) as Htok. pose proof (tok_id _ _ _ Htok) as Hid.
  pose proof (pending_pos (reduce t) _ _ _ Ht eq_refl Hc).
  pose proof (jok_barrier _ _ Hj) as Hb.
  assert (Hp : ∀ red, pending red (<[k := set_complete t]> (taskInfo j)) =
                 pending red (taskInfo j) - Z.b2z (is_pending red t)).
  { intros red. rewrite pending_insert, Ht. cbn [from_option].
    unfold is_pending at 2. cbn [complete set_complete negb]. rewrite andb_false_r. cbn. lia. }
  assert (Hpt : ∀ red, Z.b2z (is_pending red t) = if Bool.eqb (reduce t) red then 1 else 0).
  { intros red. unfold is_pending. rewrite Hc, andb_true_r. by destruct (Bool.eqb _ _). }
  destruct Hj. unfold count_finished. rewrite Hid, insert_insert_eq.
  destruct (reduce t) eqn:Hr; rewrite int32_nonneg, wrap32_small by lia;
    split; cbn [jobID n_reduce n_map mapTasks taskInfo n_map_completed n_map_assigned
      n_reduce_completed n_reduce_assigned done failed]; rewrite ?Hp, ?Hpt, ?Hr; cbn; try done; try lia.
  all: try (eapply tasks_ok_insert; [done| |]; [intros i u; apply task_ok_mono; cbn; done || lia|];
    destruct Htok; split; cbn; rewrite ?Hr in *; done).
  all: destruct (_ && _) eqn:E; auto; try lia.
  all: intros Hd Hf; destruct (jok_done0 Hd Hf); lia.
Qed.

(** ** The handlers *)

Lemma state_ok_set_job s id j j' :
  state_ok s → jobInfo s !! id = Some j → job_ok id j' → state_ok (set_job id j' s).
Proof.
  intros [] Hj Hj'. split; cbn; try done.
  - intros i Hi. rewrite lookup_insert_is_Some'. auto.
  - intros i k [[<- <-]|[_ Hk]]%lookup_insert_Some; [|by apply sok_job0].
    split; [by apply (sok_job0 id j)|done].
Qed.

Lemma state_ok_set_reply s r : state_ok s → state_ok (set_reply r s).
Proof. intros []. by split. Qed.

(** Changing only the assigned counters keeps the description of the job. *)
Definition describes (j : job) (r : get_task_reply) : Prop :=
  r_job_id r = jobID j ∧ r_output_dir r = output_dir j ∧ r_app r = app j ∧
  r_n_reduce r = n_reduce j ∧ r_n_map r = n_map j ∧
  r_args_len r = args_len j ∧ r_args_val r = args_val j.

Lemma describes_job_reply j r : describes j (job_reply j r).
Proof. done. Qed.
Lemma describes_task_reply j t f red r : describes j r → describes j (task_reply t f red r).
Proof. done. Qed.
#[local] Hint Resolve describes_job_reply describes_task_reply : cmodel.

(** What GET_TASK promises: it gives the worker a task of the first job of
    the queue that has one, and asks it to wait only if no job has one. *)
Inductive handout (now : Z) (s : coordinator) (ids : list Z) : get_task_reply → coordinator → Prop :=
  | handout_wait r :
      Forall (λ id, available_at now s id = false) ids → r_wait r = true →
      handout now s ids r (set_reply r s)
  | handout_task pre id post j j' r0 r :
      ids = pre ++ id :: post → Forall (λ id, available_at now s id = false) pre →
      jobInfo s !! id = Some j → done j = false → available_at now s id = true →
      describes j r0 → grant now j r0 j' r →
      handout now s ids r (set_reply r (set_job id j' s)).

Lemma handout_cons now s id ids r s' :
  available_at now s id = false → handout now s ids r s' → handout now s (id :: ids) r s'.
Proof.
  intros Hid [r' Hall Hw|pre i post j j' r0 r' -> Hpre Hj Hd Ha Hr Hg].
  - by constructor; [constructor|].
  - apply (handout_task now s _ (id :: pre) i post j j' r0); try done. by constructor.
Qed.

Section handlers_correct.
Context (iter : gmap Z task → list (Z * task)).
Hypothesis iter_perm : ∀ m, iter m ≡ₚ map_to_list m.

(** Whether some task is overdue does not depend on the order of the
    iterator, and the one found is in the table. *)
Lemma iter_find_Some now m i k t :
  list_find (λ kt, overdue now kt.2 = true) (iter m) = Some (i, (k, t)) →
  m !! k = Some t ∧ overdue now t = true ∧
  existsb (λ kt, overdue now kt.2) (map_to_list m) = true.
Proof.
  intros (Hi & Ho & _)%list_find_Some. apply list_elem_of_lookup_2 in Hi.
  rewrite iter_perm in Hi. split; [by apply elem_of_map_to_list|]. split; [done|].
  apply existsb_exists. exists (k, t). split; [by apply list_elem_of_In|done].
Qed.

Lemma iter_find_None now m :
  list_find (λ kt, overdue now kt.2 = true) (iter m) = None →
  existsb (λ kt, overdue now kt.2) (map_to_list m) = false.
Proof.
  intros Hn%list_find_None. apply not_true_iff_false.
  intros (kt & Hin & Ho)%existsb_exists. rewrite Forall_forall in Hn.
  apply (Hn kt); [|done]. rewrite iter_perm. by apply list_elem_of_In.
Qed.

Lemma job_at_run s id j : jobInfo s !! id = Some j → job_at id s = Ok (j, s).
Proof. unfold job_at. by intros ->. Qed.

(** The file of the next map task is there. *)
Definition files_there (s : coordinator) : Prop :=
  ∀ id j, jobInfo s !! id = Some j → map_left j = true → is_Some (mapTasks j !! n_map_assigned j).

Lemma state_ok_files s : state_ok s → files_there s.
Proof.
  intros Hs id j Hj Hl. destruct (sok_job _ Hs _ _ Hj) as [_ Hjok]. apply (jok_files _ _ Hjok).
  pose proof (job_ok_map_left _ _ Hjok Hl). pose proof (job_ok_counters _ _ Hjok).
  pose proof (jok_map _ _ Hjok). lia.
Qed.

Lemma wp_get_task_loop now s ids r :
  files_there s → r_wait r = true → (∀ id, id ∈ ids → is_Some (jobInfo s !! id)) →
  wp (get_task_loop iter now ids r) (λ r' s', handout now s ids r' s') s.
Proof.
  intros Hs. revert r. induction ids as [|id ids IH]; intros r Hw Hids; cbn [get_task_loop].
  { unfold reply_with. repeat wp_step. by constructor. }
  destruct (Hids id) as [j Hj]; [set_solver|].
  assert (IH' : ∀ r, r_wait r = true → available_at now s id = false →
            wp (get_task_loop iter now ids r) (λ r' s', handout now s (id :: ids) r' s') s).
  { intros r1 Hr1 Hav. eapply wp_mono; [apply IH; [done|set_solver]|]. intros r2 s2.
    by apply handout_cons. }
  assert (Hav : available_at now s id = available now j) by (unfold available_at; by rewrite Hj).
  apply wp_bind. unfold wp at 1. rewrite (job_at_run s id j) by done. cbv beta iota.
  unfold available in Hav.
  destruct (done j) eqn:Hd; [by apply IH'|]. cbv zeta. cbn [negb andb] in Hav.
  assert (Hgrant : ∀ j' r', available_at now s id = true → grant now j (job_reply j r) j' r' →
            handout now s (id :: ids) r' (set_reply r' (set_job id j' s))).
  { intros. apply (handout_task now s _ [] id ids j j' (job_reply j r)); auto with cmodel. }
  destruct (list_find _ (iter (taskInfo j))) as [[i [k t]]|] eqn:Hfind.
  - apply iter_find_Some in Hfind as (Ht & Ho & Hex). rewrite Hex in Hav.
    unfold assign_overdue, reply_with. repeat wp_step.
    assert (Hs' : s = set_job id j s).
    { destruct s. unfold set_job. cbn in *. by rewrite insert_id. }
    rewrite Hs' at 2. apply Hgrant; [done|]. by apply (grant_overdue now j _ k).
  - apply iter_find_None in Hfind. rewrite Hfind in Hav. cbn [orb] in Hav.
    destruct (map_left j) eqn:Hl; [|destruct (reduce_left j) eqn:Hr].
    + unfold assign_map, reply_with. destruct (Hs _ _ Hj Hl) as [f Hf]. rewrite Hf. cbv zeta. repeat wp_step. apply Hgrant; [done|]. by apply grant_map.
    + unfold assign_reduce, reply_with. cbv zeta. repeat wp_step.
      apply Hgrant; [done|]. by apply grant_reduce.
    + by apply IH'.
Qed.

Lemma wp_get_task_any now s :
  files_there s → (∀ id, id ∈ jobs s → is_Some (jobInfo s !! id)) →
  wp (get_task_1_svc iter now) (λ r s', handout now s (jobs s) r s') s.
Proof. intros Hs Hq. unfold get_task_1_svc. repeat wp_step. by apply wp_get_task_loop. Qed.

Lemma wp_get_task now s :
  state_ok s → wp (get_task_1_svc iter now) (λ r s', handout now s (jobs s) r s') s.
Proof. intros Hs. apply wp_get_task_any; [by apply state_ok_files|apply sok_queue, Hs]. Qed.
End handlers_correct.

(** ** Submitting, polling and finishing *)

Lemma insert_files_lookup_lt i files m k : k < i → insert_files i files m !! k = m !! k.
Proof.
  revert i m. induction files as [|f files IH]; intros i m Hk; [done|].
  cbn. rewrite IH by lia. apply lookup_insert_ne. lia.
Qed.

Lemma insert_files_lookup i files m k :
  i ≤ k < i + Z.of_nat (length files) →
  insert_files i files m !! k = files !! Z.to_nat (k - i).
Proof.
  revert i m. induction files as [|f files IH]; intros i m Hk; cbn in *; [lia|].
  destruct (decide (k = i)) as [->|].
  - rewrite insert_files_lookup_lt, lookup_insert_eq by lia. by rewrite Z.sub_diag.
  - rewrite IH by lia. replace (Z.to_nat (k - i)) with (S (Z.to_nat (k - (i + 1)))) by lia. done.
Qed.

(** Requests that XDR can decode into the C types. *)
Definition request_ok (r : submit_job_request) : Prop :=
  Z.of_nat (length (s_files r)) < 2 ^ 31 ∧ 0 ≤ s_n_reduce r < 2 ^ 31.

Lemma job_ok_new id r : request_ok r → job_ok id (new_job id r).
Proof.
  intros [Hf Hn]. unfold new_job. rewrite wrap32_small by lia.
  split; cbn; try done; try lia.
  intros k Hk. rewrite insert_files_lookup by lia. apply lookup_lt_is_Some. lia.
Qed.

Lemma state_ok_init : state_ok coordinator_init.
Proof. split; cbn; [set_solver|constructor|lia|done]. Qed.

Lemma wp_submit r s (Q : Z → coordinator → Prop) :
  state_ok s → request_ok r → counter s < 2 ^ 31 - 1 →
  (∀ n s', state_ok s' → jobs s' = jobs s ++ [counter s] →
     jobInfo s' = <[counter s := new_job (counter s) r]> (jobInfo s) →
     n = (if get_app (s_app r) then counter s else -1) → Q n s') →
  wp (submit_job_1_svc r) Q s.
Proof.
  intros Hs Hr Hc HQ. unfold submit_job_1_svc, wp. cbv zeta. destruct Hs.
  assert (Hfresh : jobInfo s !! counter s = None).
  { destruct (jobInfo s !! counter s) as [j|] eqn:E; [|done]. apply sok_job0 in E. lia. }
  apply HQ; cbn; [|done|done|by destruct (get_app _)].
  rewrite int32_nonneg by lia. split; cbn.
  - intros id. rewrite elem_of_app, list_elem_of_singleton, lookup_insert_is_Some'. naive_solver.
  - apply NoDup_app. split; [done|]. split; [|apply NoDup_singleton].
    intros id Hid ->%list_elem_of_singleton. apply sok_queue0 in Hid as [j Hj]. congruence.
  - lia.
  - intros id j [[<- <-]|[_ Hj]]%lookup_insert_Some; [split; [lia|by apply job_ok_new]|].
    apply sok_job0 in Hj as [? ?]. split; [lia|done].
Qed.

Lemma remove_first_delete x l : NoDup l → ∀ y, y ∈ remove_first x l ↔ y ∈ l ∧ y ≠ x.
Proof.
  induction 1 as [|z l Hz Hl IH]; intros y; cbn; [set_solver|].
  destruct (Z.eqb_spec x z) as [->|Hne].
  - rewrite elem_of_cons. naive_solver.
  - rewrite !elem_of_cons, IH. naive_solver.
Qed.

Lemma remove_first_NoDup x l : NoDup l → NoDup (remove_first x l).
Proof.
  induction 1 as [|z l Hz Hl IH]; cbn; [constructor|].
  destruct (x =? z); [done|]. constructor; [|done]. rewrite remove_first_delete by done. naive_solver.
Qed.

(** The queue after a poll of [id]. *)
Lemma wp_poll id s :
  state_ok s →
  wp (poll_job_1_svc id) (λ p s',
    state_ok s' ∧ jobInfo s' = jobInfo s ∧
    match jobInfo s !! id with
    | Some j => if bool_decide (id ∈ jobs s)
        then p = mk_poll (done j) (failed j) false ∧
             ∀ i, i ∈ jobs s' ↔ i ∈ jobs s ∧ (done j = true → i ≠ id)
        else p = mk_poll false false true ∧ s' = s
    | None => p = mk_poll false false true ∧ s' = s
    end) s.
Proof.
  intros Hs. unfold poll_job_1_svc. repeat wp_step. case_bool_decide as Hin.
  - destruct (sok_queue _ Hs _ Hin) as [j Hj]. wp_step. unfold wp at 1.
    rewrite (job_at_run s id j) by done. cbv beta iota. rewrite Hj.
    destruct (done j) eqn:Hd; repeat wp_step.
    + split.
      { destruct Hs. split; cbn; try done; [|by apply remove_first_NoDup].
        intros i. rewrite remove_first_delete by done. naive_solver. }
      split; [done|]. split; [done|]. intros i. cbn.
      rewrite remove_first_delete by apply Hs. naive_solver.
    + split; [done|]. split; [done|]. split; [done|]. naive_solver.
  - wp_step. split; [done|]. split; [done|]. by destruct (jobInfo s !! id).
Qed.

(** A report of success is current if the task it names was handed out, has
    the kind the report says and has not been reported before. *)
Definition current (req : finish_task_request) (s : coordinator) : Prop :=
  ∀ j, jobInfo s !! f_job_id req = Some j →
  ∃ t, taskInfo j !! f_task req = Some t ∧ complete t = false ∧ reduce t = f_reduce req.

Definition currentb (req : finish_task_request) (s : coordinator) : bool :=
  match jobInfo s !! f_job_id req with
  | None => true
  | Some j => match taskInfo j !! f_task req with
              | None => false
              | Some t => negb (complete t) && Bool.eqb (reduce t) (f_reduce req)
              end
  end.

Lemma currentb_spec req s : currentb req s = true → current req s.
Proof.
  unfold currentb, current. intros H j Hj. rewrite Hj in H.
  destruct (taskInfo j !! f_task req) as [t|]; [|done]. exists t.
  apply andb_true_iff in H as [Hc Hr]. apply negb_true_iff in Hc.
  by apply Bool.eqb_prop in Hr.
Qed.

Lemma wp_finish req s :
  state_ok s → (f_success req = true → current req s) →
  wp (finish_task_1_svc req) (λ _ s', state_ok s' ∧ jobs s' = jobs s) s.
Proof.
  intros Hs Hc. unfold finish_task_1_svc. repeat wp_step.
  destruct (jobInfo s !! f_job_id req) as [j|] eqn:Hj; [|by wp_step].
  destruct (sok_job _ Hs _ _ Hj) as [_ Hjok].
  destruct (f_success req); cbn [negb].
  - destruct (Hc eq_refl j Hj) as (t & Ht & Hcomp & <-). rewrite Ht. wp_step.
    split; [|done]. eapply state_ok_set_job; [done..|]. by apply job_ok_count_finished.
  - wp_step. split; [|done]. eapply state_ok_set_job; [done..|]. by apply job_ok_set_failed.
Qed.

(** ** Runs of the coordinator

    The handlers run one at a time in any order.  [any_step] below takes any
    request; the steps here are the ones of a run in which the counter of job
    ids does not overflow and every task is reported finished once. *)

Inductive step (iter : gmap Z task → list (Z * task)) : coordinator → coordinator → Prop :=
  | step_submit r n s s' :
      request_ok r → counter s < 2 ^ 31 - 1 → submit_job_1_svc r s = Ok (n, s') → step iter s s'
  | step_poll id p s s' : poll_job_1_svc id s = Ok (p, s') → step iter s s'
  | step_get_task now r s s' : get_task_1_svc iter now s = Ok (r, s') → step iter s s'
  | step_finish req s s' :
      (f_success req = true → current req s) → finish_task_1_svc req s = Ok (tt, s') → step iter s s'.

Lemma handout_ok now s r s' : state_ok s → handout now s (jobs s) r s' → state_ok s'.
Proof.
  intros Hs [r' _ _|pre id post j j' r0 r' _ _ Hj Hd _ _ Hg]; apply state_ok_set_reply; [done|].
  eapply state_ok_set_job; [done..|]. eapply job_ok_grant; [|done|done]. by apply Hs.
Qed.

Lemma step_ok iter s s' :
  (∀ m, iter m ≡ₚ map_to_list m) → state_ok s → step iter s s' → state_ok s'.
Proof.
  intros Hiter Hs Hstep. revert Hs.
  destruct Hstep as [r n t t' Hr Hc E|id p t t' E|now r t t' E|req t t' Hc E]; intros Hs.
  - refine (wp_run _ (λ _ s', state_ok s') _ _ _ _ E).
    apply wp_submit; [done..|]. by intros n0 s0 Hok _ _ _.
  - apply (wp_run _ _ _ _ _ (wp_poll id t Hs) E).
  - eapply handout_ok; [done|]. apply (wp_run _ _ _ _ _ (wp_get_task iter Hiter now t Hs) E).
  - apply (wp_run _ _ _ _ _ (wp_finish req t Hs Hc) E).
Qed.

Lemma reachable_ok iter s :
  (∀ m, iter m ≡ₚ map_to_list m) → rtc (step iter) coordinator_init s → state_ok s.
Proof.
  intros Hiter. apply (rtc_ind_r (λ t, state_ok t)); [apply state_ok_init|].
  intros t t' _ Hstep Ht. by eapply step_ok.
Qed.

(** The tasks of a kind are all complete when none is pending. *)
Lemma pending_zero red m k t :
  pending red m = 0 → m !! k = Some t → reduce t = red → complete t = true.
Proof.
  intros Hz Ht Hr. destruct (complete t) eqn:Hc; [done|].
  pose proof (pending_pos red m k t Ht Hr Hc). lia.
Qed.

(** All tasks of the kind ran and finished. *)
Definition all_finished (red : bool) (j : job) : Prop :=
  (if red then n_reduce_assigned j = n_reduce j ∧ n_reduce_completed j = n_reduce j
   else n_map_assigned j = n_map j ∧ n_map_completed j = n_map j) ∧
  ∀ k t, taskInfo j !! k = Some t → reduce t = red → complete t = true.

Lemma job_ok_all_finished id j (red : bool) :
  job_ok id j →
  (if red then n_reduce_completed j = n_reduce j else n_map_completed j = n_map j) →
  all_finished red j.
Proof.
  intros Hj H. pose proof (job_ok_counters _ _ Hj). destruct Hj.
  destruct red; (split; [lia|]; intros k t; apply pending_zero; lia).
Qed.

(** ** Runs with any reports

    Workers may report a task that timed out twice, and clients may send any
    report of a task that was handed out.  [n] bounds the number of requests
    so far, and with it every counter. *)

Record job_sane (n : Z) (id : Z) (j : job) : Prop := {
  jsn_id : jobID j = id;
  jsn_n : n_map j < 2 ^ 31 ∧ n_reduce j < 2 ^ 31;
  jsn_map : 0 ≤ n_map_assigned j ≤ n_map j;
  jsn_reduce : 0 ≤ n_reduce_assigned j ≤ n_reduce j;
  jsn_completed : 0 ≤ n_map_completed j ≤ n ∧ 0 ≤ n_reduce_completed j ≤ n;
  jsn_files k : 0 ≤ k < n_map j → is_Some (mapTasks j !! k);
  jsn_tasks k t : taskInfo j !! k = Some t → task_ok j k t;
  jsn_barrier : 0 < n_reduce_assigned j → n_map j ≤ n_map_completed j;
  jsn_failed : failed j = true → done j = true;
  jsn_done : done j = true → failed j = false →
    n_map j ≤ n_map_completed j ∧ n_reduce j ≤ n_reduce_completed j
}.

Record state_sane (n : Z) (s : coordinator) : Prop := {
  ssn_queue id : id ∈ jobs s → is_Some (jobInfo s !! id);
  ssn_nodup : NoDup (jobs s);
  ssn_counter : 0 ≤ counter s ≤ n;
  ssn_job id j : jobInfo s !! id = Some j → 0 ≤ id < counter s ∧ job_sane n id j
}.

Lemma job_sane_le n n' id j : n ≤ n' → job_sane n id j → job_sane n' id j.
Proof. intros Hn []. split; try done. lia. Qed.

Lemma state_sane_le n n' s : n ≤ n' → state_sane n s → state_sane n' s.
Proof.
  intros Hn []. split; try done; [lia|]. intros id j Hj. apply ssn_job0 in Hj as [? ?].
  split; [done|by eapply job_sane_le].
Qed.

Lemma state_sane_set_job n s id j j' :
  state_sane n s → jobInfo s !! id = Some j → job_sane n id j' → state_sane n (set_job id j' s).
Proof.
  intros [] Hj Hj'. split; cbn; try done.
  - intros i Hi. rewrite lookup_insert_is_Some'. auto.
  - intros i k [[<- <-]|[_ Hk]]%lookup_insert_Some; [|by apply ssn_job0].
    split; [by apply (ssn_job0 id j)|done].
Qed.

Lemma state_sane_files n s : n < 2 ^ 31 → state_sane n s → files_there s.
Proof.
  intros Hn Hs id j Hj. destruct (ssn_job _ _ Hs _ _ Hj) as [_ []]. unfold map_left.
  rewrite !wrap32_small by lia. intros Hl. apply jsn_files0. lia.
Qed.

Lemma job_sane_grant now n id j r j' r' :
  n < 2 ^ 31 → job_sane n id j → done j = false → grant now j r j' r' → job_sane n id j'.
Proof.
  intros Hn Hj Hd Hg. destruct Hg as [k t Ht Ho|f Hl Hf|Hl Hr]; [done|..]; destruct Hj.
  - unfold map_left in Hl. rewrite !wrap32_small in Hl by lia. rewrite int32_nonneg by lia.
    split; cbn; try done; try lia.
    eapply tasks_ok_insert; [done|intros i u; apply task_ok_mono; cbn; done || lia|].
    split; cbn; done || lia.
  - unfold reduce_left in Hr. rewrite !wrap32_small in Hr by lia. rewrite int32_nonneg by lia.
    split; cbn; try done; try lia.
    eapply tasks_ok_insert; [done|intros i u; apply task_ok_mono; cbn; done || lia|].
    split; cbn; done || lia.
Qed.

Lemma job_sane_set_failed n id j : job_sane n id j → job_sane n id (set_failed j).
Proof. intros []. split; cbn; try done. intros k t Ht. by destruct (jsn_tasks0 k t Ht). Qed.

(** A report of any kind for a task that was handed out. *)
Lemma job_sane_count_finished n id j k red t :
  n + 1 < 2 ^ 31 → job_sane n id j → taskInfo j !! k = Some t →
  job_sane (n + 1) id (count_finished k red t j).
Proof.
  intros Hn [] Ht. pose proof (jsn_tasks0 _ _ Ht) as Htok. unfold count_finished.
  rewrite (tok_id _ _ _ Htok), insert_insert_eq.
  destruct red; rewrite int32_nonneg, wrap32_small by lia;
    split; cbn; try done; try lia.
  all: try (eapply tasks_ok_insert; [done|intros i u; apply task_ok_mono; cbn; done || lia|];
    destruct Htok; by split).
  all: destruct (_ && _) eqn:E; auto; intros Hd Hf; try destruct (jsn_done0 Hd Hf); lia.
Qed.

Inductive any_step (iter : gmap Z task → list (Z * task)) : coordinator → coordinator → Prop :=
  | any_submit r n s s' : request_ok r → submit_job_1_svc r s = Ok (n, s') → any_step iter s s'
  | any_poll id p s s' : poll_job_1_svc id s = Ok (p, s') → any_step iter s s'
  | any_get_task now r s s' : get_task_1_svc iter now s = Ok (r, s') → any_step iter s s'
  | any_finish req s s' : finish_task_1_svc req s = Ok (tt, s') → any_step iter s s'.

Lemma submit_sane n r m s s' : n + 1 < 2 ^ 31 → state_sane n s → request_ok r →
  submit_job_1_svc r s = Ok (m, s') → state_sane (n + 1) s'.
Proof.
  intros Hn Hs Hr. unfold submit_job_1_svc. cbv zeta. intros [= _ <-].
  pose proof (ssn_counter _ _ Hs). apply (state_sane_le n (n + 1)) in Hs; [|lia]. destruct Hs.
  assert (Hfresh : counter s ∉ jobs s).
  { intros [j Hj]%ssn_queue0. apply ssn_job0 in Hj. lia. }
  destruct Hr as [Hf Hr]. rewrite int32_nonneg by lia. split; cbn.
  - intros id. rewrite elem_of_app, list_elem_of_singleton, lookup_insert_is_Some'. naive_solver.
  - apply NoDup_app. split; [done|]. split; [|apply NoDup_singleton]. by intros id Hid ->%list_elem_of_singleton.
  - lia.
  - intros id j [[<- <-]|[_ Hj]]%lookup_insert_Some; [|apply ssn_job0 in Hj as [? ?]; split; [lia|done]].
    split; [lia|]. unfold new_job. rewrite wrap32_small by lia. split; cbn; try done; try lia.
    intros k Hk. rewrite insert_files_lookup by lia. apply lookup_lt_is_Some. lia.
Qed.

Lemma poll_sane n id p s s' : state_sane n s → poll_job_1_svc id s = Ok (p, s') → state_sane n s'.
Proof.
  intros Hs. apply (wp_run _ (λ _ s', state_sane n s')). unfold poll_job_1_svc. repeat wp_step.
  case_bool_decide as Hin; [|by wp_step]. destruct (ssn_queue _ _ Hs _ Hin) as [j Hj].
  wp_step. unfold wp at 1. rewrite (job_at_run s id j) by done. cbv beta iota.
  destruct (done j); repeat wp_step; [|done]. destruct Hs.
  split; cbn; try done; [|by apply remove_first_NoDup].
  intros i. rewrite remove_first_delete by done. naive_solver.
Qed.

Lemma finish_sane n req s s' : n + 1 < 2 ^ 31 → state_sane n s →
  finish_task_1_svc req s = Ok (tt, s') → state_sane (n + 1) s'.
Proof.
  intros Hn Hs. pose proof (state_sane_le n (n + 1) s ltac:(lia) Hs) as Hs1.
  unfold finish_task_1_svc, mbind, M_bind, gets. cbn.
  destruct (jobInfo s !! f_job_id req) as [j|] eqn:Hj; [|by intros [= <-]].
  destruct (ssn_job _ _ Hs _ _ Hj) as [_ Hjs]. destruct (negb _).
  - intros [= <-]. eapply state_sane_set_job; [done..|]. eapply job_sane_le; [|by apply job_sane_set_failed]. lia.
  - destruct (taskInfo j !! f_task req) as [t|] eqn:Ht; [|done]. intros [= <-].
    eapply state_sane_set_job; [done..|]. by apply job_sane_count_finished.
Qed.

Lemma any_step_sane iter n s s' :
  (∀ m, iter m ≡ₚ map_to_list m) → n + 1 < 2 ^ 31 → state_sane n s → any_step iter s s' →
  state_sane (n + 1) s'.
Proof.
  intros Hiter Hn Hs Hstep. revert Hs.
  destruct Hstep as [r m t t' Hr E|id p t t' E|now r t t' E|req t t' E]; intros Hs.
  - by eapply submit_sane.
  - eapply state_sane_le; [|by eapply poll_sane]. lia.
  - eapply state_sane_le; [|]; [|
      assert (Hh := wp_run _ _ _ _ _ (wp_get_task_any iter Hiter now t
        (state_sane_files n t ltac:(lia) Hs) (ssn_queue n t Hs)) E)]. { instantiate (1 := n). lia. }
    destruct Hh as [r' _ _|pre id post j j' r0 r' _ _ Hj Hd _ _ Hg].
    + destruct Hs. by split.
    + assert (Hs' : state_sane n (set_job id j' t)); [|destruct Hs'; by split].
      eapply state_sane_set_job; [done..|]. eapply job_sane_grant; [lia| |done|done]. by apply Hs.
  - by eapply finish_sane.
Qed.

Lemma any_reachable_sane iter n s :
  (∀ m, iter m ≡ₚ map_to_list m) → Z.of_nat n < 2 ^ 31 →
  nsteps (any_step iter) n coordinator_init s → state_sane (Z.of_nat n) s.
Proof.
  intros Hiter. revert s. induction n as [|n IH]; intros s Hn Hs.
  - inversion Hs; subst. split; cbn; [set_solver|constructor|lia|done].
  - apply nsteps_inv_r in Hs as (t & Ht & Hst). rewrite Nat2Z.inj_succ, <-Z.add_1_r in *.
    apply (any_step_sane iter (Z.of_nat n) t); [done|lia| |done]. apply IH; [lia|done].
Qed.

(** What holds of a job whatever the workers report. *)
Definition job_consistent (id : Z) (j : job) : Prop :=
  jobID j = id ∧
  0 ≤ n_map_assigned j ≤ n_map j ∧ 0 ≤ n_reduce_assigned j ≤ n_reduce j ∧
  0 ≤ n_map_completed j ∧ 0 ≤ n_reduce_completed j ∧
  (∀ k t, taskInfo j !! k = Some t → task_ok j k t) ∧
  (0 < n_reduce_assigned j → n_map j ≤ n_map_completed j) ∧
  (failed j = true → done j = true) ∧
  (done j = true → failed j = true ∨ n_map j ≤ n_map_completed j ∧ n_reduce j ≤ n_reduce_completed j).

(** What holds of it besides when each task is reported once. *)
Definition job_exact (j : job) : Prop :=
  n_map_completed j ≤ n_map_assigned j ∧ n_reduce_completed j ≤ n_reduce_assigned j ∧
  pending false (taskInfo j) = n_map_assigned j - n_map_completed j ∧
  pending true (taskInfo j) = n_reduce_assigned j - n_reduce_completed j ∧
  (0 < n_reduce_assigned j → all_finished false j) ∧
  (done j = true → failed j = true ∨ all_finished false j ∧ all_finished true j).

Lemma job_sane_consistent n id j : job_sane n id j → job_consistent id j.
Proof.
  intros []. unfold job_consistent. split_and!; try done; try lia.
  intros Hd. destruct (failed j) eqn:Hf; [by left|right; auto].
Qed.

Lemma job_ok_exact id j : job_ok id j → job_exact j.
Proof.
  intros Hj. pose proof (job_ok_counters _ _ Hj).
  pose proof (job_ok_all_finished _ _ false Hj). pose proof (job_ok_all_finished _ _ true Hj).
  destruct Hj. unfold job_exact. do 4 (split; [lia|]). split; [auto|].
  intros Hd. destruct (failed j) eqn:Hf; [by left|right].
  destruct (jok_done0 Hd eq_refl). auto.
Qed.

(** C5: In every state the coordinator reaches by fewer than 2^31 requests, of
    any kind, in any order and with any reports of the workers (second reports
    of a task that timed out included), where a submitted job has fewer than
    2^31 files and no negative number of reduce tasks: each queued job exists, no job is
    queued twice, every job has handed out at most its number of tasks of each
    kind, its task table holds only tasks that were handed out, each under its
    number, with its file if it is a map task, no reduce task was handed out
    before as many map tasks were reported as the job has, a failed job is
    done, and a job is done only if it failed or at least as many tasks were
    reported as it has.

    If moreover every successful report is for a task that was handed out, is
    of the kind reported, and was not reported before ([current]): no more
    tasks were completed than handed out, the unfinished tasks in the table
    are exactly the difference, no reduce task was handed out before all map
    tasks finished, and a job is done only if it failed or all its map and
    reduce tasks were handed out and finished. *)
Theorem coordinator_invariant iter s : (∀ m, iter m ≡ₚ map_to_list m) →
  (∀ n, Z.of_nat n < 2 ^ 31 → nsteps (any_step iter) n coordinator_init s →
   NoDup (jobs s) ∧ (∀ id, id ∈ jobs s → is_Some (jobInfo s !! id)) ∧
   ∀ id j, jobInfo s !! id = Some j → job_consistent id j) ∧
  (rtc (step iter) coordinator_init s → ∀ id j, jobInfo s !! id = Some j → job_exact j).
Proof.
  intros Hiter. split.
  - intros n Hn Hr. pose proof (any_reachable_sane iter n s Hiter Hn Hr) as [].
    split; [done|]. split; [done|]. intros id j Hj. eapply job_sane_consistent. by apply ssn_job0.
  - intros Hr id j Hj. eapply job_ok_exact. by apply (reachable_ok iter s Hiter Hr).
Qed.

(** A word count of two files with one reducer. *)
Definition two_files : submit_job_request :=
  mk_submit [[97]; [98]] [111] [119; 99] 1 0 None.

Lemma request_ok_two_files : request_ok two_files.
Proof. split; cbn; lia. Qed.

(** The state after submitting a job. *)
Definition after_submit : coordinator :=
  mk_coordinator [0] {[ 0 := new_job 0 two_files ]} 1 empty_reply.

Lemma after_submit_reachable iter : rtc (step iter) coordinator_init after_submit.
Proof.
  apply rtc_once, (step_submit iter two_files 0); [apply request_ok_two_files|done|vm_compute; done].
Qed.

(** A run to the hand-out of the reduce task: both map tasks are given out and
    reported.  With [twice], the first one is reported a second time. *)
Definition step_of {A} (m : M coordinator A) (s : coordinator) : coordinator :=
  match m s with Ok (_, s') => s' | Err _ => s end.

Definition both_assigned : coordinator :=
  step_of (get_task_1_svc map_to_list 5) (step_of (get_task_1_svc map_to_list 0) after_submit).
Definition first_done : coordinator := step_of (finish_task_1_svc (mk_finish 0 0 false true)) both_assigned.
Definition second_report (twice : bool) : coordinator :=
  step_of (finish_task_1_svc (mk_finish 0 (if twice then 0 else 1) false true)) first_done.
Definition at_reduce (twice : bool) : coordinator := step_of (get_task_1_svc map_to_list 7) (second_report twice).

Lemma step_of_eq {A} (m : M coordinator A) s :
  match m s with Ok _ => True | Err _ => False end → ∃ x, m s = Ok (x, step_of m s).
Proof. unfold step_of. destruct (m s) as [[x s']|]; [by exists x|done]. Qed.

Lemma two_files_submitted : ∃ n, submit_job_1_svc two_files coordinator_init = Ok (n, after_submit).
Proof. exists 0. vm_compute. done. Qed.

Lemma get_task_of iter now s :
  match get_task_1_svc iter now s with Ok _ => True | Err _ => False end →
  any_step iter s (step_of (get_task_1_svc iter now) s) ∧ step iter s (step_of (get_task_1_svc iter now) s).
Proof. intros [r E]%step_of_eq. split; [eapply any_get_task|eapply step_get_task]; exact E. Qed.

Lemma finish_of iter req s :
  match finish_task_1_svc req s with Ok _ => True | Err _ => False end →
  any_step iter s (step_of (finish_task_1_svc req) s) ∧
  (currentb req s = true → step iter s (step_of (finish_task_1_svc req) s)).
Proof.
  intros [[] E]%step_of_eq. split; [by eapply any_finish|]. intros Hc.
  eapply step_finish; [intros _; by apply currentb_spec|exact E].
Qed.

Lemma at_reduce_twice_reachable : nsteps (any_step map_to_list) 6 coordinator_init (at_reduce true).
Proof.
  destruct two_files_submitted as [n E].
  apply (nsteps_l _ _ _ after_submit); [eapply any_submit, E; apply request_ok_two_files|].
  apply (nsteps_l _ _ _ (step_of (get_task_1_svc map_to_list 0) after_submit)); [apply get_task_of; vm_compute; exact I|].
  apply (nsteps_l _ _ _ both_assigned); [apply get_task_of; vm_compute; exact I|].
  apply (nsteps_l _ _ _ first_done); [apply finish_of; vm_compute; exact I|].
  apply (nsteps_l _ _ _ (second_report true)); [apply finish_of; vm_compute; exact I|].
  apply nsteps_once, get_task_of; vm_compute; exact I.
Qed.

Lemma at_reduce_once_reachable : rtc (step map_to_list) coordinator_init (at_reduce false).
Proof.
  etransitivity; [apply after_submit_reachable|].
  apply (rtc_l _ _ (step_of (get_task_1_svc map_to_list 0) after_submit)); [apply get_task_of; vm_compute; exact I|].
  apply (rtc_l _ _ both_assigned); [apply get_task_of; vm_compute; exact I|].
  apply (rtc_l _ _ first_done); [apply finish_of; vm_compute; done|].
  apply (rtc_l _ _ (second_report false)); [apply finish_of; vm_compute; done|].
  apply rtc_once, get_task_of; vm_compute; exact I.
Qed.

Lemma coordinator_invariant_witness :
  (∃ j, jobInfo (at_reduce true) !! 0 = Some j ∧ n_reduce_assigned j = 1 ∧ n_map j ≤ n_map_completed j) ∧
  (∃ j, jobInfo (at_reduce false) !! 0 = Some j ∧ n_reduce_assigned j = 1 ∧ all_finished false j).
Proof.
  split.
  - destruct (coordinator_invariant map_to_list (at_reduce true) (λ m, reflexivity _)) as [H _].
    destruct (H 6%nat ltac:(lia) at_reduce_twice_reachable) as (_ & _ & Hj).
    destruct (jobInfo (at_reduce true) !! 0) as [j|] eqn:E; [|exfalso; vm_compute in E; discriminate E].
    exists j. split; [done|]. assert (n_reduce_assigned j = 1) by (vm_compute in E; by injection E as <-).
    split; [done|]. destruct (Hj 0 j E) as (_ & _ & _ & _ & _ & _ & Hb & _). apply Hb. lia.
  - destruct (coordinator_invariant map_to_list (at_reduce false) (λ m, reflexivity _)) as [_ H].
    destruct (jobInfo (at_reduce false) !! 0) as [j|] eqn:E; [|exfalso; vm_compute in E; discriminate E].
    exists j. split; [done|]. assert (n_reduce_assigned j = 1) by (vm_compute in E; by injection E as <-).
    split; [done|]. destruct (H at_reduce_once_reachable 0 j E) as (_ & _ & _ & _ & Hb & _). apply Hb. lia.
Defined.

(** The first job of the queue that has a task to give. *)
Definition first_available (now : Z) (s : coordinator) : option Z :=
  snd <$> list_find (λ id, available_at now s id = true) (jobs s).

Lemma first_available_None now s :
  Forall (λ id, available_at now s id = false) (jobs s) → first_available now s = None.
Proof.
  intros H. unfold first_available. rewrite (proj2 (list_find_None _ _)); [done|].
  eapply Forall_impl; [done|]. intros id E; cbn. by rewrite E.
Qed.

Lemma first_available_Some now s pre id post :
  jobs s = pre ++ id :: post → Forall (λ id, available_at now s id = false) pre →
  available_at now s id = true → first_available now s = Some id.
Proof.
  intros E Hpre Hid. unfold first_available.
  rewrite (proj2 (list_find_Some _ _ (length pre) id)); [done|].
  split; [by rewrite E, list_lookup_middle|]. split; [done|]. intros i x Hx Hi.
  rewrite E, lookup_app_l in Hx by done. rewrite Forall_lookup in Hpre.
  apply Hpre in Hx. by rewrite Hx.
Qed.

(** A granted task is recorded as unfinished, a map task comes with its file,
    and a reduce task is granted only when all map tasks finished. *)
Definition granted (j j' : job) (r : get_task_reply) : Prop :=
  r_wait r = false ∧ describes j r ∧
  (∃ t, taskInfo j' !! r_task r = Some t ∧ complete t = false ∧ reduce t = r_reduce r) ∧
  (r_reduce r = true → 0 ≤ r_task r < n_reduce j ∧ all_finished false j) ∧
  (r_reduce r = false → 0 ≤ r_task r < n_map j ∧ mapTasks j !! r_task r = Some (r_file r)).

Lemma grant_granted now id j r j' r' :
  job_ok id j → describes j r → grant now j r j' r' → granted j j' r'.
Proof.
  intros Hj Hr Hg. pose proof (job_ok_counters _ _ Hj). pose proof (jok_map _ _ Hj).
  pose proof (jok_reduce _ _ Hj). pose proof (job_ok_all_finished _ _ false Hj) as Hall.
  destruct Hg as [k t Ht Ho|f Hl Hf|Hl Hr'];
    (split; [done|split; [by apply describes_task_reply|]]); cbn.
  - destruct (jok_tasks _ _ Hj _ _ Ht) as [-> _ Hrange Hfile].
    apply andb_true_iff in Ho as [_ Hc%negb_true_iff].
    split; [by exists t|]. pose proof (jok_barrier _ _ Hj).
    split; intros E; rewrite E in *; (split; [lia|]); [apply Hall; lia|].
    destruct (Hfile eq_refl) as [-> [f ->]]. done.
  - pose proof (job_ok_map_left _ _ Hj Hl).
    split; [eexists; by rewrite lookup_insert_eq|]. split; [done|]. split; [lia|done].
  - pose proof (job_ok_reduce_left _ _ Hj Hr').
    split; [eexists; by rewrite lookup_insert_eq|]. split; [|done]. split; [lia|]. apply Hall; lia.
Qed.

(** GET_TASK, in any reachable state and whatever the order of the table
    iterator, returns.  It serves the first job of the queue that has an
    overdue task, a map task to assign, or a reduce task to assign with all
    map tasks finished: the reply describes that job, the task is recorded
    as unfinished, a map task comes with its input file, and a reduce task
    is given only after all map tasks of the job finished.  It tells the
    worker to wait exactly when no queued job has such a task, and then no
    job changes. *)
Theorem get_task_correct iter s now :
  (∀ m, iter m ≡ₚ map_to_list m) → rtc (step iter) coordinator_init s →
  ∃ r s', get_task_1_svc iter now s = Ok (r, s') ∧ jobs s' = jobs s ∧
    match first_available now s with
    | None => r_wait r = true ∧ jobInfo s' = jobInfo s
    | Some id => ∃ j j', jobInfo s !! id = Some j ∧ done j = false ∧
        jobInfo s' = <[id := j']> (jobInfo s) ∧ granted j j' r
    end.
Proof.
  intros Hiter Hr. pose proof (reachable_ok iter s Hiter Hr) as Hs.
  destruct (proj1 (wp_Ok _ _ _) (wp_get_task iter Hiter now s Hs)) as (r & s' & E & Hh).
  exists r, s'. split; [done|].
  destruct Hh as [r Hall Hw|pre id post j j' r0 r Eq Hpre Hj Hd Ha Hdesc Hg].
  - by rewrite first_available_None.
  - split; [done|]. rewrite (first_available_Some now s pre id post) by done.
    exists j, j'. do 3 (split; [done|]). eapply grant_granted; [by apply Hs|done|done].
Qed.

Lemma get_task_correct_witness :
  ∃ r s', get_task_1_svc map_to_list 7 after_submit = Ok (r, s') ∧ r_wait r = false ∧
    r_task r = 0 ∧ r_file r = [97].
Proof.
  destruct (get_task_correct map_to_list after_submit 7 (λ m, reflexivity _)
    (after_submit_reachable _)) as (r & s' & E & _ & _).
  exists r, s'. split; [done|]. vm_compute in E. injection E as <- <-. done.
Defined.

(** SUBMIT_JOB stores the job under a fresh id at the end of the queue and
    returns the id, or -1 when the application does not exist (the job is
    stored and queued all the same).  POLL_JOB of the new job reports it
    neither done nor failed; POLL_JOB of an id that is not queued, -1
    included, reports an invalid id and changes nothing. *)
Theorem submit_poll_correct iter s r :
  (∀ m, iter m ≡ₚ map_to_list m) → rtc (step iter) coordinator_init s →
  request_ok r → counter s < 2 ^ 31 - 1 →
  ∃ n s1 s2, submit_job_1_svc r s = Ok (n, s1) ∧
    n = (if get_app (s_app r) then counter s else -1) ∧
    counter s ∉ jobs s ∧ jobs s1 = jobs s ++ [counter s] ∧
    jobInfo s1 = <[counter s := new_job (counter s) r]> (jobInfo s) ∧
    (∀ k, 0 ≤ k < Z.of_nat (length (s_files r)) →
       mapTasks (new_job (counter s) r) !! k = s_files r !! Z.to_nat k) ∧
    poll_job_1_svc (counter s) s1 = Ok (mk_poll false false false, s2) ∧ s2 = s1 ∧
    (∀ id, id ∉ jobs s → poll_job_1_svc id s = Ok (mk_poll false false true, s)) ∧
    -1 ∉ jobs s.
Proof.
  intros Hiter Hreach Hr Hc. pose proof (reachable_ok iter s Hiter Hreach) as Hs.
  assert (Hq : ∀ id, id ∈ jobs s → 0 ≤ id < counter s).
  { intros id [j Hj]%(sok_queue _ Hs). by apply (sok_job _ Hs id j). }
  eexists _, _, _. split; [reflexivity|]. split; [by destruct (get_app _)|].
  split; [intros ?%Hq; lia|]. split; [done|]. split; [done|]. split.
  { intros k Hk. cbn. rewrite insert_files_lookup by lia. by rewrite Z.sub_0_r. }
  split; [|split; [reflexivity|split]].
  - unfold poll_job_1_svc, mbind, M_bind, gets, job_at. cbn [jobs jobInfo].
    rewrite bool_decide_true by set_solver. cbn [jobInfo]. by rewrite lookup_insert_eq.
  - intros id Hid. unfold poll_job_1_svc, mbind, M_bind, gets. by rewrite bool_decide_false.
  - intros ?%Hq. lia.
Qed.

Lemma submit_poll_correct_witness :
  ∃ n s1, submit_job_1_svc two_files coordinator_init = Ok (n, s1) ∧ n = 0 ∧ jobs s1 = [0].
Proof.
  destruct (submit_poll_correct map_to_list coordinator_init two_files (λ m, reflexivity _)
    (rtc_refl _ _) request_ok_two_files) as (n & s1 & s2 & E & En & _ & Ej & _); [reflexivity|].
  exists n, s1. done.
Defined.

(** ** A task that is reported finished twice

    Task 0 starts at time 0 and task 1 at time 5.  At time 10 task 0 is
    overdue and handed to a second worker; both workers report it. *)
Definition double_report : M coordinator (get_task_reply * bool * get_task_reply * poll_job_reply) :=
  submit_job_1_svc two_files ;;
  get_task_1_svc map_to_list 0 ;;
  get_task_1_svc map_to_list 5 ;;
  get_task_1_svc map_to_list 10 ;;
  finish_task_1_svc (mk_finish 0 0 false true) ;;
  finish_task_1_svc (mk_finish 0 0 false true) ;;
  running ← gets (λ s, match jobInfo s !! 0 with
                        | Some j => bool_decide (complete <$> taskInfo j !! 1 = Some false)
                        | None => false
                        end);
  early ← get_task_1_svc map_to_list 11;
  finish_task_1_svc (mk_finish 0 1 false true) ;;
  finish_task_1_svc (mk_finish 0 0 true true) ;;
  last ← get_task_1_svc map_to_list 100;
  p ← poll_job_1_svc 0;
  mret (early, running, last, p).

(** If a task that timed out is reported by both workers that ran it, its
    completion is counted twice: a reduce task is handed out while a map task
    of the job is still running, and once every task has finished the job is
    not done, no task is left to hand out, and clients that poll wait forever. *)
Theorem double_report_stuck :
  match double_report coordinator_init with
  | Ok (early, running, last, p, s) =>
      r_wait early = false ∧ r_reduce early = true ∧ running = true ∧
      r_wait last = true ∧ p = mk_poll false false false
  | Err _ => False
  end.
Proof. vm_compute. repeat split. Qed.
