(* ===== verification/Vaddr.v ===== *)
(** * Virtual addresses and page table entries ([threads/vaddr.h], [threads/pte.h])

    Addresses and entries are 32-bit words.  The functions that assert run in
    the fault monad over any state. *)
From S2P Require Import Prelude.

(** ** Virtual addresses *)

Definition BITMASK (shift cnt : Z) : Z := wrap32 (Z.shiftl (wrap32 (Z.shiftl 1 cnt) - 1) shift).

Definition PGSHIFT : Z := 0.
Definition PGBITS : Z := 12.
Definition PGSIZE : Z := Z.shiftl 1 PGBITS.
Definition PGMASK : Z := BITMASK PGSHIFT PGBITS.

Definition pg_ofs (va : Z) : Z := Z.land va PGMASK.
Definition pg_no (va : Z) : Z := Z.shiftr va PGBITS.
Definition pg_round_up (va : Z) : Z :=
  Z.land (wrap32 (va + PGSIZE - 1)) (wrap32 (Z.lnot PGMASK)).
Definition pg_round_down (va : Z) : Z := Z.land va (wrap32 (Z.lnot PGMASK)).

Definition LOADER_PHYS_BASE : Z := 0xc0000000.
Definition PHYS_BASE : Z := LOADER_PHYS_BASE.

Definition is_user_vaddr (vaddr : Z) : bool := vaddr <? PHYS_BASE.
Definition is_kernel_vaddr (vaddr : Z) : bool := PHYS_BASE <=? vaddr.

Definition ptov {S} (paddr : Z) : M S Z :=
  ASSERT (paddr <? PHYS_BASE) ;; mret (wrap32 (paddr + PHYS_BASE)).

Definition vtop {S} (vaddr : Z) : M S Z :=
  ASSERT (is_kernel_vaddr vaddr) ;; mret (wrap32 (vaddr - PHYS_BASE)).

(** ** Page directory and page table entries *)

Definition PTSHIFT : Z := PGBITS.
Definition PTBITS : Z := 10.
Definition PTSPAN : Z := Z.shiftl (Z.shiftl 1 PTBITS) PGBITS.
Definition PTMASK : Z := BITMASK PTSHIFT PTBITS.
Definition PDSHIFT : Z := PTSHIFT + PTBITS.
Definition PDBITS : Z := 10.
Definition PDMASK : Z := BITMASK PDSHIFT PDBITS.

Definition pt_no (va : Z) : Z := Z.shiftr (Z.land va PTMASK) PTSHIFT.
Definition pd_no (va : Z) : Z := Z.shiftr va PDSHIFT.

Definition PTE_FLAGS : Z := 0x00000fff.
Definition PTE_ADDR : Z := 0xfffff000.
Definition PTE_AVL : Z := 0x00000e00.
Definition PTE_P : Z := 0x1.
Definition PTE_W : Z := 0x2.
Definition PTE_U : Z := 0x4.
Definition PTE_A : Z := 0x20.
Definition PTE_D : Z := 0x40.

Definition pde_create {S} (pt : Z) : M S Z :=
  ASSERT (pg_ofs pt =? 0) ;;
  p ← vtop pt; mret (Z.lor (Z.lor (Z.lor p PTE_U) PTE_P) PTE_W).

Definition pde_get_pt {S} (pde : Z) : M S Z :=
  ASSERT (negb (Z.land pde PTE_P =? 0)) ;; ptov (Z.land pde PTE_ADDR).

Definition pte_create_kernel {S} (page : Z) (writable : bool) : M S Z :=
  ASSERT (pg_ofs page =? 0) ;;
  p ← vtop page; mret (Z.lor (Z.lor p PTE_P) (if writable then PTE_W else 0)).

Definition pte_create_user {S} (page : Z) (writable : bool) : M S Z :=
  p ← pte_create_kernel page writable; mret (Z.lor p PTE_U).

Definition pte_get_page {S} (pte : Z) : M S Z := ptov (Z.land pte PTE_ADDR).

(** ** The bit operations as arithmetic *)

Lemma PGSIZE_eq : PGSIZE = 4096.
Proof. reflexivity. Qed.
Lemma PHYS_BASE_eq : PHYS_BASE = 3221225472.
Proof. reflexivity. Qed.

Lemma land_ones_mod a n : 0 ≤ n → Z.land a (2 ^ n - 1) = a mod 2 ^ n.
Proof. intros. rewrite <-Z.land_ones by done. by rewrite Z.ones_equiv, <-Z.sub_1_r. Qed.

Lemma pg_ofs_mod va : pg_ofs va = va mod 4096.
Proof. apply (land_ones_mod va 12). lia. Qed.

Lemma pg_no_div va : pg_no va = va / 4096.
Proof. unfold pg_no. by rewrite Z.shiftr_div_pow2. Qed.

Lemma pd_no_div va : pd_no va = va / 4194304.
Proof. unfold pd_no. by rewrite Z.shiftr_div_pow2. Qed.

(** Keeping the bits above the twelfth. *)
Lemma land_high va : 0 ≤ va < 2 ^ 32 → Z.land va 0xfffff000 = va - va mod 4096.
Proof.
  intros Hva. replace 0xfffff000 with (Z.land (Z.ones 32) (Z.lnot (Z.ones 12))) by reflexivity.
  rewrite Z.land_assoc, Z.land_ones by lia. rewrite Z.mod_small by lia.
  rewrite <-Z.ldiff_land, Z.ldiff_ones_r by lia.
  rewrite Z.shiftr_div_pow2, Z.shiftl_mul_pow2 by lia.
  change (2 ^ 12) with 4096. pose proof (Z.div_mod va 4096). lia.
Qed.

Lemma pg_round_down_eq va : 0 ≤ va < 2 ^ 32 → pg_round_down va = va - va mod 4096.
Proof. apply land_high. Qed.

Lemma pg_round_up_eq va : 0 ≤ va → va + 4095 < 2 ^ 32 →
  pg_round_up va = (va + 4095) - (va + 4095) mod 4096.
Proof.
  intros. unfold pg_round_up. rewrite PGSIZE_eq, wrap32_small by lia.
  rewrite <-land_high by lia. f_equal. lia.
Qed.

Lemma pt_no_div va : pt_no va = va / 4096 mod 1024.
Proof.
  unfold pt_no. rewrite Z.shiftr_land. change (Z.shiftr PTMASK PTSHIFT) with (2 ^ 10 - 1).
  rewrite land_ones_mod by lia. by rewrite Z.shiftr_div_pow2.
Qed.

(** Or-ing flags below the twelfth bit into an aligned word adds them. *)
Lemma lor_flags a f : a mod 4096 = 0 → 0 ≤ f < 4096 → Z.lor a f = a + f.
Proof.
  intros Ha Hf. assert (Hl : Z.land a f = 0).
  { apply Z.bits_inj'. intros n Hn. rewrite Z.land_spec, Z.bits_0.
    destruct (decide (n < 12)).
    - replace a with (a / 4096 * 2 ^ 12) by (change (2 ^ 12) with 4096; div_lia).
      by rewrite Z.mul_pow2_bits_low by lia.
    - replace (Z.testbit f n) with false; [apply andb_false_r|]. symmetry.
      destruct (decide (f = 0)) as [->|]; [apply Z.bits_0|].
      apply Z.bits_above_log2; [lia|].
      apply Z.log2_lt_pow2; [lia|]. apply Z.lt_le_trans with (2 ^ 12); [lia|].
      apply Z.pow_le_mono_r; lia. }
  by rewrite <-Z.lxor_lor, Z.add_nocarry_lxor.
Qed.

(** An entry is the address of a frame plus flags. *)
Lemma entry_addr a f : a mod 4096 = 0 → 0 ≤ a < 2 ^ 32 → 0 ≤ f < 4096 → Z.land (a + f) PTE_ADDR = a.
Proof. intros. unfold PTE_ADDR. rewrite land_high by div_lia. div_lia. Qed.

Lemma entry_flag a f n : a mod 4096 = 0 → 0 ≤ f < 4096 → 0 ≤ n < 12 →
  Z.land (a + f) (2 ^ n) = Z.land f (2 ^ n).
Proof.
  intros Ha Hf Hn. rewrite <-lor_flags by done. rewrite Z.land_lor_distr_l.
  replace (Z.land a (2 ^ n)) with 0; [by rewrite Z.lor_0_l|].
  apply Z.bits_inj'. intros m Hm. rewrite Z.land_spec, Z.bits_0, Z.pow2_bits_eqb by lia.
  destruct (Z.eqb_spec n m) as [<-|]; [|by rewrite andb_false_r].
  replace a with (a / 4096 * 2 ^ 12) by (change (2 ^ 12) with 4096; div_lia).
  by rewrite Z.mul_pow2_bits_low by lia.
Qed.

Definition aligned (a : Z) : Prop := a mod 4096 = 0.

(** A page of the kernel's mapping of physical memory. *)
Definition kernel_page (a : Z) : Prop := PHYS_BASE ≤ a < 2 ^ 32 ∧ aligned a.

Section entries.
Context {St : Type}.
Implicit Types (s : St).

Lemma wp_vtop a Q s : PHYS_BASE ≤ a < 2 ^ 32 → Q (a - PHYS_BASE) s → wp (vtop a) Q s.
Proof.
  intros Ha HQ. unfold vtop. repeat wp_step; [unfold is_kernel_vaddr; lia|].
  rewrite PHYS_BASE_eq in *. by rewrite wrap32_small by lia.
Qed.

Lemma wp_ptov a Q s : 0 ≤ a < 2 ^ 30 → Q (a + PHYS_BASE) s → wp (ptov a) Q s.
Proof.
  intros Ha HQ. rewrite PHYS_BASE_eq in *. unfold ptov. rewrite PHYS_BASE_eq.
  repeat wp_step; [lia|]. by rewrite wrap32_small by lia.
Qed.

Lemma wp_pde_create pt Q s :
  kernel_page pt → Q (pt - PHYS_BASE + 7) s → wp (pde_create pt) Q s.
Proof.
  intros [Hr Ha] HQ. unfold pde_create. repeat wp_step; [rewrite pg_ofs_mod; by rewrite Ha|].
  apply wp_vtop; [done|]. wp_step. unfold aligned in Ha. rewrite PHYS_BASE_eq in *.
  rewrite <-!Z.lor_assoc. change (Z.lor PTE_U (Z.lor PTE_P PTE_W)) with 7.
  rewrite lor_flags; [done|div_lia|lia].
Qed.

Lemma wp_pte_create_user page (w : bool) Q s :
  kernel_page page → Q (page - PHYS_BASE + (if w then 7 else 5)) s →
  wp (pte_create_user page w) Q s.
Proof.
  intros [Hr Ha] HQ. unfold pte_create_user, pte_create_kernel.
  repeat wp_step; [rewrite pg_ofs_mod; by rewrite Ha|].
  apply wp_vtop; [done|]. repeat wp_step. unfold aligned in Ha. rewrite PHYS_BASE_eq in *.
  rewrite <-!Z.lor_assoc.
  replace (Z.lor PTE_P (Z.lor (if w then PTE_W else 0) PTE_U)) with (if w then 7 else 5) by (by destruct w).
  rewrite lor_flags; [done|div_lia|by destruct w; lia].
Qed.

(** Reading an entry back gives the page it was made for. *)
Lemma wp_pte_get_page page f Q s :
  kernel_page page → 0 ≤ f < 4096 → Q page s → wp (pte_get_page (page - PHYS_BASE + f)) Q s.
Proof.
  intros [Hr Ha] Hf HQ. unfold pte_get_page. unfold aligned in Ha. rewrite PHYS_BASE_eq in *.
  rewrite entry_addr; [|div_lia|lia|done]. apply wp_ptov; [lia|].
  rewrite PHYS_BASE_eq. by replace (page - 3221225472 + 3221225472) with page by lia.
Qed.

Lemma wp_pde_get_pt pt f Q s :
  kernel_page pt → 0 ≤ f < 4096 → Z.land f PTE_P ≠ 0 → Q pt s →
  wp (pde_get_pt (pt - PHYS_BASE + f)) Q s.
Proof.
  intros Hpt Hf Hp HQ. unfold pde_get_pt. wp_step. wp_step.
  - pose proof Hpt as [Hr Ha]. unfold aligned in Ha. rewrite PHYS_BASE_eq in *.
    change PTE_P with (2 ^ 0) in *. rewrite entry_flag; [|div_lia|lia|lia].
    by apply negb_true_iff, Z.eqb_neq.
  - by apply wp_pte_get_page.
Qed.
End entries.

(** A user address is its page directory index, its page table index and its
    offset. *)
Lemma vaddr_split va : va = pd_no va * 4194304 + pt_no va * 4096 + pg_ofs va.
Proof. rewrite pd_no_div, pt_no_div, pg_ofs_mod. div_lia. Qed.

Lemma pd_no_range va : 0 ≤ va < 2 ^ 32 → 0 ≤ pd_no va < 1024.
Proof. rewrite pd_no_div. intros. div_lia. Qed.
Lemma pt_no_range va : 0 ≤ pt_no va < 1024.
Proof. rewrite pt_no_div. div_lia. Qed.

Lemma same_page va va' :
  pg_no va = pg_no va' ↔ pd_no va = pd_no va' ∧ pt_no va = pt_no va'.
Proof. rewrite !pd_no_div, !pt_no_div, !pg_no_div. split; [|intros [? ?]]; div_lia. Qed.

(** The three fields of a virtual address determine it and are in range;
    the page roundings give the nearest multiples of the page size below and
    above; and for a page of kernel memory, making a page directory or page
    table entry and reading the address back from it returns the page,
    with the present, user and (as asked) writable bits set and nothing else. *)
Theorem pte_roundtrip {S} (s : S) (va page : Z) (w : bool) :
  0 ≤ va < 2 ^ 32 → PHYS_BASE ≤ page < 2 ^ 32 → page mod PGSIZE = 0 →
  va = pd_no va * PTSPAN + pt_no va * PGSIZE + pg_ofs va ∧
  0 ≤ pd_no va < 1024 ∧ 0 ≤ pt_no va < 1024 ∧ 0 ≤ pg_ofs va < PGSIZE ∧
  pg_round_down va = PGSIZE * (va / PGSIZE) ∧
  (va + PGSIZE ≤ 2 ^ 32 → pg_round_up va = PGSIZE * ((va + PGSIZE - 1) / PGSIZE)) ∧
  (∃ pde, pde_create page s = Ok (pde, s) ∧ pde_get_pt pde s = Ok (page, s)) ∧
  (∃ pte, pte_create_user page w s = Ok (pte, s) ∧ pte_get_page pte s = Ok (page, s) ∧
     Z.land pte PTE_FLAGS = PTE_P + PTE_U + (if w then PTE_W else 0)).
Proof.
  intros Hva Hr Hp. assert (Hk : kernel_page page) by done.
  pose proof (pd_no_range va Hva). pose proof (pt_no_range va).
  split; [apply vaddr_split|]. do 2 (split; [done|]).
  change PGSIZE with 4096. split; [rewrite pg_ofs_mod; div_lia|].
  split; [rewrite pg_round_down_eq by done; div_lia|].
  split; [intros; rewrite pg_round_up_eq by lia; div_lia|]. split.
  - destruct (proj1 (wp_Ok _ _ _) (wp_pde_create page (λ p s', p = page - PHYS_BASE + 7 ∧ s' = s) s
      Hk (conj eq_refl eq_refl))) as (pde & s' & E & -> & ->).
    exists (page - PHYS_BASE + 7). split; [done|].
    by destruct (proj1 (wp_Ok _ _ _) (wp_pde_get_pt page 7 (λ p s', p = page ∧ s' = s) s
      Hk ltac:(lia) ltac:(done) (conj eq_refl eq_refl))) as (? & ? & -> & -> & ->).
  - set (f := if w then 7 else 5). assert (0 ≤ f < 4096) by (destruct w; cbn; lia).
    destruct (proj1 (wp_Ok _ _ _) (wp_pte_create_user page w (λ p s', p = page - PHYS_BASE + f ∧ s' = s) s
      Hk (conj eq_refl eq_refl))) as (pte & s' & E & -> & ->).
    exists (page - PHYS_BASE + f). split; [done|]. split.
    + by destruct (proj1 (wp_Ok _ _ _) (wp_pte_get_page page f (λ p s', p = page ∧ s' = s) s
        Hk ltac:(done) (conj eq_refl eq_refl))) as (? & ? & -> & -> & ->).
    + change PTE_FLAGS with (2 ^ 12 - 1). rewrite land_ones_mod by lia.
      destruct Hk as [_ Ha]. unfold aligned in Ha. rewrite PHYS_BASE_eq in *.
      replace (_ mod 2 ^ 12) with f by (change (2 ^ 12) with 4096; div_lia). by destruct w.
Qed.

Lemma pte_roundtrip_witness :
  pg_round_up 0x8048123 = 0x8049000 ∧
  ∃ pte, pte_create_user 0xc0123000 true tt = Ok (pte, tt) ∧ pte_get_page pte tt = Ok (0xc0123000, tt).
Proof.
  destruct (pte_roundtrip tt 0x8048123 0xc0123000 true) as (_ & _ & _ & _ & _ & _ & _ & pte & ? & ? & _);
    [lia|rewrite PHYS_BASE_eq; lia|reflexivity|].
  split; [reflexivity|by exists pte].
Defined.
