(* ===== verification/Palloc.v ===== *)
(** * The page allocator ([threads/palloc.c])

    Physical memory is a map from kernel page numbers to pages of 1024 words.
    The two pools keep their bitmaps of used pages; the storage of a bitmap,
    which lies before the base of its pool, belongs to the bitmap from then
    on.  The locks of the pools are not modelled: the handlers run one at a
    time.  The state also has the registers and the fields of the current
    thread that the memory system uses. *)
From S2P Require Import Prelude Bitmap Vaddr.

Definition page_words : nat := 1024.

Record pool := mk_pool { used_map : bitmap; base : Z }.

Record kernel := mk_kernel {
  mem : gmap Z (list Z);
  kernel_pool : pool;
  user_pool : pool;
  init_ram_pages : Z;
  init_page_dir : Z;
  cr3 : Z;
  pagedir : Z;
  segbreak : Z
}.

Definition set_mem (m : gmap Z (list Z)) (s : kernel) : kernel :=
  mk_kernel m (kernel_pool s) (user_pool s) (init_ram_pages s) (init_page_dir s) (cr3 s)
    (pagedir s) (segbreak s).
Definition set_segbreak (a : Z) (s : kernel) : kernel :=
  mk_kernel (mem s) (kernel_pool s) (user_pool s) (init_ram_pages s) (init_page_dir s) (cr3 s)
    (pagedir s) a.

(** [true] is the user pool. *)
Definition get_pool (user : bool) (s : kernel) : pool :=
  if user then user_pool s else kernel_pool s.
Definition set_pool (user : bool) (p : pool) (s : kernel) : kernel :=
  mk_kernel (mem s) (if user then kernel_pool s else p) (if user then p else user_pool s)
    (init_ram_pages s) (init_page_dir s) (cr3 s) (pagedir s) (segbreak s).

(** An operation on the bitmap of a pool. *)
Definition on_used_map {A} (user : bool) (m : M bitmap A) : M kernel A := λ s,
  match m (used_map (get_pool user s)) with
  | Ok (a, b) => Ok (a, set_pool user (mk_pool b (base (get_pool user s))) s)
  | Err f => Err f
  end.

(** ** Memory *)

(** The word at an address. *)
Definition load (a : Z) : M kernel Z := λ s,
  match mem s !! pg_no a ≫= (λ page : list Z, page !! Z.to_nat (pg_ofs a / 4)) with
  | Some w => Ok (w, s)
  | None => Err BadAccess
  end.

Definition store (a w : Z) : M kernel unit := λ s,
  match mem s !! pg_no a with
  | Some page => Ok (tt, set_mem (<[pg_no a := <[Z.to_nat (pg_ofs a / 4) := w]> page]> (mem s)) s)
  | None => Err BadAccess
  end.

(** The pages from number [p] on filled with the word [w]. *)
Fixpoint fill_pages (n : nat) (p w : Z) (m : gmap Z (list Z)) : gmap Z (list Z) :=
  match n with
  | O => m
  | S n => fill_pages n (p + 1) w (<[p := replicate page_words w]> m)
  end.

Fixpoint pages_present (n : nat) (p : Z) (m : gmap Z (list Z)) : bool :=
  match n with
  | O => true
  | S n => bool_decide (is_Some (m !! p)) && pages_present n (p + 1) m
  end.

(** [memset (a, c, PGSIZE * cnt)] for a page-aligned address. *)
Definition memset_pages (a c cnt : Z) : M kernel unit := λ s,
  let n := Z.to_nat (wrap32 (PGSIZE * cnt) / PGSIZE) in
  if pages_present n (pg_no a) (mem s)
  then Ok (tt, set_mem (fill_pages n (pg_no a) (c * 0x01010101) (mem s)) s)
  else Err BadAccess.

(** The words of [n] pages. *)
Fixpoint read_pages (n : nat) (p : Z) (m : gmap Z (list Z)) : option (list Z) :=
  match n with
  | O => Some []
  | S n => page ← m !! p; rest ← read_pages n (p + 1) m; Some (page ++ rest)
  end.

(** ** The allocator *)

Definition PAL_ASSERT : Z := 1.
Definition PAL_ZERO : Z := 2.
Definition PAL_USER : Z := 4.

Definition flag (flags f : Z) : bool := negb (Z.land flags f =? 0).

(** The bitmap of the pool is put in its first pages. *)
Definition init_pool (user : bool) (base page_cnt : Z) : M kernel unit := λ s,
  let bm_pages := DIV_ROUND_UP (bitmap_buf_size page_cnt) PGSIZE in
  if page_cnt <? bm_pages then Err Panicked else
  let page_cnt := page_cnt - bm_pages in
  match read_pages (Z.to_nat bm_pages) (pg_no base) (mem s) with
  | None => Err BadAccess
  | Some block =>
      match bitmap_create_in_buf page_cnt (drop 2 block) (wrap32 (bm_pages * PGSIZE)) with
      | Ok b => Ok (tt, set_pool user (mk_pool b (wrap32 (base + bm_pages * PGSIZE))) s)
      | Err f => Err f
      end
  end.

Definition palloc_init (user_page_limit : Z) : M kernel unit :=
  free_start ← ptov (1024 * 1024);
  ram ← gets init_ram_pages;
  free_end ← ptov (wrap32 (ram * PGSIZE));
  let free_pages := wrap32 (Z.quot (free_end - free_start) PGSIZE) in
  let user_pages := free_pages / 2 in
  let user_pages := if user_page_limit <? user_pages then user_page_limit else user_pages in
  let kernel_pages := free_pages - user_pages in
  init_pool false free_start kernel_pages ;;
  init_pool true (wrap32 (free_start + kernel_pages * PGSIZE)) user_pages.

Definition palloc_get_multiple (flags page_cnt : Z) : M kernel Z :=
  let user := flag flags PAL_USER in
  if page_cnt =? 0 then mret NULL else
  page_idx ← on_used_map user (bitmap_scan_and_flip 0 page_cnt false);
  b ← gets (λ s, base (get_pool user s));
  let pages := if page_idx =? BITMAP_ERROR then NULL else wrap32 (b + PGSIZE * page_idx) in
  (if pages =? NULL then (if flag flags PAL_ASSERT then PANIC else mret tt)
   else when (flag flags PAL_ZERO) (memset_pages pages 0 page_cnt)) ;;
  mret pages.

Definition palloc_get_page (flags : Z) : M kernel Z := palloc_get_multiple flags 1.

Definition page_from_pool (p : pool) (page : Z) : bool :=
  let page_no := pg_no page in
  let start_page := pg_no (base p) in
  let end_page := wrap32 (start_page + bit_cnt (used_map p)) in
  (start_page <=? page_no) && (page_no <? end_page).

Definition palloc_free_multiple (pages page_cnt : Z) : M kernel unit :=
  ASSERT (pg_ofs pages =? 0) ;;
  if (pages =? NULL) || (page_cnt =? 0) then mret tt else
  s ← gets id;
  user ← (if page_from_pool (kernel_pool s) pages then mret false
          else if page_from_pool (user_pool s) pages then mret true
          else PANIC);
  let page_idx := wrap32 (pg_no pages - pg_no (base (get_pool user s))) in
  memset_pages pages 0xcc page_cnt ;;
  all ← on_used_map user (bitmap_all page_idx page_cnt);
  ASSERT all ;;
  on_used_map user (bitmap_set_multiple page_idx page_cnt false).

Definition palloc_free_page (page : Z) : M kernel unit := palloc_free_multiple page 1.

(** ** The invariant *)

Record pool_ok (ram : Z) (p : pool) : Prop := {
  pok_wf : wf (used_map p);
  pok_base : PHYS_BASE ≤ base p ∧ aligned (base p);
  pok_end : base p + PGSIZE * bit_cnt (used_map p) ≤ PHYS_BASE + PGSIZE * ram
}.

Record kernel_ok (s : kernel) : Prop := {
  kok_ram : 0 ≤ init_ram_pages s < 2 ^ 18;
  kok_mem p : 0 ≤ p - pg_no PHYS_BASE < init_ram_pages s →
    ∃ page, mem s !! p = Some page ∧ length page = page_words;
  kok_pool u : pool_ok (init_ram_pages s) (get_pool u s);
  kok_disjoint : base (kernel_pool s) + PGSIZE * bit_cnt (used_map (kernel_pool s)) ≤
    base (user_pool s)
}.

(** ** Lemmas on memory and pools *)

Lemma lookup_fill_pages n p w m q :
  fill_pages n p w m !! q =
  if decide (p ≤ q < p + Z.of_nat n) then Some (replicate page_words w) else m !! q.
Proof.
  revert p m. induction n as [|n IH]; intros p m; cbn [fill_pages].
  { by rewrite decide_False by lia. }
  rewrite IH. destruct (decide (q = p)) as [->|].
  - rewrite decide_False, decide_True by lia. apply lookup_insert_eq.
  - rewrite lookup_insert_ne by done. apply decide_ext. lia.
Qed.

Lemma pages_present_true n p m :
  (∀ q, p ≤ q < p + Z.of_nat n → is_Some (m !! q)) → pages_present n p m = true.
Proof.
  revert p. induction n as [|n IH]; intros p H; [done|]. cbn.
  rewrite bool_decide_true by (apply H; lia). apply IH. intros q Hq. apply H. lia.
Qed.

Lemma set_pool_id u s : set_pool u (mk_pool (used_map (get_pool u s)) (base (get_pool u s))) s = s.
Proof. by destruct s as [? [] [] ? ? ? ? ?], u. Qed.

Lemma get_set_pool u v p s :
  get_pool u (set_pool v p s) = if Bool.eqb u v then p else get_pool u s.
Proof. by destruct u, v. Qed.

Lemma wp_on_used_map {A} u (m : M bitmap A) Q s :
  wp m (λ a b, Q a (set_pool u (mk_pool b (base (get_pool u s))) s)) (used_map (get_pool u s)) →
  wp (on_used_map u m) Q s.
Proof. unfold wp, on_used_map. by destruct (m _) as [[a b]|f]. Qed.

Lemma pool_cnt ram p : pool_ok ram p → ram < 2 ^ 18 →
  0 ≤ bit_cnt (used_map p) < 2 ^ 18 ∧ base p + 4096 * bit_cnt (used_map p) < 2 ^ 32.
Proof.
  intros [Hwf [Hb _] He] Hr. pose proof (wf_cnt _ Hwf). change PGSIZE with 4096 in He.
  rewrite PHYS_BASE_eq in *. lia.
Qed.

(** The page with index [i] of a pool. *)
Definition pool_page (p : pool) (i : Z) : Z := base p + PGSIZE * i.

Lemma pool_page_no ram p i : pool_ok ram p →
  pg_no (pool_page p i) = pg_no (base p) + i ∧ aligned (pool_page p i).
Proof.
  intros [_ [_ Ha] _]. unfold pool_page, aligned in *. change PGSIZE with 4096.
  rewrite !pg_no_div. split; div_lia.
Qed.

Lemma pool_page_kernel ram p i : pool_ok ram p → ram < 2 ^ 18 → 0 ≤ i < bit_cnt (used_map p) →
  kernel_page (pool_page p i) ∧ 0 ≤ pg_no (pool_page p i) - pg_no PHYS_BASE < ram.
Proof.
  intros Hp Hr Hi. pose proof (pool_page_no _ _ i Hp) as [En Ha].
  pose proof (pool_cnt _ _ Hp Hr). destruct Hp as [_ [Hb Hal] He].
  split; [split; [|done]|].
  - unfold pool_page. change PGSIZE with 4096 in *. lia.
  - rewrite En, !pg_no_div. unfold aligned in Hal. change PGSIZE with 4096 in *.
    rewrite PHYS_BASE_eq in *. div_lia.
Qed.

Lemma kernel_ok_set_pool u b s :
  kernel_ok s → wf b → same_size (used_map (get_pool u s)) b →
  kernel_ok (set_pool u (mk_pool b (base (get_pool u s))) s).
Proof.
  intros [Hr Hm Hp Hd] Hwf [Hc _]. split; [done|done| |].
  - intros v. rewrite get_set_pool. destruct (Bool.eqb v u) eqn:E; [|apply Hp].
    destruct (Hp u). split; cbn; [done|done|]. by rewrite Hc.
  - destruct u; cbn in *; [done|]. by rewrite Hc.
Qed.

Lemma kernel_ok_set_mem m s :
  kernel_ok s →
  (∀ p page, mem s !! p = Some page → length page = page_words →
     ∃ page', m !! p = Some page' ∧ length page' = page_words) →
  kernel_ok (set_mem m s).
Proof.
  intros [Hr Hm Hp Hd] H. split; [done| |done|done].
  intros p Hpr. destruct (Hm p Hpr) as (page & Hl & Hlen). eauto.
Qed.

Lemma kernel_ok_fill n p w s : kernel_ok s → kernel_ok (set_mem (fill_pages n p w (mem s)) s).
Proof.
  intros Hs. apply kernel_ok_set_mem; [done|]. intros q page Hq Hlen.
  rewrite lookup_fill_pages. case_decide; [|by eauto].
  eexists. split; [done|]. by rewrite length_replicate.
Qed.

Lemma wp_memset_pages u i c cnt Q s :
  kernel_ok s → 0 ≤ i → 0 ≤ cnt → i + cnt ≤ bit_cnt (used_map (get_pool u s)) →
  Q tt (set_mem (fill_pages (Z.to_nat cnt) (pg_no (pool_page (get_pool u s) i))
         (c * 0x01010101) (mem s)) s) →
  wp (memset_pages (pool_page (get_pool u s) i) c cnt) Q s.
Proof.
  intros Hs Hi Hc Hn HQ. pose proof (kok_pool _ Hs u) as Hp.
  pose proof (kok_ram _ Hs). pose proof (pool_cnt _ _ Hp ltac:(lia)).
  unfold wp, memset_pages. change PGSIZE with 4096. rewrite wrap32_small by lia.
  replace (4096 * cnt / 4096) with cnt by div_lia.
  rewrite pages_present_true; [done|]. intros q Hq.
  pose proof (pool_page_no _ _ i Hp) as [En _]. rewrite En in Hq.
  pose proof (pool_page_no _ _ (q - pg_no (base (get_pool u s))) Hp) as [En' _].
  destruct (pool_page_kernel _ _ (q - pg_no (base (get_pool u s))) Hp) as [_ Hq']; [lia|lia|].
  rewrite En' in Hq'. destruct (kok_mem _ Hs q) as (page & -> & _); [lia|done].
Qed.

(** ** Allocation and release *)

(** The state after the pages [idx .. idx + cnt) of a pool were handed out. *)
Definition allocated (u zero : bool) (idx cnt : Z) (s s' : kernel) : Prop :=
  ∃ b, wf b ∧ same_size (used_map (get_pool u s)) b ∧
    (∀ j, 0 ≤ j → bit b j =
       if decide (idx ≤ j < idx + cnt) then true else bit (used_map (get_pool u s)) j) ∧
    s' = set_mem (if zero then fill_pages (Z.to_nat cnt) (pg_no (pool_page (get_pool u s) idx)) 0 (mem s)
                  else mem s)
           (set_pool u (mk_pool b (base (get_pool u s))) s).

Lemma allocated_ok u zero idx cnt s s' :
  kernel_ok s → allocated u zero idx cnt s s' → kernel_ok s'.
Proof.
  intros Hs (b & Hwf & Hsz & _ & ->).
  pose proof (kernel_ok_set_pool u b s Hs Hwf Hsz) as Hs'.
  destruct zero; [by apply (kernel_ok_fill _ _ _ (set_pool u _ s))|]. apply kernel_ok_set_mem; [done|eauto].
Qed.

Lemma kernel_ok_group u i cnt s :
  kernel_ok s → first_group (used_map (get_pool u s)) 0 cnt false i → 0 < cnt →
  0 ≤ i ∧ i + cnt ≤ bit_cnt (used_map (get_pool u s)) ∧ i ≠ BITMAP_ERROR ∧
  wrap32 (base (get_pool u s) + PGSIZE * i) = pool_page (get_pool u s) i ∧
  pool_page (get_pool u s) i ≠ NULL.
Proof.
  intros Hs (H0 & H1 & _ & _) Hc. pose proof (kok_pool _ Hs u) as Hp. pose proof (kok_ram _ Hs).
  pose proof (pool_cnt _ _ Hp ltac:(lia)). pose proof (pok_base _ _ Hp) as [Hb _].
  unfold pool_page, BITMAP_ERROR. change PGSIZE with 4096. rewrite PHYS_BASE_eq in *.
  rewrite wrap32_small by lia. lia.
Qed.

Lemma wp_palloc_get_multiple flags cnt Q s :
  kernel_ok s → 0 < cnt →
  (let u := flag flags PAL_USER in
   (no_group (used_map (get_pool u s)) 0 cnt false → flag flags PAL_ASSERT = false ∧ Q NULL s) ∧
   (∀ i s', first_group (used_map (get_pool u s)) 0 cnt false i →
      allocated u (flag flags PAL_ZERO) i cnt s s' → Q (pool_page (get_pool u s) i) s')) →
  wp (palloc_get_multiple flags cnt) Q s.
Proof.
  intros Hs Hc [Hno Hyes]. unfold palloc_get_multiple. cbv zeta.
  rewrite (proj2 (Z.eqb_neq cnt 0)) by lia. set (u := flag flags PAL_USER) in *.
  pose proof (kok_pool _ Hs u) as Hp. pose proof (kok_ram _ Hs).
  pose proof (pool_cnt _ _ Hp ltac:(lia)).
  wp_step. apply wp_on_used_map. eapply wp_mono.
  { apply wp_bitmap_scan_and_flip; [apply Hp|lia|lia|unfold BITMAP_ERROR; lia]. }
  intros r b (Hwf & Hsz & [(-> & Hng & ->)|(Hr & Hg & Hb)]); repeat wp_step.
  - destruct (Hno Hng) as [Ha HQ]. rewrite set_pool_id, Ha. cbn [Z.eqb]. repeat wp_step. done.
  - destruct (kernel_ok_group u r cnt s Hs Hg Hc) as (? & ? & Hne & Ew & Hnn).
    rewrite (proj2 (Z.eqb_neq r BITMAP_ERROR)) by done.
    rewrite get_set_pool, Bool.eqb_reflx. cbn [base]. rewrite Ew.
    rewrite (proj2 (Z.eqb_neq _ 0)) by done.
    pose proof (kernel_ok_set_pool u b s Hs Hwf Hsz) as Hs'.
    destruct (flag flags PAL_ZERO) eqn:Hz; repeat wp_step.
    + pose proof (wp_memset_pages u r 0 cnt) as Hms. unfold pool_page in *.
      set (s1 := set_pool u _ s) in *.
      replace (base (get_pool u s)) with (base (get_pool u s1)) at 1
        by (unfold s1; by rewrite get_set_pool, Bool.eqb_reflx).
      apply Hms; [done|lia|lia| |].
      { unfold s1. rewrite get_set_pool, Bool.eqb_reflx. destruct Hsz as [Hsz _]. cbn [used_map]. lia. }
      wp_step. apply Hyes; [done|]. exists b. split; [done|]. split; [done|]. split; [done|].
      unfold s1. rewrite get_set_pool, Bool.eqb_reflx. done.
    + apply Hyes; [done|]. exists b. split; [done|]. split; [done|]. split; [done|]. done.
Qed.

(** The pool that a page comes from is found again. *)
Lemma page_from_pool_iff s u a :
  kernel_ok s →
  page_from_pool (get_pool u s) a = true ↔
  pg_no (base (get_pool u s)) ≤ pg_no a <
    pg_no (base (get_pool u s)) + bit_cnt (used_map (get_pool u s)).
Proof.
  intros Hs. pose proof (kok_pool _ Hs u) as Hp. pose proof (kok_ram _ Hs).
  pose proof (pool_cnt _ _ Hp ltac:(lia)). pose proof (pok_base _ _ Hp) as [Hb _].
  unfold page_from_pool. cbv zeta. rewrite wrap32_small; [lia|].
  rewrite pg_no_div. rewrite PHYS_BASE_eq in *. div_lia.
Qed.

Lemma find_pool s u i :
  kernel_ok s → 0 ≤ i < bit_cnt (used_map (get_pool u s)) →
  page_from_pool (kernel_pool s) (pool_page (get_pool u s) i) = negb u ∧
  (u = true → page_from_pool (user_pool s) (pool_page (get_pool u s) i) = true).
Proof.
  intros Hs Hi. pose proof (pool_page_no _ _ i (kok_pool _ Hs u)) as [En _].
  pose proof (page_from_pool_iff s true (pool_page (get_pool u s) i) Hs) as Hu.
  pose proof (page_from_pool_iff s false (pool_page (get_pool u s) i) Hs) as Hk.
  pose proof (kok_disjoint _ Hs) as Hd.
  pose proof (kok_pool _ Hs true) as [_ [_ Ha1] _]. pose proof (kok_pool _ Hs false) as [_ [_ Ha2] _].
  rewrite En in Hu, Hk. cbn [get_pool] in *. unfold aligned in *. change PGSIZE with 4096 in Hd.
  destruct u; cbn [get_pool negb] in *.
  - split; [|intros _; apply Hu; lia]. apply not_true_iff_false. rewrite Hk, !pg_no_div. div_lia.
  - split; [apply Hk; lia|done].
Qed.

Definition released (u : bool) (idx cnt : Z) (s s' : kernel) : Prop :=
  ∃ b, wf b ∧ same_size (used_map (get_pool u s)) b ∧
    (∀ j, 0 ≤ j → bit b j =
       if decide (idx ≤ j < idx + cnt) then false else bit (used_map (get_pool u s)) j) ∧
    s' = set_mem (fill_pages (Z.to_nat cnt) (pg_no (pool_page (get_pool u s) idx)) 0xcccccccc (mem s))
           (set_pool u (mk_pool b (base (get_pool u s))) s).

Lemma released_ok u idx cnt s s' : kernel_ok s → released u idx cnt s s' → kernel_ok s'.
Proof.
  intros Hs (b & Hwf & Hsz & _ & ->). apply (kernel_ok_fill _ _ _ (set_pool u _ s)).
  by apply kernel_ok_set_pool.
Qed.

(** Freeing pages of a pool: the run up to the assertion. *)
Lemma palloc_free_multiple_run u i cnt s :
  kernel_ok s → 0 ≤ i → 0 < cnt → i + cnt ≤ bit_cnt (used_map (get_pool u s)) →
  let s1 := set_mem (fill_pages (Z.to_nat cnt) (pg_no (pool_page (get_pool u s) i)) 0xcccccccc (mem s)) s in
  ∃ all, (all = true ↔ all_bits (used_map (get_pool u s)) i cnt true) ∧
    palloc_free_multiple (pool_page (get_pool u s) i) cnt s =
    (ASSERT all ;; on_used_map u (bitmap_set_multiple i cnt false)) s1.
Proof.
  intros Hs Hi Hc Hn s1. pose proof (kok_pool _ Hs u) as Hp. pose proof (kok_ram _ Hs).
  pose proof (pool_cnt _ _ Hp ltac:(lia)). pose proof (pool_page_no _ _ i Hp) as [En Ha].
  destruct (pool_page_kernel _ _ i Hp) as [[Hr _] _]; [lia|lia|].
  destruct (find_pool s u i Hs ltac:(lia)) as [Hk Hu].
  assert (Hall : wp (bitmap_all i cnt)
    (λ r b, (r = true ↔ all_bits (used_map (get_pool u s)) i cnt true) ∧ b = used_map (get_pool u s))
    (used_map (get_pool u s))).
  { unfold bitmap_all. wp_step. apply wp_bitmap_contains; [apply Hp|lia..|]. intros r Hr'.
    wp_step. split; [|done]. rewrite <-Hr'. by destruct r. }
  apply wp_Ok in Hall as (all & b & Eall & Hall & ->). exists all. split; [done|].
  assert (Hms : memset_pages (pool_page (get_pool u s) i) 0xcc cnt s = Ok (tt, s1)).
  { assert (Hw : wp (memset_pages (pool_page (get_pool u s) i) 0xcc cnt) (λ _ s', s' = s1) s)
      by (apply wp_memset_pages; [done|lia..|done]).
    by apply wp_Ok in Hw as ([] & s' & E & ->). }
  assert (Hpool : (if page_from_pool (kernel_pool s) (pool_page (get_pool u s) i) then mret false
       else if page_from_pool (user_pool s) (pool_page (get_pool u s) i) then mret true else PANIC) s
       = Ok (u, s)).
  { rewrite Hk. destruct u; [by rewrite Hu|done]. }
  assert (Eidx : wrap32 (pg_no (pool_page (get_pool u s) i) - pg_no (base (get_pool u s))) = i).
  { rewrite En, wrap32_small by lia. lia. }
  assert (Eb : on_used_map u (bitmap_all i cnt) s1 = Ok (all, s1)).
  { unfold on_used_map. replace (get_pool u s1) with (get_pool u s) by (by destruct u).
    rewrite Eall. do 2 f_equal. replace (get_pool u s) with (get_pool u s1) by (by destruct u).
    apply set_pool_id. }
  unfold palloc_free_multiple, mbind, M_bind, gets, id. rewrite pg_ofs_mod, Ha.
  cbn [ASSERT Z.eqb]. rewrite (proj2 (Z.eqb_neq _ 0)) by (rewrite PHYS_BASE_eq in *; lia).
  rewrite (proj2 (Z.eqb_neq cnt 0)) by lia. cbn [orb].
  rewrite Hpool. cbv zeta. rewrite Eidx, Hms, Eb. done.
Qed.

Lemma wp_palloc_free_multiple u i cnt s :
  kernel_ok s → 0 ≤ i → 0 < cnt → i + cnt ≤ bit_cnt (used_map (get_pool u s)) →
  all_bits (used_map (get_pool u s)) i cnt true →
  wp (palloc_free_multiple (pool_page (get_pool u s) i) cnt) (λ _ s', released u i cnt s s') s.
Proof.
  intros Hs Hi Hc Hn Hused.
  destruct (palloc_free_multiple_run u i cnt s Hs Hi Hc Hn) as (all & Hall & E).
  apply Hall in Hused as ->. unfold wp. rewrite E.
  match goal with |- match ?m ?s1 with _ => _ end => change (wp m (λ _ s', released u i cnt s s') s1) end.
  repeat wp_step; [done|]. apply wp_on_used_map.
  match goal with |- context [get_pool u (set_mem ?m s)] =>
    replace (get_pool u (set_mem m s)) with (get_pool u s) by (by destruct u) end.
  eapply wp_mono; [apply wp_bitmap_set_multiple; [apply (kok_pool _ Hs u)|lia..]|].
  intros [] b (Hwf & Hsz & Hb). exists b. split; [done|]. split; [done|]. split; [done|].
  by destruct u.
Qed.

(** ** Initialization *)

Lemma read_pages_words n p m :
  (∀ q, p ≤ q < p + Z.of_nat n → ∃ page, m !! q = Some page ∧ length page = page_words ∧
     Forall (λ w, 0 ≤ w < 2 ^ 32) page) →
  ∃ ws, read_pages n p m = Some ws ∧ length ws = (n * page_words)%nat ∧
    Forall (λ w, 0 ≤ w < 2 ^ 32) ws.
Proof.
  revert p. induction n as [|n IH]; intros p H; cbn [read_pages]; [by exists []|].
  destruct (H p) as (page & -> & Hlen & Hw); [lia|].
  destruct (IH (p + 1)) as (ws & -> & Hlen' & Hw'). { intros q Hq. apply H. lia. }
  exists (page ++ ws). split; [done|]. rewrite length_app, Hlen, Hlen'. split; [lia|].
  by apply Forall_app.
Qed.

(** The number of pages that the bitmap of a pool takes. *)
Definition bitmap_pages (cnt : Z) : Z := (8 + 4 * ((cnt + 31) / 32) + 4095) / 4096.

Lemma bitmap_pages_eq cnt : 0 ≤ cnt < 2 ^ 18 →
  DIV_ROUND_UP (bitmap_buf_size cnt) PGSIZE = bitmap_pages cnt.
Proof.
  intros Hc. unfold bitmap_buf_size, byte_cnt, elem_cnt, DIV_ROUND_UP, bitmap_pages.
  change ELEM_BITS with 32. change sizeof_elem_type with 4. change PGSIZE with 4096.
  assert (0 ≤ (cnt + 31) / 32 < 2 ^ 14) by div_lia.
  rewrite !(wrap32_small (cnt + 32 - 1)) by lia.
  replace (cnt + 32 - 1) with (cnt + 31) by lia.
  rewrite (wrap32_small (4 * _)) by lia. rewrite (wrap32_small (8 + _)) by lia.
  rewrite wrap32_small by lia. f_equal. lia.
Qed.

Lemma bitmap_pages_bounds cnt : 1 ≤ cnt < 2 ^ 18 → 1 ≤ bitmap_pages cnt ≤ cnt.
Proof. intros. unfold bitmap_pages. div_lia. Qed.

(** All the memory there is, and every word of it a 32-bit word. *)
Definition ram_ok (s : kernel) : Prop :=
  ∀ p, 0 ≤ p - pg_no PHYS_BASE < init_ram_pages s →
  ∃ page, mem s !! p = Some page ∧ length page = page_words ∧ Forall (λ w, 0 ≤ w < 2 ^ 32) page.

Lemma wp_init_pool u a cnt s :
  ram_ok s → init_ram_pages s < 2 ^ 18 → 1 ≤ cnt → kernel_page a →
  a + PGSIZE * cnt ≤ PHYS_BASE + PGSIZE * init_ram_pages s →
  wp (init_pool u a cnt) (λ _ s', ∃ p, s' = set_pool u p s ∧ pool_ok (init_ram_pages s) p ∧
    bit_cnt (used_map p) = cnt - bitmap_pages cnt ∧ base p = a + PGSIZE * bitmap_pages cnt ∧
    ∀ i, 0 ≤ i < bit_cnt (used_map p) → bit (used_map p) i = false) s.
Proof.
  intros Hram Hr Hc [Ha Hal] He. change PGSIZE with 4096 in He. unfold aligned in Hal.
  assert (Hcnt : cnt < 2 ^ 18) by (rewrite PHYS_BASE_eq in *; lia).
  pose proof (bitmap_pages_bounds cnt ltac:(lia)) as Hb. set (k := bitmap_pages cnt) in *.
  unfold init_pool, wp. rewrite bitmap_pages_eq by lia. cbv zeta. fold k.
  rewrite (proj2 (Z.ltb_ge cnt k)) by lia.
  destruct (read_pages_words (Z.to_nat k) (pg_no a) (mem s)) as (ws & -> & Hlen & Hws).
  { intros q Hq. apply Hram. rewrite pg_no_div in *. rewrite PHYS_BASE_eq in *. div_lia. }
  assert (Hsize : bitmap_buf_size (cnt - k) ≤ k * 4096 ∧
    cnt - k ≤ 32 * Z.of_nat (length (drop 2 ws))).
  { unfold bitmap_buf_size, byte_cnt, elem_cnt, DIV_ROUND_UP. change ELEM_BITS with 32.
    change sizeof_elem_type with 4. rewrite length_drop, Hlen. unfold page_words.
    rewrite (wrap32_small (cnt - k + 32 - 1)) by lia.
    assert (0 ≤ (cnt - k + 32 - 1) / 32 < 2 ^ 14) by div_lia.
    rewrite !wrap32_small by (rewrite ?wrap32_small; lia).
    unfold k, bitmap_pages in *. clearbody k. split; div_lia. }
  unfold bitmap_create_in_buf. change PGSIZE with 4096.
  rewrite (wrap32_small (k * 4096)) by lia. rewrite (proj2 (Z.leb_le _ _)) by lia.
  assert (Hwf : wf (mk_bitmap (cnt - k) (drop 2 ws))).
  { split; cbn [bit_cnt bits]; [lia|unfold ELEM_BITS; lia|by apply Forall_drop]. }
  pose proof (wp_bitmap_set_all _ false Hwf) as Hset.
  apply wp_Ok in Hset as ([] & b & E & Hwf' & [Hsz _] & Hbits). unfold mbind, result_bind. rewrite E.
  cbn. eexists. split; [done|]. cbn in Hsz, Hbits |- *. rewrite PHYS_BASE_eq in *.
  rewrite Hsz, wrap32_small by lia. split; [|split; [lia|split; [lia|]]].
  - split; cbn; [done| |rewrite Hsz; change PGSIZE with 4096; rewrite PHYS_BASE_eq; lia].
    rewrite PHYS_BASE_eq. unfold aligned. split; [lia|div_lia].
  - intros i Hi. apply Hbits. lia.
Qed.

Lemma kernel_page_ptov a : 0 ≤ a < 2 ^ 30 → aligned a → kernel_page (a + PHYS_BASE).
Proof. intros Ha Hal. unfold kernel_page, aligned in *. rewrite PHYS_BASE_eq. split; [lia|div_lia]. Qed.

(** [palloc_init], on a machine with more than 257 pages of memory (and
    less than 1 GB) and a limit of at least one user page, sets up two
    disjoint pools inside memory, in which every page is free; the user pool
    and its bitmap take half of the memory above 1 MB, at most the limit, and
    the kernel pool and its bitmap the rest. *)
Theorem palloc_init_correct limit s :
  258 ≤ init_ram_pages s < 2 ^ 18 → 1 ≤ limit → ram_ok s →
  let free := init_ram_pages s - 256 in
  let user := Z.min limit (free / 2) in
  ∃ s', palloc_init limit s = Ok (tt, s') ∧ kernel_ok s' ∧ mem s' = mem s ∧
    bit_cnt (used_map (user_pool s')) = user - bitmap_pages user ∧
    bit_cnt (used_map (kernel_pool s')) = free - user - bitmap_pages (free - user) ∧
    ∀ u i, 0 ≤ i < bit_cnt (used_map (get_pool u s')) → bit (used_map (get_pool u s')) i = false.
Proof.
  intros Hr Hl Hram free user. set (ram := init_ram_pages s) in *.
  assert (Ef : free = ram - 256) by done. assert (Eu : user = Z.min limit (free / 2)) by done.
  clearbody free user.
  assert (Huser : 1 ≤ user ∧ 1 ≤ free - user) by div_lia.
  pose (k0 := 1024 * 1024 + PHYS_BASE). pose (u0 := k0 + (free - user) * 4096).
  assert (Hpg : kernel_page k0 ∧ kernel_page u0).
  { unfold u0, k0, kernel_page, aligned. rewrite PHYS_BASE_eq. split; (split; [lia|div_lia]). }
  enough (Hwp : wp (palloc_init limit) (λ _ s', kernel_ok s' ∧ mem s' = mem s ∧
    bit_cnt (used_map (user_pool s')) = user - bitmap_pages user ∧
    bit_cnt (used_map (kernel_pool s')) = free - user - bitmap_pages (free - user) ∧
    ∀ u i, 0 ≤ i < bit_cnt (used_map (get_pool u s')) → bit (used_map (get_pool u s')) i = false) s).
  { apply wp_Ok in Hwp as ([] & s' & E & H). by exists s'. }
  unfold palloc_init. wp_step. apply wp_ptov; [lia|]. fold k0. repeat wp_step. fold ram.
  change PGSIZE with 4096. rewrite wrap32_small by lia. apply wp_ptov; [lia|].
  replace (ram * 4096 + PHYS_BASE - k0) with (free * 4096) by (unfold k0; lia).
  rewrite Z.quot_mul by lia. rewrite (wrap32_small free) by lia. cbv zeta.
  replace (if limit <? free / 2 then limit else free / 2) with user
    by (destruct (Z.ltb_spec limit (free / 2)); lia).
  wp_step. eapply wp_mono.
  { apply wp_init_pool; [done|fold ram; lia|lia|apply Hpg|].
    fold ram. unfold k0. change PGSIZE with 4096. lia. }
  intros [] s1 (pk & -> & Hpk & Ck & Bk & Zk).
  replace (wrap32 _) with u0 by (rewrite wrap32_small; [done|];
    unfold k0; rewrite PHYS_BASE_eq; lia).
  eapply wp_mono.
  { apply wp_init_pool; [done|cbn; fold ram; lia|lia|apply Hpg|].
    cbn. fold ram. unfold u0, k0. change PGSIZE with 4096. lia. }
  intros [] s2 (pu & -> & Hpu & Cu & Bu & Zu). cbn in Hpu. fold ram in Hpu. fold ram in Hpk.
  split; [|split; [done|split; [done|split; [done|intros [] i; [apply Zu|apply Zk]]]]].
  split; cbn; fold ram; [lia| |intros []; done|].
  - intros p Hp. destruct (Hram p Hp) as (page & ? & ? & _). by exists page.
  - rewrite Bk, Bu, Ck. unfold u0. change PGSIZE with 4096.
    pose proof (bitmap_pages_bounds user ltac:(lia)). lia.
Qed.

(** C28: [palloc_get_multiple] in a state that satisfies the allocator's
    invariant: if the pool has [cnt] free pages in a row, it returns the
    address of the first such run, a page-aligned kernel address inside the
    pool, marks exactly these pages used, zeroes them when asked to, and
    changes no other page and nothing of the other pool; otherwise it returns
    a null pointer and changes nothing, or panics if the caller said so.  The
    invariant is kept. *)
Theorem palloc_get_multiple_correct flags cnt s :
  kernel_ok s → 0 < cnt →
  let u := flag flags PAL_USER in
  let p := get_pool u s in
  (∃ i s', first_group (used_map p) 0 cnt false i ∧
     palloc_get_multiple flags cnt s = Ok (pool_page p i, s') ∧
     pool_page p i mod PGSIZE = 0 ∧ pool_page p i ≠ NULL ∧
     kernel_ok s' ∧ get_pool (negb u) s' = get_pool (negb u) s ∧
     (∀ j, 0 ≤ j → bit (used_map (get_pool u s')) j =
        if decide (i ≤ j < i + cnt) then true else bit (used_map p) j) ∧
     (∀ q, mem s' !! q =
        if decide (flag flags PAL_ZERO = true ∧ pg_no (pool_page p i) ≤ q < pg_no (pool_page p i) + cnt)
        then Some (replicate page_words 0) else mem s !! q)) ∨
  (no_group (used_map p) 0 cnt false ∧
   palloc_get_multiple flags cnt s = if flag flags PAL_ASSERT then Err Panicked else Ok (NULL, s)).
Proof.
  intros Hs Hc u p. pose proof (kok_pool _ Hs u) as Hp. pose proof (kok_ram _ Hs).
  pose proof (pool_cnt _ _ Hp ltac:(lia)).
  assert (Hscan : wp (bitmap_scan_and_flip 0 cnt false) (flip_result (used_map p) 0 cnt false) (used_map p)).
  { apply wp_bitmap_scan_and_flip; [apply Hp|unfold p; lia|lia|unfold p, BITMAP_ERROR; lia]. }
  apply wp_Ok in Hscan as (r & b & E & _ & _ & [(-> & Hno & ->)|(_ & Hg & _)]); [right|left].
  - split; [done|]. unfold palloc_get_multiple. fold u. cbv zeta.
    rewrite (proj2 (Z.eqb_neq cnt 0)) by lia.
    unfold mbind at 1, M_bind at 1, on_used_map. fold p. rewrite E. unfold p. rewrite set_pool_id.
    unfold mbind, M_bind, gets. cbn [Z.eqb]. by destruct (flag flags PAL_ASSERT).
  - assert (Hwp : wp (palloc_get_multiple flags cnt)
      (λ a s', a = pool_page p r ∧ allocated u (flag flags PAL_ZERO) r cnt s s') s).
    { apply wp_palloc_get_multiple; [done|lia|]. fold u. fold p. split.
      - intros Hno. exfalso. destruct Hg as (? & ? & Hall & _). apply (Hno r); [lia|done|done].
      - intros i s' Hi Hal. destruct Hg as (? & ? & Hall & Hf). destruct Hi as (? & ? & Hall' & Hf').
        assert (i = r) as ->; [|done].
        destruct (Z.lt_trichotomy i r) as [|[|]]; [|done|]; exfalso;
          [apply (Hf i)|apply (Hf' r)]; done || lia. }
    apply wp_Ok in Hwp as (a & s' & Erun & -> & Hal). exists r, s'. split; [done|]. split; [done|].
    pose proof (pool_page_no _ _ r Hp) as [_ Hali]. split; [done|].
    split; [by apply (kernel_ok_group u r cnt s)|]. split; [by eapply allocated_ok|].
    destruct Hal as (b' & Hwf & Hsz & Hb & ->).
    split; [by destruct u|]. split; [by destruct u|].
    intros q. fold p. cbn [mem set_mem set_pool]. destruct (flag flags PAL_ZERO).
    + rewrite lookup_fill_pages, Z2Nat.id by lia. apply decide_ext. naive_solver.
    + rewrite decide_False by naive_solver. done.
Qed.

(** [palloc_free_multiple] of pages of a pool that are all in use marks
    exactly these pages free, fills them with 0xcc, and changes no other page;
    if one of them is free already, as in a double free, the assertion fails.
    In particular it undoes [palloc_get_multiple] and pages can be freed one
    by one. *)
Theorem palloc_free_multiple_correct u i cnt s :
  kernel_ok s → 0 ≤ i → 0 < cnt → i + cnt ≤ bit_cnt (used_map (get_pool u s)) →
  let p := get_pool u s in
  (all_bits (used_map p) i cnt true →
   ∃ s', palloc_free_multiple (pool_page p i) cnt s = Ok (tt, s') ∧ kernel_ok s' ∧
     get_pool (negb u) s' = get_pool (negb u) s ∧
     (∀ j, 0 ≤ j → bit (used_map (get_pool u s')) j =
        if decide (i ≤ j < i + cnt) then false else bit (used_map p) j) ∧
     (∀ q, ¬ (pg_no (pool_page p i) ≤ q < pg_no (pool_page p i) + cnt) → mem s' !! q = mem s !! q) ∧
     palloc_free_multiple (pool_page p i) cnt s' = Err AssertFailed) ∧
  (¬ all_bits (used_map p) i cnt true →
   palloc_free_multiple (pool_page p i) cnt s = Err AssertFailed).
Proof.
  intros Hs Hi Hc Hn p.
  assert (Hfail : ∀ s, kernel_ok s → i + cnt ≤ bit_cnt (used_map (get_pool u s)) →
    ¬ all_bits (used_map (get_pool u s)) i cnt true →
    palloc_free_multiple (pool_page (get_pool u s) i) cnt s = Err AssertFailed).
  { intros s0 Hs0 Hn0 Hfree.
    destruct (palloc_free_multiple_run u i cnt s0 Hs0 Hi Hc Hn0) as ([] & Hall & ->); [|done].
    by destruct Hfree; apply Hall. }
  split; [|by apply Hfail]. intros Hused.
  pose proof (wp_palloc_free_multiple u i cnt s Hs Hi Hc Hn Hused) as Hwp.
  apply wp_Ok in Hwp as ([] & s' & E & Hrel). exists s'. split; [done|].
  pose proof (released_ok _ _ _ _ _ Hs Hrel) as Hs'. split; [done|].
  destruct Hrel as (b & Hwf & [Hsz _] & Hb & ->). split; [by destruct u|]. split; [by destruct u|].
  split.
  - intros q Hq. cbn [mem set_mem set_pool]. rewrite lookup_fill_pages, Z2Nat.id by lia.
    by rewrite decide_False.
  - set (s' := set_mem _ _) in *.
    assert (Eu : get_pool u s' = mk_pool b (base p)) by (by destruct u).
    replace (pool_page p i) with (pool_page (get_pool u s') i) by (by rewrite Eu).
    apply Hfail; [done|rewrite Eu; cbn [used_map]; lia|]. rewrite Eu. cbn [used_map].
    intros Hall. specialize (Hall i ltac:(lia)). rewrite Hb, decide_True in Hall by lia. done.
Qed.

(** A machine of 300 pages: a kernel pool of 40 pages, of which the first
    three are in use, and a user pool of two pages. *)
Definition example_kernel : kernel :=
  mk_kernel (fill_pages 300 (pg_no PHYS_BASE) 0 ∅)
    (mk_pool (mk_bitmap 40 [7; 0]) 0xc0101000) (mk_pool (mk_bitmap 2 [0]) 0xc012a000)
    300 0xc0101000 0 0xc0102000 0.

Lemma example_kernel_mem p : 0 ≤ p - pg_no PHYS_BASE < 300 →
  mem example_kernel !! p = Some (replicate page_words 0).
Proof. intros Hp. cbn [mem example_kernel]. rewrite lookup_fill_pages. by rewrite decide_True by lia. Qed.

Lemma example_kernel_ok : kernel_ok example_kernel.
Proof.
  split; [cbn; lia| | |by vm_compute].
  - intros p Hp. rewrite example_kernel_mem by done. eexists. split; [done|]. apply length_replicate.
  - intros u. split; [|by destruct u; vm_compute|by destruct u; vm_compute].
    destruct u; (split; [vm_compute; split; done|by vm_compute|]);
      repeat (apply Forall_cons_2; [lia|]); apply Forall_nil_2.
Qed.

Lemma palloc_init_correct_witness :
  ∃ s', palloc_init 100 example_kernel = Ok (tt, s') ∧ kernel_ok s' ∧
    bit_cnt (used_map (user_pool s')) = 21.
Proof.
  destruct (palloc_init_correct 100 example_kernel) as (s' & E & Hok & _ & Hu & _); [cbn; lia|lia| |].
  - intros p Hp. rewrite example_kernel_mem by done. eexists. split; [done|].
    split; [apply length_replicate|]. apply Forall_replicate. lia.
  - exists s'. split; [done|]. split; [done|]. rewrite Hu. reflexivity.
Defined.

Lemma palloc_get_multiple_correct_witness :
  ∃ s', palloc_get_multiple PAL_ZERO 2 example_kernel = Ok (0xc0104000, s') ∧ kernel_ok s'.
Proof.
  destruct (palloc_get_multiple_correct PAL_ZERO 2 example_kernel example_kernel_ok ltac:(lia))
    as [(i & s' & Hg & E & _ & _ & Hok & _)|[Hno _]].
  - exists s'. assert (i = 3) as ->; [|split; [exact E|exact Hok]].
    destruct Hg as (? & ? & Hall & Hfirst). destruct (Z.lt_trichotomy i 3) as [|[|]]; [|done|].
    + specialize (Hall i ltac:(lia)). assert (i = 0 ∨ i = 1 ∨ i = 2) as [->|[->| ->]] by lia; done.
    + destruct (Hfirst 3); [lia|]. intros j Hj. assert (j = 3 ∨ j = 4) as [->| ->] by lia; done.
  - destruct (Hno 3); [lia|by vm_compute|]. intros j Hj. assert (j = 3 ∨ j = 4) as [->| ->] by lia; done.
Defined.

Lemma palloc_free_multiple_correct_witness :
  (∃ s', palloc_free_page 0xc0103000 example_kernel = Ok (tt, s') ∧
     palloc_free_page 0xc0103000 s' = Err AssertFailed) ∧
  palloc_free_page 0xc0104000 example_kernel = Err AssertFailed.
Proof.
  split.
  - destruct (palloc_free_multiple_correct false 2 1 example_kernel example_kernel_ok) as [H _]; [lia..|cbn; lia|].
    destruct H as (s' & E & _ & _ & _ & _ & E'); [|exists s'; split; [exact E|exact E']].
    intros j Hj. assert (j = 2) as -> by lia. reflexivity.
  - destruct (palloc_free_multiple_correct false 3 1 example_kernel example_kernel_ok) as [_ H]; [lia..|cbn; lia|].
    apply H. intros Hall. specialize (Hall 3 ltac:(lia)). discriminate Hall.
Defined.
