(* ===== verification/Pagedir.v ===== *)
(** * Page directories ([userprog/pagedir.c])

    A page directory is a page of 1024 words whose entries point to page
    tables, pages of 1024 entries.  The operations run on the memory of the
    page allocator; the abstract view of a page directory is the partial map
    [translate] from user pages to kernel pages.  The translation lookaside
    buffer is not modelled: [invalidate_pagedir] stores CR3 again. *)
From S2P Require Import Prelude Bitmap Vaddr Palloc.

Definition set_cr3 (a : Z) (s : kernel) : kernel :=
  mk_kernel (mem s) (kernel_pool s) (user_pool s) (init_ram_pages s) (init_page_dir s) a
    (pagedir s) (segbreak s).

(** [memcpy (dst, src, PGSIZE)] of a page. *)
Definition copy_page (dst src : Z) : M kernel unit := λ s,
  match mem s !! pg_no src, mem s !! pg_no dst with
  | Some page, Some _ => Ok (tt, set_mem (<[pg_no dst := page]> (mem s)) s)
  | _, _ => Err BadAccess
  end.

Definition pagedir_create : M kernel Z :=
  pd ← palloc_get_page 0;
  ipd ← gets init_page_dir;
  when (negb (pd =? NULL)) (copy_page pd ipd) ;;
  mret pd.

(** The loop over the entries of one page table. *)
Definition free_table (pt : Z) : M kernel unit :=
  for_loop (Z.to_nat (PGSIZE / 4)) 0 (λ j,
    pte ← load (wrap32 (pt + 4 * j));
    when (negb (Z.land pte PTE_P =? 0)) (page ← pte_get_page pte; palloc_free_page page)).

Definition pagedir_destroy (pd : Z) : M kernel unit :=
  if pd =? NULL then mret tt else
  ipd ← gets init_page_dir;
  ASSERT (negb (pd =? ipd)) ;;
  for_loop (Z.to_nat (pd_no PHYS_BASE)) 0 (λ i,
    pde ← load (wrap32 (pd + 4 * i));
    when (negb (Z.land pde PTE_P =? 0))
      (pt ← pde_get_pt pde; free_table pt ;; palloc_free_page pt)) ;;
  palloc_free_page pd.

(** The address of the entry for [vaddr], or a null pointer. *)
Definition lookup_page (pd vaddr : Z) (create : bool) : M kernel Z :=
  ASSERT (negb (pd =? NULL)) ;;
  ASSERT (negb create || is_user_vaddr vaddr) ;;
  let pde := wrap32 (pd + 4 * pd_no vaddr) in
  let entry := (w ← load pde; pt ← pde_get_pt w; mret (wrap32 (pt + 4 * pt_no vaddr))) in
  w ← load pde;
  if w =? 0 then
    if create then
      pt ← palloc_get_page PAL_ZERO;
      if pt =? NULL then mret NULL else
      e ← pde_create pt;
      store pde e ;; entry
    else mret NULL
  else entry.

Definition pagedir_activate (pd : Z) : M kernel unit :=
  ipd ← gets init_page_dir;
  p ← vtop (if pd =? NULL then ipd else pd);
  modify (set_cr3 p).

Definition active_pd : M kernel Z := p ← gets cr3; ptov p.

Definition invalidate_pagedir (pd : Z) : M kernel unit :=
  a ← active_pd; when (a =? pd) (pagedir_activate pd).

Definition pagedir_set_page (pd upage kpage : Z) (writable : bool) : M kernel bool :=
  ASSERT (pg_ofs upage =? 0) ;;
  ASSERT (pg_ofs kpage =? 0) ;;
  ASSERT (is_user_vaddr upage) ;;
  p ← vtop kpage;
  s ← gets id;
  ASSERT (Z.shiftr p PTSHIFT <? init_ram_pages s) ;;
  ASSERT (negb (pd =? init_page_dir s)) ;;
  pte ← lookup_page pd upage true;
  if pte =? NULL then mret false else
  w ← load pte;
  ASSERT (Z.land w PTE_P =? 0) ;;
  e ← pte_create_user kpage writable;
  store pte e ;; mret true.

Definition pagedir_get_page (pd uaddr : Z) : M kernel Z :=
  ASSERT (is_user_vaddr uaddr) ;;
  pte ← lookup_page pd uaddr false;
  if pte =? NULL then mret NULL else
  w ← load pte;
  if Z.land w PTE_P =? 0 then mret NULL else
  page ← pte_get_page w; mret (wrap32 (page + pg_ofs uaddr)).

Definition pagedir_clear_page (pd upage : Z) : M kernel unit :=
  ASSERT (pg_ofs upage =? 0) ;;
  ASSERT (is_user_vaddr upage) ;;
  pte ← lookup_page pd upage false;
  if pte =? NULL then mret tt else
  w ← load pte;
  if Z.land w PTE_P =? 0 then mret tt else
  store pte (Z.land w (wrap32 (Z.lnot PTE_P))) ;; invalidate_pagedir pd.

(** Testing and setting one flag of an entry. *)
Definition test_flag (f pd vpage : Z) : M kernel bool :=
  pte ← lookup_page pd vpage false;
  if pte =? NULL then mret false else
  w ← load pte; mret (negb (Z.land w f =? 0)).

Definition set_flag (f pd vpage : Z) (v : bool) : M kernel unit :=
  pte ← lookup_page pd vpage false;
  if pte =? NULL then mret tt else
  w ← load pte;
  if v then store pte (Z.lor w f)
  else store pte (Z.land w (wrap32 (Z.lnot f))) ;; invalidate_pagedir pd.

Definition pagedir_is_dirty (pd vpage : Z) : M kernel bool := test_flag PTE_D pd vpage.
Definition pagedir_set_dirty (pd vpage : Z) (dirty : bool) : M kernel unit :=
  set_flag PTE_D pd vpage dirty.
Definition pagedir_is_accessed (pd vpage : Z) : M kernel bool := test_flag PTE_A pd vpage.
Definition pagedir_set_accessed (pd vpage : Z) (accessed : bool) : M kernel unit :=
  set_flag PTE_A pd vpage accessed.

(** ** The map a page directory stands for *)

Definition word (s : kernel) (a : Z) : Z :=
  default 0 (mem s !! pg_no a ≫= λ page : list Z, page !! Z.to_nat (pg_ofs a / 4)).

Definition pde_at (s : kernel) (pd i : Z) : Z := word s (pd + 4 * i).
Definition pt_at (s : kernel) (pd i : Z) : Z := Z.land (pde_at s pd i) PTE_ADDR + PHYS_BASE.

(** The entry of a user address; 0 where there is no page table. *)
Definition pte_of (s : kernel) (pd va : Z) : Z :=
  if pde_at s pd (pd_no va) =? 0 then 0
  else word s (pt_at s pd (pd_no va) + 4 * pt_no va).

Definition translate (s : kernel) (pd va : Z) : option Z :=
  let pte := pte_of s pd va in
  if Z.land pte PTE_P =? 0 then None else Some (Z.land pte PTE_ADDR + PHYS_BASE).

(** ** The invariant *)

Definition user_addr (va : Z) : Prop := 0 ≤ va < PHYS_BASE.

(** A page of the kernel pool that is in use. *)
Definition used_page (s : kernel) (p : Z) : Prop :=
  ∃ i, 0 ≤ i < bit_cnt (used_map (kernel_pool s)) ∧ p = pool_page (kernel_pool s) i ∧
    bit (used_map (kernel_pool s)) i = true.

Record pagedir_ok (s : kernel) (pd : Z) : Prop := {
  pdo_kernel : kernel_ok s;
  pdo_pd : used_page s pd;
  pdo_init : pd ≠ init_page_dir s;
  pdo_cr3 : 0 ≤ cr3 s < 2 ^ 30;
  pdo_pde i : 0 ≤ i < 768 → pde_at s pd i ≠ 0 →
    0 ≤ pde_at s pd i < 2 ^ 30 ∧ Z.land (pde_at s pd i) PTE_P ≠ 0 ∧
    used_page s (pt_at s pd i) ∧ pt_at s pd i ≠ pd;
  pdo_inj i j : 0 ≤ i < 768 → 0 ≤ j < 768 → pde_at s pd i ≠ 0 → pde_at s pd j ≠ 0 →
    pt_at s pd i = pt_at s pd j → i = j;
  pdo_pte va : user_addr va → 0 ≤ pte_of s pd va < 2 ^ 30
}.

(** ** Words of memory *)

Definition ram_page (s : kernel) (p : Z) : Prop :=
  kernel_page p ∧ 0 ≤ pg_no p - pg_no PHYS_BASE < init_ram_pages s.

Definition set_word (a w : Z) (s : kernel) : kernel :=
  set_mem (alter (λ page : list Z, <[Z.to_nat (pg_ofs a / 4) := w]> page) (pg_no a) (mem s)) s.

Lemma word_addr p k : aligned p → 0 ≤ k < 1024 → pg_no (p + 4 * k) = pg_no p ∧ pg_ofs (p + 4 * k) / 4 = k.
Proof. unfold aligned. intros. rewrite pg_ofs_mod, !pg_no_div. split; div_lia. Qed.

Lemma page_eq p q : aligned p → aligned q → pg_no p = pg_no q → p = q.
Proof. unfold aligned. rewrite !pg_no_div. intros. div_lia. Qed.

Lemma ram_page_lookup s p : kernel_ok s → ram_page s p →
  ∃ page, mem s !! pg_no p = Some page ∧ length page = 1024%nat.
Proof. intros Hs [_ Hp]. apply (kok_mem _ Hs _ Hp). Qed.

Lemma load_ok s p k : kernel_ok s → ram_page s p → 0 ≤ k < 1024 →
  load (p + 4 * k) s = Ok (word s (p + 4 * k), s).
Proof.
  intros Hs Hp Hk. destruct (ram_page_lookup s p Hs Hp) as (page & Hl & Hlen).
  destruct Hp as [[_ Ha] _]. destruct (word_addr p k Ha Hk) as [En Ek].
  unfold load, word. rewrite En, Ek, Hl. cbn.
  destruct (lookup_lt_is_Some_2 page (Z.to_nat k)) as [w ->]; [lia|done].
Qed.

Lemma store_ok s p k w : kernel_ok s → ram_page s p → 0 ≤ k < 1024 →
  store (p + 4 * k) w s = Ok (tt, set_word (p + 4 * k) w s).
Proof.
  intros Hs Hp Hk. destruct (ram_page_lookup s p Hs Hp) as (page & Hl & Hlen).
  destruct Hp as [[_ Ha] _]. destruct (word_addr p k Ha Hk) as [En Ek].
  unfold store, set_word. rewrite En, Ek, Hl. do 2 f_equal. unfold set_mem. f_equal.
  apply map_eq. intros q. destruct (decide (pg_no p = q)) as [<-|].
  - by rewrite lookup_insert_eq, lookup_alter_eq, Hl.
  - by rewrite lookup_insert_ne, lookup_alter_ne.
Qed.

Lemma word_set_word s p k w q m : kernel_ok s → ram_page s p → aligned q →
  0 ≤ k < 1024 → 0 ≤ m < 1024 →
  word (set_word (p + 4 * k) w s) (q + 4 * m) =
  if decide (p = q ∧ k = m) then w else word s (q + 4 * m).
Proof.
  intros Hs Hp Haq Hk Hm. destruct (ram_page_lookup s p Hs Hp) as (page & Hl & Hlen).
  destruct Hp as [[_ Ha] _]. destruct (word_addr p k Ha Hk) as [En Ek].
  destruct (word_addr q m Haq Hm) as [En' Ek'].
  unfold word, set_word. rewrite En, Ek, En', Ek'. cbn [mem set_mem].
  destruct (decide (p = q)) as [<-|Hne].
  - rewrite lookup_alter_eq, Hl. cbn. destruct (decide (k = m)) as [<-|Hkm].
    + rewrite decide_True by done. by rewrite list_lookup_insert_eq by lia.
    + rewrite decide_False by naive_solver. by rewrite list_lookup_insert_ne by lia.
  - rewrite decide_False by naive_solver. rewrite lookup_alter_ne; [done|].
    intros E. apply Hne. by apply page_eq.
Qed.

Lemma kernel_ok_set_word a w s : kernel_ok s → kernel_ok (set_word a w s).
Proof.
  intros Hs. apply kernel_ok_set_mem; [done|]. intros p page Hp Hlen.
  destruct (decide (pg_no a = p)) as [<-|].
  - exists (<[Z.to_nat (pg_ofs a / 4) := w]> page). rewrite lookup_alter_eq, Hp.
    split; [done|]. by rewrite length_insert.
  - exists page. by rewrite lookup_alter_ne.
Qed.

Lemma used_page_ram s p : kernel_ok s → used_page s p → ram_page s p.
Proof.
  intros Hs (i & Hi & -> & _). pose proof (kok_ram _ Hs).
  apply (pool_page_kernel _ _ i (kok_pool _ Hs false)); [lia|done].
Qed.

Lemma used_page_nonnull s p : kernel_ok s → used_page s p → 0 < p ∧ aligned p.
Proof. intros Hs Hp. destruct (used_page_ram s p Hs Hp) as [[H ?] _]. rewrite PHYS_BASE_eq in H. split; [lia|done]. Qed.

Lemma wrap32_word p k : kernel_page p → 0 ≤ k < 1024 → wrap32 (p + 4 * k) = p + 4 * k.
Proof.
  intros [H Ha] Hk. unfold aligned in Ha. rewrite PHYS_BASE_eq in H. rewrite wrap32_small; [done|].
  div_lia.
Qed.

Lemma user_addr_pd va : user_addr va → 0 ≤ pd_no va < 768.
Proof. unfold user_addr. rewrite PHYS_BASE_eq, pd_no_div. intros. div_lia. Qed.

(** ** Reading the page directory *)

Lemma wp_load_word s p k (Q : Z → kernel → Prop) :
  kernel_ok s → ram_page s p → 0 ≤ k < 1024 → Q (word s (p + 4 * k)) s →
  wp (load (wrap32 (p + 4 * k))) Q s.
Proof.
  intros Hs Hp Hk HQ. unfold wp. rewrite wrap32_word by (done || apply Hp).
  by rewrite load_ok.
Qed.

Lemma wp_pde_get_pt_at s pd i (Q : Z → kernel → Prop) :
  pagedir_ok s pd → 0 ≤ i < 768 → pde_at s pd i ≠ 0 →
  Q (pt_at s pd i) s → wp (pde_get_pt (pde_at s pd i)) Q s.
Proof.
  intros Hok Hi Hne HQ. destruct (pdo_pde _ _ Hok i Hi Hne) as (Hr & Hp & _).
  unfold pde_get_pt. repeat wp_step; [by apply negb_true_iff, Z.eqb_neq|].
  apply wp_ptov; [|done]. unfold PTE_ADDR. rewrite land_high by lia. div_lia.
Qed.

(** The entry of an address once its page table exists. *)
Definition entry_addr_of (s : kernel) (pd va : Z) : Z := pt_at s pd (pd_no va) + 4 * pt_no va.

Lemma pte_of_entry s pd va :
  pde_at s pd (pd_no va) ≠ 0 → pte_of s pd va = word s (entry_addr_of s pd va).
Proof. intros H. unfold pte_of. by rewrite (proj2 (Z.eqb_neq _ 0) H). Qed.

Lemma pt_ram s pd va : pagedir_ok s pd → user_addr va → pde_at s pd (pd_no va) ≠ 0 →
  ram_page s (pt_at s pd (pd_no va)) ∧ 0 ≤ pt_no va < 1024.
Proof.
  intros Hok Hva Hne. destruct (pdo_pde _ _ Hok (pd_no va) (user_addr_pd va Hva) Hne) as (_ & _ & Hu & _).
  split; [|apply pt_no_range]. apply used_page_ram; [apply Hok|done].
Qed.

Lemma pd_ram s pd : pagedir_ok s pd → ram_page s pd.
Proof. intros Hok. apply used_page_ram; apply Hok. Qed.

Lemma entry_addr_nonnull s pd va : pagedir_ok s pd → user_addr va → pde_at s pd (pd_no va) ≠ 0 →
  0 < entry_addr_of s pd va < 2 ^ 32.
Proof.
  intros Hok Hva Hne. destruct (pt_ram s pd va Hok Hva Hne) as [[[H Ha] _] Hk].
  unfold entry_addr_of, aligned in *. rewrite PHYS_BASE_eq in H. div_lia.
Qed.

Lemma wp_entry s pd va (Q : Z → kernel → Prop) :
  pagedir_ok s pd → user_addr va → pde_at s pd (pd_no va) ≠ 0 → Q (entry_addr_of s pd va) s →
  wp (w ← load (wrap32 (pd + 4 * pd_no va)); pt ← pde_get_pt w; mret (wrap32 (pt + 4 * pt_no va))) Q s.
Proof.
  intros Hok Hva Hne HQ. pose proof (user_addr_pd va Hva). wp_step.
  apply wp_load_word; [apply Hok|by apply pd_ram|lia|]. fold (pde_at s pd (pd_no va)).
  wp_step. apply wp_pde_get_pt_at; [done|done|done|]. wp_step.
  destruct (pt_ram s pd va Hok Hva Hne) as [[Hk _] Hr]. rewrite wrap32_word by done. done.
Qed.

Lemma wp_lookup_page s pd va (Q : Z → kernel → Prop) :
  pagedir_ok s pd → user_addr va →
  (pde_at s pd (pd_no va) = 0 → Q NULL s) →
  (pde_at s pd (pd_no va) ≠ 0 → Q (entry_addr_of s pd va) s) →
  wp (lookup_page pd va false) Q s.
Proof.
  intros Hok Hva H0 H1. pose proof (user_addr_pd va Hva).
  destruct (used_page_nonnull s pd) as [? _]; [apply Hok|apply Hok|].
  unfold lookup_page. repeat wp_step; [apply negb_true_iff, Z.eqb_neq; lia|done|].
  apply wp_load_word; [apply Hok|by apply pd_ram|lia|]. fold (pde_at s pd (pd_no va)).
  destruct (Z.eqb_spec (pde_at s pd (pd_no va)) 0) as [E|E]; [wp_step; auto|].
  apply wp_entry; auto.
Qed.

(** An operation that works on the entry of an address, if it has one. *)
Lemma wp_with_entry {A} s pd va (none : A) (k : Z → Z → M kernel A) (Q : A → kernel → Prop) :
  pagedir_ok s pd → user_addr va →
  (pde_at s pd (pd_no va) = 0 → Q none s) →
  (pde_at s pd (pd_no va) ≠ 0 → wp (k (entry_addr_of s pd va) (pte_of s pd va)) Q s) →
  wp (lookup_page pd va false)
    (λ pte s', wp (if pte =? NULL then mret none else w ← load pte; k pte w) Q s') s.
Proof.
  intros Hok Hva H0 H1. apply wp_lookup_page; [done|done| |].
  - intros E. cbn [Z.eqb]. wp_step. auto.
  - intros Hne. pose proof (entry_addr_nonnull s pd va Hok Hva Hne).
    rewrite (proj2 (Z.eqb_neq _ 0)) by lia. wp_step. unfold wp at 1, entry_addr_of.
    destruct (pt_ram s pd va Hok Hva Hne). rewrite load_ok by (done || apply Hok).
    fold (entry_addr_of s pd va). rewrite <-pte_of_entry by done. auto.
Qed.

(** ** Writing an entry *)

Definition set_pte (s : kernel) (pd va w : Z) : kernel := set_word (entry_addr_of s pd va) w s.

Section set_pte.
Context (s : kernel) (pd va w : Z).
Context (Hok : pagedir_ok s pd) (Hva : user_addr va) (Hne : pde_at s pd (pd_no va) ≠ 0).

Lemma pde_at_set_pte i : 0 ≤ i < 768 → pde_at (set_pte s pd va w) pd i = pde_at s pd i.
Proof.
  intros Hi. unfold pde_at, set_pte, entry_addr_of. destruct (pt_ram s pd va Hok Hva Hne) as [Hr Hk].
  destruct (pd_ram s pd Hok) as [[_ Ha] _].
  rewrite word_set_word; [|apply Hok|done|done|done|lia].
  rewrite decide_False; [done|]. intros [E _].
  by apply (pdo_pde _ _ Hok (pd_no va) (user_addr_pd va Hva) Hne).
Qed.

Lemma pt_at_set_pte i : 0 ≤ i < 768 → pt_at (set_pte s pd va w) pd i = pt_at s pd i.
Proof. intros Hi. unfold pt_at. by rewrite pde_at_set_pte. Qed.

Lemma pte_of_set_pte va' : user_addr va' →
  pte_of (set_pte s pd va w) pd va' = if decide (pg_no va = pg_no va') then w else pte_of s pd va'.
Proof.
  intros Hva'. pose proof (user_addr_pd va' Hva') as Hi'. pose proof (user_addr_pd va Hva) as Hi.
  unfold pte_of. rewrite pde_at_set_pte, pt_at_set_pte by done.
  destruct (Z.eqb_spec (pde_at s pd (pd_no va')) 0) as [E|E].
  { rewrite decide_False; [done|]. intros [Ed _]%same_page. congruence. }
  destruct (pt_ram s pd va Hok Hva Hne) as [Hr Hk].
  destruct (pt_ram s pd va' Hok Hva' E) as [[[_ Ha'] _] Hk'].
  unfold set_pte, entry_addr_of. rewrite word_set_word; [|apply Hok|done|done|done|done].
  apply decide_ext. rewrite same_page. split.
  - intros [Ep Ek]. split; [|done]. by apply (pdo_inj _ _ Hok).
  - by intros [-> ->].
Qed.

Lemma pagedir_ok_set_pte : 0 ≤ w < 2 ^ 30 → pagedir_ok (set_pte s pd va w) pd.
Proof.
  intros Hw. split.
  - apply kernel_ok_set_word, Hok.
  - apply Hok.
  - apply Hok.
  - apply Hok.
  - intros i Hi. rewrite pde_at_set_pte, pt_at_set_pte by done. apply (pdo_pde _ _ Hok i Hi).
  - intros i j Hi Hj. rewrite !pde_at_set_pte, !pt_at_set_pte by done. by apply (pdo_inj _ _ Hok).
  - intros va' Hva'. rewrite pte_of_set_pte by done. case_decide; [done|by apply (pdo_pte _ _ Hok)].
Qed.

Lemma store_entry : store (entry_addr_of s pd va) w s = Ok (tt, set_pte s pd va w).
Proof.
  destruct (pt_ram s pd va Hok Hva Hne). unfold entry_addr_of at 1.
  by rewrite store_ok by (done || apply Hok).
Qed.
End set_pte.

(** ** What the operations on page directories leave alone

    Kernel pages only come into use; the user pool, the registers, the
    thread and the pages outside the kernel pool do not change. *)
Record vm_frame (s s' : kernel) : Prop := {
  vmf_user : user_pool s' = user_pool s;
  vmf_consts : init_ram_pages s' = init_ram_pages s ∧ init_page_dir s' = init_page_dir s ∧
    cr3 s' = cr3 s ∧ pagedir s' = pagedir s ∧ segbreak s' = segbreak s;
  vmf_base : base (kernel_pool s') = base (kernel_pool s);
  vmf_cnt : bit_cnt (used_map (kernel_pool s')) = bit_cnt (used_map (kernel_pool s));
  vmf_used i : 0 ≤ i → bit (used_map (kernel_pool s)) i = true → bit (used_map (kernel_pool s')) i = true;
  vmf_mem q : (∀ i, 0 ≤ i < bit_cnt (used_map (kernel_pool s)) →
      q ≠ pg_no (pool_page (kernel_pool s) i)) → mem s' !! q = mem s !! q
}.

Lemma vm_frame_refl s : vm_frame s s.
Proof. by split. Qed.

Lemma vm_frame_trans s1 s2 s3 : vm_frame s1 s2 → vm_frame s2 s3 → vm_frame s1 s3.
Proof.
  intros H1 H2. split.
  - by rewrite (vmf_user _ _ H2), (vmf_user _ _ H1).
  - destruct (vmf_consts _ _ H1) as (?&?&?&?&?), (vmf_consts _ _ H2) as (?&?&?&?&?).
    split_and!; congruence.
  - by rewrite (vmf_base _ _ H2), (vmf_base _ _ H1).
  - by rewrite (vmf_cnt _ _ H2), (vmf_cnt _ _ H1).
  - intros i Hi Hb. by apply (vmf_used _ _ H2), (vmf_used _ _ H1).
  - intros q Hq. rewrite (vmf_mem _ _ H2), (vmf_mem _ _ H1); [done|done|].
    intros i Hi. rewrite (vmf_cnt _ _ H1) in Hi. unfold pool_page. rewrite (vmf_base _ _ H1).
    by apply Hq.
Qed.

Lemma used_page_frame s s' p : vm_frame s s' → used_page s p → used_page s' p.
Proof.
  intros H (i & Hi & -> & Hb). exists i. rewrite (vmf_cnt _ _ H). unfold pool_page.
  rewrite (vmf_base _ _ H). split; [done|]. split; [done|]. apply (vmf_used _ _ H); [lia|done].
Qed.

Lemma vm_frame_set_word s p k w : kernel_ok s → used_page s p → 0 ≤ k < 1024 →
  vm_frame s (set_word (p + 4 * k) w s).
Proof.
  intros Hs Hp Hk. destruct (used_page_nonnull s p Hs Hp) as [_ Ha].
  split; try done. intros q Hq. cbn. destruct (word_addr p k Ha Hk) as [-> _].
  destruct Hp as (i & Hi & -> & _). apply lookup_alter_ne. intros <-. by apply (Hq i Hi).
Qed.

Lemma vm_frame_set_pte s pd va w : pagedir_ok s pd → user_addr va → pde_at s pd (pd_no va) ≠ 0 →
  vm_frame s (set_pte s pd va w).
Proof.
  intros Hok Hva Hne. apply vm_frame_set_word; [apply Hok| |apply pt_no_range].
  by apply (pdo_pde _ _ Hok (pd_no va) (user_addr_pd va Hva) Hne).
Qed.

Lemma vm_frame_allocated zero i s s' : kernel_ok s → allocated false zero i 1 s s' →
  0 ≤ i < bit_cnt (used_map (kernel_pool s)) → vm_frame s s'.
Proof.
  intros Hs (b & Hwf & [Hsz _] & Hb & ->) Hi. split; try done.
  - intros j Hj Hbj. cbn [kernel_pool set_mem set_pool used_map]. rewrite Hb by done. by case_decide.
  - intros q Hq. cbn [mem set_mem set_pool]. destruct zero; [|done].
    rewrite lookup_fill_pages, decide_False; [done|]. intros Hin. apply (Hq i Hi).
    cbn [get_pool] in Hin. lia.
Qed.

(** ** Creating a page table *)

(** A page of the kernel pool that has been handed out: it is zero, in use, and
    none of those in use before. *)
Section new_page.
Context (s s1 : kernel) (i : Z).
Context (Hs : kernel_ok s) (Hg : first_group (used_map (kernel_pool s)) 0 1 false i) (Hal : allocated false true i 1 s s1).

Let pt := pool_page (kernel_pool s) i.

Lemma new_page_index : 0 ≤ i < bit_cnt (used_map (kernel_pool s)) ∧ bit (used_map (kernel_pool s)) i = false.
Proof. destruct Hg as (? & ? & Hall & _). split; [lia|]. apply Hall. lia. Qed.

Lemma new_page_used : used_page s1 pt.
Proof.
  pose proof new_page_index as [Hi _]. destruct Hal as (b & Hwf & [Hsz _] & Hb & ->).
  exists i. cbn [kernel_pool set_mem set_pool used_map get_pool] in *. rewrite Hsz. split; [done|].
  split; [done|]. rewrite Hb by lia. by rewrite decide_True by lia.
Qed.

Lemma new_page_fresh p : used_page s p → p ≠ pt.
Proof.
  intros (j & Hj & -> & Hb) E. pose proof new_page_index as [Hi Hf]. unfold pt, pool_page in E.
  change PGSIZE with 4096 in E. assert (i = j) as -> by lia. congruence.
Qed.

Lemma new_page_word p m : aligned p → 0 ≤ m < 1024 →
  word s1 (p + 4 * m) = if decide (p = pt) then 0 else word s (p + 4 * m).
Proof.
  intros Ha Hm. destruct Hal as (b & Hwf & _ & Hb & ->).
  pose proof (pool_page_no _ _ i (kok_pool _ Hs false)) as [_ Hap].
  destruct (word_addr p m Ha Hm) as [En Ek]. unfold word. rewrite En, Ek.
  cbn [mem set_mem set_pool]. rewrite lookup_fill_pages. cbn [get_pool]. fold pt.
  destruct (decide (p = pt)) as [->|Hne].
  - rewrite decide_True by lia. change (default 0 (replicate page_words 0 !! Z.to_nat m) = 0).
    rewrite lookup_replicate_2; [done|]. unfold page_words. lia.
  - rewrite decide_False; [done|]. intros Hq. apply Hne. apply page_eq; [done|done|lia].
Qed.
End new_page.

(** A page table for [va] is allocated at [pt] and entered. *)
Section new_table.
Context (s s1 : kernel) (pd va i : Z).
Context (Hok : pagedir_ok s pd) (Hva : user_addr va) (Hnone : pde_at s pd (pd_no va) = 0).
Context (Hg : first_group (used_map (kernel_pool s)) 0 1 false i).
Context (Hal : allocated false true i 1 s s1).

Let pt := pool_page (kernel_pool s) i.
Let s2 := set_word (pd + 4 * pd_no va) (pt - PHYS_BASE + 7) s1.

Lemma new_table_index : 0 ≤ i < bit_cnt (used_map (kernel_pool s)) ∧ bit (used_map (kernel_pool s)) i = false.
Proof. by eapply new_page_index. Qed.

Lemma new_table_frame1 : vm_frame s s1.
Proof. eapply vm_frame_allocated; [apply Hok|done|apply new_table_index]. Qed.

Lemma new_table_ok1 : kernel_ok s1.
Proof. eapply allocated_ok; [apply Hok|done]. Qed.

Lemma new_table_used : used_page s1 pt.
Proof. by eapply new_page_used. Qed.

(** The new page is none of those in use before. *)
Lemma new_table_fresh p : used_page s p → p ≠ pt.
Proof. intros Hp. by eapply new_page_fresh. Qed.

Lemma new_table_word p m : aligned p → 0 ≤ m < 1024 →
  word s1 (p + 4 * m) = if decide (p = pt) then 0 else word s (p + 4 * m).
Proof. intros. eapply new_page_word; [apply Hok|done..]. Qed.

Lemma new_table_pd : used_page s1 pd ∧ aligned pd ∧ pd ≠ pt.
Proof.
  split; [|split].
  - apply (used_page_frame s); [apply new_table_frame1|apply Hok].
  - apply (used_page_nonnull s); apply Hok.
  - apply new_table_fresh, Hok.
Qed.

Lemma new_table_pde j : 0 ≤ j < 768 →
  pde_at s2 pd j = if decide (j = pd_no va) then pt - PHYS_BASE + 7 else pde_at s pd j.
Proof.
  intros Hj. destruct new_table_pd as (Hpd & Hapd & Hne). pose proof (user_addr_pd va Hva).
  unfold pde_at, s2. rewrite word_set_word; [|apply new_table_ok1| |done|lia|lia].
  - destruct (decide (j = pd_no va)) as [->|]; [by rewrite decide_True|].
    rewrite decide_False by naive_solver. by rewrite new_table_word, decide_False by (done || lia).
  - by apply used_page_ram; [apply new_table_ok1|].
Qed.

Lemma new_table_kernel_page : kernel_page pt.
Proof. apply (used_page_ram s1); [apply new_table_ok1|apply new_table_used]. Qed.

Lemma new_table_pt j : 0 ≤ j < 768 →
  pt_at s2 pd j = if decide (j = pd_no va) then pt else pt_at s pd j.
Proof.
  intros Hj. unfold pt_at. rewrite new_table_pde by done. case_decide; [|done].
  destruct new_table_kernel_page as [Hr Ha]. unfold aligned in Ha. rewrite PHYS_BASE_eq in *.
  rewrite entry_addr; [lia|div_lia|lia|lia].
Qed.

Lemma new_table_pte va' : user_addr va' → pte_of s2 pd va' = pte_of s pd va'.
Proof.
  intros Hva'. pose proof (user_addr_pd va' Hva'). pose proof (user_addr_pd va Hva).
  pose proof (pt_no_range va'). destruct new_table_pd as (Hpd & Hapd & Hne).
  destruct new_table_kernel_page as [Hr Ha]. unfold pte_of. rewrite new_table_pde, new_table_pt by done.
  assert (Hset : ∀ p, aligned p → p ≠ pd → word s2 (p + 4 * pt_no va') = word s1 (p + 4 * pt_no va')).
  { intros p Hap Hp. unfold s2. rewrite word_set_word; [|apply new_table_ok1| |done|lia|lia].
    - by rewrite decide_False by naive_solver.
    - by apply used_page_ram; [apply new_table_ok1|]. }
  destruct (decide (pd_no va' = pd_no va)) as [E|E].
  - rewrite E, Hnone. cbn [Z.eqb]. rewrite (proj2 (Z.eqb_neq _ 0)) by (rewrite PHYS_BASE_eq in *; lia).
    rewrite Hset, new_table_word by done. by rewrite decide_True.
  - destruct (Z.eqb_spec (pde_at s pd (pd_no va')) 0) as [E0|E0]; [done|].
    destruct (pdo_pde _ _ Hok (pd_no va') ltac:(done) E0) as (_ & _ & Hu & Hnp).
    destruct (used_page_nonnull s _ (pdo_kernel _ _ Hok) Hu) as [_ Hal'].
    rewrite Hset, new_table_word by done. rewrite decide_False; [done|]. by apply new_table_fresh.
Qed.

Lemma new_table_frame : vm_frame s s2.
Proof.
  eapply vm_frame_trans; [apply new_table_frame1|]. pose proof (user_addr_pd va Hva).
  apply vm_frame_set_word; [apply new_table_ok1|apply new_table_pd|lia].
Qed.

Lemma new_table_present : pde_at s2 pd (pd_no va) ≠ 0.
Proof.
  rewrite new_table_pde, decide_True by (done || by apply user_addr_pd).
  destruct new_table_kernel_page as [Hr _]. rewrite PHYS_BASE_eq in *. lia.
Qed.

Lemma new_table_ok : pagedir_ok s2 pd.
Proof.
  pose proof new_table_frame as Hf. destruct (vmf_consts _ _ Hf) as (_ & Ei & Ec & _ & _).
  destruct new_table_kernel_page as [Hr Ha]. destruct new_table_pd as (Hpd & Hapd & Hne).
  split.
  - apply kernel_ok_set_word, new_table_ok1.
  - apply (used_page_frame s); [done|apply Hok].
  - rewrite Ei. apply Hok.
  - rewrite Ec. apply Hok.
  - intros j Hj. rewrite new_table_pde, new_table_pt by done. case_decide.
    + intros _. unfold aligned in Ha. rewrite PHYS_BASE_eq in *. split; [div_lia|].
      split; [change PTE_P with (2 ^ 0); rewrite entry_flag; [done|div_lia|lia|lia]|].
      split; [|done]. apply new_table_used.
    + intros E. destruct (pdo_pde _ _ Hok j Hj E) as (? & ? & Hu & ?).
      do 2 (split; [done|]). split; [|done]. by apply (used_page_frame s).
  - intros j k Hj Hk. rewrite !new_table_pde, !new_table_pt by done.
    do 2 case_decide; intros E1 E2; [congruence| | |by apply (pdo_inj _ _ Hok)].
    + intros E. destruct (pdo_pde _ _ Hok k Hk E2) as (_ & _ & Hu & _).
      by destruct (new_table_fresh _ Hu).
    + intros E. destruct (pdo_pde _ _ Hok j Hj E1) as (_ & _ & Hu & _).
      by destruct (new_table_fresh _ Hu).
  - intros va' Hva'. rewrite new_table_pte by done. by apply (pdo_pte _ _ Hok).
Qed.
End new_table.

Lemma wp_lookup_create s pd va (Q : Z → kernel → Prop) :
  pagedir_ok s pd → user_addr va →
  (∀ s', pagedir_ok s' pd → vm_frame s s' → pde_at s' pd (pd_no va) ≠ 0 →
     (∀ va', user_addr va' → pte_of s' pd va' = pte_of s pd va') → Q (entry_addr_of s' pd va) s') →
  (pde_at s pd (pd_no va) = 0 → no_group (used_map (kernel_pool s)) 0 1 false → Q NULL s) →
  wp (lookup_page pd va true) Q s.
Proof.
  intros Hok Hva Hyes Hno. pose proof (user_addr_pd va Hva).
  destruct (used_page_nonnull s pd) as [? _]; [apply Hok|apply Hok|].
  unfold lookup_page. repeat wp_step; [apply negb_true_iff, Z.eqb_neq; lia| |].
  { unfold user_addr in Hva. unfold is_user_vaddr. cbn. lia. }
  apply wp_load_word; [apply Hok|by apply pd_ram|lia|]. fold (pde_at s pd (pd_no va)).
  destruct (Z.eqb_spec (pde_at s pd (pd_no va)) 0) as [E|E].
  - wp_step. apply wp_palloc_get_multiple; [apply Hok|lia|].
    change (flag PAL_ZERO PAL_USER) with false. cbn [get_pool]. split.
    + intros Hng. split; [done|]. cbn [Z.eqb]. wp_step. auto.
    + intros i s1 Hg Hal. change (flag PAL_ZERO PAL_ZERO) with true in Hal.
      assert (Hkp : kernel_page (pool_page (kernel_pool s) i)) by (by eapply new_table_kernel_page).
      rewrite (proj2 (Z.eqb_neq _ 0)) by (destruct Hkp as [Hr _]; rewrite PHYS_BASE_eq in Hr; lia).
      wp_step. apply wp_pde_create; [done|]. wp_step.
      assert (used_page s1 pd ∧ aligned pd ∧ pd ≠ pool_page (kernel_pool s) i) as (Hpd & _ & _) by (by eapply new_table_pd).
      assert (Hs1 : kernel_ok s1) by (by eapply new_table_ok1). unfold wp at 1.
      rewrite wrap32_word by (apply (used_page_ram s1 pd) || lia; done).
      rewrite store_ok by (done || lia || by apply used_page_ram).
      set (s2 := set_word _ _ s1). rewrite <-(wrap32_word pd (pd_no va)) by (apply (used_page_ram s1 pd) || lia; done).
      apply wp_entry; [by eapply new_table_ok|done|by eapply new_table_present|].
      apply Hyes; [by eapply new_table_ok|by eapply new_table_frame|by eapply new_table_present|].
      intros va' Hva'. by eapply new_table_pte.
  - apply wp_entry; [done..|]. apply Hyes; [done|apply vm_frame_refl|done|done].
Qed.

(** Storing CR3 again changes nothing. *)
Lemma invalidate_pagedir_id s pd : pagedir_ok s pd → invalidate_pagedir pd s = Ok (tt, s).
Proof.
  intros Hok. pose proof (pdo_cr3 _ _ Hok) as Hc.
  assert (Hw : wp (invalidate_pagedir pd) (λ _ s', s' = s) s).
  { unfold invalidate_pagedir, active_pd. repeat wp_step. apply wp_ptov; [done|].
    destruct (Z.eqb_spec (cr3 s + PHYS_BASE) pd) as [E|E]; unfold when; [|by wp_step].
    unfold pagedir_activate. rewrite (proj2 (Z.eqb_neq pd 0)) by (rewrite PHYS_BASE_eq in *; lia).
    repeat wp_step. apply wp_vtop; [rewrite PHYS_BASE_eq in *; lia|]. wp_step.
    replace (pd - PHYS_BASE) with (cr3 s) by lia. by destruct s. }
  by apply wp_Ok in Hw as ([] & s' & E & ->).
Qed.

(** ** Flags of an entry *)

Lemma land_pow2 w n : 0 ≤ n → Z.land w (2 ^ n) = if Z.testbit w n then 2 ^ n else 0.
Proof.
  intros Hn. apply Z.bits_inj'. intros m Hm. rewrite Z.land_spec, Z.pow2_bits_eqb by lia.
  destruct (Z.eqb_spec n m) as [->|Hne].
  - rewrite andb_true_r. destruct (Z.testbit w m); [by rewrite Z.pow2_bits_true|by rewrite Z.bits_0].
  - rewrite andb_false_r. destruct (Z.testbit w n); [|by rewrite Z.bits_0].
    by rewrite Z.pow2_bits_false by lia.
Qed.

Lemma land_pow2_zero w n : 0 ≤ n → (Z.land w (2 ^ n) =? 0) = negb (Z.testbit w n).
Proof.
  intros Hn. rewrite land_pow2 by done. destruct (Z.testbit w n); [|done]. cbn.
  apply Z.eqb_neq. pose proof (Z.pow_pos_nonneg 2 n). lia.
Qed.

(** Clearing bit [n], and or-ing it in. *)
Definition clear_bit (n w : Z) : Z := Z.land w (wrap32 (Z.lnot (2 ^ n))).

Lemma testbit_clear n w m : 0 ≤ w < 2 ^ 30 → 0 ≤ n < 12 → 0 ≤ m →
  Z.testbit (clear_bit n w) m = Z.testbit w m && negb (n =? m).
Proof.
  intros Hw Hn Hm. unfold clear_bit, wrap32. rewrite Z.land_spec.
  destruct (decide (m < 32)).
  - rewrite Z.mod_pow2_bits_low, Z.lnot_spec, Z.pow2_bits_eqb by lia. done.
  - replace (Z.testbit w m) with false; [done|]. symmetry. apply (bits_above w 30); lia.
Qed.

Lemma clear_bit_range n w : 0 ≤ w < 2 ^ 30 → 0 ≤ n < 12 → 0 ≤ clear_bit n w < 2 ^ 30.
Proof.
  intros Hw Hn. assert (H0 : 0 ≤ clear_bit n w) by (apply Z.land_nonneg; left; lia).
  split; [done|]. apply bits_range; [lia|done|]. intros i Hi.
  by rewrite testbit_clear, (bits_above w 30) by lia.
Qed.

Lemma lor_bit_range n w : 0 ≤ w < 2 ^ 30 → 0 ≤ n < 12 → 0 ≤ Z.lor w (2 ^ n) < 2 ^ 30.
Proof.
  intros Hw Hn. assert (H0 : 0 ≤ Z.lor w (2 ^ n)).
  { apply Z.lor_nonneg. split; [lia|]. apply Z.pow_nonneg. lia. }
  split; [done|]. apply bits_range; [lia|done|]. intros i Hi. rewrite Z.lor_spec.
  rewrite (bits_above w 30) by lia. by rewrite Z.pow2_bits_false by lia.
Qed.

Lemma land_addr_bits a b :
  (∀ m, 12 ≤ m → Z.testbit a m = Z.testbit b m) → Z.land a PTE_ADDR = Z.land b PTE_ADDR.
Proof.
  intros H. apply Z.bits_inj'. intros m Hm. rewrite !Z.land_spec.
  destruct (decide (m < 12)); [|by rewrite H by lia].
  replace (Z.testbit PTE_ADDR m) with false; [by rewrite !andb_false_r|].
  replace PTE_ADDR with (0xfffff * 2 ^ 12) by reflexivity.
  by rewrite Z.mul_pow2_bits_low by lia.
Qed.

(** What an entry translates to depends on its present bit and its high
    bits. *)
Definition frame_of (pte : Z) : option Z :=
  if Z.testbit pte 0 then Some (Z.land pte PTE_ADDR + PHYS_BASE) else None.

Lemma translate_frame s pd va : translate s pd va = frame_of (pte_of s pd va).
Proof.
  unfold translate, frame_of. cbv zeta. change PTE_P with (2 ^ 0). rewrite land_pow2_zero by lia.
  by destruct (Z.testbit _ 0).
Qed.

Lemma frame_of_bits a b :
  Z.testbit a 0 = Z.testbit b 0 → (∀ m, 12 ≤ m → Z.testbit a m = Z.testbit b m) →
  frame_of a = frame_of b.
Proof. intros H0 H. unfold frame_of. by rewrite H0, (land_addr_bits a b H). Qed.

Lemma frame_of_user (w : bool) page : kernel_page page →
  frame_of (page - PHYS_BASE + (if w then 7 else 5)) = Some page ∧
  0 ≤ page - PHYS_BASE + (if w then 7 else 5) < 2 ^ 30.
Proof.
  intros [Hr Ha]. unfold aligned in Ha. rewrite PHYS_BASE_eq in *.
  set (f := if w then 7 else 5). assert (Hf : 0 ≤ f < 8) by (destruct w; cbn; lia).
  split; [|div_lia]. unfold frame_of. rewrite PHYS_BASE_eq, entry_addr; [|div_lia|lia|lia].
  replace (Z.testbit _ 0) with true; [f_equal; lia|]. symmetry.
  rewrite Z.bit0_odd. replace (page - 3221225472 + f) with (f + 2 * ((page - 3221225472) / 2)) by div_lia.
  rewrite Z.odd_add_mul_2. by destruct w.
Qed.

(** ** The operations *)

(** Rewriting the entry of [va] to [w]: the effect on the entries. *)
Definition pte_written (s : kernel) (pd va w : Z) (s' : kernel) : Prop :=
  pagedir_ok s' pd ∧ vm_frame s s' ∧
  ∀ va', user_addr va' → pte_of s' pd va' = if decide (pg_no va = pg_no va') then w else pte_of s pd va'.

Lemma pte_written_set_pte s pd va w :
  pagedir_ok s pd → user_addr va → pde_at s pd (pd_no va) ≠ 0 → 0 ≤ w < 2 ^ 30 →
  pte_written s pd va w (set_pte s pd va w).
Proof.
  intros. split; [by apply pagedir_ok_set_pte|]. split; [by apply vm_frame_set_pte|].
  intros va' Hva'. by apply pte_of_set_pte.
Qed.

Lemma wp_pagedir_set_page s pd upage kpage (w : bool) :
  pagedir_ok s pd → user_addr upage → aligned upage → ram_page s kpage →
  Z.testbit (pte_of s pd upage) 0 = false →
  wp (pagedir_set_page pd upage kpage w) (λ ok s',
    if ok then pte_written s pd upage (kpage - PHYS_BASE + (if w then 7 else 5)) s'
    else s' = s ∧ no_group (used_map (kernel_pool s)) 0 1 false ∧
         pde_at s pd (pd_no upage) = 0) s.
Proof.
  intros Hok Hva Hau [Hkp Hram] Hnp. unfold pagedir_set_page.
  pose proof Hkp as [Hr Hak]. destruct (frame_of_user w kpage Hkp) as [_ Hrange].
  repeat wp_step;
    [by rewrite pg_ofs_mod, Hau|by rewrite pg_ofs_mod, Hak|unfold is_user_vaddr, user_addr in *; lia|].
  apply wp_vtop; [done|]. repeat wp_step; [|apply negb_true_iff, Z.eqb_neq; apply Hok|].
  { rewrite Z.shiftr_div_pow2 by done. change (2 ^ PTSHIFT) with 4096. unfold id.
    rewrite !pg_no_div in Hram. unfold aligned in Hak. rewrite PHYS_BASE_eq in *. div_lia. }
  apply wp_lookup_create; [done|done| |].
  - intros s1 Hok1 Hf1 Hne Hpte. pose proof (entry_addr_nonnull s1 pd upage Hok1 Hva Hne).
    rewrite (proj2 (Z.eqb_neq _ 0)) by lia. wp_step. unfold wp at 1.
    destruct (pt_ram s1 pd upage Hok1 Hva Hne). unfold entry_addr_of at 1.
    rewrite load_ok by (done || apply Hok1). fold (entry_addr_of s1 pd upage).
    rewrite <-pte_of_entry by done. rewrite Hpte by done. repeat wp_step.
    { change PTE_P with (2 ^ 0). rewrite land_pow2_zero by lia. by rewrite Hnp. }
    apply wp_pte_create_user; [done|]. wp_step. unfold wp at 1. rewrite store_entry by done.
    wp_step. destruct (pte_written_set_pte s1 pd upage (kpage - PHYS_BASE + (if w then 7 else 5)))
      as (? & ? & Hw); [done..|].
    split; [done|]. split; [by eapply vm_frame_trans|]. intros va' Hva'. rewrite Hw by done.
    by case_decide; [|apply Hpte].
  - intros E Hng. cbn [Z.eqb]. by wp_step.
Qed.

Lemma wp_pagedir_get_page s pd va (Q : Z → kernel → Prop) :
  pagedir_ok s pd → user_addr va →
  Q (from_option (λ page, page + pg_ofs va) NULL (translate s pd va)) s →
  wp (pagedir_get_page pd va) Q s.
Proof.
  intros Hok Hva HQ. unfold pagedir_get_page. repeat wp_step.
  { unfold is_user_vaddr, user_addr in *. lia. }
  rewrite translate_frame in HQ. unfold frame_of in HQ.
  apply (wp_with_entry s pd va NULL); [done|done| |].
  - intros E. unfold pte_of in HQ. by rewrite E in HQ.
  - intros Hne. change PTE_P with (2 ^ 0). rewrite land_pow2_zero by lia.
    destruct (Z.testbit (pte_of s pd va) 0); cbn [negb from_option] in HQ |- *; [|by wp_step].
    pose proof (pdo_pte _ _ Hok va Hva) as Hr.
    assert (Hl : Z.land (pte_of s pd va) PTE_ADDR = pte_of s pd va - pte_of s pd va mod 4096)
      by (apply land_high; lia).
    wp_step. unfold pte_get_page. apply wp_ptov; [rewrite Hl; div_lia|]. wp_step.
    rewrite wrap32_small; [done|]. rewrite Hl, pg_ofs_mod, PHYS_BASE_eq. div_lia.
Qed.

Lemma wp_pagedir_clear_page s pd upage :
  pagedir_ok s pd → user_addr upage → aligned upage →
  wp (pagedir_clear_page pd upage) (λ _ s',
    pte_written s pd upage (clear_bit 0 (pte_of s pd upage)) s' ∨
    s' = s ∧ Z.testbit (pte_of s pd upage) 0 = false) s.
Proof.
  intros Hok Hva Ha. unfold pagedir_clear_page. repeat wp_step.
  { by rewrite pg_ofs_mod, Ha. } { unfold is_user_vaddr, user_addr in *. lia. }
  apply (wp_with_entry s pd upage tt); [done|done| |].
  - intros E. right. split; [done|]. unfold pte_of. by rewrite E.
  - intros Hne. change PTE_P with (2 ^ 0). rewrite land_pow2_zero by lia.
    destruct (Z.testbit (pte_of s pd upage) 0) eqn:Hb; cbn [negb]; [|wp_step; by right].
    pose proof (clear_bit_range 0 _ (pdo_pte _ _ Hok upage Hva) ltac:(lia)).
    wp_step. unfold wp at 1. rewrite store_entry by done.
    change (Z.land (pte_of s pd upage) _) with (clear_bit 0 (pte_of s pd upage)).
    pose proof (pte_written_set_pte s pd upage (clear_bit 0 (pte_of s pd upage)) Hok Hva Hne ltac:(done)) as Hw.
    unfold wp. rewrite invalidate_pagedir_id by apply Hw. by left.
Qed.

(** Present pages after an entry was rewritten. *)
Lemma translate_written s pd va w s' va' :
  pte_written s pd va w s' → user_addr va' →
  translate s' pd va' = if decide (pg_no va = pg_no va') then frame_of w else translate s pd va'.
Proof.
  intros (_ & _ & H) Hva'. rewrite !translate_frame, H by done. by case_decide.
Qed.

Lemma translate_None s pd va : translate s pd va = None ↔ Z.testbit (pte_of s pd va) 0 = false.
Proof. rewrite translate_frame. unfold frame_of. by destruct (Z.testbit _ 0). Qed.

(** C31: A page directory implements a partial map from user pages to kernel
    pages.  [pagedir_get_page] looks an address up.  [pagedir_set_page] of an
    unmapped page maps exactly that page, or fails with everything unchanged
    when a page table is needed and the kernel pool has no free page.
    [pagedir_clear_page] unmaps exactly that page.  None of them faults, all
    keep the page directory well formed, the mappings of all other pages,
    and the memory outside the kernel pool. *)
Theorem pagedir_map_correct s pd upage kpage w va :
  pagedir_ok s pd → user_addr upage → upage mod PGSIZE = 0 → ram_page s kpage → user_addr va →
  pagedir_get_page pd va s =
    Ok (match translate s pd va with Some page => page + pg_ofs va | None => NULL end, s) ∧
  (translate s pd upage = None →
   ∃ ok s', pagedir_set_page pd upage kpage w s = Ok (ok, s') ∧ pagedir_ok s' pd ∧ vm_frame s s' ∧
     if ok then translate s' pd va =
       if decide (pg_no upage = pg_no va) then Some kpage else translate s pd va
     else s' = s ∧ pde_at s pd (pd_no upage) = 0 ∧ no_group (used_map (kernel_pool s)) 0 1 false) ∧
  ∃ s', pagedir_clear_page pd upage s = Ok (tt, s') ∧ pagedir_ok s' pd ∧ vm_frame s s' ∧
    translate s' pd va = if decide (pg_no upage = pg_no va) then None else translate s pd va.
Proof.
  intros Hok Hu Ha Hk Hva. split; [|split].
  - pose proof (wp_pagedir_get_page s pd va (λ r s', r = from_option (λ page, page + pg_ofs va) NULL
      (translate s pd va) ∧ s' = s) Hok Hva (conj eq_refl eq_refl)) as Hw.
    apply wp_Ok in Hw as (r & s' & E & -> & ->). rewrite E. by destruct (translate s pd va).
  - intros Hn%translate_None.
    pose proof (wp_pagedir_set_page s pd upage kpage w Hok Hu Ha Hk Hn) as Hw.
    apply wp_Ok in Hw as (ok & s' & E & H). exists ok, s'. split; [done|]. destruct ok.
    + split; [apply H|]. split; [apply H|]. rewrite (translate_written _ _ _ _ _ _ H Hva).
      destruct (frame_of_user w kpage) as [-> _]; [apply Hk|done].
    + destruct H as (-> & ? & ?). split; [done|]. by split; [apply vm_frame_refl|].
  - pose proof (wp_pagedir_clear_page s pd upage Hok Hu Ha) as Hw.
    apply wp_Ok in Hw as ([] & s' & E & [H|[-> Hn]]); eexists; (split; [done|]).
    + split; [apply H|]. split; [apply H|]. rewrite (translate_written _ _ _ _ _ _ H Hva).
      case_decide; [|done]. unfold frame_of.
      rewrite testbit_clear; [by rewrite andb_false_r|by apply (pdo_pte _ _ Hok)|lia|lia].
    + split; [done|]. split; [apply vm_frame_refl|]. case_decide as Hp; [|done].
      rewrite translate_None. unfold pte_of in *. apply same_page in Hp as [<- <-]. done.
Qed.

(** ** Dirty and accessed bits *)

Lemma test_flag_run n s pd va : pagedir_ok s pd → user_addr va → 0 ≤ n →
  test_flag (2 ^ n) pd va s = Ok (Z.testbit (pte_of s pd va) n, s).
Proof.
  intros Hok Hva Hn.
  assert (Hw : wp (test_flag (2 ^ n) pd va) (λ r s', r = Z.testbit (pte_of s pd va) n ∧ s' = s) s).
  { unfold test_flag. wp_step. apply (wp_with_entry s pd va false); [done|done| |].
    - intros E. split; [|done]. unfold pte_of. rewrite E. by rewrite Z.bits_0.
    - intros Hne. wp_step. rewrite land_pow2_zero, negb_involutive by done. done. }
  by apply wp_Ok in Hw as (r & s' & -> & -> & ->).
Qed.

Lemma wp_set_flag n s pd va (v : bool) : pagedir_ok s pd → user_addr va → 0 ≤ n < 12 →
  wp (set_flag (2 ^ n) pd va v) (λ _ s',
    if decide (pde_at s pd (pd_no va) = 0) then s' = s
    else pte_written s pd va (if v then Z.lor (pte_of s pd va) (2 ^ n) else clear_bit n (pte_of s pd va)) s') s.
Proof.
  intros Hok Hva Hn. unfold set_flag. wp_step. pose proof (pdo_pte _ _ Hok va Hva) as Hr.
  destruct (decide (pde_at s pd (pd_no va) = 0)) as [E0|E0];
    (apply (wp_with_entry s pd va tt); [done|done| |]; intros E; [done|]); [done|].
  pose proof (pte_written_set_pte s pd va (if v then Z.lor (pte_of s pd va) (2 ^ n)
    else clear_bit n (pte_of s pd va)) Hok Hva E) as Hw. destruct v.
  - unfold wp. rewrite store_entry by done. apply Hw. by apply lor_bit_range.
  - wp_step. unfold wp at 1. rewrite store_entry by done. fold (clear_bit n (pte_of s pd va)).
    specialize (Hw (clear_bit_range n _ Hr Hn)). unfold wp.
    rewrite invalidate_pagedir_id by apply Hw. done.
Qed.

(** Setting bit [n], between the present bit and the address, of the entry of
    [va] to [v]. *)
Lemma set_flag_effect n s pd va (v : bool) : pagedir_ok s pd → user_addr va → 0 < n < 12 →
  ∃ s', set_flag (2 ^ n) pd va v s = Ok (tt, s') ∧ pagedir_ok s' pd ∧ vm_frame s s' ∧
    (∀ va', user_addr va' → translate s' pd va' = translate s pd va') ∧
    (∀ va' m, user_addr va' → 0 ≤ m →
       Z.testbit (pte_of s' pd va') m =
       if decide (pg_no va = pg_no va' ∧ n = m ∧ pde_at s pd (pd_no va) ≠ 0) then v
       else Z.testbit (pte_of s pd va') m).
Proof.
  intros Hok Hva Hn. pose proof (wp_set_flag n s pd va v Hok Hva ltac:(lia)) as Hw.
  pose proof (pdo_pte _ _ Hok va Hva) as Hr.
  apply wp_Ok in Hw as ([] & s' & E & H). exists s'. split; [done|].
  destruct (decide (pde_at s pd (pd_no va) = 0)) as [E0|E0].
  - subst s'. do 2 (split; [done||apply vm_frame_refl|]). split; [done|]. intros va' m _ _.
    by rewrite decide_False by naive_solver.
  - set (w := if v then _ else _) in H.
    assert (Hbit : ∀ m, 0 ≤ m → Z.testbit w m = if decide (n = m) then v else Z.testbit (pte_of s pd va) m).
    { intros m Hm. unfold w. destruct v.
      - rewrite Z.lor_spec, Z.pow2_bits_eqb by lia.
        case_decide as Hd; [subst m; by rewrite Z.eqb_refl, orb_true_r|].
        by rewrite (proj2 (Z.eqb_neq n m) Hd), orb_false_r.
      - rewrite testbit_clear by lia.
        case_decide as Hd; [subst m; by rewrite Z.eqb_refl, andb_false_r|].
        by rewrite (proj2 (Z.eqb_neq n m) Hd), andb_true_r. }
    clearbody w. assert (Hsame : ∀ va', pg_no va = pg_no va' → pte_of s pd va' = pte_of s pd va).
    { intros va' [E1 E2]%same_page. unfold pte_of. by rewrite E1, E2. }
    split; [apply H|]. split; [apply H|]. split.
    + intros va' Hva'. rewrite (translate_written _ _ _ _ _ _ H Hva'). case_decide as Hp; [|done].
      rewrite translate_frame, (Hsame va' Hp). apply frame_of_bits.
      * by rewrite Hbit, decide_False by lia.
      * intros m Hm. by rewrite Hbit, decide_False by lia.
    + intros va' m Hva' Hm. destruct H as (_ & _ & H). rewrite H by done.
      destruct (decide (pg_no va = pg_no va')) as [Hp|Hp].
      * rewrite Hbit by done. rewrite (Hsame va' Hp). apply decide_ext. naive_solver.
      * by rewrite decide_False by naive_solver.
Qed.

(** The dirty and accessed bits of a page can be set and cleared
    independently: after [pagedir_set_dirty] (or [pagedir_set_accessed]) of a
    page that has a page table, [pagedir_is_dirty] (or [pagedir_is_accessed])
    returns what was set; the other bit, both bits of every other page, and
    the mapping of every page are as before. *)
Theorem pagedir_flags_correct s pd va va' v :
  pagedir_ok s pd → user_addr va → user_addr va' → pde_at s pd (pd_no va) ≠ 0 →
  (∃ s1, pagedir_set_dirty pd va v s = Ok (tt, s1) ∧ pagedir_ok s1 pd ∧
     pagedir_is_dirty pd va s1 = Ok (v, s1) ∧
     translate s1 pd va' = translate s pd va' ∧
     (∃ b, pagedir_is_accessed pd va' s = Ok (b, s) ∧ pagedir_is_accessed pd va' s1 = Ok (b, s1)) ∧
     (pg_no va' ≠ pg_no va →
      (∃ b, pagedir_is_dirty pd va' s = Ok (b, s) ∧ pagedir_is_dirty pd va' s1 = Ok (b, s1)))) ∧
  (∃ s2, pagedir_set_accessed pd va v s = Ok (tt, s2) ∧ pagedir_ok s2 pd ∧
     pagedir_is_accessed pd va s2 = Ok (v, s2) ∧
     translate s2 pd va' = translate s pd va' ∧
     (∃ b, pagedir_is_dirty pd va' s = Ok (b, s) ∧ pagedir_is_dirty pd va' s2 = Ok (b, s2)) ∧
     (pg_no va' ≠ pg_no va →
      (∃ b, pagedir_is_accessed pd va' s = Ok (b, s) ∧ pagedir_is_accessed pd va' s2 = Ok (b, s2)))).
Proof.
  intros Hok Hva Hva' Hne.
  unfold pagedir_set_dirty, pagedir_set_accessed, pagedir_is_dirty, pagedir_is_accessed.
  change PTE_D with (2 ^ 6). change PTE_A with (2 ^ 5). split.
  - destruct (set_flag_effect 6 s pd va v Hok Hva ltac:(lia)) as (s1 & E & Hok1 & _ & Ht & Hb).
    exists s1. rewrite !test_flag_run by (done || lia). rewrite !Hb by (done || lia).
    split; [done|]. split; [done|]. split; [by rewrite decide_True|]. split; [by apply Ht|].
    split; [|intros]; eexists; (split; [done|]); by rewrite decide_False by naive_solver.
  - destruct (set_flag_effect 5 s pd va v Hok Hva ltac:(lia)) as (s1 & E & Hok1 & _ & Ht & Hb).
    exists s1. rewrite !test_flag_run by (done || lia). rewrite !Hb by (done || lia).
    split; [done|]. split; [done|]. split; [by rewrite decide_True|]. split; [by apply Ht|].
    split; [|intros]; eexists; (split; [done|]); by rewrite decide_False by naive_solver.
Qed.

(** ** Examples: the empty page directory of [example_kernel] *)

Lemma example_word p k : 0 ≤ p - pg_no PHYS_BASE < 300 → 0 ≤ k < 1024 →
  word example_kernel (4096 * p + 4 * k) = 0.
Proof.
  intros Hp Hk. destruct (word_addr (4096 * p) k) as [En Ek]; [unfold aligned; div_lia|done|].
  unfold word. rewrite En, Ek. replace (pg_no (4096 * p)) with p by (rewrite pg_no_div; div_lia).
  rewrite example_kernel_mem by done.
  change (default 0 (replicate page_words 0 !! Z.to_nat k) = 0).
  rewrite lookup_replicate_2; [done|]. unfold page_words. lia.
Qed.

Lemma example_pde i : 0 ≤ i < 1024 → pde_at example_kernel 0xc0102000 i = 0.
Proof.
  intros Hi. unfold pde_at. replace 0xc0102000 with (4096 * 0xc0102) by reflexivity.
  apply example_word; [|done]. vm_compute. by split.
Qed.

Lemma example_pte va : user_addr va → pte_of example_kernel 0xc0102000 va = 0.
Proof.
  intros Hva. pose proof (user_addr_pd va Hva). unfold pte_of. by rewrite example_pde by lia.
Qed.

Lemma example_pagedir_ok : pagedir_ok example_kernel 0xc0102000.
Proof.
  split; [apply example_kernel_ok| |done|done| | |].
  - exists 1. split; [cbn; lia|]. by split.
  - intros i Hi Hne. destruct Hne. apply example_pde. lia.
  - intros i j Hi Hj Hne. destruct Hne. apply example_pde. lia.
  - intros va Hva. rewrite example_pte by done. lia.
Qed.

(** The first page of the user pool. *)
Lemma example_ram_page : ram_page example_kernel 0xc012a000.
Proof. split; [split; [rewrite PHYS_BASE_eq; lia|reflexivity]|vm_compute; by split]. Qed.

Lemma user_addr_code : user_addr 0x8048000 ∧ user_addr 0x8048123.
Proof. unfold user_addr. rewrite PHYS_BASE_eq. lia. Qed.

Lemma pagedir_map_correct_witness :
  pagedir_get_page 0xc0102000 0x8048123 example_kernel = Ok (NULL, example_kernel) ∧
  ∃ s', pagedir_set_page 0xc0102000 0x8048000 0xc012a000 true example_kernel = Ok (true, s') ∧
    translate s' 0xc0102000 0x8048123 = Some 0xc012a000.
Proof.
  assert (Hn : ∀ va, user_addr va → translate example_kernel 0xc0102000 va = None).
  { intros va Hva. rewrite translate_frame, example_pte by done. reflexivity. }
  destruct (pagedir_map_correct example_kernel 0xc0102000 0x8048000 0xc012a000 true 0x8048123
    example_pagedir_ok (proj1 user_addr_code) eq_refl example_ram_page (proj2 user_addr_code))
    as (Hget & Hset & _).
  rewrite (Hn 0x8048123) in Hget by apply user_addr_code. split; [exact Hget|].
  destruct Hset as (ok & s' & E & _ & _ & H); [apply Hn, user_addr_code|].
  exists s'. destruct ok; [split; [exact E|exact H]|exfalso].
  destruct H as (_ & _ & Hng). apply (Hng 3); [lia|cbn; lia|].
  intros j Hj. replace j with 3 by lia. reflexivity.
Defined.

Lemma pagedir_flags_correct_witness :
  ∃ s0 s1, pagedir_set_page 0xc0102000 0x8048000 0xc012a000 true example_kernel = Ok (true, s0) ∧
    pagedir_set_dirty 0xc0102000 0x8048123 true s0 = Ok (tt, s1) ∧
    pagedir_is_dirty 0xc0102000 0x8048123 s1 = Ok (true, s1).
Proof.
  pose proof (wp_pagedir_set_page example_kernel 0xc0102000 0x8048000 0xc012a000 true
    example_pagedir_ok (proj1 user_addr_code) eq_refl example_ram_page) as Hw.
  rewrite example_pte in Hw by apply user_addr_code.
  specialize (Hw (Z.bits_0 0)).
  destruct (proj1 (wp_Ok _ _ _) Hw) as (ok & s0 & E & H). exists s0. destruct ok.
  - assert (Hpte : pte_of s0 0xc0102000 0x8048123 ≠ 0).
    { destruct H as (_ & _ & H). rewrite H by apply user_addr_code. vm_compute. discriminate. }
    destruct (pagedir_flags_correct s0 0xc0102000 0x8048123 0x8048123 true (proj1 H)
      (proj2 user_addr_code) (proj2 user_addr_code)) as [(s1 & E1 & _ & E2 & _) _].
    { intros Hp. apply Hpte. unfold pte_of. by rewrite Hp. }
    exists s1. split; [exact E|]. split; [exact E1|exact E2].
  - exfalso. destruct H as (_ & Hng & _). apply (Hng 3); [lia|cbn; lia|].
    intros j Hj. replace j with 3 by lia. reflexivity.
Defined.
