(* ===== verification/Sbrk.v ===== *)
(** * Moving the end of the heap ([userprog/syscall.c], [userprog/process.c])

    [syscall_sbrk] grows and shrinks the heap of the running process through
    the page allocator and the page directory of the thread.  Addresses are
    32-bit words; the increment is a signed one. *)
From S2P Require Import Prelude Bitmap Vaddr Palloc Pagedir.

(** The C value [(void * ) -1]. *)
Definition sbrk_failed : Z := 2 ^ 32 - 1.

Definition install_page (upage kpage : Z) (writable : bool) : M kernel bool :=
  pd ← gets pagedir;
  page ← pagedir_get_page pd upage;
  if page =? NULL then pagedir_set_page pd upage kpage writable else mret false.

(** The loop of the growing branch; the result of [install_page] is ignored. *)
Definition install_pages (n start kpages : Z) : M kernel unit :=
  for_loop (Z.to_nat n) 0 (λ i,
    install_page (wrap32 (start + i * PGSIZE)) (wrap32 (kpages + i * PGSIZE)) true ;; mret tt).

(** The loop of the shrinking branch. *)
Definition release_pages (n : Z) : M kernel unit :=
  for_loop (Z.to_nat n) 0 (λ i,
    b ← gets segbreak; pd ← gets pagedir;
    let upage := wrap32 (pg_round_down b - i * PGSIZE) in
    actual_page ← pagedir_get_page pd upage;
    pagedir_clear_page pd upage ;;
    palloc_free_page actual_page).

(** The last lines: the break moves and the old one is returned. *)
Definition move_break (increment : Z) : M kernel Z :=
  old ← gets segbreak;
  modify (λ s, set_segbreak (wrap32 (segbreak s + increment)) s) ;;
  mret old.

Definition syscall_sbrk (increment : Z) : M kernel Z :=
  b ← gets segbreak;
  if increment =? 0 then mret b else
  let top := wrap32 (b + increment) in
  if 0 <? increment then
    if PHYS_BASE <=? top then mret sbrk_failed else
    if pg_round_up top =? pg_round_up b then move_break increment else
    let num_pages := wrap32 (pg_round_up top - pg_round_up b) / PGSIZE in
    kpages ← palloc_get_multiple (Z.lor PAL_USER PAL_ZERO) num_pages;
    if kpages =? NULL then mret sbrk_failed else
    install_pages num_pages (pg_round_up b) kpages ;;
    move_break increment
  else
    if pg_round_up top =? pg_round_up b then move_break increment else
    let num_pages := wrap32 (Z.quot (int32 (int32 (pg_round_up top - pg_round_up b) * -1)) PGSIZE) in
    release_pages num_pages ;;
    move_break increment.

(** ** Operations outside the kernel pool keep page directories *)

Section transfer.
Context (s s1 : kernel) (pd : Z).
Context (Hok : pagedir_ok s pd) (Hk1 : kernel_ok s1).
Context (Hpool : kernel_pool s1 = kernel_pool s).
Context (Hinit : init_page_dir s1 = init_page_dir s) (Hcr3 : cr3 s1 = cr3 s).
Context (Hword : ∀ p k, used_page s p → 0 ≤ k < 1024 → word s1 (p + 4 * k) = word s (p + 4 * k)).

Lemma transfer_used p : used_page s1 p ↔ used_page s p.
Proof. unfold used_page. by rewrite Hpool. Qed.

Lemma transfer_pde i : 0 ≤ i < 768 → pde_at s1 pd i = pde_at s pd i.
Proof. intros Hi. apply Hword; [apply Hok|lia]. Qed.

Lemma transfer_pt i : 0 ≤ i < 768 → pt_at s1 pd i = pt_at s pd i.
Proof. intros Hi. unfold pt_at. by rewrite transfer_pde. Qed.

Lemma transfer_pte va : user_addr va → pte_of s1 pd va = pte_of s pd va.
Proof.
  intros Hva. pose proof (user_addr_pd va Hva). unfold pte_of.
  rewrite transfer_pde, transfer_pt by done.
  destruct (Z.eqb_spec (pde_at s pd (pd_no va)) 0) as [E|E]; [done|].
  apply Hword; [|apply pt_no_range]. by apply (pdo_pde _ _ Hok).
Qed.

Lemma transfer_ok : pagedir_ok s1 pd.
Proof.
  split; [done| | | | | |].
  - apply transfer_used, Hok.
  - rewrite Hinit. apply Hok.
  - rewrite Hcr3. apply Hok.
  - intros i Hi. rewrite transfer_pde, transfer_pt, transfer_used by done. by apply (pdo_pde _ _ Hok).
  - intros i j Hi Hj. rewrite !transfer_pde, !transfer_pt by done. by apply (pdo_inj _ _ Hok).
  - intros va Hva. rewrite transfer_pte by done. by apply (pdo_pte _ _ Hok).
Qed.

Lemma transfer_translate va : user_addr va → translate s1 pd va = translate s pd va.
Proof. intros Hva. by rewrite !translate_frame, transfer_pte. Qed.
End transfer.

(** Filling pages of the user pool does not touch the pages in use of the
    kernel pool. *)
Lemma word_fill_user s s1 i cnt w p k :
  kernel_ok s → used_page s p → 0 ≤ k < 1024 →
  0 ≤ i → i + cnt ≤ bit_cnt (used_map (user_pool s)) → 0 ≤ cnt →
  mem s1 = fill_pages (Z.to_nat cnt) (pg_no (pool_page (user_pool s) i)) w (mem s) →
  word s1 (p + 4 * k) = word s (p + 4 * k).
Proof.
  intros Hs Hp Hk Hi Hn Hc Hm. unfold word. rewrite Hm, lookup_fill_pages.
  destruct (used_page_nonnull s p Hs Hp) as [_ Ha]. destruct (word_addr p k Ha Hk) as [-> _].
  rewrite decide_False; [done|]. destruct Hp as (j & Hj & -> & _).
  pose proof (kok_disjoint _ Hs) as Hd.
  pose proof (pool_page_no _ _ j (kok_pool _ Hs false)) as [Ej _].
  pose proof (pool_page_no _ _ i (kok_pool _ Hs true)) as [Ei _].
  pose proof (kok_pool _ Hs true) as [_ [_ Ha1] _]. pose proof (kok_pool _ Hs false) as [_ [_ Ha2] _].
  cbn [get_pool] in *. rewrite Ej, Ei, !pg_no_div, Z2Nat.id by done.
  unfold aligned in *. change PGSIZE with 4096 in Hd. div_lia.
Qed.

(** The page directory after pages of the user pool were handed out. *)
Lemma allocated_user s s1 pd i cnt :
  pagedir_ok s pd → allocated true true i cnt s s1 → 0 ≤ i → 0 ≤ cnt →
  i + cnt ≤ bit_cnt (used_map (user_pool s)) →
  pagedir_ok s1 pd ∧ ∀ va, user_addr va → translate s1 pd va = translate s pd va.
Proof.
  intros Hok Hal Hi Hc Hn. pose proof (allocated_ok _ _ _ _ _ _ (pdo_kernel _ _ Hok) Hal) as Hk1.
  destruct Hal as (b & _ & _ & _ & Es1).
  assert (Hw : ∀ p k, used_page s p → 0 ≤ k < 1024 → word s1 (p + 4 * k) = word s (p + 4 * k)).
  { intros p k Hp Hk. eapply word_fill_user; [apply Hok|done|done|exact Hi|exact Hn|done|by rewrite Es1]. }
  split; [apply (transfer_ok s); done || by rewrite Es1|].
  intros va Hva. apply (transfer_translate s); done || by rewrite Es1.
Qed.

(** ... and after one was given back. *)
Lemma released_user s s1 pd i :
  pagedir_ok s pd → released true i 1 s s1 → 0 ≤ i < bit_cnt (used_map (user_pool s)) →
  pagedir_ok s1 pd ∧ ∀ va, user_addr va → translate s1 pd va = translate s pd va.
Proof.
  intros Hok Hrel Hi. pose proof (released_ok _ _ _ _ _ (pdo_kernel _ _ Hok) Hrel) as Hk1.
  destruct Hrel as (b & _ & _ & _ & Es1).
  assert (Hw : ∀ p k, used_page s p → 0 ≤ k < 1024 → word s1 (p + 4 * k) = word s (p + 4 * k)).
  { intros p k Hp Hk. eapply (word_fill_user s _ i 1); [apply Hok|done|done|lia|lia|lia|by rewrite Es1]. }
  split; [apply (transfer_ok s); done || by rewrite Es1|].
  intros va Hva. apply (transfer_translate s); done || by rewrite Es1.
Qed.

(** ** Growing *)

Definition kernel_full (s : kernel) : Prop := no_group (used_map (kernel_pool s)) 0 1 false.

Lemma kernel_full_frame s s' : vm_frame s s' → kernel_full s → kernel_full s'.
Proof.
  intros Hf Hfull j Hj Hn Hall. rewrite (vmf_cnt _ _ Hf) in Hn. apply (Hfull j Hj Hn).
  intros k Hk. assert (k = j) as -> by lia. specialize (Hall j ltac:(lia)).
  destruct (bit (used_map (kernel_pool s)) j) eqn:E; [|done].
  rewrite (vmf_used _ _ Hf) in Hall by done. done.
Qed.

(** A new page, which was mapped to [old] before: it is mapped to the page that
    was handed out for it, unless it was mapped already, or the kernel has no
    page left for a page table. *)
Definition page_added (old : option Z) (s' : kernel) (pd va kpage : Z) : Prop :=
  match old with
  | Some page => translate s' pd va = Some page
  | None => translate s' pd va = Some kpage ∨ translate s' pd va = None ∧ kernel_full s'
  end.

Definition grown (s : kernel) (pd start kpages k : Z) (s' : kernel) : Prop :=
  pagedir_ok s' pd ∧ vm_frame s s' ∧
  ∀ va, user_addr va →
    if decide (pg_no start ≤ pg_no va < pg_no start + k)
    then page_added (translate s pd va) s' pd va (kpages + PGSIZE * (pg_no va - pg_no start))
    else translate s' pd va = translate s pd va.

Lemma translate_page s pd va va' : pg_no va = pg_no va' → translate s pd va = translate s pd va'.
Proof. intros [E1 E2]%same_page. unfold translate, pte_of. by rewrite E1, E2. Qed.

(** A page of a page directory is in kernel memory. *)
Lemma translate_ge s pd va page : pagedir_ok s pd → user_addr va → translate s pd va = Some page → PHYS_BASE ≤ page.
Proof.
  intros Hok Hva. pose proof (pdo_pte _ _ Hok va Hva). unfold translate. case_match; [done|]. intros [= <-].
  pose proof (proj2 (Z.land_nonneg (pte_of s pd va) PTE_ADDR) ltac:(lia)). lia.
Qed.

Lemma wp_install_page s pd upage kpage :
  pagedir s = pd → pagedir_ok s pd → user_addr upage → aligned upage → ram_page s kpage →
  wp (install_page upage kpage true) (λ _ s',
    pagedir_ok s' pd ∧ vm_frame s s' ∧ page_added (translate s pd upage) s' pd upage kpage ∧
    ∀ va, user_addr va → pg_no va ≠ pg_no upage → translate s' pd va = translate s pd va) s.
Proof.
  intros Hpd Hok Hu Ha Hk. unfold install_page. repeat wp_step. rewrite Hpd.
  apply wp_pagedir_get_page; [done|done|]. destruct (translate s pd upage) as [page|] eqn:Hn; cbn [from_option].
  { pose proof (translate_ge _ _ _ _ Hok Hu Hn) as Hge. rewrite PHYS_BASE_eq in Hge. pose proof (Z.mod_pos_bound upage 4096 ltac:(lia)).
    rewrite (proj2 (Z.eqb_neq _ 0)) by (rewrite pg_ofs_mod; lia). wp_step.
    split; [done|]. split; [apply vm_frame_refl|]. done. }
  cbn [Z.eqb]. eapply wp_mono; [by apply wp_pagedir_set_page; [..|apply translate_None]|].
  intros [] s' H; cbv beta iota in H.
  - split; [apply H|]. split; [apply H|]. split.
    + left. rewrite (translate_written _ _ _ _ _ _ H Hu), decide_True by done.
      by apply (frame_of_user true), Hk.
    + intros va Hva Hne. rewrite (translate_written _ _ _ _ _ _ H Hva).
      by rewrite decide_False by congruence.
  - destruct H as (-> & Hfull & _). split; [done|]. split; [apply vm_frame_refl|].
    split; [by right|done].
Qed.

Lemma page_added_frame old s s' pd va kpage :
  vm_frame s s' → translate s' pd va = translate s pd va →
  page_added old s pd va kpage → page_added old s' pd va kpage.
Proof.
  intros Hf E. destruct old; cbn [page_added]; [congruence|]. intros [H|[H Hfull]]; [left; congruence|right].
  split; [congruence|by eapply kernel_full_frame].
Qed.

Lemma wp_install_pages s pd n start kpages :
  pagedir s = pd → pagedir_ok s pd → 0 ≤ n → 0 ≤ start → aligned start → start + n * PGSIZE ≤ PHYS_BASE →
  (∀ k, 0 ≤ k < n → ram_page s (kpages + PGSIZE * k)) →
  wp (install_pages n start kpages) (λ _ s', grown s pd start kpages n s') s.
Proof.
  intros Hpd Hok Hn Hs Ha He Hpages. unfold install_pages.
  change PGSIZE with 4096 in *. rewrite PHYS_BASE_eq in He.
  eapply wp_mono; [apply (wp_for_loop (λ k s', grown s pd start kpages k s'))|].
  - split; [done|]. split; [apply vm_frame_refl|]. intros va Hva. by rewrite decide_False by lia.
  - intros k s1 Hk (Hok1 & Hf1 & Ht1). rewrite Z2Nat.id in Hk by done.
    pose proof (Hpages k ltac:(lia)) as Hram.
    assert (Hu : user_addr (start + k * 4096)) by (unfold user_addr; rewrite PHYS_BASE_eq; lia).
    assert (Epg : pg_no (start + k * 4096) = pg_no start + k)
      by (rewrite !pg_no_div; unfold aligned in *; div_lia).
    rewrite (wrap32_small (start + _)) by lia. wp_step.
    rewrite wrap32_small by (destruct Hram as [[Hr _] _]; rewrite PHYS_BASE_eq in Hr; lia).
    destruct (vmf_consts _ _ Hf1) as (Er & _ & _ & Ep & _).
    pose proof (Ht1 _ Hu) as Ht. rewrite decide_False in Ht by lia.
    eapply wp_mono.
    + apply (wp_install_page s1 pd); [congruence|done|done|unfold aligned in *; div_lia|].
      unfold ram_page in *. rewrite Er. replace (kpages + k * 4096) with (kpages + 4096 * k) by lia. done.
    + intros ok s2 (Hok2 & Hf2 & Hadd & Hother). wp_step.
      split; [done|]. split; [by eapply vm_frame_trans|]. intros va Hva. specialize (Ht1 va Hva).
      destruct (decide (pg_no va = pg_no start + k)) as [E|E].
      * rewrite decide_True by lia. rewrite E. replace (pg_no start + k - pg_no start) with k by lia.
        replace (kpages + PGSIZE * k) with (kpages + k * 4096) by (change PGSIZE with 4096; lia).
        rewrite Ht in Hadd.
        unfold page_added in *. rewrite (translate_page s2 pd va (start + k * 4096)), (translate_page s pd va (start + k * 4096)) by lia. done.
      * rewrite (Hother va Hva) by lia.
        destruct (decide (pg_no start ≤ pg_no va < pg_no start + k)).
        -- rewrite decide_True by lia. eapply page_added_frame; [done|apply Hother; [done|lia]|done].
        -- by rewrite decide_False by lia.
  - intros [] s' H. by rewrite Z.add_0_l, Z2Nat.id in H by done.
Qed.

(** ** Shrinking *)

(** The page [k] pages below the one that holds the break. *)
Definition heap_page (b k : Z) : Z := pg_round_down b - k * PGSIZE.

(** The top [n] pages of the heap are mapped to the pages [f 0], ..., of the
    user pool, all different and in use. *)
Record heap_top (s : kernel) (pd n : Z) (f : Z → Z) : Prop := {
  ht_map k : 0 ≤ k < n →
    translate s pd (heap_page (segbreak s) k) = Some (pool_page (user_pool s) (f k));
  ht_used k : 0 ≤ k < n → 0 ≤ f k < bit_cnt (used_map (user_pool s)) ∧
    bit (used_map (user_pool s)) (f k) = true;
  ht_inj k l : 0 ≤ k < n → 0 ≤ l < n → f k = f l → k = l
}.

(** The top [k] of them are unmapped and free. *)
Definition shrunk (s : kernel) (pd : Z) (f : Z → Z) (k : Z) (s' : kernel) : Prop :=
  pagedir_ok s' pd ∧ pagedir s' = pagedir s ∧ segbreak s' = segbreak s ∧
  base (user_pool s') = base (user_pool s) ∧
  bit_cnt (used_map (user_pool s')) = bit_cnt (used_map (user_pool s)) ∧
  (∀ va, user_addr va → translate s' pd va =
     if decide (pg_no (pg_round_down (segbreak s)) - k < pg_no va ≤ pg_no (pg_round_down (segbreak s)))
     then None else translate s pd va) ∧
  (∀ l, 0 ≤ l < k → bit (used_map (user_pool s')) (f l) = false) ∧
  (∀ j, 0 ≤ j → (∀ l, 0 ≤ l < k → f l ≠ j) →
     bit (used_map (user_pool s')) j = bit (used_map (user_pool s)) j).

Lemma heap_page_facts b k n : 0 ≤ b < PHYS_BASE → 0 ≤ k < n → n * PGSIZE ≤ pg_round_down b + PGSIZE →
  user_addr (heap_page b k) ∧ aligned (heap_page b k) ∧
  pg_no (heap_page b k) = pg_no (pg_round_down b) - k ∧ wrap32 (heap_page b k) = heap_page b k.
Proof.
  unfold heap_page, user_addr, aligned. rewrite PHYS_BASE_eq. change PGSIZE with 4096.
  intros Hb Hk Hn. rewrite pg_round_down_eq in * by lia. rewrite !pg_no_div.
  assert (0 ≤ b - b mod 4096 - k * 4096 ≤ b) by div_lia.
  split; [lia|]. split; [div_lia|]. split; [div_lia|]. apply wrap32_small. lia.
Qed.

(** One round of the loop: the page is unmapped and given back. *)
Lemma wp_release_round s pd upage i :
  pagedir_ok s pd → user_addr upage → aligned upage →
  translate s pd upage = Some (pool_page (user_pool s) i) →
  0 ≤ i < bit_cnt (used_map (user_pool s)) → bit (used_map (user_pool s)) i = true →
  wp (actual_page ← pagedir_get_page pd upage;
      pagedir_clear_page pd upage ;; palloc_free_page actual_page) (λ _ s',
    pagedir_ok s' pd ∧ pagedir s' = pagedir s ∧ segbreak s' = segbreak s ∧
    base (user_pool s') = base (user_pool s) ∧
    bit_cnt (used_map (user_pool s')) = bit_cnt (used_map (user_pool s)) ∧
    (∀ va, user_addr va → translate s' pd va =
       if decide (pg_no va = pg_no upage) then None else translate s pd va) ∧
    (∀ j, 0 ≤ j → bit (used_map (user_pool s')) j =
       if decide (j = i) then false else bit (used_map (user_pool s)) j)) s.
Proof.
  intros Hok Hu Ha Ht Hi Hb. wp_step. apply wp_pagedir_get_page; [done|done|]. rewrite Ht.
  cbn [from_option]. replace (pg_ofs upage) with 0 by (rewrite pg_ofs_mod; by rewrite Ha).
  rewrite Z.add_0_r. wp_step. eapply wp_mono; [by apply wp_pagedir_clear_page|].
  intros [] s1 [Hw|[_ Hn]]; [|apply translate_None in Hn; congruence].
  destruct Hw as (Hok1 & Hf1 & Hpte). pose proof (vmf_user _ _ Hf1) as Eu.
  assert (Ht1 : ∀ va, user_addr va → translate s1 pd va =
    if decide (pg_no va = pg_no upage) then None else translate s pd va).
  { intros va Hva. rewrite (translate_written _ _ _ _ _ _ (conj Hok1 (conj Hf1 Hpte)) Hva).
    destruct (decide (pg_no upage = pg_no va)); [|by rewrite decide_False by congruence].
    rewrite decide_True by congruence. unfold frame_of.
    rewrite testbit_clear; [by rewrite andb_false_r|by apply (pdo_pte _ _ Hok)|lia|lia]. }
  rewrite <-Eu in *. eapply wp_mono.
  { apply (wp_palloc_free_multiple true i 1 s1); [apply Hok1|lia|lia|cbn [get_pool]; lia|].
    intros j Hj. by replace j with i by lia. }
  intros [] s2 Hrel. destruct (released_user s1 s2 pd i Hok1 Hrel ltac:(lia)) as [Hok2 Ht2].
  destruct Hrel as (b & _ & [Hsz _] & Hbits & ->). destruct (vmf_consts _ _ Hf1) as (_ & _ & _ & Ep & Es).
  split; [done|]. split; [done|]. split; [done|]. split; [done|]. split; [done|]. split.
  - intros va Hva. rewrite Ht2 by done. by apply Ht1.
  - intros j Hj. cbn [user_pool set_mem set_pool used_map]. rewrite Hbits by done. cbn [get_pool].
    apply decide_ext. lia.
Qed.

Lemma wp_release_pages s pd n f :
  pagedir s = pd → pagedir_ok s pd → 0 ≤ segbreak s < PHYS_BASE → 0 ≤ n →
  n * PGSIZE ≤ pg_round_down (segbreak s) + PGSIZE → heap_top s pd n f →
  wp (release_pages n) (λ _ s', shrunk s pd f n s') s.
Proof.
  intros Hpd Hok Hb Hn Hroom Htop. unfold release_pages.
  eapply wp_mono; [apply (wp_for_loop (λ k s', shrunk s pd f k s'))|].
  - split; [done|]. do 4 (split; [done|]). split; [|split; [lia|done]].
    intros va Hva. by rewrite decide_False by lia.
  - intros k s1 Hk (Hok1 & Ep & Es & Eb & Ec & Ht & Hfree & Hbits). rewrite Z2Nat.id in Hk by done.
    destruct (heap_page_facts (segbreak s) k n Hb ltac:(lia) Hroom) as (Hu & Ha & Hno & Hwrap).
    destruct (ht_used _ _ _ _ Htop k ltac:(lia)) as [Hfr Hfb].
    do 4 wp_step. cbv zeta. rewrite Es, Ep, Hpd. fold (heap_page (segbreak s) k). rewrite Hwrap.
    eapply wp_mono.
    + apply (wp_release_round s1 pd _ (f k)); [done|done|done| |by rewrite Ec|].
      * rewrite Ht, decide_False by (done || lia). rewrite (ht_map _ _ _ _ Htop) by lia.
        unfold pool_page. by rewrite Eb.
      * rewrite Hbits; [done|lia|]. intros l Hl E. pose proof (ht_inj _ _ _ _ Htop l k ltac:(lia) ltac:(lia) E). lia.
    + intros [] s2 (Hok2 & Ep2 & Es2 & Eb2 & Ec2 & Ht2 & Hb2).
      split; [done|]. do 4 (split; [congruence|]). split; [|split].
      * intros va Hva. rewrite Ht2, Ht by done. rewrite Hno.
        repeat case_decide; try done; lia.
      * intros l Hl. destruct (ht_used _ _ _ _ Htop l ltac:(lia)) as [? _]. rewrite Hb2 by lia.
        case_decide as E; [done|]. apply Hfree. destruct (decide (l = k)) as [->|]; [done|lia].
      * intros j Hj Hl. rewrite Hb2 by done. rewrite decide_False by (intros ->; by apply (Hl k); [lia|]).
        apply Hbits; [done|]. intros l Hl'. apply Hl. lia.
  - intros [] s' H. by rewrite Z.add_0_l, Z2Nat.id in H by done.
Qed.

(** ** The system call *)

(** The pages that appear or disappear when the break moves between [lo] and
    [hi]. *)
Definition pages_between (lo hi : Z) : Z := (pg_round_up hi - pg_round_up lo) / PGSIZE.

Lemma pages_between_facts lo hi : 0 ≤ lo ≤ hi → hi < PHYS_BASE →
  0 ≤ pages_between lo hi ∧
  pg_round_up hi = pg_round_up lo + pages_between lo hi * PGSIZE ∧
  0 ≤ pg_round_up lo ∧ aligned (pg_round_up lo) ∧ pg_round_up hi ≤ PHYS_BASE ∧ lo ≤ pg_round_up lo.
Proof.
  intros Hlo Hhi. unfold pages_between, aligned. change PGSIZE with 4096.
  rewrite PHYS_BASE_eq in *. rewrite !pg_round_up_eq by lia.
  assert (0 ≤ (lo + 4095) / 4096 ≤ (hi + 4095) / 4096) by (split; [|apply Z.div_le_mono]; div_lia).
  assert (E : ∀ x, x + 4095 - (x + 4095) mod 4096 = (x + 4095) / 4096 * 4096) by (intros; div_lia).
  rewrite !E, <-Z.mul_sub_distr_r, Z.div_mul by lia. split; [lia|]. split; [lia|].
  split; [lia|]. split; [apply Z.mod_mul; lia|]. div_lia.
Qed.

Lemma move_break_run s inc : move_break inc s = Ok (segbreak s, set_segbreak (wrap32 (segbreak s + inc)) s).
Proof. done. Qed.

Lemma pagedir_ok_set_segbreak s pd a : pagedir_ok s pd → pagedir_ok (set_segbreak a s) pd.
Proof. intros [[] ? ? ? ? ? ?]. by split. Qed.

(** What a successful growing call leaves behind: the first run of free pages
    of the user pool is in use and zeroed, and the new pages of the heap are
    mapped to it in order; all other mappings are as before.  A new page that
    was mapped before keeps its mapping, and one that needs a page table when
    the kernel pool has no free page stays unmapped. *)
Definition heap_grown (s : kernel) (inc i : Z) (s' : kernel) : Prop :=
  let first := pg_round_up (segbreak s) in
  let n := pages_between (segbreak s) (segbreak s + inc) in
  first_group (used_map (user_pool s)) 0 n false i ∧
  pagedir_ok s' (pagedir s) ∧ segbreak s' = segbreak s + inc ∧
  (∀ va, user_addr va →
     if decide (pg_no first ≤ pg_no va < pg_no first + n)
     then page_added (translate s (pagedir s) va) s' (pagedir s) va (pool_page (user_pool s) (i + (pg_no va - pg_no first)))
     else translate s' (pagedir s) va = translate s (pagedir s) va) ∧
  (∀ k, 0 ≤ k < n →
     mem s' !! pg_no (pool_page (user_pool s) (i + k)) = Some (replicate page_words 0)) ∧
  (∀ j, 0 ≤ j → bit (used_map (user_pool s')) j = if decide (i ≤ j < i + n) then true else bit (used_map (user_pool s)) j).

Lemma user_page_not_kernel s i j : kernel_ok s →
  0 ≤ i → 0 ≤ j < bit_cnt (used_map (kernel_pool s)) →
  pg_no (pool_page (user_pool s) i) ≠ pg_no (pool_page (kernel_pool s) j).
Proof.
  intros Hs Hi Hj. pose proof (kok_disjoint _ Hs) as Hd.
  pose proof (pool_page_no _ _ j (kok_pool _ Hs false)) as [Ej _].
  pose proof (pool_page_no _ _ i (kok_pool _ Hs true)) as [Ei _].
  pose proof (kok_pool _ Hs true) as [_ [_ Ha1] _]. pose proof (kok_pool _ Hs false) as [_ [_ Ha2] _].
  cbn [get_pool] in *. rewrite Ej, Ei, !pg_no_div. unfold aligned in *.
  change PGSIZE with 4096 in Hd. div_lia.
Qed.

Lemma wp_sbrk_install s inc i s1 :
  let b := segbreak s in
  let n := pages_between b (b + inc) in
  pagedir_ok s (pagedir s) → 0 ≤ b → 0 < inc → b + inc < PHYS_BASE → 0 < n →
  first_group (used_map (user_pool s)) 0 n false i → allocated true true i n s s1 →
  wp (install_pages n (pg_round_up b) (pool_page (user_pool s) i) ;; move_break inc)
    (λ r s', r = b ∧ heap_grown s inc i s') s1.
Proof.
  intros b n Hok Hb Hinc Htop Hn Hg Hal. pose proof Hg as (Hi & Hin & _ & _).
  destruct (pages_between_facts b (b + inc)) as (_ & Eup & Hup & Haup & Hend & _); [lia|done|].
  fold n in Eup. destruct (allocated_user s s1 (pagedir s) i n Hok Hal) as [Hok1 Ht1]; [lia..|].
  assert (E1 : pagedir s1 = pagedir s ∧ segbreak s1 = b ∧ init_ram_pages s1 = init_ram_pages s ∧
    kernel_pool s1 = kernel_pool s) by (destruct Hal as (? & _ & _ & _ & ->); done).
  destruct E1 as (Ep & Es & Er & Ek). pose proof (kok_ram _ (pdo_kernel _ _ Hok)) as Hram.
  wp_step. eapply wp_mono.
  - apply (wp_install_pages s1 (pagedir s)); [done|done|lia|done|done|lia|].
    intros k Hk.
    replace (pool_page (user_pool s) i + PGSIZE * k) with (pool_page (user_pool s) (i + k))
      by (unfold pool_page; change PGSIZE with 4096; lia).
    unfold ram_page. rewrite Er.
    apply (pool_page_kernel _ _ (i + k) (kok_pool _ (pdo_kernel _ _ Hok) true)); cbn [get_pool]; lia.
  - intros [] s2 (Hok2 & Hf2 & Ht2). unfold wp. rewrite move_break_run.
    destruct (vmf_consts _ _ Hf2) as (_ & _ & _ & _ & Es2). split; [congruence|].
    split; [done|]. split; [by apply pagedir_ok_set_segbreak|].
    split; [cbn; rewrite Es2, Es; rewrite PHYS_BASE_eq in *; by rewrite wrap32_small by lia|].
    split; [|split].
    + intros va Hva. specialize (Ht2 va Hva). cbv zeta. fold b. fold n.
      rewrite Ht1 in Ht2 by done. case_decide; [|exact Ht2].
      replace (pool_page (user_pool s) (i + _)) with
        (pool_page (user_pool s) i + PGSIZE * (pg_no va - pg_no (pg_round_up b)))
        by (unfold pool_page; change PGSIZE with 4096; lia). exact Ht2.
    + intros k Hk. cbn [mem set_segbreak]. rewrite (vmf_mem _ _ Hf2).
      * destruct Hal as (b' & _ & _ & _ & ->). cbn [mem set_mem set_pool].
        rewrite lookup_fill_pages, decide_True; [done|].
        pose proof (pool_page_no _ _ i (kok_pool _ (pdo_kernel _ _ Hok) true)) as [Ei _].
        pose proof (pool_page_no _ _ (i + k) (kok_pool _ (pdo_kernel _ _ Hok) true)) as [Eik _].
        cbn [get_pool] in *. rewrite Ei, Eik. cbv zeta in Hk. fold b in Hk. fold n in Hk. lia.
      * intros j Hj. rewrite Ek in *. apply user_page_not_kernel; [apply Hok|lia|done].
    + intros j Hj. cbn [user_pool set_segbreak]. rewrite (vmf_user _ _ Hf2). destruct Hal as (b' & _ & _ & Hb' & ->). by apply Hb'.
Qed.

(** The growing branch. *)
Lemma sbrk_positive_run s inc : 0 < inc →
  syscall_sbrk inc s =
    (let top := wrap32 (segbreak s + inc) in
     if PHYS_BASE <=? top then mret sbrk_failed else
     if pg_round_up top =? pg_round_up (segbreak s) then move_break inc else
     let num_pages := wrap32 (pg_round_up top - pg_round_up (segbreak s)) / PGSIZE in
     kpages ← palloc_get_multiple (Z.lor PAL_USER PAL_ZERO) num_pages;
     if kpages =? NULL then mret sbrk_failed else
     install_pages num_pages (pg_round_up (segbreak s)) kpages ;; move_break inc) s.
Proof.
  intros Hinc. unfold syscall_sbrk, mbind at 1, M_bind at 1, gets.
  rewrite (proj2 (Z.eqb_neq inc 0)), (proj2 (Z.ltb_lt 0 inc)) by lia. done.
Qed.

(** An increment beyond the end of the address space asks for more pages than
    there are. *)
Lemma sbrk_overflow s inc : pagedir_ok s (pagedir s) → 0 ≤ segbreak s < PHYS_BASE → 0 < inc < 2 ^ 31 → 2 ^ 32 ≤ segbreak s + inc →
  syscall_sbrk inc s = Ok (sbrk_failed, s).
Proof.
  intros Hok Hb Hinc Hov. rewrite sbrk_positive_run by lia. cbv zeta. set (b := segbreak s) in *. rewrite PHYS_BASE_eq in *.
  assert (Ew : wrap32 (b + inc) = b + inc - 2 ^ 32).
  { unfold wrap32. symmetry. apply (Z.mod_unique_pos _ _ 1); lia. }
  rewrite Ew, (proj2 (Z.leb_gt _ _)) by lia. rewrite !pg_round_up_eq by lia.
  rewrite (proj2 (Z.eqb_neq _ _)) by div_lia.
  set (d := b + inc - 2 ^ 32 + 4095 - _ - _). assert (Hd : wrap32 d / PGSIZE = (d + 2 ^ 32) / 4096 ∧ 2 ^ 18 - 1 ≤ (d + 2 ^ 32) / 4096).
  { unfold d, wrap32. change PGSIZE with 4096. rewrite <-(Z.mod_unique_pos _ (2 ^ 32) (-1) (b + inc - 2 ^ 32 + 4095 - (b + inc - 2 ^ 32 + 4095) mod 4096 - (b + 4095 - (b + 4095) mod 4096) + 2 ^ 32)) by div_lia.
    split; [done|div_lia]. }
  destruct Hd as [-> Hd]. set (n := (d + 2 ^ 32) / 4096) in *. clearbody n.
  assert (Hcnt : bit_cnt (used_map (user_pool s)) < 2 ^ 18 - 1).
  { pose proof (kok_pool _ (pdo_kernel _ _ Hok) true) as [_ _ He]. pose proof (kok_pool _ (pdo_kernel _ _ Hok) false) as [_ [Hk _] _]. cbn [get_pool] in *.
    pose proof (kok_disjoint _ (pdo_kernel _ _ Hok)). pose proof (kok_ram _ (pdo_kernel _ _ Hok)). destruct (pdo_pd _ _ Hok) as (i & Hi & _).
    change PGSIZE with 4096 in *. rewrite PHYS_BASE_eq in *. lia. }
  enough (Hw : wp (kpages ← palloc_get_multiple (Z.lor PAL_USER PAL_ZERO) n;
     if kpages =? NULL then mret sbrk_failed else
     install_pages n (b + 4095 - (b + 4095) mod 4096) kpages ;; move_break inc) (λ r s', r = sbrk_failed ∧ s' = s) s).
  { by apply wp_Ok in Hw as (r & s' & -> & -> & ->). }
  wp_step. apply wp_palloc_get_multiple; [apply Hok|lia|]. change (flag (Z.lor PAL_USER PAL_ZERO) PAL_USER) with true. cbn [get_pool]. split.
  - intros _. split; [done|]. cbn [Z.eqb]. by wp_step.
  - intros i s1 (H0 & H1 & _) _. lia.
Qed.

(** C20: [sbrk] with a positive increment.  A break that would reach the kernel,
    or the end of the address space, is refused with nothing changed.
    Otherwise, within the last page only the break moves; if the user pool has
    no run of enough free pages the call fails and nothing changes; else it
    returns the old break, moves the break, takes exactly the first run of free
    pages, which are zeroed, and maps the new pages to them in order, except
    that a page that was mapped before keeps its mapping, and a page that needs
    a page table stays unmapped when the kernel pool is used up; all other
    mappings stay. *)
Theorem sbrk_grow_correct s inc :
  let b := segbreak s in
  let n := pages_between b (b + inc) in
  pagedir_ok s (pagedir s) → 0 ≤ b < PHYS_BASE → 0 < inc < 2 ^ 31 →
  (PHYS_BASE ≤ b + inc → syscall_sbrk inc s = Ok (sbrk_failed, s)) ∧
  (b + inc < PHYS_BASE →
   (n = 0 ∧ syscall_sbrk inc s = Ok (b, set_segbreak (b + inc) s)) ∨
   (0 < n ∧ no_group (used_map (user_pool s)) 0 n false ∧ syscall_sbrk inc s = Ok (sbrk_failed, s)) ∨
   (0 < n ∧ ∃ i s', syscall_sbrk inc s = Ok (b, s') ∧ heap_grown s inc i s')).
Proof.
  intros b n Hok Hb Hinc.
  destruct (decide (2 ^ 32 ≤ b + inc)) as [Hov|Hov].
  { split; [|rewrite PHYS_BASE_eq; lia]. intros _. by apply sbrk_overflow. }
  assert (Ew : wrap32 (b + inc) = b + inc) by (apply wrap32_small; lia).
  pose proof (sbrk_positive_run s inc ltac:(lia)) as Hrun. fold b in Hrun. cbv zeta in Hrun. rewrite Ew in Hrun.
  rewrite Hrun. split; [intros; by rewrite (proj2 (Z.leb_le _ _))|].
  intros Htop. rewrite (proj2 (Z.leb_gt _ _)) by done.
  destruct (pages_between_facts b (b + inc)) as (Hn & Eup & Hup & _ & Hend & _); [lia|done|].
  fold n in Hn, Eup. change PGSIZE with 4096 in Eup.
  destruct (Z.eqb_spec (pg_round_up (b + inc)) (pg_round_up b)) as [E|E].
  { left. split; [lia|]. rewrite move_break_run. fold b. by rewrite Ew. }
  right. cbv zeta. rewrite wrap32_small by (rewrite PHYS_BASE_eq in *; lia). fold n.
  change ((pg_round_up (b + inc) - pg_round_up b) / PGSIZE) with n.
  assert (Hpos : 0 < n) by lia.
  assert (Hw : wp (kpages ← palloc_get_multiple (Z.lor PAL_USER PAL_ZERO) n;
     if kpages =? NULL then mret sbrk_failed else
     install_pages n (pg_round_up b) kpages ;; move_break inc)
    (λ r s', (r = sbrk_failed ∧ s' = s ∧ no_group (used_map (user_pool s)) 0 n false) ∨
             (r = b ∧ ∃ i, heap_grown s inc i s')) s).
  { wp_step. apply wp_palloc_get_multiple; [apply Hok|done|].
    change (flag (Z.lor PAL_USER PAL_ZERO) PAL_USER) with true.
    change (flag (Z.lor PAL_USER PAL_ZERO) PAL_ZERO) with true. cbn [get_pool]. split.
    - intros Hng. split; [done|]. cbn [Z.eqb]. wp_step. by left.
    - intros i s1 Hg Hal.
      destruct (kernel_ok_group true i n s (pdo_kernel _ _ Hok) Hg Hpos) as (_ & _ & _ & _ & Hnn).
      rewrite (proj2 (Z.eqb_neq _ 0)) by exact Hnn.
      eapply wp_mono; [by apply wp_sbrk_install; try done; lia|].
      intros r s' [-> Hgr]. right. split; [done|by exists i]. }
  apply wp_Ok in Hw as (r & s' & E' & [(-> & -> & Hng)|(-> & i & Hgr)]); [left|right]; [done|].
  split; [done|]. by exists i, s'.
Qed.

Lemma sbrk_negative_run s inc :
  let b := segbreak s in
  0 ≤ b < PHYS_BASE → - 2 ^ 31 + PGSIZE ≤ inc < 0 → 0 ≤ b + inc →
  syscall_sbrk inc s =
  (if pages_between (b + inc) b =? 0 then move_break inc
   else release_pages (pages_between (b + inc) b) ;; move_break inc) s.
Proof.
  intros b Hb Hinc Hnew. unfold syscall_sbrk, mbind at 1, M_bind at 1, gets. fold b.
  rewrite (proj2 (Z.eqb_neq inc 0)), (proj2 (Z.ltb_ge 0 inc)) by lia. cbv zeta.
  destruct (pages_between_facts (b + inc) b) as (Hn & Eup & Hup & _ & Hend & _); [lia|lia|].
  rewrite PHYS_BASE_eq in *. change PGSIZE with 4096 in *. rewrite wrap32_small by lia.
  set (n := pages_between (b + inc) b) in *. rewrite Eup.
  destruct (Z.eqb_spec n 0) as [->|Hne].
  { rewrite (proj2 (Z.eqb_eq _ _)) by lia. done. }
  rewrite (proj2 (Z.eqb_neq _ _)) by lia.
  replace (pg_round_up (b + inc) - (pg_round_up (b + inc) + n * 4096)) with (- (n * 4096)) by lia.
  assert (n * 4096 < 2 ^ 31).
  { unfold n, pages_between in *. rewrite !pg_round_up_eq in * by lia. change PGSIZE with 4096 in *. div_lia. }
  rewrite (signed_small 32 (- (n * 4096))) by lia.
  replace (- (n * 4096) * -1) with (n * 4096) by lia. rewrite signed_small by lia. rewrite Z.quot_mul by lia.
  rewrite wrap32_small by lia. done.
Qed.

(** [sbrk] with a negative increment, when the break is not at a page
    boundary and the pages of the heap down to the new break are mapped to
    different pages of the user pool: it returns the old break, moves the
    break, unmaps exactly the pages that are now wholly above it and gives
    exactly these pages back to the pool. *)
Theorem sbrk_shrink_correct s inc f :
  let b := segbreak s in
  let n := pages_between (b + inc) b in
  pagedir_ok s (pagedir s) → 0 ≤ b < PHYS_BASE → b mod PGSIZE ≠ 0 →
  - 2 ^ 31 + PGSIZE ≤ inc < 0 → 0 ≤ b + inc →
  heap_top s (pagedir s) n f →
  ∃ s', syscall_sbrk inc s = Ok (b, s') ∧ pagedir_ok s' (pagedir s) ∧ segbreak s' = b + inc ∧
    (∀ va, user_addr va → translate s' (pagedir s) va =
       if decide (pg_round_up (b + inc) ≤ va < pg_round_up b) then None
       else translate s (pagedir s) va) ∧
    (∀ k, 0 ≤ k < n → bit (used_map (user_pool s')) (f k) = false) ∧
    (∀ j, 0 ≤ j → (∀ k, 0 ≤ k < n → f k ≠ j) →
       bit (used_map (user_pool s')) j = bit (used_map (user_pool s)) j).
Proof.
  intros b n Hok Hb Hal Hinc Hnew Htop. rewrite sbrk_negative_run by done. fold b. fold n.
  destruct (pages_between_facts (b + inc) b) as (Hn & Eup & Hup & Haup & Hend & _); [lia|lia|].
  fold n in Hn, Eup. change PGSIZE with 4096 in *. rewrite PHYS_BASE_eq in *.
  assert (Ew : wrap32 (b + inc) = b + inc) by (apply wrap32_small; lia).
  assert (Edown : pg_round_up b = pg_round_down b + 4096).
  { rewrite pg_round_up_eq, pg_round_down_eq by lia. div_lia. }
  destruct (Z.eqb_spec n 0) as [E0|E0].
  - rewrite move_break_run. fold b. rewrite Ew. eexists. split; [done|].
    split; [by apply pagedir_ok_set_segbreak|]. split; [done|]. split; [|split; [lia|done]].
    intros va Hva. by rewrite decide_False by lia.
  - assert (Hw : wp (release_pages n) (λ _ s', shrunk s (pagedir s) f n s') s).
    { apply wp_release_pages; [done|done|rewrite PHYS_BASE_eq; fold b; lia|done| |done].
      fold b. change PGSIZE with 4096. lia. }
    apply wp_Ok in Hw as ([] & s1 & E & Hok1 & Ep & Es & _ & _ & Ht & Hfree & Hbits).
    unfold mbind, M_bind. rewrite E, move_break_run, Es. fold b. rewrite Ew.
    eexists. split; [done|]. split; [by apply pagedir_ok_set_segbreak|]. split; [done|].
    split; [|split; [exact Hfree|exact Hbits]]. intros va Hva.
    transitivity (translate s1 (pagedir s) va); [done|]. rewrite Ht by done. fold b.
    apply decide_ext. rewrite !pg_no_div. unfold aligned in Haup.
    rewrite (pg_round_down_eq b) in * by lia. div_lia.
Qed.

(** Clearing a page that is not mapped changes nothing. *)
Lemma pagedir_clear_unmapped s pd upage :
  pagedir_ok s pd → user_addr upage → aligned upage → translate s pd upage = None →
  pagedir_clear_page pd upage s = Ok (tt, s).
Proof.
  intros Hok Hva Ha Hn%translate_None.
  assert (Hw : wp (pagedir_clear_page pd upage) (λ _ s', s' = s) s).
  { unfold pagedir_clear_page. repeat wp_step.
    { by rewrite pg_ofs_mod, Ha. } { unfold is_user_vaddr, user_addr in *. lia. }
    apply (wp_with_entry s pd upage tt); [done|done|done|]. intros _.
    change PTE_P with (2 ^ 0). rewrite land_pow2_zero, Hn by lia. cbn [negb]. by wp_step. }
  by apply wp_Ok in Hw as ([] & s' & E & ->).
Qed.

(** At a page boundary [sbrk (-PGSIZE)] looks for the page above the break
    instead of the one below it: it returns the old break and moves the
    break, but unmaps and frees nothing, so that the process keeps a page
    above the end of its heap and the next growth of the heap does not get a
    fresh page there. *)
Theorem sbrk_shrink_aligned_leaks s :
  let b := segbreak s in
  pagedir_ok s (pagedir s) → PGSIZE ≤ b < PHYS_BASE → b mod PGSIZE = 0 →
  translate s (pagedir s) b = None →
  syscall_sbrk (- PGSIZE) s = Ok (b, set_segbreak (b - PGSIZE) s).
Proof.
  intros b Hok Hb Hal Hnone. change PGSIZE with 4096 in *. change (Z.opp 4096) with (-4096).
  rewrite PHYS_BASE_eq in *.
  rewrite sbrk_negative_run by (fold b; rewrite ?PHYS_BASE_eq; change PGSIZE with 4096; lia). fold b.
  replace (pages_between (b + -4096) b) with 1.
  2: { unfold pages_between. rewrite !pg_round_up_eq by lia. change PGSIZE with 4096. div_lia. }
  assert (Hu : user_addr b) by (unfold user_addr; rewrite PHYS_BASE_eq; lia).
  assert (Edown : pg_round_down b = b) by (rewrite pg_round_down_eq by lia; lia).
  assert (Hrel : wp (release_pages 1) (λ _ s', s' = s) s).
  { unfold release_pages. change (Z.to_nat 1) with 1%nat. cbn [for_loop].
    do 5 wp_step. fold b. rewrite Z.mul_0_l, Z.sub_0_r, Edown, wrap32_small by lia.
    wp_step. apply wp_pagedir_get_page; [done|done|]. rewrite Hnone. cbn [from_option].
    wp_step. unfold wp at 1. rewrite pagedir_clear_unmapped by done. done. }
  apply wp_Ok in Hrel as ([] & s1 & E & ->). change (1 =? 0) with false. cbv iota. unfold mbind, M_bind.
  rewrite E, move_break_run.
  fold b. rewrite wrap32_small by lia. done.
Qed.

(** ** Examples *)

(** The machine of [example_kernel] with the break inside the page after the
    code segment. *)
Definition example_process : kernel := set_segbreak 0x8049100 example_kernel.

Lemma example_process_ok : pagedir_ok example_process (pagedir example_process).
Proof. apply pagedir_ok_set_segbreak, example_pagedir_ok. Qed.

Lemma example_process_unmapped va :
  user_addr va → translate example_process (pagedir example_process) va = None.
Proof.
  intros Hva. transitivity (translate example_kernel 0xc0102000 va); [reflexivity|].
  rewrite translate_frame, example_pte by done. reflexivity.
Qed.

(** Growing by one page takes the first page of the user pool. *)
Lemma sbrk_grow_correct_witness :
  ∃ i s', syscall_sbrk 4096 example_process = Ok (0x8049100, s') ∧
    heap_grown example_process 4096 i s'.
Proof.
  assert (Hn : pages_between 0x8049100 (0x8049100 + 4096) = 1) by reflexivity.
  destruct (sbrk_grow_correct example_process 4096 example_process_ok) as [_ H];
    [cbn [segbreak example_process set_segbreak]; rewrite ?PHYS_BASE_eq; lia..|].
  cbn [segbreak example_process set_segbreak] in H. rewrite Hn in H.
  destruct H as [[H _]|[(_ & Hno & _)|(_ & i & s' & E & Hg)]].
  - rewrite PHYS_BASE_eq. lia.
  - discriminate H.
  - exfalso. apply (Hno 0); [lia|vm_compute; discriminate|].
    intros j Hj. replace j with 0 by lia. reflexivity.
  - exists i, s'. split; [exact E|exact Hg].
Defined.

(** The same machine with the first page of the user pool in use. *)
Definition example_heap : kernel :=
  set_pool true (mk_pool (mk_bitmap 2 [1]) 0xc012a000) example_process.

Lemma example_heap_ok : pagedir_ok example_heap (pagedir example_process).
Proof.
  assert (Hk : kernel_ok example_heap).
  { apply (kernel_ok_set_pool true (mk_bitmap 2 [1]) example_process);
      [apply example_process_ok|split; [cbn; lia|cbn; unfold ELEM_BITS; lia|]|by split].
    repeat (apply Forall_cons_2; [lia|]). apply Forall_nil_2. }
  apply (transfer_ok example_process); [apply example_process_ok|exact Hk|reflexivity..].
Qed.

(** After mapping that page at the top of the heap, [sbrk (-4096)] gives it
    back. *)
Lemma sbrk_shrink_correct_witness :
  ∃ s0 s', pagedir_set_page 0xc0102000 0x8049000 0xc012a000 true example_heap = Ok (true, s0) ∧
    syscall_sbrk (-4096) s0 = Ok (0x8049100, s') ∧ bit (used_map (user_pool s')) 0 = false.
Proof.
  assert (Hu : user_addr 0x8049000) by (unfold user_addr; rewrite PHYS_BASE_eq; lia).
  assert (Hpte : pte_of example_heap 0xc0102000 0x8049000 = 0).
  { transitivity (pte_of example_kernel 0xc0102000 0x8049000); [reflexivity|by apply example_pte]. }
  pose proof (wp_pagedir_set_page example_heap 0xc0102000 0x8049000 0xc012a000 true
    example_heap_ok Hu eq_refl example_ram_page) as Hw. rewrite Hpte in Hw. specialize (Hw (Z.bits_0 0)).
  destruct (proj1 (wp_Ok _ _ _) Hw) as (ok & s0 & E & H). exists s0. destruct ok.
  - destruct (vmf_consts _ _ (proj1 (proj2 H))) as (_ & _ & _ & Ep & Es).
    pose proof (vmf_user _ _ (proj1 (proj2 H))) as Eu.
    change (segbreak s0 = 0x8049100) in Es. change (pagedir s0 = 0xc0102000) in Ep.
    assert (Hn : pages_between (segbreak s0 + -4096) (segbreak s0) = 1) by (rewrite Es; reflexivity).
    destruct (sbrk_shrink_correct s0 (-4096) (λ _, 0)) as (s' & E' & _ & _ & _ & Hb & _).
    + rewrite Ep. apply H.
    + rewrite Es, PHYS_BASE_eq. lia.
    + rewrite Es. discriminate.
    + change PGSIZE with 4096. lia.
    + rewrite Es. lia.
    + rewrite Hn. split.
      * intros k Hk. replace k with 0 by lia. rewrite Es, Eu, Ep.
        rewrite (translate_written _ _ _ _ _ _ H) by exact Hu. reflexivity.
      * intros k Hk. rewrite Eu. split; [cbn; lia|reflexivity].
      * intros k l Hk Hl _. lia.
    + exists s'. split; [exact E|]. rewrite Es in E'. split; [exact E'|].
      apply (Hb 0). rewrite Hn. lia.
  - exfalso. destruct H as (_ & Hng & _). apply (Hng 3); [lia|cbn; lia|].
    intros j Hj. replace j with 3 by lia. reflexivity.
Defined.

Lemma sbrk_shrink_aligned_leaks_witness :
  syscall_sbrk (- PGSIZE) (set_segbreak 0x804a000 example_heap) =
  Ok (0x804a000, set_segbreak 0x8049000 example_heap).
Proof.
  apply (sbrk_shrink_aligned_leaks (set_segbreak 0x804a000 example_heap)).
  - apply pagedir_ok_set_segbreak, example_heap_ok.
  - rewrite PHYS_BASE_eq. vm_compute. by split.
  - reflexivity.
  - transitivity (translate example_process (pagedir example_process) 0x804a000); [reflexivity|].
    apply example_process_unmapped. unfold user_addr. rewrite PHYS_BASE_eq. lia.
Defined.
