(* ===== verification/Thread.v ===== *)
(** * Threads and synchronization ([threads/thread.c], [threads/synch.c])

    The machine has one processor.  Code that runs with interrupts off is one
    step; between steps the timer may preempt the running thread.  A
    call that can sleep is left unfinished in the middle: what the thread has
    still to do when it runs again is kept in its [frames], the part of its
    kernel stack that matters here.  The [while] loop of [sema_down] is
    re-entered with interrupts off when the thread is resumed; here the retest
    is a step of its own, which allows more interleavings than the code.

    The calls that the build with user programs adds are not here: the page
    directories that [process_activate] and [process_exit] switch and destroy
    are the subject of [Pagedir], and the [sema_up] that ends [process_exit]
    is a call like any other.

    Lists of threads are lists of addresses of [struct thread]; the list
    operations themselves are the subject of [KernelList].  The semaphore of a
    lock is addressed by the lock. *)
From S2P Require Import Prelude.

Inductive thread_status := THREAD_RUNNING | THREAD_READY | THREAD_BLOCKED | THREAD_DYING.

#[export] Instance thread_status_eq_dec : EqDecision thread_status.
Proof. solve_decision. Defined.

(** What is left of a call: the loop of [sema_down], a call of [sema_up], the
    assignment to [lock->holder], a call of [lock_acquire], the loop of
    [cond_broadcast]. *)
Inductive frame :=
  | F_sema_down (sema : Z)
  | F_sema_up (sema : Z)
  | F_set_holder (lock : Z)
  | F_lock_acquire (lock : Z)
  | F_cond_broadcast (cond lock : Z).

#[export] Instance frame_eq_dec : EqDecision frame.
Proof. solve_decision. Defined.

Record thread := mk_thread {
  tid : Z;
  status : thread_status;
  priority : Z;
  is_user : bool;
  frames : list frame
}.

Record semaphore := mk_semaphore { value : Z; waiters : list Z }.

(** [stats] are [idle_ticks], [kernel_ticks], [user_ticks] and the [ticks] of
    the timer; [intr_on] is the interrupt flag of the processor. *)
Record machine := mk_machine {
  threads : gmap Z thread;
  ready_list : list Z;
  all_list : list Z;
  idle_thread : Z;
  initial_thread : Z;
  running : Z;
  thread_ticks : Z;
  stats : Z * Z * Z * Z;
  intr_on : bool;
  intr_context : bool;
  semas : gmap Z semaphore;
  holders : gmap Z Z;
  conds : gmap Z (list Z)
}.

(** ** Changing the parts of the machine *)

Definition set_threads (x : gmap Z thread) (m : machine) : machine :=
  mk_machine x (ready_list m) (all_list m) (idle_thread m) (initial_thread m) (running m)
    (thread_ticks m) (stats m) (intr_on m) (intr_context m) (semas m) (holders m) (conds m).
Definition set_ready_list (x : list Z) (m : machine) : machine :=
  mk_machine (threads m) x (all_list m) (idle_thread m) (initial_thread m) (running m)
    (thread_ticks m) (stats m) (intr_on m) (intr_context m) (semas m) (holders m) (conds m).
Definition set_all_list (x : list Z) (m : machine) : machine :=
  mk_machine (threads m) (ready_list m) x (idle_thread m) (initial_thread m) (running m)
    (thread_ticks m) (stats m) (intr_on m) (intr_context m) (semas m) (holders m) (conds m).
Definition set_running (x : Z) (m : machine) : machine :=
  mk_machine (threads m) (ready_list m) (all_list m) (idle_thread m) (initial_thread m) x
    (thread_ticks m) (stats m) (intr_on m) (intr_context m) (semas m) (holders m) (conds m).
Definition set_ticks (x : Z) (st : Z * Z * Z * Z) (m : machine) : machine :=
  mk_machine (threads m) (ready_list m) (all_list m) (idle_thread m) (initial_thread m) (running m)
    x st (intr_on m) (intr_context m) (semas m) (holders m) (conds m).
Definition set_intr (on ctx : bool) (m : machine) : machine :=
  mk_machine (threads m) (ready_list m) (all_list m) (idle_thread m) (initial_thread m) (running m)
    (thread_ticks m) (stats m) on ctx (semas m) (holders m) (conds m).
Definition set_semas (x : gmap Z semaphore) (m : machine) : machine :=
  mk_machine (threads m) (ready_list m) (all_list m) (idle_thread m) (initial_thread m) (running m)
    (thread_ticks m) (stats m) (intr_on m) (intr_context m) x (holders m) (conds m).
Definition set_holders (x : gmap Z Z) (m : machine) : machine :=
  mk_machine (threads m) (ready_list m) (all_list m) (idle_thread m) (initial_thread m) (running m)
    (thread_ticks m) (stats m) (intr_on m) (intr_context m) (semas m) x (conds m).
Definition set_conds (x : gmap Z (list Z)) (m : machine) : machine :=
  mk_machine (threads m) (ready_list m) (all_list m) (idle_thread m) (initial_thread m) (running m)
    (thread_ticks m) (stats m) (intr_on m) (intr_context m) (semas m) (holders m) x.

(** Dereferencing a pointer to one of the structures. *)
Definition deref {A} (part : machine → gmap Z A) (a : Z) : M machine A := λ m,
  match part m !! a with Some x => Ok (x, m) | None => Err BadAccess end.

Lemma wp_deref {A} (part : machine → gmap Z A) a x (Q : A → machine → Prop) m :
  part m !! a = Some x → Q x m → wp (deref part a) Q m.
Proof. intros E HQ. unfold wp, deref. by rewrite E. Qed.

Definition with_status (st : thread_status) (t : thread) : thread :=
  mk_thread (tid t) st (priority t) (is_user t) (frames t).
Definition with_frames (fs : list frame) (t : thread) : thread :=
  mk_thread (tid t) (status t) (priority t) (is_user t) fs.

Definition put_thread (a : Z) (t : thread) : M machine unit :=
  modify (λ m, set_threads (<[a := t]> (threads m)) m).
Definition put_sema (a : Z) (s : semaphore) : M machine unit :=
  modify (λ m, set_semas (<[a := s]> (semas m)) m).
Definition put_holder (l h : Z) : M machine unit :=
  modify (λ m, set_holders (<[l := h]> (holders m)) m).

(** ** Interrupts *)

Definition intr_disable : M machine bool :=
  old ← gets intr_on; modify (λ m, set_intr false (intr_context m) m) ;; mret old.
Definition intr_enable : M machine bool :=
  old ← gets intr_on; ctx ← gets intr_context; ASSERT (negb ctx) ;;
  modify (λ m, set_intr true (intr_context m) m) ;; mret old.
Definition intr_set_level (level : bool) : M machine unit :=
  (if level then intr_enable else intr_disable) ;; mret tt.

(** A thread that is resumed leaves the function it slept in, which restores
    the level it was called with: interrupts were on. *)
Definition resume : M machine unit := intr_set_level true.

(** ** thread.c *)

Definition TIME_SLICE : Z := 4.
Definition PRI_MIN : Z := 0.
Definition PRI_MAX : Z := 63.

(** A structure that is in the table has the magic number. *)
Definition is_thread (a : Z) : M machine bool :=
  gets (λ m, bool_decide (is_Some (threads m !! a))).

Definition thread_current : M machine Z :=
  a ← gets running;
  ok ← is_thread a; ASSERT ok ;;
  t ← deref threads a;
  ASSERT (bool_decide (status t = THREAD_RUNNING)) ;;
  mret a.

Definition set_status (a : Z) (st : thread_status) : M machine unit :=
  t ← deref threads a; put_thread a (with_status st t).

Definition next_thread_to_run : M machine Z :=
  l ← gets ready_list;
  match l with
  | [] => gets idle_thread
  | a :: l => modify (set_ready_list l) ;; mret a
  end.

Definition thread_schedule_tail (prev : Z) : M machine unit :=
  cur ← gets running;
  on ← gets intr_on; ASSERT (negb on) ;;
  set_status cur THREAD_RUNNING ;;
  modify (λ m, set_ticks 0 (stats m) m) ;;
  if prev =? NULL then mret tt else
  t ← deref threads prev;
  init ← gets initial_thread;
  if bool_decide (status t = THREAD_DYING) && negb (prev =? init) then
    ASSERT (negb (prev =? cur)) ;;
    modify (λ m, set_threads (delete prev (threads m)) m)
  else mret tt.

Definition schedule : M machine unit :=
  cur ← gets running;
  next ← next_thread_to_run;
  on ← gets intr_on; ASSERT (negb on) ;;
  t ← deref threads cur;
  ASSERT (bool_decide (status t ≠ THREAD_RUNNING)) ;;
  ok ← is_thread next; ASSERT ok ;;
  if negb (cur =? next) then modify (set_running next) ;; thread_schedule_tail cur
  else thread_schedule_tail NULL.

Definition thread_block : M machine unit :=
  ctx ← gets intr_context; ASSERT (negb ctx) ;;
  on ← gets intr_on; ASSERT (negb on) ;;
  a ← thread_current;
  set_status a THREAD_BLOCKED ;;
  schedule.

Definition thread_unblock (a : Z) : M machine unit :=
  ok ← is_thread a; ASSERT ok ;;
  old ← intr_disable;
  t ← deref threads a;
  ASSERT (bool_decide (status t = THREAD_BLOCKED)) ;;
  modify (λ m, set_ready_list (ready_list m ++ [a]) m) ;;
  put_thread a (with_status THREAD_READY t) ;;
  intr_set_level old.

Definition thread_yield : M machine unit :=
  cur ← thread_current;
  ctx ← gets intr_context; ASSERT (negb ctx) ;;
  intr_disable ;;
  idle ← gets idle_thread;
  when (negb (cur =? idle)) (modify (λ m, set_ready_list (ready_list m ++ [cur]) m)) ;;
  set_status cur THREAD_READY ;;
  schedule ;;
  resume.

Definition thread_exit : M machine unit :=
  ctx ← gets intr_context; ASSERT (negb ctx) ;;
  intr_disable ;;
  a ← thread_current;
  modify (λ m, set_all_list (filter (λ x, x ≠ a) (all_list m)) m) ;;
  set_status a THREAD_DYING ;;
  schedule ;;
  resume.

(** The result is whether the thread is to yield when the interrupt returns. *)
Definition thread_tick : M machine bool :=
  a ← thread_current;
  t ← deref threads a;
  m ← gets id;
  let '(i, k, u, n) := stats m in
  let st := if a =? idle_thread m then (int64 (i + 1), k, u, n)
            else if is_user t then (i, k, int64 (u + 1), n) else (i, int64 (k + 1), u, n) in
  let n := wrap32 (thread_ticks m + 1) in
  modify (set_ticks n st) ;;
  mret (TIME_SLICE <=? n).

Definition thread_set_priority (p : Z) : M machine unit :=
  a ← thread_current; t ← deref threads a;
  put_thread a (mk_thread (tid t) (status t) p (is_user t) (frames t)).
Definition thread_get_priority : M machine Z :=
  a ← thread_current; t ← deref threads a; mret (priority t).
Definition thread_tid : M machine Z :=
  a ← thread_current; t ← deref threads a; mret (tid t).

(** The loop body of the idle thread. *)
Definition idle_step : M machine unit := intr_disable ;; thread_block ;; resume.

(** ** interrupt.c and timer.c

    An external interrupt: the processor turns interrupts off, [handler] runs
    in interrupt context, and the return from the interrupt turns them on. *)
Definition intr_handler (handler : M machine bool) : M machine unit :=
  modify (λ m, set_intr false (intr_context m) m) ;;
  on ← gets intr_on; ASSERT (negb on) ;;
  ctx ← gets intr_context; ASSERT (negb ctx) ;;
  modify (λ m, set_intr (intr_on m) true m) ;;
  yield_on_return ← handler;
  on ← gets intr_on; ASSERT (negb on) ;;
  ctx ← gets intr_context; ASSERT ctx ;;
  modify (λ m, set_intr (intr_on m) false m) ;;
  when yield_on_return thread_yield ;;
  modify (λ m, set_intr true (intr_context m) m).

Definition count_tick (m : machine) : machine :=
  let '(i, k, u, n) := stats m in set_ticks (thread_ticks m) (i, k, u, int64 (n + 1)) m.
Definition timer_interrupt : M machine bool := modify count_tick ;; thread_tick.

Definition timer_ticks : M machine Z :=
  old ← intr_disable;
  t ← gets (λ m, (stats m).2);
  intr_set_level old ;;
  mret t.
Definition timer_elapsed (since : Z) : M machine Z := t ← timer_ticks; mret (int64 (t - since)).

(** ** synch.c *)

Definition not_null (p : Z) : bool := negb (p =? NULL).

Definition sema_init (s v : Z) : M machine unit :=
  ASSERT (not_null s) ;; put_sema s (mk_semaphore v []).

(** The frames of the running thread. *)
Definition set_frames (fs : list frame) : M machine unit :=
  a ← thread_current; t ← deref threads a; put_thread a (with_frames fs t).
Definition push_frames (fs : list frame) : M machine unit :=
  a ← thread_current; t ← deref threads a; put_thread a (with_frames (fs ++ frames t) t).

(** A call of [sema_down] up to its loop, and one round of the loop: [rest] is
    what the thread does after the call. *)
Definition sema_down (s : Z) : M machine unit :=
  ASSERT (not_null s) ;;
  ctx ← gets intr_context; ASSERT (negb ctx) ;; push_frames [F_sema_down s].

Definition sema_down_round (s : Z) (rest : list frame) : M machine unit :=
  intr_disable ;;
  sem ← deref semas s;
  if value sem =? 0 then
    a ← thread_current;
    put_sema s (mk_semaphore (value sem) (waiters sem ++ [a])) ;;
    thread_block ;;
    resume
  else
    put_sema s (mk_semaphore (wrap32 (value sem - 1)) (waiters sem)) ;;
    set_frames rest ;;
    intr_set_level true.

Definition sema_try_down (s : Z) : M machine bool :=
  ASSERT (not_null s) ;;
  old ← intr_disable;
  sem ← deref semas s;
  success ← (if 0 <? value sem
             then put_sema s (mk_semaphore (wrap32 (value sem - 1)) (waiters sem)) ;; mret true
             else mret false);
  intr_set_level old ;;
  mret success.

Definition sema_up (s : Z) : M machine unit :=
  ASSERT (not_null s) ;;
  old ← intr_disable;
  sem ← deref semas s;
  match waiters sem with
  | [] => mret tt
  | a :: ws => put_sema s (mk_semaphore (value sem) ws) ;; thread_unblock a
  end ;;
  sem ← deref semas s;
  put_sema s (mk_semaphore (wrap32 (value sem + 1)) (waiters sem)) ;;
  intr_set_level old.

Definition lock_init (l : Z) : M machine unit :=
  ASSERT (not_null l) ;; put_holder l NULL ;; sema_init l 1.

Definition lock_held_by_current_thread (l : Z) : M machine bool :=
  ASSERT (not_null l) ;;
  h ← deref holders l; a ← thread_current; mret (h =? a).

Definition lock_acquire (l : Z) (rest : list frame) : M machine unit :=
  ASSERT (not_null l) ;;
  ctx ← gets intr_context; ASSERT (negb ctx) ;;
  held ← lock_held_by_current_thread l; ASSERT (negb held) ;;
  set_frames (F_sema_down l :: F_set_holder l :: rest).

Definition lock_try_acquire (l : Z) : M machine bool :=
  ASSERT (not_null l) ;;
  held ← lock_held_by_current_thread l; ASSERT (negb held) ;;
  success ← sema_try_down l;
  when success (push_frames [F_set_holder l]) ;;
  mret success.

Definition lock_release (l : Z) : M machine unit :=
  ASSERT (not_null l) ;;
  held ← lock_held_by_current_thread l; ASSERT held ;;
  put_holder l NULL ;;
  push_frames [F_sema_up l].

Definition cond_init (c : Z) : M machine unit :=
  ASSERT (not_null c) ;; modify (λ m, set_conds (<[c := []]> (conds m)) m).

(** [w] is the address of the local variable [waiter.semaphore]. *)
Definition cond_wait (c l w : Z) : M machine unit :=
  ASSERT (not_null c) ;; ASSERT (not_null l) ;;
  ctx ← gets intr_context; ASSERT (negb ctx) ;;
  held ← lock_held_by_current_thread l; ASSERT held ;;
  sema_init w 0 ;;
  ws ← deref conds c;
  modify (λ m, set_conds (<[c := ws ++ [w]]> (conds m)) m) ;;
  push_frames [F_sema_down w; F_lock_acquire l] ;;
  lock_release l.

Definition cond_signal (c l : Z) : M machine unit :=
  ASSERT (not_null c) ;; ASSERT (not_null l) ;;
  ctx ← gets intr_context; ASSERT (negb ctx) ;;
  held ← lock_held_by_current_thread l; ASSERT held ;;
  ws ← deref conds c;
  match ws with
  | [] => mret tt
  | w :: ws =>
      modify (λ m, set_conds (<[c := ws]> (conds m)) m) ;;
      push_frames [F_sema_up w]
  end.

Definition cond_broadcast (c l : Z) : M machine unit :=
  ASSERT (not_null c) ;; ASSERT (not_null l) ;; push_frames [F_cond_broadcast c l].

(** One round of the loop of [cond_broadcast]. *)
Definition cond_broadcast_round (c l : Z) (rest : list frame) : M machine unit :=
  ws ← deref conds c;
  match ws with
  | [] => set_frames rest
  | _ => cond_signal c l
  end.

(** The next thing the running thread does in an unfinished call. *)
Definition run_frame : M machine unit :=
  a ← thread_current;
  t ← deref threads a;
  match frames t with
  | [] => mret tt
  | F_sema_down s :: rest => sema_down_round s rest
  | F_sema_up s :: rest => set_frames rest ;; sema_up s
  | F_set_holder l :: rest => set_frames rest ;; put_holder l a
  | F_lock_acquire l :: rest => lock_acquire l rest
  | F_cond_broadcast c l :: rest => cond_broadcast_round c l rest
  end.

(** The calls a thread can make. *)
Inductive call :=
  | C_sema_down (s : Z)
  | C_sema_try_down (s : Z)
  | C_sema_up (s : Z)
  | C_lock_acquire (l : Z)
  | C_lock_try_acquire (l : Z)
  | C_lock_release (l : Z)
  | C_cond_wait (c l w : Z)
  | C_cond_signal (c l : Z)
  | C_cond_broadcast (c l : Z)
  | C_yield
  | C_exit.

Definition run_call (c : call) : M machine unit :=
  match c with
  | C_sema_down s => sema_down s
  | C_sema_try_down s => sema_try_down s ;; mret tt
  | C_sema_up s => sema_up s
  | C_lock_acquire l => lock_acquire l []
  | C_lock_try_acquire l => lock_try_acquire l ;; mret tt
  | C_lock_release l => lock_release l
  | C_cond_wait c l w => cond_wait c l w
  | C_cond_signal c l => cond_signal c l
  | C_cond_broadcast c l => cond_broadcast c l
  | C_yield => thread_yield
  | C_exit => thread_exit
  end.
