(* ===== verification/Synch.v ===== *)
(** * Correctness of threads and synchronization

    The machine of [Thread] as a transition system: the running thread goes on
    with an unfinished call, makes a new call within the rules of the
    interface, or is interrupted.  The invariant of the reachable states gives
    that no assertion fails, that the queues agree with the states of the
    threads, that locks exclude each other, that wake-ups are not lost, and
    that the scheduler is fair. *)
From S2P Require Import Prelude Thread.

(** ** The invariant *)

Definition is_lock (m : machine) (l : Z) : Prop := is_Some (holders m !! l).
Definition is_sema (m : machine) (s : Z) : Prop := is_Some (semas m !! s) ∧ holders m !! s = None.
Definition is_cond (m : machine) (c : Z) : Prop := is_Some (conds m !! c).
Definition not_held (m : machine) (l a : Z) : Prop := is_lock m l ∧ holders m !! l ≠ Some a.

(** The shapes an unfinished call of thread [a] can have. *)
Definition frames_ok (m : machine) (a : Z) (fs : list frame) : Prop :=
  match fs with
  | [] => True
  | [F_sema_down s] => is_sema m s
  | [F_sema_down s; F_set_holder l] => s = l ∧ not_held m l a
  | [F_sema_down w; F_lock_acquire l] => is_sema m w ∧ not_held m l a
  | [F_sema_up s] => is_Some (semas m !! s)
  | [F_sema_up s; F_sema_down w; F_lock_acquire l] => s = l ∧ is_sema m w ∧ not_held m l a
  | [F_sema_up w; F_cond_broadcast c l] => is_sema m w ∧ is_cond m c ∧ holders m !! l = Some a
  | [F_cond_broadcast c l] => is_cond m c ∧ holders m !! l = Some a
  | [F_set_holder l] => not_held m l a
  | [F_lock_acquire l] => not_held m l a
  | _ => False
  end.

(** A thread that will test the semaphore when it runs next. *)
Definition awake_down (s : Z) (t : thread) : bool :=
  match status t with THREAD_READY | THREAD_RUNNING => true | _ => false end &&
  match head (frames t) with Some (F_sema_down s') => s' =? s | _ => false end.

(** A thread between the decrement of the semaphore of a lock and the
    assignment to its holder, or between clearing the holder and the
    increment. *)
Definition in_transit (l : Z) (t : thread) : bool :=
  match head (frames t) with
  | Some (F_set_holder l') | Some (F_sema_up l') => l' =? l
  | _ => false
  end.

Record core (m : machine) : Prop := {
  c_null : threads m !! NULL = None;
  c_null_semas : semas m !! NULL = None;
  c_null_conds : conds m !! NULL = None;
  c_ready_nodup : NoDup (ready_list m);
  c_ready a : a ∈ ready_list m ↔
    a ≠ idle_thread m ∧ ∃ t, threads m !! a = Some t ∧ status t = THREAD_READY;
  c_idle : ∃ t, threads m !! idle_thread m = Some t ∧ frames t = [] ∧ status t ≠ THREAD_DYING;
  c_all_nodup : NoDup (all_list m);
  c_all a : a ∈ all_list m ↔ ∃ t, threads m !! a = Some t ∧ status t ≠ THREAD_DYING;
  c_dying a t : threads m !! a = Some t → status t = THREAD_DYING → frames t = [];
  c_value s sem : semas m !! s = Some sem → 0 ≤ value sem < 2 ^ 32 ∧ NoDup (waiters sem);
  c_waiting s sem a : semas m !! s = Some sem → a ∈ waiters sem →
    a ≠ idle_thread m ∧ ∃ t, threads m !! a = Some t ∧ status t = THREAD_BLOCKED ∧
    head (frames t) = Some (F_sema_down s);
  c_blocked a t : threads m !! a = Some t → status t = THREAD_BLOCKED → a ≠ idle_thread m →
    ∃ s sem, head (frames t) = Some (F_sema_down s) ∧ semas m !! s = Some sem ∧ a ∈ waiters sem;
  c_frames a t : threads m !! a = Some t → frames_ok m a (frames t);
  c_wakeup s sem : semas m !! s = Some sem → waiters sem ≠ [] →
    value sem ≤ count_entries (awake_down s) (threads m);
  c_lock l h : holders m !! l = Some h → ∃ sem, semas m !! l = Some sem ∧
    value sem + Z.b2z (negb (h =? NULL)) + count_entries (in_transit l) (threads m) = 1;
  c_conds c ws w : conds m !! c = Some ws → w ∈ ws → is_sema m w
}.

Lemma sema_not_null m s : core m → is_Some (semas m !! s) → s ≠ NULL.
Proof. intros Hc [x Hx] ->. pose proof (c_null_semas _ Hc). congruence. Qed.
Lemma lock_not_null m l h : core m → holders m !! l = Some h → l ≠ NULL.
Proof. intros Hc Hl. destruct (c_lock _ Hc l h Hl) as (x & Hx & _). apply (sema_not_null m); [done|by eexists]. Qed.
Lemma cond_not_null m c : core m → is_cond m c → c ≠ NULL.
Proof. intros Hc [ws Hws] ->. pose proof (c_null_conds _ Hc). congruence. Qed.

Lemma wp_not_null {A} p (k : unit → M machine A) Q m :
  p ≠ NULL → wp (k tt) Q m → wp (ASSERT (not_null p) ≫= k) Q m.
Proof.
  intros Hp Hk. apply wp_bind, wp_assert; [|done]. unfold not_null. by rewrite (proj2 (Z.eqb_neq p NULL)).
Qed.

Record inv (m : machine) : Prop := {
  i_core : core m;
  i_running : ∃ t, threads m !! running m = Some t ∧ status t = THREAD_RUNNING;
  i_unique a t : threads m !! a = Some t → status t = THREAD_RUNNING → a = running m;
  i_intr : intr_on m = true ∧ intr_context m = false
}.

(** The state in the middle of a switch: no thread is running. *)
Record suspended (m : machine) : Prop := {
  s_core : core m;
  s_current : is_Some (threads m !! running m);
  s_none a t : threads m !! a = Some t → status t ≠ THREAD_RUNNING;
  s_intr : intr_on m = false ∧ intr_context m = false
}.

(** ** Switching threads *)

Definition next_of (m : machine) : Z := default (idle_thread m) (head (ready_list m)).

(** [running m] is a thread that [thread_schedule_tail] destroys. *)
Definition reaped (m : machine) : bool :=
  negb (running m =? next_of m) && negb (running m =? initial_thread m) &&
  bool_decide (status <$> threads m !! running m = Some THREAD_DYING).

Definition switched (m : machine) : machine :=
  let th := alter (with_status THREAD_RUNNING) (next_of m) (threads m) in
  mk_machine (if reaped m then delete (running m) th else th) (tail (ready_list m)) (all_list m)
    (idle_thread m) (initial_thread m) (next_of m) 0 (stats m) (intr_on m) (intr_context m)
    (semas m) (holders m) (conds m).

(** The next thread exists; it is ready, or it is the idle thread. *)
Lemma next_of_thread m : core m →
  ∃ t, threads m !! next_of m = Some t ∧ status t ≠ THREAD_DYING ∧
    (next_of m ∈ ready_list m ∧ next_of m ≠ idle_thread m ∧ status t = THREAD_READY ∨
     next_of m = idle_thread m ∧ ready_list m = [] ∧ frames t = []).
Proof.
  intros Hc. unfold next_of. destruct (ready_list m) as [|a l] eqn:El; cbn.
  - destruct (c_idle _ Hc) as (t & Ht & Hf & Hs). exists t. do 2 (split; [done|]). by right.
  - assert (Ha : a ∈ ready_list m) by (rewrite El; set_solver).
    destruct (proj1 (c_ready _ Hc a) Ha) as (Hne & t & Ht & Hs). exists t.
    rewrite El in Ha. split; [done|]. split; [congruence|]. by left.
Qed.

Lemma alter_insert (f : thread → thread) a t (x : gmap Z thread) :
  x !! a = Some t → alter f a x = <[a := f t]> x.
Proof.
  intros E. apply map_eq. intros b. destruct (decide (a = b)) as [<-|].
  - by rewrite lookup_alter_eq, lookup_insert_eq, E.
  - by rewrite lookup_alter_ne, lookup_insert_ne.
Qed.

Lemma wp_set_status a st t Q m :
  threads m !! a = Some t → Q tt (set_threads (<[a := with_status st t]> (threads m)) m) →
  wp (set_status a st) Q m.
Proof. intros E HQ. unfold set_status, put_thread. wp_step. apply (wp_deref _ _ t); [done|]. by wp_step. Qed.

Lemma wp_next_thread_to_run (Q : Z → machine → Prop) m :
  Q (next_of m) (set_ready_list (tail (ready_list m)) m) → wp next_thread_to_run Q m.
Proof.
  unfold next_thread_to_run, next_of. intros HQ. repeat wp_step.
  destruct (ready_list m) as [|a l] eqn:E; cbn [tail] in HQ; [|by repeat wp_step].
  wp_step. replace m with (set_ready_list [] m) at 2; [done|]. destruct m; cbn in *. by subst.
Qed.

Lemma wp_schedule Q m : suspended m → Q tt (switched m) → wp schedule Q m.
Proof.
  intros Hs HQ. pose proof (s_core _ Hs) as Hc. destruct (next_of_thread m Hc) as (u & Hu & Hnd & _).
  destruct (s_current _ Hs) as [t Ht]. destruct (s_intr _ Hs) as [Hoff _].
  pose proof (s_none _ Hs _ _ Ht) as Hst. pose proof (c_null _ Hc) as Hnull.
  assert (Hr0 : running m ≠ 0) by (intros E; rewrite E in Ht; congruence).
  unfold schedule. do 2 wp_step. wp_step. apply wp_next_thread_to_run. repeat wp_step.
  { cbn. by rewrite Hoff. }
  apply (wp_deref _ _ t); [done|]. unfold is_thread. repeat wp_step.
  { by rewrite bool_decide_true. } { rewrite bool_decide_true; [done|]. by exists u. }
  unfold switched, reaped in HQ. cbv zeta in HQ. rewrite (alter_insert _ _ u) in HQ by done.
  rewrite Ht in HQ. unfold thread_schedule_tail.
  destruct (Z.eqb_spec (running m) (next_of m)) as [E|E]; cbn [negb andb] in HQ |- *; repeat wp_step.
  - cbn. by rewrite Hoff.
  - apply (wp_set_status _ _ u); [cbn; by rewrite E|]. repeat wp_step.
    cbn [Z.eqb]. wp_step. unfold set_ticks, set_threads, set_ready_list. cbn. rewrite E. exact HQ.
  - cbn. by rewrite Hoff.
  - apply (wp_set_status _ _ u); [done|]. repeat wp_step.
    rewrite (proj2 (Z.eqb_neq (running m) 0)) by done. wp_step.
    apply (wp_deref _ _ t); [cbn; by rewrite lookup_insert_ne|]. repeat wp_step. cbn [initial_thread set_ticks set_threads set_running set_ready_list].
    destruct (Z.eqb_spec (running m) (initial_thread m)) as [Ei|Ei]; cbn [negb andb] in HQ |- *.
    + rewrite andb_false_r. by wp_step.
    + rewrite andb_true_r. destruct (decide (status t = THREAD_DYING)) as [Ed|Ed].
      * rewrite bool_decide_true in HQ by (cbn; congruence). rewrite bool_decide_true by done. repeat wp_step.
        { cbn. by rewrite (proj2 (Z.eqb_neq (running m) (next_of m))). } done.
      * rewrite bool_decide_false in HQ by (cbn; congruence). rewrite bool_decide_false by done. by wp_step.
Qed.

(** The threads after a switch. *)
Lemma switched_lookup m u a : threads m !! next_of m = Some u →
  threads (switched m) !! a =
  if decide (reaped m = true ∧ a = running m) then None
  else if decide (a = next_of m) then Some (with_status THREAD_RUNNING u) else threads m !! a.
Proof.
  intros Hu. unfold switched. cbv zeta. cbn [threads]. rewrite (alter_insert _ _ u) by done.
  assert (Hr : reaped m = true → running m ≠ next_of m).
  { unfold reaped. intros H E. rewrite E, Z.eqb_refl in H. done. }
  destruct (reaped m); case_decide as H1.
  - destruct H1 as [_ ->]. apply lookup_delete_eq.
  - rewrite lookup_delete_ne by naive_solver.
    case_decide as H2; [subst; apply lookup_insert_eq|by apply lookup_insert_ne].
  - naive_solver.
  - case_decide as H2; [subst; apply lookup_insert_eq|by apply lookup_insert_ne].
Qed.

Lemma reaped_dying m : reaped m = true →
  ∃ t, threads m !! running m = Some t ∧ status t = THREAD_DYING ∧ running m ≠ next_of m.
Proof.
  unfold reaped. intros [[H1 _]%andb_true_iff H2%bool_decide_eq_true]%andb_true_iff.
  apply negb_true_iff, Z.eqb_neq in H1. destruct (threads m !! running m) as [t|]; [|done].
  exists t. cbn in H2. by injection H2.
Qed.

Lemma switched_count P m u : core m → threads m !! next_of m = Some u →
  P (with_status THREAD_RUNNING u) = P u → (∀ t, frames t = [] → P t = false) →
  count_entries P (threads (switched m)) = count_entries P (threads m).
Proof.
  intros Hc Hu HP Hnil. unfold switched. cbv zeta. cbn [threads]. rewrite (alter_insert _ _ u) by done.
  assert (E : count_entries P (<[next_of m := with_status THREAD_RUNNING u]> (threads m)) =
    count_entries P (threads m)) by (rewrite (count_entries_insert _ _ _ _ u) by done; rewrite HP; lia).
  destruct (reaped m) eqn:Hr; [|done]. destruct (reaped_dying m Hr) as (t & Ht & Hd & Hne).
  rewrite (count_entries_delete P _ _ t) by (by rewrite lookup_insert_ne).
  rewrite (Hnil t) by (by eapply c_dying). cbn. lia.
Qed.

Lemma awake_running s u : status u = THREAD_READY ∨ frames u = [] →
  awake_down s (with_status THREAD_RUNNING u) = awake_down s u.
Proof.
  unfold awake_down. cbn. intros [E|E]; rewrite E; [done|]. cbn. by rewrite !andb_false_r.
Qed.

Lemma awake_nil s t : frames t = [] → awake_down s t = false.
Proof. unfold awake_down. intros ->. apply andb_false_r. Qed.

Lemma in_transit_nil l t : frames t = [] → in_transit l t = false.
Proof. unfold in_transit. by intros ->. Qed.

(** The tail of the ready list has all but the next thread. *)
Lemma next_ready_tail m a : core m →
  a ∈ ready_list m ∧ a ≠ next_of m ↔ a ∈ tail (ready_list m).
Proof.
  intros Hc. pose proof (c_ready_nodup _ Hc) as Hn. unfold next_of.
  destruct (ready_list m) as [|b l]; cbn; [set_solver|]. inversion Hn; subst. set_solver.
Qed.

(** A thread that is not being reaped and does not run next keeps its entry. *)
Lemma switched_keeps m u a t : threads m !! next_of m = Some u →
  threads m !! a = Some t → status t ≠ THREAD_DYING → a ≠ next_of m →
  threads (switched m) !! a = Some t.
Proof.
  intros Hu Ht Hs Hne. rewrite (switched_lookup m u) by done.
  rewrite decide_False; [by rewrite decide_False|]. intros [Hr ->]. destruct (reaped_dying m Hr) as (t' & Ht' & Hd & _). congruence.
Qed.

Lemma switched_inv_lookup m u a t : threads m !! next_of m = Some u →
  threads (switched m) !! a = Some t →
  a = next_of m ∧ t = with_status THREAD_RUNNING u ∨ a ≠ next_of m ∧ threads m !! a = Some t.
Proof.
  intros Hu. rewrite (switched_lookup m u) by done. repeat case_decide; naive_solver.
Qed.

Lemma core_switched m : core m → core (switched m).
Proof.
  intros Hc. destruct (next_of_thread m Hc) as (u & Hu & Hnd & Hnext).
  assert (Hru : status u = THREAD_READY ∨ frames u = []) by naive_solver.
  assert (Hu' : threads (switched m) !! next_of m = Some (with_status THREAD_RUNNING u)).
  { rewrite (switched_lookup m u) by done. rewrite decide_False; [by rewrite decide_True|].
    intros [Hr E]. by destruct (reaped_dying m Hr) as (_ & _ & _ & []). }
  assert (Hnot : ∀ s sem, semas m !! s = Some sem → next_of m ∉ waiters sem).
  { intros s sem Hs Hin. destruct (c_waiting _ Hc s sem _ Hs Hin) as (Hne & t & Ht & Hb & _).
    destruct Hnext as [(_ & _ & Hr)|(E & _)]; congruence. }
  split.
  - rewrite (switched_lookup m u) by done. pose proof (c_null _ Hc).
    repeat case_decide; [done|congruence|done].
  - apply Hc.
  - apply Hc.
  - cbn. pose proof (c_ready_nodup _ Hc) as Hn. destruct (ready_list m); [done|]. by inversion Hn.
  - intros a. change (ready_list (switched m)) with (tail (ready_list m)).
    change (idle_thread (switched m)) with (idle_thread m). rewrite <-(next_ready_tail m a Hc). rewrite (c_ready _ Hc). split.
    + intros ((Hi & t & Ht & Hs) & Hne). split; [done|]. exists t. split; [|done].
      eapply switched_keeps; [done|done|congruence|done].
    + intros (Hi & t & Ht & Hs).
      apply (switched_inv_lookup m u) in Ht as [[-> ->]|[Hne Ht]]; [done| |done]. eauto.
  - destruct (c_idle _ Hc) as (t & Ht & Hf & Hs).
    change (idle_thread (switched m)) with (idle_thread m).
    destruct (decide (idle_thread m = next_of m)) as [E|E].
    + rewrite E, Hu'. rewrite E, Hu in Ht. injection Ht as <-. eexists. split; [done|]. by split.
    + exists t. split; [by eapply switched_keeps|done].
  - apply Hc.
  - intros a. change (all_list (switched m)) with (all_list m). rewrite (c_all _ Hc). split; intros (t & Ht & Hs).
    + destruct (decide (a = next_of m)) as [->|Hne]; [by eexists|].
      exists t. split; [by eapply switched_keeps|done].
    + apply (switched_inv_lookup m u) in Ht as [[-> ->]|[_ Ht]]; [by exists u|by exists t|done].
  - intros a t Ht Hs. apply (switched_inv_lookup m u) in Ht as [[-> ->]|[_ Ht]]; [done| |done].
    by eapply c_dying.
  - apply Hc.
  - intros s sem a Hs Ha. destruct (c_waiting _ Hc s sem a Hs Ha) as (Hi & t & Ht & Hb & Hf).
    split; [done|]. exists t. split; [|done]. eapply switched_keeps; [done|done|congruence|].
    intros ->. by apply (Hnot s sem Hs).
  - intros a t Ht Hb Hi. apply (switched_inv_lookup m u) in Ht as [[-> ->]|[_ Ht]]; [done| |done].
    by apply (c_blocked _ Hc).
  - intros a t Ht. apply (switched_inv_lookup m u) in Ht as [[-> ->]|[_ Ht]]; [|by apply Hc|done].
    by apply (c_frames _ Hc _ u).
  - intros s sem Hs Hw. rewrite (switched_count _ m u) by
      (done || by apply awake_running || (intros; by apply awake_nil)).
    by apply (c_wakeup _ Hc).
  - intros l h Hl. rewrite (switched_count _ m u) by (done || (intros; by apply in_transit_nil)).
    by apply (c_lock _ Hc).
  - apply Hc.
Qed.

Lemma inv_switched m : suspended m → inv (set_intr true (intr_context m) (switched m)).
Proof.
  intros Hs. pose proof (s_core _ Hs) as Hc. destruct (next_of_thread m Hc) as (u & Hu & Hnd & _).
  destruct (core_switched m Hc). split; [by split| | |].
  - exists (with_status THREAD_RUNNING u). split; [|done].
    change (threads (switched m) !! next_of m = Some (with_status THREAD_RUNNING u)).
    rewrite (switched_lookup m u) by done. rewrite decide_False; [by rewrite decide_True|].
    intros [Hr E]. by destruct (reaped_dying m Hr) as (_ & _ & _ & []).
  - intros a t Ht Hst. change (threads (switched m) !! a = Some t) in Ht.
    apply (switched_inv_lookup m u) in Ht as [[-> ->]|[_ Ht]]; [done| |done].
    by destruct (s_none _ Hs _ _ Ht).
  - split; [done|apply Hs].
Qed.

(** ** Changes of the status of a thread

    The thread [a] changes its status and with it the queues it is in. *)
Definition restatus (m : machine) (a : Z) (t : thread) (st : thread_status) (rl al : list Z)
    (se : gmap Z semaphore) (on : bool) : machine :=
  mk_machine (<[a := with_status st t]> (threads m)) rl al (idle_thread m) (initial_thread m)
    (running m) (thread_ticks m) (stats m) on (intr_context m) se (holders m) (conds m).

Section restatus.
Context (m : machine) (a : Z) (t : thread) (st : thread_status) (rl al : list Z).
Context (se : gmap Z semaphore) (on : bool).
Context (Hc : core m) (Ht : threads m !! a = Some t) (Hlive : status t ≠ THREAD_DYING).
Context (Hdie : st = THREAD_DYING → frames t = [] ∧ a ≠ idle_thread m).
Context (Hrl : NoDup rl) (Hready : ∀ b, b ∈ rl ↔
  b ≠ a ∧ b ∈ ready_list m ∨ b = a ∧ st = THREAD_READY ∧ a ≠ idle_thread m).
Context (Hal : NoDup al) (Hall : ∀ b, b ∈ al ↔ b ∈ all_list m ∧ (b = a → st ≠ THREAD_DYING)).
Context (Hdom : ∀ s, is_Some (semas m !! s) → is_Some (se !! s)).
Context (Hse : ∀ s x, se !! s = Some x → ∃ y, semas m !! s = Some y ∧ value x = value y ∧
  NoDup (waiters x) ∧ ∀ b, b ∈ waiters x ↔ b ≠ a ∧ b ∈ waiters y ∨
    b = a ∧ st = THREAD_BLOCKED ∧ a ≠ idle_thread m ∧ head (frames t) = Some (F_sema_down s)).
Context (Hblk : st = THREAD_BLOCKED → a ≠ idle_thread m →
  ∃ s, head (frames t) = Some (F_sema_down s) ∧ is_Some (semas m !! s)).
Context (Hwake : ∀ s x, se !! s = Some x → waiters x ≠ [] →
  value x ≤ count_entries (awake_down s) (threads m) - Z.b2z (awake_down s t)
            + Z.b2z (awake_down s (with_status st t))).

Let m' := restatus m a t st rl al se on.

Lemma restatus_lookup b u : threads m' !! b = Some u ↔
  b = a ∧ u = with_status st t ∨ b ≠ a ∧ threads m !! b = Some u.
Proof. cbn. rewrite lookup_insert_Some. naive_solver. Qed.

Lemma restatus_is_sema s : is_sema m s → is_sema m' s.
Proof. intros [Hs Hn]. split; [by apply Hdom|done]. Qed.

Lemma restatus_frames_ok b fs : frames_ok m b fs → frames_ok m' b fs.
Proof.
  unfold frames_ok.
  repeat match goal with |- context [match ?x with _ => _ end] => destruct x end; try done;
    intros; destruct_and?; split_and?; try done; first [by apply restatus_is_sema|by apply Hdom].
Qed.

Lemma core_restatus : core m'.
Proof.
  assert (Hcount : ∀ P, count_entries P (threads m') =
    count_entries P (threads m) - Z.b2z (P t) + Z.b2z (P (with_status st t)))
    by (intros P; by apply count_entries_insert).
  split.
  - destruct (threads m' !! NULL) as [u|] eqn:E; [|done].
    apply restatus_lookup in E as [[<- _]|[_ E]]; pose proof (c_null _ Hc); congruence.
  - cbn. destruct (se !! NULL) as [x|] eqn:E; [|done]. destruct (Hse NULL x E) as (y & Hy & _).
    pose proof (c_null_semas _ Hc). congruence.
  - apply Hc.
  - done.
  - intros b. change (b ∈ rl ↔ b ≠ idle_thread m ∧ ∃ u, threads m' !! b = Some u ∧ status u = THREAD_READY).
    rewrite Hready, (c_ready _ Hc). setoid_rewrite restatus_lookup. split.
    + intros [(Hne & Hb & u & Hu & Es)|(-> & Es & Hne)]; (split; [done|]).
      * exists u. auto.
      * exists (with_status st t). auto.
    + intros (Hb & u & [[-> ->]|[Hne Hu]] & Es); [by right|left]. eauto 6.
  - destruct (c_idle _ Hc) as (u & Hu & Hf & Hs). change (idle_thread m') with (idle_thread m).
    destruct (decide (idle_thread m = a)) as [E|E].
    + exists (with_status st t). split; [apply restatus_lookup; by left|]. cbn.
      split; [congruence|]. intros Es. by destruct (Hdie Es) as [_ []].
    + exists u. split; [apply restatus_lookup; by right|done].
  - done.
  - intros b. change (b ∈ al ↔ ∃ u, threads m' !! b = Some u ∧ status u ≠ THREAD_DYING).
    rewrite Hall, (c_all _ Hc). setoid_rewrite restatus_lookup. split.
    + intros ((u & Hu & Es) & Hst). destruct (decide (b = a)) as [->|Hne];
        [exists (with_status st t)|exists u]; auto.
    + intros (u & [[-> ->]|[Hne Hu]] & Es); (split; [|done]); [by exists t|by exists u].
  - intros b u [[-> ->]|[_ Hu]]%restatus_lookup Es; [by destruct (Hdie Es)|by eapply c_dying].
  - intros s x Hx. destruct (Hse s x Hx) as (y & Hy & -> & Hn & _). split; [|done]. by apply (c_value _ Hc s).
  - intros s x b Hx Hb. destruct (Hse s x Hx) as (y & Hy & _ & _ & Hiff).
    destruct (proj1 (Hiff b) Hb) as [[Hne Hb']|(Eb & Est & Hi & Hf)];
      [|subst b; by split; [|exists (with_status st t); rewrite restatus_lookup; auto]].
    destruct (c_waiting _ Hc s y b Hy Hb') as (Hi & u & Hu & Es & Hf). split; [done|].
    exists u. split; [|done]. apply restatus_lookup. by right.
  - intros b u [[-> ->]|[Hne Hu]]%restatus_lookup Es Hi.
    + destruct (Hblk Es Hi) as (s & Hf & Hs). destruct (Hdom s Hs) as [x Hx]. exists s, x.
      split; [done|]. split; [done|]. destruct (Hse s x Hx) as (y & _ & _ & _ & Hiff). apply Hiff. by right.
    + destruct (c_blocked _ Hc b u Hu Es Hi) as (s & y & Hf & Hs & Hin).
      destruct (Hdom s) as [x Hx]; [by eexists|]. exists s, x. split; [done|]. split; [done|].
      destruct (Hse s x Hx) as (y' & Hy' & _ & _ & Hiff). apply Hiff. left. split; [done|congruence].
  - intros b u [[-> ->]|[Hne Hu]]%restatus_lookup; apply restatus_frames_ok; cbn; by apply Hc.
  - intros s x Hx Hw. rewrite Hcount. by apply Hwake.
  - intros l h Hl. destruct (c_lock _ Hc l h Hl) as (y & Hy & E).
    destruct (Hdom l) as [x Hx]; [by eexists|]. exists x. split; [done|].
    destruct (Hse l x Hx) as (y' & Hy' & -> & _). rewrite Hcount.
    change (in_transit l (with_status st t)) with (in_transit l t).
    assert (y' = y) as -> by congruence. lia.
  - intros c ws w Hcw Hin. apply restatus_is_sema. by apply (c_conds _ Hc c ws).
Qed.
End restatus.

(** ** Changes made by the running thread

    The running thread moves on to the frames [fs] and changes the values of
    semaphores, the holders of locks and the waiters of conditions; the lists
    of waiting threads do not change. *)
Definition moved (m : machine) (t : thread) (fs : list frame) (se : gmap Z semaphore)
    (ho : gmap Z Z) (co : gmap Z (list Z)) : machine :=
  mk_machine (<[running m := with_frames fs t]> (threads m)) (ready_list m) (all_list m)
    (idle_thread m) (initial_thread m) (running m) (thread_ticks m) (stats m) true false se ho co.

Section moved.
Context (m : machine) (t : thread) (fs : list frame).
Context (se : gmap Z semaphore) (ho : gmap Z Z) (co : gmap Z (list Z)).
Context (Hc : core m) (Ht : threads m !! running m = Some t) (Hrun : status t = THREAD_RUNNING).
Context (Hidle : running m = idle_thread m → fs = []).
Context (Hse : ∀ s x, se !! s = Some x → 0 ≤ value x < 2 ^ 32 ∧
  (semas m !! s = None ∧ s ≠ NULL ∧ waiters x = [] ∨ ∃ y, semas m !! s = Some y ∧ waiters x = waiters y)).
Context (Hdom : ∀ s, is_Some (semas m !! s) → is_Some (se !! s)).
Context (Hlocks : ∀ l, is_Some (ho !! l) ↔ is_Some (holders m !! l)).
Context (Hho : ∀ l b, b ≠ running m → b ≠ NULL → ho !! l = Some b ↔ holders m !! l = Some b).
Context (Hco : ∀ c, is_Some (co !! c) ↔ is_Some (conds m !! c)).

Let m' := moved m t fs se ho co.
Context (Hfs : frames_ok m' (running m) fs).
Context (Hwake : ∀ s x, se !! s = Some x → waiters x ≠ [] →
  value x ≤ count_entries (awake_down s) (threads m) - Z.b2z (awake_down s t)
            + Z.b2z (awake_down s (with_frames fs t))).
Context (Hlock : ∀ l h, ho !! l = Some h → ∃ x, se !! l = Some x ∧
  value x + Z.b2z (negb (h =? NULL)) + (count_entries (in_transit l) (threads m)
    - Z.b2z (in_transit l t) + Z.b2z (in_transit l (with_frames fs t))) = 1).
Context (Hconds : ∀ c ws w, co !! c = Some ws → w ∈ ws → is_sema m' w).

Lemma moved_is_sema s : is_sema m s → is_sema m' s.
Proof.
  intros [Hs Hn]. split; [by apply Hdom|]. cbn. destruct (ho !! s) eqn:E; [|done].
  assert (H : is_Some (ho !! s)) by (by rewrite E). apply Hlocks in H. rewrite Hn in H. by destruct H.
Qed.

Lemma moved_not_held l b : b ≠ running m → b ≠ NULL → not_held m l b → not_held m' l b.
Proof.
  intros Hb Hn [Hl Hh]. split; [by apply Hlocks|]. cbn. intros E. apply Hh. by apply Hho.
Qed.

Lemma moved_frames_ok b gs : b ≠ running m → b ≠ NULL → frames_ok m b gs → frames_ok m' b gs.
Proof.
  intros Hb Hn. unfold frames_ok.
  repeat match goal with |- context [match ?x with _ => _ end] => destruct x end; try done;
    intros; destruct_and?; split_and?; try done;
    first [by apply moved_is_sema|by apply moved_not_held|by apply Hdom|by apply Hco|by apply Hho].
Qed.

Lemma core_moved : core m'.
Proof.
  assert (Hnull : running m ≠ NULL) by (intros E; rewrite E, (c_null _ Hc) in Ht; done).
  assert (Hlook : ∀ b u, threads m' !! b = Some u ↔
    b = running m ∧ u = with_frames fs t ∨ b ≠ running m ∧ threads m !! b = Some u).
  { intros b u. cbn. rewrite lookup_insert_Some. naive_solver. }
  assert (Hst : ∀ b u, threads m' !! b = Some u → ∃ v, threads m !! b = Some v ∧ status v = status u).
  { intros b u [[-> ->]|[_ Hu]]%Hlook; by eexists. }
  assert (Hst' : ∀ b v, threads m !! b = Some v → ∃ u, threads m' !! b = Some u ∧ status u = status v).
  { intros b v Hv. destruct (decide (b = running m)) as [->|Hne].
    - exists (with_frames fs t). split; [apply Hlook; by left|]. cbn. congruence.
    - exists v. split; [apply Hlook; by right|done]. }
  assert (Hcount : ∀ P, count_entries P (threads m') =
    count_entries P (threads m) - Z.b2z (P t) + Z.b2z (P (with_frames fs t))).
  { intros P. by apply count_entries_insert. }
  split.
  - cbn. rewrite lookup_insert_ne by done. apply Hc.
  - cbn. destruct (se !! NULL) as [x|] eqn:E; [|done]. pose proof (c_null_semas _ Hc).
    destruct (Hse NULL x E) as [_ [(_ & [] & _)|(y & Hy & _)]]; congruence.
  - cbn. destruct (co !! NULL) as [x|] eqn:E; [|done]. pose proof (c_null_conds _ Hc).
    destruct (proj1 (Hco NULL)) as [y Hy]; [by eexists|congruence].
  - apply Hc.
  - intros a. change (ready_list m') with (ready_list m). change (idle_thread m') with (idle_thread m).
    rewrite (c_ready _ Hc). split; intros (Hi & v & Hv & Es); (split; [done|]).
    + destruct (Hst' a v Hv) as (u & Hu & E). exists u. split; [done|congruence].
    + destruct (Hst a v Hv) as (u & Hu & E). exists u. split; [done|congruence].
  - destruct (c_idle _ Hc) as (v & Hv & Hf & Es). change (idle_thread m') with (idle_thread m).
    destruct (decide (running m = idle_thread m)) as [E|E].
    + exists (with_frames fs t). rewrite <-E. split; [apply Hlook; by left|]. cbn.
      split; [by apply Hidle|congruence].
    + exists v. split; [|done]. apply Hlook. by right.
  - apply Hc.
  - intros a. change (all_list m') with (all_list m). rewrite (c_all _ Hc).
    split; intros (v & Hv & Es).
    + destruct (Hst' a v Hv) as (u & Hu & E). exists u. split; [done|congruence].
    + destruct (Hst a v Hv) as (u & Hu & E). exists u. split; [done|congruence].
  - intros a v [[-> ->]|[_ Hv]]%Hlook Es; [cbn in Es; congruence|by eapply c_dying].
  - intros s x Hx. destruct (Hse s x Hx) as [Hv [(_ & _ & ->)|(y & Hy & ->)]]; (split; [done|]);
      [constructor|by apply (c_value _ Hc s)].
  - intros s x a Hx Ha. destruct (Hse s x Hx) as [_ [(_ & _ & E)|(y & Hy & E)]]; rewrite E in Ha; [set_solver|].
    destruct (c_waiting _ Hc s y a Hy Ha) as (Hi & v & Hv & Hb & Hf). split; [done|]. exists v.
    split; [|done]. apply Hlook. right. split; [congruence|done].
  - intros a v [[-> ->]|[Hne Hv]]%Hlook Hb Hi; [cbn in Hb; congruence|].
    destruct (c_blocked _ Hc a v Hv Hb Hi) as (s & sem & Hf & Hs & Hin). destruct (Hdom s) as [x Hx]; [by eexists|].
    exists s, x. split; [done|]. split; [done|].
    destruct (Hse s x Hx) as [_ [(E & _)|(y & Hy & ->)]]; congruence.
  - intros a v [[-> ->]|[Hne Hv]]%Hlook; [done|]. apply moved_frames_ok; [done| |by apply Hc].
    intros ->. rewrite (c_null _ Hc) in Hv. done.
  - intros s x Hx Hw. rewrite Hcount. by apply Hwake.
  - intros l h Hl. destruct (Hlock l h Hl) as (x & Hx & E). exists x. split; [done|]. rewrite Hcount. done.
  - apply Hconds.
Qed.

Lemma inv_moved : (∀ a u, threads m !! a = Some u → status u = THREAD_RUNNING → a = running m) → inv m'.
Proof.
  intros Hu. split; [apply core_moved| | |done].
  - exists (with_frames fs t). split; [apply lookup_insert_eq|done].
  - intros a u. cbn. intros [[-> _]|[_ Hau]]%lookup_insert_Some; [done|by apply Hu].
Qed.
End moved.

(** ** The primitives on an invariant state *)

Lemma wp_thread_current m t Q :
  threads m !! running m = Some t → status t = THREAD_RUNNING → Q (running m) m →
  wp thread_current Q m.
Proof.
  intros Ht Hs HQ. unfold thread_current, is_thread. repeat wp_step.
  { by rewrite bool_decide_true. }
  apply (wp_deref _ _ t); [done|]. repeat wp_step; [by rewrite bool_decide_true|done].
Qed.

Lemma wp_set_frames m t fs Q :
  threads m !! running m = Some t → status t = THREAD_RUNNING →
  Q tt (set_threads (<[running m := with_frames fs t]> (threads m)) m) →
  wp (set_frames fs) Q m.
Proof.
  intros Ht Hs HQ. unfold set_frames, put_thread. wp_step. apply (wp_thread_current _ t); [done..|].
  wp_step. apply (wp_deref _ _ t); [done|]. by wp_step.
Qed.

Lemma wp_push_frames m t fs Q :
  threads m !! running m = Some t → status t = THREAD_RUNNING →
  Q tt (set_threads (<[running m := with_frames (fs ++ frames t) t]> (threads m)) m) →
  wp (push_frames fs) Q m.
Proof.
  intros Ht Hs HQ. unfold push_frames, put_thread. wp_step. apply (wp_thread_current _ t); [done..|].
  wp_step. apply (wp_deref _ _ t); [done|]. by wp_step.
Qed.

Lemma wp_held m t l h Q :
  threads m !! running m = Some t → status t = THREAD_RUNNING → l ≠ NULL → holders m !! l = Some h →
  Q (h =? running m) m → wp (lock_held_by_current_thread l) Q m.
Proof.
  intros Ht Hs Hl Hh HQ. unfold lock_held_by_current_thread. apply wp_not_null; [done|]. wp_step. apply (wp_deref _ _ h); [done|].
  wp_step. apply (wp_thread_current _ t); [done..|]. by wp_step.
Qed.

Lemma wp_intr_disable m Q : Q (intr_on m) (set_intr false (intr_context m) m) → wp intr_disable Q m.
Proof. intros HQ. unfold intr_disable. by repeat wp_step. Qed.

Lemma wp_intr_set_level m level Q : (level = true → intr_context m = false) →
  Q tt (set_intr level (intr_context m) m) → wp (intr_set_level level) Q m.
Proof.
  intros Hl HQ. unfold intr_set_level, intr_enable. wp_step. destruct level.
  - repeat wp_step; [by rewrite Hl|done].
  - apply wp_intr_disable. by wp_step.
Qed.

(** ** The operations that do not sleep or wake *)

Section operations.
Context (m : machine) (t : thread).
Context (Hi : inv m) (Ht : threads m !! running m = Some t).
Context (Hidle : running m ≠ idle_thread m).

Lemma running_status : status t = THREAD_RUNNING.
Proof. destruct (i_running _ Hi) as (u & Hu & Hs). congruence. Qed.

Lemma awake_count s : awake_down s t = true → 0 < count_entries (awake_down s) (threads m).
Proof. intros H. by apply (count_entries_pos _ _ (running m) t). Qed.

Lemma transit_count l : in_transit l t = true → 0 < count_entries (in_transit l) (threads m).
Proof. intros H. by apply (count_entries_pos _ _ (running m) t). Qed.

Lemma semas_same s x : semas m !! s = Some x → 0 ≤ value x < 2 ^ 32 ∧
  (semas m !! s = None ∧ s ≠ NULL ∧ waiters x = [] ∨ ∃ y, semas m !! s = Some y ∧ waiters x = waiters y).
Proof. intros Hx. split; [by apply (c_value _ (i_core _ Hi) s)|]. right. by exists x. Qed.

(** Moving on to other frames only. *)
Lemma inv_frames fs :
  frames_ok m (running m) fs → (∀ s, awake_down s t = true → awake_down s (with_frames fs t) = true) →
  (∀ l, in_transit l (with_frames fs t) = in_transit l t) →
  inv (moved m t fs (semas m) (holders m) (conds m)).
Proof.
  intros Hfs Haw Htr. pose proof (i_core _ Hi) as Hc.
  apply inv_moved; try done; [apply running_status|apply semas_same| | |by apply Hc|apply Hi].
  - intros s x Hx Hw. pose proof (c_wakeup _ Hc s x Hx Hw). specialize (Haw s).
    destruct (awake_down s t), (awake_down s (with_frames fs t)); cbn; lia.
  - intros l h Hl. destruct (c_lock _ Hc l h Hl) as (x & Hx & E). exists x. split; [done|].
    rewrite Htr. lia.
Qed.

Lemma wp_call_sema_down s : frames t = [] → is_sema m s → wp (sema_down s) (λ _ m', inv m') m.
Proof.
  intros Hf Hs. pose proof running_status as Hrun. destruct (i_intr _ Hi) as [Eon Ectx].
  unfold sema_down. apply wp_not_null; [apply (sema_not_null m); [apply Hi|apply Hs]|]. repeat wp_step; [by rewrite Ectx|].
  apply (wp_push_frames _ t); [done..|]. rewrite Hf.
  replace (set_threads _ m) with (moved m t [F_sema_down s] (semas m) (holders m) (conds m))
    by (unfold moved, set_threads; by rewrite Eon, Ectx).
  apply inv_frames; [done| |]; unfold awake_down, in_transit; cbn [head frames with_frames app]; rewrite Hf; cbn; [|done].
  intros s' H. by rewrite andb_false_r in H.
Qed.

Lemma wp_lock_acquire l rest : not_held m l (running m) → rest = [] →
  (frames t = [] ∨ frames t = [F_lock_acquire l]) → wp (lock_acquire l rest) (λ _ m', inv m') m.
Proof.
  intros Hl -> Hf. pose proof running_status as Hrun. destruct (i_intr _ Hi) as [Eon Ectx].
  pose proof Hl as [[h Hh] Hne]. pose proof (lock_not_null m l h (i_core _ Hi) Hh) as Hl0.
  unfold lock_acquire. apply wp_not_null; [done|]. repeat wp_step; [by rewrite Ectx|]. apply (wp_held _ t l h); [done..|].
  repeat wp_step. { apply negb_true_iff, Z.eqb_neq. congruence. }
  apply (wp_set_frames _ t); [done..|].
  replace (set_threads _ m) with (moved m t [F_sema_down l; F_set_holder l] (semas m) (holders m) (conds m))
    by (unfold moved, set_threads; by rewrite Eon, Ectx).
  apply inv_frames; [done| |]; unfold awake_down, in_transit; destruct Hf as [-> | ->]; cbn; try done;
    intros s' H; by rewrite andb_false_r in H.
Qed.

(** A value that goes down for a thread that moves on. *)
Lemma down_semas s x : semas m !! s = Some x → 0 < value x →
  ∀ s' x', <[s := mk_semaphore (wrap32 (value x - 1)) (waiters x)]> (semas m) !! s' = Some x' →
  0 ≤ value x' < 2 ^ 32 ∧
  (semas m !! s' = None ∧ s' ≠ NULL ∧ waiters x' = [] ∨ ∃ y, semas m !! s' = Some y ∧ waiters x' = waiters y).
Proof.
  intros Hx Hv s' x' [[<- <-]|[_ Hx']]%lookup_insert_Some; [|by apply semas_same].
  pose proof (c_value _ (i_core _ Hi) s x Hx) as [Hr _]. cbn. split; [apply wrap32_range|].
  right. by exists x.
Qed.

Lemma insert_is_Some {A} (x : gmap Z A) k v j : is_Some (x !! k) → is_Some (<[k := v]> x !! j) ↔ is_Some (x !! j).
Proof.
  intros Hk. rewrite lookup_insert_is_Some. destruct (decide (k = j)) as [<-|]; naive_solver.
Qed.

(** The decrement that ends [sema_down] or succeeds in [sema_try_down]: the
    thread moves on to [fs]. *)
Lemma inv_decrement s x fs :
  semas m !! s = Some x → 0 < value x → frames_ok m (running m) fs →
  (∀ s', awake_down s' t = true → awake_down s' (with_frames fs t) = false → s' = s) →
  (∀ l, is_lock m l → Z.b2z (in_transit l (with_frames fs t)) = Z.b2z (in_transit l t) + Z.b2z (s =? l)) →
  inv (moved m t fs (<[s := mk_semaphore (wrap32 (value x - 1)) (waiters x)]> (semas m)) (holders m) (conds m)).
Proof.
  intros Hx Hv Hfs Haw Htr. pose proof (i_core _ Hi) as Hc.
  pose proof (c_value _ Hc s x Hx) as [Hr _].
  assert (Hw : wrap32 (value x - 1) = value x - 1) by (apply wrap32_small; lia).
  assert (Hdom : ∀ j, is_Some (<[s := mk_semaphore (wrap32 (value x - 1)) (waiters x)]> (semas m) !! j)
    ↔ is_Some (semas m !! j)) by (intros; apply insert_is_Some; by eexists).
  assert (Hsema : ∀ w, is_sema m w → is_sema (moved m t fs
    (<[s := mk_semaphore (wrap32 (value x - 1)) (waiters x)]> (semas m)) (holders m) (conds m)) w).
  { intros w [? ?]. split; [by apply Hdom|done]. }
  apply inv_moved; try done; [apply running_status|by apply down_semas|intros; by apply Hdom| | | | |apply Hi].
  - unfold frames_ok in *.
    repeat match goal with |- context [match ?y with _ => _ end] => destruct y end; try done;
      destruct_and?; split_and?; try done; first [by apply Hsema|by apply Hdom].
  - intros s' x' [[<- <-]|[Hne Hx']]%lookup_insert_Some Hw'; cbn in *.
    + pose proof (c_wakeup _ Hc s x Hx Hw'). rewrite Hw.
      destruct (awake_down s t), (awake_down s (with_frames fs t)); cbn; lia.
    + pose proof (c_wakeup _ Hc s' x' Hx' Hw'). specialize (Haw s').
      destruct (awake_down s' t), (awake_down s' (with_frames fs t)); cbn; try lia.
  - intros l h Hl. destruct (c_lock _ Hc l h Hl) as (y & Hy & E).
    specialize (Htr l (ex_intro _ h Hl)). destruct (Z.eqb_spec s l) as [->|Hne].
    + exists (mk_semaphore (wrap32 (value x - 1)) (waiters x)). split; [apply lookup_insert_eq|].
      cbn [value]. rewrite Hw. cbn in Htr. assert (y = x) as -> by congruence. lia.
    + exists y. split; [by rewrite lookup_insert_ne|]. cbn in Htr. lia.
  - intros c ws w Hcw Hin. apply Hsema. by apply (c_conds _ Hc c ws).
Qed.

(** One round of [sema_down] that gets through. *)
Lemma wp_sema_down_through s rest x :
  frames t = F_sema_down s :: rest → semas m !! s = Some x → 0 < value x →
  wp (sema_down_round s rest) (λ _ m', inv m') m.
Proof.
  intros Hf Hx Hv. pose proof running_status as Hrun. destruct (i_intr _ Hi) as [Eon Ectx].
  pose proof (c_frames _ (i_core _ Hi) _ t Ht) as Hok. rewrite Hf in Hok.
  unfold sema_down_round. wp_step. apply wp_intr_disable. wp_step. apply (wp_deref _ _ x); [done|].
  rewrite (proj2 (Z.eqb_neq (value x) 0)) by lia. unfold put_sema. do 3 wp_step.
  apply (wp_set_frames _ t); [done..|]. apply wp_intr_set_level; [done|]. cbn [intr_context set_threads set_semas set_intr].
  rewrite Ectx.
  apply inv_decrement; [done..| | |].
  - destruct rest as [|[] [|]]; cbn in Hok |- *; naive_solver.
  - intros s' H _. unfold awake_down in H. rewrite Hf, Hrun in H. cbn in H. lia.
  - intros l [h Hl]. unfold in_transit. rewrite Hf.
    destruct rest as [|[] [|]]; cbn in Hok |- *; try done.
    + destruct Hok as [_ Hn]. destruct (Z.eqb_spec s l); [congruence|done].
    + destruct Hok as [-> _]. lia.
    + destruct Hok as [[_ Hn] _]. destruct (Z.eqb_spec s l); [congruence|done].
Qed.

(** [sema_try_down] by a thread that moves on to [fs] when it succeeds. *)
Lemma try_down_transit s fs : frames t = [] → is_sema m s ∧ fs = [] ∨ not_held m s (running m) ∧ fs = [F_set_holder s] →
  frames_ok m (running m) fs ∧
  (∀ s', awake_down s' t = true → awake_down s' (with_frames fs t) = false → s' = s) ∧
  (∀ l, is_lock m l → Z.b2z (in_transit l (with_frames fs t)) = Z.b2z (in_transit l t) + Z.b2z (s =? l)).
Proof.
  intros Hf Hfs. split_and?.
  - by destruct Hfs as [[_ ->]|[? ->]].
  - intros s' H. by rewrite awake_nil in H.
  - intros l [h Hl]. rewrite (in_transit_nil l t) by done. unfold in_transit.
    destruct Hfs as [[[_ Hn] ->]|[_ ->]]; cbn; [|lia]. destruct (Z.eqb_spec s l); [congruence|done].
Qed.

Lemma moved_same : inv m → moved m t (frames t) (semas m) (holders m) (conds m) = m.
Proof.
  intros H. destruct (i_intr _ H) as [E1 E2]. unfold moved.
  replace (with_frames (frames t) t) with t by (by destruct t).
  rewrite insert_id by done. destruct m; cbn in *; by subst.
Qed.

Lemma wp_sema_try_down s x Q : semas m !! s = Some x →
  (if 0 <? value x
   then Q true (set_semas (<[s := mk_semaphore (wrap32 (value x - 1)) (waiters x)]> (semas m)) m)
   else Q false m) →
  wp (sema_try_down s) Q m.
Proof.
  intros Hx HQ. destruct (i_intr _ Hi) as [Eon Ectx]. unfold sema_try_down, put_sema.
  apply wp_not_null; [apply (sema_not_null m); [apply Hi|by eexists]|]. wp_step. apply wp_intr_disable. wp_step. apply (wp_deref _ _ x); [done|]. rewrite Eon.
  destruct (0 <? value x); repeat wp_step; (apply wp_intr_set_level; [done|]); wp_step;
    unfold set_intr, set_semas in *; destruct m; cbn in *; by subst.
Qed.

Lemma wp_call_sema_try_down s : frames t = [] → is_sema m s →
  wp (sema_try_down s) (λ _ m', inv m') m.
Proof.
  intros Hf Hs. destruct (i_intr _ Hi) as [Eon Ectx]. pose proof Hs as [[x Hx] _].
  apply (wp_sema_try_down s x); [done|]. destruct (Z.ltb_spec 0 (value x)) as [Hv|Hv]; [|done].
  destruct (try_down_transit s [] Hf) as (H1 & H2 & H3); [by left|].
  pose proof (inv_decrement s x [] Hx Hv H1 H2 H3) as Hinv. unfold moved in Hinv.
  replace (with_frames [] t) with t in Hinv by (destruct t; cbn in *; by subst).
  rewrite insert_id in Hinv by done. unfold set_semas. by rewrite Eon, Ectx.
Qed.

Lemma wp_lock_try_acquire l : frames t = [] → not_held m l (running m) →
  wp (lock_try_acquire l) (λ _ m', inv m') m.
Proof.
  intros Hf Hl. pose proof running_status as Hrun. destruct (i_intr _ Hi) as [Eon Ectx].
  pose proof Hl as [[h Hh] Hne]. destruct (c_lock _ (i_core _ Hi) l h Hh) as (x & Hx & _).
  pose proof (lock_not_null m l h (i_core _ Hi) Hh) as Hl0.
  unfold lock_try_acquire. apply wp_not_null; [done|]. wp_step. apply (wp_held _ t l h); [done..|].
  repeat wp_step. { apply negb_true_iff, Z.eqb_neq. congruence. }
  apply (wp_sema_try_down l x); [done|]. destruct (Z.ltb_spec 0 (value x)) as [Hv|Hv]; cbn [when]; [|by repeat wp_step].
  wp_step. apply (wp_push_frames _ t); [done..|]. rewrite Hf. wp_step.
  destruct (try_down_transit l [F_set_holder l] Hf) as (H1 & H2 & H3); [by right|].
  pose proof (inv_decrement l x _ Hx Hv H1 H2 H3) as Hinv. unfold moved in Hinv.
  unfold set_semas, set_threads. cbn. by rewrite Eon, Ectx.
Qed.

End operations.

Section increment.
Context (m : machine) (t : thread) (Hi : inv m) (Ht : threads m !! running m = Some t).

(** The shapes do not depend on the values of the semaphores. *)
Lemma frames_ok_insert fs gs b s x y : semas m !! s = Some y → frames_ok m b gs →
  frames_ok (moved m t fs (<[s := x]> (semas m)) (holders m) (conds m)) b gs.
Proof.
  intros Hy. assert (Hdom : ∀ j, is_Some (<[s := x]> (semas m) !! j) ↔ is_Some (semas m !! j))
    by (intros; apply insert_is_Some; by eexists).
  unfold frames_ok, is_sema.
  repeat match goal with |- context [match ?z with _ => _ end] => destruct z end; try done;
    cbn [semas holders conds moved]; rewrite ?Hdom; done.
Qed.

(** The increment of [sema_up]. *)
Lemma inv_increment s x fs :
  (running m = idle_thread m → fs = []) →
  semas m !! s = Some x → value x < 2 ^ 32 - 1 → frames_ok m (running m) fs →
  (waiters x ≠ [] → value x + 1 ≤ count_entries (awake_down s) (threads m)) →
  (∀ s', awake_down s' t = true → awake_down s' (with_frames fs t) = true) →
  (∀ l, is_lock m l → Z.b2z (in_transit l (with_frames fs t)) = Z.b2z (in_transit l t) - Z.b2z (s =? l)) →
  inv (moved m t fs (<[s := mk_semaphore (wrap32 (value x + 1)) (waiters x)]> (semas m)) (holders m) (conds m)).
Proof.
  intros Hidle Hx Hv Hfs Hslack Haw Htr. pose proof (i_core _ Hi) as Hc.
  pose proof (c_value _ Hc s x Hx) as [Hr _].
  assert (Hw : wrap32 (value x + 1) = value x + 1) by (apply wrap32_small; lia). rewrite Hw.
  assert (Hdom : ∀ j, is_Some (<[s := mk_semaphore (value x + 1) (waiters x)]> (semas m) !! j)
    ↔ is_Some (semas m !! j)) by (intros; apply insert_is_Some; by eexists).
  apply inv_moved; try done;
    [by apply (running_status m)| |intros; by apply Hdom|by apply (frames_ok_insert _ _ _ _ _ x)| | | |apply Hi].
  - intros s' x' [[<- <-]|[_ Hx']]%lookup_insert_Some; [|by apply (semas_same m)].
    cbn. split; [lia|]. right. by exists x.
  - intros s' x' [[<- <-]|[Hne Hx']]%lookup_insert_Some Hw'; cbn in *.
    + specialize (Hslack Hw'). specialize (Haw s).
      destruct (awake_down s t), (awake_down s (with_frames fs t)); cbn; lia.
    + pose proof (c_wakeup _ Hc s' x' Hx' Hw'). specialize (Haw s').
      destruct (awake_down s' t), (awake_down s' (with_frames fs t)); cbn; lia.
  - intros l h Hl. destruct (c_lock _ Hc l h Hl) as (y & Hy & E).
    specialize (Htr l (ex_intro _ h Hl)). destruct (Z.eqb_spec s l) as [->|Hne].
    + exists (mk_semaphore (value x + 1) (waiters x)). split; [apply lookup_insert_eq|].
      cbn [value]. cbn in Htr. assert (y = x) as -> by congruence. lia.
    + exists y. split; [by rewrite lookup_insert_ne|]. cbn in Htr. lia.
  - intros c ws w Hcw Hin. destruct (c_conds _ Hc c ws w Hcw Hin). split; [by apply Hdom|done].
Qed.

End increment.

(** ** Waking a thread *)

Definition woken (m : machine) (s a : Z) (u : thread) (x : semaphore) (ws : list Z) : machine :=
  restatus m a u THREAD_READY (ready_list m ++ [a]) (all_list m)
    (<[s := mk_semaphore (value x) ws]> (semas m)) true.

Section waking.
Context (m : machine) (s : Z) (x : semaphore) (a : Z) (ws : list Z) (u : thread).
Context (Hi : inv m) (Hx : semas m !! s = Some x) (Hws : waiters x = a :: ws).
Context (Hu : threads m !! a = Some u) (Hb : status u = THREAD_BLOCKED).
Context (Hf : head (frames u) = Some (F_sema_down s)) (Hidle : a ≠ idle_thread m).

Lemma woken_awake s' : awake_down s' u = false ∧ awake_down s' (with_status THREAD_READY u) = (s =? s').
Proof. unfold awake_down. cbn. by rewrite Hb, Hf. Qed.

Lemma inv_woken : inv (woken m s a u x ws).
Proof.
  pose proof (i_core _ Hi) as Hc. destruct (c_value _ Hc s x Hx) as [Hv Hn]. rewrite Hws in Hn.
  apply NoDup_cons in Hn as [Ha Hn].
  assert (Har : a ∉ ready_list m) by (rewrite (c_ready _ Hc); intros (_ & v & Hv' & Hs); congruence).
  assert (Hrun : running m ≠ a) by (intros <-; destruct (i_running _ Hi) as (v & ? & ?); congruence).
  split.
  - apply core_restatus; try done; [congruence| | |apply Hc| | | |].
    + apply NoDup_app. split_and!; [apply Hc|set_solver|apply NoDup_singleton].
    + intros b. rewrite elem_of_app, list_elem_of_singleton. set_solver.
    + intros b. split; [|tauto]. by intros.
    + intros s' [y Hy]. by apply insert_is_Some; eexists.
    + intros s' y [[<- <-]|[Hne Hy]]%lookup_insert_Some; cbn.
      * exists x. split_and!; [done..|]. intros b. rewrite Hws. set_solver.
      * exists y. split_and!; [done..|by apply (c_value _ Hc s')|]. intros b. split; [|set_solver].
        intros Hin. left. split; [|done]. intros ->.
        destruct (c_waiting _ Hc s' y a Hy Hin) as (_ & v & Hv' & _ & E). congruence.
    + intros s' y Hy Hw'. destruct (woken_awake s') as [-> ->].
      assert (value y ≤ count_entries (awake_down s') (threads m)); [|destruct (s =? s'); cbn; lia].
      apply lookup_insert_Some in Hy as [[<- <-]|[Hne Hy]]; [|by apply (c_wakeup _ Hc)].
      apply (c_wakeup _ Hc s x); [done|by rewrite Hws].
  - destruct (i_running _ Hi) as (v & ? & ?). exists v. split; [|done]. cbn. by rewrite lookup_insert_ne.
  - intros b v. cbn. intros [[<- <-]|[Hne Hv']]%lookup_insert_Some; [done|by apply Hi].
  - split; [done|]. cbn. apply Hi.
Qed.

Lemma woken_count s' : count_entries (awake_down s') (threads (woken m s a u x ws)) =
  count_entries (awake_down s') (threads m) + Z.b2z (s =? s').
Proof.
  unfold woken. cbn. rewrite (count_entries_insert _ _ _ _ u) by done.
  destruct (woken_awake s') as [-> ->]. cbn. lia.
Qed.
End waking.

Lemma wp_thread_unblock m a u Q : (intr_on m = true → intr_context m = false) →
  threads m !! a = Some u → status u = THREAD_BLOCKED →
  Q tt (set_threads (<[a := with_status THREAD_READY u]> (threads m))
         (set_ready_list (ready_list m ++ [a]) m)) →
  wp (thread_unblock a) Q m.
Proof.
  intros Hon Hu Hb HQ. unfold thread_unblock, is_thread, put_thread. repeat wp_step.
  { by rewrite bool_decide_true. }
  apply wp_intr_disable. wp_step. apply (wp_deref _ _ u); [done|].
  repeat wp_step; [by rewrite bool_decide_true|]. apply wp_intr_set_level; [exact Hon|]. destruct m. exact HQ.
Qed.

Lemma wp_sema_up_empty m s x Q : s ≠ NULL → (intr_on m = true → intr_context m = false) →
  semas m !! s = Some x → waiters x = [] →
  Q tt (set_semas (<[s := mk_semaphore (wrap32 (value x + 1)) (waiters x)]> (semas m)) m) → wp (sema_up s) Q m.
Proof.
  intros H0 Hon Hx Hws HQ. unfold sema_up, put_sema. apply wp_not_null; [done|]. wp_step. apply wp_intr_disable. wp_step.
  apply (wp_deref _ _ x); [done|]. rewrite Hws. do 2 wp_step. wp_step. apply (wp_deref _ _ x); [done|].
  do 2 wp_step. apply wp_intr_set_level; [exact Hon|]. destruct m. exact HQ.
Qed.

Lemma wp_sema_up_wake m s x a ws u Q : s ≠ NULL → (intr_on m = true → intr_context m = false) →
  semas m !! s = Some x → waiters x = a :: ws →
  threads m !! a = Some u → status u = THREAD_BLOCKED →
  Q tt (set_semas (<[s := mk_semaphore (wrap32 (value x + 1)) ws]>
      (<[s := mk_semaphore (value x) ws]> (semas m)))
    (set_threads (<[a := with_status THREAD_READY u]> (threads m))
      (set_ready_list (ready_list m ++ [a]) m))) →
  wp (sema_up s) Q m.
Proof.
  intros H0 Hon Hx Hws Hu Hb HQ. unfold sema_up, put_sema. apply wp_not_null; [done|]. wp_step. apply wp_intr_disable. wp_step.
  apply (wp_deref _ _ x); [done|]. rewrite Hws. do 2 wp_step. wp_step.
  apply (wp_thread_unblock _ _ u); [done|done|done|].
  wp_step. apply (wp_deref _ _ (mk_semaphore (value x) ws)); [apply lookup_insert_eq|].
  do 2 wp_step. apply wp_intr_set_level; [exact Hon|]. destruct m. exact HQ.
Qed.

Lemma moved_eq m t fs se on ctx :
  let m1 := set_intr on ctx (set_threads (<[running m := with_frames fs t]> (threads m)) m) in
  set_semas se m1 = set_intr on ctx (moved m t fs se (holders m) (conds m)).
Proof. by destruct m. Qed.

Lemma moved_woken m t fs s a u x ws se on ctx : running m ≠ a →
  let m1 := set_intr on ctx (set_threads (<[running m := with_frames fs t]> (threads m)) m) in
  set_semas se (set_threads (<[a := with_status THREAD_READY u]> (threads m1))
    (set_ready_list (ready_list m1 ++ [a]) m1)) =
  set_intr on ctx (moved (woken m s a u x ws) t fs se (holders m) (conds m)).
Proof.
  intros Hne m1. unfold moved, woken, restatus. cbn [running threads].
  rewrite (insert_insert_ne _ (running m) a) by done. by destruct m.
Qed.

(** [sema_up] while the running thread moves on to [fs]. *)
Lemma wp_sema_up m t fs s x on ctx (Q : unit → machine → Prop) : (on = true → ctx = false) →
  inv m → threads m !! running m = Some t → (running m = idle_thread m → fs = []) →
  semas m !! s = Some x → value x < 2 ^ 32 - 1 → frames_ok m (running m) fs →
  (∀ s', awake_down s' t = true → awake_down s' (with_frames fs t) = true) →
  (∀ l, is_lock m l → Z.b2z (in_transit l (with_frames fs t)) = Z.b2z (in_transit l t) - Z.b2z (s =? l)) →
  (∀ m', inv m' → Q tt (set_intr on ctx m')) →
  wp (sema_up s) Q (set_intr on ctx (set_threads (<[running m := with_frames fs t]> (threads m)) m)).
Proof.
  intros Hon Hi Ht Hidle Hx Hv Hfs Haw Htr HQ. pose proof (i_core _ Hi) as Hc.
  assert (H0 : s ≠ NULL) by (apply (sema_not_null m); [done|by eexists]).
  pose proof (running_status m t Hi Ht) as Hrun.
  destruct (waiters x) as [|a ws] eqn:Hws.
  - apply (wp_sema_up_empty _ s x); [done..|]. rewrite moved_eq. apply HQ.
    cbn [semas set_threads set_intr]. by apply (inv_increment m t).
  - destruct (c_waiting _ Hc s x a Hx) as (Ha & u & Hu & Hb & Hf); [rewrite Hws; set_solver|].
    assert (Hne : running m ≠ a) by (intros <-; congruence).
    apply (wp_sema_up_wake _ s x a ws u); [done|done|done|done|cbn; by rewrite lookup_insert_ne|done|].
    rewrite (moved_woken m t fs s a u x ws) by done. cbn [semas set_threads set_intr]. apply HQ.
    assert (Hi' : inv (woken m s a u x ws)) by (by apply inv_woken).
    apply (inv_increment (woken m s a u x ws) t Hi') with (x := mk_semaphore (value x) ws); try done.
    + cbn. by rewrite lookup_insert_ne.
    + cbn. apply lookup_insert_eq.
    + apply restatus_frames_ok; [|done]. intros s' Hs'. apply insert_is_Some; [by eexists|done].
    + intros _. rewrite (woken_count m s x a ws u) by done. rewrite Z.eqb_refl.
      pose proof (c_wakeup _ Hc s x Hx) as Hwk. rewrite Hws in Hwk. specialize (Hwk ltac:(done)). cbn [value Z.b2z]. lia.
Qed.

Lemma set_intr_same m : inv m → set_intr true false m = m.
Proof. intros Hi. destruct (i_intr _ Hi). destruct m; cbn in *. by subst. Qed.

(** ** The operations on locks and conditions *)

Section holding.
Context (m : machine) (t : thread).
Context (Hi : inv m) (Ht : threads m !! running m = Some t).
Context (Hidle : running m ≠ idle_thread m).

Lemma running_not_null : running m ≠ NULL.
Proof. intros E. pose proof (c_null _ (i_core _ Hi)). rewrite E in Ht. congruence. Qed.

Lemma wp_run_sema_up s rest x : frames t = F_sema_up s :: rest → semas m !! s = Some x →
  value x < 2 ^ 32 - 1 → wp (set_frames rest ;; sema_up s) (λ _ m', inv m') m.
Proof.
  intros Hf Hx Hv. pose proof (running_status m t Hi Ht) as Hrun.
  pose proof (c_frames _ (i_core _ Hi) _ t Ht) as Hok. rewrite Hf in Hok.
  wp_step. apply (wp_set_frames _ t); [done..|].
  replace (set_threads _ m) with (set_intr true false (set_threads (<[running m := with_frames rest t]> (threads m)) m))
    by (destruct (i_intr _ Hi); destruct m; cbn in *; by subst).
  apply (wp_sema_up m t rest s x true false); try done; [| | |intros m' Hi'; by rewrite set_intr_same].
  - destruct rest as [|[] [|[] [|]]]; cbn in Hok |- *; naive_solver.
  - intros s' H. unfold awake_down in H. rewrite Hf, andb_false_r in H. done.
  - intros l Hl. unfold in_transit. rewrite Hf. destruct rest as [|[] [|[] ?]]; cbn in Hok |- *; try done;
      destruct (s =? l); cbn; lia.
Qed.

Lemma wp_call_sema_up s x : frames t = [] → is_sema m s → semas m !! s = Some x →
  value x < 2 ^ 32 - 1 → wp (sema_up s) (λ _ m', inv m') m.
Proof.
  intros Hf [_ Hn] Hx Hv.
  pose proof (wp_sema_up m t [] s x true false (λ _ m', inv m') ltac:(done) Hi Ht ltac:(done) Hx Hv I) as H.
  replace (with_frames [] t) with t in H by (destruct t; cbn in *; by subst).
  rewrite insert_id in H by done. replace (set_intr _ _ _) with m in H
    by (destruct (i_intr _ Hi); destruct m; cbn in *; by subst).
  apply H; [done| |intros m' Hi'; by rewrite set_intr_same]. intros l [h Hl].
  destruct (Z.eqb_spec s l); [congruence|]. by rewrite Z.sub_0_r.
Qed.

(** The last step of [lock_acquire]. *)
Lemma wp_set_holder l rest : frames t = F_set_holder l :: rest →
  wp (set_frames rest ;; put_holder l (running m)) (λ _ m', inv m') m.
Proof.
  intros Hf. pose proof (i_core _ Hi) as Hc. pose proof (running_status m t Hi Ht) as Hrun.
  destruct (i_intr _ Hi) as [Eon Ectx]. pose proof running_not_null as Hnull.
  pose proof (c_frames _ Hc _ t Ht) as Hok. rewrite Hf in Hok.
  destruct rest; [|done]. destruct Hok as [[h Hh] Hne]. destruct (c_lock _ Hc l h Hh) as (x & Hx & E).
  assert (Htr : ∀ l', in_transit l' t = (l =? l')) by (intros; unfold in_transit; by rewrite Hf).
  pose proof (transit_count m t Ht l ltac:(by rewrite Htr, Z.eqb_refl)) as Hpos.
  pose proof (c_value _ Hc l x Hx) as [Hr _].
  assert (h = NULL) as -> by (destruct (Z.eqb_spec h NULL); cbn in E; [done|lia]).
  unfold put_holder. wp_step. apply (wp_set_frames _ t); [done..|]. wp_step.
  replace (set_holders _ _) with (moved m t [] (semas m) (<[l := running m]> (holders m)) (conds m))
    by (unfold moved, set_holders, set_threads; cbn; by rewrite Eon, Ectx).
  apply inv_moved; try done; [by apply semas_same| | | | | |apply Hi].
  - intros l'. apply insert_is_Some. by eexists.
  - intros l' b Hb Hb0. destruct (decide (l = l')) as [<-|]; [rewrite lookup_insert_eq|by rewrite lookup_insert_ne].
    rewrite Hh. split; congruence.
  - intros s y Hy Hw. pose proof (c_wakeup _ Hc s y Hy Hw). rewrite (awake_nil s (with_frames [] t)) by done.
    assert (awake_down s t = false) as -> by (unfold awake_down; by rewrite Hf, andb_false_r). cbn. lia.
  - intros l' h'. rewrite Htr, (in_transit_nil l' (with_frames [] t)) by done.
    intros [[<- <-]|[Hne' Hl']]%lookup_insert_Some.
    + exists x. split; [done|]. rewrite Z.eqb_refl, (proj2 (Z.eqb_neq (running m) NULL)) by done. cbn in *. lia.
    + destruct (c_lock _ Hc l' h' Hl') as (y & Hy & E'). exists y. split; [done|].
      rewrite (proj2 (Z.eqb_neq l l')) by done. cbn. lia.
  - intros c ws w Hcw Hin. destruct (c_conds _ Hc c ws w Hcw Hin) as [Hs Hn]. split; [done|]. cbn.
    rewrite lookup_insert_ne; [done|]. intros ->. congruence.
Qed.

(** Clearing the holder of a lock, on the way to [sema_up]; [cond_wait] has
    initialized its own semaphore before. *)
Lemma inv_release l rest se co : frames t = [] → holders m !! l = Some (running m) →
  (∀ s x, se !! s = Some x → semas m !! s = Some x ∨
     s ≠ NULL ∧ holders m !! s = None ∧ x = mk_semaphore 0 [] ∧ ∀ y, semas m !! s = Some y → waiters y = []) →
  (∀ s, is_Some (semas m !! s) → is_Some (se !! s)) →
  (∀ c, is_Some (co !! c) ↔ is_Some (conds m !! c)) →
  (∀ c ws w, co !! c = Some ws → w ∈ ws → is_Some (se !! w) ∧ holders m !! w = None) →
  (rest = [] ∨ ∃ w, rest = [F_sema_down w; F_lock_acquire l] ∧ is_Some (se !! w) ∧ holders m !! w = None) →
  inv (moved m t (F_sema_up l :: rest) se (<[l := NULL]> (holders m)) co).
Proof.
  intros Hf Hl Hse Hdom Hco Hw Hrest. pose proof (i_core _ Hi) as Hc. pose proof running_not_null as Hnull.
  destruct (c_lock _ Hc l _ Hl) as (x & Hx & E). rewrite (proj2 (Z.eqb_neq (running m) NULL)) in E by done.
  assert (Hother : ∀ w h, <[l := NULL]> (holders m) !! w = Some h → is_Some (holders m !! w)).
  { intros w h [[<- _]|[_ ?]]%lookup_insert_Some; by eexists. }
  assert (Hnone : ∀ w, holders m !! w = None → <[l := NULL]> (holders m) !! w = None).
  { intros w Hn. apply lookup_insert_None. split; [done|]. congruence. }
  assert (Hval : ∀ s h, holders m !! s = Some h → se !! s = semas m !! s).
  { intros s h Hs. destruct (c_lock _ Hc s h Hs) as (y & Hy & _).
    destruct (Hdom s) as [z Hz]; [by eexists|]. destruct (Hse s z Hz) as [E'|(_ & Hn & _)]; congruence. }
  apply inv_moved; try done; [by apply (running_status m)| | | | | | | |apply Hi].
  - intros s y Hy. destruct (Hse s y Hy) as [Hy'|(H0 & _ & -> & Hy')]; [by apply semas_same|].
    cbn. split; [lia|]. destruct (semas m !! s) as [z|] eqn:Ez; [right|by left].
    exists z. split; [done|]. symmetry. by apply Hy'.
  - intros l'. apply insert_is_Some. by eexists.
  - intros l' b Hb Hb0. destruct (decide (l = l')) as [<-|]; [rewrite lookup_insert_eq|by rewrite lookup_insert_ne].
    rewrite Hl. split; congruence.
  - assert (Hsl : is_Some (se !! l)) by (rewrite (Hval l _ Hl), Hx; by eexists).
    destruct Hrest as [->|(w & -> & Hs & Hn)]; [done|]. split; [done|]. split; [split; [done|by apply Hnone]|].
    split; [by eexists; apply lookup_insert_eq|]. cbn. rewrite lookup_insert_eq. congruence.
  - intros s y Hy Hw'. rewrite (awake_nil s t) by done.
    assert (awake_down s (with_frames (F_sema_up l :: rest) t) = false) as -> by (unfold awake_down; apply andb_false_r).
    cbn.
    destruct (Hse s y Hy) as [Hy'|(_ & _ & -> & _)]; [|done]. pose proof (c_wakeup _ Hc s y Hy' Hw'). lia.
  - intros l' h'. rewrite (in_transit_nil l' t) by done. unfold in_transit at 2. cbn [head frames with_frames].
    intros [[<- <-]|[Hne Hl']]%lookup_insert_Some.
    + exists x. split; [by rewrite (Hval l _ Hl)|]. rewrite !Z.eqb_refl. cbn [Z.b2z negb] in *. lia.
    + destruct (c_lock _ Hc l' h' Hl') as (y & Hy & E'). exists y. split; [by rewrite (Hval l' h')|].
      rewrite (proj2 (Z.eqb_neq l l')) by done. cbn. lia.
  - intros c ws w Hcw Hin. destruct (Hw c ws w Hcw Hin). split; [done|by apply Hnone].
Qed.

Lemma wp_lock_release l : frames t = [] → holders m !! l = Some (running m) →
  wp (lock_release l) (λ _ m', inv m') m.
Proof.
  intros Hf Hl. pose proof (running_status m t Hi Ht) as Hrun. destruct (i_intr _ Hi) as [Eon Ectx].
  pose proof (lock_not_null m l _ (i_core _ Hi) Hl) as Hl0.
  unfold lock_release, put_holder. apply wp_not_null; [done|]. wp_step. apply (wp_held _ t l (running m)); [done..|].
  repeat wp_step; [apply Z.eqb_refl|]. apply (wp_push_frames _ t); [done..|]. rewrite Hf.
  replace (set_threads _ _) with (moved m t [F_sema_up l] (semas m) (<[l := NULL]> (holders m)) (conds m))
    by (unfold moved, set_holders, set_threads; cbn; by rewrite Eon, Ectx).
  apply inv_release; try done; [by left|apply (i_core _ Hi)|by left].
Qed.

Lemma wp_cond_wait c l w : frames t = [] → holders m !! l = Some (running m) → is_cond m c →
  w ≠ NULL → holders m !! w = None → (∀ y, semas m !! w = Some y → waiters y = []) →
  wp (cond_wait c l w) (λ _ m', inv m') m.
Proof.
  intros Hf Hl Hcond Hw0 Hn Hfree. pose proof Hcond as [ws Hws].
  pose proof (lock_not_null m l _ (i_core _ Hi) Hl) as Hl0. pose proof (cond_not_null m c (i_core _ Hi) Hcond) as Hc0. pose proof (running_status m t Hi Ht) as Hrun.
  destruct (i_intr _ Hi) as [Eon Ectx].
  set (se := <[w := mk_semaphore 0 []]> (semas m)). set (co := <[c := ws ++ [w]]> (conds m)).
  assert (Hw : is_Some (se !! w)) by (eexists; apply lookup_insert_eq).
  assert (Hinv : inv (moved m t [F_sema_up l; F_sema_down w; F_lock_acquire l] se (<[l := NULL]> (holders m)) co)).
  { apply inv_release; [done|done| | | | |right; by exists w].
    - intros s x [[<- <-]|[_ Hx]]%lookup_insert_Some; [by right|by left].
    - intros s Hs. apply lookup_insert_is_Some. destruct (decide (w = s)); [by left|by right].
    - intros c'. by apply insert_is_Some.
    - assert (Hold : ∀ c' ws' w', conds m !! c' = Some ws' → w' ∈ ws' → is_Some (se !! w') ∧ holders m !! w' = None).
      { intros c' ws' w' Hc' Hin. destruct (c_conds _ (i_core _ Hi) c' ws' w' Hc' Hin) as [Hs Hh]. split; [|done].
        apply lookup_insert_is_Some. destruct (decide (w = w')); [by left|by right]. }
      intros c' ws' w' [[<- <-]|[_ Hc']]%lookup_insert_Some Hin; [|by apply (Hold c' ws')].
      apply elem_of_app in Hin as [Hin| ->%list_elem_of_singleton]; [by apply (Hold c ws)|done]. }
  unfold cond_wait, sema_init, put_sema, lock_release, put_holder.
  do 2 (apply wp_not_null; [done|]). repeat wp_step; [by rewrite Ectx|]. apply (wp_held _ t l (running m)); [done..|].
  do 2 wp_step; [apply Z.eqb_refl|]. wp_step. apply wp_not_null; [done|].
  repeat wp_step. apply (wp_deref _ _ ws); [done|]. do 3 wp_step.
  apply (wp_push_frames _ t); [done..|]. apply wp_not_null; [done|]. wp_step. rewrite Hf.
  apply (wp_held _ (with_frames [F_sema_down w; F_lock_acquire l] t) l (running m)); [apply lookup_insert_eq|done..|].
  repeat wp_step; [apply Z.eqb_refl|].
  apply (wp_push_frames _ (with_frames [F_sema_down w; F_lock_acquire l] t)); [apply lookup_insert_eq|done|].
  unfold set_threads at 1. cbn [threads set_threads set_holders running]. rewrite insert_insert_eq.
  unfold moved in Hinv. rewrite <-Ectx in Hinv. rewrite <-Eon in Hinv at 1. exact Hinv.
Qed.

(** Taking the first waiter of a condition. *)
Lemma inv_signal c l w ws : is_cond m c → conds m !! c = Some (w :: ws) →
  holders m !! l = Some (running m) →
  (frames t = [] ∨ frames t = [F_cond_broadcast c l]) →
  inv (moved m t (F_sema_up w :: frames t) (semas m) (holders m) (<[c := ws]> (conds m))).
Proof.
  intros Hcond Hws Hl Hf. pose proof (i_core _ Hi) as Hc.
  destruct (c_conds _ Hc c (w :: ws) w Hws) as [Hw Hn]; [set_solver|].
  assert (Hco : ∀ c', is_Some (conds m !! c') → is_Some (<[c := ws]> (conds m) !! c'))
    by (intros c' ?; by apply insert_is_Some).
  apply inv_moved; try done; [by apply (running_status m)|by apply semas_same|intros; by apply insert_is_Some| | | | |apply Hi].
  - destruct Hf as [-> | ->]; [done|]. split; [done|]. split; [by apply Hco|done].
  - intros s y Hy Hw'. pose proof (c_wakeup _ Hc s y Hy Hw').
    assert (awake_down s t = false) as -> by (unfold awake_down; destruct Hf as [-> | ->]; apply andb_false_r).
    unfold awake_down at 2. cbn [status frames with_frames head]. rewrite andb_false_r. cbn. lia.
  - intros l' h Hl'. destruct (c_lock _ Hc l' h Hl') as (y & Hy & E). exists y. split; [done|].
    assert (in_transit l' t = false) as -> by (unfold in_transit; destruct Hf as [-> | ->]; done).
    assert (in_transit l' (with_frames (F_sema_up w :: frames t) t) = false) as ->
      by (apply Z.eqb_neq; congruence). cbn. lia.
  - intros c' ws' w' [[<- <-]|[_ Hc']]%lookup_insert_Some Hin.
    + apply (c_conds _ Hc c (w :: ws)); [done|set_solver].
    + by apply (c_conds _ Hc c' ws').
Qed.

Lemma wp_cond_signal c l : is_cond m c → holders m !! l = Some (running m) →
  (frames t = [] ∨ frames t = [F_cond_broadcast c l]) →
  wp (cond_signal c l) (λ _ m', inv m') m.
Proof.
  intros Hcond Hl Hf. pose proof (running_status m t Hi Ht) as Hrun. destruct (i_intr _ Hi) as [Eon Ectx].
  pose proof Hcond as [ws Hws].
  pose proof (lock_not_null m l _ (i_core _ Hi) Hl) as Hl0. pose proof (cond_not_null m c (i_core _ Hi) Hcond) as Hc0.
  unfold cond_signal. do 2 (apply wp_not_null; [done|]). repeat wp_step; [by rewrite Ectx|].
  apply (wp_held _ t l (running m)); [done..|]. repeat wp_step; [apply Z.eqb_refl|].
  apply (wp_deref _ _ ws); [done|]. destruct ws as [|w ws]; [by wp_step|]. repeat wp_step.
  apply (wp_push_frames _ t); [done..|]. cbn [app].
  replace (set_threads _ _) with (moved m t (F_sema_up w :: frames t) (semas m) (holders m) (<[c := ws]> (conds m)))
    by (unfold moved, set_conds, set_threads; cbn; by rewrite Eon, Ectx).
  by apply (inv_signal c l).
Qed.

Lemma broadcast_frames c l fs : is_cond m c → holders m !! l = Some (running m) →
  frames t = [] ∧ fs = [F_cond_broadcast c l] ∨ frames t = [F_cond_broadcast c l] ∧ fs = [] →
  inv (set_threads (<[running m := with_frames fs t]> (threads m)) m).
Proof.
  intros Hcond Hl Hfs. destruct (i_intr _ Hi) as [Eon Ectx].
  replace (set_threads _ m) with (moved m t fs (semas m) (holders m) (conds m))
    by (unfold moved, set_threads; by rewrite Eon, Ectx).
  apply inv_frames; try done.
  - by destruct Hfs as [[_ ->]|[_ ->]].
  - intros s. unfold awake_down. destruct Hfs as [[-> _]|[-> _]]; cbn; by rewrite andb_false_r.
  - intros l'. unfold in_transit. by destruct Hfs as [[-> ->]|[-> ->]].
Qed.

Lemma wp_cond_broadcast c l : is_cond m c → holders m !! l = Some (running m) → frames t = [] →
  wp (cond_broadcast c l) (λ _ m', inv m') m.
Proof.
  intros Hcond Hl Hf. pose proof (lock_not_null m l _ (i_core _ Hi) Hl) as Hl0.
  pose proof (cond_not_null m c (i_core _ Hi) Hcond) as Hc0.
  unfold cond_broadcast. do 2 (apply wp_not_null; [done|]). apply (wp_push_frames _ t); [done|by apply (running_status m)|]. rewrite Hf.
  apply (broadcast_frames c l); [done..|by left].
Qed.

Lemma wp_cond_broadcast_round c l : is_cond m c → holders m !! l = Some (running m) →
  frames t = [F_cond_broadcast c l] → wp (cond_broadcast_round c l []) (λ _ m', inv m') m.
Proof.
  intros Hcond Hl Hf. pose proof Hcond as [ws Hws]. unfold cond_broadcast_round. wp_step.
  apply (wp_deref _ _ ws); [done|]. destruct ws as [|w ws].
  - apply (wp_set_frames _ t); [done|by apply (running_status m)|].
    apply (broadcast_frames c l); [done..|by right].
  - apply wp_cond_signal; [done..|by right].
Qed.

End holding.

(** ** The operations that sleep *)

Section sleeping.
Context (m : machine) (t : thread) (Hi : inv m) (Ht : threads m !! running m = Some t).

(** The machine when the running thread has left the processor. *)
Definition parked (st : thread_status) (rl al : list Z) (se : gmap Z semaphore) : machine :=
  restatus m (running m) t st rl al se false.

Lemma suspended_parked st rl al se :
  core (parked st rl al se) → st ≠ THREAD_RUNNING → suspended (parked st rl al se).
Proof.
  intros Hc Hst. split; [done| | |].
  - exists (with_status st t). apply lookup_insert_eq.
  - intros a u. cbn. intros [[<- <-]|[Hne Hu]]%lookup_insert_Some; [done|].
    intros Hs. by destruct Hne; symmetry; eapply i_unique.
  - split; [done|]. apply Hi.
Qed.

(** A thread that waits for nothing. *)
Lemma core_parked st rl al :
  (st = THREAD_DYING → frames t = [] ∧ running m ≠ idle_thread m) →
  NoDup rl → (∀ b, b ∈ rl ↔ b ∈ ready_list m ∨
    b = running m ∧ st = THREAD_READY ∧ running m ≠ idle_thread m) →
  NoDup al → (∀ b, b ∈ al ↔ b ∈ all_list m ∧ (b = running m → st ≠ THREAD_DYING)) →
  (st = THREAD_BLOCKED → running m = idle_thread m) →
  (st ≠ THREAD_READY → frames t = []) →
  core (parked st rl al (semas m)).
Proof.
  intros Hdie Hn Hrl Hn' Hal Hblk Hfr. pose proof (i_core _ Hi) as Hc.
  pose proof (running_status m t Hi Ht) as Hrun.
  apply core_restatus; try done.
  - congruence.
  - intros b. rewrite Hrl. split; [|naive_solver]. intros [Hb|Hb]; [|by right]. left. split; [|done].
    intros ->. apply (c_ready _ Hc) in Hb as (_ & u & Hu & Hs). congruence.
  - intros s x Hx. exists x. split_and!; [done..|by apply (c_value _ Hc s)|]. intros b. split.
    + intros Hb. left. split; [|done]. intros ->.
      destruct (c_waiting _ Hc s x _ Hx Hb) as (_ & u & Hu & Hs & _). congruence.
    + intros [[_ Hb]|(_ & Hs & Hne & _)]; [done|]. by apply Hblk in Hs.
  - intros Hs Hne. by apply Hblk in Hs.
  - intros s x Hx Hw. pose proof (c_wakeup _ Hc s x Hx Hw).
    assert (awake_down s (with_status st t) = awake_down s t) as ->; [|lia].
    unfold awake_down. cbn. destruct (decide (st = THREAD_READY)) as [->|Hne]; [by rewrite Hrun|].
    rewrite (Hfr Hne). cbn. by rewrite !andb_false_r.
Qed.

Lemma wp_thread_block Q m1 : intr_context m1 = false → intr_on m1 = false →
  threads m1 !! running m1 = Some t → status t = THREAD_RUNNING →
  suspended (set_threads (<[running m1 := with_status THREAD_BLOCKED t]> (threads m1)) m1) →
  Q tt (switched (set_threads (<[running m1 := with_status THREAD_BLOCKED t]> (threads m1)) m1)) →
  wp thread_block Q m1.
Proof.
  intros Ectx Eon Ht1 Hrun Hs HQ. unfold thread_block.
  repeat wp_step; [by rewrite Ectx|by rewrite Eon|]. apply (wp_thread_current _ t); [done..|].
  wp_step. apply (wp_set_status _ _ t); [done|]. by apply wp_schedule.
Qed.

(** The machine after a call of [thread_yield]. *)
Definition yielded : machine :=
  set_intr true (intr_context m) (switched (parked THREAD_READY
    (ready_list m ++ if running m =? idle_thread m then [] else [running m]) (all_list m) (semas m))).

Lemma running_not_ready : running m ∉ ready_list m.
Proof.
  rewrite (c_ready _ (i_core _ Hi)). intros (_ & u & Hu & Hs).
  pose proof (running_status m t Hi Ht). congruence.
Qed.

Lemma suspended_yield : suspended (parked THREAD_READY
  (ready_list m ++ if running m =? idle_thread m then [] else [running m]) (all_list m) (semas m)).
Proof.
  pose proof (i_core _ Hi) as Hc. pose proof running_not_ready as Hr.
  apply suspended_parked; [|done]. apply core_parked; try done; [| |apply Hc|].
  - destruct (_ =? _); rewrite ?app_nil_r; [apply Hc|]. apply NoDup_app.
    split_and!; [apply Hc|set_solver|apply NoDup_singleton].
  - intros b. destruct (Z.eqb_spec (running m) (idle_thread m)); rewrite ?app_nil_r; [naive_solver|].
    rewrite elem_of_app, list_elem_of_singleton. naive_solver.
  - naive_solver.
Qed.

Lemma inv_yielded : inv yielded.
Proof. apply (inv_switched _ suspended_yield). Qed.

Lemma wp_thread_yield on Q : Q tt yielded → wp thread_yield Q (set_intr on false m).
Proof.
  intros HQ. pose proof (running_status m t Hi Ht) as Hrun. destruct (i_intr _ Hi) as [Eon Ectx].
  unfold thread_yield, resume. wp_step. apply (wp_thread_current _ t); [done..|].
  repeat wp_step; [done|]. apply wp_intr_disable. do 2 wp_step.
  unfold yielded in HQ. pose proof suspended_yield as Hs. unfold parked, restatus in HQ, Hs. rewrite Ectx in HQ, Hs.
  cbn [idle_thread running intr_context set_intr].
  destruct (Z.eqb_spec (running m) (idle_thread m)) as [E|E]; cbn [negb when]; do 2 wp_step; wp_step;
    (apply (wp_set_status _ _ t); [done|]); wp_step.
  - rewrite app_nil_r in HQ, Hs. apply wp_schedule; [done|]. apply wp_intr_set_level; [done|]. exact HQ.
  - apply wp_schedule; [done|]. apply wp_intr_set_level; [done|]. exact HQ.
Qed.

Lemma wp_thread_exit : running m ≠ idle_thread m → frames t = [] → wp thread_exit (λ _ m', inv m') m.
Proof.
  intros Hidle Hf. pose proof (running_status m t Hi Ht) as Hrun. destruct (i_intr _ Hi) as [Eon Ectx].
  pose proof (i_core _ Hi) as Hc.
  assert (Hs : suspended (parked THREAD_DYING (ready_list m) (filter (λ x, x ≠ running m) (all_list m)) (semas m))).
  { apply suspended_parked; [|done]. apply core_parked; try done; [apply Hc|naive_solver| |].
    - apply NoDup_filter, Hc.
    - intros b. rewrite list_elem_of_filter. naive_solver. }
  unfold thread_exit, resume. repeat wp_step; [by rewrite Ectx|]. apply wp_intr_disable.
  wp_step. apply (wp_thread_current _ t); [done..|]. do 2 wp_step. wp_step. apply (wp_set_status _ _ t); [done|].
  wp_step. apply wp_schedule; [exact Hs|]. apply wp_intr_set_level; [done|]. exact (inv_switched _ Hs).
Qed.

(** The idle thread blocks itself without waiting for anything. *)
Lemma wp_idle_step : running m = idle_thread m → wp idle_step (λ _ m', inv m') m.
Proof.
  intros Hidle. pose proof (running_status m t Hi Ht) as Hrun. destruct (i_intr _ Hi) as [Eon Ectx].
  pose proof (i_core _ Hi) as Hc. destruct (c_idle _ Hc) as (u & Hu & Hf & _). rewrite <-Hidle in Hu.
  assert (u = t) as -> by congruence.
  assert (Hs : suspended (parked THREAD_BLOCKED (ready_list m) (all_list m) (semas m))).
  { apply suspended_parked; [|done]. apply core_parked; try done; [apply Hc|naive_solver|apply Hc|naive_solver]. }
  unfold idle_step, resume. wp_step. apply wp_intr_disable. wp_step.
  apply wp_thread_block; [done..|]. apply wp_intr_set_level; [done|]. exact (inv_switched _ Hs).
Qed.

(** A round of [sema_down] that has to wait. *)
Lemma wp_sema_down_wait s rest x : running m ≠ idle_thread m →
  frames t = F_sema_down s :: rest → semas m !! s = Some x → value x = 0 →
  wp (sema_down_round s rest) (λ _ m', inv m') m.
Proof.
  intros Hidle Hf Hx Hv. pose proof (running_status m t Hi Ht) as Hrun. destruct (i_intr _ Hi) as [Eon Ectx].
  pose proof (i_core _ Hi) as Hc. destruct (c_value _ Hc s x Hx) as [_ Hn].
  set (se := <[s := mk_semaphore (value x) (waiters x ++ [running m])]> (semas m)).
  assert (Hnot : ∀ s' y, semas m !! s' = Some y → running m ∉ waiters y).
  { intros s' y Hy Hin. destruct (c_waiting _ Hc s' y _ Hy Hin) as (_ & u & Hu & Hs & _). congruence. }
  assert (Hs : suspended (parked THREAD_BLOCKED (ready_list m) (all_list m) se)).
  { apply suspended_parked; [|done]. pose proof running_not_ready as Hr.
    apply core_restatus; try done; [congruence|apply Hc|set_solver|apply Hc|naive_solver| | | |].
    - intros s' Hs'. apply insert_is_Some; [by eexists|done].
    - intros s' y [[<- <-]|[Hne Hy]]%lookup_insert_Some; cbn.
      + exists x. split_and!; [done..| |].
        * apply NoDup_app. split_and!; [done| |apply NoDup_singleton]. specialize (Hnot s x Hx). set_solver.
        * intros b. rewrite elem_of_app, list_elem_of_singleton, Hf. specialize (Hnot s x Hx). set_solver.
      + exists y. split_and!; [done..|by apply (c_value _ Hc s')|]. specialize (Hnot s' y Hy).
        intros b. rewrite Hf. set_solver.
    - intros _ _. exists s. rewrite Hf. split; [done|by eexists].
    - intros s' y Hy Hw. unfold awake_down at 3. cbn [status with_status andb].
      assert (awake_down s' t = (s =? s')) as -> by (unfold awake_down; by rewrite Hrun, Hf).
      apply lookup_insert_Some in Hy as [[<- <-]|[Hne Hy]].
      + pose proof (awake_count m t Ht s) as Hpos. unfold awake_down in Hpos at 1. rewrite Hrun, Hf in Hpos.
        cbn in Hpos. rewrite Z.eqb_refl in *. specialize (Hpos eq_refl). cbn [value Z.b2z]. lia.
      + pose proof (c_wakeup _ Hc s' y Hy Hw). rewrite (proj2 (Z.eqb_neq s s')) by done. cbn. lia. }
  unfold sema_down_round, put_sema, resume. wp_step. apply wp_intr_disable. wp_step.
  apply (wp_deref _ _ x); [done|]. rewrite Hv, Z.eqb_refl. wp_step. apply (wp_thread_current _ t); [done..|].
  do 2 wp_step. wp_step. rewrite <-Hv. apply wp_thread_block; [done..|]. apply wp_intr_set_level; [done|]. exact (inv_switched _ Hs).
Qed.

End sleeping.

(** ** The timer *)

Lemma inv_ticks m n st : inv m → inv (set_ticks n st m).
Proof. intros [[] ? ? ?]. by split; [split|..]. Qed.

(** An external interrupt whose handler keeps the invariant. *)
Lemma wp_intr_handler m (handler : M machine bool) (Q : machine → Prop) : inv m →
  wp handler (λ y m1, ∃ m2, m1 = set_intr false true m2 ∧ inv m2 ∧
    ∀ t, threads m2 !! running m2 = Some t → Q (if y then yielded m2 t else m2)) (set_intr false true m) →
  wp (intr_handler handler) (λ _ m', inv m' ∧ Q m') m.
Proof.
  intros Hi Hh. destruct (i_intr _ Hi) as [Eon Ectx]. unfold intr_handler.
  repeat wp_step; [done|cbn; by rewrite Ectx|].
  eapply wp_mono; [exact Hh|]. intros y m1 (m2 & -> & Hi2 & HQ). destruct (i_running _ Hi2) as (t & Ht & Hrun).
  cbv beta. do 4 wp_step; [done|]. do 4 wp_step; [done|]. specialize (HQ t Ht). destruct y; cbn [when].
  - repeat wp_step. apply (wp_thread_yield m2 t Hi2 Ht false). wp_step. pose proof (inv_yielded m2 t Hi2 Ht) as Hy.
    destruct (i_intr _ Hy) as [E1 E2]. rewrite E2, set_intr_same by done. done.
  - repeat wp_step. change (inv (set_intr true false m2) ∧ Q (set_intr true false m2)). by rewrite set_intr_same.
Qed.

(** [sema_up] by an interrupt handler. *)
Lemma wp_intr_sema_up m s x : inv m → is_sema m s → semas m !! s = Some x → value x < 2 ^ 32 - 1 →
  wp (intr_handler (sema_up s ;; mret false)) (λ _ m', inv m' ∧ True) m.
Proof.
  intros Hi [_ Hn] Hx Hv. destruct (i_running _ Hi) as (t & Ht & Hrun).
  apply (wp_intr_handler m _ (λ _, True)); [done|]. wp_step.
  replace (set_intr false true m) with (set_intr false true
    (set_threads (<[running m := with_frames (frames t) t]> (threads m)) m)).
  2:{ replace (with_frames (frames t) t) with t by (by destruct t). rewrite insert_id by done. by destruct m. }
  apply (wp_sema_up m t (frames t) s x); try done.
  - intros E. destruct (c_idle _ (i_core _ Hi)) as (u & Hu & Hf & _). rewrite E in Ht. congruence.
  - by apply (i_core _ Hi).
  - intros l [h Hl]. replace (with_frames (frames t) t) with t by (by destruct t).
    destruct (Z.eqb_spec s l); [congruence|]. by rewrite Z.sub_0_r.
  - intros m' Hi'. wp_step. by exists m'.
Qed.

(** The timer. *)
Lemma wp_timer_interrupt m (Q : machine → Prop) : inv m →
  (∀ t st, threads m !! running m = Some t →
     let n := wrap32 (thread_ticks m + 1) in let m1 := set_ticks n st m in
     Q (if TIME_SLICE <=? n then yielded m1 t else m1)) →
  wp (intr_handler timer_interrupt) (λ _ m', inv m' ∧ Q m') m.
Proof.
  intros Hi HQ. destruct (i_running _ Hi) as (t & Ht & Hrun).
  apply wp_intr_handler; [done|]. unfold timer_interrupt, thread_tick, count_tick.
  do 2 wp_step. cbn [stats set_intr]. destruct (stats m) as [[[i k] u] n] eqn:Est.
  wp_step. apply (wp_thread_current _ t); [done..|]. wp_step. apply (wp_deref _ _ t); [done|]. do 2 wp_step.
  cbn [id stats set_ticks]. repeat wp_step.
  match goal with |- context [set_ticks ?n1 ?st _] => exists (set_ticks n1 st m) end. split; [done|].
  split; [by apply inv_ticks|]. intros t' Ht'. apply HQ. done.
Qed.
