(* ===== verification/Machine.v ===== *)
(** * The machine as a transition system

    The reachable states of [Thread]: an event is the next step of an
    unfinished call, a new call by a thread that keeps the rules of the
    interface, a round of the idle thread, a timer interrupt, or a [sema_up]
    by an interrupt handler.  [enabled] states the rules: locks are released
    by their holders and not acquired twice, conditions are used with the lock
    held, semaphores do not count beyond [UINT_MAX]. *)
From S2P Require Import Prelude Thread Synch.

(** The function an operation applies. *)
Ltac head_of t := match t with ?f _ => head_of f | _ => t end.

(** ** Events *)

Inductive event :=
  | E_run
  | E_call (c : call)
  | E_idle
  | E_tick
  | E_intr_up (s : Z).

#[export] Instance call_eq_dec : EqDecision call.
Proof. solve_decision. Defined.
#[export] Instance event_eq_dec : EqDecision event.
Proof. solve_decision. Defined.

Definition run_event (e : event) : M machine unit :=
  match e with
  | E_run => run_frame
  | E_call c => run_call c
  | E_idle => idle_step
  | E_tick => intr_handler timer_interrupt
  | E_intr_up s => intr_handler (sema_up s ;; mret false)
  end.

Definition sema_exists (m : machine) (s : Z) : bool :=
  bool_decide (is_Some (semas m !! s) ∧ holders m !! s = None).
Definition holds (m : machine) (l : Z) : bool := bool_decide (holders m !! l = Some (running m)).
Definition lock_exists (m : machine) (l : Z) : bool := bool_decide (is_Some (holders m !! l)).
Definition cond_exists (m : machine) (c : Z) : bool := bool_decide (is_Some (conds m !! c)).
Definition room (m : machine) (s : Z) : bool :=
  match semas m !! s with Some x => value x <? 2 ^ 32 - 1 | None => false end.

(** The storage of a semaphore that is not in use. *)
Definition unused (m : machine) (w : Z) : bool :=
  not_null w && bool_decide (holders m !! w = None) &&
  match semas m !! w with Some x => bool_decide (waiters x = []) | None => true end.

Definition allowed (m : machine) (c : call) : bool :=
  match c with
  | C_sema_down s | C_sema_try_down s => sema_exists m s
  | C_sema_up s => sema_exists m s && room m s
  | C_lock_acquire l | C_lock_try_acquire l => lock_exists m l && negb (holds m l)
  | C_lock_release l => holds m l
  | C_cond_wait c l w => holds m l && cond_exists m c && unused m w
  | C_cond_signal c l | C_cond_broadcast c l => holds m l && cond_exists m c
  | C_yield | C_exit => true
  end.

Definition running_frames (m : machine) : list frame := from_option frames [] (threads m !! running m).

Definition enabled (m : machine) (e : event) : bool :=
  match e with
  | E_run =>
      match running_frames m with
      | [] => false
      | F_sema_up s :: _ => room m s
      | _ => true
      end
  | E_call c =>
      negb (running m =? idle_thread m) && bool_decide (running_frames m = []) && allowed m c
  | E_idle => running m =? idle_thread m
  | E_tick => true
  | E_intr_up s => sema_exists m s && room m s
  end.

Inductive step : machine → machine → Prop :=
  | step_event e m m' : enabled m e = true → run_event e m = Ok (tt, m') → step m m'.

(** The machine when the threads [others] have been created beside the initial
    thread and the idle thread, with semaphores of the values [vals], the
    locks [ls] and the conditions [cs]. *)
Definition boot_thread (n : Z) (st : thread_status) : thread := mk_thread n st 31 false [].
Definition boot (main idle : Z) (others : list Z) (vals : gmap Z Z) (ls cs : gset Z) : machine :=
  mk_machine
    (<[main := boot_thread 1 THREAD_RUNNING]> (<[idle := boot_thread 2 THREAD_BLOCKED]>
      (gset_to_gmap (boot_thread 3 THREAD_READY) (list_to_set others))))
    others (main :: idle :: others) idle main main 0 (0, 0, 0, 0) true false
    (((λ v, mk_semaphore v []) <$> vals) ∪ gset_to_gmap (mk_semaphore 1 []) ls)
    (gset_to_gmap NULL ls) (gset_to_gmap [] cs).

Definition boot_ok (main idle : Z) (others : list Z) (vals : gmap Z Z) (ls cs : gset Z) : Prop :=
  NoDup (NULL :: main :: idle :: others) ∧
  (∀ s v, vals !! s = Some v → 0 ≤ v < 2 ^ 32 ∧ s ∉ ls ∧ s ≠ NULL) ∧
  NULL ∉ ls ∧ NULL ∉ cs.

(** ** The invariant of the reachable states *)

Lemma boot_lookup main idle others vals ls cs a t :
  boot_ok main idle others vals ls cs →
  threads (boot main idle others vals ls cs) !! a = Some t ↔
  a = main ∧ t = boot_thread 1 THREAD_RUNNING ∨ a = idle ∧ t = boot_thread 2 THREAD_BLOCKED ∨
  a ∈ others ∧ t = boot_thread 3 THREAD_READY.
Proof.
  intros [Hn _]. cbn. rewrite !lookup_insert_Some, lookup_gset_to_gmap_Some, elem_of_list_to_set.
  rewrite !NoDup_cons in Hn. set_solver.
Qed.

Lemma boot_sema main idle others vals ls cs s x :
  boot_ok main idle others vals ls cs →
  semas (boot main idle others vals ls cs) !! s = Some x →
  waiters x = [] ∧ 0 ≤ value x < 2 ^ 32.
Proof.
  intros (_ & Hv & _). cbn. rewrite lookup_union_Some_raw, lookup_fmap, lookup_gset_to_gmap_Some.
  intros [H|[_ [_ <-]]]; [|split; [done|cbn; lia]].
  destruct (vals !! s) as [v|] eqn:E; [|done]. injection H as <-. split; [done|by apply (Hv s v)].
Qed.

Lemma inv_boot main idle others vals ls cs :
  boot_ok main idle others vals ls cs → inv (boot main idle others vals ls cs).
Proof.
  intros Hb. pose proof (λ a t, boot_lookup main idle others vals ls cs a t Hb) as Hl.
  pose proof (λ s x, boot_sema main idle others vals ls cs s x Hb) as Hs.
  destruct Hb as (Hn & Hv & Hls & Hcs). rewrite !NoDup_cons in Hn. destruct Hn as (H0 & H1 & H2 & H3).
  set (m := boot _ _ _ _ _ _) in *.
  assert (Hnil : ∀ a t, threads m !! a = Some t → frames t = []) by (intros a t Ht%Hl; naive_solver).
  split; [|exists (boot_thread 1 THREAD_RUNNING); split; [apply Hl; by left|done] | |done].
  2:{ intros a t Ht%Hl. change (running m) with main. naive_solver. }
  split.
  - destruct (threads m !! NULL) as [t|] eqn:E; [|done]. apply Hl in E. set_solver.
  - cbn. apply lookup_union_None. split; [|by apply lookup_gset_to_gmap_None]. rewrite lookup_fmap.
    destruct (vals !! NULL) as [v|] eqn:E; [|done]. by destruct (Hv NULL v E) as (_ & _ & []).
  - cbn. by apply lookup_gset_to_gmap_None.
  - done.
  - intros a. change (ready_list m) with others. change (idle_thread m) with idle. setoid_rewrite Hl.
    split; [|naive_solver]. intros Ha. split; [set_solver|]. eauto 6.
  - exists (boot_thread 2 THREAD_BLOCKED). split; [apply Hl; naive_solver|done].
  - cbn. rewrite !NoDup_cons. set_solver.
  - intros a. change (all_list m) with (main :: idle :: others). setoid_rewrite Hl.
    rewrite !elem_of_cons. split; [|naive_solver]. intros [->|[->|Ha]]; eauto 8.
  - intros a t Ht _. by eapply Hnil.
  - intros s x Hx. destruct (Hs s x Hx) as [-> Hr]. split; [done|constructor].
  - intros s x a Hx Ha. destruct (Hs s x Hx) as [E _]. rewrite E in Ha. set_solver.
  - intros a t Ht%Hl. change (idle_thread m) with idle. naive_solver.
  - intros a t Ht. by rewrite (Hnil a t).
  - intros s x Hx Hw. by destruct (Hs s x Hx).
  - intros l h Hh. cbn in Hh. apply lookup_gset_to_gmap_Some in Hh as [Hin <-].
    exists (mk_semaphore 1 []). split.
    + cbn. rewrite lookup_union_r; [by apply lookup_gset_to_gmap_Some|].
      rewrite lookup_fmap. destruct (vals !! l) as [v|] eqn:E; [|done]. by destruct (Hv l v E) as (_ & [] & _).
    + rewrite count_entries_zero; [done|]. intros a t Ht. apply in_transit_nil. by eapply Hnil.
  - intros c ws w Hc. cbn in Hc. apply lookup_gset_to_gmap_Some in Hc as [_ <-]. set_solver.
Qed.

(** ** Every enabled event succeeds *)

Lemma sema_exists_spec m s : sema_exists m s = true ↔ is_sema m s.
Proof. apply bool_decide_eq_true. Qed.
Lemma holds_spec m l : holds m l = true ↔ holders m !! l = Some (running m).
Proof. apply bool_decide_eq_true. Qed.
Lemma cond_exists_spec m c : cond_exists m c = true ↔ is_cond m c.
Proof. apply bool_decide_eq_true. Qed.
Lemma not_held_spec m l : lock_exists m l && negb (holds m l) = true ↔ not_held m l (running m).
Proof.
  unfold lock_exists, holds, not_held, is_lock. rewrite andb_true_iff, negb_true_iff, bool_decide_eq_true, bool_decide_eq_false.
  done.
Qed.
Lemma room_spec m s : room m s = true ↔ ∃ x, semas m !! s = Some x ∧ value x < 2 ^ 32 - 1.
Proof.
  unfold room. destruct (semas m !! s) as [x|]; [|naive_solver]. rewrite Z.ltb_lt. naive_solver.
Qed.
Lemma unused_spec m w : unused m w = true →
  w ≠ NULL ∧ holders m !! w = None ∧ ∀ y, semas m !! w = Some y → waiters y = [].
Proof.
  unfold unused, not_null. rewrite !andb_true_iff, bool_decide_eq_true, negb_true_iff, Z.eqb_neq.
  intros [[H0 H1] H2]. split; [done|]. split; [done|].
  intros y Hy. rewrite Hy in H2. by apply bool_decide_eq_true in H2.
Qed.

Section events.
Context (m : machine) (t : thread).
Context (Hi : inv m) (Ht : threads m !! running m = Some t).

Lemma running_frames_eq : running_frames m = frames t.
Proof. unfold running_frames. by rewrite Ht. Qed.

Lemma wp_run_frame : enabled m E_run = true → wp run_frame (λ _ m', inv m') m.
Proof.
  cbn. rewrite running_frames_eq. intros He. pose proof (running_status m t Hi Ht) as Hrun.
  pose proof (i_core _ Hi) as Hc. pose proof (c_frames _ Hc _ t Ht) as Hok.
  assert (Hidle : running m ≠ idle_thread m).
  { intros E. destruct (c_idle _ Hc) as (u & Hu & Hf & _). rewrite <-E in Hu. assert (u = t) as -> by congruence.
    by rewrite Hf in He. }
  unfold run_frame. wp_step. apply (wp_thread_current _ t); [done..|]. wp_step. apply (wp_deref _ _ t); [done|].
  destruct (frames t) as [|[s|s|l|l|c l] rest] eqn:Hf; [done|..].
  - assert (Hs : is_Some (semas m !! s)).
    { destruct rest as [|[] [|]]; cbn in Hok; try done; [by apply Hok| |by apply Hok].
      destruct Hok as [-> [[h Hh] _]]. destruct (c_lock _ Hc _ h Hh) as (x & Hx & _). by eexists. }
    destruct Hs as [x Hx]. destruct (c_value _ Hc s x Hx) as [Hr _].
    destruct (decide (value x = 0)).
    + by apply (wp_sema_down_wait m t Hi Ht s rest x).
    + apply (wp_sema_down_through m t Hi Ht Hidle s rest x); [done..|lia].
  - apply room_spec in He as (x & Hx & Hv). by apply (wp_run_sema_up m t Hi Ht Hidle s rest x).
  - by apply (wp_set_holder m t).
  - destruct rest; [|done]. by apply (wp_lock_acquire m t); [..|right].
  - destruct rest; [|done]. destruct Hok. by apply (wp_cond_broadcast_round m t).
Qed.

Lemma wp_run_call c : enabled m (E_call c) = true → wp (run_call c) (λ _ m', inv m') m.
Proof.
  cbn. rewrite running_frames_eq, !andb_true_iff, negb_true_iff, bool_decide_eq_true, Z.eqb_neq.
  intros [[Hidle Hf] Ha].
  destruct c; cbn [allowed run_call] in Ha |- *;
    rewrite ?andb_true_iff, ?sema_exists_spec, ?holds_spec, ?cond_exists_spec, ?room_spec in Ha.
  - by apply (wp_call_sema_down m t).
  - wp_step. eapply wp_mono; [by apply (wp_call_sema_try_down m t)|]. intros; by wp_step.
  - destruct Ha as (Hs & x & Hx & Hv). by apply (wp_call_sema_up m t Hi Ht Hidle s x).
  - apply (wp_lock_acquire m t); [done..| |done|by left]. by apply not_held_spec, andb_true_iff.
  - wp_step. eapply wp_mono; [apply (wp_lock_try_acquire m t); [done..|]|intros; by wp_step].
    by apply not_held_spec, andb_true_iff.
  - by apply (wp_lock_release m t).
  - destruct Ha as [[H1 H2] (H3 & H4 & H5)%unused_spec]. by apply (wp_cond_wait m t).
  - destruct Ha. by apply (wp_cond_signal m t); [..|left].
  - destruct Ha. by apply (wp_cond_broadcast m t).
  - rewrite <-(set_intr_same m) at 1 by done. apply (wp_thread_yield m t Hi Ht true). by apply inv_yielded.
  - by apply (wp_thread_exit m t).
Qed.
End events.

Lemma wp_event m e : inv m → enabled m e = true → wp (run_event e) (λ _ m', inv m') m.
Proof.
  intros Hi He. destruct (i_running _ Hi) as (t & Ht & Hrun). destruct e; cbn [run_event].
  - by apply (wp_run_frame m t).
  - by apply (wp_run_call m t).
  - cbn in He. apply Z.eqb_eq in He. by apply (wp_idle_step m t).
  - eapply wp_mono; [by apply (wp_timer_interrupt m (λ _, True))|]. by intros ? ? [? _].
  - cbn in He. apply andb_true_iff in He as [Hs%sema_exists_spec (x & Hx & Hv)%room_spec].
    eapply wp_mono; [by apply (wp_intr_sema_up m s x)|]. by intros ? ? [? _].
Qed.

Lemma inv_reachable m m' : inv m → rtc step m m' → inv m'.
Proof.
  intros Hi Hr. induction Hr as [|m m1 m2 Hs _ IH]; [done|]. apply IH.
  destruct Hs as [e m m1 He Hrun]. by apply (wp_run _ _ _ _ _ (wp_event m e Hi He)) in Hrun.
Qed.

Definition reachable (m : machine) : Prop :=
  ∃ main idle others vals ls cs, boot_ok main idle others vals ls cs ∧
    rtc step (boot main idle others vals ls cs) m.

Lemma reachable_inv m : reachable m → inv m.
Proof. intros (? & ? & ? & ? & ? & ? & Hb & Hr). eapply inv_reachable; [|done]. by apply inv_boot. Qed.

(** ** What the operations leave alone

    [Keeps R op]: a normal run of [op] is a step of the preorder [R]. *)
Class Keeps (R : relation machine) {A} (op : M machine A) : Prop :=
  keeps m x m' : op m = Ok (x, m') → R m m'.

Section keeps.
Context {R : relation machine} `{!PreOrder R}.

#[global] Instance keeps_ret {A} (x : A) : Keeps R (mret x).
Proof. intros m y m' [= _ <-]. reflexivity. Qed.
#[global] Instance keeps_gets {A} (f : machine → A) : Keeps R (gets f).
Proof. intros m y m' [= _ <-]. reflexivity. Qed.
#[global] Instance keeps_deref {A} (f : machine → gmap Z A) a : Keeps R (deref f a).
Proof. intros m y m'. unfold deref. destruct (f m !! a); [|done]. intros [= _ <-]. reflexivity. Qed.
#[global] Instance keeps_assert b : Keeps R (ASSERT b).
Proof. intros m y m'. unfold ASSERT. destruct b; [|done]. intros [= _ <-]. reflexivity. Qed.
#[global] Instance keeps_bind {A B} (op : M machine A) (k : A → M machine B) :
  Keeps R op → (∀ x, Keeps R (k x)) → Keeps R (op ≫= k).
Proof.
  intros H1 H2 m y m'. unfold mbind, M_bind. destruct (op m) as [[x m1]|] eqn:E; [|done].
  intros E2. transitivity m1; [by eapply H1|by eapply H2].
Qed.
Lemma keeps_modify f : (∀ m, R m (f m)) → Keeps R (modify f).
Proof. intros H m y m' [= _ <-]. apply H. Qed.
End keeps.

(** The branches of an operation one after the other; what is left are the
    modifications that the relation does not allow by computation. *)
Ltac solve_keeps :=
  repeat first
    [ apply keeps_ret | apply keeps_gets | apply keeps_deref | apply keeps_assert
    | apply keeps_bind; [|intros ?]
    | match goal with
      | |- Keeps _ (modify count_tick) => apply keeps_modify; intros ?; unfold count_tick;
          destruct (stats _) as [[[? ?] ?] ?]; first [reflexivity | left; reflexivity]
      | |- Keeps _ (modify _) => apply keeps_modify; intros ?; first [reflexivity | left; reflexivity | right; reflexivity | intros ? _; reflexivity]
      | |- Keeps _ (when ?b _) => destruct b; cbn [when]
      | |- Keeps _ (if ?b then _ else _) => destruct b
      | |- Keeps _ (let '(_, _) := ?p in _) => destruct p
      | |- Keeps _ (match ?l with [] => _ | _ :: _ => _ end) => destruct l
      | |- Keeps _ ?op => let h := head_of op in progress unfold h; cbv beta
      end ].

Definition same_holders (m m' : machine) : Prop := holders m' = holders m.
Definition others_kept (l : Z) (m m' : machine) : Prop := ∀ l', l' ≠ l → holders m' !! l' = holders m !! l'.

#[export] Instance same_holders_preorder : PreOrder same_holders.
Proof. split; unfold same_holders; [done|congruence]. Qed.
#[export] Instance others_kept_preorder l : PreOrder (others_kept l).
Proof.
  split; unfold others_kept; [done|]. intros x y z H1 H2 l' Hl. by rewrite H2, H1.
Qed.

Lemma release_kept l : Keeps (others_kept l) (lock_release l).
Proof.
  unfold lock_release. do 3 (apply keeps_bind; [solve_keeps|intros ?]).
  apply keeps_bind; [|intros _; solve_keeps]. apply keeps_modify. intros m l' Hl. cbn.
  by rewrite lookup_insert_ne.
Qed.

Lemma cond_wait_kept c l w : Keeps (others_kept l) (cond_wait c l w).
Proof.
  pose proof (release_kept l). unfold cond_wait. repeat first [done | apply keeps_bind; [solve_keeps|intros ?]].
Qed.

(** The events that do not assign to a holder. *)
Lemma call_same_holders c : (∀ l, c ≠ C_lock_release l) → (∀ c' l w, c ≠ C_cond_wait c' l w) →
  Keeps same_holders (run_call c).
Proof.
  intros H1 H2. destruct c; cbn [run_call]; try solve [solve_keeps]; naive_solver.
Qed.

Lemma event_same_holders e : e ≠ E_run → (∀ c, e ≠ E_call c) → Keeps same_holders (run_event e).
Proof. intros H1 H2. destruct e; cbn [run_event]; try solve [solve_keeps]; naive_solver. Qed.

(** The running thread assigns to a holder only when there is none. *)
Lemma run_frame_holders m m' l a : inv m → run_frame m = Ok (tt, m') →
  holders m !! l = Some a → a ≠ NULL → holders m' !! l = Some a.
Proof.
  intros Hi Hrun Hl Ha. destruct (i_running _ Hi) as (t & Ht & Hst). pose proof (i_core _ Hi) as Hc.
  assert (Hkept : ∀ op : M machine unit, Keeps same_holders op → op m = Ok (tt, m') → holders m' !! l = Some a).
  { intros op Hop E. by rewrite (Hop _ _ _ E). }
  assert (Hbody : wp thread_current (λ x m1, x = running m ∧ m1 = m) m) by (by apply (wp_thread_current _ t)).
  apply wp_Ok in Hbody as (x & m1 & E1 & -> & ->).
  unfold run_frame in Hrun. unfold mbind at 1, M_bind in Hrun. rewrite E1 in Hrun.
  unfold mbind at 1, M_bind in Hrun. unfold deref at 1 in Hrun. rewrite Ht in Hrun.
  destruct (frames t) as [|[s|s|l'|l'|c l'] rest] eqn:Hf; try solve [eapply Hkept; [|exact Hrun]; solve_keeps].
  assert (Hne : l' ≠ l).
  { intros ->. destruct (c_lock _ Hc l a Hl) as (y & Hy & E).
    pose proof (transit_count m t Ht l ltac:(unfold in_transit; rewrite Hf; apply Z.eqb_refl)).
    destruct (c_value _ Hc l y Hy) as [Hr _]. rewrite (proj2 (Z.eqb_neq a NULL)) in E by done. cbn in E. lia. }
  assert (Hk : Keeps (others_kept l') (set_frames rest ;; put_holder l' (running m))).
  { apply keeps_bind; [solve_keeps|intros _]. apply keeps_modify. intros m2 l2 Hl2. cbn. by rewrite lookup_insert_ne. }
  rewrite (Hk _ _ _ Hrun); [done|congruence].
Qed.

(** ** Time slices *)

Definition ticks_ok (m : machine) : Prop := 0 ≤ thread_ticks m < TIME_SLICE.
Definition slice_kept (m m' : machine) : Prop := thread_ticks m' = thread_ticks m ∨ thread_ticks m' = 0.

#[export] Instance slice_kept_preorder : PreOrder slice_kept.
Proof. split; unfold slice_kept; [by left|]. intros x y z. lia. Qed.

(** What a timer interrupt does: it counts, or it ends the time slice and the
    first ready thread runs. *)
Definition ticked (m m' : machine) : Prop :=
  thread_ticks m + 1 < TIME_SLICE ∧ thread_ticks m' = thread_ticks m + 1 ∧
    ready_list m' = ready_list m ∧ running m' = running m ∨
  thread_ticks m + 1 = TIME_SLICE ∧ thread_ticks m' = 0 ∧
    ∀ b l, ready_list m = b :: l → running m' = b ∧ ∃ l', ready_list m' = l ++ l'.

Lemma wp_tick m : inv m → ticks_ok m →
  wp (intr_handler timer_interrupt) (λ _ m', inv m' ∧ ticked m m') m.
Proof.
  intros Hi Hk. unfold ticks_ok, TIME_SLICE in Hk. apply wp_timer_interrupt; [done|]. intros t st Ht n m1.
  assert (Hn : n = thread_ticks m + 1) by (apply wrap32_small; lia).
  unfold ticked, TIME_SLICE. destruct (Z.leb_spec 4 n) as [Hle|Hlt].
  - right. split; [lia|]. split; [done|]. intros b l El.
    unfold yielded, switched, parked, restatus, next_of. cbn [running ready_list set_intr].
    change (ready_list m1) with (ready_list m). rewrite El. split; [done|by eexists].
  - left. split; [lia|done].
Qed.

Lemma ticked_ok m m' : ticks_ok m → ticked m m' → ticks_ok m'.
Proof. unfold ticks_ok, ticked, TIME_SLICE. lia. Qed.

Lemma event_slice e : e ≠ E_tick → Keeps slice_kept (run_event e).
Proof.
  intros He. destruct e as [|c| | |]; [| |cbn [run_event]; solve_keeps|done|cbn [run_event]; solve_keeps].
  - cbn [run_event]. unfold run_frame. apply keeps_bind; [solve_keeps|intros a].
    apply keeps_bind; [solve_keeps|intros t]. destruct (frames t) as [|[] ?]; solve_keeps.
  - destruct c; cbn [run_event run_call]; solve_keeps.
Qed.

Lemma reachable_ticks m : reachable m → ticks_ok m.
Proof.
  intros (main & idle & others & vals & ls & cs & Hb & Hr). pose proof (inv_boot _ _ _ _ _ _ Hb) as Hi.
  assert (Hk : ticks_ok (boot main idle others vals ls cs)) by done. clear Hb.
  induction Hr as [|m m1 m2 Hs _ IH]; [done|]. destruct Hs as [e m m1 He Hrun].
  assert (Hi1 : inv m1) by (by apply (wp_run _ _ _ _ _ (wp_event m e Hi He)) in Hrun).
  apply IH; [done|]. destruct (decide (e = E_tick)) as [->|Hne].
  - apply (wp_run _ _ _ _ _ (wp_tick m Hi Hk)) in Hrun as [_ Ht]. by eapply ticked_ok.
  - apply (event_slice e Hne) in Hrun. unfold slice_kept, ticks_ok, TIME_SLICE in *. lia.
Qed.

(** A run of timer interrupts. *)
Definition ticks (n : nat) : M machine unit := for_loop n 0 (λ _, intr_handler timer_interrupt).

Lemma wp_for_loop_shift (n : nat) i j (body : M machine unit) Q m :
  wp (for_loop n i (λ _, body)) Q m → wp (for_loop n j (λ _, body)) Q m.
Proof.
  revert i j m. induction n as [|n IH]; intros i j m; cbn [for_loop]; [done|].
  intros H. apply wp_bind. unfold wp, mbind, M_bind in H. unfold wp. destruct (body m) as [[x m1]|]; [|done].
  by apply (IH (i + 1)).
Qed.

Lemma wp_ticks_S n Q m : wp (intr_handler timer_interrupt) (λ _ m1, wp (ticks n) Q m1) m → wp (ticks (S n)) Q m.
Proof.
  intros H. unfold ticks. cbn [for_loop]. apply wp_bind. eapply wp_mono; [exact H|].
  intros ? m1. cbv beta. apply wp_for_loop_shift.
Qed.

(** The thread behind [l1] in the ready list waits for the end of the running
    slice and for one full slice of each thread before it. *)
Lemma wp_ticks_run a l1 m l2 (n : nat) : inv m → ticks_ok m → ready_list m = l1 ++ a :: l2 →
  Z.of_nat n = TIME_SLICE * Z.of_nat (length l1) + (TIME_SLICE - thread_ticks m) →
  wp (ticks n) (λ _ m', running m' = a) m.
Proof.
  revert l1 m l2. induction n as [|n IH]; intros l1 m l2 Hi Hk Hl Hn; unfold ticks_ok, TIME_SLICE in *; [lia|].
  apply wp_ticks_S. eapply wp_mono; [by apply wp_tick|]. intros _ m1 [Hi1 Ht].
  pose proof (ticked_ok _ _ Hk Ht) as Hk1. unfold ticks_ok, TIME_SLICE in Hk1.
  destruct Ht as [(Ht1 & Ht2 & Hr & _)|(Ht1 & Ht2 & Hr)]; unfold TIME_SLICE in *.
  - apply (IH l1 m1 l2); [done|done|congruence|lia].
  - destruct l1 as [|b l1]; cbn in Hl, Hn.
    + destruct (Hr a l2 Hl) as [Ha _]. assert (n = 0%nat) as -> by lia. by apply wp_ret.
    + destruct (Hr b (l1 ++ a :: l2) Hl) as [_ [l' El]].
      apply (IH l1 m1 (l2 ++ l')); [done|done| |lia]. by rewrite El, <-app_assoc.
Qed.

(** ** Properties of the reachable states *)

(** C10: the operations of the scheduler and of the synchronization primitives
    never fail.  In every reachable state every event that keeps the rules of
    the interface runs to its end: none of the assertions of [thread.c] and
    [synch.c] fails and no dead thread is touched, whatever the interleaving of
    threads and interrupts. *)
Theorem machine_safe m e : reachable m → enabled m e = true →
  ∃ m', run_event e m = Ok (tt, m') ∧ reachable m'.
Proof.
  intros Hr He. pose proof (wp_event m e (reachable_inv m Hr) He) as H. apply wp_Ok in H as ([] & m' & E & _).
  exists m'. split; [done|]. destruct Hr as (main & idle & others & vals & ls & cs & Hb & Hr).
  exists main, idle, others, vals, ls, cs. split; [done|]. eapply rtc_r; [done|]. by eapply step_event.
Qed.

(** C35: the queues agree with the states of the threads.  In every reachable
    state one thread is running, and it is the one on the processor; the ready
    list holds the ready threads other than the idle thread, each once; a
    blocked thread other than the idle thread is in the list of waiters of the
    one semaphore it waits for; the list of all threads holds the threads that
    are not dying. *)
Theorem scheduler_queues m : reachable m →
  (∀ a t, threads m !! a = Some t → status t = THREAD_RUNNING ↔ a = running m) ∧
  NoDup (ready_list m) ∧
  (∀ a, a ∈ ready_list m ↔ a ≠ idle_thread m ∧ ∃ t, threads m !! a = Some t ∧ status t = THREAD_READY) ∧
  (∀ a t, threads m !! a = Some t → a ≠ idle_thread m →
     status t = THREAD_BLOCKED ↔ exists! s, ∃ x, semas m !! s = Some x ∧ a ∈ waiters x) ∧
  (∀ a, a ∈ all_list m ↔ ∃ t, threads m !! a = Some t ∧ status t ≠ THREAD_DYING).
Proof.
  intros Hi%reachable_inv. pose proof (i_core _ Hi) as Hc. split_and!; [|apply Hc|apply Hc| |apply Hc].
  - intros a t Ht. split; [by apply (i_unique _ Hi)|]. intros ->. destruct (i_running _ Hi) as (u & Hu & Hs). congruence.
  - intros a t Ht Hne. split.
    + intros Hb. destruct (c_blocked _ Hc a t Ht Hb Hne) as (s & x & Hf & Hs & Hin). exists s. split; [by exists x|].
      intros s' (x' & Hs' & Hin'). destruct (c_waiting _ Hc s' x' a Hs' Hin') as (_ & u & Hu & _ & Hf'). congruence.
    + intros (s & (x & Hs & Hin) & _). destruct (c_waiting _ Hc s x a Hs Hin) as (_ & u & Hu & Hb & _). congruence.
Qed.

(** C9: mutual exclusion.  While a thread holds a lock the semaphore of the
    lock is down and no thread is between taking the semaphore and becoming
    the holder; every event leaves the holder in place, except that the holder
    itself, running, releases the lock or waits for a condition with it. *)
Theorem lock_mutual_exclusion m e m' l a :
  reachable m → enabled m e = true → run_event e m = Ok (tt, m') →
  holders m !! l = Some a → a ≠ NULL →
  (∃ x, semas m !! l = Some x ∧ value x = 0) ∧
  (∀ b t, threads m !! b = Some t → head (frames t) ≠ Some (F_set_holder l)) ∧
  (holders m' !! l = Some a ∨
   running m = a ∧ (e = E_call (C_lock_release l) ∨ ∃ c w, e = E_call (C_cond_wait c l w))).
Proof.
  intros Hi%reachable_inv He Hrun Hl Ha. pose proof (i_core _ Hi) as Hc.
  destruct (c_lock _ Hc l a Hl) as (x & Hx & E). rewrite (proj2 (Z.eqb_neq a NULL)) in E by done.
  destruct (c_value _ Hc l x Hx) as [Hr _]. pose proof (count_entries_nonneg (in_transit l) (threads m)) as Hn.
  cbn [Z.b2z negb] in E. split; [exists x; split; [done|lia]|]. split.
  { intros b t Ht Hf. assert (Hp : in_transit l t = true) by (unfold in_transit; by rewrite Hf, Z.eqb_refl).
    pose proof (count_entries_pos _ _ b t Ht Hp). lia. }
  assert (Hsame : Keeps same_holders (run_event e) → holders m' !! l = Some a).
  { intros H. by rewrite (H _ _ _ Hrun). }
  assert (Hrel : ∀ l', Keeps (others_kept l') (run_event e) → l ≠ l' → holders m' !! l = Some a).
  { intros l' H Hne. by rewrite (H _ _ _ Hrun). }
  destruct e as [|c| | |s]; try (left; apply Hsame; by apply event_same_holders).
  - left. by eapply run_frame_holders.
  - cbn in He. rewrite !andb_true_iff in He. destruct He as [_ He].
    destruct c as [| | | | |l'|c l' w| | | |]; try (left; apply Hsame; by apply call_same_holders);
      cbn in He; rewrite ?andb_true_iff, holds_spec in He; destruct (decide (l = l')) as [<-|Hne].
    + right. split; [congruence|by left].
    + left. apply (Hrel l'); [apply release_kept|done].
    + right. split; [destruct He; destruct_and?; congruence|right; by exists c, w].
    + left. apply (Hrel l'); [apply cond_wait_kept|done].
Qed.

(** C11: wake-ups are not lost.  In a reachable state a semaphore whose value is
    [v] and on which threads still wait has at least [v] threads that are
    awake and about to test it: in particular a positive value and a sleeping
    waiter never coexist without a thread that will take the value. *)
Theorem no_lost_wakeup m s x : reachable m → semas m !! s = Some x → waiters x ≠ [] →
  value x ≤ count_entries (awake_down s) (threads m) ∧
  (0 < value x → ∃ a t, threads m !! a = Some t ∧
     (status t = THREAD_READY ∨ status t = THREAD_RUNNING) ∧ head (frames t) = Some (F_sema_down s)).
Proof.
  intros Hi%reachable_inv Hx Hw. pose proof (c_wakeup _ (i_core _ Hi) s x Hx Hw) as H. split; [done|].
  intros Hv. destruct (count_entries_exists (awake_down s) (threads m)) as (a & t & Ht & Hp); [lia|].
  exists a, t. split; [done|]. unfold awake_down in Hp. destruct (status t), (head (frames t)) as [[]|]; try done;
    apply Z.eqb_eq in Hp; subst; auto.
Qed.

(** C12: the scheduler is fair.  In a reachable state the ready thread with [k]
    threads before it in the ready list is running after [k] full time slices
    and what is left of the present one, counted in timer interrupts, when no
    thread gives up the processor earlier. *)
Theorem round_robin m l1 a l2 : reachable m → ready_list m = l1 ++ a :: l2 →
  ∃ m', ticks (Z.to_nat (TIME_SLICE * Z.of_nat (length l1) + (TIME_SLICE - thread_ticks m))) m = Ok (tt, m') ∧
    running m' = a ∧ ∃ t, threads m' !! a = Some t ∧ status t = THREAD_RUNNING.
Proof.
  intros Hr Hl. pose proof (reachable_inv m Hr) as Hi. pose proof (reachable_ticks m Hr) as Hk.
  unfold ticks_ok, TIME_SLICE in Hk. set (n := Z.to_nat _).
  assert (H1 : wp (ticks n) (λ _ m', running m' = a) m)
    by (apply (wp_ticks_run a l1 m l2); [done..|]; unfold n, TIME_SLICE; lia).
  assert (H2 : wp (ticks n) (λ _ m', inv m') m).
  { unfold ticks. apply (wp_for_loop (λ _, inv)); [done|]. intros j m1 _ Hi1.
    eapply wp_mono; [by apply (wp_timer_interrupt m1 (λ _, True))|]. by intros ? ? [? _]. }
  apply wp_Ok in H1 as ([] & m' & E & Ha). exists m'. split; [done|]. split; [done|].
  apply (wp_run _ _ _ _ _ H2) in E. destruct (i_running _ E) as (t & Ht & Hs). exists t. by rewrite <-Ha.
Qed.

(** ** A run of three threads

    The initial thread 10 and the threads 30 and 40 share the lock 100; thread
    10 takes it, is preempted, and the others queue up behind it. *)

(** Runs the events one after the other, as long as they are enabled. *)
Fixpoint run_events (es : list event) (m : machine) : option machine :=
  match es with
  | [] => Some m
  | e :: es =>
      if enabled m e then
        match run_event e m with Ok (_, m') => run_events es m' | Err _ => None end
      else None
  end.

Lemma run_events_steps es m m' : run_events es m = Some m' → rtc step m m'.
Proof.
  revert m. induction es as [|e es IH]; intros m; cbn [run_events]; [by intros [= <-]; apply rtc_refl|].
  destruct (enabled m e) eqn:He; [|done]. destruct (run_event e m) as [[[] m1]|] eqn:E; [|done].
  intros H. eapply rtc_l; [by eapply step_event|]. by apply IH.
Qed.

Definition boot3 : machine := boot 10 20 [30; 40] ∅ {[100]} {[200]}.
Definition acquire3 : list event := [E_call (C_lock_acquire 100); E_run; E_run].
Definition contend3 : list event :=
  acquire3 ++ [E_call C_yield; E_call (C_lock_acquire 100); E_run; E_call (C_lock_acquire 100); E_run].

Definition after (es : list event) : machine := default boot3 (run_events es boot3).

Lemma after_reachable es : is_Some (run_events es boot3) → reachable (after es).
Proof.
  intros [m Hm]. unfold after. rewrite Hm. exists 10, 20, [30; 40], ∅, {[100]}, {[200]}.
  split; [|by apply (run_events_steps es)]. split; [|split; [intros s v H; by rewrite lookup_empty in H|set_solver]].
  apply (bool_decide_unpack _). by vm_compute.
Qed.

Lemma machine_safe_witness : ∃ m', run_event (E_call (C_lock_release 100)) (after contend3) = Ok (tt, m') ∧ reachable m'.
Proof.
  apply machine_safe; [|by vm_compute]. apply after_reachable. vm_compute. by eexists.
Defined.
Lemma scheduler_queues_witness : ready_list (after contend3) = [] ∧ NoDup (ready_list (after contend3)).
Proof.
  split; [by vm_compute|]. apply (scheduler_queues (after contend3)), after_reachable. vm_compute. by eexists.
Defined.

(** In the middle of the contention the timer interrupts the thread that runs,
    not the one that holds the lock. *)
Lemma lock_mutual_exclusion_witness : ∃ m',
  run_event E_tick (after (take 5 contend3)) = Ok (tt, m') ∧
  holders (after (take 5 contend3)) !! 100 = Some 10 ∧ running (after (take 5 contend3)) = 30 ∧
  holders m' !! 100 = Some 10.
Proof.
  destruct (run_event E_tick (after (take 5 contend3))) as [[[] m']|] eqn:E; [|by vm_compute in E].
  exists m'. split; [done|]. split; [by vm_compute|]. split; [by vm_compute|].
  destruct (lock_mutual_exclusion (after (take 5 contend3)) E_tick m' 100 10) as (_ & _ & [H|[_ [H|(c & w & H)]]]);
    [|by vm_compute|exact E|by vm_compute|done|exact H|discriminate|discriminate].
  apply after_reachable. vm_compute. by eexists.
Defined.

Definition released3 : list event := contend3 ++ [E_call (C_lock_release 100); E_run].

(** After the release one of the two waiters is awake, and the other sleeps. *)
Lemma no_lost_wakeup_witness :
  semas (after released3) !! 100 = Some (mk_semaphore 1 [40]) ∧
  ∃ a t, threads (after released3) !! a = Some t ∧
    (status t = THREAD_READY ∨ status t = THREAD_RUNNING) ∧ head (frames t) = Some (F_sema_down 100).
Proof.
  split; [by vm_compute|].
  destruct (no_lost_wakeup (after released3) 100 (mk_semaphore 1 [40])) as [_ H];
    [apply after_reachable; vm_compute; by eexists|by vm_compute|done|apply H; by vm_compute].
Defined.

(** Thread 40 is second in the ready list when the initial thread has the lock. *)
Lemma round_robin_witness : ∃ m',
  ticks (Z.to_nat (TIME_SLICE * Z.of_nat (length [30]) + (TIME_SLICE - thread_ticks (after acquire3)))) (after acquire3)
    = Ok (tt, m') ∧ running m' = 40 ∧ ∃ t, threads m' !! 40 = Some t ∧ status t = THREAD_RUNNING.
Proof.
  apply (round_robin (after acquire3) [30] 40 []); [|by vm_compute]. apply after_reachable. vm_compute. by eexists.
Defined.
