(* ===== verification/MmAlloc.v ===== *)
(** * The user-level allocator ([hw-memory/mm_alloc/mm_alloc.c])

    The heap is the memory between the initial program break and the present
    one, byte by byte: block headers live in it beside the data, so that a
    [memset] that goes too far is seen to destroy headers.  The program is a
    64-bit one; a header takes [NODE] = 32 bytes.  An access outside the heap
    is a [BadAccess].

    [sbrk] grows the heap by zeroed bytes until [limit] is reached; it fails
    with [(void * ) -1]. *)
From S2P Require Import Prelude Bytes.

Record heap := mk_heap {
  base : Z;
  limit : Z;
  ram : list Z;
  mem_head : Z;
  mem_tail : Z
}.

Definition set_ram (r : list Z) (h : heap) : heap := mk_heap (base h) (limit h) r (mem_head h) (mem_tail h).
Definition set_head (p : Z) (h : heap) : heap := mk_heap (base h) (limit h) (ram h) p (mem_tail h).
Definition set_tail (p : Z) (h : heap) : heap := mk_heap (base h) (limit h) (ram h) (mem_head h) p.

(** ** Words of memory *)

Fixpoint le (n : nat) (w : Z) : list Z :=
  match n with O => [] | S n => w mod 256 :: le n (w / 256) end.
Fixpoint of_le (l : list Z) : Z :=
  match l with [] => 0 | b :: l => b + 256 * of_le l end.

Definition load_bytes (a n : Z) : M heap (list Z) :=
  h ← gets id; mem_read (ram h) (a - base h) n.
Definition store_bytes (a : Z) (d : list Z) : M heap unit :=
  h ← gets id; r ← mem_write (ram h) (a - base h) d; modify (set_ram r).

Definition load (n : nat) (a : Z) : M heap Z := d ← load_bytes a (Z.of_nat n); mret (of_le d).
Definition store (n : nat) (a w : Z) : M heap unit := store_bytes a (le n w).

(** [memset] and [memcpy] of the C library. *)
Definition memset (a v n : Z) : M heap unit :=
  if n =? 0 then mret tt else store_bytes a (replicate (Z.to_nat n) v).
Definition memcpy (dst src n : Z) : M heap unit :=
  if n =? 0 then mret tt else d ← load_bytes src n; store_bytes dst d.

Definition FAILED : Z := 2 ^ 64 - 1.

Definition sbrk (increment : Z) : M heap Z :=
  h ← gets id;
  let n := len (ram h) + signed 64 increment in
  if (0 <=? n) && (base h + n <=? limit h) then
    modify (set_ram (take (Z.to_nat n) (ram h) ++ replicate (Z.to_nat n - length (ram h)) 0)) ;;
    mret (base h + len (ram h))
  else mret FAILED.

(** ** struct memory_block_node *)

Definition NODE : Z := 32.

Definition get_prev (p : Z) : M heap Z := load 8 p.
Definition get_next (p : Z) : M heap Z := load 8 (p + 8).
Definition get_free (p : Z) : M heap bool := b ← load 1 (p + 16); mret (b =? 1).
Definition get_size (p : Z) : M heap Z := load 4 (p + 20).
Definition get_allocated (p : Z) : M heap Z := load 8 (p + 24).
Definition set_prev (p v : Z) : M heap unit := store 8 p v.
Definition set_next (p v : Z) : M heap unit := store 8 (p + 8) v.
Definition set_free (p : Z) (v : bool) : M heap unit := store 1 (p + 16) (Z.b2z v).
Definition set_size (p v : Z) : M heap unit := store 4 (p + 20) v.
Definition set_allocated (p v : Z) : M heap unit := store 8 (p + 24) v.

(** ** Operations *)

(** Lines 50 to 69: [curr] is split and its first part is handed out. *)
Definition split_block (curr size : Z) : M heap Z :=
  old_size ← get_size curr;
  set_size curr size ;;
  set_free curr false ;;
  a ← get_allocated curr; n ← get_size curr;
  let new_block := wrap64 (a + n) in
  old_next ← get_next curr;
  set_prev new_block curr ;;
  set_next new_block old_next ;;
  when (negb (old_next =? NULL)) (set_prev old_next new_block) ;;
  set_next curr new_block ;;
  set_size new_block (old_size - NODE - size) ;;
  set_free new_block true ;;
  set_allocated new_block (new_block + NODE * NODE) ;;
  b ← get_allocated new_block; m ← get_size new_block;
  memset b 0 m ;;
  get_allocated curr.

(** The search for a free block: [None] when the list is exhausted. *)
Fixpoint find_block (fuel : nat) (curr size : Z) : M heap (option Z) :=
  match fuel with
  | O => throw OutOfFuel
  | S fuel =>
      if curr =? NULL then mret None else
      n ← get_size curr;
      f ← ((if size <=? n then get_free curr else mret false) : M heap bool);
      if (f : bool) then
        n ← get_size curr;
        if 1 + size + NODE <=? n then a ← split_block curr size; mret (Some a)
        else a ← get_allocated curr; mret (Some a)
      else
        next ← get_next curr; find_block fuel next size
  end.

(** Lines 24 to 38: the first block. *)
Definition first_block (size : Z) : M heap Z :=
  p ← sbrk NODE;
  modify (set_head p) ;;
  if p =? FAILED then mret NULL else
  set_prev p NULL ;;
  set_free p false ;;
  set_next p NULL ;;
  set_size p size ;;
  a ← sbrk size;
  set_allocated p a ;;
  a ← get_allocated p;
  if a =? FAILED then mret NULL else
  modify (set_tail p) ;;
  memset a 0 size ;;
  get_allocated p.

(** Lines 78 to 91: a block after the last one. *)
Definition new_block (size : Z) : M heap Z :=
  p ← sbrk NODE;
  if p =? FAILED then mret NULL else
  tail ← gets mem_tail;
  set_prev p tail ;;
  set_next tail p ;;
  set_next p NULL ;;
  set_size p size ;;
  set_free p false ;;
  a ← sbrk size;
  set_allocated p a ;;
  a ← get_allocated p;
  if a =? FAILED then mret NULL else
  memset a 0 size ;;
  modify (set_tail p) ;;
  get_allocated p.

(** Every block has a header, so a list has no more blocks than the heap has
    bytes. *)
Definition list_fuel : M heap nat := gets (λ h, S (length (ram h))).

Definition mm_malloc (size : Z) : M heap Z :=
  if size =? 0 then mret NULL else
  head ← gets mem_head;
  if head =? NULL then first_block size else
  if 4294967295 <=? size then mret NULL else
  fuel ← list_fuel;
  r ← find_block fuel head size;
  match r with
  | Some a => mret a
  | None => new_block size
  end.

(** Lines 136 to 156: the block [curr] is freed and merged with its
    neighbours; the result is the block that contains it now. *)
Definition merge_left (curr : Z) : M heap Z :=
  prev ← get_prev curr;
  f ← ((if prev =? NULL then mret false else get_free prev) : M heap bool);
  if (f : bool) then
    n ← get_size prev; m ← get_size curr;
    set_size prev (n + (NODE + m)) ;;
    next ← get_next curr;
    set_next prev next ;;
    when (negb (next =? NULL)) (set_prev next prev) ;;
    a ← get_allocated prev; n ← get_size prev;
    memset a 0 n ;;
    mret prev
  else mret curr.

Definition merge_right (curr : Z) : M heap unit :=
  next ← get_next curr;
  f ← ((if next =? NULL then mret false else get_free next) : M heap bool);
  if (f : bool) then
    n ← get_size curr; m ← get_size next;
    set_size curr (n + (NODE + m)) ;;
    next2 ← get_next next;
    when (negb (next2 =? NULL)) (set_prev next2 curr) ;;
    set_next curr next2 ;;
    a ← get_allocated curr; n ← get_size curr;
    memset a 0 n
  else mret tt.

Definition free_block (curr : Z) : M heap Z :=
  set_free curr true ;;
  a ← get_allocated curr; n ← get_size curr;
  memset a 0 n ;;
  curr ← merge_left curr;
  merge_right curr ;;
  mret curr.

Fixpoint free_loop (fuel : nat) (curr ptr : Z) : M heap unit :=
  match fuel with
  | O => throw OutOfFuel
  | S fuel =>
      if curr =? NULL then mret tt else
      a ← get_allocated curr;
      curr ← ((if a =? ptr then free_block curr else mret curr) : M heap Z);
      next ← get_next curr;
      free_loop fuel next ptr
  end.

Definition mm_free (ptr : Z) : M heap unit :=
  if ptr =? NULL then mret tt else
  head ← gets mem_head; fuel ← list_fuel; free_loop fuel head ptr.

Fixpoint find_allocated (fuel : nat) (curr ptr : Z) : M heap Z :=
  match fuel with
  | O => throw OutOfFuel
  | S fuel =>
      if curr =? NULL then mret NULL else
      a ← get_allocated curr;
      if a =? ptr then mret curr else
      next ← get_next curr; find_allocated fuel next ptr
  end.

Definition mm_realloc (ptr size : Z) : M heap Z :=
  if size =? 0 then mm_free ptr ;; mret NULL else
  if ptr =? NULL then mm_malloc size else
  head ← gets mem_head; fuel ← list_fuel;
  curr ← find_allocated fuel head ptr;
  new_ptr ← mm_malloc size;
  if new_ptr =? NULL then mret NULL else
  n ← get_size curr;
  (if n <? size
   then a ← get_allocated curr; n ← get_size curr; memcpy new_ptr a n
   else a ← get_allocated curr; memcpy new_ptr a size) ;;
  a ← get_allocated curr;
  mm_free a ;;
  mret new_ptr.

(** ** Words in memory *)

Lemma length_le n w : length (le n w) = n.
Proof. revert w. induction n as [|n IH]; intros w; cbn; [done|]. by rewrite IH. Qed.

Lemma of_le_le n w : of_le (le n w) = w mod 2 ^ (8 * Z.of_nat n).
Proof.
  revert w. induction n as [|n IH]; intros w; cbn [le of_le]; [by rewrite Z.mod_1_r|].
  rewrite IH. replace (8 * Z.of_nat (S n)) with (8 + 8 * Z.of_nat n) by lia.
  rewrite Z.pow_add_r by lia. change (2 ^ 8) with 256. rewrite Z.rem_mul_r by lia. done.
Qed.

Definition peek (r : list Z) (n : nat) (o : Z) : Z := of_le (slice o (Z.of_nat n) r).

Lemma peek_put_same r n o w : 0 ≤ o → o + Z.of_nat n ≤ len r →
  peek (put o (le n w) r) n o = w mod 2 ^ (8 * Z.of_nat n).
Proof.
  intros. unfold peek. rewrite <-of_le_le. f_equal. rewrite <-(length_le n w) at 1.
  apply slice_put_same; [done|]. rewrite length_le. done.
Qed.

Lemma peek_put_disjoint r n o a d : 0 ≤ o → 0 ≤ a → a + len d ≤ len r →
  o + Z.of_nat n ≤ a ∨ a + len d ≤ o → peek (put a d r) n o = peek r n o.
Proof. intros. unfold peek. by rewrite slice_put_disjoint. Qed.

Lemma peek_slice r n o m k : 0 ≤ o → 0 ≤ k → k + Z.of_nat n ≤ m →
  peek (slice o m r) n k = peek r n (o + k).
Proof. intros. unfold peek. by rewrite slice_slice by lia. Qed.

(** ** Headers *)

Record node := mk_node { n_prev : Z; n_next : Z; n_free : bool; n_size : Z; n_alloc : Z }.

Definition node_at (r : list Z) (o : Z) (nd : node) : Prop :=
  peek r 8 o = n_prev nd ∧ peek r 8 (o + 8) = n_next nd ∧ peek r 1 (o + 16) = Z.b2z (n_free nd) ∧
  peek r 4 (o + 20) = n_size nd ∧ peek r 8 (o + 24) = n_alloc nd.

(** A header is determined by its bytes. *)
Lemma node_at_ext r r' o nd : 0 ≤ o → slice o NODE r' = slice o NODE r → node_at r o nd → node_at r' o nd.
Proof.
  intros Ho E. unfold node_at.
  assert (H : ∀ n k, 0 ≤ k → k + Z.of_nat n ≤ 32 → peek r' n (o + k) = peek r n (o + k)).
  { intros n k Hk Hn. rewrite <-!(peek_slice _ n o NODE k) by (unfold NODE; lia). by rewrite E. }
  rewrite !H by lia. rewrite <-(Z.add_0_r o) at 6. rewrite H by lia. rewrite Z.add_0_r. done.
Qed.

Lemma node_at_put r o nd a d : 0 ≤ o → 0 ≤ a → a + len d ≤ len r → o + NODE ≤ a ∨ a + len d ≤ o →
  node_at r o nd → node_at (put a d r) o nd.
Proof. intros. eapply node_at_ext; [done| |done]. by rewrite slice_put_disjoint. Qed.

Ltac peeks := rewrite ?length_le; repeat first
  [ rewrite peek_put_same by (rewrite ?length_le; lia)
  | rewrite peek_put_disjoint by (rewrite ?length_le; lia) ].

Section fields.
Context (r : list Z) (o : Z) (nd : node).
Context (Ho : 0 ≤ o) (Hl : o + NODE ≤ len r) (Hn : node_at r o nd).

Lemma node_put_prev v : 0 ≤ v < 2 ^ 64 → node_at (put o (le 8 v) r) o
  (mk_node v (n_next nd) (n_free nd) (n_size nd) (n_alloc nd)).
Proof.
  destruct Hn as (H1 & H2 & H3 & H4 & H5). unfold NODE in *. intros Hv. unfold node_at. cbn [n_prev n_next n_free n_size n_alloc].
  peeks. rewrite Z.mod_small by done. done.
Qed.
Lemma node_put_next v : 0 ≤ v < 2 ^ 64 → node_at (put (o + 8) (le 8 v) r) o
  (mk_node (n_prev nd) v (n_free nd) (n_size nd) (n_alloc nd)).
Proof.
  destruct Hn as (H1 & H2 & H3 & H4 & H5). unfold NODE in *. intros Hv. unfold node_at. cbn [n_prev n_next n_free n_size n_alloc].
  peeks. rewrite Z.mod_small by done. done.
Qed.
Lemma node_put_free v : node_at (put (o + 16) (le 1 (Z.b2z v)) r) o
  (mk_node (n_prev nd) (n_next nd) v (n_size nd) (n_alloc nd)).
Proof.
  destruct Hn as (H1 & H2 & H3 & H4 & H5). unfold NODE in *. unfold node_at. cbn [n_prev n_next n_free n_size n_alloc].
  peeks. by rewrite Z.mod_small by (destruct v; cbn; lia).
Qed.
Lemma node_put_size v : 0 ≤ v < 2 ^ 32 → node_at (put (o + 20) (le 4 v) r) o
  (mk_node (n_prev nd) (n_next nd) (n_free nd) v (n_alloc nd)).
Proof.
  destruct Hn as (H1 & H2 & H3 & H4 & H5). unfold NODE in *. intros Hv. unfold node_at. cbn [n_prev n_next n_free n_size n_alloc].
  peeks. rewrite Z.mod_small by done. done.
Qed.
Lemma node_put_alloc v : 0 ≤ v < 2 ^ 64 → node_at (put (o + 24) (le 8 v) r) o
  (mk_node (n_prev nd) (n_next nd) (n_free nd) (n_size nd) v).
Proof.
  destruct Hn as (H1 & H2 & H3 & H4 & H5). unfold NODE in *. intros Hv. unfold node_at. cbn [n_prev n_next n_free n_size n_alloc].
  peeks. rewrite Z.mod_small by done. done.
Qed.
End fields.

(** ** Accesses *)

Lemma wp_store_bytes h a d (Q : unit → heap → Prop) : 0 ≤ a - base h → a - base h + len d ≤ len (ram h) →
  Q tt (set_ram (put (a - base h) d (ram h)) h) → wp (store_bytes a d) Q h.
Proof.
  intros Ha Hl HQ. unfold store_bytes. do 2 wp_step. wp_step. apply wp_mem_write; [done..|]. by wp_step.
Qed.

Lemma wp_load_bytes h a n (Q : list Z → heap → Prop) : 0 ≤ a - base h → 0 ≤ n → a - base h + n ≤ len (ram h) →
  Q (slice (a - base h) n (ram h)) h → wp (load_bytes a n) Q h.
Proof. intros Ha Hn Hl HQ. unfold load_bytes. do 2 wp_step. by apply wp_mem_read. Qed.

Lemma wp_load_n h n a (Q : Z → heap → Prop) : 0 ≤ a - base h → a - base h + Z.of_nat n ≤ len (ram h) →
  Q (peek (ram h) n (a - base h)) h → wp (load n a) Q h.
Proof. intros Ha Hl HQ. unfold load. wp_step. apply wp_load_bytes; [lia..|]. by wp_step. Qed.

Lemma wp_store_word h n a w (Q : unit → heap → Prop) : 0 ≤ a - base h → a - base h + Z.of_nat n ≤ len (ram h) →
  Q tt (set_ram (put (a - base h) (le n w) (ram h)) h) → wp (store n a w) Q h.
Proof. intros Ha Hl HQ. unfold store. apply wp_store_bytes; rewrite ?length_le; done. Qed.

(** The header at address [p] of the heap. *)
Definition node_in (h : heap) (p : Z) (nd : node) : Prop :=
  0 ≤ p - base h ∧ p - base h + NODE ≤ len (ram h) ∧ node_at (ram h) (p - base h) nd.

Section access.
Context (h : heap) (p : Z) (nd : node) (Hp : node_in h p nd).

Lemma wp_read_prev Q : Q (n_prev nd) h → wp (get_prev p) Q h.
Proof.
  destruct Hp as (H1 & H2 & H3 & _). unfold NODE in *. intros HQ. apply wp_load_n; [lia..|]. by rewrite H3.
Qed.
Lemma wp_read_next Q : Q (n_next nd) h → wp (get_next p) Q h.
Proof.
  destruct Hp as (H1 & H2 & _ & H3 & _). unfold NODE in *. intros HQ. apply wp_load_n; [lia..|].
  replace (p + 8 - base h) with (p - base h + 8) by lia. by rewrite H3.
Qed.
Lemma wp_get_free Q : Q (n_free nd) h → wp (get_free p) Q h.
Proof.
  destruct Hp as (H1 & H2 & _ & _ & H3 & _). unfold NODE in *. intros HQ. unfold get_free. wp_step.
  apply wp_load_n; [lia..|]. replace (p + 16 - base h) with (p - base h + 16) by lia. rewrite H3.
  wp_step. by destruct (n_free nd).
Qed.
Lemma wp_get_size Q : Q (n_size nd) h → wp (get_size p) Q h.
Proof.
  destruct Hp as (H1 & H2 & _ & _ & _ & H3 & _). unfold NODE in *. intros HQ. apply wp_load_n; [lia..|].
  replace (p + 20 - base h) with (p - base h + 20) by lia. by rewrite H3.
Qed.
Lemma wp_get_allocated Q : Q (n_alloc nd) h → wp (get_allocated p) Q h.
Proof.
  destruct Hp as (H1 & H2 & _ & _ & _ & _ & H3). unfold NODE in *. intros HQ. apply wp_load_n; [lia..|].
  replace (p + 24 - base h) with (p - base h + 24) by lia. by rewrite H3.
Qed.
End access.

(** The two heaps have the same bytes between [lo] and [hi]. *)
Definition agree (h h' : heap) (lo hi : Z) : Prop :=
  base h' = base h ∧ ∀ a n, lo ≤ a → 0 ≤ n → a + n ≤ hi → 0 ≤ a - base h → a - base h + n ≤ len (ram h) →
    a - base h + n ≤ len (ram h') ∧ slice (a - base h) n (ram h') = slice (a - base h) n (ram h).

(** Only the [n] bytes at [a] have changed. *)
Definition changed (h h' : heap) (a n : Z) : Prop :=
  (base h', limit h', mem_head h', mem_tail h', length (ram h')) =
  (base h, limit h, mem_head h, mem_tail h, length (ram h)) ∧
  ∀ lo hi, hi ≤ a ∨ a + n ≤ lo → agree h h' lo hi.

Lemma agree_refl h lo hi : agree h h lo hi.
Proof. done. Qed.

Lemma agree_trans h1 h2 h3 lo hi : agree h1 h2 lo hi → agree h2 h3 lo hi → agree h1 h3 lo hi.
Proof.
  intros [B1 H1] [B2 H2]. split; [congruence|]. intros a n Hlo Hn Hhi H0 Hl.
  destruct (H1 a n) as [L1 E1]; [done..|]. rewrite B1 in H2. destruct (H2 a n) as [L2 E2]; [done..|].
  split; [done|congruence].
Qed.

Lemma agree_sub h h' lo hi lo' hi' : agree h h' lo hi → lo ≤ lo' → hi' ≤ hi → agree h h' lo' hi'.
Proof. intros [B H] ? ?. split; [done|]. intros a n ? ? ? ?. apply H; lia. Qed.

Lemma changed_stored h a d : 0 ≤ a - base h → a - base h + len d ≤ len (ram h) →
  changed h (set_ram (put (a - base h) d (ram h)) h) a (len d).
Proof.
  intros H1 H2. split; [cbn; by rewrite length_put|]. intros lo hi Hd. split; [done|].
  intros b n ? ? ? ? ?. cbn. rewrite length_put by done. split; [done|]. apply slice_put_disjoint; lia.
Qed.

Lemma node_in_agree h h' p nd : agree h h' p (p + NODE) → node_in h p nd → node_in h' p nd.
Proof.
  intros [B H] (H1 & H2 & H3). unfold node_in. rewrite B. destruct (H p NODE) as [L E]; [unfold NODE in *; lia..|].
  split_and!; [done..|]. by apply (node_at_ext (ram h)).
Qed.

Lemma wp_store_field h p k n v Q (nd nd' : node) : node_in h p nd → 0 ≤ k → k + Z.of_nat n ≤ NODE →
  node_at (put (p - base h + k) (le n v) (ram h)) (p - base h) nd' →
  (∀ h', changed h h' p NODE → node_in h' p nd' → Q tt h') → wp (store n (p + k) v) Q h.
Proof.
  intros (H1 & H2 & H3) Hk Hn Hnd HQ. apply wp_store_word; [lia..|].
  replace (p + k - base h) with (p - base h + k) by lia.
  pose proof (changed_stored h (p + k) (le n v)) as [E Hc]; rewrite ?length_le; [lia..|].
  replace (p + k - base h) with (p - base h + k) in * by lia. apply HQ.
  - split; [done|]. intros lo hi Hd. apply Hc. rewrite length_le. unfold NODE in *. lia.
  - split_and!; [done|cbn; rewrite length_put; rewrite ?length_le; lia|done].
Qed.

Section update.
Context (h : heap) (p : Z) (nd : node) (Hp : node_in h p nd).

Lemma wp_write_prev v Q : 0 ≤ v < 2 ^ 64 →
  (∀ h', changed h h' p NODE → node_in h' p (mk_node v (n_next nd) (n_free nd) (n_size nd) (n_alloc nd)) → Q tt h') →
  wp (set_prev p v) Q h.
Proof.
  intros Hv HQ. unfold set_prev. rewrite <-(Z.add_0_r p). eapply wp_store_field; [done|done|done| |exact HQ].
  rewrite Z.add_0_r. apply node_put_prev; by try apply Hp.
Qed.
Lemma wp_write_next v Q : 0 ≤ v < 2 ^ 64 →
  (∀ h', changed h h' p NODE → node_in h' p (mk_node (n_prev nd) v (n_free nd) (n_size nd) (n_alloc nd)) → Q tt h') →
  wp (set_next p v) Q h.
Proof. intros Hv HQ. eapply wp_store_field; [done|done|done| |exact HQ]. apply node_put_next; by try apply Hp. Qed.
Lemma wp_set_free v Q :
  (∀ h', changed h h' p NODE → node_in h' p (mk_node (n_prev nd) (n_next nd) v (n_size nd) (n_alloc nd)) → Q tt h') →
  wp (set_free p v) Q h.
Proof. intros HQ. eapply wp_store_field; [done|done|done| |exact HQ]. apply node_put_free; by try apply Hp. Qed.
Lemma wp_set_size v Q : 0 ≤ v < 2 ^ 32 →
  (∀ h', changed h h' p NODE → node_in h' p (mk_node (n_prev nd) (n_next nd) (n_free nd) v (n_alloc nd)) → Q tt h') →
  wp (set_size p v) Q h.
Proof. intros Hv HQ. eapply wp_store_field; [done|done|done| |exact HQ]. apply node_put_size; by try apply Hp. Qed.
Lemma wp_set_allocated v Q : 0 ≤ v < 2 ^ 64 →
  (∀ h', changed h h' p NODE → node_in h' p (mk_node (n_prev nd) (n_next nd) (n_free nd) (n_size nd) v) → Q tt h') →
  wp (set_allocated p v) Q h.
Proof. intros Hv HQ. eapply wp_store_field; [done|done|done| |exact HQ]. apply node_put_alloc; by try apply Hp. Qed.
End update.

(** The bytes [d] at address [a]. *)
Definition data_in (h : heap) (a : Z) (d : list Z) : Prop :=
  0 ≤ a - base h ∧ a - base h + len d ≤ len (ram h) ∧ slice (a - base h) (len d) (ram h) = d.

Lemma data_in_agree h h' a d : agree h h' a (a + len d) → data_in h a d → data_in h' a d.
Proof.
  intros [B H] (H1 & H2 & H3). unfold data_in. rewrite B. destruct (H a (len d)) as [L E]; [lia..|].
  split_and!; [done..|congruence].
Qed.

Lemma wp_memset h a n (Q : unit → heap → Prop) : 0 ≤ n → 0 ≤ a - base h → a - base h + n ≤ len (ram h) →
  (∀ h', changed h h' a n → data_in h' a (replicate (Z.to_nat n) 0) → Q tt h') → wp (memset a 0 n) Q h.
Proof.
  intros Hn H1 H2 HQ. unfold memset. assert (E : len (replicate (Z.to_nat n) 0) = n) by (rewrite length_replicate; lia).
  destruct (Z.eqb_spec n 0) as [->|].
  - wp_step. apply HQ; [split; [done|intros; apply agree_refl]|]. split_and!; [done..|]. apply slice_nil.
  - apply wp_store_bytes; [done|lia|].
    pose proof (changed_stored h a (replicate (Z.to_nat n) 0) H1 ltac:(lia)) as Hc. rewrite E in Hc.
    apply HQ; [done|]. split_and!; [done|cbn; rewrite length_put; lia|]. apply slice_put_same; lia.
Qed.

(** ** The list of blocks

    The abstract heap is the list of the blocks in address order, each with
    its contents.  In memory the blocks follow each other without gaps. *)
Record block := mk_block { bfree : bool; bdata : list Z }.
Definition bsize (b : block) : Z := len (bdata b).

Fixpoint span (p : Z) (bs : list block) : Z :=
  match bs with [] => p | b :: bs => span (p + NODE + bsize b) bs end.
Fixpoint last_block (prev p : Z) (bs : list block) : Z :=
  match bs with [] => prev | b :: bs => last_block p (p + NODE + bsize b) bs end.
Definition next_block (p : Z) (bs : list block) (nxt : Z) : Z := match bs with [] => nxt | _ => p end.

Fixpoint seg (h : heap) (prev p : Z) (bs : list block) (nxt : Z) : Prop :=
  match bs with
  | [] => True
  | b :: bs =>
      node_in h p (mk_node prev (next_block (p + NODE + bsize b) bs nxt) (bfree b) (bsize b) (p + NODE)) ∧
      data_in h (p + NODE) (bdata b) ∧
      seg h p (p + NODE + bsize b) bs nxt
  end.

Record heap_ok (h : heap) (bs : list block) : Prop := {
  h_base : 0 < base h;
  h_limit : limit h < 2 ^ 63;
  h_small : limit h - base h < 2 ^ 32;
  h_room : base h + len (ram h) ≤ limit h;
  h_head : mem_head h = next_block (base h) bs NULL;
  h_span : span (base h) bs = base h + len (ram h);
  h_seg : seg h NULL (base h) bs NULL
}.

(** [mem_tail] points to the last block. *)
Definition tail_ok (h : heap) (bs : list block) : Prop := mem_tail h = last_block NULL (base h) bs.

Lemma span_ge p bs : p ≤ span p bs.
Proof.
  revert p. induction bs as [|b bs IH]; intros p; cbn; [lia|]. specialize (IH (p + NODE + bsize b)).
  unfold bsize, NODE in *. lia.
Qed.

Lemma span_app p bs1 bs2 : span p (bs1 ++ bs2) = span (span p bs1) bs2.
Proof. revert p. induction bs1 as [|b bs IH]; intros p; cbn; [done|apply IH]. Qed.

Lemma last_app prev p bs1 bs2 :
  last_block prev p (bs1 ++ bs2) = last_block (last_block prev p bs1) (span p bs1) bs2.
Proof. revert prev p. induction bs1 as [|b bs IH]; intros prev p; cbn; [done|apply IH]. Qed.

Lemma next_app p bs1 bs2 nxt : next_block p (bs1 ++ bs2) nxt = next_block p bs1 (next_block p bs2 nxt).
Proof. by destruct bs1. Qed.

Lemma seg_app h prev p bs1 bs2 nxt : seg h prev p (bs1 ++ bs2) nxt ↔
  seg h prev p bs1 (next_block (span p bs1) bs2 nxt) ∧ seg h (last_block prev p bs1) (span p bs1) bs2 nxt.
Proof.
  revert prev p. induction bs1 as [|b bs IH]; intros prev p; cbn [app seg span last_block]; [tauto|].
  rewrite IH. destruct bs as [|c bs]; cbn [next_block app span]; [|tauto]. tauto.
Qed.

Lemma seg_agree h h' prev p bs nxt : agree h h' p (span p bs) → seg h prev p bs nxt → seg h' prev p bs nxt.
Proof.
  revert prev p. induction bs as [|b bs IH]; intros prev p; cbn [seg span]; [done|]. intros Ha (H1 & H2 & H3).
  pose proof (span_ge (p + NODE + bsize b) bs) as Hs. unfold bsize in *. split_and!.
  - eapply node_in_agree; [|done]. eapply agree_sub; [done|lia..].
  - eapply data_in_agree; [|done]. eapply agree_sub; [done|unfold NODE in *; lia..].
  - apply IH; [|done]. eapply agree_sub; [done|unfold NODE in *; lia..].
Qed.

(** There are fewer blocks than bytes. *)
Lemma span_length p bs : p + NODE * len bs ≤ span p bs.
Proof.
  revert p. induction bs as [|b bs IH]; intros p; cbn [length span]; [lia|].
  specialize (IH (p + NODE + bsize b)). unfold NODE, bsize in *. lia.
Qed.

(** A block is at the place its predecessors leave. *)
Lemma seg_middle h prev p bs1 b bs2 nxt : seg h prev p (bs1 ++ b :: bs2) nxt →
  node_in h (span p bs1) (mk_node (last_block prev p bs1) (next_block (span p bs1 + NODE + bsize b) bs2 nxt)
    (bfree b) (bsize b) (span p bs1 + NODE)) ∧
  data_in h (span p bs1 + NODE) (bdata b).
Proof. intros [_ (H1 & H2 & _)]%seg_app. done. Qed.

(** ** Searching *)

Definition fits (n : Z) (b : block) : bool := (n <=? bsize b) && bfree b.

Lemma wp_pure {A} (m : M heap A) x h : wp m (λ y h', y = x ∧ h' = h) h → m h = Ok (x, h).
Proof. intros H. by apply wp_Ok in H as (y & h' & E & -> & ->). Qed.

Lemma find_block_skip h p nd n fuel : p ≠ NULL → node_in h p nd →
  (n <=? n_size nd) && n_free nd = false → find_block (S fuel) p n h = find_block fuel (n_next nd) n h.
Proof.
  intros Hp Hnd Hfit. cbn [find_block]. rewrite (proj2 (Z.eqb_neq p NULL)) by done. unfold mbind, M_bind.
  rewrite (wp_pure _ _ _ (wp_get_size h p nd Hnd _ (conj eq_refl eq_refl))).
  destruct (n <=? n_size nd); cbn [andb] in Hfit.
  - rewrite (wp_pure _ _ _ (wp_get_free h p nd Hnd _ (conj eq_refl eq_refl))), Hfit.
    by rewrite (wp_pure _ _ _ (wp_read_next h p nd Hnd _ (conj eq_refl eq_refl))).
  - cbn [mret M_ret]. by rewrite (wp_pure _ _ _ (wp_read_next h p nd Hnd _ (conj eq_refl eq_refl))).
Qed.

(** The search passes over blocks that do not fit. *)
Lemma find_block_prefix h bs1 bs2 n prev p k : 0 < base h →
  seg h prev p (bs1 ++ bs2) NULL → base h ≤ p → Forall (λ b, fits n b = false) bs1 →
  find_block (length bs1 + k) (next_block p (bs1 ++ bs2) NULL) n h =
  find_block k (next_block (span p bs1) bs2 NULL) n h.
Proof.
  intros Hb. revert prev p. induction bs1 as [|b bs IH]; intros prev p Hs Hp Hn; [done|].
  cbn [app next_block length Nat.add]. cbn [app] in Hs. destruct Hs as (Hnd & _ & Hs).
  inversion Hn as [|? ? Hb1 Hn']; subst. erewrite find_block_skip; [|lia|done|exact Hb1]. cbn [n_next].
  apply (IH p); [done|unfold NODE, bsize; lia|done].
Qed.

Section searching.
Context (h : heap) (bs : list block) (Hok : heap_ok h bs).

Lemma fuel_split bs1 bs2 : bs = bs1 ++ bs2 → ∃ k, S (length (ram h)) = (length bs1 + S k)%nat.
Proof.
  intros E. pose proof (span_length (base h) bs) as Hs. rewrite (h_span _ _ Hok) in Hs. rewrite E, length_app in Hs.
  unfold NODE in Hs. exists (length (ram h) - length bs1)%nat. lia.
Qed.

Lemma wp_find_none n Q : Forall (λ b, fits n b = false) bs → Q None h →
  wp (find_block (S (length (ram h))) (mem_head h) n) Q h.
Proof.
  intros Hn HQ. destruct (fuel_split bs [] ltac:(by rewrite app_nil_r)) as [k ->].
  rewrite (h_head _ _ Hok). rewrite <-(app_nil_r bs) at 2.
  unfold wp. rewrite (find_block_prefix h bs [] n NULL); [|apply Hok|rewrite app_nil_r; apply Hok|done|done].
  change (wp (find_block (S k) NULL n) Q h).
  by apply wp_ret.
Qed.

(** A block that fits but cannot be split is handed out as it is. *)
Lemma wp_find_reuse n bs1 b bs2 Q : bs = bs1 ++ b :: bs2 → Forall (λ b, fits n b = false) bs1 →
  fits n b = true → bsize b < 1 + n + NODE → Q (Some (span (base h) bs1 + NODE)) h →
  wp (find_block (S (length (ram h))) (mem_head h) n) Q h.
Proof.
  intros E Hn Hfit Hsz HQ. destruct (fuel_split bs1 (b :: bs2) E) as [k ->]. pose proof (h_seg _ _ Hok) as Hs.
  rewrite (h_head _ _ Hok). rewrite E in Hs |- *.
  unfold wp. rewrite (find_block_prefix h bs1 (b :: bs2) n NULL); [|apply Hok|done|done|done].
  change (wp (find_block (S k) (span (base h) bs1) n) Q h).
  destruct (seg_middle _ _ _ _ _ _ _ Hs) as [Hnd _]. pose proof (span_ge (base h) bs1). pose proof (h_base _ _ Hok).
  cbn [find_block next_block]. rewrite (proj2 (Z.eqb_neq (span (base h) bs1) NULL)) by lia.
  unfold fits in Hfit. apply andb_true_iff in Hfit as [Hfit Hfree].
  wp_step. eapply wp_get_size; [done|]. cbn [n_size]. wp_step. rewrite Hfit.
  eapply wp_get_free; [done|]. cbn [n_free]. rewrite Hfree. wp_step. eapply wp_get_size; [done|].
  cbn [n_size]. rewrite (proj2 (Z.leb_gt (1 + n + NODE) (bsize b))) by done. wp_step.
  eapply wp_get_allocated; [done|]. cbn [n_alloc]. by wp_step.
Qed.
End searching.

(** ** Growing the heap *)

Definition grown (h h' : heap) (n : Z) : Prop :=
  (base h', limit h', mem_head h', mem_tail h') = (base h, limit h, mem_head h, mem_tail h) ∧
  len (ram h') = len (ram h) + n ∧ agree h h' (base h) (base h + len (ram h)) ∧
  data_in h' (base h + len (ram h)) (replicate (Z.to_nat n) 0).

Lemma wp_sbrk h n (Q : Z → heap → Prop) : 0 ≤ n < 2 ^ 63 →
  (base h + len (ram h) + n ≤ limit h → ∀ h', grown h h' n → Q (base h + len (ram h)) h') →
  (limit h < base h + len (ram h) + n → Q FAILED h) → wp (sbrk n) Q h.
Proof.
  intros Hn Hok Hfail. unfold sbrk. do 2 wp_step. rewrite signed_small by lia. cbn [id].
  rewrite (proj2 (Z.leb_le 0 _)) by lia. cbn [andb].
  destruct (Z.leb_spec (base h + (len (ram h) + n)) (limit h)) as [Hl|Hl]; [|wp_step; apply Hfail; lia].
  do 2 wp_step. wp_step. apply Hok; [lia|]. rewrite take_ge by lia.
  replace (Z.to_nat (len (ram h) + n) - length (ram h))%nat with (Z.to_nat n) by lia.
  split; [done|]. split; [cbn; rewrite length_app, length_replicate; lia|]. split.
  - split; [done|]. intros a k ? ? ? ? ?. cbn. rewrite length_app. split; [lia|].
    unfold slice. rewrite drop_app_le by lia. rewrite take_app_le; [done|]. rewrite length_drop. lia.
  - unfold data_in. cbn. rewrite length_app, length_replicate. split_and!; [lia..|].
    replace (base h + len (ram h) - base h) with (len (ram h)) by lia. unfold slice. rewrite !Nat2Z.id, drop_app_length. apply take_ge. rewrite length_replicate. lia.
Qed.

(** Fresh memory can hold any header. *)
Lemma zero_node h p : data_in h p (replicate 32 0) → node_in h p (mk_node 0 0 false 0 0).
Proof.
  intros (H1 & H2 & H3). rewrite length_replicate in *. split_and!; [done..|].
  unfold node_at. rewrite <-(Z.add_0_r (p - base h)) at 1. rewrite <-!(peek_slice _ _ _ 32) by lia.
  change 32 with (Z.of_nat 32). rewrite H3. done.
Qed.

(** ** Chains of changes *)

Lemma changed_eqs h h' a n : changed h h' a n →
  base h' = base h ∧ limit h' = limit h ∧ mem_head h' = mem_head h ∧ mem_tail h' = mem_tail h ∧
  length (ram h') = length (ram h).
Proof. by intros [[= -> -> -> -> ->] _]. Qed.

Lemma grown_eqs h h' n : grown h h' n →
  base h' = base h ∧ limit h' = limit h ∧ mem_head h' = mem_head h ∧ mem_tail h' = mem_tail h ∧
  len (ram h') = len (ram h) + n.
Proof. intros [[= -> -> -> ->] [-> _]]. done. Qed.

Lemma grown_agree h h' n lo hi : grown h h' n → base h ≤ lo → hi ≤ base h + len (ram h) → agree h h' lo hi.
Proof. intros (_ & _ & H & _) ? ?. by eapply agree_sub. Qed.

(** Records what a change leaves alone, as equations that [lia] can use. *)
Ltac change_facts H :=
  let T := type of H in
  lazymatch T with
  | changed _ _ _ _ => pose proof (changed_eqs _ _ _ _ H) as (? & ? & ? & ? & ?)
  | grown _ _ _ => pose proof (grown_eqs _ _ _ H) as (? & ? & ? & ? & ?)
  end.

(** Shows that two heaps agree by going through the changes between them. *)
Ltac agrees :=
  lazymatch goal with
  | |- agree ?h ?h _ _ => apply agree_refl
  | |- agree ?h (set_tail _ ?h') ?lo ?hi => change (agree h h' lo hi); agrees
  | H : changed ?h1 ?h2 _ _ |- agree _ ?h2 _ _ => eapply agree_trans; [|apply H; unfold NODE in *; lia]; agrees
  | H : grown ?h1 ?h2 _ |- agree _ ?h2 _ _ =>
      eapply agree_trans; [|apply (grown_agree _ _ _ _ _ H); unfold NODE in *; lia]; agrees
  end.

Ltac nlia := unfold NODE, FAILED in *; lia.
Ltac fields_in H := cbn [n_prev n_next n_free n_size n_alloc] in H.

(** The block a call of [mm_malloc] adds, and the heap after it. *)
Definition fresh_block (n : Z) : block := mk_block false (replicate (Z.to_nat n) 0).

Lemma fresh_size n : 0 ≤ n → bsize (fresh_block n) = n.
Proof. intros. unfold bsize. cbn. rewrite length_replicate. lia. Qed.

Definition appended (h : heap) (bs : list block) (n p : Z) (h' : heap) : Prop :=
  p = base h + len (ram h) + NODE ∧ heap_ok h' (bs ++ [fresh_block n]) ∧ tail_ok h' (bs ++ [fresh_block n]) ∧
  base h' = base h ∧ limit h' = limit h.

Lemma wp_new_block h bs n : heap_ok h bs → tail_ok h bs → bs ≠ [] → 0 < n →
  base h + len (ram h) + NODE + n ≤ limit h →
  wp (new_block n) (appended h bs n) h.
Proof.
  intros Hok Htail Hne Hn Hroom. pose proof Hok as [Hb Hlim Hsm _ Hhead Hspan Hseg].
  destruct (exists_last Hne) as (bs0 & bl & ->). unfold tail_ok in Htail.
  rewrite last_app in Htail. cbn [last_block] in Htail. rewrite span_app in Hspan. cbn [span] in Hspan.
  pose proof (span_ge (base h) bs0) as Hge. unfold bsize, NODE in Hspan.
  apply seg_app in Hseg as [Hs0 (Hnd & Hd & _)]. cbn [next_block] in Hs0, Hnd. set (tp := span (base h) bs0) in *.
  set (e := base h + len (ram h)) in *. assert (He : e = base h + len (ram h)) by done. unfold NODE in Hroom.
  unfold new_block. wp_step. apply wp_sbrk; [nlia| |nlia]. intros _ h1 G1. change_facts G1.
  fold e. rewrite (proj2 (Z.eqb_neq e FAILED)) by nlia.
  pose proof (zero_node h1 e ltac:(apply G1)) as Hp1. do 2 wp_step.
  assert (mem_tail h1 = tp) as -> by congruence. wp_step.
  eapply wp_write_prev; [done|lia|]. intros h2 C2 Hp2. fields_in Hp2. change_facts C2. wp_step.
  assert (Ht2 : node_in h2 tp (mk_node (last_block 0 (base h) bs0) NULL (bfree bl) (bsize bl) (tp + NODE)))
    by (eapply node_in_agree; [|exact Hnd]; agrees).
  eapply wp_write_next; [exact Ht2|lia|]. intros h3 C3 Ht3. fields_in Ht3. change_facts C3. wp_step.
  eapply wp_write_next; [eapply node_in_agree; [|exact Hp2]; agrees|lia|].
  intros h4 C4 Hp4. fields_in Hp4. change_facts C4. wp_step.
  eapply wp_set_size; [exact Hp4|lia|]. intros h5 C5 Hp5. fields_in Hp5. change_facts C5. wp_step.
  eapply wp_set_free; [exact Hp5|]. intros h6 C6 Hp6. fields_in Hp6. change_facts C6. wp_step.
  apply wp_sbrk; [nlia| |nlia]. intros _ h7 G7. change_facts G7. wp_step.
  replace (base h6 + len (ram h6)) with (e + NODE) by nlia.
  eapply wp_set_allocated; [eapply node_in_agree; [|exact Hp6]; agrees|nlia|].
  intros h8 C8 Hp8. fields_in Hp8. change_facts C8. wp_step. eapply wp_get_allocated; [exact Hp8|]. cbn [n_alloc].
  rewrite (proj2 (Z.eqb_neq (e + NODE) FAILED)) by nlia. wp_step.
  apply wp_memset; [lia|nlia..|]. intros h9 C9 Hd9. change_facts C9. do 2 wp_step.
  assert (Hp9 : node_in h9 e (mk_node tp 0 false n (e + NODE)))
    by (eapply node_in_agree; [|exact Hp8]; agrees).
  eapply wp_get_allocated; [exact Hp9|]. cbn [n_alloc]. split; [done|].
  pose proof (fresh_size n ltac:(lia)) as En.
  split; [split|]; [..|split; [|split; cbn; congruence]]; cbn [base limit ram mem_head mem_tail set_tail].
  - lia.
  - lia.
  - lia.
  - nlia.
  - assert (mem_head h9 = mem_head h) as -> by congruence. assert (base h9 = base h) as -> by congruence.
    rewrite Hhead. by destruct bs0.
  - assert (base h9 = base h) as -> by congruence. rewrite !span_app. fold tp. cbn [span]. rewrite En.
    unfold bsize. nlia.
  - assert (base h9 = base h) as -> by congruence. rewrite <-app_assoc. apply seg_app. fold tp. cbn [app next_block].
    split; [apply (seg_agree h); [|exact Hs0]; agrees|].
    assert (Etp : tp + NODE + bsize bl = e) by (unfold bsize; nlia).
    cbn [seg next_block]. rewrite Etp, En.
    split; [eapply node_in_agree; [|exact Ht3]; agrees|].
    split; [eapply data_in_agree; [|exact Hd]; agrees|].
    split; [exact Hp9|]. split; [exact Hd9|done].
  - unfold tail_ok. cbn [mem_tail set_tail base]. assert (base h9 = base h) as -> by congruence.
    rewrite !last_app. cbn [last_block]. rewrite span_app. fold tp. cbn [span]. unfold bsize. nlia.
Qed.

Lemma wp_first_block h n : heap_ok h [] → 0 < n → base h + NODE + n ≤ limit h →
  wp (first_block n) (appended h [] n) h.
Proof.
  intros Hok Hn Hroom. pose proof Hok as [Hb Hlim Hsm _ Hhead Hspan _]. cbn [span] in Hspan.
  unfold NODE in Hroom. set (e := base h) in *. assert (He : e = base h) by done.
  unfold first_block. wp_step. apply wp_sbrk; [nlia| |nlia]. intros _ h1 G1. change_facts G1.
  replace (base h + len (ram h)) with e by lia. do 2 wp_step.
  rewrite (proj2 (Z.eqb_neq e FAILED)) by nlia.
  assert (Hp1 : node_in (set_head e h1) e (mk_node 0 0 false 0 0)).
  { apply (zero_node h1 e). destruct G1 as (_ & _ & _ & G1). by replace (base h + len (ram h)) with e in G1 by lia. }
  wp_step. eapply wp_write_prev; [done|lia|]. intros h2 C2 Hp2. fields_in Hp2. change_facts C2. wp_step.
  eapply wp_set_free; [exact Hp2|]. intros h3 C3 Hp3. fields_in Hp3. change_facts C3. wp_step.
  eapply wp_write_next; [exact Hp3|lia|]. intros h4 C4 Hp4. fields_in Hp4. change_facts C4. wp_step.
  eapply wp_set_size; [exact Hp4|lia|]. intros h5 C5 Hp5. fields_in Hp5. change_facts C5. wp_step.
  cbn [base limit mem_head mem_tail ram set_head] in *.
  apply wp_sbrk; [nlia| |nlia]. intros _ h7 G7. change_facts G7. wp_step.
  replace (base h5 + len (ram h5)) with (e + NODE) by nlia.
  eapply wp_set_allocated; [eapply node_in_agree; [|exact Hp5]; agrees|nlia|].
  intros h8 C8 Hp8. fields_in Hp8. change_facts C8. wp_step. eapply wp_get_allocated; [exact Hp8|]. cbn [n_alloc].
  rewrite (proj2 (Z.eqb_neq (e + NODE) FAILED)) by nlia. do 3 wp_step.
  apply wp_memset; [lia|cbn; nlia..|]. intros h9 C9 Hd9. change_facts C9. cbn [base limit mem_head mem_tail ram set_tail] in *.
  assert (Hp9 : node_in h9 e (mk_node 0 0 false n (e + NODE))).
  { eapply node_in_agree; [|exact Hp8]. change (agree (set_tail e h8) h9 e (e + NODE)). agrees. }
  eapply wp_get_allocated; [exact Hp9|]. cbn [n_alloc]. split; [nlia|].
  pose proof (fresh_size n ltac:(lia)) as En. cbn [app].
  split; [split|split; [|split; congruence]].
  - lia.
  - lia.
  - lia.
  - nlia.
  - cbn. congruence.
  - cbn [span]. rewrite En. nlia.
  - cbn [seg next_block]. rewrite En. replace (base h9) with e by congruence. split_and!; [exact Hp9|exact Hd9|done].
  - unfold tail_ok. cbn [last_block]. congruence.
Qed.

Lemma wp_mm_malloc h bs n : heap_ok h bs → tail_ok h bs → 0 < n → Forall (λ b, fits n b = false) bs →
  base h + len (ram h) + NODE + n ≤ limit h → wp (mm_malloc n) (appended h bs n) h.
Proof.
  intros Hok Htail Hn Hnone Hroom. pose proof Hok as [Hb Hlim Hsm _ Hhead Hspan _]. unfold mm_malloc.
  rewrite (proj2 (Z.eqb_neq n 0)) by lia. do 2 wp_step. rewrite Hhead. destruct bs as [|b bs].
  - cbn [span] in Hspan. apply wp_first_block; [done|done|lia].
  - cbn [next_block]. rewrite (proj2 (Z.eqb_neq (base h) NULL)) by lia.
    rewrite (proj2 (Z.leb_gt 4294967295 n)) by nlia. unfold list_fuel. do 3 wp_step.
    replace (base h) with (mem_head h) by done. apply (wp_find_none h (b :: bs)); [done|done|].
    by apply wp_new_block.
Qed.

(** ** Merging neighbours *)

Definition merged (a b : block) : block :=
  mk_block true (replicate (Z.to_nat (bsize a + NODE + bsize b)) 0).

Lemma bsize_nonneg b : 0 ≤ bsize b.
Proof. unfold bsize. lia. Qed.

Lemma merged_size a b : bsize (merged a b) = bsize a + NODE + bsize b.
Proof.
  pose proof (bsize_nonneg a). pose proof (bsize_nonneg b). unfold bsize at 1. cbn. rewrite length_replicate. nlia.
Qed.

(** Setting the back link of the first block of [bs], if there is one. *)
Lemma wp_relink h pv p bs v Q : 0 < p → seg h pv p bs NULL → 0 ≤ v < 2 ^ 64 →
  (∀ h', changed h h' p NODE → (∀ b l, bs = b :: l →
     node_in h' p (mk_node v (next_block (p + NODE + bsize b) l NULL) (bfree b) (bsize b) (p + NODE))) → Q tt h') →
  wp (when (negb (next_block p bs NULL =? NULL)) (set_prev (next_block p bs NULL) v)) Q h.
Proof.
  intros Hp Hs Hv HQ. destruct bs as [|b bs]; cbn [next_block].
  - cbn [negb Z.eqb when]. wp_step. apply HQ; [|done]. split; [done|]. intros. apply agree_refl.
  - rewrite (proj2 (Z.eqb_neq p NULL)) by lia. cbn [negb when]. destruct Hs as (Hnd & _ & _).
    eapply wp_write_prev; [done|done|]. intros h' C Hn. apply HQ; [done|]. intros ? ? [= <- <-]. exact Hn.
Qed.

Lemma seg_relink h h' pv p bs v : seg h pv p bs NULL → agree h h' (p + NODE) (span p bs) →
  (∀ b l, bs = b :: l →
     node_in h' p (mk_node v (next_block (p + NODE + bsize b) l NULL) (bfree b) (bsize b) (p + NODE))) →
  seg h' v p bs NULL.
Proof.
  intros Hs Ha Hn. destruct bs as [|b bs]; [done|]. destruct Hs as (_ & Hd & Hs). cbn [span] in Ha.
  pose proof (span_ge (p + NODE + bsize b) bs). split; [by apply Hn|]. pose proof (bsize_nonneg b). split.
  - eapply data_in_agree; [|exact Hd]. eapply agree_sub; [done|unfold bsize in *; lia..].
  - eapply seg_agree; [|exact Hs]. eapply agree_sub; [done|lia..].
Qed.

(** The list after two neighbours have become one. *)
Lemma heap_ok_merge h h' l1 a b l2 :
  heap_ok h (l1 ++ a :: b :: l2) →
  let pa := span (base h) l1 in let pc := pa + NODE + bsize (merged a b) in
  (base h', limit h', mem_head h', length (ram h')) = (base h, limit h, mem_head h, length (ram h)) →
  agree h h' (base h) pa →
  node_in h' pa (mk_node (last_block NULL (base h) l1) (next_block pc l2 NULL) true (bsize (merged a b)) (pa + NODE)) →
  data_in h' (pa + NODE) (replicate (Z.to_nat (bsize (merged a b))) 0) →
  (∀ c l, l2 = c :: l → node_in h' pc (mk_node pa (next_block (pc + NODE + bsize c) l NULL) (bfree c) (bsize c) (pc + NODE))) →
  agree h h' (pc + NODE) (base h + len (ram h)) →
  heap_ok h' (l1 ++ merged a b :: l2).
Proof.
  intros [Hb Hlim Hsm Hroom Hhead Hspan Hseg] pa pc [= Eb El Eh Er] Ha1 Hn Hd Hc Ha2.
  rewrite span_app in Hspan. cbn [span] in Hspan. fold pa in Hspan.
  assert (Epc : pa + NODE + bsize a + NODE + bsize b = pc) by (unfold pc; rewrite merged_size; lia).
  rewrite Epc in Hspan. apply seg_app in Hseg as [H1 (H2 & H3 & H4 & H5 & H6)]. fold pa in H1, H2, H3, H4, H5, H6.
  rewrite Epc in H6.
  split; rewrite ?Eb, ?El, ?Er; try done.
  - rewrite Eh, Hhead. by destruct l1.
  - rewrite span_app. cbn [span]. fold pa. fold pc. lia.
  - apply seg_app. fold pa. cbn [next_block]. split; [by eapply seg_agree|]. cbn [seg]. fold pc.
    split; [exact Hn|]. split; [|].
    + replace (bdata (merged a b)) with (replicate (Z.to_nat (bsize (merged a b))) 0); [done|].
      rewrite merged_size. done.
    + eapply seg_relink; [exact H6|by rewrite Hspan|exact Hc].
Qed.

Definition freed (b : block) : block := mk_block true (replicate (length (bdata b)) 0).

Lemma freed_size b : bsize (freed b) = bsize b.
Proof. unfold bsize. cbn. by rewrite length_replicate. Qed.

(** What [mm_free] makes of the block [b] between [l1] and [l2]. *)
Definition join_left (l1 : list block) (b : block) : list block * block :=
  match last l1 with
  | Some a => if bfree a then (removelast l1, merged a b) else (l1, b)
  | None => (l1, b)
  end.
Definition join_right (b : block) (l2 : list block) : block * list block :=
  match l2 with
  | c :: l => if bfree c then (merged b c, l) else (b, l2)
  | [] => (b, [])
  end.
Definition coalesce (l1 : list block) (b : block) (l2 : list block) : list block :=
  let '(l1', b1) := join_left l1 (freed b) in
  let '(b2, l2') := join_right b1 l2 in l1' ++ b2 :: l2'.

Definition kept (h h' : heap) : Prop :=
  base h' = base h ∧ limit h' = limit h ∧ mem_tail h' = mem_tail h ∧ length (ram h') = length (ram h).

Lemma wp_merge_right h l1 b l2 : heap_ok h (l1 ++ b :: l2) → bfree b = true →
  wp (merge_right (span (base h) l1)) (λ _ h', kept h h' ∧
    heap_ok h' (l1 ++ (join_right b l2).1 :: (join_right b l2).2)) h.
Proof.
  intros Hok Hb. pose proof Hok as [Hb0 Hlim Hsm Hroom Hhead Hspan Hseg].
  rewrite span_app in Hspan. cbn [span] in Hspan. pose proof (span_ge (base h) l1) as Hge.
  apply seg_app in Hseg as [H1 (H2 & H3 & H4)]. set (pa := span (base h) l1) in *.
  pose proof (bsize_nonneg b) as Hsb. unfold merge_right. wp_step. eapply wp_read_next; [exact H2|]. cbn [n_next]. wp_step.
  destruct l2 as [|c l2]; cbn [next_block join_right].
  { apply wp_ret. wp_step. by split. }
  set (pb := pa + NODE + bsize b) in *. assert (Epb : pb = pa + NODE + bsize b) by done.
  rewrite (proj2 (Z.eqb_neq pb NULL)) by nlia. destruct H4 as (H4 & H5 & H6).
  eapply wp_get_free; [exact H4|]. cbn [n_free]. destruct (bfree c) eqn:Ec; [|wp_step; by split].
  pose proof (bsize_nonneg c) as Hsc. cbn [span] in Hspan. fold pb in Hspan.
  set (pc := pb + NODE + bsize c) in *. assert (Epc : pc = pb + NODE + bsize c) by done.
  pose proof (span_ge pc l2) as Hge2.
  wp_step. eapply wp_get_size; [exact H2|]. wp_step. eapply wp_get_size; [exact H4|]. wp_step. cbn [n_size].
  eapply wp_set_size; [exact H2|nlia|]. intros h1 C1 Na1. fields_in Na1. change_facts C1. wp_step.
  assert (Nb1 : node_in h1 pb (mk_node pa (next_block pc l2 NULL) true (bsize c) (pb + NODE)))
    by (eapply node_in_agree; [|exact H4]; agrees).
  eapply wp_read_next; [exact Nb1|]. cbn [n_next]. wp_step.
  apply (wp_relink h1 pb pc l2); [nlia|eapply seg_agree; [|exact H6]; agrees|nlia|].
  intros h2 C2 Nc2. change_facts C2. wp_step.
  assert (Na2 := node_in_agree h1 h2 pa _ ltac:(agrees) Na1).
  eapply wp_write_next; [exact Na2|destruct l2; cbn [next_block span] in *; nlia|].
  intros h3 C3 Na3. fields_in Na3. change_facts C3. wp_step.
  eapply wp_get_allocated; [exact Na3|]. wp_step. eapply wp_get_size; [exact Na3|]. cbn [n_alloc n_size].
  apply wp_memset; [nlia..|]. intros h4 C4 D4. change_facts C4. split; [repeat split; congruence|]. cbn [fst snd].
  assert (Em : bsize (merged b c) = bsize b + (NODE + bsize c)) by (rewrite merged_size; lia).
  apply (heap_ok_merge h); [done|congruence|..]; fold pa; rewrite ?Em;
    replace (pa + NODE + (bsize b + (NODE + bsize c))) with pc by lia.
  - agrees.
  - rewrite <-Hb. eapply node_in_agree; [|exact Na3]. agrees.
  - done.
  - intros d l Ed. eapply node_in_agree; [|exact (Nc2 d l Ed)]. agrees.
  - agrees.
Qed.

Lemma join_left_app l1 a b : join_left (l1 ++ [a]) b = if bfree a then (l1, merged a b) else (l1 ++ [a], b).
Proof. unfold join_left. rewrite last_snoc. destruct (bfree a); [|done]. by rewrite removelast_last. Qed.

Lemma wp_merge_left h l1 b l2 : heap_ok h (l1 ++ b :: l2) → bfree b = true →
  wp (merge_left (span (base h) l1)) (λ p h', kept h h' ∧ p = span (base h) (join_left l1 b).1 ∧
    bfree (join_left l1 b).2 = true ∧ heap_ok h' ((join_left l1 b).1 ++ (join_left l1 b).2 :: l2)) h.
Proof.
  intros Hok Hb. destruct l1 as [|a l1 _] using rev_ind.
  { pose proof (h_seg _ _ Hok) as (H2 & _). unfold merge_left. wp_step. eapply wp_read_prev; [exact H2|].
    wp_step. apply wp_ret. wp_step. by split. }
  rewrite join_left_app. rewrite <-app_assoc in Hok. cbn [app] in Hok.
  pose proof Hok as [Hb0 Hlim Hsm Hroom Hhead Hspan Hseg].
  rewrite span_app in Hspan. cbn [span] in Hspan. pose proof (span_ge (base h) l1) as Hge.
  apply seg_app in Hseg as [H1 (H2 & H3 & H4 & H5 & H6)]. rewrite span_app. cbn [span].
  set (pa := span (base h) l1) in *. set (pb := pa + NODE + bsize a) in *. assert (Epb : pb = pa + NODE + bsize a) by done.
  set (pc := pb + NODE + bsize b) in *. assert (Epc : pc = pb + NODE + bsize b) by done.
  pose proof (bsize_nonneg a) as Hsa. pose proof (bsize_nonneg b) as Hsb. pose proof (span_ge pc l2) as Hge2.
  unfold merge_left. wp_step. eapply wp_read_prev; [exact H4|]. cbn [n_prev]. wp_step.
  rewrite (proj2 (Z.eqb_neq pa NULL)) by nlia. eapply wp_get_free; [exact H2|]. cbn [n_free].
  destruct (bfree a) eqn:Ea; cbn [fst snd].
  2:{ wp_step. split_and!; [by split|by rewrite span_app|done|]. by rewrite <-app_assoc. }
  wp_step. eapply wp_get_size; [exact H2|]. wp_step. eapply wp_get_size; [exact H4|]. wp_step. cbn [n_size].
  eapply wp_set_size; [exact H2|nlia|]. intros h1 C1 Na1. fields_in Na1. change_facts C1. wp_step.
  assert (Nb1 := node_in_agree h h1 pb _ ltac:(agrees) H4). eapply wp_read_next; [exact Nb1|]. cbn [n_next]. wp_step.
  eapply wp_write_next; [exact Na1|destruct l2; cbn [next_block span] in *; nlia|].
  intros h2 C2 Na2. fields_in Na2. change_facts C2. wp_step.
  apply (wp_relink h2 pb pc l2); [nlia|eapply seg_agree; [|exact H6]; agrees|nlia|].
  intros h3 C3 Nc3. change_facts C3. wp_step.
  assert (Na3 := node_in_agree h2 h3 pa _ ltac:(agrees) Na2).
  eapply wp_get_allocated; [exact Na3|]. wp_step. eapply wp_get_size; [exact Na3|]. cbn [n_alloc n_size]. wp_step.
  apply wp_memset; [nlia..|]. intros h4 C4 D4. change_facts C4. wp_step.
  split_and!; [repeat split; congruence|done|done|].
  assert (Em : bsize (merged a b) = bsize a + (NODE + bsize b)) by (rewrite merged_size; lia).
  apply (heap_ok_merge h); [done|congruence|..]; fold pa; rewrite ?Em;
    replace (pa + NODE + (bsize a + (NODE + bsize b))) with pc by lia.
  - agrees.
  - eapply node_in_agree; [|exact Na3]. agrees.
  - done.
  - intros d l Ed. eapply node_in_agree; [|exact (Nc3 d l Ed)]. agrees.
  - agrees.
Qed.

(** ** mm_free *)

Lemma join_left_span p l1 b : span p (join_left l1 b).1 + bsize (join_left l1 b).2 = span p l1 + bsize b.
Proof.
  destruct l1 as [|a l1 _] using rev_ind; [done|]. rewrite join_left_app. destruct (bfree a); cbn [fst snd]; [|done].
  rewrite span_app, merged_size. cbn [span]. lia.
Qed.

Lemma join_right_grows b l2 :
  bsize b ≤ bsize (join_right b l2).1 ∧ (length (join_right b l2).2 ≤ length l2)%nat.
Proof.
  destruct l2 as [|c l2]; cbn [join_right]; [done|]. destruct (bfree c); cbn [fst snd length]; [|lia].
  rewrite merged_size. pose proof (bsize_nonneg c). nlia.
Qed.

Lemma heap_ok_replace h h' l1 b b' l2 :
  heap_ok h (l1 ++ b :: l2) → bsize b' = bsize b →
  let p := span (base h) l1 in
  (base h', limit h', mem_head h', length (ram h')) = (base h, limit h, mem_head h, length (ram h)) →
  agree h h' (base h) p → agree h h' (p + NODE + bsize b) (base h + len (ram h)) →
  node_in h' p (mk_node (last_block NULL (base h) l1) (next_block (p + NODE + bsize b) l2 NULL) (bfree b') (bsize b) (p + NODE)) →
  data_in h' (p + NODE) (bdata b') →
  heap_ok h' (l1 ++ b' :: l2).
Proof.
  intros [Hb Hlim Hsm Hroom Hhead Hspan Hseg] Es p [= Eb El Eh Er] Ha1 Ha2 Hn Hd.
  apply seg_app in Hseg as [H1 (_ & _ & H4)]. fold p in H1, H4. rewrite span_app in Hspan. cbn [span] in Hspan. fold p in Hspan.
  split; rewrite ?Eb, ?El, ?Er; try done.
  - rewrite Eh, Hhead. by destruct l1.
  - rewrite span_app. cbn [span]. fold p. by rewrite Es.
  - apply seg_app. fold p. split; [by eapply seg_agree|]. cbn [seg]. rewrite Es. split; [done|]. split; [done|].
    eapply seg_agree; [|exact H4]. eapply agree_sub; [done|lia..].
Qed.

Lemma wp_free_block h l1 b l2 : heap_ok h (l1 ++ b :: l2) →
  wp (free_block (span (base h) l1)) (λ p h', kept h h' ∧ heap_ok h' (coalesce l1 b l2) ∧
    ∃ l1' b' l2', p = span (base h) l1' ∧ coalesce l1 b l2 = l1' ++ b' :: l2' ∧ (length l2' ≤ length l2)%nat ∧
      span (base h) l1 ≤ span (base h) l1' + bsize b') h.
Proof.
  intros Hok. pose proof Hok as [Hb0 Hlim Hsm Hroom Hhead Hspan Hseg]. rewrite span_app in Hspan. cbn [span] in Hspan.
  destruct (seg_middle _ _ _ _ _ _ _ Hseg) as [Hn Hd]. set (p := span (base h) l1) in *.
  pose proof (span_ge (base h) l1). pose proof (bsize_nonneg b). pose proof (span_ge (p + NODE + bsize b) l2).
  unfold free_block. wp_step. eapply wp_set_free; [exact Hn|]. intros h1 C1 N1. fields_in N1. change_facts C1. wp_step.
  eapply wp_get_allocated; [exact N1|]. wp_step. eapply wp_get_size; [exact N1|]. cbn [n_alloc n_size]. wp_step.
  apply wp_memset; [nlia..|]. intros h2 C2 D2. change_facts C2. wp_step.
  assert (Hok2 : heap_ok h2 (l1 ++ freed b :: l2)).
  { apply (heap_ok_replace h h2 l1 b); [done|apply freed_size|congruence|fold p; agrees|fold p; agrees| |].
    - eapply node_in_agree; [|exact N1]. fold p. agrees.
    - fold p. cbn [bdata freed]. replace (length (bdata b)) with (Z.to_nat (bsize b)) by (unfold bsize; lia). done. }
  replace p with (span (base h2) l1) by (unfold p; congruence).
  eapply wp_mono; [apply (wp_merge_left h2 l1 (freed b) l2 Hok2 eq_refl)|].
  intros q h3 (K3 & -> & F3 & Hok3). cbv beta. destruct K3 as (K1 & K2 & K3 & K4). wp_step. rewrite <-K1.
  eapply wp_mono; [by apply wp_merge_right|]. intros [] h4 ((K5 & K6 & K7 & K8) & Hok4). cbv beta. wp_step.
  unfold coalesce. destruct (join_left l1 (freed b)) as [l1' b1] eqn:Ejl. cbn [fst snd] in *.
  destruct (join_right b1 l2) as [b2 l2'] eqn:Er. cbn [fst snd] in *. split; [repeat split; congruence|]. split; [done|].
  exists l1', b2, l2'. split; [congruence|]. split; [done|].
  pose proof (join_left_span (base h) l1 (freed b)) as Hjl. rewrite Ejl, freed_size in Hjl. cbn [fst snd] in Hjl. fold p in Hjl.
  pose proof (join_right_grows b1 l2) as Hjr. rewrite Er in Hjr. cbn [fst snd] in Hjr.
  split; [lia|]. replace (base h3) with (base h) by congruence. fold p. lia.
Qed.

Lemma wp_free_loop_none h bs ptr prev p fuel (Q : unit → heap → Prop) : 0 < p →
  seg h prev p bs NULL → ptr < p + NODE → (length bs < fuel)%nat → Q tt h →
  wp (free_loop fuel (next_block p bs NULL) ptr) Q h.
Proof.
  revert prev p fuel. induction bs as [|b bs IH]; intros prev p fuel Hp Hs Hptr Hf HQ;
    (destruct fuel as [|fuel]; [cbn in Hf; lia|]); cbn [free_loop next_block].
  - by apply wp_ret.
  - rewrite (proj2 (Z.eqb_neq p NULL)) by lia. destruct Hs as (Hn & _ & Hs). cbn in Hf. pose proof (bsize_nonneg b).
    wp_step. eapply wp_get_allocated; [exact Hn|]. cbn [n_alloc]. rewrite (proj2 (Z.eqb_neq (p + NODE) ptr)) by lia.
    do 2 wp_step. wp_step. eapply wp_read_next; [exact Hn|]. cbn [n_next].
    eapply (IH p); [nlia|done|nlia|lia|done].
Qed.

Lemma wp_free_loop_prefix h bs1 bs2 ptr prev p k (Q : unit → heap → Prop) : 0 < p →
  seg h prev p (bs1 ++ bs2) NULL → ptr = span p bs1 + NODE →
  wp (free_loop k (next_block (span p bs1) bs2 NULL) ptr) Q h →
  wp (free_loop (length bs1 + k) (next_block p (bs1 ++ bs2) NULL) ptr) Q h.
Proof.
  intros Hp Hs Hptr H. revert prev p Hp Hs Hptr H. induction bs1 as [|b bs IH]; intros prev p Hp Hs Hptr H; [done|].
  cbn [app next_block length Nat.add free_loop span] in *. destruct Hs as (Hn & _ & Hs). pose proof (bsize_nonneg b).
  pose proof (span_ge (p + NODE + bsize b) bs). rewrite (proj2 (Z.eqb_neq p NULL)) by lia.
  wp_step. eapply wp_get_allocated; [exact Hn|]. cbn [n_alloc]. rewrite (proj2 (Z.eqb_neq (p + NODE) ptr)) by nlia.
  do 2 wp_step. wp_step. eapply wp_read_next; [exact Hn|]. cbn [n_next]. apply (IH p); [nlia|done..].
Qed.

Lemma wp_mm_free h l1 b l2 : heap_ok h (l1 ++ b :: l2) →
  wp (mm_free (span (base h) l1 + NODE)) (λ _ h', kept h h' ∧ heap_ok h' (coalesce l1 b l2)) h.
Proof.
  intros Hok. pose proof Hok as [Hb0 Hlim Hsm Hroom Hhead Hspan Hseg]. pose proof (span_ge (base h) l1) as Hge.
  unfold mm_free. rewrite (proj2 (Z.eqb_neq (span (base h) l1 + NODE) NULL)) by nlia.
  unfold list_fuel. do 4 wp_step. rewrite Hhead.
  pose proof (span_length (base h) (l1 ++ b :: l2)) as Hlen. rewrite Hspan, length_app in Hlen. cbn [length] in Hlen.
  replace (S (length (ram h))) with (length l1 + S (length (ram h) - length l1))%nat by nlia.
  apply (wp_free_loop_prefix h l1 (b :: l2) _ NULL); [done|done|done|]. cbn [next_block free_loop].
  rewrite (proj2 (Z.eqb_neq (span (base h) l1) NULL)) by lia. destruct (seg_middle _ _ _ _ _ _ _ Hseg) as [Hn _].
  wp_step. eapply wp_get_allocated; [exact Hn|]. cbn [n_alloc]. rewrite Z.eqb_refl. wp_step.
  eapply wp_mono; [by apply wp_free_block|]. intros p h1 (K & Hok1 & l1' & b' & l2' & -> & E & Hl & Hsp). cbv beta.
  pose proof K as (K1 & K2 & K3 & K4). rewrite E in Hok1. destruct (seg_middle _ _ _ _ _ _ _ (h_seg _ _ Hok1)) as [Hn1 _].
  rewrite K1 in Hn1. wp_step. eapply wp_read_next; [exact Hn1|]. cbn [n_next]. pose proof (bsize_nonneg b').
  pose proof (span_ge (base h) l1'). pose proof (proj1 (seg_app _ _ _ _ _ _) (h_seg _ _ Hok1)) as [_ (_ & _ & Hs)].
  rewrite K1 in Hs. eapply wp_free_loop_none; [|exact Hs| | |]; [nlia|nlia|nlia|]. split; [done|]. by rewrite E.
Qed.

(** ** mm_realloc *)

Lemma wp_find_allocated h bs1 b bs2 prev p k (Q : Z → heap → Prop) : 0 < p →
  seg h prev p (bs1 ++ b :: bs2) NULL → Q (span p bs1) h →
  wp (find_allocated (length bs1 + S k) (next_block p (bs1 ++ b :: bs2) NULL) (span p bs1 + NODE)) Q h.
Proof.
  revert prev p. induction bs1 as [|c bs IH]; intros prev p Hp Hs HQ;
    cbn [app next_block length Nat.add find_allocated span] in *; destruct Hs as (Hn & _ & Hs);
    rewrite (proj2 (Z.eqb_neq p NULL)) by lia; wp_step; (eapply wp_get_allocated; [exact Hn|]); cbn [n_alloc].
  - rewrite Z.eqb_refl. by wp_step.
  - pose proof (bsize_nonneg c). pose proof (span_ge (p + NODE + bsize c) bs).
    rewrite (proj2 (Z.eqb_neq (p + NODE) _)) by nlia. wp_step. eapply wp_read_next; [exact Hn|]. cbn [n_next].
    apply (IH p); [nlia|done..].
Qed.

(** The block with the old contents, cut or filled up with zeros. *)
Definition resized (b : block) (n : Z) : block :=
  mk_block false (take (Z.to_nat n) (bdata b) ++ replicate (Z.to_nat (n - bsize b)) 0).

Lemma resized_size b n : 0 ≤ n → bsize (resized b n) = n.
Proof. intros. unfold bsize, resized. cbn. rewrite length_app, length_take, length_replicate. unfold bsize. lia. Qed.

(** Copying the old contents into the fresh block. *)
Lemma copied_data h a d n : 0 ≤ n → data_in h a (replicate (Z.to_nat n) 0) → len d ≤ n →
  data_in (set_ram (put (a - base h) d (ram h)) h) a (d ++ replicate (Z.to_nat (n - len d)) 0).
Proof.
  intros Hn (H1 & H2 & H3) Hd. rewrite length_replicate in H2, H3. rewrite Z2Nat.id in H2, H3 by lia.
  split; [done|]. rewrite length_app, length_replicate. cbn [base ram set_ram]. split; [rewrite length_put; lia|].
  replace (Z.of_nat (length d + Z.to_nat (n - len d))) with n by lia.
  rewrite slice_put_inside by lia. rewrite H3. replace (a - base h - (a - base h)) with 0 by lia.
  unfold put. change (Z.to_nat 0) with 0%nat. rewrite take_0, Nat.add_0_l. cbn [app].
  replace (Z.to_nat (n - len d)) with (Z.to_nat n - length d)%nat by lia. by rewrite drop_replicate.
Qed.

Lemma wp_memcpy_copy h dst src d n (Q : unit → heap → Prop) : 0 ≤ n →
  data_in h src d → len d ≤ n → data_in h dst (replicate (Z.to_nat n) 0) →
  (∀ h', changed h h' dst n → data_in h' dst (d ++ replicate (Z.to_nat (n - len d)) 0) → Q tt h') →
  wp (memcpy dst src (len d)) Q h.
Proof.
  intros Hn (S1 & S2 & S3) Hd D HQ. unfold memcpy. pose proof D as (D1 & D2 & _). rewrite length_replicate in D2.
  destruct (Z.eqb_spec (len d) 0) as [E|E].
  - wp_step. destruct d; [|cbn in E; lia]. apply HQ; [split; [done|intros; apply agree_refl]|]. cbn [length app].
    by rewrite Z.sub_0_r.
  - wp_step. apply wp_load_bytes; [lia..|]. rewrite S3. apply wp_store_bytes; [lia..|]. apply HQ; [|by apply copied_data].
    destruct (changed_stored h dst d) as [C1 C2]; [lia..|]. split; [exact C1|]. intros lo hi H. apply C2. lia.
Qed.

(** The two ways to copy the old contents. *)
Lemma wp_copy_old h p nd dst b n : node_in h p nd → n_size nd = bsize b → 0 ≤ n →
  data_in h (n_alloc nd) (bdata b) → data_in h dst (replicate (Z.to_nat n) 0) →
  wp (if bsize b <? n
      then a ← get_allocated p; n0 ← get_size p; memcpy dst a n0
      else a ← get_allocated p; memcpy dst a n)
    (λ _ h', changed h h' dst n ∧ data_in h' dst (bdata (resized b n))) h.
Proof.
  intros Hn Hsz Hn0 Hd Hz. destruct (Z.ltb_spec (bsize b) n) as [Hlt|Hle]; wp_step; (eapply wp_get_allocated; [exact Hn|]).
  - wp_step. eapply wp_get_size; [exact Hn|]. rewrite Hsz.
    apply (wp_memcpy_copy _ _ _ (bdata b) n); [lia|done|unfold bsize in *; lia|done|]. intros h2 C D. split; [done|].
    cbn [bdata resized]. rewrite take_ge by (unfold bsize in *; lia). done.
  - assert (El : len (take (Z.to_nat n) (bdata b)) = n) by (rewrite length_take; unfold bsize in *; lia).
    rewrite <-El at 1. apply (wp_memcpy_copy _ _ _ _ n); [lia| |lia|done|].
    + destruct Hd as (X1 & X2 & X3). unfold data_in. rewrite El. split_and!; [done|unfold bsize in *; lia|].
      rewrite <-X3. unfold slice. rewrite take_take. f_equal. unfold bsize in *. lia.
    + intros h2 C D. split; [done|]. cbn [bdata resized].
      replace (Z.to_nat (n - bsize b)) with (Z.to_nat (n - len (take (Z.to_nat n) (bdata b)))) by (rewrite El; unfold bsize in *; lia).
      done.
Qed.

Lemma wp_mm_realloc h l1 b l2 n : let bs := l1 ++ b :: l2 in
  heap_ok h bs → tail_ok h bs → 0 < n → Forall (λ b, fits n b = false) bs →
  base h + len (ram h) + NODE + n ≤ limit h →
  wp (mm_realloc (span (base h) l1 + NODE) n) (λ p h', p = base h + len (ram h) + NODE ∧
    heap_ok h' (coalesce l1 b (l2 ++ [resized b n]))) h.
Proof.
  intros bs Hok Htail Hn Hnone Hroom. pose proof Hok as [Hb0 Hlim Hsm _ Hhead Hspan Hseg].
  pose proof (span_ge (base h) l1) as Hge. unfold mm_realloc. rewrite (proj2 (Z.eqb_neq n 0)) by lia.
  rewrite (proj2 (Z.eqb_neq (span (base h) l1 + NODE) NULL)) by nlia. unfold list_fuel. do 4 wp_step. wp_step.
  rewrite Hhead. destruct (fuel_split h bs Hok l1 (b :: l2) eq_refl) as [k ->].
  apply (wp_find_allocated _ _ _ _ NULL); [done|exact Hseg|]. wp_step.
  eapply wp_mono; [by apply (wp_mm_malloc h bs)|]. intros p h1 (-> & Hok1 & Htail1 & B1 & L1). cbv beta.
  set (e := base h + len (ram h)) in *. assert (He : e = base h + len (ram h)) by done.
  rewrite (proj2 (Z.eqb_neq (e + NODE) NULL)) by nlia.
  pose proof (h_seg _ _ Hok1) as Hs1. unfold bs in Hs1. rewrite <-app_assoc in Hs1. cbn [app] in Hs1.
  destruct (seg_middle _ _ _ _ _ _ _ Hs1) as [Hn1 Hd1]. rewrite B1 in Hn1, Hd1.
  destruct (seg_middle _ _ _ bs (fresh_block n) [] _ (h_seg _ _ Hok1)) as [Hnn Hdn]. rewrite B1, Hspan in Hnn, Hdn. fold e in Hnn, Hdn.
  cbn [bdata fresh_block] in Hdn. pose proof (bsize_nonneg b) as Hsb.
  wp_step. eapply wp_get_size; [exact Hn1|]. cbn [n_size]. wp_step.
  eapply wp_mono; [apply (wp_copy_old h1 _ _ (e + NODE) b n Hn1); [done|lia|exact Hd1|exact Hdn]|]. intros [] h2 [C2 D2]. cbv beta. change_facts C2.
  pose proof (h_span _ _ Hok1) as Hspan1. rewrite span_app in Hspan1. cbn [span] in Hspan1.
  rewrite B1, Hspan in Hspan1. fold e in Hspan1. rewrite fresh_size in Hspan1 by lia.
  assert (Hok2 : heap_ok h2 (bs ++ [resized b n])).
  { apply (heap_ok_replace h1 h2 bs (fresh_block n)); rewrite ?B1, ?Hspan, ?fresh_size by lia; fold e;
      [exact Hok1|apply resized_size; lia|congruence|agrees|agrees| |exact D2].
    eapply node_in_agree; [|rewrite fresh_size in Hnn by lia; exact Hnn]. agrees. }
  unfold bs in Hok2. rewrite <-app_assoc in Hok2. cbn [app] in Hok2.
  destruct (seg_middle _ _ _ _ _ _ _ (h_seg _ _ Hok2)) as [Hn2 _].
  assert (base h2 = base h) as B2 by congruence. rewrite B2 in Hn2. wp_step.
  eapply wp_get_allocated; [exact Hn2|]. cbn [n_alloc]. wp_step. rewrite <-B2.
  eapply wp_mono; [by apply wp_mm_free|]. intros [] h3 [_ Hok3]. cbv beta. wp_step. split; [done|exact Hok3].
Qed.

(** ** Properties *)

(** An error after a prefix that succeeds. *)
Lemma err_bind {A B} (m : M heap A) (k : A → M heap B) f h :
  wp m (λ x h', k x h' = Err f) h → (m ≫= k) h = Err f.
Proof. unfold wp, mbind, M_bind. destruct (m h) as [[x h']|]; done. Qed.

Lemma err_first {A B} (m : M heap A) (k : A → M heap B) f h : m h = Err f → (m ≫= k) h = Err f.
Proof. unfold mbind, M_bind. by intros ->. Qed.

(** A call on the empty heap that gets no header. *)
Lemma first_block_full h n : heap_ok h [] → 0 < n → limit h < base h + len (ram h) + NODE →
  mm_malloc n h = Ok (NULL, set_head FAILED h) ∧
  ∀ m, 0 < m < 4294967295 → mm_malloc m (set_head FAILED h) = Err BadAccess.
Proof.
  intros Hok Hn Hfull. pose proof (h_span _ _ Hok) as Hspan. cbn [span] in Hspan. pose proof (h_base _ _ Hok) as Hb. split.
  - assert (H : wp (mm_malloc n) (λ p h', p = NULL ∧ h' = set_head FAILED h) h).
    { unfold mm_malloc. rewrite (proj2 (Z.eqb_neq n 0)) by lia. do 2 wp_step. rewrite (h_head _ _ Hok). cbn [next_block Z.eqb].
      unfold first_block. wp_step. apply wp_sbrk; [nlia|nlia|]. intros _. do 2 wp_step. rewrite Z.eqb_refl. by wp_step. }
    by apply wp_Ok in H as (p & h' & -> & -> & ->).
  - pose proof (h_limit _ _ Hok) as Hl. pose proof (h_room _ _ Hok) as Hr.
    intros m Hm. unfold mm_malloc. rewrite (proj2 (Z.eqb_neq m 0)) by lia. apply err_bind. wp_step. cbn [mem_head set_head].
    change (FAILED =? NULL) with false. cbv iota. rewrite (proj2 (Z.leb_gt 4294967295 m)) by lia. apply err_bind. unfold list_fuel. wp_step. apply err_first.
    cbn [find_block]. change (FAILED =? NULL) with false. cbv iota. apply err_first. unfold get_size, load. apply err_first. unfold load_bytes. apply err_bind. wp_step.
    unfold mem_read. cbn [id ram base set_head]. rewrite (proj2 (Z.leb_gt _ (len (ram h)))) by (unfold FAILED in *; nlia). by rewrite andb_false_r.
Qed.

(** C7: [mm_malloc] on a heap without a free block that is large enough.  When
    the system has room for the header and the block, the call returns the
    address after a new header at the end of the heap; the blocks that were
    there keep their contents, and the new block has [n] zero bytes.  When it
    has no room for the header, the call returns [NULL]; it changes nothing if
    there are blocks, but on an empty heap the failed [sbrk] is kept as the head
    of the list, and every later call faults on it. *)
Theorem mm_malloc_correct h bs n :
  heap_ok h bs → tail_ok h bs → 0 < n < 4294967295 → Forall (λ b, fits n b = false) bs →
  (base h + len (ram h) + NODE + n ≤ limit h →
   ∃ h', mm_malloc n h = Ok (base h + len (ram h) + NODE, h') ∧
     heap_ok h' (bs ++ [fresh_block n]) ∧ tail_ok h' (bs ++ [fresh_block n])) ∧
  (limit h < base h + len (ram h) + NODE →
   if decide (bs = [])
   then mm_malloc n h = Ok (NULL, set_head FAILED h) ∧
     ∀ m, 0 < m < 4294967295 → mm_malloc m (set_head FAILED h) = Err BadAccess
   else mm_malloc n h = Ok (NULL, h)).
Proof.
  intros Hok Htail Hn Hnone. split.
  - intros Hroom. destruct (proj1 (wp_Ok _ _ _) (wp_mm_malloc h bs n Hok Htail ltac:(lia) Hnone Hroom))
      as (p & h' & E & -> & H1 & H2 & _). eauto.
  - intros Hfull. destruct (decide (bs = [])) as [->|Hne]; [apply first_block_full; done || lia|].
    assert (H : wp (mm_malloc n) (λ p h', p = NULL ∧ h' = h) h).
    { unfold mm_malloc. rewrite (proj2 (Z.eqb_neq n 0)) by lia. do 2 wp_step. pose proof (h_base _ _ Hok).
      destruct (Z.eqb_spec (mem_head h) NULL) as [E|_].
      { rewrite (h_head _ _ Hok) in E. destruct bs; [done|]. cbn in E. lia. }
      rewrite (proj2 (Z.leb_gt 4294967295 n)) by lia. unfold list_fuel. do 3 wp_step.
      apply (wp_find_none h bs); [done|done|]. unfold new_block. wp_step. apply wp_sbrk; [nlia|lia|]. intros _.
      rewrite Z.eqb_refl. by wp_step. }
    by apply wp_Ok in H as (p & h' & E & -> & ->).
Qed.

(** C6: [mm_free] of a block.  The block is marked free and cleared, and it is
    merged with the block before it and with the block after it when these are
    free; the merged block is cleared as a whole and takes in the headers
    between.  The other blocks keep their places and contents, and the list
    stays well formed: in particular the loop that goes on after the merge
    ends. *)
Theorem mm_free_correct h l1 b l2 : heap_ok h (l1 ++ b :: l2) →
  ∃ h', mm_free (span (base h) l1 + NODE) h = Ok (tt, h') ∧ heap_ok h' (coalesce l1 b l2) ∧ base h' = base h.
Proof.
  intros Hok. destruct (proj1 (wp_Ok _ _ _) (wp_mm_free h l1 b l2 Hok)) as ([] & h' & E & (K & _) & Hok'). eauto.
Qed.

(** [mm_realloc] to a size for which there is no free block.  It returns a
    new block at the end of the heap with the old contents, cut to the new size
    or filled up with zeros, and frees the old block. *)
Theorem mm_realloc_correct h l1 b l2 n :
  heap_ok h (l1 ++ b :: l2) → tail_ok h (l1 ++ b :: l2) → 0 < n →
  Forall (λ b, fits n b = false) (l1 ++ b :: l2) → base h + len (ram h) + NODE + n ≤ limit h →
  ∃ h', mm_realloc (span (base h) l1 + NODE) n h = Ok (base h + len (ram h) + NODE, h') ∧
    heap_ok h' (coalesce l1 b (l2 ++ [resized b n])).
Proof.
  intros H1 H2 H3 H4 H5. destruct (proj1 (wp_Ok _ _ _) (wp_mm_realloc h l1 b l2 n H1 H2 H3 H4 H5))
    as (p & h' & E & -> & Hok). eauto.
Qed.

(** A free block that is reused whole stays marked as free: [mm_malloc]
    returns its address and changes nothing, so that two calls in a row return
    the same memory. *)
Theorem mm_malloc_shares h l1 b l2 n :
  heap_ok h (l1 ++ b :: l2) → 0 < n < 4294967295 → Forall (λ b, fits n b = false) l1 →
  fits n b = true → bsize b < 1 + n + NODE →
  (p ← mm_malloc n; q ← mm_malloc n; mret (p, q)) h =
    Ok ((span (base h) l1 + NODE, span (base h) l1 + NODE), h).
Proof.
  intros Hok Hn Hnone Hfit Hsz.
  assert (H : wp (mm_malloc n) (λ p h', p = span (base h) l1 + NODE ∧ h' = h) h).
  { unfold mm_malloc. rewrite (proj2 (Z.eqb_neq n 0)) by lia. do 2 wp_step. pose proof (h_base _ _ Hok).
    destruct (Z.eqb_spec (mem_head h) NULL) as [E|_].
    { rewrite (h_head _ _ Hok) in E. destruct l1; cbn in E; lia. }
    rewrite (proj2 (Z.leb_gt 4294967295 n)) by lia. unfold list_fuel. do 3 wp_step.
    apply (wp_find_reuse h _ Hok n l1 b l2); [done..|]. by wp_step. }
  apply wp_Ok in H as (p & h' & E & -> & ->). unfold mbind, M_bind. by rewrite E, E.
Qed.

Lemma memset_outside h a v n : 0 < n → len (ram h) < a - base h + n → memset a v n h = Err BadAccess.
Proof.
  intros Hn Hl. unfold memset. rewrite (proj2 (Z.eqb_neq n 0)) by lia. unfold store_bytes. apply err_bind. wp_step.
  unfold mbind, M_bind, mem_write. cbn [id]. rewrite length_replicate.
  rewrite (proj2 (Z.leb_gt _ (len (ram h)))) by lia. by rewrite andb_false_r.
Qed.

(** Stores and loads of single words. *)
Definition word_in (h : heap) (n : nat) (a v : Z) : Prop :=
  0 ≤ a - base h ∧ a - base h + Z.of_nat n ≤ len (ram h) ∧ peek (ram h) n (a - base h) = v.

Lemma wp_store_raw h n a v (Q : unit → heap → Prop) : 0 ≤ a - base h → a - base h + Z.of_nat n ≤ len (ram h) →
  (∀ h', changed h h' a (Z.of_nat n) → word_in h' n a (v mod 2 ^ (8 * Z.of_nat n)) → Q tt h') → wp (store n a v) Q h.
Proof.
  intros H1 H2 HQ. apply wp_store_word; [done..|]. pose proof (changed_stored h a (le n v)) as Hc. rewrite length_le in Hc.
  apply HQ; [by apply Hc|]. split; [done|]. split; [cbn; rewrite length_put; rewrite ?length_le; lia|]. cbn. by apply peek_put_same.
Qed.

Lemma word_in_agree h h' n a v : agree h h' a (a + Z.of_nat n) → word_in h n a v → word_in h' n a v.
Proof.
  intros [B H] (H1 & H2 & H3). unfold word_in. rewrite B. destruct (H a (Z.of_nat n)) as [L E]; [lia..|].
  split_and!; [done..|]. unfold peek in *. by rewrite E.
Qed.

Lemma wp_load_in h n a v (Q : Z → heap → Prop) : word_in h n a v → Q v h → wp (load n a) Q h.
Proof. intros (H1 & H2 & H3) HQ. apply wp_load_n; [done..|]. by rewrite H3. Qed.

(** Splitting the last block of the heap. *)
Lemma split_last_outside h l1 b n : heap_ok h (l1 ++ [b]) → 0 < n → 1 + n + NODE ≤ bsize b →
  split_block (span (base h) l1) n h = Err BadAccess.
Proof.
  intros Hok Hn Hsz. pose proof Hok as [Hb0 Hlim Hsm Hroom Hhead Hspan Hseg]. rewrite span_app in Hspan. cbn [span] in Hspan.
  destruct (seg_middle _ _ _ _ _ [] _ Hseg) as [Hnd Hd]. set (p := span (base h) l1) in *.
  pose proof (span_ge (base h) l1) as Hge. fold p in Hge. cbn [next_block] in Hnd.
  unfold split_block. apply err_bind. eapply wp_get_size; [exact Hnd|]. cbn [n_size].
  apply err_bind. eapply wp_set_size; [exact Hnd|nlia|]. intros h1 C1 N1. fields_in N1. change_facts C1.
  apply err_bind. eapply wp_set_free; [exact N1|]. intros h2 C2 N2. fields_in N2. change_facts C2.
  apply err_bind. eapply wp_get_allocated; [exact N2|]. apply err_bind. eapply wp_get_size; [exact N2|].
  cbn [n_alloc n_size]. rewrite wrap64_small by nlia. set (q := p + NODE + n). assert (Eq : q = p + NODE + n) by done.
  apply err_bind. eapply wp_read_next; [exact N2|]. cbn [n_next negb Z.eqb when].
  apply err_bind. apply wp_store_raw; [nlia..|]. intros h3 C3 _. change_facts C3.
  apply err_bind. apply wp_store_raw; [nlia..|]. intros h4 C4 _. change_facts C4.
  apply err_bind. wp_step. apply err_bind.
  eapply wp_write_next; [eapply node_in_agree; [|exact N2]; agrees|nlia|]. intros h5 C5 N5. change_facts C5.
  apply err_bind. apply wp_store_raw; [nlia..|]. intros h6 C6 W6. change_facts C6.
  apply err_bind. apply wp_store_raw; [nlia..|]. intros h7 C7 _. change_facts C7.
  apply err_bind. apply wp_store_raw; [nlia..|]. intros h8 C8 W8. change_facts C8.
  apply err_bind. eapply wp_load_in; [exact W8|]. apply err_bind.
  eapply wp_load_in; [eapply word_in_agree; [|exact W6]; agrees|]. apply err_first.
  assert (W : (q + NODE * NODE) mod 2 ^ (8 * Z.of_nat 8) = q + NODE * NODE) by (apply Z.mod_small; nlia).
  assert (W' : (bsize b - NODE - n) mod 2 ^ (8 * Z.of_nat 4) = bsize b - NODE - n) by (apply Z.mod_small; nlia).
  rewrite W, W'. apply memset_outside; nlia.
Qed.

(** When the only block that fits is the last one and it is large enough to be
    split, the memory that [mm_malloc] clears for the rest of it starts 1024
    bytes after the new header, because [new_block + sizeof ...] counts in
    headers and not in bytes: it ends beyond the heap. *)
Theorem mm_malloc_split_outside h l1 b n :
  heap_ok h (l1 ++ [b]) → 0 < n < 4294967295 → Forall (λ b, fits n b = false) l1 →
  fits n b = true → 1 + n + NODE ≤ bsize b → mm_malloc n h = Err BadAccess.
Proof.
  intros Hok Hn Hnone Hfit Hsz. unfold mm_malloc. rewrite (proj2 (Z.eqb_neq n 0)) by lia. pose proof (h_base _ _ Hok).
  apply err_bind. wp_step. rewrite (h_head _ _ Hok). pose proof (span_ge (base h) l1).
  destruct (Z.eqb_spec (next_block (base h) (l1 ++ [b]) NULL) NULL) as [E|_]; [destruct l1; cbn in E; lia|].
  rewrite (proj2 (Z.leb_gt 4294967295 n)) by lia. apply err_bind. unfold list_fuel. wp_step. apply err_first.
  destruct (fuel_split h _ Hok l1 [b] eq_refl) as [k ->].
  assert (Herr : find_block (S k) (span (base h) l1) n h = Err BadAccess).
  { destruct (seg_middle _ _ _ _ _ [] _ (h_seg _ _ Hok)) as [Hnd _]. cbn [find_block].
    rewrite (proj2 (Z.eqb_neq (span (base h) l1) NULL)) by lia. unfold fits in Hfit.
    apply andb_true_iff in Hfit as [Hfit Hfree]. apply err_bind. eapply wp_get_size; [exact Hnd|]. cbn [n_size].
    rewrite Hfit. apply err_bind. eapply wp_get_free; [exact Hnd|]. cbn [n_free]. rewrite Hfree.
    apply err_bind. eapply wp_get_size; [exact Hnd|]. cbn [n_size].
    rewrite (proj2 (Z.leb_le (1 + n + NODE) (bsize b))) by done. apply err_first.
    apply (split_last_outside h l1 b); [done|lia|done]. }
  by rewrite (find_block_prefix h l1 [b] n NULL); [..|apply (h_seg _ _ Hok)|done|done].
Qed.

(** ** Example heaps *)

Definition empty_heap : heap := mk_heap 4096 20000 [] 0 0.
Definition heap_after {A} (m : M heap A) : heap := match m empty_heap with Ok (_, h) => h | Err _ => empty_heap end.

(** Three blocks, of which the second has been freed. *)
Definition three_blocks : heap :=
  heap_after (mm_malloc 10 ;; p ← mm_malloc 8; mm_malloc 6 ;; mm_free p).
Definition three_list : list block := [fresh_block 10; freed (fresh_block 8); fresh_block 6].

Lemma empty_heap_ok : heap_ok empty_heap [] ∧ tail_ok empty_heap [].
Proof. by repeat split. Qed.
Lemma three_blocks_ok : heap_ok three_blocks three_list ∧ tail_ok three_blocks three_list.
Proof. repeat split; by vm_compute. Qed.

Lemma three_end : base three_blocks + len (ram three_blocks) + NODE = 4248.
Proof. by vm_compute. Qed.
Lemma three_addresses :
  span (base three_blocks) [] + NODE = 4128 ∧ span (base three_blocks) [fresh_block 10] + NODE = 4170 ∧
  span (base three_blocks) [fresh_block 10; freed (fresh_block 8)] + NODE = 4210.
Proof. by vm_compute. Qed.

Lemma mm_malloc_correct_witness : ∃ h', mm_malloc 30 three_blocks = Ok (4248, h') ∧
  heap_ok h' (three_list ++ [fresh_block 30]) ∧ tail_ok h' (three_list ++ [fresh_block 30]).
Proof.
  destruct three_blocks_ok as [H1 H2]. rewrite <-three_end.
  refine (proj1 (mm_malloc_correct three_blocks three_list 30 H1 H2 _ _) _); [lia|repeat constructor|].
  rewrite three_end. by vm_compute.
Defined.

(** Freeing the third block merges it with the free one before it. *)
Lemma mm_free_correct_witness : ∃ h', mm_free 4210 three_blocks = Ok (tt, h') ∧
  heap_ok h' (coalesce [fresh_block 10; freed (fresh_block 8)] (fresh_block 6) []) ∧ base h' = base three_blocks.
Proof.
  destruct three_blocks_ok as [H1 _]. rewrite <-(proj2 (proj2 three_addresses)).
  exact (mm_free_correct three_blocks [fresh_block 10; freed (fresh_block 8)] (fresh_block 6) [] H1).
Defined.

Lemma mm_realloc_correct_witness : ∃ h', mm_realloc 4128 30 three_blocks = Ok (4248, h') ∧
  heap_ok h' (coalesce [] (fresh_block 10) ([freed (fresh_block 8); fresh_block 6] ++ [resized (fresh_block 10) 30])).
Proof.
  destruct three_blocks_ok as [H1 H2]. rewrite <-three_end, <-(proj1 three_addresses).
  refine (mm_realloc_correct three_blocks [] (fresh_block 10) [freed (fresh_block 8); fresh_block 6] 30 H1 H2 _ _ _);
    [lia|repeat constructor|rewrite three_end; by vm_compute].
Defined.

Example coalesced :
  coalesce [fresh_block 10; freed (fresh_block 8)] (fresh_block 6) [] = [fresh_block 10; mk_block true (replicate 46 0)].
Proof. done. Qed.

Lemma mm_malloc_shares_witness :
  (p ← mm_malloc 5; q ← mm_malloc 5; mret (p, q)) three_blocks = Ok ((4170, 4170), three_blocks).
Proof.
  destruct three_blocks_ok as [H1 _]. rewrite <-(proj1 (proj2 three_addresses)).
  refine (mm_malloc_shares three_blocks [fresh_block 10] (freed (fresh_block 8)) [fresh_block 6] 5 H1 _ _ _ _);
    [lia|repeat constructor|done|by vm_compute].
Defined.

(** After the last block has been merged into the one before it, [mem_tail]
    still points to its old header.  The next block is linked to that header
    only: it is not in the list, and [mm_free] does not find it. *)
Definition merged_heap : heap := heap_after (p ← mm_malloc 10; q ← mm_malloc 10; mm_free p ;; mm_free q).
Example stale_tail :
  heap_ok merged_heap [mk_block true (replicate 52 0)] ∧ ~ tail_ok merged_heap [mk_block true (replicate 52 0)] ∧
  (p ← mm_malloc 100; mm_free p ;; get_free (p - NODE)) merged_heap =
    match mm_malloc 100 merged_heap with Ok (_, h) => Ok (false, h) | Err f => Err f end.
Proof. split; [repeat split; by vm_compute|]. split; [by vm_compute|]. by vm_compute. Qed.
