(* ===== verification/KMalloc.v ===== *)
(** * The kernel's block allocator ([threads/malloc.c])

    The allocator is a client of the page allocator: it is written and proved
    against the interface [PageAllocator], and [Palloc] provides it.

    An arena header lies at the start of its page and a free block holds the
    links of the free list; here headers are in the table [arenas], indexed by
    the address of the page (a page that is in the table has the magic number),
    and free lists are lists of addresses; the list operations are the subject
    of [KernelList].  [bytes] are the contents of blocks.  The locks of the
    descriptors are left out: the calls run one at a time. *)
From S2P Require Import Prelude Bitmap Vaddr Palloc.

(** ** The interface of the page allocator *)

(** [cnt] pages from address [a] on. *)
Definition page_run (a cnt : Z) : Prop := 0 < a ∧ a mod 4096 = 0 ∧ a + cnt * 4096 ≤ 2 ^ 32.
Definition in_run (a cnt q : Z) : bool := (a / 4096 <=? q) && (q <? a / 4096 + cnt).

Class PageAllocator (PS : Type) := {
  get_pages : Z → M PS Z;
  free_pages : Z → Z → M PS unit;
  pages_ok : PS → Prop;
  page_used : PS → Z → bool;
  get_no_pages s : get_pages 0 s = Ok (NULL, s);
  wp_get_pages s cnt (Q : Z → PS → Prop) : pages_ok s → 0 < cnt → Q NULL s →
    (∀ a s', pages_ok s' → page_run a cnt → (∀ q, in_run a cnt q = true → page_used s q = false) →
       (∀ q, page_used s' q = page_used s q || in_run a cnt q) → Q a s') →
    wp (get_pages cnt) Q s;
  wp_free_pages s a cnt (Q : unit → PS → Prop) : pages_ok s → 0 < cnt → page_run a cnt →
    (∀ q, in_run a cnt q = true → page_used s q = true) →
    (∀ s', pages_ok s' → (∀ q, page_used s' q = page_used s q && negb (in_run a cnt q)) → Q tt s') →
    wp (free_pages a cnt) Q s
}.

(** ** State *)

Record desc := mk_desc { d_block_size : Z; blocks_per_arena : Z; free_list : list Z }.
Record arena := mk_arena { a_desc : option nat; free_cnt : Z }.

Definition sizeof_arena : Z := 12.

Section malloc.
Context {PS : Type} `{!PageAllocator PS}.

Record mstate := mk_mstate {
  pages : PS;
  descs : list desc;
  arenas : gmap Z arena;
  bytes : gmap Z Z
}.

Definition set_pages (x : PS) (s : mstate) : mstate := mk_mstate x (descs s) (arenas s) (bytes s).
Definition set_descs (x : list desc) (s : mstate) : mstate := mk_mstate (pages s) x (arenas s) (bytes s).
Definition set_arenas (x : gmap Z arena) (s : mstate) : mstate := mk_mstate (pages s) (descs s) x (bytes s).
Definition set_bytes (x : gmap Z Z) (s : mstate) : mstate := mk_mstate (pages s) (descs s) (arenas s) x.

Definition on_pages {A} (m : M PS A) : M mstate A := λ s,
  match m (pages s) with Ok (x, p) => Ok (x, set_pages p s) | Err f => Err f end.

Definition get_desc (i : nat) : M mstate desc := λ s,
  match descs s !! i with Some d => Ok (d, s) | None => Err BadAccess end.
Definition put_free_list (i : nat) (l : list Z) : M mstate unit :=
  d ← get_desc i;
  modify (λ s, set_descs (<[i := mk_desc (d_block_size d) (blocks_per_arena d) l]> (descs s)) s).

(** Reading [a->magic] of a page that is no arena gives another number. *)
Definition get_arena (a : Z) : M mstate arena := λ s,
  match arenas s !! a with Some x => Ok (x, s) | None => Err AssertFailed end.
Definition put_arena (a : Z) (x : arena) : M mstate unit := modify (λ s, set_arenas (<[a := x]> (arenas s)) s).
Definition drop_arena (a : Z) : M mstate unit := modify (λ s, set_arenas (delete a (arenas s)) s).

Fixpoint fill (n : nat) (a v : Z) (m : gmap Z Z) : gmap Z Z :=
  match n with O => m | S n => fill n (a + 1) v (<[a := v]> m) end.
Definition memset (a v n : Z) : M mstate unit := modify (λ s, set_bytes (fill (Z.to_nat n) a v (bytes s)) s).

Definition byte_at (m : gmap Z Z) (a : Z) : Z := default 0 (m !! a).
Fixpoint copy (n : nat) (dst src : Z) (m from : gmap Z Z) : gmap Z Z :=
  match n with O => m | S n => copy n (dst + 1) (src + 1) (<[dst := byte_at from src]> m) from end.
Definition memcpy (dst src n : Z) : M mstate unit :=
  modify (λ s, set_bytes (copy (Z.to_nat n) dst src (bytes s) (bytes s)) s).

(** [list_remove] of an element of the list. *)
Definition list_remove (i : nat) (b : Z) : M mstate unit :=
  d ← get_desc i;
  if bool_decide (b ∈ free_list d) then put_free_list i (filter (λ x, x ≠ b) (free_list d)) else throw BadAccess.

(** ** Operations *)

Fixpoint init_descs (fuel : nat) (block_size : Z) (ds : list desc) : result (list desc) :=
  match fuel with
  | O => Err OutOfFuel
  | S fuel =>
      if block_size <? PGSIZE / 2 then
        let ds := ds ++ [mk_desc block_size ((PGSIZE - sizeof_arena) / block_size) []] in
        if Z.of_nat (length ds) <=? 10 then init_descs fuel (wrap32 (block_size * 2)) ds else Err AssertFailed
      else Ok ds
  end.
Definition malloc_init : M mstate unit := λ s,
  match init_descs 32 16 (descs s) with Ok ds => Ok (tt, set_descs ds s) | Err f => Err f end.

Definition arena_to_block (a : Z) (idx : Z) : M mstate Z :=
  ASSERT (negb (a =? NULL)) ;;
  x ← get_arena a;
  match a_desc x with
  | None => throw BadAccess
  | Some i =>
      d ← get_desc i;
      ASSERT (idx <? blocks_per_arena d) ;;
      mret (wrap32 (a + sizeof_arena + idx * d_block_size d))
  end.

Definition block_to_arena (b : Z) : M mstate Z :=
  let a := pg_round_down b in
  ASSERT (negb (a =? NULL)) ;;
  x ← get_arena a;
  match a_desc x with
  | Some i => d ← get_desc i; ASSERT (wrap32 (pg_ofs b - sizeof_arena) mod d_block_size d =? 0)
  | None => ASSERT (pg_ofs b =? sizeof_arena)
  end ;;
  mret a.

(** The first descriptor from the [i]th on whose blocks are large enough. *)
Fixpoint find_desc (ds : list desc) (i : nat) (size : Z) : option nat :=
  match ds with
  | [] => None
  | d :: ds => if size <=? d_block_size d then Some i else find_desc ds (S i) size
  end.

Definition malloc_big (size : Z) : M mstate Z :=
  let page_cnt := DIV_ROUND_UP (wrap32 (size + sizeof_arena)) PGSIZE in
  a ← on_pages (get_pages page_cnt);
  if a =? NULL then mret NULL else
  put_arena a (mk_arena None page_cnt) ;;
  mret (a + sizeof_arena).

(** A new arena for descriptor [i]; false if there is no page. *)
Definition new_arena (i : nat) : M mstate bool :=
  a ← on_pages (get_pages 1);
  if a =? NULL then mret false else
  d ← get_desc i;
  put_arena a (mk_arena (Some i) (blocks_per_arena d)) ;;
  for_loop (Z.to_nat (blocks_per_arena d)) 0 (λ k,
    b ← arena_to_block a k;
    d ← get_desc i;
    put_free_list i (free_list d ++ [b])) ;;
  mret true.

Definition malloc (size : Z) : M mstate Z :=
  if size =? 0 then mret NULL else
  ds ← gets descs;
  match find_desc ds 0 size with
  | None => malloc_big size
  | Some i =>
      d ← get_desc i;
      ok ← (match free_list d with [] => new_arena i | _ => mret true end);
      if negb ok then mret NULL else
      d ← get_desc i;
      match free_list d with
      | [] => throw AssertFailed
      | b :: l =>
          put_free_list i l ;;
          a ← block_to_arena b;
          x ← get_arena a;
          put_arena a (mk_arena (a_desc x) (wrap32 (free_cnt x - 1))) ;;
          mret b
      end
  end.

Definition calloc (a b : Z) : M mstate Z :=
  let size := wrap32 (a * b) in
  if (size <? a) || (size <? b) then mret NULL else
  p ← malloc size;
  when (negb (p =? NULL)) (memset p 0 size) ;;
  mret p.

Definition block_size (block : Z) : M mstate Z :=
  a ← block_to_arena block;
  x ← get_arena a;
  match a_desc x with
  | Some i => d ← get_desc i; mret (d_block_size d)
  | None => mret (wrap32 (PGSIZE * free_cnt x - pg_ofs block))
  end.

Definition free (p : Z) : M mstate unit :=
  if p =? NULL then mret tt else
  a ← block_to_arena p;
  x ← get_arena a;
  match a_desc x with
  | Some i =>
      d ← get_desc i;
      memset p 0xcc (d_block_size d) ;;
      put_free_list i (p :: free_list d) ;;
      let cnt := wrap32 (free_cnt x + 1) in
      put_arena a (mk_arena (Some i) cnt) ;;
      if blocks_per_arena d <=? cnt then
        ASSERT (cnt =? blocks_per_arena d) ;;
        for_loop (Z.to_nat (blocks_per_arena d)) 0 (λ k, b ← arena_to_block a k; list_remove i b) ;;
        on_pages (free_pages a 1) ;;
        drop_arena a
      else mret tt
  | None =>
      on_pages (free_pages a (free_cnt x)) ;;
      drop_arena a
  end.

Definition realloc (old_block new_size : Z) : M mstate Z :=
  if new_size =? 0 then free old_block ;; mret NULL else
  new_block ← malloc new_size;
  when (negb (old_block =? NULL) && negb (new_block =? NULL))
    (old_size ← block_size old_block;
     memcpy new_block old_block (if new_size <? old_size then new_size else old_size) ;;
     free old_block) ;;
  mret new_block.

(** ** The invariant *)

(** Block [k] of the arena at [a], and the pages of an arena. *)
Definition blk (a : Z) (d : desc) (k : Z) : Z := a + sizeof_arena + k * d_block_size d.
Definition arena_pages (x : arena) : Z := match a_desc x with Some _ => 1 | None => free_cnt x end.
Definition in_arena (a b : Z) : Prop := b - b mod 4096 = a.
#[global] Instance in_arena_dec a b : Decision (in_arena a b).
Proof. unfold in_arena. apply _. Defined.

(** Descriptor [i] manages blocks of [2 ^ (4 + i)] bytes. *)
Definition desc_ok (i : nat) (d : desc) : Prop :=
  d_block_size d = 2 ^ (4 + Z.of_nat i) ∧ blocks_per_arena d = 4084 / d_block_size d.

(** Only the arenas in [full] may have no block in use. *)
Record malloc_inv (full : Z → Prop) (s : mstate) : Prop := {
  mo_pages : pages_ok (pages s);
  mo_descs : length (descs s) = 7%nat ∧ ∀ i d, descs s !! i = Some d → desc_ok i d;
  mo_arena a x : arenas s !! a = Some x → 0 < arena_pages x ∧ page_run a (arena_pages x) ∧
    ∀ q, in_run a (arena_pages x) q = true → page_used (pages s) q = true;
  mo_disjoint a x a' x' q : arenas s !! a = Some x → arenas s !! a' = Some x' →
    in_run a (arena_pages x) q = true → in_run a' (arena_pages x') q = true → a = a';
  mo_small a x i : arenas s !! a = Some x → a_desc x = Some i → ∃ d, descs s !! i = Some d ∧
    free_cnt x = Z.of_nat (length (filter (in_arena a) (free_list d))) ∧
    free_cnt x ≤ blocks_per_arena d ∧ (free_cnt x = blocks_per_arena d → full a);
  mo_free i d : descs s !! i = Some d → NoDup (free_list d) ∧ ∀ b, b ∈ free_list d →
    ∃ a x k, arenas s !! a = Some x ∧ a_desc x = Some i ∧ 0 ≤ k < blocks_per_arena d ∧ b = blk a d k
}.
Definition malloc_ok : mstate → Prop := malloc_inv (λ _, False).

(** The blocks, with the number of bytes they have; the free ones; those in use. *)
Definition block_in (s : mstate) (a : Z) (x : arena) (b n : Z) : Prop :=
  match a_desc x with
  | Some i => ∃ d k, descs s !! i = Some d ∧ 0 ≤ k < blocks_per_arena d ∧ b = blk a d k ∧ n = d_block_size d
  | None => b = a + sizeof_arena ∧ n = PGSIZE * free_cnt x - sizeof_arena
  end.
Definition is_block (s : mstate) (b n : Z) : Prop := ∃ a x, arenas s !! a = Some x ∧ block_in s a x b n.
Definition is_free (s : mstate) (b : Z) : Prop := ∃ i d, descs s !! i = Some d ∧ b ∈ free_list d.
Definition live_block (s : mstate) (b n : Z) : Prop := is_block s b n ∧ ¬ is_free s b.

(** ** Geometry *)

Lemma desc_geometry i d : (i < 7)%nat → desc_ok i d →
  16 ≤ d_block_size d ≤ 1024 ∧ 3 ≤ blocks_per_arena d ≤ 255 ∧ 12 + blocks_per_arena d * d_block_size d ≤ 4096.
Proof.
  intros Hi [Hs Hb]. rewrite Hb, Hs. do 7 (destruct i as [|i]; [by vm_compute; repeat split|]). lia.
Qed.

Lemma blk_in_arena a d k i : (i < 7)%nat → desc_ok i d → a mod 4096 = 0 → 0 ≤ k < blocks_per_arena d →
  in_arena a (blk a d k) ∧ (blk a d k) mod 4096 = 12 + k * d_block_size d.
Proof.
  intros Hi Hd Ha Hk. pose proof (desc_geometry i d Hi Hd) as (H1 & H2 & H3). unfold in_arena, blk, sizeof_arena.
  assert (E : (a + 12 + k * d_block_size d) mod 4096 = 12 + k * d_block_size d).
  { rewrite <-Z.add_assoc, Z.add_mod, Ha by lia. rewrite Z.add_0_l, Z.mod_mod by lia. apply Z.mod_small. nia. }
  rewrite E. lia.
Qed.

Lemma blk_inj a d k k' i : (i < 7)%nat → desc_ok i d → blk a d k = blk a d k' → k = k'.
Proof.
  intros Hi Hd E. pose proof (desc_geometry i d Hi Hd) as (H1 & _ & _). unfold blk in E.
  apply (Z.mul_reg_r _ _ (d_block_size d)); lia.
Qed.

(** The blocks of an arena. *)
Definition blocks (a : Z) (d : desc) : list Z := blk a d <$> seqZ 0 (blocks_per_arena d).

Lemma elem_of_blocks a d b : b ∈ blocks a d ↔ ∃ k, 0 ≤ k < blocks_per_arena d ∧ b = blk a d k.
Proof. unfold blocks. rewrite list_elem_of_fmap. setoid_rewrite elem_of_seqZ. naive_solver lia. Qed.

Lemma NoDup_blocks a d i : (i < 7)%nat → desc_ok i d → NoDup (blocks a d).
Proof.
  intros Hi Hd. apply NoDup_fmap_2_strong; [|apply NoDup_seqZ]. intros k k' _ _. by apply (blk_inj a d k k' i).
Qed.

Lemma length_blocks a d : length (blocks a d) = Z.to_nat (blocks_per_arena d).
Proof. unfold blocks. by rewrite length_fmap, length_seqZ. Qed.

(** ** Primitives *)

Lemma wp_on_pages {A} (m : M PS A) Q s :
  wp m (λ x p, Q x (set_pages p s)) (pages s) → wp (on_pages m) Q s.
Proof. unfold wp, on_pages. by destruct (m (pages s)) as [[x p]|]. Qed.

Lemma wp_get_desc i d Q s : descs s !! i = Some d → Q d s → wp (get_desc i) Q s.
Proof. unfold wp, get_desc. by intros -> HQ. Qed.

Lemma wp_get_arena a x Q s : arenas s !! a = Some x → Q x s → wp (get_arena a) Q s.
Proof. unfold wp, get_arena. by intros -> HQ. Qed.

Definition with_list (d : desc) (l : list Z) : desc := mk_desc (d_block_size d) (blocks_per_arena d) l.

Lemma wp_put_free_list i d l Q s : descs s !! i = Some d →
  Q tt (set_descs (<[i := with_list d l]> (descs s)) s) → wp (put_free_list i l) Q s.
Proof. intros Hd HQ. unfold put_free_list. wp_step. apply (wp_get_desc i d); [done|]. by wp_step. Qed.

Lemma wp_arena_to_block s a x i d k (Q : Z → mstate → Prop) : arenas s !! a = Some x → a_desc x = Some i →
  descs s !! i = Some d → (i < 7)%nat → desc_ok i d → 0 < a → a mod 4096 = 0 → a + 4096 ≤ 2 ^ 32 →
  0 ≤ k < blocks_per_arena d → Q (blk a d k) s → wp (arena_to_block a k) Q s.
Proof.
  intros Ha Hx Hd Hi Hdo H1 H2 H3 Hk HQ. pose proof (desc_geometry i d Hi Hdo) as (G1 & G2 & G3).
  unfold arena_to_block. repeat wp_step. { by rewrite (proj2 (Z.eqb_neq a 0)) by lia. }
  apply (wp_get_arena a x); [done|]. rewrite Hx. wp_step. apply (wp_get_desc i d); [done|].
  repeat wp_step; [lia|]. fold (blk a d k). rewrite wrap32_small; [done|]. unfold blk, sizeof_arena. nia.
Qed.

Lemma wp_block_to_arena_small s a x i d k (Q : Z → mstate → Prop) : arenas s !! a = Some x → a_desc x = Some i →
  descs s !! i = Some d → (i < 7)%nat → desc_ok i d → 0 < a → a mod 4096 = 0 → a + 4096 ≤ 2 ^ 32 →
  0 ≤ k < blocks_per_arena d → Q a s → wp (block_to_arena (blk a d k)) Q s.
Proof.
  intros Ha Hx Hd Hi Hdo H1 H2 H3 Hk HQ. destruct (blk_in_arena a d k i Hi Hdo H2 Hk) as [E1 E2].
  pose proof (desc_geometry i d Hi Hdo) as (G1 & G2 & G3). unfold in_arena in E1.
  assert (Hr : pg_round_down (blk a d k) = a) by (rewrite pg_round_down_eq; [done|unfold blk, sizeof_arena; nia]).
  unfold block_to_arena. rewrite Hr. repeat wp_step. { by rewrite (proj2 (Z.eqb_neq a 0)) by lia. }
  apply (wp_get_arena a x); [done|]. rewrite Hx. wp_step. wp_step. apply (wp_get_desc i d); [done|]. wp_step.
  - rewrite pg_ofs_mod, E2. apply Z.eqb_eq. unfold sizeof_arena.
    replace (12 + k * d_block_size d - 12) with (k * d_block_size d) by lia.
    rewrite wrap32_small by nia. apply Z_mod_mult.
  - by wp_step.
Qed.

Section state.
Context (F : Z → Prop) (s : mstate) (Hok : malloc_inv F s).

Lemma inv_desc i d : descs s !! i = Some d → (i < 7)%nat ∧ desc_ok i d.
Proof.
  intros Hd. destruct (mo_descs _ _ Hok) as [Hl Hdesc]. split; [|by apply Hdesc].
  apply lookup_lt_Some in Hd. lia.
Qed.

Lemma inv_page a x : arenas s !! a = Some x → 0 < a ∧ a mod 4096 = 0 ∧ a + 4096 ≤ 2 ^ 32.
Proof. intros Ha. destruct (mo_arena _ _ Hok a x Ha) as (H1 & (H2 & H3 & H4) & _). lia. Qed.

Lemma blk_facts a x i d k : arenas s !! a = Some x → descs s !! i = Some d → 0 ≤ k < blocks_per_arena d →
  pg_round_down (blk a d k) = a ∧ pg_ofs (blk a d k) = sizeof_arena + k * d_block_size d ∧
  0 < blk a d k < 2 ^ 32 ∧ in_arena a (blk a d k) ∧ a + sizeof_arena ≤ blk a d k ∧
  blk a d k + d_block_size d ≤ a + 4096.
Proof.
  intros Ha Hd Hk. destruct (inv_desc i d Hd) as [Hi Hdo]. destruct (inv_page a x Ha) as (H1 & H2 & H3).
  destruct (blk_in_arena a d k i Hi Hdo H2 Hk) as [E1 E2]. pose proof (desc_geometry i d Hi Hdo) as (G1 & G2 & G3).
  assert (Hb : a + 12 ≤ blk a d k ∧ blk a d k + d_block_size d ≤ a + 4096) by (unfold blk, sizeof_arena; nia).
  rewrite pg_round_down_eq, pg_ofs_mod, E2 by lia. unfold in_arena in *. unfold sizeof_arena. lia.
Qed.

Lemma wp_block_to_arena_big a x (Q : Z → mstate → Prop) : arenas s !! a = Some x → a_desc x = None →
  Q a s → wp (block_to_arena (a + sizeof_arena)) Q s.
Proof.
  intros Ha Hx HQ. destruct (inv_page a x Ha) as (H1 & H2 & H3). unfold sizeof_arena.
  assert (E : (a + 12) mod 4096 = 12) by (rewrite Z.add_mod, H2 by lia; done).
  assert (E1 : pg_round_down (a + 12) = a) by (rewrite pg_round_down_eq; lia).
  unfold block_to_arena. rewrite E1. repeat wp_step. { by rewrite (proj2 (Z.eqb_neq a 0)) by lia. }
  apply (wp_get_arena a x); [done|]. rewrite Hx. repeat wp_step; [|done]. rewrite pg_ofs_mod, E. done.
Qed.

(** Every free block is a block of its own arena. *)
Lemma free_block_arena i d b : descs s !! i = Some d → b ∈ free_list d →
  ∃ x k, arenas s !! (b - b mod 4096) = Some x ∧ a_desc x = Some i ∧ 0 ≤ k < blocks_per_arena d ∧
    b = blk (b - b mod 4096) d k.
Proof.
  intros Hd Hb. destruct (mo_free _ _ Hok i d Hd) as [_ H]. destruct (H b Hb) as (a & x & k & Ha & Hx & Hk & E).
  destruct (blk_facts a x i d k Ha Hd Hk) as (_ & _ & _ & Hin & _). unfold in_arena in Hin. rewrite <-E in Hin.
  exists x, k. by rewrite Hin.
Qed.

Lemma block_range a x b n : arenas s !! a = Some x → block_in s a x b n →
  in_arena a b ∧ a + sizeof_arena ≤ b ∧ b + n ≤ a + 4096 * arena_pages x ∧ 0 < n ∧ 0 < b < 2 ^ 32.
Proof.
  unfold block_in, arena_pages. intros Ha H. destruct (mo_arena _ _ Hok a x Ha) as (P & (P1 & P2 & P3) & _).
  unfold arena_pages in *. destruct (a_desc x) as [i|] eqn:Hx.
  - destruct H as (d & k & Hd & Hk & -> & ->). destruct (blk_facts a x i d k Ha Hd Hk) as (_ & _ & ? & ? & ? & ?).
    destruct (inv_desc i d Hd) as [Hi Hdo]. pose proof (desc_geometry i d Hi Hdo). repeat split; (done || lia).
  - destruct H as [-> ->]. change PGSIZE with 4096. unfold in_arena, sizeof_arena.
    assert (E : (a + 12) mod 4096 = 12) by (rewrite Z.add_mod, P2 by lia; done). lia.
Qed.

(** Arenas do not overlap. *)
Lemma arena_disjoint a x a' x' : arenas s !! a = Some x → arenas s !! a' = Some x' → a < a' →
  a + 4096 * arena_pages x ≤ a'.
Proof.
  intros Ha Ha' Hlt. destruct (mo_arena _ _ Hok a x Ha) as (P1 & (Q1 & R1 & _) & _).
  destruct (mo_arena _ _ Hok a' x' Ha') as (P2 & (Q2 & R2 & _) & _).
  destruct (decide (a + 4096 * arena_pages x ≤ a')) as [|Hov]; [done|]. exfalso.
  enough (a = a') by lia.
  apply (mo_disjoint _ _ Hok a x a' x' (a' / 4096) Ha Ha'); unfold in_run; apply andb_true_iff; split; div_lia.
Qed.

(** Distinct blocks do not overlap. *)
Lemma block_disjoint b n b' n' : is_block s b n → is_block s b' n' → b ≠ b' → b + n ≤ b' ∨ b' + n' ≤ b.
Proof.
  intros (a & x & Ha & H1) (a' & x' & Ha' & H2) Hne.
  destruct (block_range a x b n Ha H1) as (_ & L1 & U1 & _). destruct (block_range a' x' b' n' Ha' H2) as (_ & L2 & U2 & _).
  unfold sizeof_arena in *. destruct (Z.lt_trichotomy a a') as [Hlt|[<-|Hlt]].
  - pose proof (arena_disjoint a x a' x' Ha Ha' Hlt). lia.
  - assert (x' = x) as -> by congruence. unfold block_in in *. destruct (a_desc x) as [i|]; [|naive_solver].
    destruct H1 as (d & k & Hd & _ & -> & ->), H2 as (d' & k' & Hd' & _ & -> & ->). assert (d' = d) as -> by congruence.
    destruct (inv_desc i d Hd) as [Hi Hdo]. pose proof (desc_geometry i d Hi Hdo) as (G1 & _ & _).
    unfold blk in *. assert (k < k' ∨ k' < k) as [] by (destruct (Z.lt_total k k') as [|[->|]]; [by left|done|by right]); nia.
  - pose proof (arena_disjoint a' x' a x Ha' Ha Hlt). lia.
Qed.

Lemma block_size_unique b n n' : is_block s b n → is_block s b n' → n = n'.
Proof.
  intros (a & x & Ha & H1) (a' & x' & Ha' & H2). destruct (block_range a x b n Ha H1) as (E1 & _).
  destruct (block_range a' x' b n' Ha' H2) as (E2 & _). unfold in_arena in *.
  assert (a' = a) as -> by congruence. assert (x' = x) as -> by congruence. unfold block_in in *.
  destruct (a_desc x); naive_solver.
Qed.
End state.

(** ** The free list of one descriptor *)

(** Descriptor [i] gets the free list [l] and the arena at [a] the count [c]. *)
Definition relist (i : nat) (d : desc) (l : list Z) (a c : Z) (s : mstate) : mstate :=
  mk_mstate (pages s) (<[i := with_list d l]> (descs s)) (<[a := mk_arena (Some i) c]> (arenas s)) (bytes s).

Lemma lookup_with_list (ds : list desc) (i : nat) d l (j : nat) d' : ds !! i = Some d → <[i := with_list d l]> ds !! j = Some d' →
  ∃ d0, ds !! j = Some d0 ∧ d' = with_list d0 (if decide (j = i) then l else free_list d0).
Proof.
  intros Hd. rewrite list_lookup_insert_Some. intros [(-> & <- & _)|[Hne Hd']].
  - exists d. by rewrite decide_True.
  - exists d'. rewrite decide_False by congruence. by destruct d'.
Qed.

Lemma lookup_with_list_2 (ds : list desc) (i : nat) d l (j : nat) d0 : ds !! i = Some d → ds !! j = Some d0 →
  <[i := with_list d l]> ds !! j = Some (with_list d0 (if decide (j = i) then l else free_list d0)).
Proof.
  intros Hd Hj. destruct (decide (j = i)) as [->|Hne].
  - assert (d0 = d) as -> by congruence. apply list_lookup_insert_eq. by eapply lookup_lt_Some.
  - rewrite list_lookup_insert_ne by done. rewrite Hj. by destruct d0.
Qed.

Lemma descs_with_list (ds : list desc) (i : nat) d l : ds !! i = Some d →
  length ds = 7%nat ∧ (∀ j d, ds !! j = Some d → desc_ok j d) →
  length (<[i := with_list d l]> ds) = 7%nat ∧ (∀ j d', <[i := with_list d l]> ds !! j = Some d' → desc_ok j d').
Proof.
  intros Hd [Hlen Hds]. split; [by rewrite length_insert|]. intros j d' Hj.
  destruct (lookup_with_list _ _ _ _ _ _ Hd Hj) as (d0 & H0 & ->). exact (Hds j d0 H0).
Qed.

Section relist.
Context (F : Z → Prop) (s : mstate) (Hok : malloc_inv F s).
Context (i : nat) (d : desc) (a : Z) (x : arena).
Context (Hd : descs s !! i = Some d) (Ha : arenas s !! a = Some x) (Hx : a_desc x = Some i).

Lemma relist_arena l c a' x' : arenas (relist i d l a c s) !! a' = Some x' →
  ∃ x0, arenas s !! a' = Some x0 ∧ a_desc x' = a_desc x0 ∧ (a' = a → x' = mk_arena (Some i) c) ∧
    (a' ≠ a → x' = x0) ∧ arena_pages x' = arena_pages x0.
Proof.
  cbn [relist arenas]. rewrite lookup_insert_Some. intros [[<- <-]|[Hne H]].
  - exists x. unfold arena_pages. by rewrite Hx.
  - exists x'. naive_solver.
Qed.

Lemma relist_block l c b n : is_block (relist i d l a c s) b n ↔ is_block s b n.
Proof.
  split.
  - intros (a' & x' & Ha' & H). destruct (relist_arena _ _ _ _ Ha') as (x0 & H0 & E1 & E2 & E3 & _). exists a', x0.
    split; [done|]. unfold block_in in *. rewrite <-E1. destruct (a_desc x') as [j|] eqn:Hj.
    + destruct H as (d' & k & Hd' & H). destruct (lookup_with_list _ _ _ _ _ _ Hd Hd') as (d0 & Hd0 & ->). by exists d0, k.
    + destruct (decide (a' = a)) as [->|Hne]; [by rewrite E2 in Hj by done|]. by rewrite <-E3.
  - intros (a' & x' & Ha' & H). destruct (decide (a' = a)) as [->|Hne].
    + exists a, (mk_arena (Some i) c). cbn [relist arenas]. split; [apply lookup_insert_eq|].
      assert (x' = x) as -> by congruence. unfold block_in in *. rewrite Hx in H. cbn [a_desc relist descs].
      destruct H as (d' & k & Hd' & H). assert (d' = d) as -> by congruence. exists (with_list d l), k.
      split; [|done]. apply list_lookup_insert_eq. by eapply lookup_lt_Some.
    + exists a', x'. cbn [relist arenas]. split; [by rewrite lookup_insert_ne|]. unfold block_in in *.
      destruct (a_desc x') as [j|]; [|done]. destruct H as (d' & k & Hd' & H). cbn [relist descs].
      eexists _, k. split; [by apply lookup_with_list_2|done].
Qed.

Lemma relist_free l c b : is_free (relist i d l a c s) b ↔
  b ∈ l ∨ ∃ j d', j ≠ i ∧ descs s !! j = Some d' ∧ b ∈ free_list d'.
Proof.
  split.
  - intros (j & d' & Hd' & Hb). destruct (lookup_with_list _ _ _ _ _ _ Hd Hd') as (d0 & Hd0 & ->). cbn [with_list free_list] in Hb.
    destruct (decide (j = i)); [by left|]. right. by exists j, d0.
  - intros [Hb|(j & d' & Hne & Hd' & Hb)].
    + eexists i, _. split; [by apply lookup_with_list_2|]. cbn [with_list free_list]. by rewrite decide_True.
    + eexists j, _. split; [by apply lookup_with_list_2|]. cbn [with_list free_list]. by rewrite decide_False.
Qed.

Lemma relist_inv F' l : NoDup l →
  (∀ b, b ∈ l → b ∈ free_list d ∨ ∃ k, 0 ≤ k < blocks_per_arena d ∧ b = blk a d k) →
  (∀ a', a' ≠ a → filter (in_arena a') l = filter (in_arena a') (free_list d)) →
  let c := Z.of_nat (length (filter (in_arena a) l)) in
  c ≤ blocks_per_arena d → (c = blocks_per_arena d → F' a) → (∀ a', a' ≠ a → F a' → F' a') →
  malloc_inv F' (relist i d l a c s).
Proof.
  intros Hnd Hin Hother c Hc HF HF'. split.
  - apply (mo_pages _ _ Hok).
  - apply (descs_with_list _ _ _ _ Hd (mo_descs _ _ Hok)).
  - intros a' x' Ha'. destruct (relist_arena _ _ _ _ Ha') as (x0 & H0 & _ & _ & _ & ->). apply (mo_arena _ _ Hok a' x0 H0).
  - intros a1 x1 a2 x2 q H1 H2. destruct (relist_arena _ _ _ _ H1) as (y1 & E1 & _ & _ & _ & ->).
    destruct (relist_arena _ _ _ _ H2) as (y2 & E2 & _ & _ & _ & ->). by apply (mo_disjoint _ _ Hok a1 y1 a2 y2).
  - intros a' x' j Ha' Hj. destruct (relist_arena _ _ _ _ Ha') as (x0 & H0 & E1 & E2 & E3 & _). rewrite Hj in E1.
    destruct (decide (a' = a)) as [->|Hne].
    + rewrite E2 in Hj |- * by done. cbn in Hj. injection Hj as <-. eexists. split; [by apply lookup_with_list_2|].
      rewrite decide_True by done. done.
    + rewrite E3 by done. destruct (mo_small _ _ Hok a' x0 j H0 (eq_sym E1)) as (d0 & Hd0 & Hcnt & Hle & Hfull).
      eexists. split; [by apply lookup_with_list_2|]. cbn [with_list free_list blocks_per_arena]. split; [|by auto].
      rewrite Hcnt. destruct (decide (j = i)) as [->|]; [|done]. assert (d0 = d) as -> by congruence. by rewrite Hother.
  - intros j d' Hj. destruct (lookup_with_list _ _ _ _ _ _ Hd Hj) as (d0 & Hd0 & ->). cbn [with_list free_list].
    destruct (mo_free _ _ Hok j d0 Hd0) as [Hnd0 Hin0].
    assert (Hold : ∀ b, b ∈ free_list d0 → ∃ a1 x1 k, arenas (relist i d l a c s) !! a1 = Some x1 ∧
      a_desc x1 = Some j ∧ 0 ≤ k < blocks_per_arena d0 ∧ b = blk a1 d0 k).
    { intros b Hb. destruct (Hin0 b Hb) as (a1 & x1 & k & Ha1 & Hx1 & Hk & ->). cbn [relist arenas].
      destruct (decide (a1 = a)) as [->|Hne].
      - exists a, (mk_arena (Some i) c), k. rewrite lookup_insert_eq. split; [done|]. assert (x1 = x) as -> by congruence.
        split; [cbn; congruence|done].
      - exists a1, x1, k. by rewrite lookup_insert_ne. }
    destruct (decide (j = i)) as [->|]; [|by split]. assert (d0 = d) as -> by congruence. split; [done|].
    intros b Hb. destruct (Hin b Hb) as [Hb'|(k & Hk & ->)]; [by apply Hold|].
    exists a, (mk_arena (Some i) c), k. cbn [relist arenas]. by rewrite lookup_insert_eq.
Qed.
End relist.

(** Taking the first free block. *)
Lemma pop_ok F s i d b l : malloc_inv F s → descs s !! i = Some d → free_list d = b :: l →
  (∀ a, F a → in_arena a b) →
  ∃ a x k, arenas s !! a = Some x ∧ a_desc x = Some i ∧ 0 ≤ k < blocks_per_arena d ∧ b = blk a d k ∧
    0 ≤ free_cnt x - 1 < 2 ^ 32 ∧ malloc_ok (relist i d l a (free_cnt x - 1) s) ∧
    ∀ b' n, live_block (relist i d l a (free_cnt x - 1) s) b' n ↔ live_block s b' n ∨ b' = b ∧ n = d_block_size d.
Proof.
  intros Hok Hd Hl HF. destruct (free_block_arena F s Hok i d b Hd) as (x & k & Ha & Hx & Hk & Hb). { rewrite Hl. left. }
  set (a := b - b mod 4096) in *. exists a, x, k. do 4 (split; [done|]).
  destruct (mo_small _ _ Hok a x i Ha Hx) as (d' & Hd' & Hcnt & Hle & _). assert (d' = d) as -> by congruence.
  destruct (inv_desc F s Hok i d Hd) as [Hi Hdo]. pose proof (desc_geometry i d Hi Hdo) as (G1 & G2 & G3).
  assert (Hina : in_arena a b) by done. rewrite Hl, filter_cons_True in Hcnt by done. cbn [length] in Hcnt.
  destruct (mo_free _ _ Hok i d Hd) as [Hnd Hin]. rewrite Hl in Hnd. apply NoDup_cons in Hnd as [Hnb Hnd].
  assert (Ec : free_cnt x - 1 = Z.of_nat (length (filter (in_arena a) l))) by lia.
  split; [lia|]. split.
  - rewrite Ec. apply (relist_inv F s Hok i d a x Hd Ha Hx); [done| | |lia|lia|].
    + intros b' Hb'. left. rewrite Hl. by right.
    + intros a' Hne. rewrite Hl. rewrite filter_cons_False; [done|]. unfold in_arena. fold a. congruence.
    + intros a' Hne HFa. apply HF in HFa. unfold in_arena in HFa. by rewrite <-HFa in Hne.
  - intros b' n. unfold live_block. rewrite (relist_block s i d a x Hd Ha Hx), (relist_free s i d a Hd).
    assert (Hother : ¬ ∃ j d', j ≠ i ∧ descs s !! j = Some d' ∧ b ∈ free_list d').
    { intros (j & d' & Hne & Hd1 & Hb1). destruct (free_block_arena F s Hok j d' b Hd1 Hb1) as (x' & _ & Ha' & Hx' & _).
      fold a in Ha'. congruence. }
    assert (Hfree : is_free s b' ↔ b' = b ∨ b' ∈ l ∨ ∃ j d', j ≠ i ∧ descs s !! j = Some d' ∧ b' ∈ free_list d').
    { split.
      - intros (j & d' & Hd1 & Hb1). destruct (decide (j = i)) as [->|]; [|naive_solver].
        assert (d' = d) as -> by congruence. rewrite Hl in Hb1. apply elem_of_cons in Hb1. naive_solver.
      - intros [->|[Hb1|(j & d' & _ & Hd1 & Hb1)]]; [exists i, d|exists i, d|by exists j, d'].
        + split; [done|]. rewrite Hl. left.
        + split; [done|]. rewrite Hl. by right. }
    assert (Hbs : is_block s b (d_block_size d)). { exists a, x. split; [done|]. unfold block_in. rewrite Hx. by exists d, k. }
    rewrite Hfree. destruct (decide (b' = b)) as [->|Hne].
    + split; [|naive_solver]. intros [H _]. right. split; [done|]. by apply (block_size_unique F s Hok b).
    + naive_solver.
Qed.

(** Giving a block back. *)
Lemma push_ok s i d a x k : malloc_ok s → arenas s !! a = Some x → a_desc x = Some i → descs s !! i = Some d →
  0 ≤ k < blocks_per_arena d → blk a d k ∉ free_list d →
  let b := blk a d k in let s' := relist i d (b :: free_list d) a (free_cnt x + 1) s in
  malloc_inv (λ a', a' = a) s' ∧ 0 ≤ free_cnt x + 1 ≤ blocks_per_arena d ∧ (free_cnt x + 1 < blocks_per_arena d → malloc_ok s') ∧
  ∀ b' n, live_block s' b' n ↔ live_block s b' n ∧ b' ≠ b.
Proof.
  intros Hok Ha Hx Hd Hk Hnb b s'. destruct (mo_small _ _ Hok a x i Ha Hx) as (d' & Hd' & Hcnt & Hle & Hfull).
  assert (d' = d) as -> by congruence. destruct (mo_free _ _ Hok i d Hd) as [Hnd Hin].
  destruct (blk_facts _ s Hok a x i d k Ha Hd Hk) as (_ & _ & _ & Hina & _). fold b in Hina.
  assert (free_cnt x < blocks_per_arena d). { destruct (decide (free_cnt x = blocks_per_arena d)) as [E|]; [by apply Hfull in E|lia]. }
  assert (Ec : free_cnt x + 1 = Z.of_nat (length (filter (in_arena a) (b :: free_list d)))).
  { rewrite filter_cons_True by done. cbn [length]. lia. }
  assert (Hinv : ∀ F', (free_cnt x + 1 = blocks_per_arena d → F' a) → malloc_inv F' s').
  { intros F' HF. unfold s'. rewrite Ec in HF |- *. apply (relist_inv (λ _, False) s Hok i d a x Hd Ha Hx); [| | |lia|done|done].
    - by constructor.
    - intros b' Hb'. apply elem_of_cons in Hb' as [->|Hb']; [right; by exists k|by left].
    - intros a' Hne. rewrite filter_cons_False; [done|]. unfold in_arena in *. congruence. }
  split; [by apply Hinv|]. split; [lia|]. split; [intros; apply Hinv; lia|].
  intros b' n. unfold live_block, s'. rewrite (relist_block s i d a x Hd Ha Hx), (relist_free s i d a Hd).
  rewrite elem_of_cons. split.
  - intros [Hb Hf]. split; [|naive_solver]. split; [done|]. intros (j & d' & Hd1 & Hb1). apply Hf.
    destruct (decide (j = i)) as [->|]; [|naive_solver]. assert (d' = d) as -> by congruence. naive_solver.
  - intros [[Hb Hf] Hne]. split; [done|]. intros [[->|Hb1]|(j & d' & _ & Hd1 & Hb1)]; [done| |].
    + apply Hf. by exists i, d.
    + apply Hf. by exists j, d'.
Qed.

(** ** Arenas come and go *)

Definition arenas_ok (p : PS) (m : gmap Z arena) : Prop :=
  (∀ a x, m !! a = Some x → 0 < arena_pages x ∧ page_run a (arena_pages x) ∧
     ∀ q, in_run a (arena_pages x) q = true → page_used p q = true) ∧
  ∀ a x a' x' q, m !! a = Some x → m !! a' = Some x' →
    in_run a (arena_pages x) q = true → in_run a' (arena_pages x') q = true → a = a'.

Lemma inv_arenas_ok F s : malloc_inv F s → arenas_ok (pages s) (arenas s).
Proof. intros Hok. split; [apply (mo_arena _ _ Hok)|apply (mo_disjoint _ _ Hok)]. Qed.

Lemma arenas_ok_add p p' m a x : arenas_ok p m → 0 < arena_pages x → page_run a (arena_pages x) →
  (∀ q, in_run a (arena_pages x) q = true → page_used p q = false) →
  (∀ q, page_used p' q = page_used p q || in_run a (arena_pages x) q) →
  m !! a = None ∧ arenas_ok p' (<[a := x]> m).
Proof.
  intros [H1 H2] Hn Hrun Hnew Hp'.
  assert (Hapart : ∀ a' x' q, m !! a' = Some x' → in_run a' (arena_pages x') q = true → in_run a (arena_pages x) q = true → False).
  { intros a' x' q Ha' Hq Hq'. destruct (H1 a' x' Ha') as (_ & _ & Hu). pose proof (Hu q Hq). pose proof (Hnew q Hq'). congruence. }
  split; [|split].
  - destruct (m !! a) as [x'|] eqn:Ha; [|done]. exfalso. destruct (H1 a x' Ha) as (Hn' & _).
    apply (Hapart a x' (a / 4096) Ha); unfold in_run; apply andb_true_iff; lia.
  - intros a' x'. rewrite lookup_insert_Some. intros [[<- <-]|[_ Ha']].
    + split; [done|]. split; [done|]. intros q Hq. rewrite Hp', Hq. apply orb_true_r.
    + destruct (H1 a' x' Ha') as (? & ? & Hu). split; [done|]. split; [done|]. intros q Hq. by rewrite Hp', Hu.
  - intros a1 x1 a2 x2 q. rewrite !lookup_insert_Some. intros [[<- <-]|[_ Ha1]] [[<- <-]|[_ Ha2]] Q1 Q2; [done| | |by eauto].
    + by destruct (Hapart a2 x2 q).
    + by destruct (Hapart a1 x1 q).
Qed.

Lemma arenas_ok_drop p p' m a x : arenas_ok p m → m !! a = Some x →
  (∀ q, page_used p' q = page_used p q && negb (in_run a (arena_pages x) q)) → arenas_ok p' (delete a m).
Proof.
  intros [H1 H2] Ha Hp'. split.
  - intros a' x' [Hne Ha']%lookup_delete_Some. destruct (H1 a' x' Ha') as (? & ? & Hu). split; [done|]. split; [done|].
    intros q Hq. rewrite Hp', (Hu q Hq). destruct (in_run a (arena_pages x) q) eqn:E; [|done]. by destruct (Hne (H2 a x a' x' q Ha Ha' E Hq)).
  - intros a1 x1 a2 x2 q [_ Ha1]%lookup_delete_Some [_ Ha2]%lookup_delete_Some. by apply H2.
Qed.

(** An arena with no free block in it is put in the table. *)
Definition add_arena (a : Z) (x : arena) (p : PS) (s : mstate) : mstate :=
  mk_mstate p (descs s) (<[a := x]> (arenas s)) (bytes s).

Lemma add_arena_ok s a x p : malloc_ok s → 0 < arena_pages x → page_run a (arena_pages x) →
  (∀ i, a_desc x = Some i → is_Some (descs s !! i) ∧ free_cnt x = 0) →
  (∀ q, in_run a (arena_pages x) q = true → page_used (pages s) q = false) →
  pages_ok p → (∀ q, page_used p q = page_used (pages s) q || in_run a (arena_pages x) q) →
  malloc_ok (add_arena a x p s) ∧ arenas s !! a = None ∧ (∀ b, in_arena a b → ¬ is_free s b) ∧
  ∀ b n, is_block (add_arena a x p s) b n ↔ is_block s b n ∨ block_in s a x b n.
Proof.
  intros Hok Hc Hrun Hx Hnew Hp Hused.
  destruct (arenas_ok_add (pages s) p (arenas s) a x) as [Hfresh [Har Hdis]]; [by eapply inv_arenas_ok|done..|].
  assert (Hnf : ∀ b, in_arena a b → ¬ is_free s b).
  { intros b Hb (i & d & Hd & Hf). destruct (free_block_arena _ s Hok i d _ Hd Hf) as (x' & k & Ha' & _).
    unfold in_arena in Hb. congruence. }
  split; [|split; [done|split; [done|]]].
  - split; [done|apply (mo_descs _ _ Hok)|done|done| |].
    + intros a' x' i. cbn [add_arena arenas descs]. rewrite lookup_insert_Some.
      intros [[<- <-]|[_ Ha']] Hi; [|by apply (mo_small _ _ Hok)]. destruct (Hx i Hi) as [[d Hd] ->]. exists d.
      destruct (inv_desc _ s Hok i d Hd) as [Hi' Hdo]. pose proof (desc_geometry i d Hi' Hdo) as (_ & G & _).
      split; [done|]. split; [|lia]. rewrite list_filter_none; [done|]. intros b Hb1 Hb2. apply (Hnf b Hb2). by exists i, d.
    + intros i d Hd. destruct (mo_free _ _ Hok i d Hd) as [Hnd Hin]. split; [done|]. intros b Hb.
      destruct (Hin b Hb) as (a' & x' & k & Ha' & H). exists a', x', k. cbn [add_arena arenas]. split; [|done].
      rewrite lookup_insert_ne; [done|congruence].
  - intros b n. split.
    + intros (a' & x' & Ha' & H). cbn [add_arena arenas] in Ha'. apply lookup_insert_Some in Ha' as [[<- <-]|[_ Ha']]; [by right|].
      left. by exists a', x'.
    + intros [(a' & x' & Ha' & H)|H].
      * exists a', x'. cbn [add_arena arenas]. rewrite lookup_insert_ne by congruence. done.
      * exists a, x. cbn [add_arena arenas]. rewrite lookup_insert_eq. done.
Qed.

(** An arena with no free block in it is taken out of the table. *)
Definition del_arena (a : Z) (p : PS) (s : mstate) : mstate := mk_mstate p (descs s) (delete a (arenas s)) (bytes s).

Lemma del_arena_ok s a x p : malloc_ok s → arenas s !! a = Some x → (∀ b, in_arena a b → ¬ is_free s b) → pages_ok p →
  (∀ q, page_used p q = page_used (pages s) q && negb (in_run a (arena_pages x) q)) →
  malloc_ok (del_arena a p s) ∧ ∀ b n, is_block (del_arena a p s) b n ↔ is_block s b n ∧ ¬ in_arena a b.
Proof.
  intros Hok Ha Hnf Hp Hused.
  destruct (arenas_ok_drop (pages s) p (arenas s) a x) as [Har Hdis]; [by eapply inv_arenas_ok|done..|].
  split.
  - split; [done|apply (mo_descs _ _ Hok)|done|done| |].
    + intros a' x' i Ha'. cbn [del_arena arenas] in Ha'. apply lookup_delete_Some in Ha' as [_ Ha']. by apply (mo_small _ _ Hok).
    + intros i d Hd. destruct (mo_free _ _ Hok i d Hd) as [Hnd Hin]. split; [done|]. intros b Hb.
      destruct (free_block_arena _ s Hok i d b Hd Hb) as (x' & k & Ha' & H). exists (b - b mod 4096), x', k.
      cbn [del_arena arenas]. split; [|done]. rewrite lookup_delete_ne; [done|]. intros E. apply (Hnf b); [done|]. by exists i, d.
  - intros b n. split.
    + intros (a' & x' & Ha' & H). cbn [del_arena arenas] in Ha'. apply lookup_delete_Some in Ha' as [Hne Ha'].
      split; [by exists a', x'|]. destruct (block_range _ s Hok a' x' _ n Ha' H) as (E & _). unfold in_arena in *. congruence.
    + intros [(a' & x' & Ha' & H) Hne]. exists a', x'. cbn [del_arena arenas]. split; [|done].
      rewrite lookup_delete_ne; [done|]. intros <-. apply Hne. by destruct (block_range _ s Hok a x' _ n Ha' H).
Qed.

Lemma big_block_page s a x : malloc_ok s → arenas s !! a = Some x → in_arena a (a + sizeof_arena).
Proof.
  intros Hok Ha. destruct (inv_page _ s Hok a x Ha) as (_ & Hal & _). unfold in_arena, sizeof_arena.
  rewrite Z.add_mod, Hal by lia. change ((0 + 12 mod 4096) mod 4096) with 12. lia.
Qed.

(** The block of a big arena is the only one in it. *)
Lemma big_only s a x b n : malloc_ok s → arenas s !! a = Some x → a_desc x = None → is_block s b n → in_arena a b →
  b = a + sizeof_arena.
Proof.
  intros Hok Ha Hx (a' & x' & Ha' & H) Hin. destruct (block_range _ s Hok a' x' _ n Ha' H) as (E & _). unfold in_arena in *.
  assert (a' = a) as -> by congruence. assert (x' = x) as -> by congruence. unfold block_in in H. rewrite Hx in H. naive_solver.
Qed.

(** All blocks of an arena are free: they are exactly the free blocks in it. *)
Lemma arena_all_free F s a x i d : malloc_inv F s → arenas s !! a = Some x → a_desc x = Some i → descs s !! i = Some d →
  free_cnt x = blocks_per_arena d → ∀ b, b ∈ blocks a d ↔ b ∈ free_list d ∧ in_arena a b.
Proof.
  intros Hok Ha Hx Hd Hfull. destruct (mo_small _ _ Hok a x i Ha Hx) as (d' & Hd' & Hcnt & _). assert (d' = d) as -> by congruence.
  destruct (inv_desc _ s Hok i d Hd) as [Hi Hdo]. destruct (mo_free _ _ Hok i d Hd) as [Hnd Hin].
  assert (Hsub : ∀ b, b ∈ filter (in_arena a) (free_list d) → b ∈ blocks a d).
  { intros b Hb. apply list_elem_of_filter in Hb as [Hb1 Hb2]. apply elem_of_blocks.
    destruct (free_block_arena _ s Hok i d b Hd Hb2) as (x' & k & _ & _ & Hk & E). unfold in_arena in Hb1. rewrite Hb1 in E. by exists k. }
  assert (Hperm : filter (in_arena a) (free_list d) ≡ₚ blocks a d).
  { apply submseteq_length_Permutation.
    - apply NoDup_submseteq; [by apply NoDup_filter|done].
    - rewrite length_blocks. lia. }
  intros b. rewrite <-Hperm, list_elem_of_filter. tauto.
Qed.

(** ** The loops over the blocks of an arena *)

(** The state with another free list for descriptor [i]. *)
Definition relinked (i : nat) (d : desc) (l : list Z) (s : mstate) : mstate :=
  set_descs (<[i := with_list d l]> (descs s)) s.

Lemma relinked_desc i d l s : descs s !! i = Some d → descs (relinked i d l s) !! i = Some (with_list d l).
Proof. intros Hd. apply list_lookup_insert_eq. by eapply lookup_lt_Some. Qed.

Lemma relinked_twice i d l l' s : relinked i (with_list d l) l' (relinked i d l s) = relinked i d l' s.
Proof. unfold relinked, set_descs. cbn [descs pages arenas bytes]. by rewrite list_insert_insert_eq. Qed.

Lemma relinked_id i d s : descs s !! i = Some d → relinked i d (free_list d) s = s.
Proof. intros Hd. unfold relinked, set_descs. rewrite list_insert_id; [by destruct s|]. rewrite Hd. by destruct d. Qed.

Section loops.
Context (s : mstate) (a : Z) (x : arena) (i : nat) (d : desc).
Context (Ha : arenas s !! a = Some x) (Hx : a_desc x = Some i) (Hd : descs s !! i = Some d).
Context (Hi : (i < 7)%nat) (Hdo : desc_ok i d) (H1 : 0 < a) (H2 : a mod 4096 = 0) (H3 : a + 4096 ≤ 2 ^ 32).

Lemma wp_relinked_block l k (Q : Z → mstate → Prop) : 0 ≤ k < blocks_per_arena d →
  Q (blk a d k) (relinked i d l s) → wp (arena_to_block a k) Q (relinked i d l s).
Proof. intros Hk. by apply (wp_arena_to_block (relinked i d l s) a x i (with_list d l) k Q Ha Hx (relinked_desc _ _ _ _ Hd)). Qed.

Lemma wp_put_relinked l l' (Q : unit → mstate → Prop) : Q tt (relinked i d l' s) → wp (put_free_list i l') Q (relinked i d l s).
Proof.
  intros HQ. apply (wp_put_free_list i (with_list d l)); [by apply relinked_desc|].
  fold (relinked i (with_list d l) l' (relinked i d l s)). by rewrite relinked_twice.
Qed.

Lemma wp_add_blocks (Q : unit → mstate → Prop) : free_list d = [] → Q tt (relinked i d (blocks a d) s) →
  wp (for_loop (Z.to_nat (blocks_per_arena d)) 0 (λ k,
    b ← arena_to_block a k; d ← get_desc i; put_free_list i (free_list d ++ [b]))) Q s.
Proof.
  intros Hnil HQ. pose proof (desc_geometry i d Hi Hdo) as (_ & G & _).
  eapply wp_mono; [apply (wp_for_loop (λ k s', s' = relinked i d (blk a d <$> seqZ 0 k) s))|].
  - rewrite <-(relinked_id i d s Hd) at 1. by rewrite Hnil.
  - intros k s' Hk ->. wp_step. apply wp_relinked_block; [lia|]. wp_step. eapply wp_get_desc; [by apply relinked_desc|].
    apply wp_put_relinked. cbn [with_list free_list]. f_equal. rewrite seqZ_app by lia. by rewrite fmap_app.
  - intros [] s' ->. rewrite Z2Nat.id, Z.add_0_l by lia. exact HQ.
Qed.

Lemma wp_remove_blocks (Q : unit → mstate → Prop) : (∀ b, b ∈ blocks a d → b ∈ free_list d) →
  Q tt (relinked i d (filter (λ b, b ∉ blocks a d) (free_list d)) s) →
  wp (for_loop (Z.to_nat (blocks_per_arena d)) 0 (λ k, b ← arena_to_block a k; list_remove i b)) Q s.
Proof.
  intros Hall HQ. pose proof (desc_geometry i d Hi Hdo) as (_ & G & _).
  eapply wp_mono; [apply (wp_for_loop (λ k s', s' = relinked i d (filter (λ b, b ∉ blk a d <$> seqZ 0 k) (free_list d)) s))|].
  - cbn. rewrite list_filter_all; [symmetry; by apply relinked_id|]. intros b _. apply not_elem_of_nil.
  - intros k s' Hk ->. wp_step. apply wp_relinked_block; [lia|]. unfold list_remove. wp_step.
    eapply wp_get_desc; [by apply relinked_desc|]. cbn [with_list free_list].
    rewrite bool_decide_true.
    + apply wp_put_relinked. f_equal. rewrite list_filter_filter. apply list_filter_iff. intros b.
      rewrite seqZ_app by lia. rewrite fmap_app, not_elem_of_app. rewrite (seqZ_cons (0 + k) 1), (seqZ_nil _ (Z.pred 1)) by lia.
      cbn [fmap list_fmap]. rewrite Z.add_0_l, list_elem_of_singleton. tauto.
    + apply list_elem_of_filter. split.
      * rewrite list_elem_of_fmap. intros (k' & E & Hk'). apply elem_of_seqZ in Hk'. apply (blk_inj a d k k' i Hi Hdo) in E. lia.
      * apply Hall, elem_of_blocks. exists k. split; [lia|done].
  - intros [] s' ->. rewrite Z2Nat.id, Z.add_0_l by lia. exact HQ.
Qed.
End loops.

Definition same_blocks (s s' : mstate) : Prop := bytes s' = bytes s ∧ ∀ b n, live_block s' b n ↔ live_block s b n.

Lemma block_in_small s a i c d b n : descs s !! i = Some d →
  block_in s a (mk_arena (Some i) c) b n ↔ b ∈ blocks a d ∧ n = d_block_size d.
Proof. intros Hd. unfold block_in. cbn [a_desc]. rewrite elem_of_blocks. naive_solver. Qed.

Lemma wp_new_arena s i d (Q : bool → mstate → Prop) : malloc_ok s → descs s !! i = Some d → free_list d = [] →
  Q false s →
  (∀ a s', malloc_inv (λ a', a' = a) s' → 0 < a → a mod 4096 = 0 → descs s' !! i = Some (with_list d (blocks a d)) →
     same_blocks s s' → Q true s') →
  wp (new_arena i) Q s.
Proof.
  intros Hok Hd Hnil HQ0 HQ1. unfold new_arena. wp_step. apply wp_on_pages. destruct (inv_desc _ s Hok i d Hd) as [Hi Hdo].
  pose proof (desc_geometry i d Hi Hdo) as (_ & G & _).
  apply wp_get_pages; [apply (mo_pages _ _ Hok)|lia| |].
  { unfold wp. cbn. by destruct s. }
  intros a p Hp Hrun Hnew Hused. destruct Hrun as (R1 & R2 & R3). rewrite (proj2 (Z.eqb_neq a 0)) by lia.
  wp_step. apply (wp_get_desc i d); [done|]. wp_step. unfold put_arena. wp_step.
  wp_step. apply (wp_add_blocks _ a (mk_arena (Some i) (blocks_per_arena d)) i d); cbn [set_arenas arenas descs set_pages];
    [by rewrite lookup_insert_eq|done..|lia|done|].
  wp_step. destruct (add_arena_ok s a (mk_arena (Some i) 0) p) as (Hok1 & Hfresh & Hnf & Hblk); [done|cbn; lia|done| |done..|].
  { intros j [= <-]. by rewrite Hd. }
  set (s1 := add_arena a (mk_arena (Some i) 0) p s) in *.
  assert (E : relinked i d (blocks a d) (set_arenas (<[a := mk_arena (Some i) (blocks_per_arena d)]> (arenas s)) (set_pages p s)) =
    relist i d (blocks a d) a (Z.of_nat (length (filter (in_arena a) (blocks a d)))) s1).
  { rewrite list_filter_all.
    - unfold relinked, relist, s1, set_arenas, set_descs. cbn [descs pages arenas bytes add_arena set_pages].
      rewrite insert_insert_eq, length_blocks, Z2Nat.id by lia. done.
    - intros b (k & Hk & ->)%elem_of_blocks. by apply (blk_in_arena a d k i). }
  cbn [set_pages arenas descs]. rewrite E.
  assert (Ha1 : arenas s1 !! a = Some (mk_arena (Some i) 0)) by apply lookup_insert_eq.
  apply (HQ1 a); [|done|done| |].
  - apply (relist_inv (λ _, False) s1 Hok1 i d a (mk_arena (Some i) 0)); [done..| | | | | |done].
    + by apply (NoDup_blocks a d i).
    + intros b Hb. right. by apply elem_of_blocks.
    + intros a' Hne. rewrite Hnil. apply list_filter_none. intros b (k & Hk & ->)%elem_of_blocks.
      destruct (blk_in_arena a d k i Hi Hdo R2 Hk) as [Hin _]. unfold in_arena in *. congruence.
    + pose proof (length_filter (in_arena a) (blocks a d)) as Hl. rewrite length_blocks in Hl. lia.
    + done.
  - cbn [relist descs s1 add_arena]. apply list_lookup_insert_eq. by eapply lookup_lt_Some.
  - split; [done|]. intros b n. unfold live_block. rewrite (relist_block s1 i d a _ Hd Ha1 eq_refl), (relist_free s1 i d a Hd), Hblk.
    rewrite (block_in_small s a i 0 d) by done.
    assert (Hf : is_free s b ↔ ∃ j d', j ≠ i ∧ descs s !! j = Some d' ∧ b ∈ free_list d').
    { split; [|intros (j & d' & _ & Hd' & Hb); by exists j, d']. intros (j & d' & Hd' & Hb). exists j, d'. split; [|done]. intros ->. assert (d' = d) as -> by congruence.
      rewrite Hnil in Hb. by apply not_elem_of_nil in Hb. }
    cbn [s1 add_arena descs]. rewrite <-Hf. split; [intros [[Hb|[Hb _]] Hn]; [split; [done|]; intros Hb'; apply Hn; by right|destruct Hn; by left]|]. intros [Hb Hnb]. split; [by left|]. intros [Hin|]; [|done].
    apply elem_of_blocks in Hin as (k & Hk & ->). destruct Hb as (a' & x' & Ha' & Hb').
    destruct (block_range _ s Hok a' x' _ n Ha' Hb') as (E1 & _). destruct (blk_in_arena a d k i Hi Hdo R2 Hk) as [E2 _].
    unfold in_arena in *. congruence.
Qed.

(** ** Allocation *)

(** A block of [n] bytes at [b] that no block in use overlaps is now in use. *)
Definition gained (s s' : mstate) (b n : Z) : Prop :=
  0 < b ∧ b + n ≤ 2 ^ 32 ∧ (∀ b' n', live_block s b' n' → b + n ≤ b' ∨ b' + n' ≤ b) ∧
  ∀ b' n', live_block s' b' n' ↔ live_block s b' n' ∨ b' = b ∧ n' = n.

Lemma gained_intro s s' b n : malloc_ok s' → (∀ n', ¬ live_block s b n') →
  (∀ b' n', live_block s' b' n' ↔ live_block s b' n' ∨ b' = b ∧ n' = n) → gained s s' b n.
Proof.
  intros Hok Hnew Hlive. assert (Hb : live_block s' b n) by (apply Hlive; by right).
  assert (Hblk := proj1 Hb). destruct Hblk as (a & x & Ha & Hin). destruct (block_range _ s' Hok a x b n Ha Hin) as (_ & _ & U & _ & R).
  destruct (mo_arena _ _ Hok a x Ha) as (_ & (_ & _ & R') & _).
  split; [lia|]. split; [lia|]. split; [|done]. intros b' n' Hl. assert (b ≠ b') by (intros ->; by apply (Hnew n')).
  assert (H' : live_block s' b' n') by (apply Hlive; by left). by apply (block_disjoint _ s' Hok); [apply Hb|apply H'|].
Qed.

Definition malloc_post (size : Z) (s : mstate) (p : Z) (s' : mstate) : Prop :=
  malloc_ok s' ∧ bytes s' = bytes s ∧
  (p = NULL ∧ same_blocks s s' ∨ ∃ n, size ≤ n ∧ gained s s' p n).

Lemma gained_mono s1 s s' b n : same_blocks s s1 → gained s1 s' b n → gained s s' b n.
Proof. intros [_ H] (H1 & H2 & H3 & H4). split; [done|]. split; [done|]. setoid_rewrite H in H3. setoid_rewrite H in H4. done. Qed.

Lemma wp_malloc_big s size : malloc_ok s → 0 < size ≤ 2 ^ 32 - 12 → wp (malloc_big size) (malloc_post size s) s.
Proof.
  intros Hok Hsize. unfold malloc_big. cbv zeta. set (cnt := DIV_ROUND_UP _ _).
  assert (Hcnt : cnt = 0 ∨ 0 < cnt ∧ size + 12 ≤ cnt * 4096).
  { unfold cnt, DIV_ROUND_UP, sizeof_arena. change PGSIZE with 4096. unfold wrap32.
    destruct (decide (size = 2 ^ 32 - 12)) as [->|]; [by left|]. rewrite (Z.mod_small (size + 12)) by lia.
    destruct (decide (size + 12 + 4096 - 1 < 2 ^ 32)).
    - rewrite Z.mod_small by lia. right. div_lia.
    - left. replace (size + 12 + 4096 - 1) with (size + 4107 - 2 ^ 32 + 1 * 2 ^ 32) by lia.
      rewrite Z_mod_plus_full, Z.mod_small by lia. apply Z.div_small. lia. }
  clearbody cnt. wp_step. apply wp_on_pages.
  assert (Hnull : wp (mret NULL : M mstate Z) (malloc_post size s) (set_pages (pages s) s)).
  { wp_step. replace (set_pages (pages s) s) with s by (by destruct s). split; [done|]. split; [done|]. by left. }
  destruct Hcnt as [->|[Hc Hle]]. { unfold wp at 1. rewrite get_no_pages. exact Hnull. }
  apply wp_get_pages; [apply (mo_pages _ _ Hok)|done|exact Hnull|].
  intros a p Hp Hrun Hnew Hused. rewrite (proj2 (Z.eqb_neq a 0)) by (destruct Hrun; lia). unfold put_arena. repeat wp_step.
  destruct (add_arena_ok s a (mk_arena None cnt) p) as (Hok1 & Hfresh & Hnf & Hblk); [done..|].
  change (malloc_post size s (a + sizeof_arena) (add_arena a (mk_arena None cnt) p s)).
  set (s1 := add_arena a (mk_arena None cnt) p s) in *.
  assert (Hin : in_arena a (a + sizeof_arena)) by (apply (big_block_page s1 a (mk_arena None cnt) Hok1); apply lookup_insert_eq).
  split; [done|]. split; [done|]. right. exists (PGSIZE * cnt - sizeof_arena). split; [unfold sizeof_arena; change PGSIZE with 4096; lia|].
  apply gained_intro; [done| |].
  - intros n [(a' & x' & Ha' & Hb) _]. destruct (block_range _ s Hok a' x' _ n Ha' Hb) as (E & _). unfold in_arena in *. congruence.
  - intros b n. unfold live_block. rewrite Hblk. unfold block_in. cbn [a_desc free_cnt]. change (is_free s1 b) with (is_free s b).
    split; [naive_solver|]. intros [[? ?]|[-> ->]]; [naive_solver|]. split; [by right|by apply Hnf].
Qed.

Lemma find_desc_Some ds i size j : find_desc ds i size = Some j →
  ∃ d, (i ≤ j)%nat ∧ ds !! (j - i)%nat = Some d ∧ size ≤ d_block_size d ∧
    ∀ j' d', (i ≤ j' < j)%nat → ds !! (j' - i)%nat = Some d' → d_block_size d' < size.
Proof.
  revert i. induction ds as [|d ds IH]; intros i; cbn [find_desc]; [done|]. destruct (Z.leb_spec size (d_block_size d)) as [Hle|Hlt].
  - intros [= <-]. exists d. rewrite Nat.sub_diag. split; [lia|]. split; [done|]. split; [done|]. lia.
  - intros H. destruct (IH (S i) H) as (d1 & Hij & Hd1 & Hs & Hf). exists d1. split; [lia|].
    replace (j - i)%nat with (S (j - S i)) by lia. split; [done|]. split; [done|]. intros j' d' Hj' Hd'.
    destruct (decide (j' = i)) as [->|Hne]; [rewrite Nat.sub_diag in Hd'; by injection Hd' as <-|].
    apply (Hf j'); [lia|]. by replace (j' - i)%nat with (S (j' - S i)) in Hd' by lia.
Qed.

Lemma wp_malloc_block s size : malloc_ok s → 0 < size ≤ 2 ^ 32 - 12 → wp (malloc size) (malloc_post size s) s.
Proof.
  intros Hok Hsize. unfold malloc. rewrite (proj2 (Z.eqb_neq size 0)) by lia. repeat wp_step.
  destruct (find_desc (descs s) 0 size) as [i|] eqn:Hf; [|by apply wp_malloc_big].
  destruct (find_desc_Some _ _ _ _ Hf) as (d & _ & Hd & Hle & _). rewrite Nat.sub_0_r in Hd.
  wp_step. apply (wp_get_desc i d); [done|]. wp_step.
  assert (Hpop : ∀ F s1 l b, malloc_inv F s1 → (∀ a, F a → in_arena a b) → descs s1 !! i = Some (with_list d (b :: l)) → same_blocks s s1 →
    wp (d ← get_desc i;
      match free_list d with
      | [] => throw AssertFailed
      | b :: l => put_free_list i l ;; a ← block_to_arena b; x ← get_arena a;
          put_arena a (mk_arena (a_desc x) (wrap32 (free_cnt x - 1))) ;; mret b
      end) (malloc_post size s) s1).
  { intros F s1 l b Hinv HF Hd1 Hsame. wp_step. apply (wp_get_desc i _ _ _ Hd1). cbn [with_list free_list].
    wp_step. apply (wp_put_free_list i _ _ _ _ Hd1).
    destruct (pop_ok F s1 i _ b l Hinv Hd1 eq_refl HF) as (a & x & k & Ha & Hx & Hk & Eb & Hcnt & Hok' & Hlive).
    destruct (inv_page _ s1 Hinv a x Ha) as (R1 & R2 & R3). destruct (inv_desc _ s1 Hinv i _ Hd1) as [Hi Hdo].
    wp_step. rewrite Eb at 1. apply (wp_block_to_arena_small _ a x i (with_list (with_list d (b :: l)) l) k); cbn [set_descs arenas descs]; try done.
    { apply list_lookup_insert_eq. by eapply lookup_lt_Some. }
    wp_step. apply (wp_get_arena a x); [done|]. unfold put_arena. repeat wp_step. rewrite Hx, wrap32_small by done.
    change (malloc_post size s b (relist i (with_list d (b :: l)) l a (free_cnt x - 1) s1)).
    split; [done|]. split; [apply Hsame|]. right. exists (d_block_size d). split; [done|]. apply (gained_mono s1); [done|].
    apply gained_intro; [done| |exact Hlive]. intros n [_ Hnf]. apply Hnf. eexists i, _. split; [done|]. left. }
  destruct (free_list d) as [|b l] eqn:Hl.
  - apply (wp_new_arena s i d); [done..| |].
    + cbn [negb]. wp_step. split; [done|]. split; [done|]. by left.
    + intros a s1 Hinv R1 R2 Hd1 Hsame. destruct (inv_desc _ s Hok i d Hd) as [Hi Hdo].
      pose proof (desc_geometry i d Hi Hdo) as (_ & G & _). unfold blocks in Hd1. rewrite seqZ_cons in Hd1 by lia. cbn [fmap list_fmap] in Hd1.
      cbn [negb]. eapply (Hpop (λ a', a' = a) s1); [done| |exact Hd1|done]. intros a' ->. by apply (blk_in_arena a d 0 i); [..|lia].
  - wp_step. cbn [negb]. apply (Hpop (λ _, False) s l b); [done|done| |done]. rewrite Hd. f_equal. rewrite <-Hl. by destruct d.
Qed.

(** ** Contents *)

Lemma lookup_fill n a v m c : fill n a v m !! c = if decide (a ≤ c < a + Z.of_nat n) then Some v else m !! c.
Proof.
  revert a m. induction n as [|n IH]; intros a m; cbn [fill]; [by rewrite decide_False by lia|].
  rewrite IH. destruct (decide (c = a)) as [->|Hne].
  - rewrite decide_False, decide_True by lia. apply lookup_insert_eq.
  - rewrite lookup_insert_ne by done. apply decide_ext. lia.
Qed.

Lemma lookup_copy n dst src m from c : copy n dst src m from !! c =
  if decide (dst ≤ c < dst + Z.of_nat n) then Some (byte_at from (src + (c - dst))) else m !! c.
Proof.
  revert dst src m. induction n as [|n IH]; intros dst src m; cbn [copy]; [by rewrite decide_False by lia|].
  rewrite IH. destruct (decide (c = dst)) as [->|Hne].
  - rewrite decide_False, decide_True by lia. rewrite lookup_insert_eq. do 2 f_equal. lia.
  - rewrite lookup_insert_ne by done. destruct (decide (dst + 1 ≤ c < _)); [rewrite decide_True by lia; do 2 f_equal; lia|].
    by rewrite decide_False by lia.
Qed.

Lemma inv_set_bytes F m s : malloc_inv F s → malloc_inv F (set_bytes m s).
Proof. intros []. by split. Qed.

(** ** Giving back *)

Lemma wp_release s a x i d (Q : unit → mstate → Prop) : malloc_inv (λ a', a' = a) s → arenas s !! a = Some x →
  a_desc x = Some i → descs s !! i = Some d → free_cnt x = blocks_per_arena d →
  (∀ s', malloc_ok s' → same_blocks s s' → Q tt s') →
  wp (for_loop (Z.to_nat (blocks_per_arena d)) 0 (λ k, b ← arena_to_block a k; list_remove i b) ;;
      on_pages (free_pages a 1) ;; drop_arena a) Q s.
Proof.
  intros Hinv Ha Hx Hd Hfull HQ. pose proof (arena_all_free _ s a x i d Hinv Ha Hx Hd Hfull) as Hall.
  destruct (inv_desc _ s Hinv i d Hd) as [Hi Hdo]. destruct (inv_page _ s Hinv a x Ha) as (R1 & R2 & R3).
  pose proof (desc_geometry i d Hi Hdo) as (_ & G & _).
  assert (Hpg : arena_pages x = 1) by (unfold arena_pages; by rewrite Hx).
  destruct (mo_arena _ _ Hinv a x Ha) as (_ & Hrun & Hused). rewrite Hpg in Hrun, Hused.
  set (l := filter (λ b, b ∉ blocks a d) (free_list d)).
  assert (Hl : ∀ b, b ∈ l → ¬ in_arena a b). { intros b (Hb & Hb')%list_elem_of_filter Hin. apply Hb, Hall. done. }
  wp_step. apply (wp_remove_blocks s a x i d); try done. { intros b Hb. by apply Hall. } fold l.
  wp_step. apply wp_on_pages. apply wp_free_pages; [apply (mo_pages _ _ Hinv)|lia|done|done|].
  intros p Hp Hpu. unfold drop_arena. wp_step.
  assert (Hok1 : malloc_ok (relist i d l a 0 s)).
  { replace 0 with (Z.of_nat (length (filter (in_arena a) l))) by (by rewrite list_filter_none).
    apply (relist_inv (λ a', a' = a) s Hinv i d a x Hd Ha Hx); [| | | | |done].
    - apply NoDup_filter, (mo_free _ _ Hinv i d Hd).
    - intros b (_ & Hb)%list_elem_of_filter. by left.
    - intros a' Hne. unfold l. rewrite list_filter_filter_l; [done|]. intros b Hb Hin.
      apply Hall in Hin as [_ Hin]. unfold in_arena in *. congruence.
    - rewrite list_filter_none by done. cbn. lia.
    - rewrite list_filter_none by done. cbn. lia. }
  destruct (del_arena_ok (relist i d l a 0 s) a (mk_arena (Some i) 0) p) as [Hok2 Hblk]; [done|apply lookup_insert_eq| |done|done|].
  { intros b Hb (j & d' & Hd' & Hf). destruct (free_block_arena _ _ Hok1 j d' b Hd' Hf) as (x' & k & Ha' & Hx' & _).
    unfold in_arena in Hb. rewrite Hb in Ha'. cbn [relist arenas] in Ha'. rewrite lookup_insert_eq in Ha'.
    injection Ha' as <-. injection Hx' as <-. cbn [relist descs] in Hd'. rewrite list_lookup_insert_eq in Hd' by (by eapply lookup_lt_Some).
    injection Hd' as <-. by apply (Hl b). }
  match goal with |- Q _ ?s' => replace s' with (del_arena a p (relist i d l a 0 s)) end.
  2:{ unfold del_arena, relist, relinked, set_arenas, set_pages, set_descs. cbn. by rewrite delete_insert_eq. }
  apply HQ; [done|]. split; [done|]. intros b n. unfold live_block. rewrite Hblk, (relist_block s i d a x Hd Ha Hx).
  change (is_free (del_arena a p (relist i d l a 0 s)) b) with (is_free (relist i d l a 0 s) b). rewrite (relist_free s i d a Hd).
  split.
  - intros [[Hb Hna] Hnf]. split; [done|]. intros (j & d' & Hd' & Hf). apply Hnf. destruct (decide (j = i)) as [->|].
    + left. assert (d' = d) as -> by congruence. apply list_elem_of_filter. split; [|done]. intros [_ Hin]%Hall. by apply Hna.
    + right. by exists j, d'.
  - intros [Hb Hnf]. split; [split; [done|]|].
    + intros Hin. destruct Hb as (a' & x' & Ha' & Hb). destruct (block_range _ s Hinv a' x' b n Ha' Hb) as (Hin' & _).
      unfold in_arena in *. assert (a' = a) as -> by congruence. assert (x' = x) as -> by congruence.
      unfold block_in in Hb. rewrite Hx in Hb. destruct Hb as (d' & k & Hd' & Hk & -> & _). assert (d' = d) as -> by congruence.
      apply Hnf. exists i, d. split; [done|]. apply Hall, elem_of_blocks. by exists k.
    + intros [Hin|(j & d' & _ & Hd' & Hf)]; apply Hnf; [|by exists j, d']. apply list_elem_of_filter in Hin as [_ Hin]. by exists i, d.
Qed.

(** [b] is no longer in use; nothing is written outside its [n] bytes. *)
Definition lost (s s' : mstate) (b n : Z) : Prop :=
  (∀ b' n', live_block s' b' n' ↔ live_block s b' n' ∧ b' ≠ b) ∧
  ∀ c, ¬ (b ≤ c < b + n) → bytes s' !! c = bytes s !! c.

Lemma wp_free s b n : malloc_ok s → live_block s b n → wp (free b) (λ _ s', malloc_ok s' ∧ lost s s' b n) s.
Proof.
  intros Hok Hlive. assert (Hb := proj1 Hlive). destruct Hb as (a & x & Ha & Hb).
  destruct (block_range _ s Hok a x b n Ha Hb) as (_ & _ & _ & Hn & R). destruct (inv_page _ s Hok a x Ha) as (R1 & R2 & R3).
  unfold free. rewrite (proj2 (Z.eqb_neq b 0)) by lia. assert (Hb' := Hb). unfold block_in in Hb. wp_step. destruct (a_desc x) as [i|] eqn:Hx.
  - destruct Hb as (d & k & Hd & Hk & -> & ->). destruct (inv_desc _ s Hok i d Hd) as [Hi Hdo].
    pose proof (desc_geometry i d Hi Hdo) as (G1 & G2 & G3).
    apply (wp_block_to_arena_small s a x i d k); try done. wp_step. apply (wp_get_arena a x); [done|]. rewrite Hx.
    wp_step. apply (wp_get_desc i d); [done|]. wp_step. unfold memset. wp_step. set (m := fill _ _ _ _).
    assert (Hok1 : malloc_ok (set_bytes m s)) by (by apply inv_set_bytes).
    assert (Hm : ∀ c, ¬ (blk a d k ≤ c < blk a d k + d_block_size d) → m !! c = bytes s !! c).
    { intros c Hc. unfold m. rewrite lookup_fill, decide_False by lia. done. }
    wp_step. apply (wp_put_free_list i d); [done|]. cbv zeta. unfold put_arena. repeat wp_step.
    destruct (push_ok (set_bytes m s) i d a x k) as (Hinv & Hcnt & Hnot & Hl); [done..| |].
    { intros Hf. apply (proj2 Hlive). by exists i, d. }
    rewrite wrap32_small by lia. set (s2 := relist _ _ _ _ _ _) in *.
    match goal with |- wp _ _ ?s' => change s' with s2 end.
    assert (Hlost : ∀ s3, same_blocks s2 s3 → lost s s3 (blk a d k) (d_block_size d)).
    { intros s3 [E1 E2]. split; [intros b' n'; rewrite E2; apply Hl|]. intros c Hc. rewrite E1. by apply Hm. }
    destruct (Z.leb_spec (blocks_per_arena d) (free_cnt x + 1)).
    + wp_step. wp_step; [lia|].
      apply (wp_release s2 a (mk_arena (Some i) (free_cnt x + 1)) i (with_list d (blk a d k :: free_list d))); cbn [a_desc free_cnt]; try done.
      * apply lookup_insert_eq.
      * apply list_lookup_insert_eq. by eapply lookup_lt_Some.
      * cbn. lia.
      * intros s3 Hok3 Hsame. split; [done|]. by apply Hlost.
    + wp_step. split; [apply Hnot; lia|]. by apply Hlost.
  - destruct Hb as [-> ->]. apply (wp_block_to_arena_big _ s Hok a x _ Ha Hx). wp_step. apply (wp_get_arena a x); [done|]. rewrite Hx.
    wp_step. apply wp_on_pages. destruct (mo_arena _ _ Hok a x Ha) as (P & Hrun & Hused).
    assert (Epg : arena_pages x = free_cnt x) by (unfold arena_pages; by rewrite Hx).
    apply wp_free_pages; [apply (mo_pages _ _ Hok)|lia|by rewrite <-Epg|by rewrite <-Epg|].
    intros p Hp Hpu. unfold drop_arena. wp_step. rewrite <-Epg in Hpu.
    change (malloc_ok (del_arena a p s) ∧ lost s (del_arena a p s) (a + sizeof_arena) (PGSIZE * free_cnt x - sizeof_arena)).
    destruct (del_arena_ok s a x p) as [Hok1 Hblk]; [done|done| |done|done|].
    { intros b Hin (i & d & Hd & Hf). destruct (free_block_arena _ s Hok i d b Hd Hf) as (x' & k & Ha' & Hx' & _).
      unfold in_arena in Hin. congruence. }
    split; [done|]. split; [|done]. intros b n. unfold live_block. rewrite Hblk. change (is_free (del_arena a p s) b) with (is_free s b).
    pose proof (big_block_page s a x Hok Ha) as Hbig. split.
    + intros [[H1 H2] H3]. split; [done|]. by intros ->.
    + intros [[H1 H2] H3]. split; [split; [done|]|done]. intros Hin. by apply H3, (big_only s a x b n).
Qed.

Lemma wp_block_size s b n (Q : Z → mstate → Prop) : malloc_ok s → is_block s b n → Q n s → wp (block_size b) Q s.
Proof.
  intros Hok (a & x & Ha & Hb) HQ. unfold block_size. wp_step. unfold block_in in Hb.
  destruct (inv_page _ s Hok a x Ha) as (R1 & R2 & R3). destruct (a_desc x) as [i|] eqn:Hx.
  - destruct Hb as (d & k & Hd & Hk & -> & ->). destruct (inv_desc _ s Hok i d Hd) as [Hi Hdo].
    apply (wp_block_to_arena_small s a x i d k); try done. wp_step. apply (wp_get_arena a x); [done|]. rewrite Hx.
    wp_step. apply (wp_get_desc i d); [done|]. by wp_step.
  - destruct Hb as [-> ->]. apply (wp_block_to_arena_big _ s Hok a x _ Ha Hx). wp_step. apply (wp_get_arena a x); [done|]. rewrite Hx.
    wp_step. destruct (mo_arena _ _ Hok a x Ha) as (P & (_ & _ & P3) & _). unfold arena_pages in *. rewrite Hx in *.
    pose proof (big_block_page s a x Hok Ha) as Hbig. unfold in_arena in Hbig. rewrite pg_ofs_mod.
    replace ((a + sizeof_arena) mod 4096) with sizeof_arena by (unfold sizeof_arena in *; lia).
    rewrite wrap32_small; [done|]. change PGSIZE with 4096. unfold sizeof_arena. lia.
Qed.

(** ** Properties *)

(** [malloc_init] makes the seven descriptors, of 16 to 1,024 bytes. *)
Lemma malloc_init_ok s : descs s = [] → arenas s = ∅ → pages_ok (pages s) →
  wp malloc_init (λ _ s', malloc_ok s' ∧ bytes s' = bytes s ∧ ∀ b n, ¬ live_block s' b n) s.
Proof.
  intros Hd Ha Hp. unfold malloc_init, wp. rewrite Hd.
  assert (E : init_descs 32 16 [] = Ok ((λ i, mk_desc (2 ^ (4 + Z.of_nat i)) (4084 / 2 ^ (4 + Z.of_nat i)) []) <$> seq 0 7)) by done.
  rewrite E. split; [|split; [done|]].
  - split; cbn [set_descs pages descs arenas]; [done| | | | |].
    + split; [done|]. intros i d (j & -> & Hj)%list_lookup_fmap_Some. apply lookup_seq in Hj as [-> _]. done.
    + intros a x. by rewrite Ha, lookup_empty.
    + intros a x a' x' q. by rewrite Ha, lookup_empty.
    + intros a x i. by rewrite Ha, lookup_empty.
    + intros i d (j & -> & Hj)%list_lookup_fmap_Some. cbn. split; [constructor|]. by intros b ?%not_elem_of_nil.
  - intros b n [(a & x & Hx & _) _]. cbn [set_descs arenas] in Hx. by rewrite Ha, lookup_empty in Hx.
Qed.

(** C32: [malloc] of a size up to 2^32 - 12 returns.  Either it returns a null
    pointer and the blocks in use are the same, or it returns a block of at
    least that size which overlaps no block in use, and the blocks in use are
    the old ones and this one.  No byte of a block changes and the allocator's
    invariant is kept. *)
Theorem malloc_correct s size : malloc_ok s → 0 < size ≤ 2 ^ 32 - 12 →
  ∃ p s', malloc size s = Ok (p, s') ∧ malloc_ok s' ∧ bytes s' = bytes s ∧
    (p = NULL ∧ (∀ b n, live_block s' b n ↔ live_block s b n) ∨
     ∃ n, size ≤ n ∧ 0 < p ∧ p + n ≤ 2 ^ 32 ∧ (∀ b m, live_block s b m → p + n ≤ b ∨ b + m ≤ p) ∧
       ∀ b m, live_block s' b m ↔ live_block s b m ∨ b = p ∧ m = n).
Proof.
  intros Hok Hsize. pose proof (wp_malloc_block s size Hok Hsize) as H. apply wp_Ok in H as (p & s' & E & Hok' & Hby & H).
  exists p, s'. split; [done|]. split; [done|]. split; [done|].
  destruct H as [[-> [_ H]]|(n & Hn & G1 & G2 & G3 & G4)]; [by left|]. right. by exists n.
Qed.

(** [free] of a block in use returns, takes exactly this block out of use
    and changes no byte outside it; a block that was its arena's last one in
    use gives the page back.  The invariant is kept. *)
Theorem free_correct s b n : malloc_ok s → live_block s b n →
  ∃ s', free b s = Ok (tt, s') ∧ malloc_ok s' ∧
    (∀ b' n', live_block s' b' n' ↔ live_block s b' n' ∧ b' ≠ b) ∧
    ∀ c, ¬ (b ≤ c < b + n) → bytes s' !! c = bytes s !! c.
Proof.
  intros Hok Hb. pose proof (wp_free s b n Hok Hb) as H. apply wp_Ok in H as ([] & s' & E & Hok' & H). by exists s'.
Qed.

(** [realloc] of a block in use to a size up to 2^32 - 12 returns.  Either
    it returns a null pointer, the blocks in use are the same and none of their
    bytes changes, or it returns a block of at least the new size that replaces
    the old one and starts with the old one's bytes, as far as both go; the
    other blocks in use keep their bytes. *)
Theorem realloc_correct s b n size : malloc_ok s → live_block s b n → 0 < size ≤ 2 ^ 32 - 12 →
  ∃ p s', realloc b size s = Ok (p, s') ∧ malloc_ok s' ∧
    (p = NULL ∧ bytes s' = bytes s ∧ (∀ b' m, live_block s' b' m ↔ live_block s b' m) ∨
     ∃ n', size ≤ n' ∧ 0 < p ∧
       (∀ b' m, live_block s' b' m ↔ live_block s b' m ∧ b' ≠ b ∨ b' = p ∧ m = n') ∧
       (∀ k, 0 ≤ k < Z.min size n → byte_at (bytes s') (p + k) = byte_at (bytes s) (b + k)) ∧
       ∀ b' m k, live_block s b' m → b' ≠ b → 0 ≤ k < m → bytes s' !! (b' + k) = bytes s !! (b' + k)).
Proof.
  intros Hok Hb Hsize. apply wp_Ok. unfold realloc. rewrite (proj2 (Z.eqb_neq size 0)) by lia. wp_step.
  eapply wp_mono; [by apply wp_malloc_block|]. intros p s1 (Hok1 & Hby & Hcase). wp_step.
  assert (Hb0 : b ≠ 0). { destruct Hb as [(a & x & Ha & Hin) _]. destruct (block_range _ s Hok a x b n Ha Hin). lia. }
  rewrite (proj2 (Z.eqb_neq b 0)) by done. destruct Hcase as [[-> [_ Hsame]]|(n' & Hn' & G1 & _ & G3 & G4)].
  { cbn. repeat wp_step. split; [done|]. by left. }
  rewrite (proj2 (Z.eqb_neq p 0)) by lia. cbn [negb andb when]. assert (Hb1 : live_block s1 b n) by (apply G4; by left).
  wp_step. apply (wp_block_size s1 b n); [done|apply Hb1|]. wp_step. unfold memcpy. wp_step. rewrite Hby.
  set (len := if size <? n then size else n). assert (Elen : len = Z.min size n) by (unfold len; destruct (Z.ltb_spec size n); lia).
  set (m := copy _ _ _ _ _). eapply wp_mono.
  { apply (wp_free _ b n); [by apply inv_set_bytes|exact Hb1]. }
  intros [] s2 (Hok2 & Hl & Hbytes). wp_step. cbn [set_bytes bytes] in Hbytes. split; [done|]. right. exists n'. split; [done|]. split; [done|].
  pose proof (G3 b n Hb) as Hpb. assert (Hpne : p ≠ b). { intros ->. destruct Hb as [(a & x & Ha & Hin) _].
    destruct (block_range _ s Hok a x b n Ha Hin) as (_ & _ & _ & ? & _). lia. }
  split; [|split].
  - intros b' n0. rewrite Hl. change (live_block (set_bytes m s1) b' n0) with (live_block s1 b' n0). rewrite G4.
    split; [naive_solver|]. intros [[? ?]|[-> ->]]; [naive_solver|]. split; [by right|done].
  - intros k Hk. unfold byte_at at 1. rewrite Hbytes by lia. unfold m. rewrite lookup_copy, decide_True by lia.
    cbn. f_equal. lia.
  - intros b' n0 k Hl' Hne Hk. pose proof (G3 b' n0 Hl'). rewrite Hbytes.
    + unfold m. rewrite lookup_copy, decide_False by lia. done.
    + pose proof (block_disjoint _ s Hok b' n0 b n (proj1 Hl') (proj1 Hb) Hne). lia.
Qed.

(** [calloc] of a product that fits gives a block of zeros. *)
Lemma calloc_correct s a b : malloc_ok s → 0 < a → 0 < b → a * b ≤ 2 ^ 32 - 12 →
  wp (calloc a b) (λ p s', malloc_ok s' ∧ (p = NULL ∧ same_blocks s s' ∨
    ∃ n, a * b ≤ n ∧ gained s s' p n ∧ (∀ k, 0 ≤ k < a * b → bytes s' !! (p + k) = Some 0) ∧
      ∀ c, ¬ (p ≤ c < p + a * b) → bytes s' !! c = bytes s !! c)) s.
Proof.
  intros Hok Ha Hb Hab. unfold calloc. cbv zeta. rewrite wrap32_small by nia.
  rewrite (proj2 (Z.ltb_ge (a * b) a)), (proj2 (Z.ltb_ge (a * b) b)) by nia. cbn [orb]. wp_step.
  eapply wp_mono; [apply wp_malloc_block; [done|nia]|]. intros p s1 (Hok1 & Hby & [[-> Hsame]|(n & Hn & G)]); cbn [Z.eqb negb when].
  - repeat wp_step. split; [done|]. by left.
  - pose proof (proj1 G). rewrite (proj2 (Z.eqb_neq p 0)) by lia. cbn [negb]. unfold memset. repeat wp_step.
    split; [by apply inv_set_bytes|]. right. exists n. split; [done|]. split; [exact G|]. split; intros k Hk; cbn [set_bytes bytes].
    + by rewrite lookup_fill, decide_True by lia.
    + by rewrite lookup_fill, decide_False, Hby by lia.
Qed.

(** A product that does not fit may pass [calloc]'s test: the request for
    65,537 times 65,537 bytes is served as one for 131,073 bytes. *)
Lemma calloc_unchecked s : calloc 65537 65537 s = calloc 131073 1 s.
Proof. reflexivity. Qed.

(** Room for the header wraps: the largest request is served as one for a byte. *)
Lemma malloc_big_wraps s : malloc_big (2 ^ 32 - 1) s = malloc_big 1 s.
Proof. reflexivity. Qed.
End malloc.

(** ** The page allocator *)

(** The page with number [q] is a page of the kernel pool in use. *)
Definition kernel_page_used (s : kernel) (q : Z) : bool :=
  let first := pg_no (base (kernel_pool s)) in
  (first <=? q) && (q <? first + bit_cnt (used_map (kernel_pool s))) && bit (used_map (kernel_pool s)) (q - first).

Lemma pool_page_run s i cnt : kernel_ok s → 0 ≤ i → 0 < cnt → i + cnt ≤ bit_cnt (used_map (kernel_pool s)) →
  page_run (pool_page (kernel_pool s) i) cnt ∧
  ∀ q, in_run (pool_page (kernel_pool s) i) cnt q = true ↔ i ≤ q - pg_no (base (kernel_pool s)) < i + cnt.
Proof.
  intros Hs Hi Hc Hn. pose proof (kok_pool _ Hs false) as Hp. cbn [get_pool] in Hp. pose proof (kok_ram _ Hs).
  pose proof (pool_cnt _ _ Hp ltac:(lia)). destruct (pool_page_no _ _ i Hp) as [En Hal]. pose proof (pok_base _ _ Hp) as [Hb _].
  rewrite PHYS_BASE_eq in Hb. split.
  - split; [|split; [done|]]; unfold pool_page; change PGSIZE with 4096; lia.
  - intros q. unfold in_run. rewrite pg_no_div in En. rewrite En, andb_true_iff. lia.
Qed.

Lemma kernel_get_pages s cnt (Q : Z → kernel → Prop) : kernel_ok s → 0 < cnt → Q NULL s →
  (∀ a s', kernel_ok s' → page_run a cnt → (∀ q, in_run a cnt q = true → kernel_page_used s q = false) →
     (∀ q, kernel_page_used s' q = kernel_page_used s q || in_run a cnt q) → Q a s') →
  wp (palloc_get_multiple 0 cnt) Q s.
Proof.
  intros Hs Hc HQ0 HQ1. apply wp_palloc_get_multiple; [done|done|]. cbv zeta. change (flag 0 PAL_USER) with false.
  change (flag 0 PAL_ZERO) with false. cbn [get_pool]. split; [done|]. intros i s' Hg Hal.
  destruct Hg as (H0 & H1 & Hall & _). destruct (pool_page_run s i cnt Hs H0 Hc H1) as [Hrun Hin].
  pose proof (allocated_ok _ _ _ _ _ _ Hs Hal) as Hs'. destruct Hal as (b & _ & [Hsz _] & Hb & ->).
  apply HQ1; [done|done| |].
  - intros q Hq. apply Hin in Hq. unfold kernel_page_used. cbv zeta. rewrite Hall by lia. apply andb_false_r.
  - intros q. unfold kernel_page_used. cbn [set_mem set_pool kernel_pool used_map base get_pool] in *. rewrite Hsz.
    set (f := pg_no (base (kernel_pool s))) in *. destruct (in_run (pool_page (kernel_pool s) i) cnt q) eqn:E.
    + apply Hin in E. rewrite orb_true_r. rewrite Hb, decide_True by lia.
      rewrite (proj2 (Z.leb_le f q)), (proj2 (Z.ltb_lt q _)) by lia. done.
    + rewrite orb_false_r. destruct (Z.leb_spec f q); [|done]. cbn [andb]. f_equal. rewrite Hb by lia.
      rewrite decide_False; [done|]. intros Hq. apply Hin in Hq. congruence.
Qed.

Lemma kernel_free_pages s a cnt (Q : unit → kernel → Prop) : kernel_ok s → 0 < cnt → page_run a cnt →
  (∀ q, in_run a cnt q = true → kernel_page_used s q = true) →
  (∀ s', kernel_ok s' → (∀ q, kernel_page_used s' q = kernel_page_used s q && negb (in_run a cnt q)) → Q tt s') →
  wp (palloc_free_multiple a cnt) Q s.
Proof.
  intros Hs Hc (R1 & R2 & R3) Hused HQ. set (f := pg_no (base (kernel_pool s))).
  assert (Hu : ∀ q, a / 4096 ≤ q < a / 4096 + cnt →
    f ≤ q < f + bit_cnt (used_map (kernel_pool s)) ∧ bit (used_map (kernel_pool s)) (q - f) = true).
  { intros q Hq. assert (H : kernel_page_used s q = true) by (apply Hused; unfold in_run; apply andb_true_iff; lia).
    unfold kernel_page_used in H. cbv zeta in H. fold f in H. rewrite !andb_true_iff in H. destruct H as [[? ?] ?]. split; [lia|done]. }
  set (i := a / 4096 - f). pose proof (Hu (a / 4096) ltac:(lia)) as [Hf _]. pose proof (Hu (a / 4096 + cnt - 1) ltac:(lia)) as [Hl _].
  pose proof (kok_pool _ Hs false) as Hp. cbn [get_pool] in Hp.
  assert (Ea : a = pool_page (kernel_pool s) i).
  { destruct (pok_base _ _ Hp) as [_ Hal]. unfold aligned in Hal. unfold pool_page, i, f. rewrite pg_no_div. change PGSIZE with 4096. div_lia. }
  destruct (pool_page_run s i cnt Hs ltac:(lia) Hc ltac:(lia)) as [_ Hin]. fold f in Hin. rewrite <-Ea in Hin. rewrite Ea at 1.
  eapply wp_mono; [apply (wp_palloc_free_multiple false i cnt s Hs); [lia|done|cbn [get_pool]; lia|]|].
  { intros j Hj. cbn [get_pool]. replace j with (j + f - f) by lia. apply Hu. lia. }
  intros [] s' Hrel. pose proof (released_ok _ _ _ _ _ Hs Hrel) as Hs'. destruct Hrel as (b & _ & [Hsz _] & Hb & ->).
  apply HQ; [done|]. intros q. unfold kernel_page_used. cbn [set_mem set_pool kernel_pool used_map base get_pool] in *. fold f. rewrite Hsz.
  destruct (in_run a cnt q) eqn:E; cbn [negb].
  - apply Hin in E. rewrite Hb, decide_True by lia. by rewrite !andb_false_r.
  - rewrite andb_true_r. destruct (Z.leb_spec f q); [|done]. cbn [andb]. f_equal. rewrite Hb by lia.
    rewrite decide_False; [done|]. intros Hq. apply Hin in Hq. congruence.
Qed.

#[export] Instance palloc_pages : PageAllocator kernel := {
  get_pages := palloc_get_multiple 0;
  free_pages := palloc_free_multiple;
  pages_ok := kernel_ok;
  page_used := kernel_page_used;
  get_no_pages s := eq_refl;
  wp_get_pages := kernel_get_pages;
  wp_free_pages := kernel_free_pages
}.

(** The allocator over the machine of 300 pages, before its first use. *)
Definition example_kheap : mstate := mk_mstate example_kernel
  ((λ i, mk_desc (2 ^ (4 + Z.of_nat i)) (4084 / 2 ^ (4 + Z.of_nat i)) []) <$> seq 0 7) ∅ ∅.

Lemma example_kheap_ok : malloc_ok example_kheap.
Proof.
  pose proof (malloc_init_ok (mk_mstate example_kernel [] ∅ ∅) eq_refl eq_refl example_kernel_ok) as H.
  apply wp_Ok in H as ([] & s & [= <-] & Hok & _). exact Hok.
Qed.

Definition run_state {S A} (m : M S A) (s : S) : S := match m s with Ok (_, s') => s' | Err _ => s end.
Definition run_value {S} (m : M S Z) (s : S) : Z := match m s with Ok (v, _) => v | Err _ => 0 end.

(** After the first request, for 100 bytes. *)
Definition example_kheap1 : mstate := run_state (malloc 100) example_kheap.

Lemma example_kheap1_ok : malloc_ok example_kheap1 ∧ ∃ n, 100 ≤ n ∧ live_block example_kheap1 0xc010400c n.
Proof.
  pose proof (wp_malloc_block example_kheap 100 example_kheap_ok ltac:(lia)) as H. destruct (proj1 (wp_Ok _ _ _) H) as (p & s' & E & Hok & _ & H1); clear H; rename H1 into H.
  assert (Ep : run_value (malloc 100) example_kheap = 0xc010400c) by (vm_compute; reflexivity).
  unfold run_value in Ep. rewrite E in Ep. unfold example_kheap1, run_state. rewrite E. split; [done|].
  destruct H as [[Hn _]|(n & Hn & _ & _ & _ & Hl)]; [rewrite Hn in Ep; discriminate Ep|]. exists n. split; [done|]. apply Hl. right. by split.
Qed.

Lemma malloc_correct_witness : ∃ s', malloc 100 example_kheap = Ok (0xc010400c, s') ∧ malloc_ok s'.
Proof.
  destruct (malloc_correct example_kheap 100 example_kheap_ok ltac:(lia)) as (p & s' & E & Hok & _).
  assert (Ep : run_value (malloc 100) example_kheap = 0xc010400c) by (vm_compute; reflexivity).
  unfold run_value in Ep. rewrite E in Ep. exists s'. rewrite E, Ep. split; [reflexivity|exact Hok].
Defined.

Lemma free_correct_witness : ∃ n s', live_block example_kheap1 0xc010400c n ∧
  free 0xc010400c example_kheap1 = Ok (tt, s') ∧ ¬ live_block s' 0xc010400c n.
Proof.
  destruct example_kheap1_ok as [Hok (n & _ & Hl)].
  destruct (free_correct example_kheap1 0xc010400c n Hok Hl) as (s' & E & _ & Hlost & _).
  exists n, s'. split; [exact Hl|]. split; [exact E|]. intros H. apply Hlost in H as [_ H]. by apply H.
Defined.

Lemma realloc_correct_witness : ∃ s', realloc 0xc010400c 5000 example_kheap1 = Ok (0xc010500c, s') ∧ malloc_ok s'.
Proof.
  destruct example_kheap1_ok as [Hok (n & _ & Hl)].
  destruct (realloc_correct example_kheap1 0xc010400c n 5000 Hok Hl ltac:(lia)) as (p & s' & E & Hok' & _).
  assert (Ep : run_value (realloc 0xc010400c 5000) example_kheap1 = 0xc010500c) by (vm_compute; reflexivity).
  unfold run_value in Ep. rewrite E in Ep. exists s'. rewrite E, Ep. split; [reflexivity|exact Hok'].
Defined.
