(* ===== verification/Stdio.v ===== *)
(** * Formatted output ([lib/stdio.c], [lib/kernel/console.c])

    A format is the list of its bytes before the terminating null byte.  The
    variable arguments are a list of 32-bit words, as they lie on the stack of
    the 80x86, in which a pointer to a string stands for the bytes of the
    string.  [output] is the function the caller passes to [__vprintf]. *)
From Stdlib Require Import Strings.String Strings.Ascii.
From S2P Require Import Prelude Bytes CString CStdlib.
#[local] Open Scope Z_scope.

(** String literals. *)
Definition text (s : string) : list Z := (λ c, Z.of_N (N_of_ascii c)) <$> list_ascii_of_string s.

Inductive arg :=
  | Word (w : Z)
  | Str (s : option (list Z)).

(** ** Conversions *)

Definition MINUS : Z := 1.
Definition PLUS : Z := 2.
Definition SPACE : Z := 4.
Definition POUND : Z := 8.
Definition ZERO : Z := 16.
Definition GROUP : Z := 32.

Inductive conv_type := CHAR | SHORT | INT | INTMAX | LONG | LONGLONG | PTRDIFFT | SIZET.

Record printf_conversion := mk_conv { flags : Z; width : Z; precision : Z; type : conv_type }.

Definition has (flags f : Z) : bool := negb (Z.land flags f =? 0).

Record integer_base := mk_base { base : Z; base_digits : list Z; base_x : Z; group : Z }.

Definition base_d : integer_base := mk_base 10 (text "0123456789") 0 3.
Definition base_o : integer_base := mk_base 8 (text "01234567") 0 3.
Definition base_x16 : integer_base := mk_base 16 (text "0123456789abcdef") 120 4.
Definition base_X16 : integer_base := mk_base 16 (text "0123456789ABCDEF") 88 4.

(** [*format]; the null byte ends the format. *)
Definition cur (format : list Z) : Z := default 0 (head format).

(** ** Arguments *)

Definition va_word (args : list arg) : result (Z * list arg) :=
  match args with Word w :: args => Ok (wrap32 w, args) | _ => Err BadAccess end.
Definition va_int (args : list arg) : result (Z * list arg) :=
  '(w, args) ← va_word args; Ok (int32 w, args).
(** A 64-bit argument takes two words, the low one first. *)
Definition va_word64 (args : list arg) : result (Z * list arg) :=
  '(lo, args) ← va_word args; '(hi, args) ← va_word args; Ok (lo + hi * 2 ^ 32, args).
Definition va_string (args : list arg) : result (option (list Z) * list arg) :=
  match args with Str s :: args => Ok (s, args) | _ => Err BadAccess end.

(** The value of a [d] or [i] conversion, an [intmax_t]. *)
Definition signed_arg (t : conv_type) (args : list arg) : result (Z * list arg) :=
  match t with
  | CHAR => '(v, args) ← va_int args; Ok (signed 8 v, args)
  | SHORT => '(v, args) ← va_int args; Ok (signed 16 v, args)
  | INT | LONG | PTRDIFFT => va_int args
  | INTMAX | LONGLONG => '(v, args) ← va_word64 args; Ok (int64 v, args)
  | SIZET => '(v, args) ← va_word args;
      Ok (if (2 ^ 32 - 1) / 2 <? v then v - (2 ^ 32 - 1) - 1 else v, args)
  end.

(** The value of an [o], [u], [x] or [X] conversion, a [uintmax_t]. *)
Definition unsigned_arg (t : conv_type) (args : list arg) : result (Z * list arg) :=
  match t with
  | CHAR => '(v, args) ← va_word args; Ok (wrap8 v, args)
  | SHORT => '(v, args) ← va_word args; Ok (v mod 2 ^ 16, args)
  | INT | LONG | SIZET => va_word args
  | INTMAX | LONGLONG => va_word64 args
  | PTRDIFFT => '(v, args) ← va_int args; Ok (Z.land (wrap64 v) (Z.lor (Z.shiftl (2 ^ 31 - 1) 1) 1), args)
  end.

(** ** [parse_conversion] *)

Definition flag_of (c : Z) : option Z :=
  if c =? 45 then Some MINUS else if c =? 43 then Some PLUS else if c =? 32 then Some SPACE
  else if c =? 35 then Some POUND else if c =? 48 then Some ZERO else if c =? 39 then Some GROUP
  else None.

Fixpoint parse_flags (format : list Z) (flags : Z) : Z * list Z :=
  match format with
  | [] => (flags, [])
  | c :: rest => match flag_of c with Some f => parse_flags rest (Z.lor flags f) | None => (flags, format) end
  end.

Fixpoint parse_number (format : list Z) (n : Z) : Z * list Z :=
  match format with
  | [] => (n, [])
  | c :: rest => if isdigit c then parse_number rest (int32 (n * 10 + c - 48)) else (n, format)
  end.

Definition clear (flags f : Z) : Z := Z.land flags (Z.lnot f).

Definition parse_type (format : list Z) : conv_type * list Z :=
  let c := cur format in
  if c =? 104 then if cur (tl format) =? 104 then (CHAR, tl (tl format)) else (SHORT, tl format)
  else if c =? 106 then (INTMAX, tl format)
  else if c =? 108 then if cur (tl format) =? 108 then (LONGLONG, tl (tl format)) else (LONG, tl format)
  else if c =? 116 then (PTRDIFFT, tl format)
  else if c =? 122 then (SIZET, tl format)
  else (INT, format).

Definition parse_conversion (format : list Z) (args : list arg)
    : result (printf_conversion * list Z * list arg) :=
  let '(flags, format) := parse_flags format 0 in
  let flags := if has flags MINUS then clear flags ZERO else flags in
  let flags := if has flags PLUS then clear flags SPACE else flags in
  '(width, format, args) ←
    (if cur format =? 42 then '(w, args) ← va_int args; Ok (w, tl format, args)
     else let '(w, format) := parse_number format 0 in Ok (w, format, args));
  let '(width, flags) := if width <? 0 then (int32 (- width), Z.lor flags MINUS) else (width, flags) in
  '(precision, format, args) ←
    (if cur format =? 46 then
       let format := tl format in
       '(p, format, args) ←
         (if cur format =? 42 then '(p, args) ← va_int args; Ok (p, tl format, args)
          else let '(p, format) := parse_number format 0 in Ok (p, format, args));
       Ok (if p <? 0 then -1 else p, format, args)
     else Ok (-1, format, args));
  let flags := if 0 <=? precision then clear flags ZERO else flags in
  let '(type, format) := parse_type format in
  Ok (mk_conv flags width precision type, format, args).

(** ** The digits of an integer *)

(** [*cp++ = c] in [char buf[64]]. *)
Definition push (buf : list Z) (c : Z) : result (list Z) :=
  if len buf <? 64 then Ok (buf ++ [c]) else Err BadAccess.

Fixpoint put_digits (fuel : nat) (b : integer_base) (grouped : bool) (value digit_cnt : Z) (buf : list Z)
    : result (list Z) :=
  match fuel with
  | O => Err OutOfFuel
  | S fuel =>
      if 0 <? value then
        buf ← (if grouped && (0 <? digit_cnt) && (digit_cnt mod group b =? 0) then push buf 44 else Ok buf);
        buf ← push buf (default 0 (base_digits b !! Z.to_nat (value mod base b)));
        put_digits fuel b grouped (value / base b) (digit_cnt + 1) buf
      else Ok buf
  end.

Fixpoint put_zeros (fuel : nat) (precision : Z) (buf : list Z) : result (list Z) :=
  match fuel with
  | O => Err OutOfFuel
  | S fuel =>
      if (len buf <? precision) && (len buf <? 64 - 1)
      then buf ← push buf 48; put_zeros fuel precision buf else Ok buf
  end.

Definition sign_char (is_signed negative : bool) (flags : Z) : Z :=
  if is_signed then
    if has flags PLUS then if negative then 45 else 43
    else if has flags SPACE then if negative then 45 else 32
    else if negative then 45 else 0
  else 0.

(** ** Output *)

Section printf.
Context {St : Type} (output : Z → M St unit).

Definition output_dup (ch cnt : Z) : M St unit := for_loop (Z.to_nat cnt) 0 (λ _, output ch).

Fixpoint output_all (l : list Z) : M St unit :=
  match l with [] => mret tt | c :: l => output c ;; output_all l end.

(** A step that does no output. *)
Definition pure {A} (r : result A) : M St A := λ s, match r with Ok a => Ok (a, s) | Err f => Err f end.

Definition format_integer (value : Z) (is_signed negative : bool) (b : integer_base) (c : printf_conversion)
    : M St unit :=
  let sign := sign_char is_signed negative (flags c) in
  let x := if has (flags c) POUND && negb (value =? 0) then base_x b else 0 in
  buf ← pure (put_digits 65 b (has (flags c) GROUP) value 0 []);
  let precision := if precision c <? 0 then 1 else precision c in
  buf ← pure (put_zeros 65 precision buf);
  buf ← pure (if has (flags c) POUND && (base b =? 8) && (bool_decide (buf = []) || negb (default 0 (last buf) =? 48))
              then push buf 48 else Ok buf);
  let pad_cnt := int32 (width c - len buf - (if negb (x =? 0) then 2 else 0) - (if negb (sign =? 0) then 1 else 0)) in
  let pad_cnt := if pad_cnt <? 0 then 0 else pad_cnt in
  when (negb (has (flags c) (Z.lor MINUS ZERO))) (output_dup 32 pad_cnt) ;;
  when (negb (sign =? 0)) (output sign) ;;
  when (negb (x =? 0)) (output 48 ;; output x) ;;
  when (has (flags c) ZERO) (output_dup 48 pad_cnt) ;;
  output_all (reverse buf) ;;
  when (has (flags c) MINUS) (output_dup 32 pad_cnt).

(** The [length] characters of [string]. *)
Definition format_string (string : list Z) (length : Z) (c : printf_conversion) : M St unit :=
  when ((length <? width c) && negb (has (flags c) MINUS)) (output_dup 32 (width c - length)) ;;
  output_all (take (Z.to_nat length) string) ;;
  when ((length <? width c) && has (flags c) MINUS) (output_dup 32 (width c - length)).

(** [strnlen] of the string and the precision, an [int] made a [size_t]. *)
Definition string_length (string : list Z) (precision : Z) : Z := int32 (Z.min (len string) (wrap32 precision)).

(** The body of the loop of [__vprintf] at the character [ch]: the format and
    the arguments after it.  [nested] is [__printf]. *)
Definition vprintf_body (nested : list Z → list arg → M St unit) (ch : Z) (rest : list Z) (args : list arg)
    : M St (list Z * list arg) :=
  if negb (ch =? 37) then output ch ;; mret (ch :: rest, args)
  else if cur rest =? 37 then output 37 ;; mret (rest, args)
  else
    '(c, format, args) ← pure (parse_conversion rest args);
    let k := cur format in
    if (k =? 100) || (k =? 105) then
      '(value, args) ← pure (signed_arg (type c) args);
      format_integer (wrap64 (if value <? 0 then - value else value)) true (value <? 0) base_d c ;;
      mret (format, args)
    else if (k =? 111) || (k =? 117) || (k =? 120) || (k =? 88) then
      '(value, args) ← pure (unsigned_arg (type c) args);
      let b := if k =? 111 then base_o else if k =? 117 then base_d else if k =? 120 then base_x16 else base_X16 in
      format_integer value false false b c ;;
      mret (format, args)
    else if k =? 99 then
      '(ch, args) ← pure (va_int args);
      format_string [wrap8 ch] 1 c ;;
      mret (format, args)
    else if k =? 115 then
      '(s, args) ← pure (va_string args);
      let s := match s with Some s => s | None => text "(null)" end in
      format_string s (string_length s (precision c)) c ;;
      mret (format, args)
    else if k =? 112 then
      '(p, args) ← pure (va_word args);
      format_integer p false false base_x16 (mk_conv POUND (width c) (precision c) (type c)) ;;
      mret (format, args)
    else if (k =? 102) || (k =? 101) || (k =? 69) || (k =? 103) || (k =? 71) || (k =? 110) then
      nested (text "<<no %%%c in kernel>>") [Word (signed 8 k)] ;; mret (format, args)
    else
      nested (text "<<no %%%c conversion>>") [Word (signed 8 k)] ;; mret (format, args).

(** [format++] after the body reads past the end when the format ends inside a
    conversion. *)
Fixpoint vprintf_loop (nested : list Z → list arg → M St unit) (fuel : nat) (format : list Z) (args : list arg)
    : M St unit :=
  match fuel with
  | O => throw OutOfFuel
  | S fuel =>
      match format with
      | [] => mret tt
      | ch :: rest =>
          '(format, args) ← vprintf_body nested ch rest args;
          match format with
          | [] => throw BadAccess
          | _ :: format => vprintf_loop nested fuel format args
          end
      end
  end.

(** The nested call has only %% and %c in its format and does not nest again. *)
Fixpoint vprintf_depth (depth : nat) (format : list Z) (args : list arg) : M St unit :=
  vprintf_loop (match depth with O => λ _ _, throw OutOfFuel | S depth => vprintf_depth depth end)
    (S (length format)) format args.

Definition __vprintf (format : list Z) (args : list arg) : M St unit := vprintf_depth 1 format args.
Definition __printf (format : list Z) (args : list arg) : M St unit := __vprintf format args.
End printf.

(** ** [vsnprintf] *)

Record vsnprintf_aux := mk_aux { aux_mem : mem; aux_p : Z; aux_length : Z; aux_max_length : Z }.

Definition vsnprintf_helper (ch : Z) : M vsnprintf_aux unit := λ a,
  let more := aux_length a <? aux_max_length a in
  let length := int32 (aux_length a + 1) in
  if more then
    match store (aux_p a) ch (aux_mem a) with
    | Ok (_, m) => Ok (tt, mk_aux m (aux_p a + 1) length (aux_max_length a))
    | Err f => Err f
    end
  else Ok (tt, mk_aux (aux_mem a) (aux_p a) length (aux_max_length a)).

Definition vsnprintf (buffer buf_size : Z) (format : list Z) (args : list arg) : M mem Z := λ m,
  let max_length := int32 (if 0 <? buf_size then buf_size - 1 else 0) in
  match __vprintf vsnprintf_helper format args (mk_aux m buffer 0 max_length) with
  | Ok (_, a) => (when (0 <? buf_size) (store (aux_p a) 0) ;; mret (aux_length a)) (aux_mem a)
  | Err f => Err f
  end.
Definition snprintf (buffer buf_size : Z) (format : list Z) (args : list arg) : M mem Z :=
  vsnprintf buffer buf_size format args.

(** ** The console

    What was written to the display and the serial line, and the counters; the
    console lock is left out. *)

Record console := mk_console { console_text : list Z; write_cnt : Z }.

Definition putchar_have_lock (c : Z) : M console unit :=
  modify (λ s, mk_console (console_text s ++ [wrap8 c]) (int64 (write_cnt s + 1))).

Definition vprintf_helper (c : Z) : M (console * Z) unit := λ s,
  match putchar_have_lock c s.1 with
  | Ok (_, con) => Ok (tt, (con, int32 (s.2 + 1)))
  | Err f => Err f
  end.

Definition vprintf (format : list Z) (args : list arg) : M console Z := λ con,
  match __vprintf vprintf_helper format args (con, 0) with
  | Ok (_, (con, char_cnt)) => Ok (char_cnt, con)
  | Err f => Err f
  end.
Definition printf (format : list Z) (args : list arg) : M console Z := vprintf format args.

Definition putchar (c : Z) : M console Z := putchar_have_lock c ;; mret c.
Definition putbuf (buffer : list Z) (n : Z) : M console unit := output_all putchar_have_lock (take (Z.to_nat n) buffer).
Definition puts (s : list Z) : M console Z := output_all putchar_have_lock s ;; putchar_have_lock 10 ;; mret 0.

Definition print (format : list Z) (args : list arg) : M console unit := printf format args ;; mret tt.

Definition isprint (c : Z) : bool := (32 <=? c) && (c <? 127).

(** A line of [hex_dump]: the bytes of [buf] at columns [start .. end). *)
Definition hex_line (ofs : Z) (buf : list Z) (start end_ : Z) (ascii : bool) : M console unit :=
  let byte i := default 0 (buf !! Z.to_nat (i - start)) in
  let per_line := 16 in
  let line := ofs - ofs mod per_line in
  print (text "%08jx  ") [Word line; Word 0] ;;
  for_loop (Z.to_nat start) 0 (λ _, print (text "   ") []) ;;
  for_loop (Z.to_nat (end_ - start)) start (λ i,
    print (text "%02hhx%c") [Word (byte i); Word (if i =? per_line / 2 - 1 then 45 else 32)]) ;;
  when ascii (
    for_loop (Z.to_nat (per_line - end_)) end_ (λ _, print (text "   ") []) ;;
    print (text "|") [] ;;
    for_loop (Z.to_nat start) 0 (λ _, print (text " ") []) ;;
    for_loop (Z.to_nat (end_ - start)) start (λ i,
      print (text "%c") [Word (if isprint (byte i) then byte i else 46)]) ;;
    for_loop (Z.to_nat (per_line - end_)) end_ (λ _, print (text " ") []) ;;
    print (text "|") []) ;;
  print [10] [].

Fixpoint hex_dump_loop (fuel : nat) (ofs : Z) (buf : list Z) (size : Z) (ascii : bool) : M console unit :=
  match fuel with
  | O => throw OutOfFuel
  | S fuel =>
      if 0 <? size then
        let start := ofs mod 16 in
        let end_ := if size <? 16 - start then start + size else 16 in
        let n := end_ - start in
        hex_line ofs buf start end_ ascii ;;
        hex_dump_loop fuel (wrap32 (ofs + n)) (drop (Z.to_nat n) buf) (size - n) ascii
      else mret tt
  end.
Definition hex_dump (ofs : Z) (buf : list Z) (size : Z) (ascii : bool) : M console unit :=
  hex_dump_loop (S (Z.to_nat size)) ofs buf size ascii.

Definition factors : list (list Z) := [text "bytes"; text "kB"; text "MB"; text "GB"; text "TB"].

Fixpoint scale_size (size : Z) (fp : list (list Z)) : Z * list Z :=
  match fp with
  | [] => (size, [])
  | [f] => (size, f)
  | f :: fp => if 1024 <=? size then scale_size (size / 1024) fp else (size, f)
  end.

Definition print_human_readable_size (size : Z) : M console unit :=
  if size =? 1 then print (text "1 byte") [] else
  let '(size, unit) := scale_size size factors in
  print (text "%llu %s") [Word size; Word (size / 2 ^ 32); Str (Some unit)].

(** What the console shows. *)
Definition shown {A} (m : M console A) : result (list Z) :=
  match m (mk_console [] 0) with Ok (_, c) => Ok (console_text c) | Err f => Err f end.

Example printf_1 : shown (printf (text "%d%% of %5s|%-5s|%05d|%+i|%#x|%X|%p|%c") [Word 42; Str (Some (text "abc"));
    Str (Some (text "xy")); Word (-37); Word 7; Word 255; Word 48879; Word 4096; Word 65]) =
  Ok (text "42% of   abc|xy   |-0037|+7|0xff|BEEF|0x1000|A").
Proof. vm_compute. reflexivity. Qed.

Example printf_2 : shown (printf (text "%'d %'llx %.3d %.2s %*d %hhd %s %f %y") [Word 1234567; Word 0x89abcdef; Word 0x1234567;
    Word 5; Str (Some (text "abc")); Word (-4); Word 9; Word 255; Str None]) =
  Ok (text "1,234,567 123,4567,89ab,cdef 005 ab 9    -1 (null) <<no %f in kernel>> <<no %y conversion>>").
Proof. vm_compute. reflexivity. Qed.

Example hex_dump_1 : shown (hex_dump 5 (text "Hello, world!") 13 true) =
  Ok (text "00000000                 48 65 6c-6c 6f 2c 20 77 6f 72 6c |     Hello, worl|" ++ [10] ++
      text "00000010  64 21                                           |d!              |" ++ [10]).
Proof. vm_compute. reflexivity. Qed.

Example human_readable_1 : shown (print_human_readable_size 262144) = Ok (text "256 kB").
Proof. vm_compute. reflexivity. Qed.

(** ** What is written does not depend on where it goes *)

(** [traced output m m']: whenever [m] appends [w] to what was written so far
    and returns a value, [m'] hands the characters of [w] to [output] one by one
    and returns the same value. *)
Definition collect (c : Z) : M (list Z) unit := modify (λ l, l ++ [c]).

Definition traced {St A} (output : Z → M St unit) (m : M (list Z) A) (m' : M St A) : Prop :=
  ∀ l a l', m l = Ok (a, l') → ∃ w, l' = l ++ w ∧ ∀ s, m' s = (output_all output w ;; mret a) s.

Section traced.
Context {St : Type} (output : Z → M St unit).

Lemma output_all_app l1 l2 s : output_all output (l1 ++ l2) s = (output_all output l1 ;; output_all output l2) s.
Proof.
  revert s. induction l1 as [|c l1 IH]; intros s; [done|]. cbn [app output_all]. unfold mbind, M_bind in *.
  destruct (output c s) as [[[] s']|]; [|done]. rewrite IH. by destruct (output_all output l1 s') as [[[] s'']|].
Qed.

Lemma traced_ret {A} (a : A) : traced output (mret a) (mret a).
Proof. intros l x l' [= <- <-]. exists []. split; [by rewrite app_nil_r|done]. Qed.

Lemma traced_throw {A} f (m' : M St A) : traced output (throw f) m'.
Proof. intros l x l' [=]. Qed.

Lemma traced_pure {A} (r : result A) : traced output (pure r) (pure r).
Proof. intros l x l' H. unfold pure in *. destruct r; [|done]. injection H as <- <-. exists []. split; [by rewrite app_nil_r|done]. Qed.

Lemma traced_output c : traced output (collect c) (output c).
Proof.
  intros l x l' [= <- <-]. exists [c]. split; [done|]. intros s. cbn [output_all]. unfold mbind, M_bind.
  by destruct (output c s) as [[[] s']|].
Qed.

Lemma traced_bind {A B} (m : M (list Z) A) m' (k : A → M (list Z) B) k' :
  traced output m m' → (∀ a, traced output (k a) (k' a)) → traced output (m ≫= k) (m' ≫= k').
Proof.
  intros Hm Hk l b l2 H. unfold mbind, M_bind in H. destruct (m l) as [[a l1]|f] eqn:E; [|done].
  destruct (Hm _ _ _ E) as (w1 & -> & H1). destruct (Hk _ _ _ _ H) as (w2 & -> & H2).
  exists (w1 ++ w2). split; [by rewrite app_assoc|]. intros s. unfold mbind, M_bind at 1. rewrite H1. unfold mbind, M_bind at 2.
  rewrite output_all_app. unfold mbind, M_bind. destruct (output_all output w1 s) as [[[] s1]|]; [|done].
  unfold mret, M_ret. by rewrite H2.
Qed.

Lemma traced_when b m m' : traced output m m' → traced output (when b m) (when b m').
Proof. intros H. destruct b; [done|apply traced_ret]. Qed.

Lemma traced_for_loop n i (body : Z → M (list Z) unit) body' :
  (∀ j, traced output (body j) (body' j)) → traced output (for_loop n i body) (for_loop n i body').
Proof.
  intros H. revert i. induction n as [|n IH]; intros i; cbn [for_loop]; [apply traced_ret|]. apply traced_bind; [done|]. intros _. apply IH.
Qed.

Lemma traced_output_all w : traced output (output_all collect w) (output_all output w).
Proof.
  induction w as [|c w IH]; cbn [output_all]; [apply traced_ret|]. apply traced_bind; [apply traced_output|done].
Qed.

Lemma traced_dup ch n : traced output (output_dup collect ch n) (output_dup output ch n).
Proof. apply traced_for_loop. intros _. apply traced_output. Qed.

#[local] Hint Resolve traced_ret traced_throw traced_pure traced_output traced_bind traced_when traced_for_loop
  traced_output_all traced_dup : traced.

Lemma traced_format_integer v sg neg b c :
  traced output (format_integer collect v sg neg b c) (format_integer output v sg neg b c).
Proof. unfold format_integer. cbv zeta. repeat (apply traced_bind; [|intros ?]); auto with traced. Qed.

Lemma traced_format_string s n c : traced output (format_string collect s n c) (format_string output s n c).
Proof. unfold format_string. repeat (apply traced_bind; [|intros ?]); auto with traced. Qed.

#[local] Hint Resolve traced_format_integer traced_format_string : traced.

Lemma traced_body nested nested' ch rest args : (∀ f a, traced output (nested f a) (nested' f a)) →
  traced output (vprintf_body collect nested ch rest args) (vprintf_body output nested' ch rest args).
Proof.
  intros Hn. unfold vprintf_body. cbv zeta.
  repeat (case_match || (apply traced_bind; [|intros ?])); auto with traced.
Qed.

Lemma traced_loop nested nested' fuel format args : (∀ f a, traced output (nested f a) (nested' f a)) →
  traced output (vprintf_loop collect nested fuel format args) (vprintf_loop output nested' fuel format args).
Proof.
  intros Hn. revert format args. induction fuel as [|fuel IH]; intros format args; cbn [vprintf_loop]; [apply traced_throw|].
  destruct format as [|ch rest]; [apply traced_ret|]. apply traced_bind; [by apply traced_body|]. intros [format' args'].
  destruct format'; [apply traced_throw|apply IH].
Qed.

Lemma traced_vprintf format args : traced output (__vprintf collect format args) (__vprintf output format args).
Proof.
  unfold __vprintf. cbn [vprintf_depth]. apply traced_loop. intros f a. apply traced_loop. intros f' a'. apply traced_throw.
Qed.
End traced.

(** The text that a format and its arguments stand for. *)
Definition format_text (format : list Z) (args : list arg) : result (list Z) :=
  match __vprintf collect format args [] with Ok (_, l) => Ok l | Err f => Err f end.

Lemma vprintf_text {St} (output : Z → M St unit) format args w : format_text format args = Ok w →
  ∀ s, __vprintf output format args s = output_all output w s.
Proof.
  unfold format_text. destruct (__vprintf collect format args []) as [[[] l]|] eqn:E; [|done]. intros [= ->] s.
  destruct (traced_vprintf output format args _ _ _ E) as (w' & -> & H). rewrite H. cbn [app]. unfold mbind, M_bind.
  by destruct (output_all output w' s) as [[[] s']|].
Qed.

(** ** [vsnprintf] writes a prefix of the text *)

Lemma output_all_helper w m p k n : 0 ≤ k → k + len w < 2 ^ 31 →
  (∀ i, 0 ≤ i < Z.min (len w) (n - k) → is_Some (m !! (p + i))) →
  ∃ m', output_all vsnprintf_helper w (mk_aux m p k n) =
      Ok (tt, mk_aux m' (p + len (take (Z.to_nat (n - k)) w)) (k + len w) n) ∧
    upd m p (take (Z.to_nat (n - k)) w) m'.
Proof.
  revert m p k. induction w as [|c w IH]; intros m p k Hk Hlen Hm.
  { exists m. rewrite take_nil. split; [|apply upd_nil]. change (len (@nil Z)) with 0. by rewrite !Z.add_0_r. }
  rewrite length_cons in *. cbn [output_all]. unfold mbind, M_bind, vsnprintf_helper at 1. cbn [aux_length aux_max_length aux_p aux_mem].
  rewrite (signed_small 32) by lia. destruct (Z.ltb_spec k n) as [Hlt|Hge].
  - assert (Hs : is_Some (m !! p)) by (replace p with (p + 0) by lia; apply Hm; lia). destruct Hs as [x Hx].
    unfold store. rewrite Hx. destruct (IH (<[p := c]> m) (p + 1) (k + 1)) as (m' & -> & Hu); [lia|lia| |].
    { intros i Hi. replace (p + 1 + i) with (p + (i + 1)) by lia. rewrite lookup_insert_ne by lia. apply Hm. lia. }
    replace (Z.to_nat (n - k)) with (S (Z.to_nat (n - (k + 1)))) by lia. cbn [take]. rewrite length_cons.
    exists m'. split; [do 3 f_equal; lia|].
    apply (upd_app m p [c] (take (Z.to_nat (n - (k + 1))) w) (<[p := c]> m) m'); [apply upd_insert|done].
  - destruct (IH m p (k + 1)) as (m' & -> & Hu); [lia|lia|intros i Hi; lia|].
    replace (Z.to_nat (n - (k + 1))) with O in * by lia. replace (Z.to_nat (n - k)) with O by lia. rewrite take_0 in *.
    exists m'. split; [do 3 f_equal; lia|done].
Qed.

(** What [vsnprintf] leaves in a buffer of [size] bytes. *)
Definition buffer_text (size : Z) (w : list Z) : list Z :=
  if 0 <? size then take (Z.to_nat (size - 1)) w ++ [0] else [].

Lemma vsnprintf_run m buffer size format args w d : format_text format args = Ok w → arr m buffer d → len d = size →
  size < 2 ^ 31 → len w < 2 ^ 31 →
  ∃ m', vsnprintf buffer size format args m = Ok (len w, m') ∧ upd m buffer (buffer_text size w) m'.
Proof.
  intros Hw Hd Hsize Hs1 Hs2. unfold vsnprintf. cbv zeta. rewrite (vprintf_text _ _ _ _ Hw). unfold buffer_text.
  assert (Hmapped : ∀ i, 0 ≤ i < size → is_Some (m !! (buffer + i))).
  { intros i Hi. destruct (lookup_lt_is_Some_2 d (Z.to_nat i)) as [x Hx]; [lia|]. exists x. replace i with (Z.of_nat (Z.to_nat i)) by lia. by apply (arr_lookup m buffer d). }
  destruct (Z.ltb_spec 0 size) as [Hpos|Hz].
  - rewrite (signed_small 32) by lia.
    destruct (output_all_helper w m buffer 0 (size - 1)) as (m' & -> & Hu); [lia|lia|intros i Hi; apply Hmapped; lia|].
    rewrite Z.sub_0_r in *. set (t := take (Z.to_nat (size - 1)) w) in *. cbn [aux_p aux_mem aux_length when].
    assert (Hl : len t ≤ size - 1) by (unfold t; rewrite length_take; lia).
    destruct (Hmapped (len t)) as [x Hx]; [lia|]. assert (Hx' : m' !! (buffer + len t) = Some x).
    { rewrite Hu, decide_False by lia. done. }
    unfold mbind, M_bind, store. rewrite Hx'. exists (<[buffer + len t := 0]> m'). split; [done|].
    apply (upd_app m buffer t [0] m'); [done|apply upd_insert].
  - change (int32 0) with 0. destruct (output_all_helper w m buffer 0 0) as (m' & -> & Hu); [lia|lia|intros i Hi; lia|].
    exists m'. split; [done|exact Hu].
Qed.

(** ** Positional notation *)

(** The value of digits, the most significant first. *)
Definition horner (base : Z) (ds : list Z) : Z := foldl (λ acc d, acc * base + d) 0 ds.

(** The digits of [v], the least significant first. *)
Fixpoint lsd (n : nat) (base v : Z) : list Z :=
  match n with O => [] | S n => if 0 <? v then v mod base :: lsd n base (v / base) else [] end.

Lemma horner_app base ds d : horner base (ds ++ [d]) = horner base ds * base + d.
Proof. unfold horner. by rewrite foldl_app. Qed.

Lemma lsd_props n base v : 1 < base → 0 ≤ v < base ^ Z.of_nat n →
  horner base (reverse (lsd n base v)) = v ∧ Forall (λ d, 0 ≤ d < base) (lsd n base v) ∧
  (0 < v → ∃ d, last (lsd n base v) = Some d ∧ 0 < d) ∧ (length (lsd n base v) ≤ n)%nat ∧ (v = 0 → lsd n base v = []).
Proof.
  intros Hb. revert v. induction n as [|n IH]; intros v Hv.
  { cbn in Hv. cbn [lsd reverse]. split; [cbn; lia|]. split; [constructor|]. split; [lia|]. split; [cbn; lia|done]. }
  rewrite Nat2Z.inj_succ, Z.pow_succ_r in Hv by lia. cbn [lsd]. destruct (Z.ltb_spec 0 v) as [Hp|Hz].
  - destruct (IH (v / base)) as (H1 & H2 & H3 & H4 & H5).
    { split; [apply Z.div_pos; lia|]. apply Z.div_lt_upper_bound; lia. }
    pose proof (Z.mod_pos_bound v base ltac:(lia)) as Hm. pose proof (Z.div_mod v base ltac:(lia)) as Hdm.
    split; [|split; [by constructor|split; [|split; [rewrite length_cons; lia|lia]]]].
    + rewrite reverse_cons, horner_app, H1. lia.
    + intros _. destruct (decide (v / base = 0)) as [E|E].
      * rewrite (H5 E). exists (v mod base). split; [done|lia].
      * destruct H3 as (d & Hd & Hd0); [pose proof (Z.div_pos v base); lia|]. exists d. split; [|done].
        rewrite last_cons, Hd. done.
  - assert (v = 0) as -> by lia. split; [done|]. split; [constructor|]. split; [lia|]. split; [cbn; lia|done].
Qed.

(** ** The digit loop *)

Definition digit_char (b : integer_base) (d : Z) : Z := default 0 (base_digits b !! Z.to_nat d).

Record base_ok (b : integer_base) : Prop := {
  bok_base : 8 ≤ base b;
  bok_group : 0 < group b;
  bok_digits d : 0 ≤ d < base b → digit_char b d ≠ 44
}.

Lemma bases_ok : base_ok base_d ∧ base_ok base_o ∧ base_ok base_x16 ∧ base_ok base_X16.
Proof.
  assert (Hd : ∀ b, forallb (λ c, negb (c =? 44)) (base_digits b) = true → ∀ d, digit_char b d ≠ 44).
  { intros b Hb d. unfold digit_char. destruct (base_digits b !! Z.to_nat d) as [c|] eqn:E; [|done]. cbn.
    apply list_elem_of_lookup_2, list_elem_of_In in E. rewrite forallb_forall in Hb. specialize (Hb c E). intros ->. done. }
  repeat split; try (cbn; lia); intros d _; by apply Hd.
Qed.

(** The commas written before digit [k], counted from the right. *)
Definition commas (b : integer_base) (grouped : bool) (k : Z) : Z :=
  if grouped && (0 <? k) then (k - 1) / group b else 0.

(** In [w], which starts at position [p], a comma stands where it should. *)
Definition commas_at (b : integer_base) (grouped : bool) (p : Z) (w : list Z) : Prop :=
  ∀ i, w !! i = Some 44 ↔ grouped = true ∧ (i < length w)%nat ∧ (p + Z.of_nat i) mod (group b + 1) = group b.

Lemma commas_at_cons b grouped p c w : commas_at b grouped (p + 1) w →
  (c = 44 ↔ grouped = true ∧ p mod (group b + 1) = group b) → commas_at b grouped p (c :: w).
Proof.
  intros Hw Hc [|i]; cbn [lookup list_lookup].
  - rewrite length_cons. change (Z.of_nat 0) with 0. rewrite Z.add_0_r. split.
    + intros [= E]. destruct (proj1 Hc E) as [H1 H2]. split; [done|]. split; [lia|done].
    + intros (H1 & _ & H2). f_equal. by apply Hc.
  - rewrite (Hw i), length_cons. replace (p + 1 + Z.of_nat i) with (p + Z.of_nat (S i)) by lia.
    split; intros (H1 & H2 & H3); (split; [done|split; [lia|done]]).
Qed.

Section put_digits.
Context (b : integer_base) (Hb : base_ok b) (grouped : bool).

Lemma comma_position k : 0 < k → k mod group b = 0 → (k + commas b true k) mod (group b + 1) = group b ∧
  k + commas b true k + 1 = k + k / group b.
Proof.
  intros Hk Hm. pose proof (bok_group b Hb) as Hg. unfold commas. rewrite (proj2 (Z.ltb_lt 0 k)) by lia. cbn [andb].
  assert (Hj : k = group b * (k / group b)) by (pose proof (Z.div_mod k (group b) ltac:(lia)); lia).
  set (j := k / group b) in *. assert (0 < j) by nia.
  assert (E : (k - 1) / group b = j - 1).
  { symmetry. apply (Z.div_unique (k - 1) (group b) (j - 1) (group b - 1)); [lia|nia]. }
  rewrite E. split; [|lia]. symmetry. apply (Z.mod_unique _ _ (j - 1)); [lia|nia].
Qed.

Lemma digit_position k : 0 ≤ k → (k + k / group b) mod (group b + 1) ≠ group b.
Proof.
  intros Hk. pose proof (bok_group b Hb) as Hg. pose proof (Z.div_mod k (group b) ltac:(lia)) as Hdm.
  pose proof (Z.mod_pos_bound k (group b) ltac:(lia)) as Hm.
  assert (E : (k + k / group b) mod (group b + 1) = k mod group b); [|lia].
  symmetry. apply (Z.mod_unique _ _ (k / group b)); [lia|]. nia.
Qed.

Lemma commas_next k : 0 ≤ k → commas b true (k + 1) = k / group b.
Proof. intros Hk. unfold commas. rewrite (proj2 (Z.ltb_lt 0 (k + 1))) by lia. cbn [andb]. f_equal. lia. Qed.

Lemma commas_same k : 0 ≤ k → k mod group b ≠ 0 ∨ k = 0 → commas b true k = k / group b.
Proof.
  intros Hk Hm. pose proof (bok_group b Hb) as Hg. unfold commas. destruct (Z.ltb_spec 0 k) as [Hp|]; cbn [andb].
  - destruct Hm as [Hm|]; [|lia]. pose proof (Z.div_mod k (group b) ltac:(lia)). pose proof (Z.mod_pos_bound k (group b) ltac:(lia)).
    symmetry. apply (Z.div_unique _ _ _ (k mod group b - 1)); lia.
  - assert (k = 0) as -> by lia. symmetry. apply Z.div_0_l. lia.
Qed.

Lemma put_digits_run n fuel v k buf : 0 ≤ v < base b ^ Z.of_nat n → (n < fuel)%nat → 0 ≤ k →
  len buf = k + commas b grouped k → len buf + 2 * Z.of_nat n ≤ 64 →
  ∃ w, put_digits fuel b grouped v k buf = Ok (buf ++ w) ∧ filter (λ c, c ≠ 44) w = digit_char b <$> lsd n (base b) v ∧
    commas_at b grouped (len buf) w ∧ len w ≤ 2 * Z.of_nat n.
Proof.
  pose proof (bok_base b Hb) as HB. revert fuel v k buf. induction n as [|n IH]; intros fuel v k buf Hv Hf Hk Hlen Hroom.
  { change (Z.of_nat 0) with 0 in Hv. rewrite Z.pow_0_r in Hv. destruct fuel as [|fuel]; [lia|]. cbn [put_digits]. rewrite (proj2 (Z.ltb_ge 0 v)) by lia.
    exists []. rewrite app_nil_r. split; [done|]. split; [done|]. split; [|cbn; lia]. intros i. rewrite lookup_nil. split; [done|cbn; lia]. }
  rewrite Nat2Z.inj_succ, Z.pow_succ_r in Hv by lia. destruct fuel as [|fuel]; [lia|]. cbn [put_digits lsd].
  destruct (Z.ltb_spec 0 v) as [Hp|Hz].
  2:{ exists []. rewrite app_nil_r. split; [done|]. split; [done|]. split; [|cbn; lia]. intros i. rewrite lookup_nil. split; [done|cbn; lia]. }
  pose proof (Z.mod_pos_bound v (base b) ltac:(lia)) as Hmod. set (c := digit_char b (v mod base b)).
  assert (Hc44 : c ≠ 44) by (by apply (bok_digits b Hb)).
  assert (Hdiv : 0 ≤ v / base b < base b ^ Z.of_nat n).
  { split; [apply Z.div_pos; lia|]. apply Z.div_lt_upper_bound; lia. }
  assert (Hpush : ∀ l x, len l < 64 → push l x = Ok (l ++ [x])).
  { intros l x Hl. unfold push. by rewrite (proj2 (Z.ltb_lt _ _)) by lia. }
  destruct (grouped && (0 <? k) && (k mod group b =? 0)) eqn:Hcomma.
  - apply andb_true_iff in Hcomma as [Hg0 Hkm]. apply andb_true_iff in Hg0 as [Hg Hk0].
    destruct (comma_position k) as [P1 P2]; [lia|lia|]. rewrite Hg in *. pose proof (digit_position k Hk) as P3.
    rewrite Hpush by lia. unfold mbind at 1, result_bind at 1. change (default 0 (base_digits b !! Z.to_nat (v mod base b))) with c. rewrite Hpush by (rewrite length_app; cbn; lia).
    unfold mbind at 1, result_bind at 1.
    destruct (IH fuel (v / base b) (k + 1) ((buf ++ [44]) ++ [c])) as (w & -> & Hw & Hat & Hwl); [done|lia|lia| | |].
    { rewrite !length_app. cbn [length]. rewrite commas_next by lia. lia. }
    { rewrite !length_app. cbn [length]. lia. }
    exists (44 :: c :: w). rewrite <-!app_assoc. split; [done|]. split; [|split; [|cbn [length]; lia]].
    + rewrite filter_cons_False by (by intros H; apply H). rewrite filter_cons_True by done. by rewrite Hw.
    + apply commas_at_cons; [apply commas_at_cons|].
      * rewrite !length_app in Hat. cbn [length] in Hat. by replace (len buf + 1 + 1) with (Z.of_nat (length buf + 1 + 1)) by lia.
      * split; [done|]. intros [_ H]. destruct P3. by rewrite <-P2, <-Hlen.
      * split; [|done]. intros _. split; [done|]. by rewrite Hlen.
  - unfold mbind at 1, result_bind at 1. change (default 0 (base_digits b !! Z.to_nat (v mod base b))) with c. rewrite Hpush by lia. unfold mbind at 1, result_bind at 1.
    assert (Hpos : grouped = true → len buf = k + k / group b).
    { intros Hg. rewrite Hg in *. rewrite Hlen. f_equal. apply commas_same; [done|]. cbn [andb] in Hcomma. lia. }
    destruct (IH fuel (v / base b) (k + 1) (buf ++ [c])) as (w & -> & Hw & Hat & Hwl); [done|lia|lia| | |].
    { rewrite !length_app. cbn [length]. destruct grouped eqn:Hg; [rewrite commas_next by lia; rewrite Hpos in * by done; lia|].
      unfold commas in *. cbn [andb] in *. lia. }
    { rewrite !length_app. cbn [length]. lia. }
    exists (c :: w). rewrite <-!app_assoc. split; [done|]. split; [|split; [|cbn [length]; lia]].
    + rewrite filter_cons_True by done. by rewrite Hw.
    + apply commas_at_cons.
      * rewrite !length_app in Hat. cbn [length] in Hat. by replace (len buf + 1) with (Z.of_nat (length buf + 1)) by lia.
      * split; [done|]. intros [Hg H]. destruct (digit_position k Hk). by rewrite <-(Hpos Hg).
Qed.
End put_digits.

Lemma put_zeros_run fuel precision buf : len buf ≤ 63 → 64 - len buf ≤ Z.of_nat fuel →
  put_zeros fuel precision buf = Ok (buf ++ replicate (Z.to_nat (Z.min precision 63 - len buf)) 48).
Proof.
  revert buf. induction fuel as [|fuel IH]; intros buf Hl Hf; [lia|]. cbn [put_zeros].
  destruct ((len buf <? precision) && (len buf <? 64 - 1)) eqn:E.
  - unfold push. rewrite (proj2 (Z.ltb_lt (len buf) 64)) by lia. unfold mbind, result_bind.
    rewrite IH by (rewrite length_app; cbn [length]; lia). rewrite <-app_assoc. do 2 f_equal. rewrite length_app. cbn [length].
    replace (Z.to_nat (Z.min precision 63 - len buf)) with (S (Z.to_nat (Z.min precision 63 - Z.of_nat (length buf + 1)))) by lia. done.
  - replace (Z.to_nat (Z.min precision 63 - len buf)) with O by lia. by rewrite app_nil_r.
Qed.

(** ** The text of an integer conversion *)

(** [cs] are the digits of [v], without leading zeros. *)
Definition numeral (b : integer_base) (v : Z) (cs : list Z) : Prop := ∃ ds,
  cs = digit_char b <$> ds ∧ Forall (λ d, 0 ≤ d < base b) ds ∧ horner (base b) ds = v ∧ head ds ≠ Some 0.

(** [body] are the digits of [v] with the commas between groups. *)
Definition integer_body (b : integer_base) (grouped : bool) (v : Z) (body : list Z) : Prop :=
  numeral b v (filter (λ c, c ≠ 44) body) ∧ commas_at b grouped 0 (reverse body) ∧ len body ≤ 44.

(** Zeros up to the precision, and the zero that # asks for in base 8. *)
Definition integer_number (b : integer_base) (c : printf_conversion) (body : list Z) : list Z :=
  let prec := if precision c <? 0 then 1 else precision c in
  let number := replicate (Z.to_nat (prec - len body)) 48 ++ body in
  if has (flags c) POUND && (base b =? 8) && negb (default 0 (head number) =? 48) then 48 :: number else number.

(** The field: sign and prefix before the number, padded to the width. *)
Definition integer_field (c : printf_conversion) (sign x : Z) (number : list Z) : list Z :=
  let prefix := (if negb (sign =? 0) then [sign] else []) ++ (if negb (x =? 0) then [48; x] else []) in
  let pad := Z.to_nat (width c - len prefix - len number) in
  (if negb (has (flags c) (Z.lor MINUS ZERO)) then replicate pad 32 else []) ++ prefix ++
  (if has (flags c) ZERO then replicate pad 48 else []) ++ number ++
  (if has (flags c) MINUS then replicate pad 32 else []).

Definition integer_text (b : integer_base) (c : printf_conversion) (is_signed negative : bool) (v : Z) (body : list Z) : list Z :=
  integer_field c (sign_char is_signed negative (flags c)) (if has (flags c) POUND && negb (v =? 0) then base_x b else 0)
    (integer_number b c body).

(** The precision that the buffer of 64 characters has room for. *)
Definition cap_precision (c : printf_conversion) : printf_conversion := mk_conv (flags c) (width c) (Z.min (precision c) 63) (type c).

Lemma cap_precision_id c : precision c ≤ 63 → cap_precision c = c.
Proof. intros H. unfold cap_precision. rewrite Z.min_l by lia. by destruct c. Qed.

Section emit.
Context {St : Type} (output : Z → M St unit).

Lemma emit_bind (m k : M St unit) w1 w2 s : (∀ s, m s = output_all output w1 s) → (∀ s, k s = output_all output w2 s) →
  (m ;; k) s = output_all output (w1 ++ w2) s.
Proof.
  intros H1 H2. rewrite output_all_app. unfold mbind, M_bind. rewrite H1. by destruct (output_all output w1 s) as [[[] s']|].
Qed.

Lemma emit_dup ch n s : output_dup output ch n s = output_all output (replicate (Z.to_nat n) ch) s.
Proof.
  unfold output_dup. generalize 0. revert s. induction (Z.to_nat n) as [|k IH]; intros s i; [done|].
  cbn [for_loop replicate output_all]. unfold mbind, M_bind. destruct (output ch s) as [[[] s']|]; [|done]. apply IH.
Qed.

Lemma emit_when b (m : M St unit) w s : (∀ s, m s = output_all output w s) → when b m s = output_all output (if b then w else []) s.
Proof. intros H. by destruct b. Qed.

Lemma emit_one c s : output c s = output_all output [c] s.
Proof. cbn [output_all]. unfold mbind, M_bind. by destruct (output c s) as [[[] s']|]. Qed.

Lemma pure_bind {A B} (r : result A) a (k : A → M St B) s : r = Ok a → (pure r ≫= k) s = k a s.
Proof. by intros ->. Qed.

Lemma emit_text v is_signed negative b c body : base_ok b → 0 ≤ v < 2 ^ 64 → 0 ≤ width c < 2 ^ 31 →
  put_digits 65 b (has (flags c) GROUP) v 0 [] = Ok (reverse body) → len body ≤ 44 →
  ∀ s, format_integer output v is_signed negative b c s = output_all output (integer_text b (cap_precision c) is_signed negative v body) s.
Proof.
  intros Hb Hv Hwidth Hdig Hlen s. unfold format_integer. cbv zeta. rewrite (pure_bind _ _ _ _ Hdig).
  erewrite pure_bind by (apply put_zeros_run; rewrite length_reverse; lia). unfold integer_text, integer_number. cbv zeta.
  cbn [cap_precision precision flags]. set (prec := if precision c <? 0 then 1 else precision c). rewrite length_reverse.
  replace (if Z.min (precision c) 63 <? 0 then 1 else Z.min (precision c) 63) with (Z.min prec 63) by (unfold prec; destruct (Z.ltb_spec (precision c) 0), (Z.ltb_spec (Z.min (precision c) 63) 0); lia).
  set (zs := replicate (Z.to_nat (Z.min prec 63 - len body)) 48).
  assert (Ebuf : reverse body ++ zs = reverse (zs ++ body)) by (unfold zs; by rewrite reverse_app, reverse_replicate).
  rewrite Ebuf. set (num := zs ++ body).
  assert (Hnum : len num ≤ 63) by (unfold num, zs; rewrite length_app, length_replicate; lia).
  assert (Hcond : (bool_decide (reverse num = []) || negb (default 0 (last (reverse num)) =? 48)) = negb (default 0 (head num) =? 48)).
  { rewrite last_reverse. destruct num as [|y num']; [done|]. rewrite bool_decide_false; [done|].
    rewrite reverse_cons. intros E. by apply app_eq_nil in E as [_ [=]]. }
  rewrite <-andb_assoc in *. rewrite Hcond.
  set (cond := has (flags c) POUND && ((base b =? 8) && negb (default 0 (head num) =? 48))).
  assert (Enum : (if cond then push (reverse num) 48 else Ok (reverse num)) = Ok (reverse (if cond then 48 :: num else num))).
  { unfold push. rewrite length_reverse, (proj2 (Z.ltb_lt (len num) 64)) by lia. destruct cond; [by rewrite reverse_cons|done]. }
  rewrite (pure_bind _ _ _ _ Enum).
  replace (has (flags c) POUND && (base b =? 8) && negb (default 0 (head num) =? 48)) with cond by (unfold cond; by rewrite andb_assoc).
  set (number := if cond then 48 :: num else num).
  assert (Hnl : len number ≤ 64) by (unfold number; destruct cond; cbn [length]; lia).
  clearbody number. clear num zs prec Ebuf Enum Hnum Hcond cond Hdig.
  set (sign := sign_char is_signed negative (flags c)). set (x := if _ && _ then _ else _). rewrite length_reverse.
  set (nx := if negb (x =? 0) then 2 else 0). set (ns := if negb (sign =? 0) then 1 else 0).
  assert (Epad : Z.to_nat (if int32 (width c - len number - nx - ns) <? 0 then 0 else int32 (width c - len number - nx - ns)) =
    Z.to_nat (width c - len ((if negb (sign =? 0) then [sign] else []) ++ (if negb (x =? 0) then [48; x] else [])) - len number)).
  { rewrite (signed_small 32) by (unfold nx, ns; destruct (negb (x =? 0)), (negb (sign =? 0)); lia).
    rewrite length_app. unfold nx, ns. destruct (negb (x =? 0)), (negb (sign =? 0)); cbn [length];
      match goal with |- context [?a <? 0] => destruct (Z.ltb_spec a 0) end; lia. }
  unfold integer_field. cbv zeta. cbn [cap_precision width flags]. rewrite <-Epad. clear Epad. rewrite <-!app_assoc.
  set (pad := if _ <? 0 then _ else _). clearbody pad.
  repeat (apply emit_bind; intros ?); try (apply emit_when; intros s''; apply emit_dup).
  - apply emit_when. intros s''. apply emit_one.
  - apply emit_when. intros s''. cbn [output_all]. unfold mbind, M_bind. destruct (output 48 s'') as [[[] t1]|]; [|done].
    by destruct (output x t1) as [[[] t2]|].
  - by rewrite reverse_involutive.
Qed.
End emit.

Lemma digits_body b grouped v n : base_ok b → 0 ≤ v < base b ^ Z.of_nat n → (n ≤ 22)%nat →
  ∃ body, put_digits 65 b grouped v 0 [] = Ok (reverse body) ∧ integer_body b grouped v body ∧
    (grouped = false → numeral b v body ∧ (length body ≤ n)%nat).
Proof.
  intros Hb Hv Hn. destruct (put_digits_run b Hb grouped n 65 v 0 []) as (w & E & Hw & Hat & Hlen); [done|lia|lia| |cbn; lia|].
  { unfold commas. by rewrite andb_false_r. }
  destruct (lsd_props n (base b) v) as (H1 & H2 & H3 & H4 & H5); [pose proof (bok_base b Hb); lia|done|].
  assert (Hnum : numeral b v (reverse (filter (λ c, c ≠ 44) w))).
  { exists (reverse (lsd n (base b) v)). split; [by rewrite Hw, <-fmap_reverse|]. split; [by apply Forall_reverse|]. split; [done|].
    rewrite head_reverse. destruct (decide (v = 0)) as [->|]; [by rewrite H5|].
    destruct H3 as (d & -> & Hd); [lia|]. intros [= ->]. lia. }
  exists (reverse w). rewrite reverse_involutive. split; [done|]. split.
  - split; [by rewrite filter_reverse|]. split; [by rewrite reverse_involutive|]. rewrite length_reverse. lia.
  - intros ->. assert (E' : filter (λ c, c ≠ 44) w = w).
    { apply list_filter_all. intros c Hc ->. apply list_elem_of_lookup in Hc as [i Hi]. by apply Hat in Hi as [? _]. }
    rewrite E' in *. split; [done|]. rewrite length_reverse, Hw, length_fmap. done.
Qed.

(** Every 64-bit number has at most 22 digits in base 8 or above. *)
Lemma enough_digits b v : base_ok b → 0 ≤ v < 2 ^ 64 → 0 ≤ v < base b ^ Z.of_nat 22.
Proof.
  intros Hb Hv. pose proof (bok_base b Hb) as HB. pose proof (Z.pow_le_mono_l 8 (base b) 22 ltac:(lia)) as H.
  change (8 ^ 22) with (2 ^ 66) in H. lia.
Qed.

(** C37: [format_integer], on any 64-bit value and in any of the bases, with any
    flags, any width and a precision of at most 63 (or none), writes exactly:
    spaces up to the width unless left-justified or zero-padded, the sign, the
    0x prefix, zeros up to the width when asked for, zeros up to the precision,
    the digits of the value without leading zeros, with a comma after every
    group from the right when asked for, and spaces up to the width when
    left-justified.  It does not overrun its buffer of 64 characters. *)
Theorem format_integer_correct b c is_signed negative v :
  base_ok b → 0 ≤ v < 2 ^ 64 → 0 ≤ width c < 2 ^ 31 → precision c ≤ 63 →
  ∃ body, integer_body b (has (flags c) GROUP) v body ∧
    ∀ St (output : Z → M St unit) s, format_integer output v is_signed negative b c s =
      output_all output (integer_text b c is_signed negative v body) s.
Proof.
  intros Hb Hv Hw Hp. destruct (digits_body b (has (flags c) GROUP) v 22) as (body & E & Hbody & _); [done|by apply enough_digits|lia|].
  exists body. split; [done|]. intros St output s. rewrite <-(cap_precision_id c Hp) at 2. apply emit_text; [done|done|done|done|apply Hbody].
Qed.

(** A larger precision is cut: the conversion is the one for precision 63. *)
Theorem format_integer_capped b c is_signed negative v St (output : Z → M St unit) s :
  base_ok b → 0 ≤ v < 2 ^ 64 → 0 ≤ width c < 2 ^ 31 → 63 < precision c →
  format_integer output v is_signed negative b c s = format_integer output v is_signed negative b (mk_conv (flags c) (width c) 63 (type c)) s.
Proof.
  intros Hb Hv Hw Hp. destruct (digits_body b (has (flags c) GROUP) v 22) as (body & E & Hbody & _); [done|by apply enough_digits|lia|].
  rewrite (emit_text output _ _ _ _ c body), (emit_text output _ _ _ _ (mk_conv _ _ _ _) body); try done; [|apply Hbody..].
  unfold cap_precision. cbn [flags width precision type]. by rewrite Z.min_r by lia.
Qed.

(** C38: [vsnprintf] into a buffer of [size] bytes stores the first [size - 1]
    characters of the text that the format and the arguments stand for and a
    null byte (nothing if [size] is 0), writes nowhere else, and returns the
    length of the whole text. *)
Theorem vsnprintf_correct m buffer size format args w d :
  format_text format args = Ok w → arr m buffer d → len d = size → size < 2 ^ 31 → len w < 2 ^ 31 →
  ∃ m', vsnprintf buffer size format args m = Ok (len w, m') ∧
    ∀ a, m' !! a = if decide (0 < size ∧ buffer ≤ a < buffer + Z.min (len w) (size - 1)) then w !! Z.to_nat (a - buffer)
                   else if decide (0 < size ∧ a = buffer + Z.min (len w) (size - 1)) then Some 0 else m !! a.
Proof.
  intros Hw Hd Hs H1 H2. destruct (vsnprintf_run m buffer size format args w d) as (m' & E & Hu); [done..|].
  exists m'. split; [done|]. intros a. rewrite Hu. unfold buffer_text. destruct (Z.ltb_spec 0 size) as [Hp|].
  - rewrite length_app, length_take. cbn [length].
    destruct (decide (buffer ≤ a < buffer + Z.min (len w) (size - 1))) as [Hin|Hout].
    + rewrite decide_True, decide_True by lia. rewrite lookup_app_l by (rewrite length_take; lia). apply lookup_take_lt. lia.
    + destruct (decide (a = buffer + Z.min (len w) (size - 1))) as [->|Hne].
      * rewrite decide_True, decide_False, decide_True by lia. rewrite lookup_app_r by (rewrite length_take; lia).
        rewrite length_take. by replace (_ - _)%nat with O by lia.
      * rewrite decide_False, decide_False, decide_False by lia. done.
  - cbn [length]. rewrite decide_False, decide_False, decide_False by lia. done.
Qed.

(** ** One conversion *)

Lemma output_all_collect w l : output_all collect w l = Ok (tt, l ++ w).
Proof.
  revert l. induction w as [|c w IH]; intros l; cbn [output_all]; [by rewrite app_nil_r|].
  unfold mbind, M_bind, collect, modify. rewrite IH. by rewrite <-app_assoc.
Qed.

(** A [%s] without modifiers writes its string. *)
Lemma vprintf_loop_string nested fuel rest name args l : len name < 2 ^ 31 →
  vprintf_loop collect nested (S fuel) (37 :: 115 :: rest) (Str (Some name) :: args) l = vprintf_loop collect nested fuel rest args (l ++ name).
Proof.
  intros Hl. cbn [vprintf_loop]. unfold mbind at 1, M_bind at 1.
  assert (E : vprintf_body collect nested 37 (115 :: rest) (Str (Some name) :: args) l = Ok ((115 :: rest, args), l ++ name)); [|by rewrite E].
  unfold vprintf_body. change (cur (115 :: rest)) with 115. cbn [negb Z.eqb Pos.eqb]. unfold mbind at 1, M_bind at 1.
  assert (Ep : parse_conversion (115 :: rest) (Str (Some name) :: args) = Ok (mk_conv 0 0 (-1) INT, 115 :: rest, Str (Some name) :: args)) by reflexivity.
  unfold pure at 1. rewrite Ep.
  cbv beta iota zeta. change (cur (115 :: rest)) with 115. cbn [Z.eqb Pos.eqb orb]. unfold mbind at 1, M_bind at 1. cbn [va_string pure precision].
  unfold format_string, string_length. cbn [precision width flags]. change (wrap32 (-1)) with (2 ^ 32 - 1).
  rewrite Z.min_l by lia. rewrite (signed_small 32) by lia. rewrite (proj2 (Z.ltb_ge _ _)) by lia. cbn [andb when].
  unfold mbind, M_bind, mret, M_ret. rewrite Nat2Z.id, firstn_all. by rewrite output_all_collect.
Qed.

(** The text of a format that has no conversion but [%s]. *)
Fixpoint fill (format : list Z) (ss : list (list Z)) : option (list Z) :=
  match format with
  | [] => Some []
  | c :: rest =>
      if c =? 37 then
        match rest, ss with
        | k :: rest, s :: ss => if k =? 115 then app s <$> fill rest ss else None
        | _, _ => None
        end
      else cons c <$> fill rest ss
  end.

Lemma vprintf_loop_fill nested fuel format ss w l : (length format < fuel)%nat → Forall (λ s, len s < 2 ^ 31) ss → fill format ss = Some w →
  vprintf_loop collect nested fuel format ((Str ∘ Some) <$> ss) l = Ok (tt, l ++ w).
Proof.
  revert format ss w l. induction fuel as [|fuel IH]; intros format ss w l Hf Hs E; [lia|].
  destruct format as [|c format]; [injection E as <-; cbn; by rewrite app_nil_r|]. cbn [fill length] in *. destruct (Z.eqb_spec c 37) as [->|Hc].
  - destruct format as [|k format], ss as [|s ss]; try done. destruct (Z.eqb_spec k 115) as [->|]; [|done].
    apply Forall_cons in Hs as [Hs1 Hs2]. apply fmap_Some in E as (w' & E & ->). cbn [fmap list_fmap compose length] in *.
    rewrite vprintf_loop_string by done. rewrite (IH format ss w') by (done || lia). by rewrite (assoc_L (++)).
  - apply fmap_Some in E as (w' & E & ->). cbn [vprintf_loop]. unfold mbind at 1, M_bind at 1. unfold vprintf_body. rewrite (proj2 (Z.eqb_neq c 37)) by done.
    cbn [negb]. unfold mbind, M_bind, mret, M_ret. cbn [collect modify]. rewrite (IH format ss w') by (done || lia). by rewrite <-(assoc_L (++)).
Qed.

Lemma format_text_fill format ss w : Forall (λ s, len s < 2 ^ 31) ss → fill format ss = Some w → format_text format ((Str ∘ Some) <$> ss) = Ok w.
Proof.
  intros Hs E. unfold format_text, __vprintf. cbn [vprintf_depth]. by rewrite (vprintf_loop_fill _ _ _ _ w) by (done || lia).
Qed.

Lemma format_text_one fmt args k args' w : cur fmt ≠ 37 →
  vprintf_body collect (vprintf_depth collect 0) 37 fmt args [] = Ok (([k], args'), w) → format_text (37 :: fmt) args = Ok w.
Proof.
  intros Hc E. unfold format_text, __vprintf.
  change (vprintf_depth collect 1 (37 :: fmt) args []) with
    (vprintf_loop collect (vprintf_depth collect 0) (S (S (length fmt))) (37 :: fmt) args []).
  cbn [vprintf_loop]. unfold mbind, M_bind.
  rewrite E. cbn. by destruct args'.
Qed.

Lemma format_text_d fmt c v n : cur fmt ≠ 37 → parse_conversion fmt [Word v] = Ok (c, [100], [Word v]) → type c = INT →
  - 2 ^ 31 ≤ v < 2 ^ 31 → 0 ≤ width c < 2 ^ 31 → Z.abs v < 10 ^ Z.of_nat n → (n ≤ 22)%nat → has (flags c) GROUP = false → precision c ≤ 63 →
  ∃ body, numeral base_d (Z.abs v) body ∧ (length body ≤ n)%nat ∧
    format_text (37 :: fmt) [Word v] = Ok (integer_text base_d c true (v <? 0) (Z.abs v) body).
Proof.
  intros Hc Hp Ht Hv Hw Hn Hn22 Hg Hprec. destruct (digits_body base_d false (Z.abs v) n) as (body & E & [_ [_ Hl]] & Hbody); [apply bases_ok|cbn; lia|lia|].
  destruct (Hbody eq_refl) as [Hnum Hlen]. exists body. split; [done|]. split; [done|].
  apply (format_text_one _ _ 100 []); [done|]. unfold vprintf_body. cbn [Z.eqb negb Pos.eqb]. rewrite (proj2 (Z.eqb_neq (cur fmt) 37)) by done.
  rewrite (pure_bind _ _ _ _ Hp). cbn [cur head default from_option id Z.eqb Pos.eqb orb]. rewrite Ht.
  assert (Ea : signed_arg INT [Word v] = Ok (v, [])).
  { unfold signed_arg, va_int, va_word, mbind, result_bind. do 2 f_equal. unfold wrap32, signed. rewrite Z.mod_mod by lia. apply (signed_small 32); lia. }
  rewrite (pure_bind _ _ _ _ Ea).
  assert (Eabs : wrap64 (if v <? 0 then - v else v) = Z.abs v). { rewrite wrap64_small; destruct (Z.ltb_spec v 0); lia. }
  rewrite Eabs. unfold mbind, M_bind. rewrite (emit_text collect _ _ _ _ _ body), (cap_precision_id c Hprec); [|apply bases_ok|lia|done|by rewrite Hg|done].
  by rewrite output_all_collect.
Qed.

Lemma format_text_o fmt c v n : cur fmt ≠ 37 → parse_conversion fmt [Word v] = Ok (c, [111], [Word v]) → type c = INT →
  0 ≤ v < 2 ^ 32 → 0 ≤ width c < 2 ^ 31 → v < 8 ^ Z.of_nat n → (n ≤ 22)%nat → has (flags c) GROUP = false → precision c ≤ 63 →
  ∃ body, numeral base_o v body ∧ (length body ≤ n)%nat ∧
    format_text (37 :: fmt) [Word v] = Ok (integer_text base_o c false false v body).
Proof.
  intros Hc Hp Ht Hv Hw Hn Hn22 Hg Hprec. destruct (digits_body base_o false v n) as (body & E & [_ [_ Hl]] & Hbody); [apply bases_ok|cbn; lia|lia|].
  destruct (Hbody eq_refl) as [Hnum Hlen]. exists body. split; [done|]. split; [done|].
  apply (format_text_one _ _ 111 []); [done|]. unfold vprintf_body. cbn [Z.eqb negb Pos.eqb]. rewrite (proj2 (Z.eqb_neq (cur fmt) 37)) by done.
  rewrite (pure_bind _ _ _ _ Hp). cbn [cur head default from_option id Z.eqb Pos.eqb orb]. rewrite Ht.
  assert (Ea : unsigned_arg INT [Word v] = Ok (v, [])).
  { unfold unsigned_arg, va_word. do 2 f_equal. by apply wrap32_small. }
  rewrite (pure_bind _ _ _ _ Ea).
  unfold mbind, M_bind. rewrite (emit_text collect _ _ _ _ _ body), (cap_precision_id c Hprec); [|apply bases_ok|lia|done|by rewrite Hg|done].
  by rewrite output_all_collect.
Qed.

(** ** Reading back what was written *)

Lemma digit_char_d d : 0 ≤ d < 10 → digit_char base_d d = 48 + d.
Proof.
  intros Hd. assert (d = 0 ∨ d = 1 ∨ d = 2 ∨ d = 3 ∨ d = 4 ∨ d = 5 ∨ d = 6 ∨ d = 7 ∨ d = 8 ∨ d = 9) as H by lia.
  by repeat destruct H as [->|H]; [..|subst].
Qed.

Lemma decimal_horner acc ds : Forall (λ d, 0 ≤ d < 10) ds →
  decimal acc (digit_char base_d <$> ds) = foldl (λ acc d, acc * 10 + d) acc ds ∧ digits (digit_char base_d <$> ds).
Proof.
  revert acc. induction ds as [|d ds IH]; intros acc H; [split; [done|constructor]|].
  apply Forall_cons in H as [Hd Hds]. destruct (IH (acc * 10 + d) Hds) as [E1 E2]. rewrite fmap_cons, digit_char_d by done.
  cbn [decimal foldl]. replace (48 + d - 48) with d by lia. split; [done|]. constructor; [unfold isdigit; lia|done].
Qed.

(** The number [%d] writes: the digits, or a zero. *)
Lemma plain_number v body : numeral base_d v body → let n := replicate (Z.to_nat (1 - len body)) 48 ++ body in
  decimal 0 n = v ∧ digits n ∧ n ≠ [] ∧ (length n ≤ Nat.max 1 (length body))%nat.
Proof.
  intros (ds & -> & Hds & Hv & _). cbv zeta. rewrite length_fmap. destruct ds as [|d ds].
  - cbn in Hv. subst v. split; [done|]. split; [by repeat constructor|]. split; [done|]. vm_compute. lia.
  - rewrite length_cons. replace (Z.to_nat (1 - Z.of_nat (S (length ds)))) with O by lia. cbn [replicate app].
    destruct (decimal_horner 0 (d :: ds) Hds) as [E1 E2]. split; [by rewrite E1|]. split; [done|]. split; [done|].
    rewrite length_fmap, length_cons. lia.
Qed.

Lemma digits_chars ds : digits ds → chars ds.
Proof. intros H. apply (Forall_impl _ _ _ H). intros c Hc%isdigit_range. lia. Qed.

(** An [int] written with [snprintf] and the format [%d] into a buffer of
    at least 12 bytes is read back by [atoi]. *)
Theorem snprintf_atoi m buffer d v :
  arr m buffer d → 12 ≤ len d < 2 ^ 31 → buffer ≠ NULL → - 2 ^ 31 ≤ v < 2 ^ 31 →
  ∃ n m', snprintf buffer (len d) (text "%d") [Word v] m = Ok (n, m') ∧ atoi buffer m' = Ok (v, m').
Proof.
  intros Hd Hl Hb Hv.
  destruct (format_text_d [100] (mk_conv 0 0 (-1) INT) v 10) as (body & Hnum & Hlen & Htxt); [done|done|done|done|cbn; lia|cbn; lia|lia|done|cbn; lia|].
  destruct (plain_number _ _ Hnum) as (Hdec & Hdig & Hne & Hnl).
  set (n := replicate _ _ ++ body) in *. set (sg := if v <? 0 then [45] else []).
  assert (Etxt : integer_text base_d (mk_conv 0 0 (-1) INT) true (v <? 0) (Z.abs v) body = sg ++ n).
  { unfold integer_text, integer_field, integer_number, sign_char. cbv zeta. cbn [flags precision width].
    assert (H0 : ∀ f, has 0 f = false) by (intros f; unfold has; by rewrite Z.land_0_l). rewrite !H0. cbn [andb negb].
    change (if -1 <? 0 then 1 else -1) with 1. fold n. replace (Z.to_nat (0 - _ - _)) with O by lia.
    unfold sg. destruct (v <? 0); cbn [Z.eqb negb app replicate]; by rewrite app_nil_r. }
  rewrite Etxt in Htxt. change (37 :: [100]) with (text "%d") in Htxt.
  assert (Hsg : (length sg ≤ 1)%nat) by (unfold sg; destruct (v <? 0); cbn; lia).
  destruct (vsnprintf_run m buffer (len d) (text "%d") [Word v] (sg ++ n) d Htxt Hd eq_refl) as (m' & E & Hu); [lia|rewrite length_app; lia|].
  exists (len (sg ++ n)), m'. split; [exact E|]. unfold buffer_text in Hu. rewrite (proj2 (Z.ltb_lt 0 (len d))) in Hu by lia.
  rewrite take_ge in Hu by (rewrite length_app; lia).
  assert (Hstr : cstring m' buffer ([] ++ sg ++ n ++ [])).
  { rewrite app_nil_r. change ([] ++ sg ++ n) with (sg ++ n). split; [exact (arr_upd_same _ _ _ _ Hu)|]. apply Forall_app. split; [|by apply digits_chars].
    unfold sg. destruct (v <? 0); repeat constructor; lia. }
  rewrite (atoi_correct m' buffer [] (v <? 0) sg n [] Hstr); try done.
  - do 2 f_equal. rewrite Hdec. destruct (Z.ltb_spec v 0); lia.
  - constructor.
  - unfold sg. destruct (v <? 0); constructor.
  - rewrite Hdec. destruct (Z.ltb_spec v 0); lia.
Qed.

Lemma format_integer_correct_witness : ∃ body, integer_body base_d true 1234567 body ∧
  integer_text base_d (mk_conv GROUP 12 (-1) INT) true true 1234567 body = text "  -1,234,567".
Proof.
  destruct (format_integer_correct base_d (mk_conv GROUP 12 (-1) INT) true true 1234567) as (body & Hb & H); [apply bases_ok|lia|cbn; lia|cbn; lia|].
  exists body. split; [exact Hb|]. specialize (H _ collect []). rewrite output_all_collect in H.
  assert (E : format_integer collect 1234567 true true base_d (mk_conv GROUP 12 (-1) INT) [] = Ok (tt, text "  -1,234,567"))
    by (vm_compute; reflexivity).
  rewrite E in H. injection H as H. symmetry. exact H.
Defined.

(** Sixteen bytes of memory. *)
Definition example_buffer : mem := list_to_map (zip (seqZ 100 16) (replicate 16 170)).

Lemma example_buffer_arr n : (n ≤ 16)%nat → arr example_buffer 100 (replicate n 170).
Proof.
  intros Hn i x Hx. apply lookup_replicate in Hx as [-> Hi].
  assert (H : Forall (λ i : nat, example_buffer !! (100 + Z.of_nat i) = Some 170) (seq 0 16)) by (vm_compute; repeat constructor).
  rewrite Forall_lookup in H. apply (H i i). apply lookup_seq. lia.
Qed.

Lemma vsnprintf_correct_witness : ∃ m', vsnprintf 100 5 (text "%s!") [Str (Some (text "hello"))] example_buffer = Ok (6, m') ∧
  m' !! 103 = Some 108 ∧ m' !! 104 = Some 0 ∧ m' !! 105 = Some 170.
Proof.
  destruct (vsnprintf_correct example_buffer 100 5 (text "%s!") [Str (Some (text "hello"))] (text "hello!") (replicate 5 170)) as (m' & E & H);
    [vm_compute; reflexivity|apply example_buffer_arr; lia|reflexivity|lia|vm_compute; reflexivity|].
  exists m'. split; [exact E|]. rewrite !H. vm_compute. repeat split.
Defined.

Lemma snprintf_atoi_witness : ∃ n m', snprintf 100 16 (text "%d") [Word (-2147483648)] example_buffer = Ok (n, m') ∧
  atoi 100 m' = Ok (-2147483648, m').
Proof.
  apply (snprintf_atoi example_buffer 100 (replicate 16 170) (-2147483648)); [apply example_buffer_arr; lia|cbn; lia|done|lia].
Defined.
