(* ===== verification/Ustar.v ===== *)
(** * Headers of tar archives ([lib/ustar.c])

    A header is 512 bytes of memory; its fields are at fixed offsets.  The
    string literals of the file lie somewhere in memory: their addresses are
    the record [literals].  The message about a long file name is left out. *)
From Stdlib Require Import Strings.String.
From S2P Require Import Prelude Bytes CString CStdlib Stdio.
#[local] Open Scope Z_scope.

Definition USTAR_REGULAR : Z := 48.
Definition USTAR_DIRECTORY : Z := 53.
Definition USTAR_EOF : Z := -1.
Definition USTAR_HEADER_SIZE : Z := 512.

(** The fields of [struct ustar_header]: offset and size. *)
Definition f_name : Z * Z := (0, 100).
Definition f_mode : Z * Z := (100, 8).
Definition f_uid : Z * Z := (108, 8).
Definition f_gid : Z * Z := (116, 8).
Definition f_size : Z * Z := (124, 12).
Definition f_mtime : Z * Z := (136, 12).
Definition f_chksum : Z * Z := (148, 8).
Definition f_typeflag : Z * Z := (156, 1).
Definition f_magic : Z * Z := (257, 6).
Definition f_version : Z * Z := (263, 2).
Definition f_uname : Z * Z := (265, 32).
Definition f_gname : Z * Z := (297, 32).
Definition f_prefix : Z * Z := (345, 155).

Record literals := mk_literals {
  lit_dot : Z; lit_dot_slash : Z; lit_dotdot : Z; lit_dotdot_slash : Z;
  lit_zeros : Z; lit_ustar : Z; lit_root : Z
}.

(** ** Operations *)

Fixpoint chksum_loop (n : nat) (i header chksum : Z) : M mem Z :=
  match n with
  | O => mret chksum
  | S n =>
      let chksum_start := f_chksum.1 in
      let chksum_end := chksum_start + f_chksum.2 in
      b ← (if (chksum_start <=? i) && (i <? chksum_end) then mret 32 else load (header + i));
      chksum_loop n (i + 1) header (wrap32 (chksum + b))
  end.
Definition calculate_chksum (h : Z) : M mem Z := chksum_loop (Z.to_nat USTAR_HEADER_SIZE) 0 h 0.

Section ustar.
Context (L : literals).

Fixpoint strip_loop (fuel : nat) (file_name : Z) : M mem Z :=
  match fuel with
  | O => throw OutOfFuel
  | S fuel =>
      c ← load file_name;
      again ← (if c =? 47 then mret true else
               r ← memcmp file_name (lit_dot_slash L) 2;
               if r =? 0 then mret true else
               r ← memcmp file_name (lit_dotdot_slash L) 3;
               mret (r =? 0));
      if (again : bool) then p ← strchr file_name 47; strip_loop fuel (p + 1) else mret file_name
  end.

Definition strip_antisocial_prefixes (file_name : Z) : M mem Z :=
  fuel ← scan_fuel;
  file_name ← strip_loop fuel file_name;
  c ← load file_name;
  if c =? 0 then mret (lit_dot L) else
  r ← strcmp file_name (lit_dotdot L);
  mret (if r =? 0 then lit_dot L else file_name).

Definition put_string (h : Z) (f : Z * Z) (src : Z) : M mem unit := strlcpy (h + f.1) src f.2 ;; mret tt.
Definition put_octal (h : Z) (f : Z * Z) (size : Z) (format : list Z) (v : Z) : M mem unit :=
  snprintf (h + f.1) size format [Word v] ;; mret tt.

Definition ustar_make_header (file_name type size header : Z) : M mem bool :=
  let h := header in
  ASSERT ((type =? USTAR_REGULAR) || (type =? USTAR_DIRECTORY)) ;;
  file_name ← strip_antisocial_prefixes file_name;
  n ← strlen file_name;
  if 99 <? n then mret false else
  memset h 0 USTAR_HEADER_SIZE ;;
  put_string h f_name file_name ;;
  put_octal h f_mode (f_mode.2) (text "%07o") (if type =? USTAR_REGULAR then 420 else 493) ;;
  put_string h f_uid (lit_zeros L) ;;
  put_string h f_gid (lit_zeros L) ;;
  put_octal h f_size (f_size.2) (text "%011o") size ;;
  put_octal h f_mtime (f_size.2) (text "%011o") 1136102400 ;;
  store (h + f_typeflag.1) (wrap8 type) ;;
  put_string h f_magic (lit_ustar L) ;;
  store (h + f_version.1 + 1) 48 ;;
  store (h + f_version.1) 48 ;;
  put_string h f_gname (lit_root L) ;;
  put_string h f_uname (lit_root L) ;;
  chksum ← calculate_chksum h;
  put_octal h f_chksum (f_chksum.2) (text "%07o") chksum ;;
  mret true.

(** [None] is failure. *)
Fixpoint octal_loop (n : nat) (s ofs value : Z) : M mem (option Z) :=
  match n with
  | O => mret None
  | S n =>
      c ← load (s + ofs);
      if (48 <=? c) && (c <=? 55) then
        if (2 ^ 32 - 1) / 8 <? value then mret None
        else octal_loop n s (ofs + 1) (wrap32 (c - 48 + value * 8))
      else if (c =? 32) || (c =? 0) then mret (if 0 <? ofs then Some value else None)
      else mret None
  end.
Definition parse_octal_field (s size : Z) : M mem (option Z) := octal_loop (Z.to_nat size) s 0 0.

Fixpoint is_all_zeros_loop (n : nat) (block : Z) : M mem bool :=
  match n with
  | O => mret true
  | S n => b ← load block; if negb (b =? 0) then mret false else is_all_zeros_loop n (block + 1)
  end.
Definition is_all_zeros (block cnt : Z) : M mem bool := is_all_zeros_loop (Z.to_nat cnt) block.

(** An error message, or the file name, type and size. *)
Definition ustar_parse_header (header : Z) : M mem (list Z + Z * Z * Z) :=
  let h := header in
  eof ← is_all_zeros header USTAR_HEADER_SIZE;
  if (eof : bool) then mret (inr (NULL, USTAR_EOF, 0)) else
  r ← memcmp (h + f_magic.1) (lit_ustar L) 6;
  if negb (r =? 0) then mret (inl (text "not a ustar archive")) else
  v0 ← load (h + f_version.1);
  v1 ← (if negb (v0 =? 48) then mret 0 else load (h + f_version.1 + 1));
  if negb (v0 =? 48) || negb (v1 =? 48) then mret (inl (text "invalid ustar version")) else
  field ← parse_octal_field (h + f_chksum.1) f_chksum.2;
  match field with
  | None => mret (inl (text "corrupt chksum field"))
  | Some chksum =>
      sum ← calculate_chksum h;
      if negb (chksum =? sum) then mret (inl (text "checksum mismatch")) else
      n ← load (h + f_name.1 + f_name.2 - 1);
      p ← (if negb (n =? 0) then mret 0 else load (h + f_prefix.1));
      if negb (n =? 0) || negb (p =? 0) then mret (inl (text "file name too long")) else
      t ← load (h + f_typeflag.1);
      if negb (t =? USTAR_REGULAR) && negb (t =? USTAR_DIRECTORY)
      then mret (inl (text "unimplemented file type")) else
      size ← (if t =? USTAR_REGULAR then
                field ← parse_octal_field (h + f_size.1) f_size.2;
                match field with
                | None => mret (inl (text "corrupt file size field"))
                | Some size_ul => mret (if 2 ^ 31 - 1 <? size_ul then inl (text "file too large") else inr size_ul)
                end
              else mret (inr 0));
      match size with
      | inl msg => mret (inl msg)
      | inr size_ul =>
          name ← strip_antisocial_prefixes (h + f_name.1);
          mret (inr (name, t, size_ul))
      end
  end.
End ustar.

(** ** File names *)

(** The rest of a name after its first slash. *)
Fixpoint after_slash (s : list Z) : list Z :=
  match s with [] => [] | c :: s => if c =? 47 then s else after_slash s end.

Definition antisocial (s : list Z) : bool :=
  bool_decide ([47] `prefix_of` s) || bool_decide ([46; 47] `prefix_of` s) || bool_decide ([46; 46; 47] `prefix_of` s).

Fixpoint strip_prefixes (n : nat) (s : list Z) : list Z :=
  match n with O => s | S n => if antisocial s then strip_prefixes n (after_slash s) else s end.

(** The name without the prefixes "/", "./" and "../"; "." if nothing or ".."
    is left. *)
Definition stripped (s : list Z) : list Z :=
  let t := strip_prefixes (length s) s in
  if bool_decide (t = []) || bool_decide (t = [46; 46]) then [46] else t.

Lemma after_slash_split s : 47 ∈ s → ∃ t, s = t ++ 47 :: after_slash s ∧ 47 ∉ t.
Proof.
  induction s as [|c s IH]; intros H; [by apply not_elem_of_nil in H|]. cbn [after_slash]. destruct (Z.eqb_spec c 47) as [->|Hc].
  - exists []. split; [done|apply not_elem_of_nil].
  - destruct IH as (t & E & Ht); [by apply elem_of_cons in H as [H|H]|]. exists (c :: t). split; [cbn; by rewrite <-E|].
    rewrite not_elem_of_cons. split; [done|done].
Qed.

Lemma antisocial_slash s : antisocial s = true → 47 ∈ s.
Proof.
  unfold antisocial. rewrite !orb_true_iff, !bool_decide_eq_true. intros [[[t ->]|[t ->]]|[t ->]]; set_solver.
Qed.

Lemma antisocial_shorter s : antisocial s = true → (length (after_slash s) < length s)%nat.
Proof.
  intros H. destruct (after_slash_split s (antisocial_slash s H)) as (t & E & _). rewrite E at 2. rewrite length_app, length_cons. lia.
Qed.

Lemma strip_prefixes_social n s : (length s ≤ n)%nat → antisocial (strip_prefixes n s) = false.
Proof.
  revert s. induction n as [|n IH]; intros s Hn; cbn [strip_prefixes].
  - by destruct s; [|cbn in Hn; lia].
  - destruct (antisocial s) eqn:E; [|done]. apply IH. pose proof (antisocial_shorter s E). lia.
Qed.

Lemma stripped_social s : antisocial (stripped s) = false ∧ stripped s ≠ [] ∧ stripped s ≠ [46; 46].
Proof.
  unfold stripped. cbv zeta. pose proof (strip_prefixes_social (length s) s (le_n _)) as H.
  set (t := strip_prefixes (length s) s) in *. destruct (bool_decide (t = [])) eqn:E1; [done|].
  destruct (bool_decide (t = [46; 46])) eqn:E2; [done|]. cbn [orb]. apply bool_decide_eq_false in E1, E2. done.
Qed.

Lemma stripped_id s : antisocial s = false → s ≠ [] → s ≠ [46; 46] → stripped s = s.
Proof.
  intros H1 H2 H3. unfold stripped. assert (E : strip_prefixes (length s) s = s) by (destruct s; [done|]; cbn [length strip_prefixes]; by rewrite H1).
  rewrite E. cbv zeta. by rewrite !bool_decide_false.
Qed.

Lemma strip_prefixes_chars n s : chars s → chars (strip_prefixes n s).
Proof.
  revert s. induction n as [|n IH]; intros s Hs; [done|]. cbn [strip_prefixes]. destruct (antisocial s) eqn:E; [|done]. apply IH.
  destruct (after_slash_split s (antisocial_slash s E)) as (t & E' & _). rewrite E' in Hs. apply Forall_app in Hs as [_ Hs]. by apply Forall_cons in Hs as [_ Hs].
Qed.

Lemma stripped_chars s : chars s → chars (stripped s).
Proof. intros Hs. unfold stripped. cbv zeta. case_match; [by repeat constructor|by apply strip_prefixes_chars]. Qed.

(** ** Strings in memory *)

Lemma index_of_middle c t u : c ∉ t → index_of c (t ++ c :: u) = Some (len t).
Proof.
  induction t as [|x t IH]; intros Ht; cbn [app index_of]; [by rewrite Z.eqb_refl|]. apply not_elem_of_cons in Ht as [Hc Ht].
  rewrite (proj2 (Z.eqb_neq x c)) by congruence. rewrite IH by done. cbn. f_equal. lia.
Qed.

Lemma wp_memcmp_prefix m a b s l (Q : Z → mem → Prop) : cstring m a s → arr m b l → chars l → a ≠ NULL → b ≠ NULL →
  (∀ r, (r =? 0) = bool_decide (l `prefix_of` s) → Q r m) → wp (memcmp a b (len l)) Q m.
Proof.
  intros Hs Hl Hc Ha Hb HQ. unfold memcmp. repeat wp_step; [by rewrite (proj2 (Z.eqb_neq a 0)) by done|by rewrite (proj2 (Z.eqb_neq b 0)) by done|].
  rewrite Nat2Z.id. clear Ha Hb. revert a b s Hs Hl HQ. induction Hc as [|x l Hx Hc IH]; intros a b s Hs Hl HQ; cbn [length memcmp_loop].
  - wp_step. apply HQ. by rewrite bool_decide_true by apply prefix_nil.
  - apply arr_cons in Hl as [Hx' Hl]. assert (Hend : ∀ y : Z, y ≠ x → ¬ x :: l `prefix_of` s →
      wp (mret (if x <? y then 1 else -1) : M mem Z) Q m).
    { intros y Hy Hn. wp_step. apply HQ. rewrite bool_decide_false by done. by destruct (x <? y). }
    destruct s as [|y s].
    + wp_step. apply (wp_load m a 0); [by apply cstring_nil|]. wp_step. apply (wp_load m b x); [done|].
      rewrite (proj2 (Z.eqb_neq 0 x)) by lia. apply Hend; [lia|]. by intros ?%prefix_nil_inv.
    + apply cstring_cons in Hs as (Hy & Hyr & Hs). wp_step. apply (wp_load m a y); [done|]. wp_step. apply (wp_load m b x); [done|].
      destruct (Z.eqb_spec y x) as [->|Hne].
      * apply (IH _ _ s); [done|done|]. intros r Hr. apply HQ. rewrite Hr. apply bool_decide_ext. split; [apply prefix_cons|apply prefix_cons_inv_2].
      * apply Hend; [done|]. intros H%prefix_cons_inv_1. congruence.
Qed.

Section strip.
Context (L : literals).

Record literals_ok (m : mem) : Prop := {
  lok_dot : cstring m (lit_dot L) [46];
  lok_dot_slash : cstring m (lit_dot_slash L) [46; 47];
  lok_dotdot : cstring m (lit_dotdot L) [46; 46];
  lok_dotdot_slash : cstring m (lit_dotdot_slash L) [46; 46; 47];
  lok_zeros : cstring m (lit_zeros L) (text "0000000");
  lok_ustar : cstring m (lit_ustar L) (text "ustar");
  lok_root : cstring m (lit_root L) (text "root");
  lok_pos : 0 < lit_dot L ∧ 0 < lit_dot_slash L ∧ 0 < lit_dotdot L ∧ 0 < lit_dotdot_slash L ∧ 0 < lit_zeros L ∧
    0 < lit_ustar L ∧ 0 < lit_root L
}.

Lemma wp_strip_loop fuel m p s (Q : Z → mem → Prop) : literals_ok m → cstring m p s → 0 < p → (length s < fuel)%nat →
  (∀ q, 0 < q → cstring m q (strip_prefixes (length s) s) → (q = p ∨ p < q) → q + len (strip_prefixes (length s) s) = p + len s →
     (antisocial s = false → q = p) → Q q m) →
  wp (strip_loop L fuel p) Q m.
Proof.
  intros HL. enough (Hgen : ∀ n, (length s ≤ n)%nat → cstring m p s → 0 < p → (length s < fuel)%nat →
    (∀ q, 0 < q → cstring m q (strip_prefixes n s) → (q = p ∨ p < q) → q + len (strip_prefixes n s) = p + len s →
     (antisocial s = false → q = p) → Q q m) → wp (strip_loop L fuel p) Q m) by (by apply Hgen).
  revert p s. induction fuel as [|fuel IH]; intros p s n Hn Hs Hp Hf HQ; [lia|]. cbn [strip_loop].
  destruct HL as [_ Hds _ Hdds _ _ _ Hpos]. wp_step. pose proof (proj1 Hs) as Harr.
  assert (Hload : m !! p = Some (default 0 (head s))).
  { destruct s as [|c s]; [by apply cstring_nil|by apply cstring_cons in Hs as [? _]]. }
  apply (wp_load m p _ _ Hload). wp_step.
  assert (Hslash : (default 0 (head s) =? 47) = bool_decide ([47] `prefix_of` s)).
  { destruct s as [|c s]; [by rewrite bool_decide_false by (by intros ?%prefix_nil_inv)|]. change (default 0 (head (c :: s))) with c.
    destruct (Z.eqb_spec c 47) as [->|Hne]; symmetry; [apply bool_decide_true; exists s; done|].
    apply bool_decide_false. intros H%prefix_cons_inv_1. congruence. }
  assert (Hk : ∀ again, again = antisocial s → wp (if (again : bool) then q ← strchr p 47; strip_loop L fuel (q + 1) else mret p) Q m).
  { intros again ->. destruct (antisocial s) eqn:Ea.
    - destruct (after_slash_split s (antisocial_slash s Ea)) as (t & Et & Ht). wp_step. apply (wp_strchr m p s); [done|lia|lia|].
      assert (Ei : index_of 47 (s ++ [0]) = Some (len t)).
      { rewrite Et, <-app_assoc. by apply index_of_middle. }
      rewrite Ei. cbn [pointer_to]. assert (Hs' := Hs). rewrite Et in Hs'. apply cstring_app in Hs' as [_ Hs'].
      apply cstring_cons in Hs' as (_ & _ & Hs'). pose proof (antisocial_shorter s Ea) as Hlt. destruct n as [|n]; [lia|].
      apply (IH _ (after_slash s) n); [lia|done|lia|lia|]. cbn [strip_prefixes] in HQ. rewrite Ea in HQ.
      assert (Elen : len s = len t + 1 + len (after_slash s)) by (rewrite Et at 1; rewrite length_app, length_cons; lia).
      intros q Hq1 Hq2 Hq3 Hq4 _. apply HQ; [done|done|lia|lia|done].
    - wp_step. assert (E : strip_prefixes n s = s) by (destruct n; [done|cbn [strip_prefixes]; by rewrite Ea]).
      rewrite E in HQ. apply HQ; [done|done|by left|done|done]. }
  rewrite Hslash. destruct (bool_decide ([47] `prefix_of` s)) eqn:E1.
  { wp_step. apply (Hk true). unfold antisocial. by rewrite E1. }
  change 2 with (len [46; 47]). wp_step. apply (wp_memcmp_prefix m p _ s [46; 47]); [done|by apply cstring_arr|by repeat constructor|lia|lia|].
  intros r Hr. rewrite Hr. destruct (bool_decide ([46; 47] `prefix_of` s)) eqn:E2.
  { wp_step. apply (Hk true). unfold antisocial. by rewrite E1, E2. }
  change 3 with (len [46; 46; 47]). wp_step. apply (wp_memcmp_prefix m p _ s [46; 46; 47]); [done|by apply cstring_arr|by repeat constructor|lia|lia|].
  intros r' Hr'. wp_step. rewrite Hr'. apply Hk. unfold antisocial. by rewrite E1, E2.
Qed.

Lemma wp_strip m p s (Q : Z → mem → Prop) : literals_ok m → cstring m p s → 0 < p →
  (∀ q, 0 < q → cstring m q (stripped s) → (q = lit_dot L ∧ stripped s = [46] ∨ p ≤ q ∧ q + len (stripped s) = p + len s) →
     (antisocial s = false → s ≠ [] → s ≠ [46; 46] → q = p) → Q q m) →
  wp (strip_antisocial_prefixes L p) Q m.
Proof.
  intros HL Hs Hp HQ. unfold strip_antisocial_prefixes. wp_step. apply wp_scan_fuel. wp_step.
  apply (wp_strip_loop _ m p s); [done|done|done|by eapply cstring_fuel|]. intros q Hq Hqs Hpq Hend Hid.
  pose proof (lok_pos m HL) as Hpos.
  unfold stripped in HQ. cbv zeta in HQ. set (t := strip_prefixes (length s) s) in *.
  assert (Hload : m !! q = Some (default 0 (head t))).
  { destruct t as [|c t]; [by apply cstring_nil|by apply cstring_cons in Hqs as [? _]]. }
  assert (Est : antisocial s = false → t = s). { intros Ha. unfold t. destruct s; [done|]. cbn [length strip_prefixes]. by rewrite Ha. }
  wp_step. apply (wp_load m q _ _ Hload). destruct t as [|c t'] eqn:Et.
  - cbn [head default Z.eqb]. wp_step. apply HQ; [lia|apply (lok_dot m HL)|by left|]. intros Ha Hne. by rewrite <-Est in Hne.
  - change (default 0 (head (c :: t'))) with c. assert (Hc : 0 < c < 256) by (by apply cstring_cons in Hqs as (_ & ? & _)).
    rewrite (proj2 (Z.eqb_neq c 0)) by lia. rewrite <-Et in *. clear Hload.
    wp_step. apply (wp_strcmp m q _ t [46; 46]); [done|apply (lok_dotdot m HL)|lia|lia|]. wp_step.
    rewrite (bool_decide_false (t = [])) in HQ by (by rewrite Et). cbn [orb] in HQ.
    destruct (Z.eqb_spec (lex t [46; 46]) 0) as [El|El].
    + apply lex_eq in El. rewrite El in HQ. rewrite bool_decide_true in HQ by done. apply HQ; [lia|apply (lok_dot m HL)|by left|].
      intros Ha _ Hnd. destruct Hnd. by rewrite <-(Est Ha).
    + rewrite bool_decide_false in HQ by (by rewrite <-lex_eq). apply HQ; [done|done|right; lia|]. intros Ha _ _. by apply Hid.
Qed.
End strip.

(** ** Octal fields *)

(** [w] are octal digits of value [v], the most significant first. *)
Definition octal (w : list Z) (v : Z) : Prop :=
  Forall (λ c, 48 ≤ c ≤ 55) w ∧ horner 8 ((λ c, c - 48) <$> w) = v.

Lemma digit_char_o d : 0 ≤ d < 8 → digit_char base_o d = 48 + d.
Proof.
  intros Hd. assert (d = 0 ∨ d = 1 ∨ d = 2 ∨ d = 3 ∨ d = 4 ∨ d = 5 ∨ d = 6 ∨ d = 7) as H by lia.
  by repeat destruct H as [->|H]; [..|subst].
Qed.

Lemma horner_zeros n ds : horner 8 (replicate n 0 ++ ds) = horner 8 ds.
Proof. unfold horner. rewrite foldl_app. f_equal. induction n as [|n IH]; [done|exact IH]. Qed.

Lemma numeral_octal v body n : numeral base_o v body → octal (replicate n 48 ++ body) v.
Proof.
  intros (ds & -> & Hds & Hv & _). split.
  - apply Forall_app. split; [apply Forall_replicate; lia|]. apply Forall_fmap. apply (Forall_impl _ _ _ Hds).
    intros d Hd. cbn [base base_o] in Hd. cbn. rewrite digit_char_o by done. lia.
  - rewrite fmap_app, fmap_replicate. change (48 - 48) with 0. rewrite horner_zeros, <-list_fmap_compose. cbn [base base_o] in *.
    rewrite <-Hv. f_equal. rewrite <-(list_fmap_id ds) at 2. apply list_fmap_ext. intros i d Hd. cbn.
    rewrite digit_char_o; [unfold id; lia|]. by apply (Forall_lookup_1 _ _ _ _ Hds Hd).
Qed.

Lemma octal_text (k : nat) fmt v : (k = 7%nat ∧ fmt = text "07o") ∨ (k = 11%nat ∧ fmt = text "011o") → 0 ≤ v < 2 ^ 32 → v < 8 ^ Z.of_nat k →
  ∃ w, format_text (37 :: fmt) [Word v] = Ok w ∧ length w = k ∧ octal w v.
Proof.
  intros Hk Hv Hk'. assert (Hk22 : (1 ≤ k ≤ 22)%nat) by lia.
  destruct (format_text_o fmt (mk_conv ZERO (Z.of_nat k) (-1) INT) v k) as (body & Hnum & Hlen & E);
    [by destruct Hk as [[-> ->]|[-> ->]]|by destruct Hk as [[-> ->]|[-> ->]]|done|done|cbn; lia|done|lia|done|cbn; lia|].
  rewrite E. eexists. split; [done|]. unfold integer_text, integer_field, integer_number, sign_char. cbv zeta. cbn [flags precision width].
  change (has ZERO POUND) with false. change (has ZERO (Z.lor MINUS ZERO)) with true. change (has ZERO ZERO) with true.
  change (has ZERO MINUS) with false. change (if -1 <? 0 then 1 else -1) with 1. cbn [andb negb Z.eqb app]. rewrite app_nil_r.
  rewrite app_assoc, <-replicate_add. split; [|by apply numeral_octal].
  rewrite length_app, !length_replicate, length_app, length_replicate. change (len (@nil Z)) with 0. lia.
Qed.

Lemma wp_octal_field m s w v n : arr m s (w ++ [0]) → octal w v → 0 ≤ v < 2 ^ 32 → (0 < length w < n)%nat →
  wp (octal_loop n s 0 0) (λ r m', r = Some v ∧ m' = m) m.
Proof.
  intros Harr [Hw Hv] Hr Hn.
  enough (Hgen : ∀ t w1, w = w1 ++ t → (length t < n)%nat → wp (octal_loop n s (len w1) (horner 8 ((λ c, c - 48) <$> w1))) (λ r m', r = Some v ∧ m' = m) m).
  { apply (Hgen w []); [done|lia]. }
  intros t. assert (Hpos : 0 < len w) by lia. clear Hn. revert n. induction t as [|c t IH]; intros n w1 -> Hn; (destruct n as [|n]; [cbn in Hn; lia|]); cbn [octal_loop].
  - rewrite app_nil_r in *. apply arr_app in Harr as [_ H0]. apply arr_cons in H0 as [H0 _]. wp_step. apply (wp_load m _ 0); [done|].
    cbn [Z.leb Z.compare Z.eqb andb orb]. wp_step. rewrite (proj2 (Z.ltb_lt 0 _)) by lia. by rewrite Hv.
  - pose proof Hw as Hw'. apply Forall_app in Hw' as [Hw1 Hct]. apply Forall_cons in Hct as [Hc Ht].
    assert (Hload : m !! (s + len w1) = Some c).
    { rewrite <-app_assoc in Harr. apply arr_app in Harr as [_ H0]. by apply arr_cons in H0 as [H0 _]. }
    wp_step. apply (wp_load m _ c); [done|]. rewrite (proj2 (Z.leb_le 48 c)), (proj2 (Z.leb_le c 55)) by lia. cbn [andb].
    set (h1 := horner 8 ((λ c, c - 48) <$> w1)).
    assert (Hmono : ∀ l a, Forall (λ c, 48 ≤ c ≤ 55) l → 0 ≤ a → a ≤ foldl (λ acc d, acc * 8 + d) a ((λ c, c - 48) <$> l)).
    { clear. induction l as [|c l IH]; intros a Hl Ha; cbn; [lia|]. apply Forall_cons in Hl as [Hc Hl].
      specialize (IH (a * 8 + (c - 48)) Hl ltac:(lia)). lia. }
    assert (H1 : 0 ≤ h1) by (apply (Hmono w1 0 Hw1); lia).
    assert (Hnext : horner 8 ((λ c, c - 48) <$> w1 ++ [c]) = h1 * 8 + (c - 48)) by (by rewrite fmap_app; apply horner_app).
    assert (Hle : h1 * 8 + (c - 48) ≤ v).
    { rewrite <-Hv. rewrite <-Hnext. replace (w1 ++ c :: t) with ((w1 ++ [c]) ++ t) by (by rewrite <-app_assoc).
      rewrite (fmap_app _ (w1 ++ [c]) t). unfold horner. rewrite foldl_app. apply Hmono; [done|]. fold (horner 8 ((λ c, c - 48) <$> w1 ++ [c])). lia. }
    assert (Hov : ((2 ^ 32 - 1) / 8 <? h1) = false) by (apply Z.ltb_ge; apply Z.div_le_lower_bound; lia). rewrite Hov.
    rewrite wrap32_small by lia. replace (c - 48 + h1 * 8) with (h1 * 8 + (c - 48)) by lia. rewrite <-Hnext.
    replace (len w1 + 1) with (len (w1 ++ [c])) by (rewrite length_app; cbn [length]; lia).
    apply IH; [by rewrite <-app_assoc|cbn [length] in Hn; lia].
Qed.

(** ** Blocks written into a buffer *)

Definition writes (ws : list (Z * list Z)) (l : list Z) : list Z := foldl (λ l w, put w.1 w.2 l) l ws.

Definition fits (n : Z) (w : Z * list Z) : Prop := 0 ≤ w.1 ∧ w.1 + len w.2 ≤ n.
Definition apart (o n : Z) (w : Z * list Z) : Prop := o + n ≤ w.1 ∨ w.1 + len w.2 ≤ o.

Lemma writes_app ws w l : writes (ws ++ [w]) l = put w.1 w.2 (writes ws l).
Proof. unfold writes. by rewrite foldl_app. Qed.

Lemma length_writes ws l : Forall (fits (len l)) ws → length (writes ws l) = length l.
Proof.
  revert l. induction ws as [|w ws IH]; intros l H; [done|]. apply Forall_cons in H as [[H1 H2] H].
  assert (E : length (put w.1 w.2 l) = length l) by (by apply length_put). cbn [writes foldl]. fold (writes ws (put w.1 w.2 l)).
  rewrite IH; [done|]. by rewrite E.
Qed.

Lemma slice_writes o n ws l : 0 ≤ o → Forall (fits (len l)) ws → Forall (apart o n) ws → slice o n (writes ws l) = slice o n l.
Proof.
  intros Ho. revert l. induction ws as [|w ws IH]; intros l H Ha; [done|]. apply Forall_cons in H as [[H1 H2] H].
  apply Forall_cons in Ha as [Hw Ha]. assert (E : length (put w.1 w.2 l) = length l) by (by apply length_put).
  cbn [writes foldl]. fold (writes ws (put w.1 w.2 l)). rewrite IH; [by apply slice_put_disjoint|by rewrite E|done].
Qed.

(** The last block written at a place is what is there. *)
Lemma slice_written ws1 ws2 o d l : Forall (fits (len l)) ws1 → Forall (fits (len l)) ws2 → fits (len l) (o, d) →
  Forall (apart o (len d)) ws2 → slice o (len d) (writes (ws1 ++ (o, d) :: ws2) l) = d.
Proof.
  intros H1 H2 [H3 H4] Ha. cbn [fst snd] in *.
  assert (Ew : writes (ws1 ++ (o, d) :: ws2) l = writes ws2 (put o d (writes ws1 l))) by (unfold writes; by rewrite foldl_app).
  pose proof (length_writes ws1 l H1) as E1. assert (E : length (put o d (writes ws1 l)) = length l) by (rewrite length_put; [done|lia|lia]).
  rewrite Ew, slice_writes; [apply slice_put_same; lia|lia|by rewrite E|done].
Qed.

Lemma slice_written_at k ws o d l : ws !! k = Some (o, d) → Forall (fits (len l)) ws →
  Forall (apart o (len d)) (drop (S k) ws) → slice o (len d) (writes ws l) = d.
Proof.
  intros Hk Hf Ha. rewrite <-(take_drop_middle ws k (o, d) Hk). pose proof (Forall_lookup_1 _ _ _ _ Hf Hk).
  apply slice_written; [by apply Forall_take|by apply Forall_drop|done|done].
Qed.

(** ** The checksum *)

Definition chk_byte (l : list Z) (i : Z) : Z := if (148 <=? i) && (i <? 156) then 32 else default 0 (l !! Z.to_nat i).
Fixpoint chk_sum (n : nat) (i : Z) (l : list Z) : Z :=
  match n with O => 0 | S n => chk_byte l i + chk_sum n (i + 1) l end.

Lemma chk_byte_range l i : bytes l → 0 ≤ chk_byte l i < 256.
Proof.
  intros Hl. unfold chk_byte. destruct (_ && _); [lia|]. destruct (l !! Z.to_nat i) as [b|] eqn:E; [|cbn; lia].
  exact (Forall_lookup_1 _ _ _ _ Hl E).
Qed.

Lemma chk_sum_range n i l : bytes l → 0 ≤ chk_sum n i l ≤ 255 * Z.of_nat n.
Proof.
  intros Hl. revert i. induction n as [|n IH]; intros i; cbn [chk_sum]; [lia|]. specialize (IH (i + 1)). pose proof (chk_byte_range l i Hl). lia.
Qed.

Lemma chk_sum_ext n i l l' : (∀ j, chk_byte l j = chk_byte l' j) → chk_sum n i l = chk_sum n i l'.
Proof. intros H. revert i. induction n as [|n IH]; intros i; cbn [chk_sum]; [done|]. by rewrite H, IH. Qed.

Lemma chk_sum_put n i l d : 156 ≤ len l → len d = 8 → 0 ≤ i → chk_sum n i (put 148 d l) = chk_sum n i l.
Proof.
  intros Hl Hd. revert i. induction n as [|n IH]; intros i Hi; cbn [chk_sum]; [done|]. rewrite IH by lia. f_equal.
  unfold chk_byte. destruct ((148 <=? i) && (i <? 156)) eqn:E; [done|]. rewrite lookup_put by lia. by rewrite decide_False by lia.
Qed.

Lemma wp_calculate_chksum m h l (Q : Z → mem → Prop) : arr m h l → len l = 512 → bytes l →
  Q (chk_sum 512 0 l) m → wp (calculate_chksum h) Q m.
Proof.
  intros Harr Hlen Hb HQ. unfold calculate_chksum. change (Z.to_nat USTAR_HEADER_SIZE) with 512%nat.
  enough (Hgen : ∀ n i acc, 0 ≤ i → i + Z.of_nat n = 512 → 0 ≤ acc ≤ 255 * i → Q (acc + chk_sum n i l) m → wp (chksum_loop n i h acc) Q m).
  { apply Hgen; [lia|lia|lia|exact HQ]. }
  clear HQ. induction n as [|n IH]; intros i acc Hi Hn Hacc HQ; cbn [chksum_loop chk_sum] in *; [wp_step; by rewrite Z.add_0_r in HQ|].
  pose proof (chk_byte_range l i Hb) as Hr.
  assert (Hnext : wp (chksum_loop n (i + 1) h (wrap32 (acc + chk_byte l i))) Q m).
  { rewrite wrap32_small by lia. apply IH; [lia|lia|lia|]. by rewrite <-Z.add_assoc. }
  wp_step. change (f_chksum.1) with 148. change (148 + f_chksum.2) with 156. unfold chk_byte in Hnext.
  destruct ((148 <=? i) && (i <? 156)); [by wp_step|].
  destruct (lookup_lt_is_Some_2 l (Z.to_nat i)) as [b Hlb]; [lia|]. rewrite Hlb in Hnext. apply (wp_load m _ b); [|exact Hnext].
  replace i with (Z.of_nat (Z.to_nat i)) by lia. by apply Harr.
Qed.

(** ** The header in memory *)

Section header.
Context (L : literals) (h : Z) (m0 : mem).
Context (HL : literals_ok L m0) (Hh : 0 < h).

Definition outside (p n : Z) : Prop := p + n ≤ h ∨ h + 512 ≤ p.

Context (Hout : outside (lit_dot L) 2 ∧ outside (lit_dot_slash L) 3 ∧ outside (lit_dotdot L) 3 ∧ outside (lit_dotdot_slash L) 4 ∧
  outside (lit_zeros L) 8 ∧ outside (lit_ustar L) 6 ∧ outside (lit_root L) 5).

(** The header holds [l]; everything else is as it was. *)
Record hdr (m : mem) (l : list Z) : Prop := {
  hdr_arr : arr m h l;
  hdr_len : len l = 512;
  hdr_bytes : bytes l;
  hdr_keep a : ¬ (h ≤ a < h + 512) → m !! a = m0 !! a
}.

Lemma hdr_upd m l o w m' : hdr m l → upd m (h + o) w m' → 0 ≤ o → o + len w ≤ 512 → bytes w → hdr m' (put o w l).
Proof.
  intros [H1 H2 H3 H4] Hu Ho Hw Hb. assert (E : length (put o w l) = length l) by (apply length_put; lia). split.
  - intros i x Hi. assert (Hi' := lookup_lt_Some _ _ _ Hi). rewrite lookup_put in Hi by lia. rewrite Hu.
    destruct (decide (o ≤ Z.of_nat i < o + len w)).
    + rewrite decide_True by lia. rewrite <-Hi. f_equal. lia.
    + rewrite decide_False by lia. by apply H1.
  - by rewrite E.
  - by apply Forall_put.
  - intros a Ha. rewrite Hu, decide_False by lia. by apply H4.
Qed.

Lemma hdr_string m l p s : hdr m l → cstring m0 p s → outside p (len s + 1) → cstring m p s.
Proof.
  intros Hm [Hs Hc] Ho. split; [|done]. intros i x Hi. pose proof (lookup_lt_Some _ _ _ Hi) as Hl. rewrite length_app in Hl. cbn in Hl.
  rewrite (hdr_keep m l Hm); [by apply Hs|]. unfold outside in Ho. lia.
Qed.

Lemma hdr_literals m l : hdr m l → literals_ok L m.
Proof. intros Hm. destruct HL. split; try done; (eapply hdr_string; [done|done|]; vm_compute len in *; apply Hout). Qed.

Lemma hdr_slice m l o n : hdr m l → 0 ≤ o → 0 ≤ n → arr m (h + o) (slice o n l).
Proof. intros Hm Ho Hn. apply arr_slice; [apply Hm|done|done]. Qed.

Lemma bytes_string s : chars s → bytes (s ++ [0]).
Proof.
  intros Hs. apply bytes_app; [|repeat constructor; unfold is_byte; lia]. apply (Forall_impl _ _ _ Hs). unfold is_byte. lia.
Qed.

Lemma wp_put_string m l o n src s (Q : unit → mem → Prop) : hdr m l → cstring m0 src s → 0 < src → outside src (len s + 1) →
  0 ≤ o → o + n ≤ 512 → len s < n → (∀ m', hdr m' (put o (s ++ [0]) l) → Q tt m') → wp (put_string h (o, n) src) Q m.
Proof.
  intros Hm Hs Hsrc Ho Ho1 Ho2 Hn HQ. unfold put_string. cbn [fst snd]. wp_step. pose proof (hdr_len m l Hm) as Hlen.
  assert (Hsl : len (slice o n l) = n) by (apply length_slice; lia). rewrite <-Hsl at 1. eapply wp_mono.
  - apply (wp_strlcpy m src s (h + o) (slice o n l)). split; [by apply (hdr_string m l)|by apply hdr_slice; [..|lia]|lia|lia|lia|].
    unfold outside in Ho. rewrite Hsl. lia.
  - intros r m' (_ & Hu & _). wp_step. apply HQ. apply (hdr_upd m l o _ m'); [done| |done| |apply bytes_string, Hs].
    + by rewrite take_ge in Hu by lia.
    + rewrite length_app. cbn [length]. lia.
Qed.

Lemma octal_chars w v : octal w v → chars w.
Proof. intros [Hw _]. apply (Forall_impl _ _ _ Hw). lia. Qed.

Lemma wp_put_octal m l o n fmt v w (Q : unit → mem → Prop) : hdr m l → format_text fmt [Word v] = Ok w → octal w v → len w + 1 = n →
  0 ≤ o → o + n ≤ 512 → (∀ m', hdr m' (put o (w ++ [0]) l) → Q tt m') → wp (put_octal h (o, n) n fmt v) Q m.
Proof.
  intros Hm Hf Hw Hn Ho1 Ho2 HQ. unfold put_octal, snprintf. cbn [fst snd]. wp_step. pose proof (hdr_len m l Hm) as Hlen.
  assert (Hsl : len (slice o n l) = n) by (apply length_slice; lia).
  destruct (vsnprintf_run m (h + o) n fmt [Word v] w (slice o n l)) as (m' & E & Hu); [done|by apply hdr_slice; [..|lia]|done|lia|lia|].
  unfold wp at 1. rewrite E. wp_step. apply HQ. apply (hdr_upd m l o _ m'); [done| |done| |by apply bytes_string, (octal_chars w v)].
  - unfold buffer_text in Hu. rewrite (proj2 (Z.ltb_lt 0 n)) in Hu by lia. by rewrite take_ge in Hu by lia.
  - rewrite length_app. cbn [length]. lia.
Qed.

Lemma wp_put_byte m l o b (Q : unit → mem → Prop) : hdr m l → 0 ≤ o < 512 → 0 ≤ b < 256 →
  (∀ m', hdr m' (put o [b] l) → Q tt m') → wp (store (h + o) b) Q m.
Proof.
  intros Hm Ho Hb HQ. pose proof (hdr_len m l Hm) as Hlen. destruct (lookup_lt_is_Some_2 l (Z.to_nat o)) as [x Hx]; [lia|].
  apply (wp_store m _ x). { replace o with (Z.of_nat (Z.to_nat o)) by lia. by apply (hdr_arr m l Hm). }
  apply HQ. apply (hdr_upd m l o [b] (<[h + o := b]> m)); [done|apply upd_insert|lia|cbn; lia|by apply Forall_singleton].
Qed.

Lemma wp_memset_loop m p d v (Q : unit → mem → Prop) : arr m p d →
  (∀ m', upd m p (replicate (length d) v) m' → Q tt m') → wp (memset_loop (length d) p v) Q m.
Proof.
  revert m p Q. induction d as [|x d IH]; intros m p Q Hd HQ; cbn [length memset_loop].
  - wp_step. apply HQ, upd_nil.
  - apply arr_cons in Hd as [Hx Hd]. wp_step. apply (wp_store m p x); [done|]. apply IH.
    + eapply arr_upd_disjoint; [apply upd_insert|done|cbn [length]; lia].
    + intros m' Hu. apply HQ. cbn [replicate]. apply (upd_app m p [v] _ (<[p := v]> m)); [apply upd_insert|done].
Qed.

(** What [ustar_make_header] writes, in its order, but for the checksum. *)
Definition header_writes (name mode size mtime : list Z) (type : Z) : list (Z * list Z) :=
  [(0, name ++ [0]); (100, mode ++ [0]); (108, text "0000000" ++ [0]); (116, text "0000000" ++ [0]); (124, size ++ [0]);
   (136, mtime ++ [0]); (156, [type]); (257, text "ustar" ++ [0]); (264, [48]); (263, [48]); (297, text "root" ++ [0]); (265, text "root" ++ [0])].

Definition zeros : list Z := replicate 512 0.

Record made (name : list Z) (type size : Z) (l : list Z) : Prop := {
  made_header : ∃ mode wsize mtime chk, let ws := header_writes name mode wsize mtime type in
    length mode = 7%nat ∧ length wsize = 11%nat ∧ length mtime = 11%nat ∧ length chk = 7%nat ∧ octal wsize size ∧
    octal chk (chk_sum 512 0 (writes ws zeros)) ∧ l = writes (ws ++ [(148, chk ++ [0])]) zeros
}.

Lemma wp_make p name type size d (Q : bool → mem → Prop) : cstring m0 p name → 0 < p → outside p (len name + 1) →
  arr m0 h d → len d = 512 → type = USTAR_REGULAR ∨ type = USTAR_DIRECTORY → 0 ≤ size < 2 ^ 31 →
  (99 < len (stripped name) → Q false m0) →
  (len (stripped name) ≤ 99 → ∀ m l, hdr m l → made (stripped name) type size l → Q true m) →
  wp (ustar_make_header L p type size h) Q m0.
Proof.
  intros Hs Hp Ho Hd Hdl Ht Hsize HQf HQt.
  assert (Etype : wrap8 type = type ∧ 0 ≤ type < 256) by (by destruct Ht as [->| ->]).
  unfold ustar_make_header. cbv zeta.
  wp_step. wp_step; [by destruct Ht as [->| ->]|]. wp_step. apply (wp_strip L m0 p name); [done..|]. intros q Hq Hqs Hloc _.
  assert (Hqo : outside q (len (stripped name) + 1)).
  { destruct Hloc as [[-> ->]|[H1 H2]]; [apply Hout|]. unfold outside in *. lia. }
  wp_step. apply (wp_strlen m0 q (stripped name)); [done|lia|]. set (nm := stripped name) in *.
  destruct (Z.ltb_spec 99 (len nm)) as [Hlong|Hshort]; [wp_step; by apply HQf|]. specialize (HQt Hshort).
  destruct (octal_text 7 (text "07o") (if type =? USTAR_REGULAR then 420 else 493)) as (mode & Fm & Lm & Om); [by left|by destruct Ht as [->| ->]|by destruct Ht as [->| ->]|].
  destruct (octal_text 11 (text "011o") size) as (wsize & Fs & Ls & Os); [by right|lia|cbn; lia|].
  destruct (octal_text 11 (text "011o") 1136102400) as (mtime & Ft & Lt & Ot); [by right|lia|by vm_compute|].
  wp_step. unfold memset. wp_step. wp_step. { by rewrite (proj2 (Z.eqb_neq h 0)) by lia. }
  wp_step. replace (Z.to_nat USTAR_HEADER_SIZE) with (length d) by (unfold USTAR_HEADER_SIZE; lia).
  apply wp_memset_loop; [done|]. change (wrap8 0) with 0. assert (Ed : replicate (length d) 0 = zeros) by (unfold zeros; f_equal; lia). rewrite Ed. intros m Hu.
  assert (Hz : len zeros = 512) by done.
  assert (Hm : hdr m zeros).
  { split; [by apply (arr_upd_same m0)|done|apply Forall_replicate; unfold is_byte; lia|]. intros a Ha. by rewrite Hu, decide_False by lia. }
  clear Hu. wp_step. wp_step. pose proof (lok_pos L m0 HL) as Hpos.
  eapply (wp_put_string m zeros 0 100 q nm); [done|done|done|done|lia|lia|lia|]. clear m Hm. intros m Hm.
  wp_step. eapply (wp_put_octal m _ 100 8); [done|exact Fm|exact Om|lia|lia|lia|]. clear m Hm. intros m Hm.
  wp_step. eapply (wp_put_string m _ 108 8); [done|apply (lok_zeros L m0 HL)|apply Hpos|apply Hout|lia|lia|by vm_compute|]. clear m Hm. intros m Hm.
  wp_step. eapply (wp_put_string m _ 116 8); [done|apply (lok_zeros L m0 HL)|apply Hpos|apply Hout|lia|lia|by vm_compute|]. clear m Hm. intros m Hm.
  wp_step. eapply (wp_put_octal m _ 124 12); [done|exact Fs|exact Os|lia|lia|lia|]. clear m Hm. intros m Hm.
  wp_step. eapply (wp_put_octal m _ 136 12); [done|exact Ft|exact Ot|lia|lia|lia|]. clear m Hm. intros m Hm.
  wp_step. rewrite (proj1 Etype). eapply (wp_put_byte m _ 156); [done|lia|apply Etype|]. clear m Hm. intros m Hm.
  wp_step. eapply (wp_put_string m _ 257 6); [done|apply (lok_ustar L m0 HL)|apply Hpos|apply Hout|lia|lia|by vm_compute|]. clear m Hm. intros m Hm.
  wp_step. replace (h + f_version.1 + 1) with (h + 264) by (cbn [f_version fst]; lia). eapply (wp_put_byte m _ 264); [done|lia|lia|]. clear m Hm. intros m Hm.
  wp_step. eapply (wp_put_byte m _ 263); [done|lia|lia|]. clear m Hm. intros m Hm.
  wp_step. eapply (wp_put_string m _ 297 32); [done|apply (lok_root L m0 HL)|apply Hpos|apply Hout|lia|lia|by vm_compute|]. clear m Hm. intros m Hm.
  wp_step. eapply (wp_put_string m _ 265 32); [done|apply (lok_root L m0 HL)|apply Hpos|apply Hout|lia|lia|by vm_compute|]. clear m Hm. intros m Hm.
  match type of Hm with hdr m ?l => change l with (writes (header_writes nm mode wsize mtime type) zeros) in Hm end.
  set (ws := header_writes nm mode wsize mtime type) in *.
  wp_step. apply (wp_calculate_chksum m h (writes ws zeros)); [apply Hm|apply Hm|apply Hm|].
  pose proof (chk_sum_range 512 0 (writes ws zeros) (hdr_bytes m _ Hm)) as Hchk. set (ck := chk_sum 512 0 (writes ws zeros)) in *.
  destruct (octal_text 7 (text "07o") ck) as (wc & Fc & Lc & Oc); [by left|lia|change (8 ^ Z.of_nat 7) with 2097152; lia|].
  wp_step. eapply (wp_put_octal m _ 148 8); [done|exact Fc|exact Oc|lia|lia|lia|]. clear m Hm. intros m Hm. wp_step.
  apply (HQt m (writes (ws ++ [(148, wc ++ [0])]) zeros)); [by rewrite writes_app|]. split. exists mode, wsize, mtime, wc.
  do 6 (split; [assumption|]). reflexivity.
Qed.

Ltac blocks := repeat (apply Forall_cons; split; [unfold fits, apart; cbn [fst snd length]; rewrite ?length_app; cbn [length]; lia|]); apply Forall_nil; done.

Section fields.
Context (nm mode wsize mtime wc : list Z) (type : Z).
Context (Hnm : len nm ≤ 99) (Lm : length mode = 7%nat) (Ls : length wsize = 11%nat) (Lt : length mtime = 11%nat) (Lc : length wc = 7%nat).
Let ws := header_writes nm mode wsize mtime type ++ [(148, wc ++ [0])].
Let l := writes ws zeros.

Lemma made_fits : Forall (fits (len zeros)) ws.
Proof.
  change (len zeros) with 512. unfold ws, header_writes. cbn [app].
  assert (length (text "0000000") = 7%nat) by done. assert (length (text "ustar") = 5%nat) by done. assert (length (text "root") = 4%nat) by done.
  blocks.
Qed.

Lemma made_field k o d : ws !! k = Some (o, d) → Forall (apart o (len d)) (drop (S k) ws) → slice o (len d) l = d.
Proof. intros Hk Ha. apply (slice_written_at k); [done|apply made_fits|done]. Qed.

Lemma made_fields : slice 0 (len (nm ++ [0])) l = nm ++ [0] ∧ slice 124 (len (wsize ++ [0])) l = wsize ++ [0] ∧
  slice 148 (len (wc ++ [0])) l = wc ++ [0] ∧ slice 156 1 l = [type] ∧ slice 257 6 l = text "ustar" ++ [0] ∧
  slice 263 1 l = [48] ∧ slice 264 1 l = [48] ∧ slice 99 1 l = [0] ∧ slice 345 1 l = [0].
Proof.
  assert (length (text "0000000") = 7%nat) by done. assert (length (text "ustar") = 5%nat) by done. assert (length (text "root") = 4%nat) by done.
  assert (E6 : 6 = len (text "ustar" ++ [0])) by done.
  repeat apply conj.
  - apply (made_field 0); [done|]. cbn [ws header_writes drop app]. blocks.
  - apply (made_field 4); [done|]. cbn [ws header_writes drop app]. blocks.
  - apply (made_field 12); [done|]. cbn [ws header_writes drop app]. blocks.
  - apply (made_field 6 156 [type]); [done|]. cbn [ws header_writes drop app]. blocks.
  - rewrite E6 at 1. apply (made_field 7); [done|]. cbn [ws header_writes drop app]. rewrite <-E6. blocks.
  - apply (made_field 9 263 [48]); [done|]. cbn [ws header_writes drop app]. blocks.
  - apply (made_field 8 264 [48]); [done|]. cbn [ws header_writes drop app]. blocks.
  - destruct (decide (len nm = 99)) as [E|].
    + pose proof (made_field 0 0 (nm ++ [0]) eq_refl ltac:(cbn [ws header_writes drop app]; blocks)) as Hf.
      pose proof (f_equal (slice 99 1) Hf) as Hg. rewrite slice_slice in Hg by (rewrite ?length_app; cbn [length]; lia).
      change (0 + 99) with 99 in Hg. rewrite Hg. unfold slice. rewrite drop_app_ge by lia. by replace (Z.to_nat 99 - length nm)%nat with O by lia.
    + unfold l. rewrite slice_writes; [done|lia|apply made_fits|]. unfold ws, header_writes. cbn [app]. blocks.
  - unfold l. rewrite slice_writes; [done|lia|apply made_fits|]. unfold ws, header_writes. cbn [app]. blocks.
Qed.
End fields.

Lemma wp_is_all_zeros m p l (Q : bool → mem → Prop) : arr m p l → Q (forallb (λ b, b =? 0) l) m → wp (is_all_zeros p (len l)) Q m.
Proof.
  unfold is_all_zeros. rewrite Nat2Z.id. revert p Q. induction l as [|b l IH]; intros p Q Hl HQ; cbn [length is_all_zeros_loop forallb] in *; [by wp_step|].
  apply arr_cons in Hl as [Hb Hl]. wp_step. apply (wp_load m p b); [done|]. destruct (b =? 0); cbn [negb andb] in *; [by apply IH|by wp_step].
Qed.

Lemma hdr_load m l o b (Q : Z → mem → Prop) : hdr m l → slice o 1 l = [b] → 0 ≤ o → Q b m → wp (load (h + o)) Q m.
Proof.
  intros Hm Hs Ho. apply wp_load. pose proof (hdr_slice m l o 1 Hm Ho ltac:(lia)) as H. rewrite Hs in H. by apply arr_cons in H as [H _].
Qed.

Lemma hdr_octal m l o w v (n : nat) (Q : option Z → mem → Prop) : hdr m l → slice o (len (w ++ [0])) l = w ++ [0] → 0 ≤ o → octal w v →
  0 ≤ v < 2 ^ 32 → (0 < length w < n)%nat → Q (Some v) m → wp (parse_octal_field (h + o) (Z.of_nat n)) Q m.
Proof.
  intros Hm Hs Ho Hw Hv Hn HQ. unfold parse_octal_field. rewrite Nat2Z.id.
  pose proof (hdr_slice m l o (len (w ++ [0])) Hm Ho ltac:(lia)) as H. rewrite Hs in H.
  eapply wp_mono; [by apply (wp_octal_field m _ w v)|]. by intros r m' [-> ->].
Qed.

Lemma wp_parse m l nm type size : hdr m l → made nm type size l → chars nm → len nm ≤ 99 →
  antisocial nm = false → nm ≠ [] → nm ≠ [46; 46] → type = USTAR_REGULAR ∨ type = USTAR_DIRECTORY → 0 ≤ size < 2 ^ 31 →
  cstring m h nm ∧ wp (ustar_parse_header L h) (λ r m', m' = m ∧ r = inr (h, type, if type =? USTAR_REGULAR then size else 0)) m.
Proof.
  intros Hm [(mode & wsize & mtime & wc & Lm & Ls & Lt & Lc & Os & Oc & El)] Hc Hnm Hsoc Hne Hdd Ht Hsize.
  destruct (made_fields nm mode wsize mtime wc type Hnm Lm Ls Lt Lc) as (F1 & F2 & F3 & F4 & F5 & F6 & F7 & F8 & F9). rewrite <-El in *.
  assert (Hstr : cstring m h nm).
  { split; [|done]. pose proof (hdr_slice m l 0 (len (nm ++ [0])) Hm ltac:(lia) ltac:(lia)) as H. by rewrite F1, Z.add_0_r in H. }
  split; [done|]. pose proof (hdr_len m l Hm) as Hlen. pose proof (hdr_literals m l Hm) as HLm. pose proof (lok_pos L m HLm) as Hpos.
  unfold ustar_parse_header. cbv zeta. wp_step. replace USTAR_HEADER_SIZE with (len l) by done. apply (wp_is_all_zeros m h l); [apply Hm|].
  assert (Hnz : forallb (λ b, b =? 0) l = false).
  { destruct (forallb _ l) eqn:E; [|done]. exfalso. rewrite forallb_forall in E. specialize (E 48).
    pose proof (f_equal (λ k : list Z, k !! 0%nat) F6) as Hi. cbv beta in Hi. rewrite lookup_slice in Hi by lia.
    apply list_elem_of_lookup_2, list_elem_of_In, E in Hi. done. }
  rewrite Hnz. wp_step. change 6 with (len (text "ustar" ++ [0])) at 1.
  apply (wp_memcmp m _ _ (text "ustar" ++ [0]) (text "ustar" ++ [0])); [|apply (lok_ustar L m HLm)|done|cbn; lia|lia|].
  { rewrite <-F5. apply hdr_slice; [done|cbn; lia|lia]. }
  rewrite (proj2 (lex_eq _ _) eq_refl). cbn [Z.eqb negb].
  wp_step. apply (hdr_load m l 263 48); [done|done|lia|]. cbn [Z.eqb Pos.eqb negb]. wp_step.
  replace (h + f_version.1 + 1) with (h + 264) by (cbn [f_version fst]; lia). apply (hdr_load m l 264 48); [done|done|lia|]. cbn [Z.eqb Pos.eqb negb orb].
  set (ck := chk_sum 512 0 (writes (header_writes nm mode wsize mtime type) zeros)) in *.
  assert (Hck : ck = chk_sum 512 0 l).
  { unfold ck. rewrite El, writes_app. symmetry. apply chk_sum_put; [|cbn [fst snd]; rewrite length_app; cbn [length]; lia|lia].
    rewrite length_writes; [by vm_compute|]. pose proof (made_fits nm mode wsize mtime wc type Hnm Lm Ls Lt Lc) as Hf.
    by apply Forall_app in Hf as [Hf _]. }
  pose proof (chk_sum_range 512 0 l (hdr_bytes m l Hm)) as Hr. rewrite <-Hck in Hr.
  wp_step. apply (hdr_octal m l 148 wc ck 8); [done|done|lia|done|lia|lia|].
  wp_step. apply (wp_calculate_chksum m h l); [apply Hm|done|apply Hm|]. rewrite <-Hck, Z.eqb_refl. cbn [negb].
  wp_step. replace (h + f_name.1 + f_name.2 - 1) with (h + 99) by (cbn [f_name fst snd]; lia). apply (hdr_load m l 99 0); [done|done|lia|].
  cbn [Z.eqb negb]. wp_step. apply (hdr_load m l 345 0); [done|done|lia|]. cbn [Z.eqb negb orb].
  wp_step. apply (hdr_load m l 156 type); [done|done|lia|].
  assert (Hname : ∀ v : Z, wp (name ← strip_antisocial_prefixes L (h + f_name.1); mret (inr (name, type, v) : list Z + Z * Z * Z))
    (λ r m', m' = m ∧ r = inr (h, type, v)) m).
  { intros v. cbn [f_name fst]. rewrite Z.add_0_r. wp_step. apply (wp_strip L m h nm); [done|done|done|]. intros q _ _ _ Hq. wp_step.
    split; [done|]. by rewrite (Hq Hsoc Hne Hdd). }
  destruct Ht as [->| ->]; cbn [Z.eqb Pos.eqb negb andb USTAR_REGULAR USTAR_DIRECTORY].
  - wp_step. wp_step. apply (hdr_octal m l 124 wsize size 12); [done|done|lia|done|lia|lia|]. wp_step.
    rewrite (proj2 (Z.ltb_ge _ _)) by lia. apply Hname.
  - wp_step. wp_step. apply Hname.
Qed.
End header.

(** ** Round trip *)

(** A call of [ustar_make_header] with the name [name] at [p] and the 512 bytes
    at [h], which overlap neither the name nor the string literals. *)
Record ustar_call (L : literals) (m : mem) (h p : Z) (name : list Z) : Prop := {
  uc_literals : literals_ok L m;
  uc_header : 0 < h ∧ ∃ d, arr m h d ∧ len d = 512;
  uc_name : cstring m p name ∧ 0 < p;
  uc_apart : outside h p (len name + 1) ∧ outside h (lit_dot L) 2 ∧ outside h (lit_dot_slash L) 3 ∧ outside h (lit_dotdot L) 3 ∧
    outside h (lit_dotdot_slash L) 4 ∧ outside h (lit_zeros L) 8 ∧ outside h (lit_ustar L) 6 ∧ outside h (lit_root L) 5
}.

(** C39: [ustar_make_header] strips the prefixes "/", "./" and "../" from the
    file name; if more than 99 characters are left it returns false and writes
    nothing.  Otherwise it writes the 512 bytes of the header and nothing else,
    and [ustar_parse_header] accepts the header, checksum included, and returns
    the stripped name, the type, and the size (0 for a directory). *)
Theorem ustar_roundtrip L m h p name type size :
  ustar_call L m h p name → type = USTAR_REGULAR ∨ type = USTAR_DIRECTORY → 0 ≤ size < 2 ^ 31 →
  (99 < len (stripped name) → ustar_make_header L p type size h m = Ok (false, m)) ∧
  (len (stripped name) ≤ 99 → ∃ m',
     ustar_make_header L p type size h m = Ok (true, m') ∧
     (∀ a, ¬ (h ≤ a < h + 512) → m' !! a = m !! a) ∧
     ustar_parse_header L h m' = Ok (inr (h, type, if type =? USTAR_REGULAR then size else 0), m') ∧
     cstring m' h (stripped name)).
Proof.
  intros [HL [Hh (d & Hd & Hdl)] [Hs Hp] [Ho Hout]] Ht Hsize. destruct (stripped_social name) as (S1 & S2 & S3).
  assert (Hwp : wp (ustar_make_header L p type size h) (λ r m', if r then len (stripped name) ≤ 99 ∧ ∃ l, hdr h m m' l ∧ made (stripped name) type size l
    else 99 < len (stripped name) ∧ m' = m) m).
  { apply (wp_make L h m HL Hh Hout p name type size d); try done. intros Hle m' l Hm' Hl. split; [done|]. by exists l. }
  apply wp_Ok in Hwp as (r & m' & E & Hr). destruct r.
  - destruct Hr as (Hle & l & Hm' & Hl). split; [lia|]. intros _. exists m'. split; [done|]. split; [apply (hdr_keep h m m' l Hm')|].
    destruct (wp_parse L h m HL Hh Hout m' l (stripped name) type size) as [Hstr Hparse]; [done|done|by apply stripped_chars, Hs|done..|].
    apply wp_Ok in Hparse as (r & m2 & E2 & -> & ->). done.
  - destruct Hr as [Hgt ->]. split; [done|lia].
Qed.

Fixpoint arrb (m : mem) (p : Z) (l : list Z) : bool :=
  match l with [] => true | x :: l => bool_decide (m !! p = Some x) && arrb m (p + 1) l end.

Lemma arrb_arr m p l : arrb m p l = true → arr m p l.
Proof.
  revert p. induction l as [|x l IH]; intros p H; [apply arr_nil|]. cbn [arrb] in H. apply andb_true_iff in H as [H1 H2].
  apply arr_cons. split; [by apply bool_decide_eq_true in H1|by apply IH].
Qed.

(** The literals, the name "../b.c" and room for a header. *)
Definition example_literals : literals := mk_literals 1000 1010 1020 1030 1040 1050 1060.
Definition example_image : mem := list_to_map (concat
  ((λ x : Z * list Z, zip (seqZ x.1 (len x.2)) x.2) <$>
   [(1000, [46; 0]); (1010, [46; 47; 0]); (1020, [46; 46; 0]); (1030, [46; 46; 47; 0]); (1040, text "0000000" ++ [0]);
    (1050, text "ustar" ++ [0]); (1060, text "root" ++ [0]); (1100, text "../b.c" ++ [0]); (2000, replicate 512 255)])).

Lemma example_call : ustar_call example_literals example_image 2000 1100 (text "../b.c").
Proof.
  split.
  - split; try (split; [apply arrb_arr; vm_compute; reflexivity|repeat constructor; done]). cbn. lia.
  - split; [lia|]. exists (replicate 512 255). split; [apply arrb_arr; vm_compute; reflexivity|reflexivity].
  - split; [|lia]. split; [apply arrb_arr; vm_compute; reflexivity|repeat constructor; done].
  - unfold outside. cbn. lia.
Qed.

Lemma ustar_roundtrip_witness : ∃ m', ustar_make_header example_literals 1100 USTAR_REGULAR 1000 2000 example_image = Ok (true, m') ∧
  ustar_parse_header example_literals 2000 m' = Ok (inr (2000, USTAR_REGULAR, 1000), m') ∧ cstring m' 2000 (text "b.c").
Proof.
  destruct (ustar_roundtrip example_literals example_image 2000 1100 (text "../b.c") USTAR_REGULAR 1000 example_call) as [_ H]; [by left|lia|].
  destruct H as (m' & E & _ & E2 & Hs); [vm_compute; discriminate|]. exists m'. split; [exact E|]. split; [exact E2|exact Hs].
Defined.
