(* ===== verification/Blockdev.v ===== *)
(** * Block devices and partitions ([devices/block.c], [devices/partition.c])

    The registered devices are the list [all_blocks]; a pointer to a device is
    its index in it, since devices are never removed.  The driver of a device is
    the disk it is ([Disk]) or the partition of another device it stands for
    ([Partition]).  A disk is its bytes: the driver of the hardware returns what
    was written.  [mallocs] are the outcomes of the next allocations.  Messages
    on the console are left out. *)
From Stdlib Require Import Strings.String.
From S2P Require Import Prelude Bytes FsState Stdio.
#[local] Open Scope Z_scope.

(** The number of a type; the first four are roles. *)
Definition type_no (t : block_type) : nat :=
  match t with
  | BLOCK_KERNEL => 0 | BLOCK_FILESYS => 1 | BLOCK_SCRATCH => 2 | BLOCK_SWAP => 3 | BLOCK_RAW => 4 | BLOCK_FOREIGN => 5
  end.
Definition BLOCK_ROLE_CNT : nat := 4.

Inductive driver :=
  | Disk (disk : Z)
  | Partition (block : nat) (start : Z).

Record device := mk_device {
  name : list Z;
  type : block_type;
  dsize : Z;
  ops : driver;
  read_cnt : Z;
  write_cnt : Z
}.

Record bstate := mk_bstate {
  all_blocks : list device;
  block_by_role : list (option nat);
  disks : gmap Z (list Z);
  mallocs : list bool
}.

Definition set_blocks (x : list device) (s : bstate) : bstate := mk_bstate x (block_by_role s) (disks s) (mallocs s).
Definition set_roles (x : list (option nat)) (s : bstate) : bstate := mk_bstate (all_blocks s) x (disks s) (mallocs s).
Definition set_disks (x : gmap Z (list Z)) (s : bstate) : bstate := mk_bstate (all_blocks s) (block_by_role s) x (mallocs s).

(** ** Operations on devices *)

Definition block_type_name (t : block_type) : list Z :=
  match t with
  | BLOCK_KERNEL => text "kernel" | BLOCK_FILESYS => text "filesys" | BLOCK_SCRATCH => text "scratch"
  | BLOCK_SWAP => text "swap" | BLOCK_RAW => text "raw" | BLOCK_FOREIGN => text "foreign"
  end.

Definition get_block (b : nat) : M bstate device := λ s,
  match all_blocks s !! b with Some d => Ok (d, s) | None => Err BadAccess end.
Definition put_block (b : nat) (d : device) : M bstate unit := modify (λ s, set_blocks (<[b := d]> (all_blocks s)) s).

Definition block_get_role (role : block_type) : M bstate (option nat) :=
  ASSERT (bool_decide (type_no role < BLOCK_ROLE_CNT)%nat) ;;
  gets (λ s, mjoin (block_by_role s !! type_no role)).
Definition block_set_role (role : block_type) (block : option nat) : M bstate unit :=
  ASSERT (bool_decide (type_no role < BLOCK_ROLE_CNT)%nat) ;;
  modify (λ s, set_roles (<[type_no role := block]> (block_by_role s)) s).

(** A device, or a null pointer past the end of the list. *)
Definition elem_to_block (b : nat) (s : bstate) : option nat :=
  if bool_decide (b < length (all_blocks s))%nat then Some b else None.
Definition block_first : M bstate (option nat) := gets (elem_to_block 0).
Definition block_next (block : nat) : M bstate (option nat) := get_block block ;; gets (elem_to_block (S block)).

Fixpoint find_name (n : list Z) (l : list device) (b : nat) : option nat :=
  match l with [] => None | d :: l => if bool_decide (n = name d) then Some b else find_name n l (S b) end.
Definition block_get_by_name (n : list Z) : M bstate (option nat) := gets (λ s, find_name n (all_blocks s) 0).

Definition check_sector (d : device) (sector : Z) : M bstate unit :=
  if dsize d <=? sector then PANIC else mret tt.

Definition disk_read (disk sector : Z) : M bstate (list Z) := λ s,
  match disks s !! disk with
  | Some l => let c := slice (sector * BLOCK_SECTOR_SIZE) BLOCK_SECTOR_SIZE l in
      if len c =? BLOCK_SECTOR_SIZE then Ok (c, s) else Err BadAccess
  | None => Err BadAccess
  end.
Definition disk_write (disk sector : Z) (c : list Z) : M bstate unit := λ s,
  match disks s !! disk with
  | Some l => if ((sector + 1) * BLOCK_SECTOR_SIZE <=? len l) && (BLOCK_SECTOR_SIZE <=? len c)
      then Ok (tt, set_disks (<[disk := put (sector * BLOCK_SECTOR_SIZE) (slice 0 BLOCK_SECTOR_SIZE c) l]> (disks s)) s)
      else Err BadAccess
  | None => Err BadAccess
  end.

(** The driver of a partition calls [block_read] for the device it is part of;
    [fuel] bounds the nesting. *)
Definition partition_read (read : nat → Z → M bstate (list Z)) (block : nat) (start sector : Z) : M bstate (list Z) :=
  read block (wrap32 (start + sector)).
Definition partition_write (write : nat → Z → list Z → M bstate unit) (block : nat) (start sector : Z) (buffer : list Z) : M bstate unit :=
  write block (wrap32 (start + sector)) buffer.

Fixpoint block_read_fuel (fuel : nat) (block : nat) (sector : Z) : M bstate (list Z) :=
  match fuel with
  | O => throw OutOfFuel
  | S fuel =>
      d ← get_block block;
      check_sector d sector ;;
      c ← (match ops d with
           | Disk disk => disk_read disk sector
           | Partition b start => partition_read (block_read_fuel fuel) b start sector
           end);
      d ← get_block block;
      put_block block (mk_device (name d) (type d) (dsize d) (ops d) (wrap64 (read_cnt d + 1)) (write_cnt d)) ;;
      mret c
  end.
Definition block_read (block : nat) (sector : Z) : M bstate (list Z) := block_read_fuel (S block) block sector.

Fixpoint block_write_fuel (fuel : nat) (block : nat) (sector : Z) (buffer : list Z) : M bstate unit :=
  match fuel with
  | O => throw OutOfFuel
  | S fuel =>
      d ← get_block block;
      check_sector d sector ;;
      ASSERT (negb (bool_decide (type d = BLOCK_FOREIGN))) ;;
      (match ops d with
       | Disk disk => disk_write disk sector buffer
       | Partition b start => partition_write (block_write_fuel fuel) b start sector buffer
       end) ;;
      d ← get_block block;
      put_block block (mk_device (name d) (type d) (dsize d) (ops d) (read_cnt d) (wrap64 (write_cnt d + 1)))
  end.
Definition block_write (block : nat) (sector : Z) (buffer : list Z) : M bstate unit :=
  block_write_fuel (S block) block sector buffer.

Definition block_size (block : nat) : M bstate Z := d ← get_block block; mret (dsize d).
Definition block_name (block : nat) : M bstate (list Z) := d ← get_block block; mret (name d).
Definition block_type_of (block : nat) : M bstate block_type := d ← get_block block; mret (type d).

(** [malloc], of which only the outcome matters here. *)
Definition malloc : M bstate bool := λ s,
  match mallocs s with
  | [] => Ok (true, s)
  | ok :: l => Ok (ok, mk_bstate (all_blocks s) (block_by_role s) (disks s) l)
  end.

Definition block_register (n : list Z) (t : block_type) (size : Z) (drv : driver) : M bstate nat :=
  ok ← malloc;
  if negb ok then PANIC else
  b ← gets (λ s, length (all_blocks s));
  modify (λ s, set_blocks (all_blocks s ++ [mk_device (take 15 n) t size drv 0 0]) s) ;;
  mret b.

(** ** Partitions *)

(** An entry of a partition table: type, offset and size. *)
Record entry := mk_entry { e_type : Z; e_offset : Z; e_size : Z }.

Definition table_entry (pt : list Z) (i : Z) : entry :=
  let o := 446 + 16 * i in
  mk_entry (default 0 (pt !! Z.to_nat (o + 4))) (of_le32 (slice (o + 8) 4 pt)) (of_le32 (slice (o + 12) 4 pt)).
Definition signature_ok (pt : list Z) : bool :=
  (default 0 (pt !! 510%nat) =? 0x55) && (default 0 (pt !! 511%nat) =? 0xaa).

Definition is_extended (t : Z) : bool := (t =? 0x05) || (t =? 0x0f) || (t =? 0x85) || (t =? 0xc5).

Definition partition_type (part_type : Z) : block_type :=
  if part_type =? 0x20 then BLOCK_KERNEL else if part_type =? 0x21 then BLOCK_FILESYS
  else if part_type =? 0x22 then BLOCK_SCRATCH else if part_type =? 0x23 then BLOCK_SWAP else BLOCK_FOREIGN.

Definition lift {A} (r : result A) : M bstate A := λ s, match r with Ok a => Ok (a, s) | Err f => Err f end.

Definition found_partition (block : nat) (part_type start size part_nr : Z) : M bstate unit :=
  bs ← block_size block;
  if bs <=? start then mret tt
  else if (wrap32 (start + size) <? start) || (bs <? wrap32 (start + size)) then mret tt
  else
    ok ← malloc;
    if negb ok then PANIC else
    bn ← block_name block;
    n ← lift (format_text (text "%s%d") [Str (Some bn); Word part_nr]);
    block_register (take 15 n) (partition_type part_type) size (Partition block start) ;;
    mret tt.

(** The loop over the entries of the table [pt]; [nested] reads the table of
    an extended partition.  [part_nr] is passed on. *)
Fixpoint scan_entries (nested : Z → Z → Z → M bstate Z) (block : nat) (sector primary : Z) (pt : list Z) (n : nat) (i part_nr : Z)
    : M bstate Z :=
  match n with
  | O => mret part_nr
  | S n =>
      let e := table_entry pt i in
      nr ← (if (e_size e =? 0) || (e_type e =? 0) then mret part_nr
            else if is_extended (e_type e) then
              if sector =? 0 then nested (e_offset e) (e_offset e) part_nr
              else nested (wrap32 (e_offset e + primary)) primary part_nr
            else
              found_partition block (e_type e) (wrap32 (e_offset e + sector)) (e_size e) (int32 (part_nr + 1)) ;;
              mret (int32 (part_nr + 1)));
      scan_entries nested block sector primary pt n (i + 1) nr
  end.

(** The sector that is read is always sector 0. *)
Fixpoint read_partition_table (fuel : nat) (block : nat) (sector primary part_nr : Z) : M bstate Z :=
  match fuel with
  | O => throw OutOfFuel
  | S fuel =>
      bs ← block_size block;
      if bs <=? sector then mret part_nr else
      ok ← malloc;
      if negb ok then PANIC else
      pt ← block_read block 0;
      if negb (signature_ok pt) then mret part_nr else
      scan_entries (read_partition_table fuel block) block sector primary pt 4 0 part_nr
  end.

Definition partition_scan (fuel : nat) (block : nat) : M bstate unit :=
  read_partition_table fuel block 0 0 0 ;; mret tt.

(** ** Devices and the disks behind them *)

(** What does not change about a device. *)
Definition fixed (d : device) : list Z * block_type * Z * driver := (name d, type d, dsize d, ops d).

(** The sectors of a device: a disk and the first sector on it. *)
Fixpoint locate (fuel : nat) (l : list device) (b : nat) : option (Z * Z) :=
  match fuel with
  | O => None
  | S fuel =>
      d ← l !! b;
      match ops d with
      | Disk k => Some (k, 0)
      | Partition b' st => '(k, o) ← locate fuel l b'; Some (k, o + st)
      end
  end.

Record devs_ok (s : bstate) : Prop := {
  dok_size b d : all_blocks s !! b = Some d → 0 ≤ dsize d < 2 ^ 32;
  dok_disk b d k : all_blocks s !! b = Some d → ops d = Disk k → ∃ l, disks s !! k = Some l ∧ len l = 512 * dsize d;
  dok_part b d b' st : all_blocks s !! b = Some d → ops d = Partition b' st →
    (b' < b)%nat ∧ ∃ d', all_blocks s !! b' = Some d' ∧ 0 ≤ st ∧ st + dsize d ≤ dsize d' ∧ type d' ≠ BLOCK_FOREIGN
}.

Lemma locate_ok s b d fuel : devs_ok s → all_blocks s !! b = Some d → (b < fuel)%nat →
  ∃ k o l, locate fuel (all_blocks s) b = Some (k, o) ∧ disks s !! k = Some l ∧ 0 ≤ o ∧ 512 * (o + dsize d) ≤ len l.
Proof.
  intros Hok. revert b d. induction fuel as [|fuel IH]; intros b d Hd Hf; [lia|]. cbn [locate]. rewrite Hd. cbn [mbind option_bind].
  destruct (ops d) as [k|b' st] eqn:Ho.
  - destruct (dok_disk s Hok b d k Hd Ho) as (l & Hl & Hlen). exists k, 0, l. repeat split; (done || lia).
  - destruct (dok_part s Hok b d b' st Hd Ho) as (Hlt & d' & Hd' & Hst & Hle & _).
    destruct (IH b' d' Hd' ltac:(lia)) as (k & o & l & E & Hl & Ho' & Hlen). rewrite E. exists k, (o + st), l. cbn. repeat split; (done || lia).
Qed.

Lemma locate_fixed fuel l l' b : fixed <$> l = fixed <$> l' → locate fuel l b = locate fuel l' b.
Proof.
  intros E. revert b. induction fuel as [|fuel IH]; intros b; [done|]. cbn [locate].
  pose proof (f_equal (λ k, k !! b) E) as Eb. cbv beta in Eb. rewrite !list_lookup_fmap in Eb.
  destruct (l !! b) as [d|], (l' !! b) as [d'|]; try done. cbn in Eb |- *. injection Eb as _ _ _ Eo. rewrite Eo.
  destruct (ops d'); [done|]. by rewrite IH.
Qed.

(** Counting a transfer changes nothing else. *)
Definition count_read (d : device) : device := mk_device (name d) (type d) (dsize d) (ops d) (wrap64 (read_cnt d + 1)) (write_cnt d).
Definition count_write (d : device) : device := mk_device (name d) (type d) (dsize d) (ops d) (read_cnt d) (wrap64 (write_cnt d + 1)).

Lemma fixed_insert (l : list device) (b : nat) d d' : l !! b = Some d → fixed d' = fixed d → fixed <$> <[b := d']> l = fixed <$> l.
Proof. intros Hd E. rewrite list_fmap_insert, E. apply list_insert_id. by rewrite list_lookup_fmap, Hd. Qed.

Lemma fixed_lookup (l l' : list device) (b : nat) d : fixed <$> l' = fixed <$> l → l !! b = Some d → ∃ d', l' !! b = Some d' ∧ fixed d' = fixed d.
Proof.
  intros E Hd. pose proof (f_equal (λ k, k !! b) E) as Eb. cbv beta in Eb. rewrite !list_lookup_fmap, Hd in Eb.
  destruct (l' !! b) as [d'|]; [|done]. exists d'. split; [done|]. cbn in Eb. congruence.
Qed.

Lemma devs_ok_fixed s s' : devs_ok s → fixed <$> all_blocks s' = fixed <$> all_blocks s →
  (∀ k l, disks s !! k = Some l → ∃ l', disks s' !! k = Some l' ∧ length l' = length l) → devs_ok s'.
Proof.
  intros Hok E Hdisks.
  assert (Hback : ∀ b d, all_blocks s' !! b = Some d → ∃ d0, all_blocks s !! b = Some d0 ∧ fixed d0 = fixed d)
    by (intros b d Hd; exact (fixed_lookup (all_blocks s') (all_blocks s) b d (eq_sym E) Hd)).
  split.
  - intros b d Hd. destruct (Hback b d Hd) as (d0 & Hd0 & E0). injection E0 as _ _ <- _. by apply (dok_size s Hok b).
  - intros b d k Hd Ho. destruct (Hback b d Hd) as (d0 & Hd0 & E0). injection E0 as _ _ E1 E2. rewrite <-E2 in Ho.
    destruct (dok_disk s Hok b d0 k Hd0 Ho) as (l & Hl & Hlen). destruct (Hdisks k l Hl) as (l' & Hl' & El). exists l'. split; [done|]. lia.
  - intros b d b' st Hd Ho. destruct (Hback b d Hd) as (d0 & Hd0 & E0). injection E0 as _ _ E1 E2. rewrite <-E2 in Ho.
    destruct (dok_part s Hok b d0 b' st Hd0 Ho) as (Hlt & d' & Hd' & H1 & H2 & H3). split; [done|].
    destruct (fixed_lookup (all_blocks s) (all_blocks s') b' d' E Hd') as (d2 & Hd2 & E3). injection E3 as _ E4 E5 _. exists d2.
    split; [done|]. split; [done|]. split; [lia|]. by rewrite E4.
Qed.


(** The transfer counts of the devices after [b] stay. *)
Definition same_after (b : nat) (s s' : bstate) : Prop :=
  ∀ b2, (b < b2)%nat → all_blocks s' !! b2 = all_blocks s !! b2.

(** The end of a transfer: [block]'s count is raised. *)
Lemma counted_run {A} (f : device → device) (b : nat) (d : device) (a : A) s :
  all_blocks s !! b = Some d →
  (d ← get_block b; put_block b (f d) ;; mret a) s = Ok (a, set_blocks (<[b := f d]> (all_blocks s)) s).
Proof. intros Hd. unfold get_block, put_block, mbind, M_bind. by rewrite Hd. Qed.

Lemma block_read_run fuel s b d k o l sector : devs_ok s → all_blocks s !! b = Some d → (b < fuel)%nat →
  locate fuel (all_blocks s) b = Some (k, o) → disks s !! k = Some l → 0 ≤ sector < dsize d →
  ∃ s', block_read_fuel fuel b sector s = Ok (slice (512 * (o + sector)) 512 l, s') ∧ disks s' = disks s ∧
    fixed <$> all_blocks s' = fixed <$> all_blocks s ∧ all_blocks s' !! b = Some (count_read d) ∧ same_after b s s'.
Proof.
  intros Hok. revert b d o sector. induction fuel as [|fuel IH]; intros b d o sector Hd Hf; [lia|].
  cbn [locate block_read_fuel]. rewrite Hd. cbn [mbind option_bind]. intros Hloc Hl Hs.
  assert (Hsize := dok_size s Hok b d Hd).
  assert (H : ∃ s1, (match ops d with
      | Disk disk => disk_read disk sector
      | Partition b' start => partition_read (block_read_fuel fuel) b' start sector end) s = Ok (slice (512 * (o + sector)) 512 l, s1) ∧
      disks s1 = disks s ∧ fixed <$> all_blocks s1 = fixed <$> all_blocks s ∧ (∀ b2, (b <= b2)%nat → all_blocks s1 !! b2 = all_blocks s !! b2)).
  { destruct (ops d) as [k'|b' st] eqn:Ho.
    - injection Hloc as <- <-. destruct (dok_disk s Hok b d k' Hd Ho) as (l' & Hl' & Hlen). simplify_eq. exists s.
      unfold disk_read, BLOCK_SECTOR_SIZE. rewrite Hl. replace (512 * (0 + sector)) with (sector * 512) by lia.
      rewrite length_slice by lia. done.
    - destruct (dok_part s Hok b d b' st Hd Ho) as (Hlt & d' & Hd' & Hst & Hle & _). pose proof (dok_size s Hok b' d' Hd').
      destruct (locate fuel (all_blocks s) b') as [[k' o']|] eqn:E; [|done]. cbn in Hloc. injection Hloc as <- <-.
      unfold partition_read. rewrite wrap32_small by lia. destruct (IH b' d' o' (st + sector) Hd' ltac:(lia) E Hl ltac:(lia)) as (s1 & E1 & H1 & H2 & _ & H3).
      exists s1. rewrite E1. replace (o' + (st + sector)) with (o' + st + sector) by lia. repeat split; try done. intros b2 ?. apply H3. lia. }
  destruct H as (s1 & E1 & H1 & H2 & H3). pose proof (H3 b ltac:(lia)) as Hd1. rewrite Hd in Hd1.
  exists (set_blocks (<[b := count_read d]> (all_blocks s1)) s1). split; [|split; [done|split; [|split]]].
  - unfold mbind, M_bind. unfold get_block at 1. rewrite Hd. unfold check_sector. rewrite (proj2 (Z.leb_gt _ _)) by lia. cbn [mret M_ret].
    rewrite E1. by apply (counted_run count_read).
  - cbn. rewrite <-H2. by apply fixed_insert with d.
  - cbn. apply list_lookup_insert_eq. by apply lookup_lt_is_Some_1; exists d.
  - intros b2 ?. cbn. rewrite list_lookup_insert_ne by lia. apply H3. lia.
Qed.

Lemma block_write_run fuel s b d k o l sector buffer : devs_ok s → all_blocks s !! b = Some d → (b < fuel)%nat →
  locate fuel (all_blocks s) b = Some (k, o) → disks s !! k = Some l → 0 ≤ sector < dsize d →
  type d ≠ BLOCK_FOREIGN → 512 ≤ len buffer →
  ∃ s', block_write_fuel fuel b sector buffer s = Ok (tt, s') ∧
    disks s' = <[k := put (512 * (o + sector)) (slice 0 512 buffer) l]> (disks s) ∧
    fixed <$> all_blocks s' = fixed <$> all_blocks s ∧ all_blocks s' !! b = Some (count_write d) ∧ same_after b s s'.
Proof.
  intros Hok. revert b d o sector. induction fuel as [|fuel IH]; intros b d o sector Hd Hf; [lia|].
  cbn [locate block_write_fuel]. rewrite Hd. cbn [mbind option_bind]. intros Hloc Hl Hs Hty Hbuf.
  assert (Hsize := dok_size s Hok b d Hd).
  assert (H : ∃ s1, (match ops d with
      | Disk disk => disk_write disk sector buffer
      | Partition b' start => partition_write (block_write_fuel fuel) b' start sector buffer end) s = Ok (tt, s1) ∧
      disks s1 = <[k := put (512 * (o + sector)) (slice 0 512 buffer) l]> (disks s) ∧
      fixed <$> all_blocks s1 = fixed <$> all_blocks s ∧ (∀ b2, (b <= b2)%nat → all_blocks s1 !! b2 = all_blocks s !! b2)).
  { destruct (ops d) as [k'|b' st] eqn:Ho.
    - injection Hloc as <- <-. destruct (dok_disk s Hok b d k' Hd Ho) as (l' & Hl' & Hlen). simplify_eq.
      unfold disk_write, BLOCK_SECTOR_SIZE. rewrite Hl. replace (512 * (0 + sector)) with (sector * 512) by lia.
      rewrite (proj2 (Z.leb_le _ _)), (proj2 (Z.leb_le _ _)) by lia. by eexists.
    - destruct (dok_part s Hok b d b' st Hd Ho) as (Hlt & d' & Hd' & Hst & Hle & Hty'). pose proof (dok_size s Hok b' d' Hd').
      destruct (locate fuel (all_blocks s) b') as [[k' o']|] eqn:E; [|done]. cbn in Hloc. injection Hloc as <- <-.
      unfold partition_write. rewrite wrap32_small by lia.
      destruct (IH b' d' o' (st + sector) Hd' ltac:(lia) E Hl ltac:(lia) Hty' Hbuf) as (s1 & E1 & H1 & H2 & _ & H3).
      exists s1. rewrite E1. replace (o' + st + sector) with (o' + (st + sector)) by lia. repeat split; try done. intros b2 ?. apply H3. lia. }
  destruct H as (s1 & E1 & H1 & H2 & H3). pose proof (H3 b ltac:(lia)) as Hd1. rewrite Hd in Hd1.
  exists (set_blocks (<[b := count_write d]> (all_blocks s1)) s1). split; [|split; [done|split; [|split]]].
  - unfold mbind, M_bind. unfold get_block at 1. rewrite Hd. unfold check_sector, ASSERT. rewrite (proj2 (Z.leb_gt _ _)) by lia.
    rewrite bool_decide_false by done. cbn [mret M_ret negb]. rewrite E1. unfold get_block, put_block, modify. by rewrite Hd1.
  - cbn. rewrite <-H2. by apply fixed_insert with d.
  - cbn. apply list_lookup_insert_eq. by apply lookup_lt_is_Some_1; exists d.
  - intros b2 ?. cbn. rewrite list_lookup_insert_ne by lia. apply H3. lia.
Qed.

(** A device as the file system sees it. *)
Definition view (s : bstate) (b : nat) : option block :=
  d ← all_blocks s !! b;
  '(k, o) ← locate (S b) (all_blocks s) b;
  l ← disks s !! k;
  Some (mk_block (type d) (dsize d) (slice (512 * o) (512 * dsize d) l) (read_cnt d) (write_cnt d)).

(** Two devices without a common sector. *)
Definition disjoint_devices (s : bstate) (b b2 : nat) : Prop :=
  ∀ d d2 k o k2 o2, all_blocks s !! b = Some d → all_blocks s !! b2 = Some d2 →
    locate (S b) (all_blocks s) b = Some (k, o) → locate (S b2) (all_blocks s) b2 = Some (k2, o2) →
    k ≠ k2 ∨ o + dsize d ≤ o2 ∨ o2 + dsize d2 ≤ o.

Lemma view_inv s b v : devs_ok s → view s b = Some v → ∃ d k o l, all_blocks s !! b = Some d ∧
  locate (S b) (all_blocks s) b = Some (k, o) ∧ disks s !! k = Some l ∧ 0 ≤ o ∧ 512 * (o + dsize d) ≤ len l ∧
  v = mk_block (type d) (dsize d) (slice (512 * o) (512 * dsize d) l) (read_cnt d) (write_cnt d).
Proof.
  intros Hok. unfold view. destruct (all_blocks s !! b) as [d|] eqn:Hd; [|done].
  destruct (locate_ok s b d (S b) Hok Hd ltac:(lia)) as (k & o & l & E & Hl & Ho & Hlen). rewrite E. cbn [mbind option_bind]. rewrite Hl.
  cbn. intros [= <-]. by exists d, k, o, l.
Qed.

Lemma view_intro s b d k o l : all_blocks s !! b = Some d → locate (S b) (all_blocks s) b = Some (k, o) → disks s !! k = Some l →
  view s b = Some (mk_block (type d) (dsize d) (slice (512 * o) (512 * dsize d) l) (read_cnt d) (write_cnt d)).
Proof. intros Hd E Hl. unfold view. rewrite Hd, E. cbn. by rewrite Hl. Qed.

(** What a device holds, its transfer counts aside. *)
Definition holds (s : bstate) (b : nat) : option (block_type * Z * list Z) := (λ v, (btype v, bsize v, contents v)) <$> view s b.

Lemma holds_fixed s s' b2 : fixed <$> all_blocks s' = fixed <$> all_blocks s →
  (∀ d2 k2 o2, all_blocks s !! b2 = Some d2 → locate (S b2) (all_blocks s) b2 = Some (k2, o2) →
     slice (512 * o2) (512 * dsize d2) <$> disks s' !! k2 = slice (512 * o2) (512 * dsize d2) <$> disks s !! k2) →
  holds s' b2 = holds s b2.
Proof.
  intros E Hd. unfold holds, view. rewrite (locate_fixed (S b2) _ _ b2 E).
  destruct (all_blocks s !! b2) as [d2|] eqn:E2.
  - destruct (fixed_lookup (all_blocks s) (all_blocks s') b2 d2 E E2) as (d' & -> & E3). injection E3 as _ Et Es _.
    cbn [mbind option_bind]. destruct (locate (S b2) (all_blocks s) b2) as [[k2 o2]|] eqn:E4; [|done].
    specialize (Hd d2 k2 o2 eq_refl eq_refl). rewrite Et, Es.
    cbn [mbind option_bind]. destruct (disks s' !! k2), (disks s !! k2); try done. cbn -[slice Z.mul] in Hd |- *. congruence.
  - pose proof (f_equal (λ k, k !! b2) E) as Eb. cbv beta in Eb. rewrite !list_lookup_fmap, E2 in Eb.
    by destruct (all_blocks s' !! b2).
Qed.

Lemma block_read_refines s b v sector : devs_ok s → view s b = Some v → 0 ≤ sector →
  match FsState.block_read sector v with
  | Ok (c, v') => ∃ s', block_read b sector s = Ok (c, s') ∧ view s' b = Some v' ∧ devs_ok s' ∧ ∀ b2, holds s' b2 = holds s b2
  | Err f => block_read b sector s = Err f
  end.
Proof.
  intros Hok Hv Hs. destruct (view_inv s b v Hok Hv) as (d & k & o & l & Hd & El & Hl & Ho & Hlen & ->).
  unfold FsState.block_read, FsState.check_sector. cbn [bsize]. destruct (Z.leb_spec (dsize d) sector).
  { unfold block_read. cbn [block_read_fuel]. unfold mbind, M_bind, get_block. rewrite Hd. unfold check_sector.
    by rewrite (proj2 (Z.leb_le _ _)) by lia. }
  destruct (block_read_run (S b) s b d k o l sector Hok Hd ltac:(lia) El Hl ltac:(lia)) as (s' & E & Hdk & Hfx & Hd' & Haft).
  exists s'. cbn [contents btype bsize FsState.read_cnt FsState.write_cnt]. split; [|split; [|split]].
  - unfold block_read. rewrite E. do 2 f_equal. symmetry. rewrite slice_slice by lia. f_equal. lia.
  - rewrite (view_intro s' b (count_read d) k o l Hd'); [done| |by rewrite Hdk]. by rewrite (locate_fixed _ _ _ b Hfx).
  - apply (devs_ok_fixed s s' Hok Hfx). intros k0 l0 Hk0. exists l0. by rewrite Hdk.
  - intros b2. apply holds_fixed; [done|]. intros. by rewrite Hdk.
Qed.

Lemma block_write_refines s b v sector buffer : devs_ok s → view s b = Some v → 0 ≤ sector → 512 ≤ len buffer →
  match FsState.block_write sector buffer v with
  | Ok (_, v') => ∃ s', block_write b sector buffer s = Ok (tt, s') ∧ view s' b = Some v' ∧ devs_ok s' ∧
      ∀ b2, disjoint_devices s b b2 → holds s' b2 = holds s b2
  | Err f => block_write b sector buffer s = Err f
  end.
Proof.
  intros Hok Hv Hs Hbuf. destruct (view_inv s b v Hok Hv) as (d & k & o & l & Hd & El & Hl & Ho & Hlen & ->).
  unfold FsState.block_write, FsState.check_sector. cbn [bsize btype contents FsState.read_cnt FsState.write_cnt].
  destruct (Z.leb_spec (dsize d) sector).
  { unfold block_write. cbn [block_write_fuel]. unfold mbind, M_bind, get_block. rewrite Hd. unfold check_sector.
    by rewrite (proj2 (Z.leb_le _ _)) by lia. }
  cbn [mbind result_bind]. case_decide as Hty.
  { unfold block_write. cbn [block_write_fuel]. unfold mbind, M_bind, get_block. rewrite Hd. unfold check_sector, ASSERT.
    rewrite (proj2 (Z.leb_gt _ _)) by lia. by rewrite bool_decide_true. }
  rewrite (proj2 (Z.ltb_ge _ _)) by lia.
  assert (Hb : len (slice 0 512 buffer) = 512) by (apply length_slice; lia).
  destruct (block_write_run (S b) s b d k o l sector buffer Hok Hd ltac:(lia) El Hl ltac:(lia) Hty Hbuf) as (s' & E & Hdk & Hfx & Hd' & Haft).
  exists s'. split; [done|split; [|split]].
  - rewrite (view_intro s' b (count_write d) k o (put (512 * (o + sector)) (slice 0 512 buffer) l) Hd').
    + cbn [count_write type dsize read_cnt write_cnt]. rewrite slice_put_inside by lia. do 3 f_equal. lia.
    + by rewrite (locate_fixed _ _ _ b Hfx).
    + rewrite Hdk. apply lookup_insert_eq.
  - apply (devs_ok_fixed s s' Hok Hfx). intros k0 l0 Hk0. rewrite Hdk. destruct (decide (k = k0)) as [<-|].
    + rewrite lookup_insert_eq. eexists. split; [done|]. replace l0 with l by congruence. apply length_put; lia.
    + rewrite lookup_insert_ne by done. by exists l0.
  - intros b2 Hdis. apply holds_fixed; [done|]. intros d2 k2 o2 Hd2 El2.
    destruct (locate_ok s b2 d2 (S b2) Hok Hd2 ltac:(lia)) as (k3 & o3 & l3 & E3 & Hl3 & Ho3 & _). rewrite El2 in E3. injection E3 as <- <-.
    destruct (Hdis d d2 k o k2 o2 Hd Hd2 El El2) as [Hk|Hr]; rewrite Hdk.
    + by rewrite lookup_insert_ne.
    + destruct (decide (k = k2)) as [<-|]; [|by rewrite lookup_insert_ne]. rewrite lookup_insert_eq, Hl. cbn. f_equal.
      pose proof (dok_size s Hok b d Hd). apply slice_put_disjoint; lia.
Qed.

(** ** Scanning for partitions *)

Lemma vprintf_loop_more nested n format args l r :
  vprintf_loop collect nested n format args l = Ok r → vprintf_loop collect nested (S n) format args l = Ok r.
Proof.
  revert format args l. induction n as [|n IH]; intros format args l; [done|]. destruct format as [|ch rest]; [done|].
  change (vprintf_loop collect nested (S (S n)) (ch :: rest) args) with
    ('(format, args) ← vprintf_body collect nested ch rest args;
     match format with [] => throw BadAccess | _ :: format => vprintf_loop collect nested (S n) format args end).
  cbn [vprintf_loop]. unfold mbind, M_bind.
  destruct (vprintf_body collect nested ch rest args l) as [[[format args'] l']|]; [|done]. destruct format; [done|]. apply IH.
Qed.

(** A name of a partition: the name of the device and the number in decimal. *)
Lemma name_text bn nr : len bn < 2 ^ 31 → - 2 ^ 31 ≤ nr < 2 ^ 31 → ∃ w,
  format_text (text "%d") [Word nr] = Ok w ∧ format_text (text "%s%d") [Str (Some bn); Word nr] = Ok (bn ++ w).
Proof.
  intros Hbn Hnr. destruct (format_text_d [100] (mk_conv 0 0 (-1) INT) nr 11) as (body & _ & _ & E); try done; [cbn; lia..|].
  eexists. split; [exact E|]. pose proof (vprintf_text collect _ _ _ E bn) as Hd. rewrite output_all_collect in Hd.
  set (w := integer_text _ _ _ _ _ _) in *. unfold format_text.
  assert (Hs : __vprintf collect (text "%s%d") [Str (Some bn); Word nr] [] =
    vprintf_loop collect (vprintf_depth collect 0) 4 (text "%d") [Word nr] bn).
  { change (__vprintf collect (text "%s%d") [Str (Some bn); Word nr] []) with
      (vprintf_loop collect (vprintf_depth collect 0) 5 (37 :: 115 :: text "%d") [Str (Some bn); Word nr] []).
    by rewrite vprintf_loop_string by done. }
  rewrite Hs, (vprintf_loop_more _ 3 _ _ _ (tt, bn ++ w)); [done|]. exact Hd.
Qed.

Lemma locate_app fuel l l' b x : locate fuel l b = Some x → locate fuel (l ++ l') b = Some x.
Proof.
  revert b x. induction fuel as [|fuel IH]; intros b x; [done|]. cbn [locate]. destruct (l !! b) as [d|] eqn:Hd; [|done].
  rewrite (lookup_app_l_Some _ _ _ _ Hd). cbn [mbind option_bind]. destruct (ops d) as [k|b' st]; [done|].
  destruct (locate fuel l b') as [[k o]|] eqn:E; [|done]. by rewrite (IH b' (k, o) E).
Qed.

Lemma lookup_snoc_inv (l : list device) x (i : nat) y : (l ++ [x]) !! i = Some y → l !! i = Some y ∨ i = length l ∧ y = x.
Proof.
  intros [?|(Hge & [Hz ->]%list_lookup_singleton_Some)]%lookup_app_Some; [by left|]. right. split; [lia|done].
Qed.

Lemma devs_ok_app s b d nd start : devs_ok s → all_blocks s !! b = Some d → type d ≠ BLOCK_FOREIGN → ops nd = Partition b start →
  0 ≤ start → 0 ≤ dsize nd → start + dsize nd ≤ dsize d → devs_ok (set_blocks (all_blocks s ++ [nd]) s).
Proof.
  intros Hok Hd Hty Hops H0 H1 H2. pose proof (dok_size s Hok b d Hd) as Hsz. pose proof (lookup_lt_Some _ _ _ Hd) as Hlt.
  split; cbn [all_blocks set_blocks disks].
  - intros b0 d0 [Hd0|[_ ->]]%lookup_snoc_inv; [by apply (dok_size s Hok b0)|lia].
  - intros b0 d0 k [Hd0|[_ ->]]%lookup_snoc_inv; [by apply (dok_disk s Hok b0)|]. by rewrite Hops.
  - intros b0 d0 b' st [Hd0|[-> ->]]%lookup_snoc_inv Ho.
    + destruct (dok_part s Hok b0 d0 b' st Hd0 Ho) as (Hl & d' & Hd' & Hrest). split; [done|]. exists d'. split; [|done].
      by apply lookup_app_l_Some.
    + rewrite Hops in Ho. injection Ho as <- <-. split; [done|]. exists d. split; [by apply lookup_app_l_Some|]. repeat split; (done || lia).
Qed.

(** The device [b] while it is scanned: what it is ([d], counts aside) and what
    it holds ([c]). *)
Record scanning (b : nat) (d : device) (c : list Z) (s : bstate) : Prop := {
  sc_ok : devs_ok s;
  sc_dev : ∃ d', all_blocks s !! b = Some d' ∧ fixed d' = fixed d;
  sc_view : ∃ v, view s b = Some v ∧ contents v = c;
  sc_malloc : mallocs s = []
}.

Lemma block_fuel_mallocs fuel b sector s c s' : block_read_fuel fuel b sector s = Ok (c, s') → mallocs s' = mallocs s.
Proof.
  revert b sector s c s'. induction fuel as [|fuel IH]; intros b sector s c s'; [done|]. cbn [block_read_fuel].
  unfold mbind, M_bind. unfold get_block at 1. destruct (all_blocks s !! b) as [d|]; [|done].
  unfold check_sector. destruct (dsize d <=? sector); [done|]. cbn [mret M_ret]. intros H.
  destruct ((match ops d with Disk disk => disk_read disk sector | Partition b0 start => partition_read (block_read_fuel fuel) b0 start sector end) s)
    as [[c1 s1]|] eqn:E1; [|done]. unfold get_block in H. destruct (all_blocks s1 !! b); [|done]. cbn in H. injection H as <- <-. cbn.
  destruct (ops d) as [k|b' st]; [|by apply IH in E1]. unfold disk_read in E1. destruct (disks s !! k) as [l|]; [|done].
  cbv zeta in E1. destruct (_ =? _); [|done]. by injection E1 as _ <-.
Qed.

Lemma scan_read b d c s : scanning b d c s → 0 < dsize d → ∃ s', block_read b 0 s = Ok (slice 0 512 c, s') ∧
  scanning b d c s' ∧ disks s' = disks s ∧ fixed <$> all_blocks s' = fixed <$> all_blocks s.
Proof.
  intros [Hok (d' & Hd' & Hfx) (v & Hv & Hc) Hm] Hpos. injection Hfx as En Et Es Eo.
  destruct (view_inv s b v Hok Hv) as (d0 & k & o & l & Hd0 & El & Hl & Ho & Hlen & Ev). replace d0 with d' in * by congruence.
  destruct (block_read_run (S b) s b d' k o l 0 Hok Hd' ltac:(lia) El Hl ltac:(lia)) as (s' & E & Hdk & Hf & Hd1 & _).
  exists s'. split; [|split; [|done]].
  - unfold block_read. rewrite E, <-Hc, Ev. cbn [contents]. rewrite slice_slice by lia. do 3 f_equal; lia.
  - split; [| | |by rewrite <-Hm; apply (block_fuel_mallocs _ _ _ _ _ _ E)].
    + apply (devs_ok_fixed s s' Hok Hf). intros k0 l0 Hk0. exists l0. by rewrite Hdk.
    + exists (count_read d'). split; [done|]. unfold fixed, count_read. cbn. congruence.
    + eexists. split; [apply (view_intro s' b (count_read d') k o l Hd1); [by rewrite (locate_fixed _ _ _ b Hf)|by rewrite Hdk]|].
      cbn. by rewrite <-Hc, Ev.
Qed.

(** The device registered for a partition, and whether it lies in the device. *)
Definition new_partition (b : nat) (bn : list Z) (ty start size : Z) (number : list Z) : device :=
  mk_device (take 15 (bn ++ number)) (partition_type ty) size (Partition b start) 0 0.
Definition in_device (bs start size : Z) : bool := (start <? bs) && (start + size <=? bs).

Lemma in_device_test bs start size : 0 ≤ bs < 2 ^ 32 → 0 ≤ start → 0 ≤ size < 2 ^ 32 →
  in_device bs start size = negb (bs <=? start) && negb ((wrap32 (start + size) <? start) || (bs <? wrap32 (start + size))).
Proof.
  intros Hb Hst Hsz. unfold in_device. destruct (Z.leb_spec bs start) as [|Hlt].
  { by rewrite (proj2 (Z.ltb_ge start bs)) by lia. }
  rewrite (proj2 (Z.ltb_lt start bs)) by lia. cbn [andb negb]. destruct (Z_lt_le_dec (start + size) (2 ^ 32)).
  - rewrite wrap32_small, (proj2 (Z.ltb_ge (start + size) start)) by lia. cbn [orb]. by rewrite Z.leb_antisym.
  - assert (wrap32 (start + size) = start + size - 2 ^ 32) as ->.
    { symmetry. apply Z.mod_unique with 1; lia. }
    rewrite (proj2 (Z.ltb_lt _ start)) by lia. cbn [orb negb]. apply Z.leb_gt. lia.
Qed.

Lemma scan_found b d c s ty start size nr : scanning b d c s → type d ≠ BLOCK_FOREIGN → len (name d) < 2 ^ 31 →
  0 ≤ start → 0 ≤ size < 2 ^ 32 → - 2 ^ 31 ≤ nr < 2 ^ 31 →
  ∃ w s', format_text (text "%d") [Word nr] = Ok w ∧ found_partition b ty start size nr s = Ok (tt, s') ∧ scanning b d c s' ∧
    disks s' = disks s ∧
    all_blocks s' = all_blocks s ++ (if in_device (dsize d) start size then [new_partition b (name d) ty start size w] else []).
Proof.
  intros Hsc Hty Hnm Hst Hsz Hnr. pose proof Hsc as [Hok (d' & Hd' & Hfx) (v & Hv & Hc) Hm]. injection Hfx as En Et Es Eo.
  destruct (name_text (name d) nr Hnm Hnr) as (w & Hw & Hn). exists w.
  rewrite (in_device_test (dsize d) start size) by (try lia; rewrite <-Es; by apply (dok_size s Hok b)).
  unfold found_partition, block_size, block_name, mbind, M_bind. unfold get_block at 1. rewrite Hd'. cbn [mret M_ret]. rewrite Es.
  destruct (Z.leb_spec (dsize d) start) as [|Hlt]; [exists s; by rewrite app_nil_r|]. cbn [negb andb].
  destruct ((wrap32 (start + size) <? start) || (dsize d <? wrap32 (start + size))) eqn:Et2; [exists s; by rewrite app_nil_r|].
  assert (Hin : start + size ≤ dsize d).
  { pose proof (in_device_test (dsize d) start size ltac:(rewrite <-Es; by apply (dok_size s Hok b)) ltac:(lia) ltac:(lia)) as H.
    rewrite Et2, (proj2 (Z.leb_gt (dsize d) start) Hlt) in H. apply andb_prop in H as [_ H]. lia. }
  exists (set_blocks (all_blocks s ++ [new_partition b (name d) ty start size w]) s). split; [done|split; [|split; [|done]]].
  - unfold malloc, block_register, malloc, lift, gets, modify, get_block. rewrite Hm. cbn [negb]. rewrite Hd'. cbn [mret M_ret]. rewrite En, Hn.
    unfold mbind, M_bind. rewrite Hm. cbn [negb]. unfold new_partition. rewrite take_take. done.
  - split; [| | |done].
    + apply (devs_ok_app s b d' _ start); [done|done|by rewrite Et|done|lia|cbn; lia|cbn; lia].
    + exists d'. split; [by apply lookup_app_l_Some|]. unfold fixed. congruence.
    + exists v. split; [|done]. destruct (view_inv s b v Hok Hv) as (d0 & k & o & l & Hd0 & El & Hl & _ & _ & ->).
      apply (view_intro _ b d0 k o l); [by apply lookup_app_l_Some|by apply locate_app|done].
Qed.

Definition entry_ok (e : entry) : Prop := 0 ≤ e_offset e < 2 ^ 32 ∧ 0 ≤ e_size e < 2 ^ 32.
Lemma table_entry_ok pt i : len pt = 512 → bytes pt → 0 ≤ i < 4 → entry_ok (table_entry pt i).
Proof.
  intros Hl Hb Hi. unfold entry_ok, table_entry. cbn [e_offset e_size].
  pose proof (length_slice (446 + 16 * i + 8) 4 pt ltac:(lia) ltac:(lia) ltac:(lia)).
  pose proof (length_slice (446 + 16 * i + 12) 4 pt ltac:(lia) ltac:(lia) ltac:(lia)).
  split; apply of_le32_range; try lia; by apply Forall_slice.
Qed.

Definition unused (e : entry) : bool := (e_size e =? 0) || (e_type e =? 0).

(** The partitions of the used entries, numbered in order; those that do not
    lie in the device are numbered too. *)
Fixpoint new_partitions (b : nat) (bn : list Z) (bs : Z) (es : list entry) (nr : Z) : list device :=
  match es with
  | [] => []
  | e :: es =>
      if unused e then new_partitions b bn bs es nr
      else (if in_device bs (e_offset e) (e_size e) then [new_partition b bn (e_type e) (e_offset e) (e_size e) [48 + (nr + 1)]] else []) ++
           new_partitions b bn bs es (nr + 1)
  end.

Lemma decimal_digit nr : 1 ≤ nr ≤ 4 → format_text (text "%d") [Word nr] = Ok [48 + nr].
Proof. intros H. assert (nr = 1 ∨ nr = 2 ∨ nr = 3 ∨ nr = 4) as [->|[->|[->| ->]]] by lia; vm_compute; reflexivity. Qed.

Lemma scan_entries_run nested b d c pt n i nr s : scanning b d c s → type d ≠ BLOCK_FOREIGN → len (name d) < 2 ^ 31 →
  (∀ j, i ≤ j < i + Z.of_nat n → entry_ok (table_entry pt j) ∧ (unused (table_entry pt j) = false → is_extended (e_type (table_entry pt j)) = false)) →
  0 ≤ nr → nr + Z.of_nat n ≤ 4 →
  ∃ nr' s', scan_entries nested b 0 0 pt n i nr s = Ok (nr', s') ∧ scanning b d c s' ∧ disks s' = disks s ∧
    all_blocks s' = all_blocks s ++ new_partitions b (name d) (dsize d) (table_entry pt <$> seqZ i (Z.of_nat n)) nr.
Proof.
  intros Hsc Hty Hnm. revert i nr s Hsc. induction n as [|n IH]; intros i nr s Hsc He H0 H4.
  { exists nr, s. rewrite app_nil_r. done. }
  destruct (He i ltac:(lia)) as ((Ho & Hs) & Hx). rewrite seqZ_cons by lia. rewrite fmap_cons. cbn [scan_entries new_partitions].
  replace (Z.pred (Z.of_nat (S n))) with (Z.of_nat n) by lia. unfold mbind, M_bind.
  change (Z.succ i) with (i + 1). fold (unused (table_entry pt i)). destruct (unused (table_entry pt i)) eqn:Hu.
  { cbn [mret M_ret]. apply (IH (i + 1) nr s Hsc); [|lia|lia]. intros j Hj. apply He. lia. }
  rewrite (Hx eq_refl). rewrite Z.add_0_r, wrap32_small, (signed_small 32) by lia.
  destruct (scan_found b d c s (e_type (table_entry pt i)) (e_offset (table_entry pt i)) (e_size (table_entry pt i)) (nr + 1))
    as (w & s1 & Hw & -> & Hsc1 & Hd1 & Ha1); [done|done|done|lia|lia|lia|].
  rewrite (decimal_digit (nr + 1)) in Hw by lia. injection Hw as <-.
  destruct (IH (i + 1) (nr + 1) s1 Hsc1) as (nr' & s' & E & Hsc' & Hd' & Ha'); [intros j Hj; apply He; lia|lia|lia|].
  exists nr', s'. split; [exact E|]. split; [done|]. split; [congruence|]. rewrite Ha', Ha1. by rewrite app_assoc.
Qed.

Lemma read_table_run fuel b d c s sector primary nr : scanning b d c s → 0 ≤ sector < dsize d → ∃ s1, scanning b d c s1 ∧
  disks s1 = disks s ∧ fixed <$> all_blocks s1 = fixed <$> all_blocks s ∧
  read_partition_table (S fuel) b sector primary nr s =
    (if negb (signature_ok (slice 0 512 c)) then mret nr
     else scan_entries (read_partition_table fuel b) b sector primary (slice 0 512 c) 4 0 nr) s1.
Proof.
  intros Hsc Hs. destruct (scan_read b d c s Hsc ltac:(lia)) as (s1 & E & Hsc1 & Hd & Hf). exists s1. split; [done|split; [done|split; [done|]]].
  destruct Hsc as [Hok (d' & Hd' & Hfx) _ Hm]. injection Hfx as En Et Es Eo. cbn [read_partition_table].
  unfold mbind, M_bind, block_size, mbind, M_bind. unfold get_block at 1. rewrite Hd'. cbn [mret M_ret]. rewrite Es, (proj2 (Z.leb_gt _ _)) by lia.
  unfold malloc at 1. rewrite Hm. cbn [negb]. rewrite E. by destruct (signature_ok (slice 0 512 c)).
Qed.

(** A device about to be scanned. *)
Lemma scanning_start s b d v : devs_ok s → all_blocks s !! b = Some d → mallocs s = [] → view s b = Some v →
  scanning b d (contents v) s ∧ len (contents v) = 512 * dsize d.
Proof.
  intros Hok Hd Hm Hv. split; [split; [done|by exists d|by exists v|done]|].
  destruct (view_inv s b v Hok Hv) as (d0 & k & o & l & Hd0 & El & Hl & Ho & Hlen & ->). replace d0 with d in * by congruence.
  pose proof (dok_size s Hok b d Hd). cbn [contents]. apply length_slice; lia.
Qed.

(** An entry that leads to a call that does not return. *)
Lemma scan_entries_stuck nested b d c pt n j i sector primary nr s : scanning b d c s → type d ≠ BLOCK_FOREIGN → len (name d) < 2 ^ 31 →
  (∀ k, 0 ≤ k < 4 → entry_ok (table_entry pt k)) → 0 ≤ j ≤ i → i < j + Z.of_nat n → i < 4 → - 2 ^ 31 ≤ nr < 2 ^ 31 →
  (∀ k, j ≤ k < i → unused (table_entry pt k) = false → is_extended (e_type (table_entry pt k)) = false) →
  unused (table_entry pt i) = false → is_extended (e_type (table_entry pt i)) = true →
  (∀ nr s, scanning b d c s → - 2 ^ 31 ≤ nr < 2 ^ 31 →
     (if sector =? 0 then nested (e_offset (table_entry pt i)) (e_offset (table_entry pt i)) nr
      else nested (wrap32 (e_offset (table_entry pt i) + primary)) primary nr) s = Err OutOfFuel) →
  scan_entries nested b sector primary pt n j nr s = Err OutOfFuel.
Proof.
  intros Hsc Hty Hnm He Hj Hin Hi4 Hnr Hx Hu Hext Hst. revert j nr s Hsc Hj Hin Hnr Hx. induction n as [|n IH]; intros j nr s Hsc Hj Hin Hnr Hx; [lia|].
  cbn [scan_entries]. unfold mbind, M_bind. fold (unused (table_entry pt j)). destruct (decide (j = i)) as [->|Hne].
  { rewrite Hu, Hext. by rewrite Hst. }
  destruct (He j ltac:(lia)) as (Ho & Hs). destruct (unused (table_entry pt j)) eqn:Huj.
  { cbn [mret M_ret]. apply IH; [done|lia|lia|lia|]. intros k Hk. apply Hx. lia. }
  rewrite (Hx j ltac:(lia) Huj). pose proof (signed_range 32 (nr + 1) ltac:(lia)) as Hr.
  destruct (scan_found b d c s (e_type (table_entry pt j)) (wrap32 (e_offset (table_entry pt j) + sector)) (e_size (table_entry pt j)) (int32 (nr + 1)))
    as (w & s1 & _ & -> & Hsc1 & _); [done|done|done|apply wrap32_range|lia|lia|].
  cbn [mret M_ret]. apply IH; [done|lia|lia|lia|]. intros k Hk. apply Hx. lia.
Qed.

(** C25: The sectors of a registered device, a disk or a partition however
    deeply nested, behave as the plain array of sectors that the file system is
    given: a read returns the sector of the device's own part of the disk, a
    write changes exactly that sector, an access past the end of the device
    panics and a write to a foreign partition fails an assertion.  A write
    leaves what is on devices that share no sector with this one as it was, a
    read leaves every device as it was. *)
Theorem device_refines_block s b v sector buffer : devs_ok s → view s b = Some v → 0 ≤ sector → 512 ≤ len buffer →
  match FsState.block_read sector v with
  | Ok (c, v') => ∃ s', block_read b sector s = Ok (c, s') ∧ view s' b = Some v' ∧ devs_ok s' ∧ ∀ b2, holds s' b2 = holds s b2
  | Err f => block_read b sector s = Err f
  end ∧
  match FsState.block_write sector buffer v with
  | Ok (_, v') => ∃ s', block_write b sector buffer s = Ok (tt, s') ∧ view s' b = Some v' ∧ devs_ok s' ∧
      ∀ b2, disjoint_devices s b b2 → holds s' b2 = holds s b2
  | Err f => block_write b sector buffer s = Err f
  end.
Proof. intros. split; [by apply block_read_refines|by apply block_write_refines]. Qed.

(** C26: Scanning a device whose partition table (its first sector) has no
    extended partition ends, without deeper recursion, and registers exactly
    the partitions of the table's used entries that lie inside the device, in
    the order of the table, each with its type, its size, its place in the
    device and the device's name followed by its number; a sector without the
    signature registers none.  No disk changes and the registered devices stay
    consistent. *)
Theorem partition_scan_correct s b d v fuel : devs_ok s → all_blocks s !! b = Some d → view s b = Some v → mallocs s = [] →
  type d ≠ BLOCK_FOREIGN → len (name d) ≤ 15 → 0 < dsize d → bytes (contents v) → (1 ≤ fuel)%nat →
  (∀ i, 0 ≤ i < 4 → unused (table_entry (slice 0 512 (contents v)) i) = false →
     is_extended (e_type (table_entry (slice 0 512 (contents v)) i)) = false) →
  let table := slice 0 512 (contents v) in
  ∃ s', partition_scan fuel b s = Ok (tt, s') ∧ devs_ok s' ∧ disks s' = disks s ∧
    fixed <$> all_blocks s' = (fixed <$> all_blocks s) ++
      (fixed <$> if signature_ok table then new_partitions b (name d) (dsize d) (table_entry table <$> seqZ 0 4) 0 else []).
Proof.
  intros Hok Hd Hv Hm Hty Hnm Hpos Hby Hf Hx table. destruct (scanning_start s b d v Hok Hd Hm Hv) as [Hsc Hlen].
  destruct fuel as [|fuel]; [lia|]. unfold partition_scan, mbind, M_bind.
  destruct (read_table_run fuel b d (contents v) s 0 0 0 Hsc ltac:(lia)) as (s1 & Hsc1 & Hd1 & Hf1 & ->). fold table.
  destruct (signature_ok table); cbn [negb].
  - destruct (scan_entries_run (read_partition_table fuel b) b d (contents v) table 4 0 0 s1) as (nr' & s' & E & Hsc' & Hd' & Ha');
      [done|done|lia| |lia|lia|].
    { intros j Hj. split; [|apply Hx; lia]. apply table_entry_ok; [apply length_slice; lia|by apply Forall_slice|lia]. }
    exists s'. rewrite E. split; [done|]. split; [apply Hsc'|]. split; [congruence|]. by rewrite Ha', fmap_app, Hf1.
  - exists s1. split; [done|]. split; [apply Hsc1|]. split; [done|]. by rewrite Hf1, app_nil_r.
Qed.

(** [read_partition_table] reads sector 0 of the device whatever sector it
    is asked for, so a disk with an extended partition (one that starts in the
    first half of the device) makes the scan recurse without end: no depth of
    recursion is enough. *)
Theorem extended_partition_never_returns s b d v i fuel : devs_ok s → all_blocks s !! b = Some d → view s b = Some v → mallocs s = [] →
  type d ≠ BLOCK_FOREIGN → len (name d) ≤ 15 → bytes (contents v) → 0 ≤ i < 4 →
  let table := slice 0 512 (contents v) in
  signature_ok table = true → unused (table_entry table i) = false → is_extended (e_type (table_entry table i)) = true →
  0 < e_offset (table_entry table i) → 2 * e_offset (table_entry table i) < dsize d →
  (∀ j, 0 ≤ j < i → unused (table_entry table j) = false → is_extended (e_type (table_entry table j)) = false) →
  partition_scan fuel b s = Err OutOfFuel.
Proof.
  intros Hok Hd Hv Hm Hty Hnm Hby Hi table Hsig Hu Hext Ho Ho2 Hx. destruct (scanning_start s b d v Hok Hd Hm Hv) as [Hsc Hlen].
  set (off := e_offset (table_entry table i)) in *. pose proof (dok_size s Hok b d Hd) as Hsz.
  assert (He : ∀ k, 0 ≤ k < 4 → entry_ok (table_entry table k)).
  { intros k Hk. apply table_entry_ok; [apply length_slice; lia|by apply Forall_slice|lia]. }
  assert (Hstuck : ∀ fuel sector nr s, scanning b d (contents v) s → sector = off ∨ sector = 2 * off → - 2 ^ 31 ≤ nr < 2 ^ 31 →
    read_partition_table fuel b sector off nr s = Err OutOfFuel).
  { clear s Hok Hd Hv Hm Hsc. intros f. induction f as [|f IH]; intros sector nr s Hsc Hsec Hnr; [done|].
    destruct (read_table_run f b d (contents v) s sector off nr Hsc ltac:(lia)) as (s1 & Hsc1 & _ & _ & ->). fold table. rewrite Hsig. cbn [negb].
    apply (scan_entries_stuck _ b d (contents v) table 4 0 i); try done; [lia|lia|lia|lia|]. intros nr' s' Hsc' Hnr'. fold off.
    rewrite (proj2 (Z.eqb_neq sector 0)), wrap32_small by lia. apply IH; [done|lia|done]. }
  unfold partition_scan, mbind, M_bind. destruct fuel as [|f]; [done|].
  destruct (read_table_run f b d (contents v) s 0 0 0 Hsc ltac:(lia)) as (s1 & Hsc1 & _ & _ & ->). fold table. rewrite Hsig. cbn [negb].
  rewrite (scan_entries_stuck _ b d (contents v) table 4 0 i); try done; try lia. intros nr' s' Hsc' Hnr'. fold off.
  apply Hstuck; [done|by left|done].
Qed.

(** ** Examples *)

(** A disk of eight sectors with the entries [es] in its first one, and the
    partition behind them. *)
Definition entry_bytes (e : entry) : list Z := [0; 0; 0; 0; e_type e; 0; 0; 0] ++ le32 (e_offset e) ++ le32 (e_size e).
Definition example_disk (es : list entry) : list Z :=
  replicate 446 0 ++ flat_map entry_bytes es ++ [0x55; 0xaa] ++ replicate 3584 7.
Definition example_devices (es : list entry) : bstate :=
  mk_bstate [mk_device (text "hda") BLOCK_RAW 8 (Disk 1) 0 0] [] {[1 := example_disk es]} [].
Definition example_entries : list entry := [mk_entry 0x20 1 2; mk_entry 0x21 4 3; mk_entry 0x83 6 9; mk_entry 0 0 0].
Definition example_extended : list entry := [mk_entry 0x20 1 1; mk_entry 0x05 2 4; mk_entry 0 0 0; mk_entry 0 0 0].

Lemma example_devices_ok es : len (example_disk es) = 4096 → devs_ok (example_devices es).
Proof.
  intros Hl. split; unfold example_devices; cbn [all_blocks disks].
  - intros b d [_ <-]%list_lookup_singleton_Some. cbn. lia.
  - intros b d k [_ <-]%list_lookup_singleton_Some [= <-]. exists (example_disk es). split; [apply lookup_singleton_eq|exact Hl].
  - by intros b d b' st [_ <-]%list_lookup_singleton_Some.
Qed.

Lemma example_view es : len (example_disk es) = 4096 →
  view (example_devices es) 0 = Some (mk_block BLOCK_RAW 8 (example_disk es) 0 0).
Proof.
  intros Hl. rewrite (view_intro _ 0 (mk_device (text "hda") BLOCK_RAW 8 (Disk 1) 0 0) 1 0 (example_disk es)); [|done|done|apply lookup_singleton_eq].
  cbn [type dsize read_cnt write_cnt]. do 2 f_equal. change (512 * 0) with 0. change (512 * 8) with 4096. rewrite <-Hl. apply slice_all.
Qed.

Lemma bytes_dec l : forallb (λ b, (0 <=? b) && (b <? 256)) l = true → bytes l.
Proof. intros H. apply Forall_forall. intros x Hx. rewrite forallb_forall in H. apply list_elem_of_In in Hx. specialize (H x Hx). unfold is_byte. lia. Qed.

(** A partition scan of the example, and an access to the second partition. *)
Lemma partition_scan_correct_witness : ∃ s', partition_scan 1 0 (example_devices example_entries) = Ok (tt, s') ∧
  drop 1 (fixed <$> all_blocks s') =
    [(text "hda1", BLOCK_KERNEL, 2, Partition 0 1); (text "hda2", BLOCK_FILESYS, 3, Partition 0 4)].
Proof.
  destruct (partition_scan_correct (example_devices example_entries) 0 (mk_device (text "hda") BLOCK_RAW 8 (Disk 1) 0 0)
    (mk_block BLOCK_RAW 8 (example_disk example_entries) 0 0) 1) as (s' & E & _ & _ & H).
  - apply example_devices_ok. reflexivity.
  - reflexivity.
  - apply example_view. reflexivity.
  - reflexivity.
  - discriminate.
  - vm_compute. discriminate.
  - reflexivity.
  - apply bytes_dec. vm_compute. reflexivity.
  - lia.
  - intros i Hi. assert (i = 0 ∨ i = 1 ∨ i = 2 ∨ i = 3) as [->|[->|[->| ->]]] by lia; vm_compute; (reflexivity || discriminate).
  - exists s'. split; [exact E|]. rewrite H. vm_compute. reflexivity.
Defined.

Lemma device_refines_block_witness : ∃ s', block_write 0 3 (replicate 512 9) (example_devices example_entries) = Ok (tt, s') ∧
  view s' 0 = Some (mk_block BLOCK_RAW 8 (put 1536 (replicate 512 9) (example_disk example_entries)) 0 1).
Proof.
  destruct (device_refines_block (example_devices example_entries) 0 (mk_block BLOCK_RAW 8 (example_disk example_entries) 0 0) 3 (replicate 512 9)) as [_ H].
  - apply example_devices_ok. reflexivity.
  - apply example_view. reflexivity.
  - lia.
  - rewrite length_replicate. lia.
  - cbn -[replicate put example_disk example_devices] in H. destruct H as (s' & E & Hv & _). exists s'. split; [exact E|exact Hv].
Defined.

Lemma extended_partition_never_returns_witness : partition_scan 1000 0 (example_devices example_extended) = Err OutOfFuel.
Proof.
  apply (extended_partition_never_returns (example_devices example_extended) 0 (mk_device (text "hda") BLOCK_RAW 8 (Disk 1) 0 0)
    (mk_block BLOCK_RAW 8 (example_disk example_extended) 0 0) 1).
  - apply example_devices_ok. reflexivity.
  - reflexivity.
  - apply example_view. reflexivity.
  - reflexivity.
  - discriminate.
  - vm_compute. discriminate.
  - apply bytes_dec. vm_compute. reflexivity.
  - lia.
  - vm_compute. reflexivity.
  - vm_compute. reflexivity.
  - vm_compute. reflexivity.
  - vm_compute. reflexivity.
  - vm_compute. reflexivity.
  - intros j Hj. assert (j = 0) as -> by lia. vm_compute. reflexivity.
Defined.
