(* ===== verification/Process.v ===== *)
(** * Loading user programs ([userprog/process.c])

    [load] reads an ELF executable through the file system into pages of the
    user pool and maps them in the page directory of the process.  The state
    joins the memory system ([kern]: memory, pools, page directories, the
    fields [pagedir] and [segbreak] of the running thread), the file system
    ([fsys]), the other fields of the thread that are used here and the stack
    pointer for interrupts in the task state segment.  Messages on the console
    are left out. *)
From S2P Require Import Prelude Bytes Bitmap Vaddr Palloc Pagedir Sbrk FsState Inode FreeMap Directory.

Record proc := mk_proc {
  kern : kernel;
  fsys : fs;
  start_heap : Z;
  thread_current : Z;
  esp0 : Z
}.

Definition set_kern (x : kernel) (s : proc) : proc := mk_proc x (fsys s) (start_heap s) (thread_current s) (esp0 s).
Definition set_fsys (x : fs) (s : proc) : proc := mk_proc (kern s) x (start_heap s) (thread_current s) (esp0 s).
Definition set_start_heap (x : Z) (s : proc) : proc := mk_proc (kern s) (fsys s) x (thread_current s) (esp0 s).
Definition set_esp0 (x : Z) (s : proc) : proc := mk_proc (kern s) (fsys s) (start_heap s) (thread_current s) x.
Definition set_pagedir (a : Z) (s : kernel) : kernel :=
  mk_kernel (mem s) (kernel_pool s) (user_pool s) (init_ram_pages s) (init_page_dir s) (cr3 s) a (segbreak s).

Definition on_kern {A} (m : M kernel A) : M proc A := λ s,
  match m (kern s) with Ok (a, k) => Ok (a, set_kern k s) | Err f => Err f end.
Definition on_fsys {A} (m : M fs A) : M proc A := λ s,
  match m (fsys s) with Ok (a, f) => Ok (a, set_fsys f s) | Err f => Err f end.

(** ** Bytes of a page *)

Definition page_bytes (p : Z) : M kernel (list Z) := λ s,
  match mem s !! pg_no p with Some page => Ok (words_to_bytes page, s) | None => Err BadAccess end.
Definition set_page_bytes (p : Z) (l : list Z) : M kernel unit := λ s,
  match mem s !! pg_no p with
  | Some _ => Ok (tt, set_mem (<[pg_no p := bytes_to_words l]> (mem s)) s)
  | None => Err BadAccess
  end.

(** [file_read (file, page, size)] and [memset (page + ofs, 0, n)]. *)
Definition file_read_page (file page size : Z) : M proc Z :=
  old ← on_kern (page_bytes page);
  '(n, new) ← on_fsys (file_read file old size);
  on_kern (set_page_bytes page new) ;;
  mret n.
Definition memset_page (page ofs n : Z) : M kernel unit :=
  old ← page_bytes page;
  new ← mem_write old ofs (replicate (Z.to_nat n) 0);
  set_page_bytes page new.

(** ** ELF *)

Definition of_le16 (l : list Z) : Z := default 0 (l !! 0%nat) + 256 * default 0 (l !! 1%nat).

Record Elf32_Ehdr := mk_ehdr {
  e_ident : list Z;
  e_type : Z;
  e_machine : Z;
  e_version : Z;
  e_entry : Z;
  e_phoff : Z;
  e_phentsize : Z;
  e_phnum : Z
}.
Definition sizeof_Ehdr : Z := 52.
Definition decode_ehdr (l : list Z) : Elf32_Ehdr :=
  mk_ehdr (slice 0 16 l) (of_le16 (slice 16 2 l)) (of_le16 (slice 18 2 l)) (of_le32 (slice 20 4 l))
    (of_le32 (slice 24 4 l)) (of_le32 (slice 28 4 l)) (of_le16 (slice 42 2 l)) (of_le16 (slice 44 2 l)).

Record Elf32_Phdr := mk_phdr {
  p_type : Z;
  p_offset : Z;
  p_vaddr : Z;
  p_filesz : Z;
  p_memsz : Z;
  p_flags : Z
}.
Definition sizeof_Phdr : Z := 32.
Definition decode_phdr (l : list Z) : Elf32_Phdr :=
  mk_phdr (of_le32 (slice 0 4 l)) (of_le32 (slice 4 4 l)) (of_le32 (slice 8 4 l))
    (of_le32 (slice 16 4 l)) (of_le32 (slice 20 4 l)) (of_le32 (slice 24 4 l)).

Definition PT_LOAD : Z := 1.
Definition PT_DYNAMIC : Z := 2.
Definition PT_INTERP : Z := 3.
Definition PT_SHLIB : Z := 5.
Definition PF_W : Z := 2.

Definition ROUND_UP (x step : Z) : Z := wrap32 (wrap32 (x + step - 1) / step * step).

(** ** Segments *)

(** [file_len] is what [file_length (file)] returns. *)
Definition validate_segment (ph : Elf32_Phdr) (file_len : Z) : bool :=
  if negb (Z.land (p_offset ph) PGMASK =? Z.land (p_vaddr ph) PGMASK) then false
  else if wrap32 file_len <? p_offset ph then false
  else if p_memsz ph <? p_filesz ph then false
  else if p_memsz ph =? 0 then false
  else if negb (is_user_vaddr (p_vaddr ph)) then false
  else if negb (is_user_vaddr (wrap32 (p_vaddr ph + p_memsz ph))) then false
  else if wrap32 (p_vaddr ph + p_memsz ph) <? p_vaddr ph then false
  else if p_vaddr ph <? PGSIZE then false
  else true.

(** The body of the loop for one page. *)
Definition load_page (file upage page_read_bytes page_zero_bytes : Z) (writable : bool) : M proc bool :=
  kpage ← on_kern (palloc_get_page PAL_USER);
  if kpage =? NULL then mret false else
  n ← file_read_page file kpage page_read_bytes;
  if negb (n =? page_read_bytes) then on_kern (palloc_free_page kpage) ;; mret false else
  on_kern (memset_page kpage page_read_bytes page_zero_bytes) ;;
  ok ← on_kern (install_page upage kpage writable);
  if negb ok then on_kern (palloc_free_page kpage) ;; mret false else
  mret true.

Fixpoint load_segment_loop (fuel : nat) (file upage read_bytes zero_bytes : Z) (writable : bool) : M proc bool :=
  match fuel with
  | O => throw OutOfFuel
  | S fuel =>
      if (0 <? read_bytes) || (0 <? zero_bytes) then
        let page_read_bytes := if read_bytes <? PGSIZE then read_bytes else PGSIZE in
        let page_zero_bytes := PGSIZE - page_read_bytes in
        ok ← load_page file upage page_read_bytes page_zero_bytes writable;
        if negb ok then mret false else
        load_segment_loop fuel file (wrap32 (upage + PGSIZE)) (wrap32 (read_bytes - page_read_bytes))
          (wrap32 (zero_bytes - page_zero_bytes)) writable
      else mret true
  end.

(** Every round loads a page. *)
Definition load_segment (file ofs upage read_bytes zero_bytes : Z) (writable : bool) : M proc bool :=
  ASSERT (wrap32 (read_bytes + zero_bytes) mod PGSIZE =? 0) ;;
  ASSERT (pg_ofs upage =? 0) ;;
  ASSERT (Z.rem ofs PGSIZE =? 0) ;;
  on_fsys (file_seek file ofs) ;;
  load_segment_loop (S (Z.to_nat ((read_bytes + zero_bytes) / PGSIZE))) file upage read_bytes zero_bytes writable.

Definition setup_stack : M proc (option Z) :=
  kpage ← on_kern (palloc_get_page (Z.lor PAL_USER PAL_ZERO));
  if kpage =? NULL then mret None else
  success ← on_kern (install_page (PHYS_BASE - PGSIZE) kpage true);
  if (success : bool) then mret (Some (PHYS_BASE - 20)) else on_kern (palloc_free_page kpage) ;; mret None.

(** ** [load] *)

(** How much of a segment is read and how much is zeroed. *)
Definition segment_bytes (ph : Elf32_Phdr) : Z * Z :=
  let page_offset := Z.land (p_vaddr ph) PGMASK in
  if 0 <? p_filesz ph then
    let read_bytes := wrap32 (page_offset + p_filesz ph) in
    (read_bytes, wrap32 (ROUND_UP (wrap32 (page_offset + p_memsz ph)) PGSIZE - read_bytes))
  else (0, ROUND_UP (wrap32 (page_offset + p_memsz ph)) PGSIZE).

(** The body of the loop for the [i]-th program header.  Only [start_heap] is
    guarded by the test of [i]. *)
Definition load_phdr (file phnum i : Z) (ph : Elf32_Phdr) : M proc bool :=
  if (p_type ph =? PT_DYNAMIC) || (p_type ph =? PT_INTERP) || (p_type ph =? PT_SHLIB) then mret false
  else if p_type ph =? PT_LOAD then
    n ← on_fsys (file_length file);
    if validate_segment ph n then
      let writable := negb (Z.land (p_flags ph) PF_W =? 0) in
      let file_page := Z.land (p_offset ph) (wrap32 (Z.lnot PGMASK)) in
      let mem_page := Z.land (p_vaddr ph) (wrap32 (Z.lnot PGMASK)) in
      let '(read_bytes, zero_bytes) := segment_bytes ph in
      ok ← load_segment file (int32 file_page) mem_page read_bytes zero_bytes writable;
      if negb ok then mret false else
      when (i =? phnum - 1) (modify (set_start_heap (wrap32 (mem_page + read_bytes + zero_bytes)))) ;;
      on_kern (modify (set_segbreak (wrap32 (mem_page + read_bytes + zero_bytes)))) ;;
      mret true
    else mret false
  else mret true.

(** The loop over the program headers; [n] are left.  The local variable that a
    header is read into has no defined value before; here it is zero. *)
Fixpoint load_headers (n : nat) (file phnum i file_ofs : Z) : M proc bool :=
  match n with
  | O => mret true
  | S n =>
      l ← on_fsys (file_length file);
      if (file_ofs <? 0) || (l <? file_ofs) then mret false else
      on_fsys (file_seek file file_ofs) ;;
      '(r, phdr) ← on_fsys (file_read file (replicate 32 0) sizeof_Phdr);
      if negb (r =? sizeof_Phdr) then mret false else
      ok ← load_phdr file phnum i (decode_phdr phdr);
      if negb ok then mret false else
      load_headers n file phnum (i + 1) (int32 (file_ofs + sizeof_Phdr))
  end.

Definition header_ok (h : Elf32_Ehdr) : bool :=
  bool_decide (take 7 (e_ident h) = [127; 69; 76; 70; 1; 1; 1]) && (e_type h =? 2) && (e_machine h =? 3) &&
  (e_version h =? 1) && (e_phentsize h =? sizeof_Phdr) && (e_phnum h <=? 1024).

(** From the open file to the entry point and the initial stack pointer. *)
Definition load_image (file : Z) : M proc (option (Z * Z)) :=
  '(r, ehdr) ← on_fsys (file_read file (replicate 52 0) sizeof_Ehdr);
  let h := decode_ehdr ehdr in
  if negb (r =? sizeof_Ehdr) || negb (header_ok h) then mret None else
  ok ← load_headers (Z.to_nat (e_phnum h)) file (e_phnum h) 0 (int32 (e_phoff h));
  if negb ok then mret None else
  esp ← setup_stack;
  match esp with None => mret None | Some esp => mret (Some (e_entry h, esp)) end.

Definition tss_update : M proc unit := modify (λ s, set_esp0 (wrap32 (thread_current s + PGSIZE)) s).

Definition process_activate : M proc unit :=
  pd ← gets (λ s, pagedir (kern s));
  on_kern (pagedir_activate pd) ;;
  tss_update.

(** The entry point and the stack pointer are stored only on success. *)
Definition load (file_name : list Z) : M proc (option (Z * Z)) :=
  pd ← on_kern pagedir_create;
  on_kern (modify (set_pagedir pd)) ;;
  if pd =? NULL then on_fsys (file_close NULL) ;; mret None else
  process_activate ;;
  file ← on_fsys (filesys_open file_name);
  if file =? NULL then on_fsys (file_close NULL) ;; mret None else
  r ← load_image file;
  on_fsys (file_close file) ;;
  mret r.

(** ** Lemmas on the parts of the state *)

Lemma wp_on_kern {A} (m : M kernel A) (Q : A → proc → Prop) s :
  wp m (λ a k, Q a (set_kern k s)) (kern s) → wp (on_kern m) Q s.
Proof. unfold wp, on_kern. by destruct (m (kern s)) as [[a k]|]. Qed.
Lemma wp_on_fsys {A} (m : M fs A) (Q : A → proc → Prop) s :
  wp m (λ a f, Q a (set_fsys f s)) (fsys s) → wp (on_fsys m) Q s.
Proof. unfold wp, on_fsys. by destruct (m (fsys s)) as [[a k]|]. Qed.

Lemma words_to_bytes_to_words n l : length l = (4 * n)%nat → bytes l →
  words_to_bytes (bytes_to_words l) = l ∧ length (bytes_to_words l) = n.
Proof.
  revert l. induction n as [|n IH]; intros l Hl Hb; [by destruct l|].
  destruct l as [|b0 [|b1 [|b2 [|b3 l]]]]; cbn [length] in Hl; try lia.
  change (b0 :: b1 :: b2 :: b3 :: l) with ([b0; b1; b2; b3] ++ l) in Hb. apply Forall_app in Hb as [Hb4 Hb].
  destruct (IH l ltac:(lia) Hb) as [E Hn]. cbn [bytes_to_words]. split; [|cbn [length]; lia].
  change (le32 (of_le32 [b0; b1; b2; b3]) ++ words_to_bytes (bytes_to_words l) = [b0; b1; b2; b3] ++ l).
  by rewrite E, le32_of_le32.
Qed.

(** The file [p] is open on the inode [i] at [q], holds [D] and stands at [pos]. *)
Record reading (p q : Z) (i : inode) (D : list Z) (pos : Z) (s : fs) : Prop := {
  rd_null : p ≠ NULL;
  rd_file : ∃ deny, files s !! p = Some (mk_file q pos deny);
  rd_inode : inodes s !! q = Some i;
  rd_dev : dev_ok (fs_device s);
  rd_placed : placed (fs_device s) (i_data i);
  rd_addr : 0 < next_addr s;
  rd_data : file_data s (i_data i) = D
}.

Lemma reading_len p q i D pos s : reading p q i D pos s → len D = id_length (i_data i) ∧ 0 ≤ len D < 2 ^ 31 ∧ bytes D.
Proof.
  intros [_ _ _ Hok Hp _ <-]. pose proof (pl_start _ _ Hp). pose proof (pl_length _ _ Hp). pose proof (pl_fits _ _ Hp). pose proof (dev_len _ Hok).
  unfold file_data, data_ofs. rewrite length_slice by lia. split; [done|]. split; [lia|]. apply Forall_slice, Hok.
Qed.

Lemma reading_files p q i D pos pos' deny s s' :
  reading p q i D pos s → files s' = <[p := mk_file q pos' deny]> (files s) → inodes s' = inodes s →
  fs_device s' = fs_device s → next_addr s' = next_addr s → reading p q i D pos' s'.
Proof.
  intros [] Hf Hi Hd Ha. split; [done| |congruence|congruence|congruence|congruence|].
  - exists deny. rewrite Hf. apply lookup_insert_eq.
  - rewrite <-rd_data0. unfold file_data. by rewrite Hd.
Qed.

Lemma wp_file_seek p q i D pos new (Q : unit → fs → Prop) s : reading p q i D pos s → 0 ≤ new →
  (∀ s', reading p q i D new s' → oom s' = oom s → Q tt s') → wp (file_seek p new) Q s.
Proof.
  intros Hr Hn HQ. destruct (rd_file _ _ _ _ _ _ Hr) as [deny Hf]. pose proof (rd_null _ _ _ _ _ _ Hr). unfold file_seek.
  repeat wp_step; [apply negb_true_iff, Z.eqb_neq; done|lia|]. eapply wp_file_at; [done|].
  apply wp_modify. apply HQ; [|done]. by eapply reading_files.
Qed.

Lemma wp_file_length p q i D pos (Q : Z → fs → Prop) s : reading p q i D pos s → Q (len D) s → wp (file_length p) Q s.
Proof.
  intros Hr HQ. destruct (rd_file _ _ _ _ _ _ Hr) as [deny Hf]. pose proof (rd_null _ _ _ _ _ _ Hr). unfold file_length.
  repeat wp_step; [apply negb_true_iff, Z.eqb_neq; done|]. eapply wp_file_at; [done|]. wp_step. eapply wp_inode_at; [apply Hr|].
  wp_step. unfold inode_length. destruct (reading_len _ _ _ _ _ _ Hr) as [<- _]. done.
Qed.

Lemma wp_file_read p q i D pos buffer size (Q : Z * list Z → fs → Prop) s :
  reading p q i D pos s → 0 ≤ pos ≤ len D → 0 ≤ size ≤ len buffer → size < 2 ^ 31 →
  (∀ n s', 0 ≤ n ≤ size → pos + n ≤ len D → (no_oom s → n = Z.min size (len D - pos)) → oom s' = oom s →
     reading p q i D (pos + n) s' → Q (n, put 0 (slice pos n D) buffer) s') →
  wp (file_read p buffer size) Q s.
Proof.
  intros Hr Hpos Hsz Hsz2 HQ. destruct (rd_file _ _ _ _ _ _ Hr) as [deny Hf]. destruct (reading_len _ _ _ _ _ _ Hr) as (Hl & Hlr & _).
  unfold file_read. wp_step. eapply wp_file_at; [done|]. cbn [f_inode f_pos f_deny_write]. wp_step.
  eapply wp_mono; [apply wp_inode_read_at|].
  { split; [apply Hr|apply Hr|apply Hr|apply Hr|lia|lia|lia]. }
  intros r s' (n & -> & Hq & Hn & Hno). unfold io_count in *. rewrite (rd_data _ _ _ _ _ _ Hr). repeat wp_step.
  apply wp_modify. wp_step. apply HQ; [lia|lia|intros H; specialize (Hno H); lia|apply Hq|].
  rewrite int32_small by lia.
  eapply (reading_files p q i D pos _ deny s'); [|done..].
  destruct Hr. split; [done| | | | | |].
  - exists deny. by rewrite (ds_files _ _ _ Hq).
  - by rewrite (ds_inodes _ _ _ Hq).
  - eauto with cmodel.
  - eauto with cmodel.
  - pose proof (ds_addr _ _ _ Hq). lia.
  - rewrite <-rd_data0. unfold file_data. by rewrite (ds_contents _ _ _ Hq).
Qed.

(** ** What stays while pages are added *)

(** The pages of the user pool that are in use stay in use and keep their
    contents. *)
Record user_kept (s s' : kernel) : Prop := {
  uk_base : base (user_pool s') = base (user_pool s);
  uk_cnt : bit_cnt (used_map (user_pool s')) = bit_cnt (used_map (user_pool s));
  uk_used i : 0 ≤ i → bit (used_map (user_pool s)) i = true → bit (used_map (user_pool s')) i = true;
  uk_mem i : 0 ≤ i < bit_cnt (used_map (user_pool s)) → bit (used_map (user_pool s)) i = true →
    mem s' !! pg_no (pool_page (user_pool s) i) = mem s !! pg_no (pool_page (user_pool s) i);
  uk_pagedir : pagedir s' = pagedir s
}.

Lemma user_kept_refl s : user_kept s s.
Proof. by split. Qed.

Lemma user_kept_trans s1 s2 s3 : user_kept s1 s2 → user_kept s2 s3 → user_kept s1 s3.
Proof.
  intros H1 H2. split.
  - by rewrite (uk_base _ _ H2), (uk_base _ _ H1).
  - by rewrite (uk_cnt _ _ H2), (uk_cnt _ _ H1).
  - intros i Hi Hb. by apply (uk_used _ _ H2), (uk_used _ _ H1).
  - intros i Hi Hb. rewrite <-(uk_mem _ _ H1 i Hi Hb). pose proof (uk_mem _ _ H2 i) as H. unfold pool_page in *. rewrite (uk_base _ _ H1) in H.
    apply H; [by rewrite (uk_cnt _ _ H1)|]. apply (uk_used _ _ H1); [lia|done].
  - by rewrite (uk_pagedir _ _ H2), (uk_pagedir _ _ H1).
Qed.

(** The two pools have no page in common. *)
Lemma pools_apart s i j : kernel_ok s → 0 ≤ i < bit_cnt (used_map (kernel_pool s)) → 0 ≤ j →
  pg_no (pool_page (kernel_pool s) i) < pg_no (pool_page (user_pool s) j).
Proof.
  intros Hs Hi Hj. pose proof (kok_disjoint _ Hs) as Hd. pose proof (kok_pool _ Hs true) as Hp1. pose proof (kok_pool _ Hs false) as Hp2.
  pose proof (pool_page_no _ _ j Hp1) as [E1 _]. pose proof (pool_page_no _ _ i Hp2) as [E2 _].
  pose proof (pok_base _ _ Hp1) as [_ A1]. pose proof (pok_base _ _ Hp2) as [_ A2].
  cbn [get_pool] in *. rewrite E1, E2, !pg_no_div. unfold aligned in *. change PGSIZE with 4096 in Hd. div_lia.
Qed.

Lemma user_kept_frame s s' : kernel_ok s → vm_frame s s' → user_kept s s'.
Proof.
  intros Hs Hf. pose proof (vmf_user _ _ Hf) as Eu. split; try by rewrite Eu.
  - intros i Hi _. apply (vmf_mem _ _ Hf). intros j Hj E. pose proof (pools_apart s j i Hs Hj ltac:(lia)). lia.
  - destruct (vmf_consts _ _ Hf) as (_ & _ & _ & ? & _). done.
Qed.

(** The page of [va] is mapped to a page of the user pool in use that holds
    [data]. *)
Definition page_loaded (s : kernel) (pd va : Z) (data : list Z) (writable : bool) : Prop :=
  ∃ i page, 0 ≤ i < bit_cnt (used_map (user_pool s)) ∧ bit (used_map (user_pool s)) i = true ∧
    translate s pd va = Some (pool_page (user_pool s) i) ∧ Z.testbit (pte_of s pd va) 1 = writable ∧
    mem s !! pg_no (pool_page (user_pool s) i) = Some page ∧ words_to_bytes page = data.

Lemma page_loaded_kept s s' pd va data w : user_kept s s' → pte_of s' pd va = pte_of s pd va →
  page_loaded s pd va data w → page_loaded s' pd va data w.
Proof.
  intros Hk Hp (i & page & Hi & Hb & Ht & Hw & Hm & Hd). exists i, page.
  assert (E : pool_page (user_pool s') i = pool_page (user_pool s) i) by (unfold pool_page; by rewrite (uk_base _ _ Hk)).
  rewrite (uk_cnt _ _ Hk), E, Hp, translate_frame, Hp, <-translate_frame, (uk_mem _ _ Hk i Hi Hb).
  repeat split; try done; try lia. apply (uk_used _ _ Hk); [lia|done].
Qed.

(** [install_page], whether the page is mapped already or not. *)
Lemma wp_install s pd upage kpage w : pagedir s = pd → pagedir_ok s pd → user_addr upage → aligned upage → ram_page s kpage →
  wp (install_page upage kpage w) (λ ok s',
    if ok then translate s pd upage = None ∧ pte_written s pd upage (kpage - PHYS_BASE + (if w then 7 else 5)) s'
    else s' = s ∧ (translate s pd upage ≠ None ∨ kernel_full s)) s.
Proof.
  intros Hpd Hok Hu Ha Hk. unfold install_page. repeat wp_step. rewrite Hpd. apply wp_pagedir_get_page; [done|done|].
  destruct (translate s pd upage) as [page|] eqn:Ht; cbn [from_option].
  - assert (Hp : page + pg_ofs upage ≠ NULL).
    { rewrite translate_frame in Ht. unfold frame_of in Ht. destruct (Z.testbit (pte_of s pd upage) 0); [|done]. injection Ht as <-.
      pose proof (pdo_pte _ _ Hok upage Hu) as Hr. change PTE_ADDR with 0xfffff000. rewrite (land_high (pte_of s pd upage)) by lia. rewrite pg_ofs_mod, PHYS_BASE_eq. div_lia. }
    rewrite (proj2 (Z.eqb_neq _ _) Hp). wp_step. split; [done|]. by left.
  - cbn [Z.eqb]. eapply wp_mono; [by apply wp_pagedir_set_page; [..|apply translate_None]|].
    intros [] s' H; cbv beta iota in H; [done|]. destruct H as (-> & Hfull & _). split; [done|]. by right.
Qed.

(** ** A new page of the user pool *)

(** The state [s2] differs from [s] in that page [i] of the user pool has come
    into use and holds the words [page]. *)
Record page_filled (s : kernel) (i : Z) (page : list Z) (s2 : kernel) : Prop := {
  pf_index : 0 ≤ i < bit_cnt (used_map (user_pool s)) ∧ bit (used_map (user_pool s)) i = false;
  pf_ok : kernel_ok s2;
  pf_base : base (user_pool s2) = base (user_pool s);
  pf_cnt : bit_cnt (used_map (user_pool s2)) = bit_cnt (used_map (user_pool s));
  pf_bit j : 0 ≤ j → bit (used_map (user_pool s2)) j = if decide (j = i) then true else bit (used_map (user_pool s)) j;
  pf_mem q : mem s2 !! q = if decide (q = pg_no (pool_page (user_pool s) i)) then Some page else mem s !! q;
  pf_rest : kernel_pool s2 = kernel_pool s ∧ init_page_dir s2 = init_page_dir s ∧ cr3 s2 = cr3 s ∧
    pagedir s2 = pagedir s ∧ segbreak s2 = segbreak s
}.

Lemma page_filled_kept s i page s2 : kernel_ok s → page_filled s i page s2 → user_kept s s2.
Proof.
  intros Hs Hf. destruct (pf_rest _ _ _ _ Hf) as (_ & _ & _ & Hp & _). split; [apply Hf|apply Hf| | |done].
  - intros j Hj Hb. rewrite (pf_bit _ _ _ _ Hf) by done. by case_decide.
  - intros j Hj Hb. rewrite (pf_mem _ _ _ _ Hf), decide_False; [done|].
    destruct (pf_index _ _ _ _ Hf) as [Hi Hb']. assert (j ≠ i) by congruence. pose proof (kok_pool _ Hs true) as Hpo.
    pose proof (pool_page_no _ _ j Hpo) as [E1 _]. pose proof (pool_page_no _ _ i Hpo) as [E2 _]. cbn [get_pool] in *. rewrite E1, E2. lia.
Qed.

Lemma page_filled_word s i page s2 p k : kernel_ok s → page_filled s i page s2 → used_page s p → 0 ≤ k < 1024 →
  word s2 (p + 4 * k) = word s (p + 4 * k).
Proof.
  intros Hs Hf Hp Hk. unfold word. destruct (used_page_nonnull s p Hs Hp) as [_ Ha]. destruct (word_addr p k Ha Hk) as [-> _].
  rewrite (pf_mem _ _ _ _ Hf), decide_False; [done|]. destruct Hp as (j & Hj & -> & _). destruct (pf_index _ _ _ _ Hf) as [Hi _].
  pose proof (pools_apart s j i Hs Hj ltac:(lia)). lia.
Qed.

Lemma page_filled_pagedir s i page s2 pd : pagedir_ok s pd → page_filled s i page s2 →
  pagedir_ok s2 pd ∧ ∀ va, user_addr va → pte_of s2 pd va = pte_of s pd va.
Proof.
  intros Hok Hf. destruct (pf_rest _ _ _ _ Hf) as (Hk & Hi & Hc & Hp & Hr). pose proof (pf_ok _ _ _ _ Hf).
  assert (Hw : ∀ p k, used_page s p → 0 ≤ k < 1024 → word s2 (p + 4 * k) = word s (p + 4 * k))
    by (intros; eapply page_filled_word; [apply Hok|done|done|done]).
  split; [by apply (transfer_ok s)|]. intros va Hva. by apply (transfer_pte s).
Qed.

Lemma page_filled_ram s i page s2 : page_filled s i page s2 → ram_page s2 (pool_page (user_pool s) i) ∧ pool_page (user_pool s2) i = pool_page (user_pool s) i.
Proof.
  intros Hf. pose proof (pf_ok _ _ _ _ Hf) as Hk. destruct (pf_index _ _ _ _ Hf) as [Hi _]. pose proof (kok_ram _ Hk).
  assert (E : pool_page (user_pool s2) i = pool_page (user_pool s) i) by (unfold pool_page; by rewrite (pf_base _ _ _ _ Hf)).
  split; [|done]. rewrite <-E. rewrite <-(pf_cnt _ _ _ _ Hf) in Hi.
  destruct (pool_page_kernel _ _ i (kok_pool _ Hk true)) as [Hkp Hr]; [lia|done|]. by split.
Qed.

Lemma allocated_filled (zero : bool) s i s1 : kernel_ok s → first_group (used_map (user_pool s)) 0 1 false i → Palloc.allocated true zero i 1 s s1 →
  ∃ page, page_filled s i page s1 ∧ length page = page_words ∧ (zero = true → page = replicate page_words 0).
Proof.
  intros Hs Hg Hal. pose proof (allocated_ok _ _ _ _ _ _ Hs Hal) as Hs1. destruct (kernel_ok_group true i 1 s Hs Hg ltac:(lia)) as (Hi & Hn & _).
  pose proof (first_group_bits _ _ _ _ _ i Hg ltac:(lia)) as Hb.
  destruct Hal as (b & Hwf & Hsz & Hbits & Es1). cbn [get_pool] in *.
  pose proof (pool_page_kernel _ _ i (kok_pool _ Hs true) ltac:(pose proof (kok_ram _ Hs); lia) ltac:(cbn [get_pool]; lia)) as [_ Hr]. cbn [get_pool] in Hr.
  destruct (kok_mem _ Hs _ Hr) as (old & Hold & Hlen).
  exists (if zero then replicate page_words 0 else old). split; [|by destruct zero].
  split; [split; [lia|done]|done| | | | |]; rewrite Es1; cbn [set_mem set_pool mem user_pool kernel_pool init_page_dir cr3 pagedir segbreak used_map base]; try done.
  - apply Hsz.
  - intros j Hj. rewrite Hbits by done. destruct (decide (j = i)); [by rewrite decide_True by lia|by rewrite decide_False by lia].
  - intros q. destruct zero.
    + rewrite lookup_fill_pages. change (Z.of_nat (Z.to_nat 1)) with 1.
      destruct (decide (q = _)); [by rewrite decide_True by lia|by rewrite decide_False by lia].
    + case_decide; [by subst|done].
Qed.

Lemma wp_page_bytes s i page s1 (Q : list Z → kernel → Prop) : page_filled s i page s1 → Q (words_to_bytes page) s1 →
  wp (page_bytes (pool_page (user_pool s) i)) Q s1.
Proof. intros Hf HQ. unfold wp, page_bytes. by rewrite (pf_mem _ _ _ _ Hf), decide_True by done. Qed.

Lemma wp_set_page_bytes s i page s1 l (Q : unit → kernel → Prop) : page_filled s i page s1 → length l = 4096%nat → bytes l →
  (∀ s2 page', page_filled s i page' s2 → words_to_bytes page' = l → length page' = page_words → Q tt s2) →
  wp (set_page_bytes (pool_page (user_pool s) i) l) Q s1.
Proof.
  intros Hf Hl Hb HQ. unfold wp, set_page_bytes. rewrite (pf_mem _ _ _ _ Hf), decide_True by done.
  destruct (words_to_bytes_to_words 1024 l ltac:(lia) Hb) as [E Hn]. apply (HQ _ (bytes_to_words l)); [|done|done].
  destruct Hf as [H1 H2 H3 H4 H5 H6 H7]. split; try done.
  - apply kernel_ok_set_mem; [done|]. intros p pg Hp Hlen. destruct (decide (p = pg_no (pool_page (user_pool s) i))) as [->|].
    + rewrite lookup_insert_eq. eauto.
    + rewrite lookup_insert_ne by done. eauto.
  - intros q. cbn [set_mem mem]. case_decide as E2; [subst; apply lookup_insert_eq|]. rewrite lookup_insert_ne by done.
    rewrite H6. by rewrite decide_False.
Qed.

(** The new page is given back. *)
Lemma wp_free_filled s i page s2 pd : pagedir_ok s pd → page_filled s i page s2 →
  wp (palloc_free_page (pool_page (user_pool s) i)) (λ _ s3, pagedir_ok s3 pd ∧ user_kept s s3 ∧ (kernel_pool s3 = kernel_pool s ∧ segbreak s3 = segbreak s) ∧
    ∀ va, user_addr va → pte_of s3 pd va = pte_of s pd va) s2.
Proof.
  intros Hok Hf. destruct (page_filled_pagedir _ _ _ _ _ Hok Hf) as [Hok2 Hpte]. destruct (page_filled_ram _ _ _ _ Hf) as [_ E].
  destruct (pf_index _ _ _ _ Hf) as [Hi Hb]. pose proof (pf_ok _ _ _ _ Hf) as Hk2. rewrite <-E.
  eapply wp_mono; [apply (wp_palloc_free_multiple true); [done|lia|lia|cbn [get_pool]; rewrite (pf_cnt _ _ _ _ Hf); lia|]|].
  { intros k Hk. cbn [get_pool]. assert (k = i) as -> by lia. rewrite (pf_bit _ _ _ _ Hf), decide_True by lia. done. }
  intros [] s3 Hrel. pose proof (released_ok _ _ _ _ _ Hk2 Hrel) as Hk3.
  destruct Hrel as (b & _ & Hsz & Hbits & Es3). cbn [get_pool] in *. destruct (pf_rest _ _ _ _ Hf) as (R1 & R2 & R3 & R4 & R5).
  assert (Hw : ∀ p k, used_page s2 p → 0 ≤ k < 1024 → word s3 (p + 4 * k) = word s2 (p + 4 * k)).
  { intros p k Hp Hk. eapply (word_fill_user s2 _ i 1); [done|done|done|lia|rewrite (pf_cnt _ _ _ _ Hf); lia|lia|by rewrite Es3]. }
  split; [apply (transfer_ok s2); done || by rewrite Es3|]. split; [|split; [by rewrite Es3|]].
  - split; rewrite Es3; cbn [set_mem set_pool mem user_pool kernel_pool pagedir segbreak used_map base].
    + apply Hf.
    + destruct Hsz as [-> _]. apply Hf.
    + intros j Hj Hbj. rewrite Hbits by done. assert (j ≠ i) by congruence. rewrite decide_False by lia.
      rewrite (pf_bit _ _ _ _ Hf) by done. by rewrite decide_False.
    + intros j Hj Hbj. rewrite lookup_fill_pages. assert (j ≠ i) by congruence. pose proof (kok_pool _ (pdo_kernel _ _ Hok) true) as Hpo.
      pose proof (pool_page_no _ _ j Hpo) as [E1 _]. pose proof (pool_page_no _ _ i Hpo) as [E2 _]. cbn [get_pool] in *. rewrite E.
      change (Z.of_nat (Z.to_nat 1)) with 1. rewrite decide_False by lia. rewrite (pf_mem _ _ _ _ Hf). by rewrite decide_False by lia.
    + done.
  - intros va Hva. rewrite <-(Hpte va Hva). apply (transfer_pte s2); done || by rewrite Es3.
Qed.

(** ... or mapped. *)
Lemma wp_install_filled s i page s2 pd upage w : pagedir s = pd → pagedir_ok s pd → page_filled s i page s2 → user_addr upage → aligned upage →
  wp (install_page upage (pool_page (user_pool s) i) w) (λ ok s3,
    if ok then pagedir_ok s3 pd ∧ (user_kept s s3 ∧ segbreak s3 = segbreak s) ∧ page_loaded s3 pd upage (words_to_bytes page) w ∧ translate s pd upage = None ∧
      ∀ va, user_addr va → pg_no va ≠ pg_no upage → pte_of s3 pd va = pte_of s pd va
    else s3 = s2 ∧ (translate s pd upage ≠ None ∨ kernel_full s)) s2.
Proof.
  intros Hpd Hok Hf Hu Ha. destruct (page_filled_pagedir _ _ _ _ _ Hok Hf) as [Hok2 Hpte]. destruct (page_filled_ram _ _ _ _ Hf) as [Hram E].
  destruct (pf_rest _ _ _ _ Hf) as (R1 & _ & _ & R4 & R5).
  eapply wp_mono; [apply (wp_install s2 pd); [congruence|done|done|done|done]|].
  intros [] s3 H; cbv beta iota in H.
  - destruct H as [Hn Hw]. pose proof Hw as (Hok3 & Hf3 & Hp3). pose proof (user_kept_frame s2 s3 (pf_ok _ _ _ _ Hf) Hf3) as Hk3.
    split; [done|]. split; [split; [eapply user_kept_trans; [by apply (page_filled_kept s i page s2); [apply Hok|]|done]|destruct (vmf_consts _ _ Hf3) as (_ & _ & _ & _ & ?); congruence]|]. split; [|split].
    + assert (E3 : pool_page (user_pool s3) i = pool_page (user_pool s) i) by (rewrite (vmf_user _ _ Hf3); done).
      destruct (pf_index _ _ _ _ Hf) as [Hi Hb]. exists i, page. rewrite E3, (vmf_user _ _ Hf3), (pf_cnt _ _ _ _ Hf), (pf_bit _ _ _ _ Hf) by lia.
      rewrite decide_True by done. split; [done|]. split; [done|].
      assert (Epte : pte_of s3 pd upage = pool_page (user_pool s) i - PHYS_BASE + (if w then 7 else 5)) by (rewrite Hp3, decide_True by done; done).
      rewrite translate_frame, Epte. destruct Hram as [Hkp _]. split; [by apply (frame_of_user w)|]. split; [|split; [|done]].
      * destruct Hkp as [Hr Hal]. pose proof (land_pow2_zero (pool_page (user_pool s) i - PHYS_BASE + (if w then 7 else 5)) 1 ltac:(lia)) as Hz.
        rewrite entry_flag in Hz; [destruct w, (Z.testbit _ 1); done| |destruct w; lia|lia].
        unfold aligned in Hal. rewrite PHYS_BASE_eq. rewrite Zminus_mod, Hal. done.
      * rewrite (vmf_mem _ _ Hf3), (pf_mem _ _ _ _ Hf), decide_True; [done|done|]. intros j Hj Ej. rewrite R1 in Hj, Ej.
        pose proof (pools_apart s j i (pdo_kernel _ _ Hok) Hj ltac:(lia)). lia.
    + rewrite translate_frame, <-Hpte, <-translate_frame by done. done.
    + intros va Hva Hne. rewrite Hp3 by done. rewrite decide_False by congruence. by apply Hpte.
  - destruct H as [-> [Hne|Hfull]]; split; try done.
    + left. rewrite translate_frame, <-Hpte, <-translate_frame by done. done.
    + right. unfold kernel_full in *. by rewrite <-R1.
Qed.

(** ** Segments *)

(** The memory image [image], a number of pages, is mapped from [upage] on. *)
Definition seg_loaded (s : kernel) (pd upage : Z) (image : list Z) (w : bool) : Prop :=
  ∀ k, 0 ≤ k → 4096 * (k + 1) ≤ len image → page_loaded s pd (upage + 4096 * k) (slice (4096 * k) 4096 image) w.

Lemma put_full (d l : list Z) : length d = length l → put 0 d l = d.
Proof. intros H. unfold put. change (Z.to_nat 0) with O. rewrite take_0, Nat.add_0_l, H, drop_all. by rewrite app_nil_r. Qed.

(** The bytes of one page: [n] of the file, then zeros. *)
Lemma page_image (d old : list Z) n : len old = 4096 → len d = n → 0 ≤ n ≤ 4096 →
  put n (replicate (Z.to_nat (4096 - n)) 0) (put 0 d old) = d ++ replicate (Z.to_nat (4096 - n)) 0.
Proof.
  intros Ho Hd Hn. assert (Hz : len (replicate (Z.to_nat (4096 - n)) 0) = 4096 - n) by (rewrite length_replicate; lia).
  replace n with (0 + len d) at 1 by lia. rewrite put_put_app by lia. apply put_full. rewrite length_app. lia.
Qed.

Lemma slice_first (l1 l2 : list Z) : len l1 = 4096 → slice 0 4096 (l1 ++ l2) = l1 ∧ slice 4096 (len l2) (l1 ++ l2) = l2.
Proof.
  intros H. unfold slice. change (Z.to_nat 0) with O. rewrite drop_0. split.
  - rewrite take_app_le by lia. apply take_ge. lia.
  - rewrite drop_app_ge by lia. replace (_ - _)%nat with O by lia. rewrite drop_0. apply take_ge. lia.
Qed.

(** An image is its first page and the rest. *)
Lemma seg_loaded_cons s pd upage l1 l2 w : len l1 = 4096 → page_loaded s pd upage l1 w → seg_loaded s pd (upage + 4096) l2 w →
  seg_loaded s pd upage (l1 ++ l2) w.
Proof.
  intros Hl H1 H2 k Hk Hlen. rewrite length_app in Hlen. destruct (decide (k = 0)) as [->|Hne].
  - rewrite Z.mul_0_r, Z.add_0_r. by rewrite (proj1 (slice_first l1 l2 Hl)).
  - pose proof (H2 (k - 1) ltac:(lia) ltac:(lia)) as H. replace (upage + 4096 + 4096 * (k - 1)) with (upage + 4096 * k) in H by lia.
    replace (slice (4096 * k) 4096 (l1 ++ l2)) with (slice (4096 * (k - 1)) 4096 l2); [done|].
    rewrite <-(proj2 (slice_first l1 l2 Hl)) at 1. rewrite slice_slice by lia. f_equal. lia.
Qed.

Lemma image_split D pos rb zb : 0 ≤ pos → 0 ≤ rb → 0 ≤ zb → 4096 ≤ rb + zb → pos + Z.min rb 4096 ≤ len D →
  slice pos rb D ++ replicate (Z.to_nat zb) 0 =
  (slice pos (Z.min rb 4096) D ++ replicate (Z.to_nat (4096 - Z.min rb 4096)) 0) ++
  (slice (pos + Z.min rb 4096) (rb - Z.min rb 4096) D ++ replicate (Z.to_nat (zb - (4096 - Z.min rb 4096))) 0).
Proof.
  intros Hp Hr Hz Hs Hl. destruct (Z_lt_le_dec rb 4096).
  - rewrite Z.min_l, Z.sub_diag, slice_nil by lia. rewrite app_nil_l, <-app_assoc. f_equal. rewrite <-replicate_add. f_equal. lia.
  - rewrite Z.min_r by lia. change (Z.to_nat (4096 - 4096)) with O. cbn [replicate]. rewrite app_nil_r, app_assoc. f_equal; [|f_equal; lia].
    rewrite slice_app by lia. f_equal. lia.
Qed.

(** What does not change outside the parts of the state. *)
Definition same_rest (s s' : proc) : Prop :=
  start_heap s' = start_heap s ∧ thread_current s' = thread_current s ∧ esp0 s' = esp0 s ∧ oom (fsys s') = oom (fsys s) ∧
  segbreak (kern s') = segbreak (kern s).

Definition mapped_before (k : kernel) (pd lo hi : Z) : Prop := ∃ va, user_addr va ∧ lo ≤ va < hi ∧ translate k pd va ≠ None.
Definition user_full (s : kernel) : Prop := no_group (used_map (user_pool s)) 0 1 false.

(** Why a segment is not loaded. *)
Definition load_failed (s s' : proc) (pd upage n : Z) (short : Prop) : Prop :=
  user_full (kern s') ∨ kernel_full (kern s') ∨ ¬ no_oom (fsys s) ∨ short ∨ mapped_before (kern s) pd upage (upage + n).

Record loading (file q : Z) (i : inode) (D : list Z) (pd pos : Z) (s : proc) : Prop := {
  ld_pd : pagedir (kern s) = pd;
  ld_ok : pagedir_ok (kern s) pd;
  ld_file : reading file q i D pos (fsys s);
  ld_pos : 0 ≤ pos ≤ len D
}.

Record segment_done (file q : Z) (i : inode) (D : list Z) (pd upage n : Z) (s s' : proc) : Prop := {
  sd_loading : ∃ pos', loading file q i D pd pos' s';
  sd_kept : user_kept (kern s) (kern s');
  sd_rest : same_rest s s';
  sd_pte va : user_addr va → ¬ (upage ≤ va < upage + n) → pte_of (kern s') pd va = pte_of (kern s) pd va;
  sd_mapped va : user_addr va → translate (kern s) pd va ≠ None → pte_of (kern s') pd va = pte_of (kern s) pd va
}.

Lemma translate_pte (k k' : kernel) pd va : pte_of k' pd va = pte_of k pd va → translate k' pd va = translate k pd va.
Proof. intros E. by rewrite !translate_frame, E. Qed.

Lemma wp_user_page (zero : bool) (Q : Z → kernel → Prop) s : kernel_ok s →
  (user_full s → Q NULL s) →
  (∀ i page s1, page_filled s i page s1 → length page = page_words → (zero = true → page = replicate page_words 0) → pool_page (user_pool s) i ≠ NULL →
     Q (pool_page (user_pool s) i) s1) →
  wp (palloc_get_page (if zero then Z.lor PAL_USER PAL_ZERO else PAL_USER)) Q s.
Proof.
  intros Hs Hno Hyes. apply wp_palloc_get_multiple; [done|lia|].
  replace (flag _ PAL_USER) with true by (by destruct zero). replace (flag _ PAL_ASSERT) with false by (by destruct zero).
  replace (flag _ PAL_ZERO) with zero by (by destruct zero). cbv zeta. cbn [get_pool]. split; [by intros; split; [|apply Hno]|].
  intros i s1 Hg Hal. destruct (kernel_ok_group true i 1 s Hs Hg ltac:(lia)) as (_ & _ & _ & _ & Hnn).
  destruct (allocated_filled zero s i s1 Hs Hg Hal) as (page & Hf & Hl & Hz). by apply (Hyes i page).
Qed.

Lemma wp_file_read_page file q ino D pos s i page size s1 f (Q : Z → proc → Prop) :
  page_filled s i page (kern s1) → length page = page_words → reading file q ino D pos (fsys s1) → f = fsys s1 → 0 ≤ pos ≤ len D → 0 ≤ size ≤ 4096 →
  (∀ n s2 page', 0 ≤ n ≤ size → pos + n ≤ len D → (no_oom f → n = Z.min size (len D - pos)) →
     page_filled s i page' (kern s2) → length page' = page_words → words_to_bytes page' = put 0 (slice pos n D) (words_to_bytes page) →
     reading file q ino D (pos + n) (fsys s2) → set_kern (kern s1) s2 = set_fsys (fsys s2) s1 → oom (fsys s2) = oom (fsys s1) → Q n s2) →
  wp (file_read_page file (pool_page (user_pool s) i) size) Q s1.
Proof.
  intros Hf Hpl Hr -> Hpos Hsz HQ. unfold file_read_page. wp_step. apply wp_on_kern. eapply wp_page_bytes; [exact Hf|].
  pose proof (words_to_bytes_length page) as Hl. rewrite Hpl in Hl. unfold page_words in *.
  wp_step. apply wp_on_fsys. cbn [set_kern fsys]. eapply wp_file_read; [exact Hr|lia|lia|lia|].
  intros n f' Hn Hle Hno Hoom Hr'. wp_step. apply wp_on_kern. cbn [set_fsys set_kern kern].
  destruct (reading_len _ _ _ _ _ _ Hr) as (_ & _ & Hby).
  assert (Hlen : length (put 0 (slice pos n D) (words_to_bytes page)) = 4096%nat).
  { rewrite length_put; [lia|lia|]. rewrite length_slice by lia. lia. }
  eapply wp_set_page_bytes; [exact Hf|done|apply Forall_put; [by apply Forall_slice|apply words_to_bytes_bytes]|].
  intros k2 page' Hf2 Hw Hl2. wp_step. apply (HQ n _ page'); try done.
Qed.

Lemma wp_load_page file q ino D pd pos upage prb w s : loading file q ino D pd pos s → user_addr upage → aligned upage → 0 ≤ prb ≤ 4096 →
  wp (load_page file upage prb (4096 - prb) w) (λ ok s', segment_done file q ino D pd upage 4096 s s' ∧
    if ok then pos + prb ≤ len D ∧ loading file q ino D pd (pos + prb) s' ∧
      page_loaded (kern s') pd upage (slice pos prb D ++ replicate (Z.to_nat (4096 - prb)) 0) w
    else load_failed s s' pd upage 4096 (len D < pos + prb)) s.
Proof.
  intros [Hpd Hok Hr Hpos] Hu Ha Hprb. unfold load_page. wp_step. apply wp_on_kern.
  apply (wp_user_page false); [apply Hok| |].
  { intros Hfull. cbn [Z.eqb]. wp_step. split; [|by left].
    split; [by exists pos; destruct s|by destruct s; apply user_kept_refl|by destruct s|by destruct s|by destruct s]. }
  intros i page k1 Hf1 Hl1 _ Hnn. rewrite (proj2 (Z.eqb_neq _ _) Hnn). wp_step.
  eapply (wp_file_read_page file q ino D pos (kern s) i page prb (set_kern k1 s)); [exact Hf1|done|exact Hr|done|done|lia|].
  intros n s2 page2 Hn Hle Hno Hf2 Hl2 Hw2 Hr2 Hsr2 Hoom2. cbn [set_kern fsys] in Hno.
  assert (Hrest : ∀ k, segbreak k = segbreak (kern s) → same_rest s (set_kern k s2)).
  { intros k Hk. destruct s, s2. by injection Hsr2 as <- <- <-. }
  destruct (Z.eqb_spec n prb) as [->|Hne]; cbn [negb].
  - wp_step. apply wp_on_kern. unfold memset_page. wp_step. eapply wp_page_bytes; [exact Hf2|]. rewrite Hw2. wp_step.
    pose proof (words_to_bytes_length page) as Hwl. rewrite Hl1 in Hwl. unfold page_words in *.
    assert (Hdl : len (slice pos prb D) = prb) by (apply length_slice; lia).
    assert (Hpl : length (put 0 (slice pos prb D) (words_to_bytes page)) = 4096%nat) by (rewrite length_put; lia).
    apply wp_mem_write; [lia|rewrite length_replicate; lia|]. rewrite page_image by lia.
    destruct (reading_len _ _ _ _ _ _ Hr) as (_ & _ & Hby).
    eapply wp_set_page_bytes; [exact Hf2|rewrite length_app, length_replicate; lia| |].
    { apply bytes_app; [by apply Forall_slice|]. apply Forall_replicate. unfold is_byte. lia. }
    intros k3 page3 Hf3 Hw3 Hl3. wp_step. apply wp_on_kern. cbn [set_kern kern].
    eapply wp_mono; [apply (wp_install_filled (kern s) i page3 k3 pd); done|].
    intros [] k4 H; cbv beta iota in H; cbn [negb].
    + destruct H as (Hok4 & [Hk4 Hsb4] & Hld & Hnone & Hpte). wp_step. rewrite Hw3 in Hld. cbn [set_kern kern fsys].
      assert (Hl4 : loading file q ino D pd (pos + prb) (set_kern k4 (set_kern k3 s2))).
      { split; [cbn; rewrite (uk_pagedir _ _ Hk4); done|done|done|lia]. }
      split; [|split; [lia|split; [done|done]]]. split; [by eexists|done|by apply Hrest| |].
      * intros va Hva Hout. apply Hpte; [done|]. rewrite !pg_no_div. unfold aligned in Ha. div_lia.
      * intros va Hva Hm. apply Hpte; [done|]. intros E. by rewrite (translate_page _ _ va upage E) in Hm.
    + destruct H as [-> Hwhy]. wp_step. apply wp_on_kern. eapply wp_mono; [apply (wp_free_filled (kern s) i page3 k3 pd); done|].
      intros [] k5 (Hok5 & Hk5 & [Hkp Hsb5] & Hpte). wp_step. cbn [set_kern kern fsys]. split.
      * split; [|done|by apply Hrest|by intros; apply Hpte|by intros; apply Hpte]. exists (pos + prb).
        split; [cbn; rewrite (uk_pagedir _ _ Hk5); done|done|done|lia].
      * destruct Hwhy as [Hm|Hfull].
        -- right; right; right; right. exists upage. split; [done|]. split; [lia|done].
        -- right; left. unfold kernel_full in *. cbn [kern set_kern]. by rewrite Hkp.
  - wp_step. apply wp_on_kern. eapply wp_mono; [apply (wp_free_filled (kern s) i page2 (kern s2) pd); done|].
    intros [] k5 (Hok5 & Hk5 & [Hkp Hsb5] & Hpte). wp_step. cbn [set_kern kern fsys]. split.
    + split; [|done|by apply Hrest|by intros; apply Hpte|by intros; apply Hpte]. exists (pos + n).
      split; [cbn; rewrite (uk_pagedir _ _ Hk5); done|done|done|lia].
    + destruct (Z_lt_le_dec (len D) (pos + prb)); [by right; right; right; left|].
      right; right; left. intros Hoom. specialize (Hno Hoom). lia.
Qed.

Lemma wp_load_segment_loop fuel file q ino D pd pos upage rb zb w s :
  loading file q ino D pd pos s → aligned upage → 0 ≤ upage → 0 ≤ rb → 0 ≤ zb → (rb + zb) mod 4096 = 0 → upage + (rb + zb) ≤ PHYS_BASE →
  (rb + zb) / 4096 < Z.of_nat fuel →
  wp (load_segment_loop fuel file upage rb zb w) (λ ok s', segment_done file q ino D pd upage (rb + zb) s s' ∧
    if ok then pos + rb ≤ len D ∧ seg_loaded (kern s') pd upage (slice pos rb D ++ replicate (Z.to_nat zb) 0) w
    else load_failed s s' pd upage (rb + zb) (len D < pos + rb)) s.
Proof.
  revert pos upage rb zb s. induction fuel as [|fuel IH]; intros pos upage rb zb s Hld Ha Hu Hr Hz Hmod Hend Hfuel.
  { exfalso. div_lia. }
  cbn [load_segment_loop]. change PGSIZE with 4096.
  replace ((0 <? rb) || (0 <? zb)) with (negb (rb + zb =? 0)).
  2: { destruct (Z.ltb_spec 0 rb), (Z.ltb_spec 0 zb), (Z.eqb_spec (rb + zb) 0); done || lia. }
  destruct (Z.eqb_spec (rb + zb) 0) as [H0|H0]; cbn [negb].
  { wp_step. replace rb with 0 by lia. replace zb with 0 by lia. pose proof (ld_pos _ _ _ _ _ _ _ Hld). split.
    - split; [by exists pos|apply user_kept_refl|done|done|done].
    - split; [lia|]. intros k Hk Hlen. rewrite slice_nil in Hlen. rewrite app_nil_l, length_replicate in Hlen. lia. }
  assert (Htot : 4096 ≤ rb + zb) by div_lia.
  replace (if rb <? 4096 then rb else 4096) with (Z.min rb 4096) by (destruct (Z.ltb_spec rb 4096); lia).
  rewrite PHYS_BASE_eq in Hend. assert (Hprb : 0 ≤ Z.min rb 4096 ≤ rb ∧ 4096 - Z.min rb 4096 ≤ zb) by lia.
  pose proof (image_split D pos rb zb) as Himg. set (prb := Z.min rb 4096) in *.
  pose proof (ld_pos _ _ _ _ _ _ _ Hld) as Hpos0.
  wp_step. eapply wp_mono; [apply (wp_load_page file q ino D pd pos upage prb w s Hld); [unfold user_addr; rewrite PHYS_BASE_eq; lia|done|lia]|].
  intros [] s1 [Hd1 H]; cbv beta iota in H; cbn [negb].
  - destruct H as (Hle & Hld1 & Hpg). rewrite !wrap32_small by lia.
    assert (Hsum : rb - prb + (zb - (4096 - prb)) = rb + zb - 4096) by lia.
    eapply wp_mono; [apply (IH (pos + prb) (upage + 4096) (rb - prb) (zb - (4096 - prb)) s1 Hld1);
      [unfold aligned in *; div_lia|lia|lia|lia|rewrite Hsum; div_lia|rewrite PHYS_BASE_eq; lia|rewrite Hsum; div_lia]|].
    rewrite Hsum. intros ok s2 [Hd2 H2]. replace (pos + prb + (rb - prb)) with (pos + rb) in H2 by lia. split.
    { split; [apply Hd2|eapply user_kept_trans; [apply Hd1|apply Hd2]| | |].
      - destruct (sd_rest _ _ _ _ _ _ _ _ _ Hd1) as (? & ? & ? & ? & ?), (sd_rest _ _ _ _ _ _ _ _ _ Hd2) as (? & ? & ? & ? & ?). repeat split; congruence.
      - intros va Hva Hn. rewrite (sd_pte _ _ _ _ _ _ _ _ _ Hd2), (sd_pte _ _ _ _ _ _ _ _ _ Hd1) by (done || lia). done.
      - intros va Hva Hm. pose proof (sd_mapped _ _ _ _ _ _ _ _ _ Hd1 va Hva Hm) as E1. rewrite <-E1.
        apply (sd_mapped _ _ _ _ _ _ _ _ _ Hd2); [done|]. by rewrite (translate_pte _ _ _ _ E1). }
    destruct ok; cbv beta iota in H2 |- *.
    + destruct H2 as [Hle2 Hs2]. split; [done|]. rewrite Himg by lia. apply seg_loaded_cons; [|eapply page_loaded_kept; [apply Hd2| |done]|done].
      * rewrite length_app, length_replicate. pose proof (length_slice pos prb D). lia.
      * apply (sd_pte _ _ _ _ _ _ _ _ _ Hd2); [unfold user_addr; rewrite PHYS_BASE_eq; lia|lia].
    + destruct H2 as [H2|[H2|[H2|[H2|(va & H3 & H4 & H5)]]]]; [by left|by right; left| |by right; right; right; left|].
      * right; right; left. unfold no_oom in *. destruct (sd_rest _ _ _ _ _ _ _ _ _ Hd1) as (_ & _ & _ & E & _). by rewrite E in H2.
      * right; right; right; right. exists va. split; [done|]. split; [lia|]. rewrite translate_frame in *.
        rewrite (sd_pte _ _ _ _ _ _ _ _ _ Hd1) in H5 by (done || lia). done.
  - wp_step. split; [split; [apply Hd1|apply Hd1|apply Hd1|intros va Hva Hn; apply (sd_pte _ _ _ _ _ _ _ _ _ Hd1); [done|lia]|apply Hd1]|].
    destruct H as [H|[H|[H|[H|(va & H1 & H2 & H3)]]]]; [by left|by right; left|by right; right; left|right; right; right; left; lia|].
    right; right; right; right. exists va. split; [done|]. split; [lia|done].
Qed.

Lemma wp_load_segment file q ino D pd pos ofs upage rb zb w s :
  loading file q ino D pd pos s → aligned ofs → 0 ≤ ofs ≤ len D → aligned upage → 0 ≤ upage → 0 ≤ rb → 0 ≤ zb → (rb + zb) mod 4096 = 0 →
  upage + (rb + zb) ≤ PHYS_BASE →
  wp (load_segment file ofs upage rb zb w) (λ ok s', segment_done file q ino D pd upage (rb + zb) s s' ∧
    if ok then ofs + rb ≤ len D ∧ seg_loaded (kern s') pd upage (slice ofs rb D ++ replicate (Z.to_nat zb) 0) w
    else load_failed s s' pd upage (rb + zb) (len D < ofs + rb)) s.
Proof.
  intros Hld Ho Hofs Ha Hu Hr Hz Hmod Hend. unfold load_segment. change PGSIZE with 4096. rewrite PHYS_BASE_eq in Hend.
  repeat wp_step.
  - rewrite wrap32_small by lia. by apply Z.eqb_eq.
  - apply Z.eqb_eq. by rewrite pg_ofs_mod.
  - apply Z.eqb_eq. rewrite Z.rem_mod_nonneg by lia. done.
  - apply wp_on_fsys. eapply wp_file_seek; [apply Hld|lia|]. intros f Hf Hoom.
    assert (Hld1 : loading file q ino D pd ofs (set_fsys f s)) by (destruct Hld; by split).
    eapply wp_mono; [apply (wp_load_segment_loop _ file q ino D pd ofs upage rb zb w (set_fsys f s)); first [done|rewrite ?PHYS_BASE_eq; change PGSIZE with 4096; lia]|].
    intros ok s' [Hd H]. split.
    + split; [apply Hd|apply Hd| |apply Hd|apply Hd]. destruct (sd_rest _ _ _ _ _ _ _ _ _ Hd) as (? & ? & ? & E & ?). repeat split; try done. etransitivity; [exact E|exact Hoom].
    + destruct ok; [done|]. destruct H as [H|[H|[H|[H|H]]]]; [by left|by right; left| |by right; right; right; left|by right; right; right; right].
      right; right; left. unfold no_oom in *. cbn [set_fsys fsys] in H. by rewrite Hoom in H.
Qed.

(** ** Program headers *)

Record phdr_range (ph : Elf32_Phdr) : Prop := {
  pr_offset : 0 ≤ p_offset ph < 2 ^ 32;
  pr_vaddr : 0 ≤ p_vaddr ph < 2 ^ 32;
  pr_filesz : 0 ≤ p_filesz ph < 2 ^ 32;
  pr_memsz : 0 ≤ p_memsz ph < 2 ^ 32
}.

Lemma decode_phdr_range l : len l = 32 → bytes l → phdr_range (decode_phdr l).
Proof.
  intros Hl Hb. assert (H : ∀ o, 0 ≤ o ≤ 28 → 0 ≤ of_le32 (slice o 4 l) < 2 ^ 32).
  { intros o Ho. pose proof (length_slice o 4 l ltac:(lia) ltac:(lia) ltac:(lia)). apply of_le32_range; [lia|by apply Forall_slice]. }
  split; apply H; lia.
Qed.

(** A segment that may be loaded from a file of [n] bytes. *)
Record valid_segment (ph : Elf32_Phdr) (n : Z) : Prop := {
  vs_congruent : p_offset ph mod 4096 = p_vaddr ph mod 4096;
  vs_in_file : p_offset ph ≤ n;
  vs_sizes : p_filesz ph ≤ p_memsz ph;
  vs_nonempty : 0 < p_memsz ph;
  vs_low : 4096 ≤ p_vaddr ph;
  vs_high : p_vaddr ph + p_memsz ph < PHYS_BASE
}.

Lemma validate_segment_iff ph n : phdr_range ph → 0 ≤ n < 2 ^ 31 → validate_segment ph n = true ↔ valid_segment ph n.
Proof.
  intros [Ho Hv Hf Hm] Hn. unfold validate_segment, is_user_vaddr. change PGSIZE with 4096.
  fold (pg_ofs (p_offset ph)) (pg_ofs (p_vaddr ph)). rewrite !pg_ofs_mod, (wrap32_small n), PHYS_BASE_eq by lia.
  assert (Hw : wrap32 (p_vaddr ph + p_memsz ph) = p_vaddr ph + p_memsz ph ∧ p_vaddr ph + p_memsz ph < 2 ^ 32 ∨
               wrap32 (p_vaddr ph + p_memsz ph) = p_vaddr ph + p_memsz ph - 2 ^ 32 ∧ 2 ^ 32 ≤ p_vaddr ph + p_memsz ph).
  { destruct (Z_lt_le_dec (p_vaddr ph + p_memsz ph) (2 ^ 32)); [left|right]; (split; [|done]).
    - apply wrap32_small. lia.
    - symmetry. apply Z.mod_unique with 1; lia. }
  destruct (Z.eqb_spec (p_offset ph mod 4096) (p_vaddr ph mod 4096)); cbn [negb]; [|by split; [|intros []]].
  destruct (Z.ltb_spec n (p_offset ph)); [split; [done|intros []; lia]|].
  destruct (Z.ltb_spec (p_memsz ph) (p_filesz ph)); [split; [done|intros []; lia]|].
  destruct (Z.eqb_spec (p_memsz ph) 0); [split; [done|intros []; lia]|].
  destruct (Z.ltb_spec (p_vaddr ph) 3221225472); cbn [negb]; [|split; [done|intros []; rewrite PHYS_BASE_eq in *; lia]].
  destruct (Z.ltb_spec (wrap32 (p_vaddr ph + p_memsz ph)) 3221225472); cbn [negb]; [|split; [done|intros []; rewrite PHYS_BASE_eq in *; lia]].
  destruct (Z.ltb_spec (wrap32 (p_vaddr ph + p_memsz ph)) (p_vaddr ph)); [split; [done|intros []; rewrite PHYS_BASE_eq in *; lia]|].
  destruct (Z.ltb_spec (p_vaddr ph) 4096); [split; [done|intros []; lia]|].
  split; [intros _; split; rewrite ?PHYS_BASE_eq; lia|done].
Qed.

(** The pages of a segment: the first, and the end of the last. *)
Definition seg_start (ph : Elf32_Phdr) : Z := p_vaddr ph - p_vaddr ph mod 4096.
Definition seg_end (ph : Elf32_Phdr) : Z := (p_vaddr ph + p_memsz ph + 4095) / 4096 * 4096.
(** The number of bytes that come from the file, those before the segment in
    its first page included. *)
Definition seg_read (ph : Elf32_Phdr) : Z := if 0 <? p_filesz ph then p_vaddr ph mod 4096 + p_filesz ph else 0.
Definition seg_image (D : list Z) (ph : Elf32_Phdr) : list Z :=
  slice (p_offset ph - p_offset ph mod 4096) (seg_read ph) D ++ replicate (Z.to_nat (seg_end ph - seg_start ph - seg_read ph)) 0.

Lemma segment_bytes_eq ph n : phdr_range ph → valid_segment ph n →
  segment_bytes ph = (seg_read ph, seg_end ph - seg_start ph - seg_read ph) ∧
  0 ≤ seg_read ph ≤ seg_end ph - seg_start ph ∧ (seg_end ph - seg_start ph) mod 4096 = 0 ∧ seg_end ph ≤ PHYS_BASE ∧ 0 ≤ seg_start ph ≤ seg_end ph ∧
  aligned (seg_start ph) ∧ aligned (seg_end ph).
Proof.
  intros [Ho Hv Hf Hm] [V1 V2 V3 V4 V5 V6]. unfold segment_bytes. fold (pg_ofs (p_vaddr ph)). rewrite pg_ofs_mod.
  unfold seg_read, seg_end, seg_start, ROUND_UP, aligned. change PGSIZE with 4096. rewrite PHYS_BASE_eq in *.
  set (v := p_vaddr ph) in *. set (m := p_memsz ph) in *. set (f := p_filesz ph) in *. pose proof (Z.mod_pos_bound v 4096 ltac:(lia)) as Hpo.
  assert (E : v = 4096 * (v / 4096) + v mod 4096) by (apply Z.div_mod; lia).
  assert (ER : (v + m + 4095) / 4096 * 4096 - (v - v mod 4096) = (v mod 4096 + m + 4095) / 4096 * 4096) by div_lia.
  rewrite (wrap32_small (v mod 4096 + m)), (wrap32_small (v mod 4096 + m + 4096 - 1)) by lia.
  replace (v mod 4096 + m + 4096 - 1) with (v mod 4096 + m + 4095) by lia. rewrite ER.
  assert (HR : v mod 4096 + m ≤ (v mod 4096 + m + 4095) / 4096 * 4096 ≤ v mod 4096 + m + 4095) by div_lia.
  rewrite (wrap32_small ((v mod 4096 + m + 4095) / 4096 * 4096)) by lia.
  assert (Hend : (v + m + 4095) / 4096 * 4096 ≤ 3221225472) by div_lia.
  destruct (Z.ltb_spec 0 f).
  - rewrite (wrap32_small (v mod 4096 + f)) by lia. rewrite wrap32_small by lia. split; [done|].
    split; [lia|]. split; [by rewrite Z_mod_mult|]. split; [done|]. split; [div_lia|]. split; [div_lia|by rewrite Z_mod_mult].
  - rewrite Z.sub_0_r. split; [done|]. split; [lia|]. split; [by rewrite Z_mod_mult|]. split; [done|]. split; [div_lia|]. split; [div_lia|by rewrite Z_mod_mult].
Qed.

(** What every step of [load] keeps. *)
Record load_kept (file q : Z) (i : inode) (D : list Z) (pd : Z) (s s' : proc) : Prop := {
  lk_loading : ∃ pos, loading file q i D pd pos s';
  lk_pages : user_kept (kern s) (kern s');
  lk_mapped va : user_addr va → translate (kern s) pd va ≠ None → pte_of (kern s') pd va = pte_of (kern s) pd va
}.

Lemma load_kept_trans file q i D pd s1 s2 s3 : load_kept file q i D pd s1 s2 → load_kept file q i D pd s2 s3 → load_kept file q i D pd s1 s3.
Proof.
  intros H1 H2. split; [apply H2|eapply user_kept_trans; [apply H1|apply H2]|]. intros va Hva Hm.
  pose proof (lk_mapped _ _ _ _ _ _ _ H1 va Hva Hm) as E. rewrite <-E. apply (lk_mapped _ _ _ _ _ _ _ H2); [done|]. by rewrite (translate_pte _ _ _ _ E).
Qed.

Lemma page_loaded_mapped s pd va data w : page_loaded s pd va data w → translate s pd va ≠ None.
Proof. by intros (i & page & _ & _ & -> & _). Qed.

Definition writable (ph : Elf32_Phdr) : bool := negb (Z.land (p_flags ph) PF_W =? 0).
Definition loadable (ph : Elf32_Phdr) : bool := p_type ph =? PT_LOAD.

(** The segment of [ph] is in memory. *)
Record phdr_loaded (s : kernel) (pd : Z) (D : list Z) (ph : Elf32_Phdr) : Prop := {
  pl_valid : valid_segment ph (len D);
  pl_file : p_offset ph - p_offset ph mod 4096 + seg_read ph ≤ len D;
  pl_image : seg_loaded s pd (seg_start ph) (seg_image D ph) (writable ph)
}.

Lemma seg_image_len D ph : phdr_range ph → valid_segment ph (len D) → p_offset ph - p_offset ph mod 4096 + seg_read ph ≤ len D →
  len (seg_image D ph) = seg_end ph - seg_start ph.
Proof.
  intros Hr Hv Hf. destruct (segment_bytes_eq ph (len D) Hr Hv) as (_ & H1 & _). pose proof (pr_offset _ Hr).
  unfold seg_image. rewrite length_app, length_replicate.
  pose proof (length_slice (p_offset ph - p_offset ph mod 4096) (seg_read ph) D ltac:(div_lia) ltac:(lia) ltac:(lia)). lia.
Qed.

Lemma phdr_loaded_kept file q i D pd s s' ph : phdr_range ph → load_kept file q i D pd s s' →
  phdr_loaded (kern s) pd D ph → phdr_loaded (kern s') pd D ph.
Proof.
  intros Hr Hk [Hv Hf Hi]. split; [done|done|]. intros k Hk0 Hlen. eapply page_loaded_kept; [apply Hk| |by apply Hi].
  rewrite (seg_image_len D ph Hr Hv Hf) in Hlen. destruct (segment_bytes_eq ph (len D) Hr Hv) as (_ & H1 & _ & H3 & H4 & _).
  apply (lk_mapped _ _ _ _ _ _ _ Hk); [unfold user_addr; lia|]. eapply page_loaded_mapped. apply (Hi k Hk0).
  rewrite (seg_image_len D ph Hr Hv Hf). done.
Qed.

(** Where the heap starts after the headers: [segbreak] and [start_heap]. *)
Definition heap_after (last : bool) (ph : Elf32_Phdr) (h : Z * Z) : Z * Z :=
  if loadable ph then (seg_end ph, if last then seg_end ph else h.2) else h.
Definition heap (s : proc) : Z * Z := (segbreak (kern s), start_heap s).

Definition accepted (ph : Elf32_Phdr) : Prop := p_type ph ≠ PT_DYNAMIC ∧ p_type ph ≠ PT_INTERP ∧ p_type ph ≠ PT_SHLIB.

Lemma pagedir_ok_segbreak k pd b : pagedir_ok k pd → pagedir_ok (set_segbreak b k) pd.
Proof.
  intros Hok. apply (transfer_ok k); try done. destruct (pdo_kernel _ _ Hok) as [H1 H2 H3 H4]. by split.
Qed.

Lemma loading_kern file q i D pd pos s k : loading file q i D pd pos s → pagedir k = pd → pagedir_ok k pd → loading file q i D pd pos (set_kern k s).
Proof. by intros [] ? ?; split. Qed.

Lemma wp_load_phdr file q ino D pd pos phnum i ph s : loading file q ino D pd pos s → phdr_range ph →
  wp (load_phdr file phnum i ph) (λ ok s', load_kept file q ino D pd s s' ∧
    (ok = true → accepted ph ∧ heap s' = heap_after (i =? phnum - 1) ph (heap s) ∧ (loadable ph = true → phdr_loaded (kern s') pd D ph))) s.
Proof.
  intros Hld Hr. destruct (reading_len _ _ _ _ _ _ (ld_file _ _ _ _ _ _ _ Hld)) as (_ & Hl & _).
  assert (Hsame : load_kept file q ino D pd s s) by (split; [by exists pos|apply user_kept_refl|done]).
  unfold load_phdr, heap_after, loadable.
  destruct (Z.eqb_spec (p_type ph) PT_DYNAMIC); cbn [orb]; [by wp_step|]. destruct (Z.eqb_spec (p_type ph) PT_INTERP); cbn [orb]; [by wp_step|].
  destruct (Z.eqb_spec (p_type ph) PT_SHLIB); cbn [orb]; [by wp_step|].
  destruct (Z.eqb_spec (p_type ph) PT_LOAD); [|by wp_step]. wp_step. apply wp_on_fsys. eapply wp_file_length; [apply Hld|].
  replace (set_fsys (fsys s) s) with s by (by destruct s).
  destruct (validate_segment ph (len D)) eqn:Hval; [|by wp_step]. apply validate_segment_iff in Hval; [|done|lia].
  destruct (segment_bytes_eq ph (len D) Hr Hval) as (Eb & H1 & H2 & H3 & H4 & H5 & H6). rewrite Eb. rewrite PHYS_BASE_eq in H3.
  fold (pg_round_down (p_offset ph)) (pg_round_down (p_vaddr ph)). pose proof (pr_offset _ Hr) as HO. pose proof (pr_vaddr _ Hr) as HV.
  pose proof (vs_in_file _ _ Hval) as HI. rewrite !pg_round_down_eq by lia. rewrite int32_small by div_lia. fold (seg_start ph).
  replace (wrap32 (seg_start ph + seg_read ph + (seg_end ph - seg_start ph - seg_read ph))) with (seg_end ph) by (rewrite wrap32_small; lia).
  assert (Hsum : seg_read ph + (seg_end ph - seg_start ph - seg_read ph) = seg_end ph - seg_start ph) by lia.
  wp_step. eapply wp_mono; [apply (wp_load_segment file q ino D pd pos); [done|unfold aligned; div_lia|div_lia|done|lia|lia|lia|by rewrite Hsum|rewrite Hsum, PHYS_BASE_eq; lia]|].
  intros [] s1 [Hd H]; cbv beta iota in H; cbn [negb].
  2: { wp_step. split; [|done]. split; [apply Hd|apply Hd|apply Hd]. }
  destruct H as [Hfile Himg]. destruct (sd_loading _ _ _ _ _ _ _ _ _ Hd) as [pos1 Hld1].
  destruct (sd_rest _ _ _ _ _ _ _ _ _ Hd) as (Hsh & _ & _ & _ & Hsb).
  assert (Hfin : ∀ s2, kern s2 = set_segbreak (seg_end ph) (kern s1) → fsys s2 = fsys s1 → start_heap s2 = (if i =? phnum - 1 then seg_end ph else start_heap s1) →
    load_kept file q ino D pd s s2 ∧ (true = true → accepted ph ∧ heap s2 = (seg_end ph, if i =? phnum - 1 then seg_end ph else (heap s).2) ∧
      (true = true → phdr_loaded (kern s2) pd D ph))).
  { intros s2 Ek Ef Eh. unfold heap. rewrite Ek, Eh, Hsh. split; [|intros _; split; [done|split; [done|intros _; by split]]].
    split; rewrite ?Ek.
    - exists pos1. destruct Hld1 as [L1 L2 L3 L4]. split; rewrite ?Ek, ?Ef; try done. by apply pagedir_ok_segbreak.
    - destruct (sd_kept _ _ _ _ _ _ _ _ _ Hd). by split.
    - apply (sd_mapped _ _ _ _ _ _ _ _ _ Hd). }
  destruct (i =? phnum - 1) eqn:Ei; repeat wp_step; apply wp_on_kern; wp_step; by apply Hfin.
Qed.

Fixpoint phdrs (n : nat) (D : list Z) (ofs : Z) : list Elf32_Phdr :=
  match n with O => [] | S n => decode_phdr (slice ofs 32 D) :: phdrs n D (ofs + 32) end.

Fixpoint heap_list (phs : list Elf32_Phdr) (h : Z * Z) : Z * Z :=
  match phs with [] => h | ph :: phs => heap_list phs (heap_after (bool_decide (phs = [])) ph h) end.

(** [segbreak] is the end of the last loadable segment; [start_heap] is set
    only if the last header is loadable. *)
Definition heap_end (phs : list Elf32_Phdr) (h : Z * Z) : Z * Z :=
  (match last (filter (λ ph, loadable ph = true) phs) with Some ph => seg_end ph | None => h.1 end,
   match last phs with Some ph => if loadable ph then seg_end ph else h.2 | None => h.2 end).

Lemma heap_list_end phs h : heap_list phs h = heap_end phs h.
Proof.
  revert h. induction phs as [|ph phs IH]; intros h; [by destruct h|]. cbn [heap_list]. rewrite IH. unfold heap_end, heap_after.
  rewrite filter_cons. destruct phs as [|ph' phs].
  - rewrite bool_decide_true by done. cbn. destruct (loadable ph); cbn; by destruct h.
  - rewrite bool_decide_false by done. rewrite (last_cons ph (ph' :: phs)). destruct (last_is_Some (ph' :: phs)) as [_ H].
    destruct (H ltac:(done)) as [x Hx]. rewrite Hx. destruct (loadable ph) eqn:Hl.
    + rewrite decide_True by done. rewrite (last_cons ph (filter _ _)). cbn [fst snd]. by destruct (last (filter _ _)).
    + rewrite decide_False by done. done.
Qed.

Lemma phdr_range_file D ofs : bytes D → 0 ≤ ofs → ofs + 32 ≤ len D → phdr_range (decode_phdr (slice ofs 32 D)).
Proof. intros Hb Ho Hl. apply decode_phdr_range; [by apply length_slice|by apply Forall_slice]. Qed.

(** The headers that were accepted lie in the file. *)
Definition headers_loaded (s : kernel) (pd : Z) (D : list Z) (n : nat) (ofs : Z) : Prop :=
  (n = O ∨ 0 ≤ ofs) ∧ (n = O ∨ ofs + 32 * Z.of_nat n ≤ len D) ∧
  Forall (λ ph, phdr_range ph ∧ accepted ph ∧ (loadable ph = true → phdr_loaded s pd D ph)) (phdrs n D ofs).

Lemma headers_loaded_kept file q i D pd s s' n ofs : load_kept file q i D pd s s' → headers_loaded (kern s) pd D n ofs → headers_loaded (kern s') pd D n ofs.
Proof.
  intros Hk (H1 & H2 & H3). split; [done|]. split; [done|]. eapply Forall_impl; [done|]. intros ph (Hr & Ha & Hl). split; [done|]. split; [done|].
  intros H. by eapply phdr_loaded_kept; [|exact Hk|apply Hl].
Qed.

Lemma wp_load_headers n file q ino D pd pos phnum i ofs s : loading file q ino D pd pos s → i + Z.of_nat n = phnum →
  wp (load_headers n file phnum i ofs) (λ ok s', load_kept file q ino D pd s s' ∧
    (ok = true → headers_loaded (kern s') pd D n ofs ∧ heap s' = heap_list (phdrs n D ofs) (heap s))) s.
Proof.
  revert pos i ofs s. induction n as [|n IH]; intros pos i ofs s Hld Hi; cbn [load_headers phdrs heap_list].
  { wp_step. split; [split; [by exists pos|apply user_kept_refl|done]|]. intros _. split; [|done]. split; [by left|]. split; [by left|done]. }
  destruct (reading_len _ _ _ _ _ _ (ld_file _ _ _ _ _ _ _ Hld)) as (_ & Hl & Hby).
  assert (Hsame : ∀ s1 p1, loading file q ino D pd p1 s1 → kern s1 = kern s → load_kept file q ino D pd s s1).
  { intros s1 p1 H1 E. split; [by exists p1|rewrite E; apply user_kept_refl|by rewrite E]. }
  wp_step. apply wp_on_fsys. eapply wp_file_length; [apply Hld|]. replace (set_fsys (fsys s) s) with s by (by destruct s).
  destruct (Z.ltb_spec ofs 0) as [|Hof1]; cbn [orb]; [wp_step; split; [by eapply Hsame|done]|].
  destruct (Z.ltb_spec (len D) ofs) as [|Hof2]; [wp_step; split; [by eapply Hsame|done]|].
  wp_step. apply wp_on_fsys. eapply wp_file_seek; [apply Hld|lia|]. intros f1 Hr1 Ho1.
  wp_step. apply wp_on_fsys. change sizeof_Phdr with 32. eapply wp_file_read; [exact Hr1|lia|rewrite length_replicate; lia|lia|].
  intros r f2 Hn Hle _ Ho2 Hr2.
  assert (Hld2 : loading file q ino D pd (ofs + r) (set_fsys f2 (set_fsys f1 s))) by (destruct Hld; split; [done|done|done|lia]).
  destruct (Z.eqb_spec r 32) as [->|]; cbn [negb]; [|wp_step; split; [by eapply Hsame|done]].
  rewrite put_full by (rewrite length_replicate; pose proof (length_slice ofs 32 D); lia).
  wp_step. eapply wp_mono; [apply (wp_load_phdr file q ino D pd _ phnum i _ _ Hld2); by apply phdr_range_file|].
  intros [] s3 [Hk3 H3]; cbn [negb].
  2: { wp_step. split; [|done]. eapply load_kept_trans; [by eapply (Hsame _ _ Hld2)|done]. }
  destruct (H3 eq_refl) as (Hacc & Hheap & Hload). destruct (lk_loading _ _ _ _ _ _ _ Hk3) as [pos3 Hld3].
  rewrite int32_small by lia. eapply wp_mono; [apply (IH pos3 (i + 1) (ofs + 32) s3 Hld3); lia|].
  intros ok s4 [Hk4 H4]. split.
  { eapply load_kept_trans; [by eapply (Hsame _ _ Hld2)|]. by eapply load_kept_trans. }
  intros ->. destruct (H4 eq_refl) as [(Ha & Hb & Hc) Hh]. split.
  - split; [right; lia|]. split; [right; lia|]. cbn [phdrs]. apply Forall_cons. split; [|done].
    assert (Hr : phdr_range (decode_phdr (slice ofs 32 D))) by (by apply phdr_range_file). split; [done|]. split; [done|].
    intros H. by eapply phdr_loaded_kept; [|exact Hk4|apply Hload].
  - rewrite Hh, Hheap. f_equal. f_equal. destruct n; cbn [phdrs].
    + rewrite bool_decide_true by done. apply Z.eqb_eq. lia.
    + rewrite bool_decide_false by done. apply Z.eqb_neq. lia.
Qed.

Lemma wp_setup_stack file q ino D pd pos s : loading file q ino D pd pos s →
  wp setup_stack (λ r s', load_kept file q ino D pd s s' ∧ heap s' = heap s ∧
    (∀ esp, r = Some esp → esp = PHYS_BASE - 20 ∧ page_loaded (kern s') pd (PHYS_BASE - 4096) (replicate 4096 0) true)) s.
Proof.
  intros Hld. pose proof Hld as [Hpd Hok Hr Hpos]. unfold setup_stack. wp_step. apply wp_on_kern. apply (wp_user_page true); [apply Hok| |].
  { intros _. cbn [Z.eqb]. wp_step. split; [|done]. split; [by exists pos|apply user_kept_refl|done]. }
  intros i page k1 Hf1 Hl1 Hz Hnn. rewrite (proj2 (Z.eqb_neq _ _) Hnn). wp_step. apply wp_on_kern. cbn [set_kern kern]. change PGSIZE with 4096.
  eapply wp_mono; [apply (wp_install_filled (kern s) i page k1 pd); [done|done|done|unfold user_addr; rewrite PHYS_BASE_eq; lia|done]|].
  intros [] k2 H; cbv beta iota in H.
  - destruct H as (Hok2 & [Hk2 Hsb] & Hp & Hnone & Hpte). wp_step. split; [|split].
    + split; [|done|].
      * exists pos. apply (loading_kern _ _ _ _ _ _ s); [done|by rewrite (uk_pagedir _ _ Hk2)|done].
      * intros va Hva Hm. apply Hpte; [done|]. intros E. by rewrite (translate_page _ _ va _ E) in Hm.
    + unfold heap. cbn. by rewrite Hsb.
    + intros esp [= <-]. split; [done|]. rewrite (Hz eq_refl) in Hp. exact Hp.
  - destruct H as [-> _]. wp_step. apply wp_on_kern. eapply wp_mono; [apply (wp_free_filled (kern s) i page k1 pd); done|].
    intros [] k3 (Hok3 & Hk3 & [_ Hsb3] & Hpte). wp_step. split; [|split; [|done]].
    + split; [|done|by intros; apply Hpte]. exists pos. split; [cbn; by rewrite (uk_pagedir _ _ Hk3)|done|done|done].
    + unfold heap. cbn. by rewrite Hsb3.
Qed.

(** ** The program in memory *)

(** The byte that the process sees at [va]. *)
Definition user_byte (s : kernel) (pd va : Z) : option Z :=
  page ← translate s pd va; ws ← mem s !! pg_no page; words_to_bytes ws !! Z.to_nat (pg_ofs va).

Lemma page_loaded_byte s pd page va data w : page_loaded s pd page data w → pg_no va = pg_no page →
  user_byte s pd va = data !! Z.to_nat (pg_ofs va).
Proof.
  intros (i & ws & _ & _ & Ht & _ & Hm & <-) E. unfold user_byte. rewrite (translate_page s pd va page E), Ht. cbn [mbind option_bind]. by rewrite Hm.
Qed.

(** A byte of the memory of a segment. *)
Lemma phdr_loaded_byte s pd D ph j : phdr_range ph → phdr_loaded s pd D ph → 0 ≤ j < p_memsz ph →
  user_byte s pd (p_vaddr ph + j) = if j <? p_filesz ph then D !! Z.to_nat (p_offset ph + j) else Some 0.
Proof.
  intros Hr [Hv Hf Hi] Hj. destruct (segment_bytes_eq ph (len D) Hr Hv) as (_ & H1 & H2 & H3 & H4 & H5 & H6).
  pose proof (seg_image_len D ph Hr Hv Hf) as Hlen. pose proof (pr_vaddr _ Hr) as HV. pose proof (pr_offset _ Hr) as HO. pose proof (vs_congruent _ _ Hv) as Hc.
  set (x := p_vaddr ph mod 4096 + j). assert (Hx : 0 ≤ x) by (unfold x; div_lia).
  assert (Hxe : x < seg_end ph - seg_start ph) by (unfold x, seg_start, seg_end in *; div_lia).
  set (k := x / 4096). assert (Hk : 0 ≤ k) by (unfold k; div_lia).
  assert (Hk2 : 4096 * (k + 1) ≤ seg_end ph - seg_start ph) by (unfold k; clear -H2 Hx Hxe; div_lia).
  assert (Eva : p_vaddr ph + j = seg_start ph + x) by (unfold x, seg_start; lia).
  assert (Epg : pg_no (p_vaddr ph + j) = pg_no (seg_start ph + 4096 * k)) by (rewrite Eva, !pg_no_div; unfold k, aligned in *; clear -H5 Hx; div_lia).
  assert (Eof : pg_ofs (p_vaddr ph + j) = x - 4096 * k) by (rewrite Eva, pg_ofs_mod; unfold k, aligned in *; clear -H5 Hx; div_lia).
  rewrite (page_loaded_byte s pd (seg_start ph + 4096 * k) _ _ (writable ph) (Hi k Hk ltac:(lia)) Epg), Eof.
  assert (Hb : 0 ≤ x - 4096 * k < 4096) by (unfold k; clear; div_lia). rewrite lookup_slice by lia.
  replace (Z.to_nat (4096 * k) + Z.to_nat (x - 4096 * k))%nat with (Z.to_nat x) by lia. unfold seg_image.
  set (o := p_offset ph - p_offset ph mod 4096) in *. assert (Ho : 0 ≤ o) by (unfold o; div_lia).
  pose proof (length_slice o (seg_read ph) D Ho ltac:(lia) Hf) as Hsl. unfold seg_read in *.
  destruct (Z.ltb_spec j (p_filesz ph)).
  - rewrite (proj2 (Z.ltb_lt 0 (p_filesz ph))) in * by lia. rewrite lookup_app_l by lia. rewrite lookup_slice by lia. f_equal. unfold o, x. lia.
  - rewrite lookup_app_r by (destruct (0 <? p_filesz ph); lia). apply lookup_replicate_2. destruct (0 <? p_filesz ph); lia.
Qed.

Lemma phdr_loaded_writable s pd D ph j : phdr_range ph → phdr_loaded s pd D ph → 0 ≤ j < p_memsz ph →
  Z.testbit (pte_of s pd (p_vaddr ph + j)) 1 = writable ph.
Proof.
  intros Hr [Hv Hf Hi] Hj. destruct (segment_bytes_eq ph (len D) Hr Hv) as (_ & H1 & H2 & H3 & H4 & H5 & H6).
  pose proof (seg_image_len D ph Hr Hv Hf) as Hlen. pose proof (pr_vaddr _ Hr) as HV.
  set (k := (p_vaddr ph + j - seg_start ph) / 4096).
  assert (Hx : 0 ≤ p_vaddr ph + j - seg_start ph < seg_end ph - seg_start ph) by (unfold seg_start, seg_end in *; div_lia).
  assert (Hk2 : 0 ≤ k ∧ 4096 * (k + 1) ≤ seg_end ph - seg_start ph) by (unfold k; clear -H2 Hx; div_lia).
  assert (Epg : pg_no (p_vaddr ph + j) = pg_no (seg_start ph + 4096 * k)) by (rewrite !pg_no_div; unfold k, aligned in *; clear -H5 Hx; div_lia).
  destruct (Hi k ltac:(lia) ltac:(lia)) as (i & ws & _ & _ & _ & Hw & _). apply same_page in Epg as [E1 E2]. unfold pte_of in *. by rewrite E1, E2.
Qed.

(** [load_segment] either maps the whole segment (the [read_bytes] bytes of
    the file from [ofs] on, then zeros, a whole number of pages, writable as
    asked) or returns false, and then only because a pool of pages is
    exhausted, an allocation of the file system failed, the file is too short
    or one of the pages was mapped before.  In both cases it returns, the page
    directory stays well formed, the pages in use keep their contents, and
    pages mapped before and pages outside the segment keep their mapping. *)
Theorem load_segment_correct file q ino D pd pos ofs upage rb zb w s :
  loading file q ino D pd pos s → aligned ofs → 0 ≤ ofs ≤ len D → aligned upage → 0 ≤ upage → 0 ≤ rb → 0 ≤ zb → (rb + zb) mod 4096 = 0 →
  upage + (rb + zb) ≤ PHYS_BASE →
  ∃ ok s', load_segment file ofs upage rb zb w s = Ok (ok, s') ∧ segment_done file q ino D pd upage (rb + zb) s s' ∧
    if ok then ofs + rb ≤ len D ∧ seg_loaded (kern s') pd upage (slice ofs rb D ++ replicate (Z.to_nat zb) 0) w
    else load_failed s s' pd upage (rb + zb) (len D < ofs + rb).
Proof. intros. apply wp_Ok. by eapply wp_load_segment. Qed.

Lemma wp_load_image file q ino D pd s : loading file q ino D pd 0 s →
  wp (load_image file) (λ r s', load_kept file q ino D pd s s' ∧ ∀ eip esp, r = Some (eip, esp) →
    let h := decode_ehdr (slice 0 52 D) in let n := Z.to_nat (e_phnum h) in let ofs := int32 (e_phoff h) in
    header_ok h = true ∧ eip = e_entry h ∧ esp = PHYS_BASE - 20 ∧ headers_loaded (kern s') pd D n ofs ∧
    page_loaded (kern s') pd (PHYS_BASE - 4096) (replicate 4096 0) true ∧ heap s' = heap_end (phdrs n D ofs) (heap s)) s.
Proof.
  intros Hld. pose proof Hld as [Hpd Hok Hr Hpos]. destruct (reading_len _ _ _ _ _ _ Hr) as (_ & Hl & Hby). unfold load_image. change sizeof_Ehdr with 52.
  wp_step. apply wp_on_fsys. eapply wp_file_read; [exact Hr|lia|rewrite length_replicate; lia|lia|]. intros r f Hn Hle _ Hoom Hr2.
  assert (Hld2 : loading file q ino D pd (0 + r) (set_fsys f s)) by (split; [done|done|done|lia]).
  assert (Hk2 : load_kept file q ino D pd s (set_fsys f s)) by (split; [by eexists|apply user_kept_refl|done]).
  destruct (Z.eqb_spec r 52) as [->|]; cbn [negb orb]; [|by wp_step].
  rewrite put_full by (rewrite length_replicate; pose proof (length_slice 0 52 D); lia).
  set (h := decode_ehdr (slice 0 52 D)) in *. destruct (header_ok h) eqn:Hh; cbn [negb]; [|by wp_step].
  assert (Hph : 0 ≤ e_phnum h).
  { unfold h, decode_ehdr, of_le16. cbn [e_phnum]. assert (Hs : bytes (slice 44 2 (slice 0 52 D))) by (by apply Forall_slice, Forall_slice).
    assert (H : ∀ i : nat, 0 ≤ default 0 (slice 44 2 (slice 0 52 D) !! i)).
    { intros i. destruct (slice 44 2 (slice 0 52 D) !! i) as [x|] eqn:E; [|done]. cbn. eapply Forall_lookup_1 in Hs; [|exact E]. unfold is_byte in Hs. lia. }
    pose proof (H 0%nat). pose proof (H 1%nat). lia. }
  wp_step. eapply wp_mono; [apply (wp_load_headers _ file q ino D pd _ (e_phnum h) 0 _ _ Hld2); lia|].
  intros [] s3 [Hk3 H3]; cbn [negb]; [|wp_step; split; [by eapply load_kept_trans|done]]. destruct (H3 eq_refl) as [Hhl Hheap].
  pose proof (load_kept_trans _ _ _ _ _ _ _ _ Hk2 Hk3) as Hk3'. destruct (lk_loading _ _ _ _ _ _ _ Hk3) as [pos3 Hld3].
  wp_step. eapply wp_mono; [by eapply wp_setup_stack|]. intros esp s4 (Hk4 & Hh4 & Hst). pose proof (load_kept_trans _ _ _ _ _ _ _ _ Hk3' Hk4) as Hk4'.
  destruct esp as [esp|]; wp_step; (split; [done|]); [|done]. intros eip esp' [= <- <-]. destruct (Hst esp eq_refl) as [He Hs].
  cbv zeta. split; [done|]. split; [done|]. split; [done|]. split; [exact (headers_loaded_kept _ _ _ _ _ _ _ _ _ Hk4 Hhl)|]. split; [done|].
  rewrite Hh4, Hheap. apply heap_list_end.
Qed.

(** C21: A successful [load] of an open executable puts the program in memory as
    its headers say: the magic number, type and machine are right, no header
    asks for dynamic linking, and for every loadable segment the process sees,
    at each address of the segment, the byte of the file, or zero past the part
    that the file holds, in pages that are writable exactly if the segment is.
    The stack page is all zero, the entry point is the one in the header and
    the heap starts ([segbreak]) after the last loadable segment; [start_heap]
    is set only if the last header is a loadable segment.  Whether it succeeds
    or not, it returns, the page directory stays well formed and what was
    mapped before keeps its mapping and contents. *)
Theorem load_image_correct file q ino D pd s : loading file q ino D pd 0 s →
  ∃ r s', load_image file s = Ok (r, s') ∧ load_kept file q ino D pd s s' ∧ ∀ eip esp, r = Some (eip, esp) →
    let h := decode_ehdr (slice 0 52 D) in let hs := phdrs (Z.to_nat (e_phnum h)) D (int32 (e_phoff h)) in
    header_ok h = true ∧ eip = e_entry h ∧ esp = PHYS_BASE - 20 ∧
    (∀ ph, ph ∈ hs → accepted ph ∧ (loadable ph = true → valid_segment ph (len D) ∧ ∀ j, 0 ≤ j < p_memsz ph →
       user_byte (kern s') pd (p_vaddr ph + j) = (if j <? p_filesz ph then D !! Z.to_nat (p_offset ph + j) else Some 0) ∧
       Z.testbit (pte_of (kern s') pd (p_vaddr ph + j)) 1 = writable ph)) ∧
    (∀ va, PHYS_BASE - 4096 ≤ va < PHYS_BASE → user_byte (kern s') pd va = Some 0) ∧
    heap s' = heap_end hs (heap s).
Proof.
  intros Hld. destruct (proj1 (wp_Ok _ _ _) (wp_load_image file q ino D pd s Hld)) as (r & s' & E & Hk & H). exists r, s'. split; [done|]. split; [done|].
  intros eip esp Er h hs. destruct (H eip esp Er) as (Hh & He & Hs & (_ & _ & Hl) & Hst & Hheap). split; [done|]. split; [done|]. split; [done|]. split; [|split; [|done]].
  - intros ph Hin. rewrite Forall_forall in Hl. destruct (Hl ph Hin) as (Hr & Ha & Hload). split; [done|]. intros Hlo. specialize (Hload Hlo).
    split; [apply Hload|]. intros j Hj. split; [by apply phdr_loaded_byte|]. by apply (phdr_loaded_writable (kern s') pd D ph j).
  - intros va Hva. rewrite PHYS_BASE_eq in Hva. rewrite (page_loaded_byte _ _ _ va _ _ Hst); [|rewrite PHYS_BASE_eq, !pg_no_div; div_lia].
    apply lookup_replicate_2. rewrite pg_ofs_mod. div_lia.
Qed.

(** ** Example: a program of one segment *)

(** An executable of 100 bytes whose only segment is the file itself, 200 bytes
    long in memory. *)
Definition example_elf : list Z :=
  [127; 69; 76; 70; 1; 1; 1] ++ replicate 9 0 ++ [2; 0; 3; 0] ++ le32 1 ++ le32 0x8048054 ++ le32 52 ++ le32 0 ++ le32 0 ++
  [52; 0; 32; 0; 1; 0; 0; 0; 0; 0; 0; 0] ++
  le32 PT_LOAD ++ le32 0 ++ le32 0x8048000 ++ le32 0x8048000 ++ le32 100 ++ le32 200 ++ le32 5 ++ le32 4096 ++
  replicate 16 0x90.

Definition example_elf_inode : inode := mk_inode 3 1 false 0 (mk_inode_disk 4 100 INODE_MAGIC (replicate 125 0)).
Definition example_elf_fs : fs :=
  mk_fs (mk_block BLOCK_FILESYS 8 (replicate 2048 0 ++ example_elf ++ replicate 1948 0) 0 0) {[ 12 := example_elf_inode ]} [12]
    {[ 11 := mk_file 12 0 false ]} ∅ (mk_bitmap 8 [63]) 0 (λ _, false) 0 20.
Definition example_proc : proc := mk_proc example_kernel example_elf_fs 0 0xc0110000 0.

Lemma example_elf_bytes : bytes (contents (fs_device example_elf_fs)).
Proof.
  apply (bytes_app (replicate 2048 0)); [apply Forall_replicate; unfold is_byte; lia|].
  apply bytes_app; [|apply Forall_replicate; unfold is_byte; lia]. unfold bytes, is_byte. vm_compute.
  repeat (apply Forall_cons_2; [split; (discriminate || reflexivity)|]). apply Forall_nil_2.
Qed.

Lemma example_loading : loading 11 12 example_elf_inode example_elf 0xc0102000 0 example_proc.
Proof.
  split; [reflexivity|exact example_pagedir_ok| |split; [lia|vm_compute; discriminate]].
  split; [done|by exists false|done| | |done|reflexivity].
  - split; [cbn; lia|reflexivity|exact example_elf_bytes|done].
  - split; cbn; lia.
Qed.

Lemma load_image_correct_witness : ∃ s', load_image 11 example_proc = Ok (Some (0x8048054, PHYS_BASE - 20), s') ∧
  user_byte (kern s') 0xc0102000 0x8048001 = Some 69 ∧ user_byte (kern s') 0xc0102000 0x80480c7 = Some 0 ∧
  heap s' = (0x8049000, 0x8049000).
Proof.
  destruct (load_image_correct 11 12 example_elf_inode example_elf 0xc0102000 example_proc example_loading) as (r & s' & E & _ & H).
  assert (Er : match load_image 11 example_proc with Ok (r, _) => Some r | Err _ => None end = Some (Some (0x8048054, PHYS_BASE - 20)))
    by (vm_compute; reflexivity).
  rewrite E in Er. injection Er as ->. exists s'. split; [exact E|].
  destruct (H _ _ eq_refl) as (_ & _ & _ & Hseg & _ & Hheap).
  destruct (Hseg (decode_phdr (slice 52 32 example_elf))) as [_ Hl]; [apply list_elem_of_here|].
  destruct (Hl eq_refl) as [_ Hb]. split; [exact (proj1 (Hb 1 ltac:(vm_compute; by split)))|].
  split; [exact (proj1 (Hb 199 ltac:(vm_compute; by split)))|]. rewrite Hheap. vm_compute. reflexivity.
Defined.

Lemma load_segment_correct_witness : ∃ s', load_segment 11 0 0x8048000 100 3996 true example_proc = Ok (true, s') ∧
  seg_loaded (kern s') 0xc0102000 0x8048000 (slice 0 100 example_elf ++ replicate 3996 0) true.
Proof.
  destruct (load_segment_correct 11 12 example_elf_inode example_elf 0xc0102000 0 0 0x8048000 100 3996 true example_proc example_loading)
    as (ok & s' & E & _ & H); [reflexivity|split; [lia|vm_compute; discriminate]|reflexivity|lia|lia|lia|reflexivity|rewrite PHYS_BASE_eq; lia|].
  assert (Er : match load_segment 11 0 0x8048000 100 3996 true example_proc with Ok (r, _) => Some r | Err _ => None end = Some true)
    by (vm_compute; reflexivity).
  rewrite E in Er. injection Er as ->. exists s'. split; [exact E|]. exact (proj2 H).
Defined.
