(* ===== verification/ProcessExit.v ===== *)
(** * The end of a process ([userprog/process.c], [userprog/pagedir.c])

    [process_exit] leaves the page directory of the process and destroys it:
    the pages that it maps, its page tables and the directory itself go back to
    their pools.  The theorems show that exactly these pages are freed, each
    once, and that the processor never runs on a freed page directory.  A
    process owns its pages: [owns] is established by [pagedir_create] and kept
    by the mapping and unmapping of pages. *)
From S2P Require Import Prelude Bitmap Vaddr Palloc Pagedir Sbrk Thread Synch FsState Process.

(** ** Freeing a set of pages *)

(** Page [p] of a pool is in use. *)
Definition in_use (u : bool) (s : kernel) (p : Z) : Prop :=
  ∃ i, 0 ≤ i < bit_cnt (used_map (get_pool u s)) ∧ p = pool_page (get_pool u s) i ∧ bit (used_map (get_pool u s)) i = true.

(** Exactly the pages of [P] have been freed. *)
Record freed (P : Z → Prop) (s s' : kernel) : Prop := {
  fr_ok : kernel_ok s';
  fr_consts : init_ram_pages s' = init_ram_pages s ∧ init_page_dir s' = init_page_dir s ∧ cr3 s' = cr3 s ∧
    pagedir s' = pagedir s ∧ segbreak s' = segbreak s;
  fr_pool u : base (get_pool u s') = base (get_pool u s) ∧ bit_cnt (used_map (get_pool u s')) = bit_cnt (used_map (get_pool u s));
  fr_bit u i : 0 ≤ i < bit_cnt (used_map (get_pool u s)) →
    bit (used_map (get_pool u s')) i = true ↔ bit (used_map (get_pool u s)) i = true ∧ ¬ P (pool_page (get_pool u s) i);
  fr_mem p : aligned p → ¬ P p → mem s' !! pg_no p = mem s !! pg_no p
}.

Lemma freed_ext (P P' : Z → Prop) s s' : (∀ q, P q ↔ P' q) → freed P s s' → freed P' s s'.
Proof.
  intros HP [? ? ? Hb Hm]. split; [done..| |].
  - intros u i Hi. rewrite Hb, HP by done. done.
  - intros p Ha Hn. apply Hm; [done|]. by rewrite HP.
Qed.

#[export] Instance freed_proper : Proper (pointwise_relation Z iff ==> eq ==> eq ==> iff) freed.
Proof. intros P P' HP s ? <- s' ? <-. split; apply freed_ext; intros q; [|symmetry]; apply HP. Qed.

Lemma freed_none s : kernel_ok s → freed (λ _, False) s s.
Proof. intros Hs. split; [done|done|done| |done]. intros u i Hi. naive_solver. Qed.

Lemma pool_page_inj p i j : pool_page p i = pool_page p j → i = j.
Proof. unfold pool_page. change PGSIZE with 4096. lia. Qed.

Lemma pools_disjoint s i j : kernel_ok s → 0 ≤ i < bit_cnt (used_map (kernel_pool s)) → 0 ≤ j < bit_cnt (used_map (user_pool s)) →
  pool_page (kernel_pool s) i ≠ pool_page (user_pool s) j.
Proof. intros Hs Hi Hj. pose proof (kok_disjoint _ Hs). unfold pool_page. change PGSIZE with 4096 in *. lia. Qed.

(** A page belongs to one pool, at one index. *)
Lemma pool_page_unique s u v i j : kernel_ok s → 0 ≤ i < bit_cnt (used_map (get_pool u s)) → 0 ≤ j < bit_cnt (used_map (get_pool v s)) →
  pool_page (get_pool u s) i = pool_page (get_pool v s) j → u = v ∧ i = j.
Proof.
  intros Hs Hi Hj E. destruct u, v; cbn [get_pool] in *; [by apply pool_page_inj in E| | |by apply pool_page_inj in E].
  - by destruct (pools_disjoint s j i Hs Hj Hi).
  - by destruct (pools_disjoint s i j Hs Hi Hj).
Qed.

Lemma freed_pool_page P s s' u i : freed P s s' → pool_page (get_pool u s') i = pool_page (get_pool u s) i.
Proof. intros H. unfold pool_page. by rewrite (proj1 (fr_pool _ _ _ H u)). Qed.

(** One more page is freed. *)
Lemma wp_free_one P s s' u p : kernel_ok s → freed P s s' → in_use u s p → ¬ P p →
  wp (palloc_free_page p) (λ _ s'', freed (λ q, P q ∨ q = p) s s'') s'.
Proof.
  intros Hs H (i & Hi & -> & Hb) HP. pose proof (fr_ok _ _ _ H) as Hs'. destruct (fr_pool _ _ _ H u) as [Eb Ec].
  pose proof (freed_pool_page P s s' u i H) as Ep. unfold palloc_free_page. rewrite <-Ep.
  eapply wp_mono; [apply (wp_palloc_free_multiple u i 1 s'); [done|lia|lia|lia|]|].
  { intros j Hj. assert (j = i) as -> by lia. by apply (fr_bit _ _ _ H). }
  intros [] s'' Hr. cbv beta. pose proof (released_ok _ _ _ _ _ Hs' Hr) as Hs''. destruct Hr as (b & Hwf & [Hsz _] & Hbit & ->).
  split.
  - done.
  - apply (fr_consts _ _ _ H).
  - intros v. cbn [get_pool set_mem kernel_pool user_pool]. change (get_pool v (set_mem _ ?x)) with (get_pool v x). rewrite get_set_pool. destruct (Bool.eqb v u) eqn:E; [apply eqb_prop in E as ->|apply (fr_pool _ _ _ H)]. cbn. rewrite Hsz. done.
  - intros v j Hj. change (get_pool v (set_mem _ ?x)) with (get_pool v x). rewrite get_set_pool, Ep. destruct (Bool.eqb v u) eqn:E.
    + apply eqb_prop in E as ->. cbn [used_map]. rewrite Hbit by lia. destruct (decide (i ≤ j < i + 1)) as [Hj'|Hj'].
      * assert (j = i) as -> by lia. naive_solver.
      * rewrite (fr_bit _ _ _ H) by done. split; [|naive_solver]. intros [? HnP]. split; [done|]. intros [?|Ej%pool_page_inj]; [done|lia].
    + rewrite (fr_bit _ _ _ H) by done. split; [|naive_solver]. intros [? HnP]. split; [done|]. intros [?|Ej]; [done|].
      apply (pool_page_unique s v u) in Ej as [-> _]; [|done..]. by rewrite eqb_reflx in E.
  - intros q Ha Hq. cbn [mem set_mem set_pool]. rewrite lookup_fill_pages, decide_False; [apply (fr_mem _ _ _ H); [done|tauto]|].
    intros Hin. apply Hq. right. rewrite Ep in *. apply page_eq; [done|apply (pool_page_no _ _ i (kok_pool _ Hs u))|lia].
Qed.

Lemma freed_word P s s' p k : freed P s s' → aligned p → ¬ P p → 0 ≤ k < 1024 → word s' (p + 4 * k) = word s (p + 4 * k).
Proof. intros H Ha HP Hk. destruct (word_addr p k Ha Hk) as [En _]. unfold word. by rewrite En, (fr_mem _ _ _ H p Ha HP). Qed.

Lemma in_use_ram u s p : kernel_ok s → in_use u s p → ram_page s p.
Proof. intros Hs (i & Hi & -> & _). pose proof (kok_ram _ Hs). apply (pool_page_kernel _ _ i (kok_pool _ Hs u)); [lia|done]. Qed.

Lemma in_use_disjoint s p q : kernel_ok s → in_use false s p → in_use true s q → p ≠ q.
Proof. intros Hs (i & Hi & -> & _) (j & Hj & -> & _). by apply pools_disjoint. Qed.

Lemma freed_ram P s s' p : freed P s s' → ram_page s p → ram_page s' p.
Proof. intros H [Hk Hp]. split; [done|]. by rewrite (proj1 (fr_consts _ _ _ H)). Qed.

(** ** What a process owns *)

(** The directory and the page tables are pages of the kernel pool; every user
    page is mapped to a page of the user pool that is in use, and no two to the
    same. *)
Record owns (s : kernel) (pd : Z) : Prop := {
  own_ok : pagedir_ok s pd;
  own_frame va p : user_addr va → translate s pd va = Some p → in_use true s p;
  own_inj va va' p : user_addr va → user_addr va' → translate s pd va = Some p → translate s pd va' = Some p → pg_no va = pg_no va'
}.

(** The pages of a process. *)
Definition mapped_to (s : kernel) (pd : Z) (p : Z) : Prop := ∃ va, user_addr va ∧ translate s pd va = Some p.
Definition table_of (s : kernel) (pd : Z) (p : Z) : Prop := ∃ i, 0 ≤ i < 768 ∧ pde_at s pd i ≠ 0 ∧ p = pt_at s pd i.
Definition belongs (s : kernel) (pd : Z) (p : Z) : Prop := mapped_to s pd p ∨ table_of s pd p ∨ p = pd.

(** ** Freeing a page table *)

Section free_table.
Context (s : kernel) (pd i : Z) (Hown : owns s pd) (Hi : 0 ≤ i < 768) (Hne : pde_at s pd i ≠ 0).

Let pt := pt_at s pd i.
Let va_of k := 4194304 * i + 4096 * k.

Lemma va_of_fields k : 0 ≤ k < 1024 → user_addr (va_of k) ∧ pd_no (va_of k) = i ∧ pt_no (va_of k) = k.
Proof. intros Hk. unfold user_addr, va_of. rewrite PHYS_BASE_eq, pd_no_div, pt_no_div. split; [lia|]. split; div_lia. Qed.

Lemma table_entry va : user_addr va → pd_no va = i → translate s pd va = frame_of (word s (pt + 4 * pt_no va)) ∧ 0 ≤ word s (pt + 4 * pt_no va) < 2 ^ 30.
Proof.
  intros Hva E. pose proof (pdo_pte _ _ (own_ok _ _ Hown) va Hva) as Hr. rewrite translate_frame. unfold pte_of in *. rewrite E in *.
  rewrite (proj2 (Z.eqb_neq _ 0) Hne) in *. done.
Qed.

Lemma pt_in_use : in_use false s pt.
Proof. by apply (pdo_pde _ _ (own_ok _ _ Hown) i Hi Hne). Qed.

(** The pages of the entries below [k]. *)
Definition below (P : Z → Prop) (k q : Z) : Prop := P q ∨ ∃ va, user_addr va ∧ pd_no va = i ∧ pt_no va < k ∧ translate s pd va = Some q.

Lemma below_step P k q : 0 ≤ k < 1024 →
  below P (k + 1) q ↔ below P k q ∨ frame_of (word s (pt + 4 * k)) = Some q.
Proof.
  intros Hk. unfold below. destruct (va_of_fields k Hk) as (Hu & Ei & Ek). destruct (table_entry _ Hu Ei) as [Et _]. rewrite Ek in Et. split.
  - intros [?|(va & Hva & E & Hlt & Ht)]; [tauto|]. destruct (decide (pt_no va = k)) as [E'|]; [|left; right; exists va; split_and!; [done|done|lia|done]].
    right. rewrite <-E'. destruct (table_entry va Hva E) as [<- _]. done.
  - intros [[?|(va & Hva & E & Hlt & Ht)]|Ht]; [tauto| |]; right; [exists va|exists (va_of k)]; split_and!; try done; [lia|lia|congruence].
Qed.

Lemma wp_free_table P s' : freed P s s' → ¬ P pt → (∀ va q, user_addr va → pd_no va = i → translate s pd va = Some q → ¬ P q) →
  wp (free_table pt) (λ _ s'', freed (below P 1024) s s'') s'.
Proof.
  intros Hfr Hpt HP. pose proof (pdo_kernel _ _ (own_ok _ _ Hown)) as Hs. pose proof (in_use_ram _ _ _ Hs pt_in_use) as Hram. unfold free_table.
  apply (wp_for_loop (λ k s1, freed (below P k) s s1)).
  { apply (freed_ext P); [|done]. intros q. unfold below. split; [tauto|]. intros [?|(va & _ & _ & Hlt & _)]; [done|]. pose proof (pt_no_range va). lia. }
  intros k s1 Hk Hf1. change (Z.to_nat (PGSIZE / 4)) with 1024%nat in Hk. assert (Hk' : 0 ≤ k < 1024) by lia. clear Hk.
  assert (HnPt : ¬ below P k pt).
  { intros [?|(va & Hva & _ & _ & Ht)]; [done|]. by apply (in_use_disjoint s pt pt Hs pt_in_use (own_frame _ _ Hown va pt Hva Ht)). }
  destruct (va_of_fields k Hk') as (Hu & Ei & Ek). destruct (table_entry _ Hu Ei) as [Et Hr]. rewrite Ek in Et, Hr.
  wp_step. apply wp_load_word; [apply Hf1|by apply (freed_ram _ _ _ _ Hf1)|done|]. rewrite (freed_word _ _ _ _ _ Hf1) by (done || apply Hram).
  set (w := word s (pt + 4 * k)) in *. change PTE_P with (2 ^ 0). rewrite land_pow2_zero, negb_involutive by lia. pose proof (below_step P k) as Hst. fold w in Hst.
  unfold frame_of in Et, Hst. destruct (Z.testbit w 0).
  - wp_step. wp_step. unfold pte_get_page. apply wp_ptov; [unfold PTE_ADDR; rewrite land_high by lia; div_lia|].
    eapply wp_mono; [apply (wp_free_one (below P k) s s1 true); [done|done|by apply (own_frame _ _ Hown (va_of k))|]|].
    + intros [?|(va & Hva & E & Hlt & Ht)]; [by eapply (HP (va_of k))|]. pose proof (own_inj _ _ Hown _ _ _ Hva Hu Ht Et) as [_ ?]%same_page. lia.
    + intros [] s2. cbv beta. apply freed_ext. intros q. rewrite Hst by done. naive_solver.
  - wp_step. wp_step. revert Hf1. apply freed_ext. intros q. rewrite Hst by done. naive_solver.
Qed.
End free_table.

(** ** Destroying a page directory *)

Section destroy.
Context (s : kernel) (pd : Z) (Hown : owns s pd).

(** What has been freed after the first [i] entries of the directory. *)
Definition up_to (i q : Z) : Prop :=
  (∃ va, user_addr va ∧ pd_no va < i ∧ translate s pd va = Some q) ∨ ∃ k, 0 ≤ k < i ∧ pde_at s pd k ≠ 0 ∧ q = pt_at s pd k.

Lemma up_to_pd i : i ≤ 768 → ¬ up_to i pd.
Proof.
  pose proof (own_ok _ _ Hown) as Hok. intros Hi [(va & Hva & _ & Ht)|(k & Hk & Hne & E)].
  - by apply (in_use_disjoint s pd pd (pdo_kernel _ _ Hok) (pdo_pd _ _ Hok) (own_frame _ _ Hown va pd Hva Ht)).
  - by apply (pdo_pde _ _ Hok k ltac:(lia) Hne).
Qed.

Lemma up_to_table i : 0 ≤ i < 768 → pde_at s pd i ≠ 0 → ¬ up_to i (pt_at s pd i).
Proof.
  pose proof (own_ok _ _ Hown) as Hok. intros Hi Hne [(va & Hva & _ & Ht)|(k & Hk & Hnk & E)].
  - by apply (in_use_disjoint s (pt_at s pd i) (pt_at s pd i) (pdo_kernel _ _ Hok) (pt_in_use s pd i Hown Hi Hne) (own_frame _ _ Hown va _ Hva Ht)).
  - assert (i = k); [|lia]. apply (pdo_inj _ _ Hok); [lia..|done|done|done].
Qed.

Lemma up_to_frame i va q : 0 ≤ i < 768 → user_addr va → pd_no va = i → translate s pd va = Some q → ¬ up_to i q.
Proof.
  pose proof (own_ok _ _ Hown) as Hok. intros Hi Hva E Ht [(va' & Hva' & Hlt & Ht')|(k & Hk & Hnk & ->)].
  - pose proof (own_inj _ _ Hown _ _ _ Hva Hva' Ht Ht') as [? _]%same_page. lia.
  - by apply (in_use_disjoint s _ _ (pdo_kernel _ _ Hok) (pt_in_use s pd k Hown ltac:(lia) Hnk) (own_frame _ _ Hown va _ Hva Ht)).
Qed.

Lemma up_to_step i q : 0 ≤ i < 768 → up_to (i + 1) q ↔ if decide (pde_at s pd i = 0) then up_to i q else below s pd i (up_to i) 1024 q ∨ q = pt_at s pd i.
Proof.
  intros Hi. unfold below, up_to. case_decide as Hz.
  - split; intros [(va & Hva & Hlt & Ht)|(k & Hk & Hne & ->)].
    + left. exists va. split; [done|]. split; [|done]. destruct (decide (pd_no va = i)) as [E|]; [|lia]. unfold translate, pte_of in Ht. by rewrite E, Hz in Ht.
    + right. exists k. split; [|done]. destruct (decide (k = i)) as [->|]; [done|lia].
    + left. exists va. split_and!; [done|lia|done].
    + right. exists k. split_and!; [lia|lia|done|done].
  - split.
    + intros [(va & Hva & Hlt & Ht)|(k & Hk & Hne & ->)].
      * left. destruct (decide (pd_no va = i)); [right; exists va; pose proof (pt_no_range va); by split_and!; [..|lia|]|]. left. left. exists va. split_and!; [done|lia|done].
      * destruct (decide (k = i)) as [->|]; [by right|]. left. left. right. exists k. split_and!; [lia|lia|done|done].
    + intros [[[(va & Hva & Hlt & Ht)|(k & Hk & Hne & ->)]|(va & Hva & E & _ & Ht)]| ->].
      * left. exists va. split_and!; [done|lia|done].
      * right. exists k. split_and!; [lia|lia|done|done].
      * left. exists va. split_and!; [done|lia|done].
      * right. exists i. split_and!; [lia|lia|done|done].
Qed.

Lemma up_to_all q : (up_to 768 q ∨ q = pd) ↔ belongs s pd q.
Proof.
  unfold belongs, mapped_to, table_of, up_to. split.
  - intros [[(va & Hva & _ & Ht)|?]|?]; [left; eauto|tauto|tauto].
  - intros [(va & Hva & Ht)|[?|?]]; [|tauto|tauto]. left. left. exists va. split_and!; [done|by apply user_addr_pd|done].
Qed.

(** One entry of the directory. *)
Lemma wp_destroy_entry i s' : 0 ≤ i < 768 → freed (up_to i) s s' →
  wp (pde ← Palloc.load (wrap32 (pd + 4 * i));
      when (negb (Z.land pde PTE_P =? 0)) (pt ← pde_get_pt pde; free_table pt ;; palloc_free_page pt))
    (λ _ s'', freed (up_to (i + 1)) s s'') s'.
Proof.
  intros Hi Hf. pose proof (own_ok _ _ Hown) as Hok. pose proof (pdo_kernel _ _ Hok) as Hs. pose proof (up_to_step i) as Hst.
  wp_step. apply wp_load_word; [apply Hf|by apply (freed_ram _ _ _ _ Hf), pd_ram|lia|]. rewrite (freed_word _ _ _ _ _ Hf) by (lia || apply (pd_ram s pd Hok) || by apply up_to_pd; lia).
  fold (pde_at s pd i). destruct (decide (pde_at s pd i = 0)) as [E|Hne].
  - rewrite E. change (wp (mret tt) (λ _ s'', freed (up_to (i + 1)) s s'') s'). wp_step. revert Hf. apply freed_ext. intros q. by rewrite Hst.
  - destruct (pdo_pde _ _ Hok i Hi Hne) as (Hr & HP & Hu & _). rewrite (proj2 (Z.eqb_neq _ 0) HP). cbn [negb]. wp_step. wp_step.
    unfold pde_get_pt. wp_step. wp_step; [by apply negb_true_iff, Z.eqb_neq|]. apply wp_ptov; [unfold PTE_ADDR; rewrite land_high by lia; div_lia|].
    fold (pt_at s pd i). wp_step. eapply wp_mono; [apply (wp_free_table s pd i Hown Hi Hne (up_to i)); [done|by apply up_to_table|intros va q; by apply up_to_frame]|].
    intros [] s1 Hf1. cbv beta. eapply wp_mono; [apply (wp_free_one _ s s1 false _ Hs Hf1 Hu)|].
    + intros [?|(va & Hva & _ & _ & Ht)]; [by apply (up_to_table i)|]. by apply (in_use_disjoint s _ _ Hs Hu (own_frame _ _ Hown va _ Hva Ht)).
    + intros [] s2. cbv beta. apply freed_ext. intros q. by rewrite Hst.
Qed.

Lemma wp_pagedir_destroy : wp (pagedir_destroy pd) (λ _ s', freed (belongs s pd) s s') s.
Proof.
  pose proof (own_ok _ _ Hown) as Hok. pose proof (pdo_kernel _ _ Hok) as Hs. destruct (used_page_nonnull s pd Hs (pdo_pd _ _ Hok)) as [Hnz _].
  unfold pagedir_destroy. rewrite (proj2 (Z.eqb_neq pd NULL)) by lia. do 3 wp_step. wp_step; [by apply negb_true_iff, Z.eqb_neq, (pdo_init _ _ Hok)|].
  wp_step. eapply wp_mono; [apply (wp_for_loop (λ i s1, freed (up_to i) s s1))|].
  - apply (freed_ext (λ _, False)); [|by apply freed_none]. intros q. split; [done|]. intros [(va & Hva & Hlt & _)|(k & Hk & _)]; [|lia]. pose proof (user_addr_pd va Hva). lia.
  - intros i s1 Hi Hf1. apply wp_destroy_entry; [|done]. replace (pd_no PHYS_BASE) with 768 in Hi by reflexivity. lia.
  - intros [] s1 Hf1. cbv beta in *. replace (0 + Z.of_nat (Z.to_nat (pd_no PHYS_BASE))) with 768 in Hf1 by reflexivity.
    eapply wp_mono; [apply (wp_free_one _ s s1 false pd Hs Hf1 (pdo_pd _ _ Hok))|]; [by apply up_to_pd|].
    intros [] s2. cbv beta. apply freed_ext. intros q. apply up_to_all.
Qed.
End destroy.

(** ** Ownership *)

Lemma in_use_frame s s' p : user_pool s' = user_pool s → in_use true s p → in_use true s' p.
Proof. unfold in_use. cbn [get_pool]. by intros ->. Qed.

Lemma owns_written s pd va w s' : owns s pd → user_addr va → pte_written s pd va w s' →
  (∀ p, frame_of w = Some p → in_use true s p ∧ ∀ va', user_addr va' → pg_no va' ≠ pg_no va → translate s pd va' ≠ Some p) → owns s' pd.
Proof.
  intros Hown Hva Hw Hnew. pose proof (vmf_user _ _ (proj1 (proj2 Hw))) as Hu. split.
  - apply Hw.
  - intros v p Hv. rewrite (translate_written _ _ _ _ _ v Hw Hv). case_decide; intros E; apply (in_use_frame s); try done; [by apply Hnew|by apply (own_frame _ _ Hown v)].
  - intros v v' p Hv Hv'. rewrite (translate_written _ _ _ _ _ v Hw Hv), (translate_written _ _ _ _ _ v' Hw Hv'). do 2 case_decide; intros E E'; [congruence| | |by apply (own_inj _ _ Hown v v' p)].
    + destruct (Hnew p E) as [_ H']. by destruct (H' v' Hv' (not_eq_sym ltac:(done))).
    + destruct (Hnew p E') as [_ H']. by destruct (H' v Hv (not_eq_sym ltac:(done))).
Qed.

(** Mapping a page of the user pool that is not mapped yet, and unmapping,
    keep the ownership. *)
Lemma wp_set_page_owns s pd upage kpage (w : bool) : owns s pd → user_addr upage → aligned upage → in_use true s kpage →
  ¬ mapped_to s pd kpage → translate s pd upage = None →
  wp (pagedir_set_page pd upage kpage w) (λ ok s', owns s' pd ∧ user_pool s' = user_pool s ∧
    if ok then ∀ p, mapped_to s' pd p ↔ mapped_to s pd p ∨ p = kpage else s' = s) s.
Proof.
  intros Hown Hva Ha Hk Hnm Hn. pose proof (own_ok _ _ Hown) as Hok. pose proof (in_use_ram _ _ _ (pdo_kernel _ _ Hok) Hk) as Hram.
  eapply wp_mono; [apply wp_pagedir_set_page; [done..|by apply translate_None]|]. intros [] s' H; cbv beta in *; [|by destruct H as (-> & _)].
  destruct (frame_of_user w kpage (proj1 Hram)) as [Ef _]. split; [|split].
  - apply (owns_written _ _ _ _ _ Hown Hva H). rewrite Ef. intros p [= <-]. split; [done|]. intros va' Hva' _ Et. apply Hnm. by exists va'.
  - apply (vmf_user _ _ (proj1 (proj2 H))).
  - intros p. unfold mapped_to. split.
    + intros (va & Hv & Et). rewrite (translate_written _ _ _ _ _ _ H Hv), Ef in Et. case_decide; [right; congruence|left; eauto].
    + intros [(va & Hv & Et)| ->]; [exists va|exists upage]; (split; [done|]); rewrite (translate_written _ _ _ _ _ _ H) by done; [|by rewrite decide_True].
      rewrite decide_False; [done|]. intros [E1 E2]%same_page. unfold translate, pte_of in *. rewrite E1, E2 in Hn. congruence.
Qed.

Lemma wp_clear_page_owns s pd upage : owns s pd → user_addr upage → aligned upage →
  wp (pagedir_clear_page pd upage) (λ _ s', owns s' pd ∧ user_pool s' = user_pool s) s.
Proof.
  intros Hown Hva Ha. pose proof (own_ok _ _ Hown) as Hok. eapply wp_mono; [by apply wp_pagedir_clear_page|]. intros [] s' [H|[-> _]]; [|done]. cbv beta in *.
  split; [|apply (vmf_user _ _ (proj1 (proj2 H)))]. apply (owns_written _ _ _ _ _ Hown Hva H). unfold frame_of. rewrite testbit_clear; [|by apply (pdo_pte _ _ Hok)|lia|lia]. by rewrite andb_false_r.
Qed.

(** A page directory to copy: the page tables of the kernel, none for user
    addresses. *)
Record init_dir_ok (s : kernel) : Prop := {
  id_ok : kernel_ok s;
  id_used : used_page s (init_page_dir s);
  id_cr3 : 0 ≤ cr3 s < 2 ^ 30;
  id_user i : 0 ≤ i < 768 → pde_at s (init_page_dir s) i = 0
}.

(** The page [pd] has been taken from the kernel pool, and the directory of the
    kernel copied to it. *)
Section new_dir.
Context (s s1 : kernel) (i : Z) (page : list Z) (Hid : init_dir_ok s).
Context (Hg : first_group (used_map (kernel_pool s)) 0 1 false i) (Hal : allocated false false i 1 s s1).
Context (Hl : mem s1 !! pg_no (init_page_dir s) = Some page).

Let Hs : kernel_ok s := id_ok _ Hid.
Let pd := pool_page (kernel_pool s) i.
Let s2 := set_mem (<[pg_no pd := page]> (mem s1)) s1.

Lemma new_dir_index : 0 ≤ i < bit_cnt (used_map (kernel_pool s)) ∧ bit (used_map (kernel_pool s)) i = false.
Proof. destruct Hg as (? & ? & Hall & _). split; [lia|]. apply Hall. lia. Qed.

Lemma new_dir_frame1 : vm_frame s s1.
Proof. eapply vm_frame_allocated; [done|done|apply new_dir_index]. Qed.

Lemma new_dir_ok1 : kernel_ok s1.
Proof. by eapply allocated_ok. Qed.

Lemma new_dir_bit j : 0 ≤ j → bit (used_map (kernel_pool s2)) j = if decide (j = i) then true else bit (used_map (kernel_pool s)) j.
Proof.
  intros Hj. unfold s2. destruct Hal as (b & _ & _ & Hb & ->). cbn [kernel_pool set_mem set_pool used_map]. rewrite Hb by done. apply decide_ext. lia.
Qed.

Lemma new_dir_fresh : ¬ in_use false s pd.
Proof. intros (j & Hj & E & Hb). cbn [get_pool] in *. apply pool_page_inj in E as <-. by rewrite (proj2 new_dir_index) in Hb. Qed.

Lemma new_dir_ne : pd ≠ init_page_dir s.
Proof. intros E. apply new_dir_fresh. rewrite E. apply (id_used _ Hid). Qed.

Lemma new_dir_used : used_page s1 pd.
Proof.
  pose proof new_dir_frame1 as Hf. exists i. rewrite (vmf_cnt _ _ Hf). unfold pool_page, pd, pool_page. rewrite (vmf_base _ _ Hf). split; [apply new_dir_index|]. split; [done|].
  change (kernel_pool s1) with (kernel_pool s2). rewrite new_dir_bit by (apply new_dir_index). by rewrite decide_True.
Qed.

Lemma new_dir_ok2 : kernel_ok s2.
Proof.
  destruct (ram_page_lookup s1 (init_page_dir s) new_dir_ok1) as (page' & Hl' & Hlen); [apply used_page_ram; [apply new_dir_ok1|]; apply (used_page_frame s); [apply new_dir_frame1|apply Hid]|].
  assert (page' = page) as -> by congruence. apply kernel_ok_set_mem; [apply new_dir_ok1|]. intros p q Hp Hq. destruct (decide (pg_no pd = p)) as [<-|]; [exists page; by rewrite lookup_insert_eq|exists q; by rewrite lookup_insert_ne].
Qed.

Lemma new_dir_pde k : 0 ≤ k < 768 → pde_at s2 pd k = 0.
Proof.
  intros Hk. rewrite <-(id_user _ Hid k Hk). pose proof (used_page_ram _ _ new_dir_ok1 new_dir_used) as [[_ Ha] _].
  assert (Hmem : mem s1 = mem s) by (by destruct Hal as (b & _ & _ & _ & ->)). destruct (used_page_nonnull s _ Hs (id_used _ Hid)) as [_ Hai].
  unfold pde_at, word. destruct (word_addr pd k Ha ltac:(lia)) as [-> ->]. destruct (word_addr _ k Hai ltac:(lia)) as [-> ->]. unfold s2. cbn [mem set_mem]. by rewrite lookup_insert_eq, <-Hl, Hmem.
Qed.

Lemma new_dir_frame : vm_frame s s2.
Proof.
  eapply vm_frame_trans; [apply new_dir_frame1|]. split; try done. intros q Hq. unfold s2. cbn [mem set_mem]. apply lookup_insert_ne. intros <-.
  pose proof new_dir_used as (j & Hj & E & _). by apply (Hq j Hj); rewrite <-E.
Qed.

Lemma new_dir_pte va : user_addr va → pte_of s2 pd va = 0.
Proof. intros Hva. unfold pte_of. by rewrite new_dir_pde by (by apply user_addr_pd). Qed.

Lemma new_dir_owns : owns s2 pd.
Proof.
  destruct (vmf_consts _ _ new_dir_frame) as (_ & Ei & Ec & _). split; [split| |].
  - apply new_dir_ok2.
  - apply new_dir_used.
  - rewrite Ei. apply new_dir_ne.
  - rewrite Ec. apply Hid.
  - intros k Hk H. by destruct (H (new_dir_pde k Hk)).
  - intros k j Hk Hj H. by destruct (H (new_dir_pde k Hk)).
  - intros va Hva. rewrite new_dir_pte by done. lia.
  - intros va p Hva. by rewrite translate_frame, new_dir_pte.
  - intros va va' p Hva Hva'. by rewrite translate_frame, new_dir_pte.
Qed.

Lemma new_dir_belongs p : belongs s2 pd p ↔ p = pd.
Proof.
  unfold belongs, mapped_to, table_of. split; [|tauto]. intros [(va & Hva & Ht)|[(k & Hk & Hne & _)|?]]; [by rewrite translate_frame, new_dir_pte in Ht|by destruct (Hne (new_dir_pde k Hk))|done].
Qed.
End new_dir.

(** A new page directory maps nothing, and is the only page taken. *)
Record created (s : kernel) (pd : Z) (s' : kernel) : Prop := {
  cr_owns : owns s' pd;
  cr_belongs p : belongs s' pd p ↔ p = pd;
  cr_fresh : ¬ in_use false s pd;
  cr_frame : vm_frame s s';
  cr_bit i : 0 ≤ i < bit_cnt (used_map (kernel_pool s)) →
    bit (used_map (kernel_pool s')) i = true ↔ bit (used_map (kernel_pool s)) i = true ∨ pool_page (kernel_pool s) i = pd
}.

Lemma wp_pagedir_create s : init_dir_ok s →
  wp pagedir_create (λ pd s', if pd =? NULL then s' = s ∧ no_group (used_map (kernel_pool s)) 0 1 false else created s pd s') s.
Proof.
  intros Hid. pose proof (id_ok _ Hid) as Hs. unfold pagedir_create. wp_step. unfold palloc_get_page. apply wp_palloc_get_multiple; [done|lia|]. change (flag 0 PAL_USER) with false. cbn [get_pool]. split.
  { intros Hng. split; [done|]. wp_step. wp_step. change (NULL =? NULL) with true. cbn [negb]. wp_step. wp_step. wp_step. wp_step. done. }
  intros i s1 Hg Hal. change (flag 0 PAL_ZERO) with false in Hal. destruct (kernel_ok_group false i 1 s Hs Hg ltac:(lia)) as (_ & _ & _ & _ & Hnn). cbn [get_pool] in Hnn.
  pose proof (new_dir_frame1 s s1 i Hid Hg Hal) as Hf. pose proof (new_dir_ok1 s s1 i Hid Hal) as Hs1. destruct (vmf_consts _ _ Hf) as (_ & Ei & _).
  destruct (ram_page_lookup s1 (init_page_dir s) Hs1) as (page & Hl & _); [apply used_page_ram; [done|]; apply (used_page_frame s); [done|apply Hid]|].
  destruct (ram_page_lookup s1 (pool_page (kernel_pool s) i) Hs1) as (page' & Hl' & _); [apply used_page_ram; [done|]; by apply (new_dir_used s s1 i page)|].
  wp_step. wp_step. rewrite (proj2 (Z.eqb_neq _ NULL) Hnn). cbn [negb]. wp_step. wp_step. unfold wp at 1, copy_page. rewrite Ei, Hl, Hl'. wp_step. rewrite (proj2 (Z.eqb_neq _ NULL) Hnn).
  split; [by apply (new_dir_owns s s1 i page)|intros p; by apply (new_dir_belongs s s1 i page)|by apply new_dir_fresh|by apply (new_dir_frame s s1 i page)|].
  intros j Hj. rewrite (new_dir_bit s s1 i page) by (done || lia). case_decide as E; [subst; tauto|]. split; [tauto|]. intros [?|?%pool_page_inj]; done.
Qed.

(** ** process.c *)

(** The memory system with the fields of the running thread, and the threads. *)
Record system := mk_system { sys_kern : kernel; sys_mach : machine }.

Definition on_kernel {A} (m : M kernel A) : M system A := λ s,
  match m (sys_kern s) with Ok (a, k) => Ok (a, mk_system k (sys_mach s)) | Err f => Err f end.
Definition on_machine {A} (m : M machine A) : M system A := λ s,
  match m (sys_mach s) with Ok (a, x) => Ok (a, mk_system (sys_kern s) x) | Err f => Err f end.

Definition process_exit (temporary : Z) : M system unit :=
  pd ← gets (λ s, pagedir (sys_kern s));
  when (negb (pd =? NULL))
    (on_kernel (modify (set_pagedir NULL)) ;;
     on_kernel (pagedir_activate NULL) ;;
     on_kernel (pagedir_destroy pd)) ;;
  on_machine (sema_up temporary).

(** The caller sleeps in [sema_down] until a process has ended. *)
Definition process_wait (temporary child_tid : Z) : M system Z :=
  on_machine (sema_down temporary) ;; mret 0.

Lemma wp_on_kernel {A} (m : M kernel A) (Q : A → system → Prop) s :
  wp m (λ a k, Q a (mk_system k (sys_mach s))) (sys_kern s) → wp (on_kernel m) Q s.
Proof. unfold wp, on_kernel. by destruct (m (sys_kern s)) as [[a k]|]. Qed.
Lemma wp_on_machine {A} (m : M machine A) (Q : A → system → Prop) s :
  wp m (λ a x, Q a (mk_system (sys_kern s) x)) (sys_mach s) → wp (on_machine m) Q s.
Proof. unfold wp, on_machine. by destruct (m (sys_mach s)) as [[a k]|]. Qed.

(** The state in which the process has left its page directory. *)
Definition left_pagedir (k : kernel) : kernel := set_cr3 (init_page_dir k - PHYS_BASE) (set_pagedir NULL k).

Lemma owns_left k pd : owns k pd → kernel_page (init_page_dir k) → owns (left_pagedir k) pd.
Proof.
  intros [[[? ? ? ?] ? ? ? ? ? ?] ? ?] [Hr _]. rewrite PHYS_BASE_eq in Hr.
  split; [split; [by split|done|done| |done..]|done..]. unfold left_pagedir. cbn [cr3 set_cr3]. rewrite PHYS_BASE_eq. lia.
Qed.

Lemma wp_leave k : kernel_page (init_page_dir k) → wp (modify (set_pagedir NULL) ;; pagedir_activate NULL) (λ _ k', k' = left_pagedir k) k.
Proof.
  intros [Hr _]. wp_step. wp_step. unfold pagedir_activate. wp_step. wp_step. wp_step. change (NULL =? NULL) with true. cbn [init_page_dir set_pagedir]. apply wp_vtop; [done|]. wp_step. done.
Qed.

(** The waiting thread, if there is one, is ready to run again; otherwise the
    next wait returns at once. *)
Definition signalled (temporary : Z) (m m' : machine) : Prop :=
  ∃ x x', semas m !! temporary = Some x ∧ semas m' !! temporary = Some x' ∧ value x' = value x + 1 ∧ waiters x' = tail (waiters x) ∧
    ready_list m' = ready_list m ++ take 1 (waiters x) ∧ running m' = running m.

Lemma wp_signal m t temporary : inv m → threads m !! running m = Some t → running m ≠ idle_thread m → frames t = [] → is_sema m temporary →
  (∀ x, semas m !! temporary = Some x → value x < 2 ^ 32 - 1) →
  wp (sema_up temporary) (λ _ m', inv m' ∧ signalled temporary m m') m.
Proof.
  intros Hi Ht Hid Hf Hse Hv. pose proof (i_core _ Hi) as Hc. destruct (proj1 Hse) as [x Hx]. specialize (Hv x Hx). destruct (i_intr _ Hi) as [_ Ectx].
  assert (H0 : temporary ≠ NULL) by (apply (sema_not_null m); [done|by eexists]). pose proof (c_value _ Hc _ _ Hx) as [Hr _].
  assert (Hw : wrap32 (value x + 1) = value x + 1) by (apply wrap32_small; lia).
  assert (H1 : wp (sema_up temporary) (λ _ m', signalled temporary m m') m).
  { destruct (waiters x) as [|a ws] eqn:Hws.
    - apply (wp_sema_up_empty _ _ x); [done..|]. exists x. eexists. split; [done|]. cbn. rewrite lookup_insert_eq, Hw, Hws. split; [done|]. cbn. rewrite app_nil_r. done.
    - destruct (c_waiting _ Hc _ x a Hx) as (Ha & u & Hu & Hb & _); [rewrite Hws; set_solver|].
      apply (wp_sema_up_wake _ _ x a ws u); [done..|]. exists x, (mk_semaphore (value x + 1) ws). split; [done|]. cbn. rewrite lookup_insert_eq, Hw, Hws. done. }
  pose proof (wp_call_sema_up m t Hi Ht Hid temporary x Hf Hse Hx Hv) as H2. apply wp_Ok in H1 as ([] & m1 & E1 & H1). apply wp_Ok in H2 as ([] & m2 & E2 & H2).
  unfold wp. rewrite E1 in *. by injection E2 as <-.
Qed.

(** [process_exit] of a process that owns its pages, in a thread other than the
    idle thread that is inside no other call, returns.  The processor
    has left the page directory of the process for the one of the kernel before
    the first page is freed; then exactly the pages that the process had
    mapped, its page tables and its page directory are freed, each once, and no
    other page changes.  The thread that waits for the process, if there is
    one, becomes ready, and otherwise the next wait does not block.  A kernel
    thread frees nothing. *)
Theorem process_exit_correct temporary s t : let k := sys_kern s in let m := sys_mach s in let pd := pagedir k in
  inv m → threads m !! running m = Some t → running m ≠ idle_thread m → frames t = [] → is_sema m temporary →
  (∀ x, semas m !! temporary = Some x → value x < 2 ^ 32 - 1) →
  kernel_page (init_page_dir k) → (pd ≠ NULL → owns k pd) →
  ∃ s', process_exit temporary s = Ok (tt, s') ∧ inv (sys_mach s') ∧ signalled temporary m (sys_mach s') ∧
    pagedir (sys_kern s') = NULL ∧
    if pd =? NULL then sys_kern s' = k
    else freed (belongs k pd) (left_pagedir k) (sys_kern s') ∧ cr3 (sys_kern s') = init_page_dir k - PHYS_BASE.
Proof.
  intros k m pd Hi Ht Hid Hf Hse Hv Hip Hown. pose proof (wp_signal m t temporary Hi Ht Hid Hf Hse Hv) as Hsig.
  assert (Hw : wp (process_exit temporary) (λ _ s', inv (sys_mach s') ∧ signalled temporary m (sys_mach s') ∧ pagedir (sys_kern s') = NULL ∧
    if pd =? NULL then sys_kern s' = k else freed (belongs k pd) (left_pagedir k) (sys_kern s') ∧ cr3 (sys_kern s') = init_page_dir k - PHYS_BASE) s); [|by apply wp_Ok in Hw as ([] & s' & E & H); exists s'].
  unfold process_exit. wp_step. wp_step. fold k. fold pd. wp_step. destruct (Z.eqb_spec pd NULL) as [E|E]; cbn [negb].
  - wp_step. wp_step. apply wp_on_machine. eapply wp_mono; [exact Hsig|]. intros [] m' [? ?]. done.
  - wp_step. wp_step. apply wp_on_kernel. wp_step. cbn [sys_mach]. wp_step. apply wp_on_kernel. cbn [sys_kern sys_mach].
    destruct (proj1 (wp_Ok _ _ _) (wp_leave k Hip)) as ([] & k1 & E1 & ->). unfold mbind, M_bind in E1. cbn in E1. unfold wp at 1. fold k. rewrite E1.
    apply wp_on_kernel. cbn [sys_kern sys_mach]. eapply wp_mono; [apply wp_pagedir_destroy, owns_left; [by apply Hown|done]|].
    intros [] k2 Hfr. cbv beta. apply wp_on_machine. cbn [sys_kern sys_mach]. eapply wp_mono; [exact Hsig|]. intros [] m' [? ?]. cbn [sys_kern sys_mach].
    destruct (fr_consts _ _ _ Hfr) as (_ & _ & Ec & Ep & _). split_and!; [done|done|by rewrite Ep|exact Hfr|by rewrite Ec].
Qed.

(** Creating a page directory and destroying it gives the pools back as they
    were. *)
Theorem pagedir_create_destroy s : init_dir_ok s → ∀ pd s1, pagedir_create s = Ok (pd, s1) → pd ≠ NULL →
  ∃ s2, pagedir_destroy pd s1 = Ok (tt, s2) ∧ kernel_ok s2 ∧
    ∀ u i, 0 ≤ i < bit_cnt (used_map (get_pool u s)) → bit (used_map (get_pool u s2)) i = bit (used_map (get_pool u s)) i.
Proof.
  intros Hid pd s1 E Hne. pose proof (wp_pagedir_create s Hid) as Hw. apply wp_Ok in Hw as (pd' & s1' & E' & Hc). rewrite E in E'. injection E' as <- <-.
  rewrite (proj2 (Z.eqb_neq pd NULL) Hne) in Hc. destruct Hc as [Hown Hb Hfresh Hf Hbit]. pose proof (wp_pagedir_destroy s1 pd Hown) as Hd. apply wp_Ok in Hd as ([] & s2 & E2 & Hfr).
  exists s2. split; [done|]. split; [apply Hfr|]. intros u i Hi. apply eq_true_iff_eq. destruct u; cbn [get_pool] in *.
  - pose proof (vmf_user _ _ Hf) as Eu. rewrite (fr_bit _ _ _ Hfr true i) by (cbn [get_pool]; by rewrite Eu). cbn [get_pool]. rewrite Eu, Hb. split; [tauto|]. intros Hbi. split; [done|].
    intros Ep. apply (in_use_disjoint s1 pd pd (pdo_kernel _ _ (own_ok _ _ Hown)) (pdo_pd _ _ (own_ok _ _ Hown))); [|done]. exists i. cbn [get_pool]. by rewrite Eu.
  - assert (Ep : pool_page (kernel_pool s1) i = pool_page (kernel_pool s) i) by (unfold pool_page; by rewrite (vmf_base _ _ Hf)).
    rewrite (fr_bit _ _ _ Hfr false i) by (cbn [get_pool]; by rewrite (vmf_cnt _ _ Hf)). cbn [get_pool]. rewrite Ep, Hb, Hbit by done. split; [tauto|]. intros Hbi. split; [tauto|].
    intros E3. apply Hfresh. exists i. by rewrite <-E3.
Qed.
