(* ===== verification/Input.v ===== *)
(** * Input and the serial port ([devices/intq.c], [input.c], [kbd.c], [serial.c])

    An interrupt queue is shared by threads and interrupt handlers.  All its
    code runs with interrupts off, so what a thread does between two points
    where it sleeps is one step.  A thread that sleeps in the middle of a call
    is in the table [pcs] with what it has still to do. *)
From Stdlib Require Import Strings.String.
From S2P Require Import Prelude Bytes Stdio.
#[local] Open Scope Z_scope.

(** ** Interrupt queues *)

Definition INTQ_BUFSIZE : Z := 64.

Record intq := mk_intq {
  lock_value : Z;
  lock_holder : Z;
  lock_waiters : list Z;
  not_full : Z;
  not_empty : Z;
  buf : list Z;
  head : Z;
  tail : Z
}.

(** A call, and where a thread sleeps in it or was woken up: in
    [lock_acquire], in [wait]. *)
Inductive op := Getc | Putc (byte : Z).
Inductive pc := P_lock (o : op) | P_relock (o : op) | P_wait (o : op) | P_woken (o : op).
#[export] Instance op_eq_dec : EqDecision op.
Proof. solve_decision. Defined.
#[export] Instance pc_eq_dec : EqDecision pc.
Proof. solve_decision. Defined.

Record qsys := mk_qsys { que : intq; pcs : gmap Z pc }.

Definition set_lock (v h : Z) (ws : list Z) (q : intq) : intq :=
  mk_intq v h ws (not_full q) (not_empty q) (buf q) (head q) (tail q).
Definition set_waiter (o : op) (t : Z) (q : intq) : intq :=
  match o with
  | Getc => mk_intq (lock_value q) (lock_holder q) (lock_waiters q) (not_full q) t (buf q) (head q) (tail q)
  | Putc _ => mk_intq (lock_value q) (lock_holder q) (lock_waiters q) t (not_empty q) (buf q) (head q) (tail q)
  end.
Definition set_data (b : list Z) (h t : Z) (q : intq) : intq :=
  mk_intq (lock_value q) (lock_holder q) (lock_waiters q) (not_full q) (not_empty q) b h t.

Definition on_que (f : intq → intq) : M qsys unit := modify (λ s, mk_qsys (f (que s)) (pcs s)).
Definition set_pc (t : Z) (p : pc) : M qsys unit := modify (λ s, mk_qsys (que s) (<[t := p]> (pcs s))).

Definition intq_init : M qsys unit :=
  on_que (λ q, mk_intq 1 NULL [] NULL NULL (buf q) 0 0).

Definition next (pos : Z) : Z := Z.rem (int32 (pos + 1)) INTQ_BUFSIZE.

Definition intq_empty (q : intq) : bool := head q =? tail q.
Definition intq_full (q : intq) : bool := next (head q) =? tail q.

(** What makes a call sleep, and who waits for the opposite. *)
Definition blocked (o : op) (q : intq) : bool := match o with Getc => intq_empty q | Putc _ => intq_full q end.
Definition waiter (o : op) (q : intq) : Z := match o with Getc => not_empty q | Putc _ => not_full q end.

(** [thread_unblock] asserts that the thread sleeps. *)
Definition unblock (t : Z) : M qsys unit := λ s,
  match pcs s !! t with
  | Some (P_lock o) => set_pc t (P_relock o) s
  | Some (P_wait o) => set_pc t (P_woken o) s
  | _ => Err AssertFailed
  end.

Definition wait (t : Z) (o : op) : M qsys unit :=
  b ← gets (λ s, blocked o (que s));
  ASSERT b ;;
  on_que (set_waiter o t) ;;
  set_pc t (P_wait o).

Definition signal (o : op) : M qsys unit :=
  b ← gets (λ s, blocked o (que s));
  ASSERT (negb b) ;;
  w ← gets (λ s, waiter o (que s));
  when (negb (w =? NULL)) (unblock w ;; on_que (set_waiter o NULL)).

(** [lock_acquire] from the loop of [sema_down] on, and then [wait]. *)
Definition acquire_and_wait (t : Z) (o : op) : M qsys unit :=
  q ← gets que;
  if lock_value q =? 0 then
    on_que (set_lock 0 (lock_holder q) (lock_waiters q ++ [t])) ;; set_pc t (P_lock o)
  else
    on_que (set_lock (lock_value q - 1) t (lock_waiters q)) ;;
    wait t o.

Definition lock_release (t : Z) : M qsys unit :=
  q ← gets que;
  ASSERT (lock_holder q =? t) ;;
  match lock_waiters q with
  | [] => on_que (set_lock (lock_value q + 1) NULL [])
  | w :: ws => on_que (set_lock (lock_value q) NULL ws) ;; unblock w ;; on_que (λ q, set_lock (lock_value q + 1) NULL ws q)
  end.

(** The code after the loop. *)
Definition finish (o : op) : M qsys Z :=
  q ← gets que;
  match o with
  | Getc =>
      match buf q !! Z.to_nat (tail q) with
      | Some byte => on_que (set_data (buf q) (head q) (next (tail q))) ;; signal (Putc 0) ;; mret byte
      | None => throw BadAccess
      end
  | Putc byte =>
      if len (buf q) <=? head q then throw BadAccess else
      on_que (set_data (<[Z.to_nat (head q) := byte]> (buf q)) (next (head q)) (tail q)) ;; signal Getc ;; mret 0
  end.

(** The loop of [intq_getc] and [intq_putc] in a thread, up to the point where
    it sleeps. *)
Definition intq_loop (t : Z) (o : op) : M qsys (option Z) :=
  q ← gets que;
  if blocked o q then
    ASSERT (negb (lock_holder q =? t)) ;;
    acquire_and_wait t o ;; mret None
  else r ← finish o; mret (Some r).

(** A thread that runs again. *)
Definition intq_resume (t : Z) : M qsys (option Z) := λ s,
  match pcs s !! t with
  | Some (P_relock o) => (acquire_and_wait t o ;; mret None) s
  | Some (P_woken o) =>
      (modify (λ s, mk_qsys (que s) (delete t (pcs s))) ;; lock_release t ;; intq_loop t o) s
  | _ => Err BadAccess
  end.

(** A call in an interrupt handler. *)
Definition intq_intr (o : op) : M qsys Z :=
  b ← gets (λ s, blocked o (que s));
  ASSERT (negb b) ;;
  finish o.

(** ** Runs of a queue *)

Inductive event := E_call (t : Z) (o : op) | E_resume (t : Z) | E_intr (o : op).

Definition op_of (p : pc) : op := match p with P_lock o | P_relock o | P_wait o | P_woken o => o end.

(** The call that an event completes, with its result. *)
Definition run_event (e : event) : M qsys (option (op * Z)) := λ s,
  match e with
  | E_call t o => (r ← intq_loop t o; mret ((λ r, (o, r)) <$> r)) s
  | E_resume t => (r ← intq_resume t; mret (r ≫= λ r, (λ p, (op_of p, r)) <$> pcs s !! t)) s
  | E_intr o => (r ← intq_intr o; mret (Some (o, r))) s
  end.

Fixpoint run_events (es : list event) : M qsys (list (op * Z)) :=
  match es with
  | [] => mret []
  | e :: es => r ← run_event e; rs ← run_events es; mret (match r with Some x => x :: rs | None => rs end)
  end.

(** ** The bytes in a queue *)

Record data_ok (q : intq) : Prop := {
  dok_buf : len (buf q) = 64;
  dok_head : 0 ≤ head q < 64;
  dok_tail : 0 ≤ tail q < 64
}.
#[export] Hint Resolve dok_buf dok_head dok_tail : core.

Definition contents (q : intq) : list Z :=
  (λ i, default 0 (buf q !! Z.to_nat ((tail q + i) mod 64))) <$> seqZ 0 ((head q - tail q) mod 64).

Lemma next_eq p : 0 ≤ p < 64 → next p = (p + 1) mod 64.
Proof. intros H. unfold next. rewrite (signed_small 32) by lia. apply Z.rem_mod_nonneg; unfold INTQ_BUFSIZE; lia. Qed.

Lemma sub_mod64 h t : 0 ≤ h < 64 → 0 ≤ t < 64 → (t ≤ h ∧ (h - t) mod 64 = h - t) ∨ (h < t ∧ (h - t) mod 64 = h - t + 64).
Proof. intros. div_lia. Qed.
Lemma succ_mod64 p : 0 ≤ p < 64 → (p < 63 ∧ (p + 1) mod 64 = p + 1) ∨ (p = 63 ∧ (p + 1) mod 64 = 0).
Proof. intros. div_lia. Qed.
Lemma add_mod64 p i : 0 ≤ p < 64 → 0 ≤ i < 64 → (p + i < 64 ∧ (p + i) mod 64 = p + i) ∨ (64 ≤ p + i ∧ (p + i) mod 64 = p + i - 64).
Proof. intros. div_lia. Qed.
Ltac mod64 :=
  repeat match goal with
  | |- context [(?x + 1) mod 64] => destruct (succ_mod64 x) as [[? ->]|[? ->]]; [lia| |]
  | H : context [(?x + 1) mod 64] |- _ => destruct (succ_mod64 x) as [[? R]|[? R]]; [lia| |]; rewrite R in *; clear R
  | |- context [(?x - ?y) mod 64] => destruct (sub_mod64 x y) as [[? ->]|[? ->]]; [lia|lia| |]
  | H : context [(?x - ?y) mod 64] |- _ => destruct (sub_mod64 x y) as [[? R]|[? R]]; [lia|lia| |]; rewrite R in *; clear R
  | |- context [(?x + ?y) mod 64] => destruct (add_mod64 x y) as [[? ->]|[? ->]]; [lia|lia| |]
  end; try lia.

Lemma length_contents q : len (contents q) = (head q - tail q) mod 64.
Proof. unfold contents. rewrite length_fmap, length_seqZ, Z2Nat.id; [done|]. apply Z.mod_pos_bound. lia. Qed.

Lemma intq_empty_spec q : data_ok q → intq_empty q = true ↔ contents q = [].
Proof.
  intros [_ H1 H2]. unfold intq_empty. rewrite Z.eqb_eq, <-length_zero_iff_nil. pose proof (length_contents q) as Hl.
  assert ((head q - tail q) mod 64 = 0 ↔ head q = tail q) by mod64. lia.
Qed.

Lemma intq_full_spec q : data_ok q → intq_full q = true ↔ len (contents q) = 63.
Proof. intros [_ H1 H2]. unfold intq_full. rewrite Z.eqb_eq, length_contents, next_eq by done. mod64. Qed.

Lemma contents_get q b : data_ok q → intq_empty q = false → buf q !! Z.to_nat (tail q) = Some b →
  contents q = b :: contents (set_data (buf q) (head q) (next (tail q)) q).
Proof.
  intros [_ H1 H2] He Hb. unfold intq_empty in He. apply Z.eqb_neq in He. unfold contents. cbn [set_data buf head tail]. rewrite next_eq by done.
  rewrite (seqZ_cons 0) by mod64. rewrite fmap_cons. f_equal; [rewrite Z.add_0_r, Z.mod_small, Hb by done; done|].
  replace (Z.pred ((head q - tail q) mod 64)) with ((head q - (tail q + 1) mod 64) mod 64) by mod64.
  rewrite <-(fmap_add_seqZ 1 0), <-list_fmap_compose. apply list_fmap_ext. intros i x Hx. apply lookup_seqZ in Hx as [-> Hx]. cbn. do 3 f_equal. mod64.
Qed.

Lemma contents_put q b : data_ok q → intq_full q = false →
  contents (set_data (<[Z.to_nat (head q) := b]> (buf q)) (next (head q)) (tail q) q) = contents q ++ [b].
Proof.
  intros [H0 H1 H2] Hf. unfold intq_full in Hf. apply Z.eqb_neq in Hf. rewrite next_eq in Hf by done.
  unfold contents. cbn [set_data buf head tail]. rewrite next_eq by done.
  set (n := (head q - tail q) mod 64).
  replace (((head q + 1) mod 64 - tail q) mod 64) with (Z.of_nat (S (Z.to_nat n))) by (unfold n; mod64).
  rewrite seqZ_S, fmap_app. replace (Z.of_nat (Z.to_nat n)) with n by (unfold n; mod64). f_equal.
  - apply list_fmap_ext. intros i x Hx. apply lookup_seqZ in Hx as [-> Hx]. f_equal. rewrite list_lookup_insert_ne; [done|]. unfold n in Hx. mod64.
  - cbn. f_equal. replace ((tail q + (0 + n)) mod 64) with (head q) by (unfold n; mod64). rewrite list_lookup_insert_eq by lia. done.
Qed.

Lemma data_ok_get q : data_ok q → data_ok (set_data (buf q) (head q) (next (tail q)) q).
Proof. intros []. split; cbn; [done|done|]. rewrite next_eq by done. mod64. Qed.
Lemma data_ok_put q b : data_ok q → data_ok (set_data (<[Z.to_nat (head q) := b]> (buf q)) (next (head q)) (tail q) q).
Proof. intros []. split; cbn; [by rewrite length_insert| |done]. rewrite next_eq by done. mod64. Qed.

(** ** The other fields do not matter for the bytes *)

Definition data (q : intq) : list Z * Z * Z := (buf q, head q, tail q).
Definition keeps_data {A} (m : M qsys A) : Prop := ∀ s r s', m s = Ok (r, s') → data (que s') = data (que s).

Lemma data_contents q q' : data q' = data q → contents q' = contents q.
Proof. unfold data, contents. by intros [= -> -> ->]. Qed.
Lemma data_data_ok q q' : data q' = data q → data_ok q → data_ok q'.
Proof. unfold data. intros [= E1 E2 E3] []. split; congruence. Qed.

Lemma keeps_bind {A B} (m : M qsys A) (k : A → M qsys B) : keeps_data m → (∀ a, keeps_data (k a)) → keeps_data (m ≫= k).
Proof.
  intros Hm Hk s r s' E. unfold mbind, M_bind in E. destruct (m s) as [[a s1]|] eqn:E1; [|done]. etrans; [by eapply Hk|by eapply Hm].
Qed.
Lemma keeps_ret {A} (a : A) : keeps_data (mret a).
Proof. by intros s r s' [= _ <-]. Qed.
Lemma keeps_gets {A} (f : qsys → A) : keeps_data (gets f).
Proof. by intros s r s' [= _ <-]. Qed.
Lemma keeps_assert b : keeps_data (ASSERT b).
Proof. intros s r s'. unfold ASSERT. destruct b; [by intros [= _ <-]|done]. Qed.
Lemma keeps_on_que f : (∀ q, data (f q) = data q) → keeps_data (on_que f).
Proof. intros H s r s' [= _ <-]. apply H. Qed.
Lemma keeps_set_pc t p : keeps_data (set_pc t p).
Proof. by intros s r s' [= _ <-]. Qed.
Lemma keeps_unblock t : keeps_data (unblock t).
Proof. intros s r s'. unfold unblock. destruct (pcs s !! t) as [[]|]; try done; by intros [= _ <-]. Qed.
Lemma keeps_delete t : keeps_data (modify (λ s, mk_qsys (que s) (delete t (pcs s)))).
Proof. by intros s r s' [= _ <-]. Qed.

Create HintDb keeps.
#[export] Hint Resolve keeps_ret keeps_gets keeps_assert keeps_set_pc keeps_unblock keeps_delete : keeps.
Ltac keeps := repeat first [ solve [auto with keeps] | apply keeps_on_que; intros []; done | apply keeps_bind; [|intros ?] | case_match ].

Lemma keeps_wait t o : keeps_data (wait t o).
Proof. unfold wait. destruct o; keeps. Qed.
Lemma keeps_signal o : keeps_data (signal o).
Proof. unfold signal, when. destruct o; keeps. Qed.
#[export] Hint Resolve keeps_wait keeps_signal : keeps.
Lemma keeps_acquire t o : keeps_data (acquire_and_wait t o).
Proof. unfold acquire_and_wait. keeps. Qed.
Lemma keeps_release t : keeps_data (lock_release t).
Proof. unfold lock_release. keeps. Qed.
#[export] Hint Resolve keeps_acquire keeps_release : keeps.

(** What a finished call did to the bytes. *)
Definition effect (o : op) (r : Z) (l l' : list Z) : Prop :=
  match o with Getc => l = r :: l' | Putc b => l' = l ++ [b] end.

Lemma finish_effect o s r s' : data_ok (que s) → blocked o (que s) = false → finish o s = Ok (r, s') →
  data_ok (que s') ∧ effect o r (contents (que s)) (contents (que s')).
Proof.
  intros Hd Hb E. unfold finish, mbind, M_bind, gets in E. destruct o as [|b]; cbn [blocked] in Hb.
  - destruct (buf (que s) !! Z.to_nat (tail (que s))) as [b|] eqn:Eb; [|done]. unfold on_que, modify in E.
    destruct (signal _ _) as [[[] s1]|] eqn:E1; [|done]. apply keeps_signal in E1. cbn [que] in E1. injection E as <- <-.
    split; [eapply data_data_ok; [done|]; by apply data_ok_get|]. cbn [effect]. rewrite (data_contents _ _ E1). by apply contents_get.
  - destruct (Z.leb_spec (len (buf (que s))) (head (que s))); [done|]. unfold on_que, modify in E.
    destruct (signal _ _) as [[[] s1]|] eqn:E1; [|done]. apply keeps_signal in E1. cbn [que] in E1. injection E as <- <-.
    split; [eapply data_data_ok; [done|]; by apply data_ok_put|]. cbn [effect]. rewrite (data_contents _ _ E1). by apply contents_put.
Qed.

(** The effect of an event on the bytes. *)
Definition event_effect (x : option (op * Z)) (l l' : list Z) : Prop :=
  match x with Some (o, r) => effect o r l l' | None => l' = l end.

Lemma intq_loop_effect t o s r s' : data_ok (que s) → intq_loop t o s = Ok (r, s') →
  data_ok (que s') ∧ event_effect ((λ r, (o, r)) <$> r) (contents (que s)) (contents (que s')).
Proof.
  intros Hd E. unfold intq_loop in E. unfold mbind at 1, M_bind at 1, gets in E. destruct (blocked o (que s)) eqn:Eb.
  - unfold mbind, M_bind, ASSERT in E. destruct (negb _); [|done]. destruct (acquire_and_wait t o s) as [[[] s1]|] eqn:E1; [|done]. injection E as <- <-.
    apply keeps_acquire in E1. split; [by eapply data_data_ok|]. cbn. by apply data_contents.
  - unfold mbind, M_bind in E. destruct (finish o s) as [[x s1]|] eqn:E1; [|done]. injection E as <- <-. by eapply finish_effect.
Qed.

Lemma run_event_effect e s x s' : data_ok (que s) → run_event e s = Ok (x, s') →
  data_ok (que s') ∧ event_effect x (contents (que s)) (contents (que s')).
Proof.
  intros Hd E. destruct e as [t o|t|o]; cbn [run_event] in E; unfold mbind, M_bind in E.
  - destruct (intq_loop t o s) as [[r s1]|] eqn:E1; [|done]. injection E as <- <-. by eapply intq_loop_effect.
  - destruct (intq_resume t s) as [[r s1]|] eqn:E1; [|done]. injection E as <- <-. unfold intq_resume in E1.
    destruct (pcs s !! t) as [[o|o|o|o]|] eqn:Ep; try done.
    + unfold mbind, M_bind in E1. destruct (acquire_and_wait t o s) as [[[] s2]|] eqn:E2; [|done]. injection E1 as <- <-.
      apply keeps_acquire in E2. split; [by eapply data_data_ok|]. cbn. by apply data_contents.
    + unfold mbind, M_bind, modify in E1. destruct (lock_release t _) as [[[] s2]|] eqn:E2; [|done]. apply keeps_release in E2. cbn [que] in E2.
      apply intq_loop_effect in E1 as [H1 H2]; [|by eapply data_data_ok]. rewrite (data_contents _ _ E2) in H2. split; [done|]. by destruct r.
  - unfold intq_intr, mbind, M_bind, gets, ASSERT in E. destruct (blocked o (que s)) eqn:Eb; [done|]. cbn [negb] in E.
    destruct (finish o s) as [[r s1]|] eqn:E1; [|done]. injection E as <- <-. by eapply finish_effect.
Qed.

Definition puts (l : list (op * Z)) : list Z := flat_map (λ x, match x.1 with Putc b => [b] | Getc => [] end) l.
Definition gots (l : list (op * Z)) : list Z := flat_map (λ x, match x.1 with Putc _ => [] | Getc => [x.2] end) l.

(** An interrupt queue is a first-in first-out queue of at most 63 bytes:
    in any run of calls of any number of threads and interrupt handlers that
    ends without a failed assertion, the bytes read are the bytes that were in
    the queue and then the bytes written, in that order, but for those that
    are still in the queue. *)
Theorem intq_fifo es s log s' : data_ok (que s) → run_events es s = Ok (log, s') →
  data_ok (que s') ∧ len (contents (que s')) ≤ 63 ∧ contents (que s) ++ puts log = gots log ++ contents (que s').
Proof.
  intros Hd E. assert (Hr : data_ok (que s') ∧ contents (que s) ++ puts log = gots log ++ contents (que s')).
  { revert s log Hd E. induction es as [|e es IH]; intros s log Hd E; cbn [run_events] in E.
    - injection E as <- <-. split; [done|]. cbn. by rewrite app_nil_r.
    - unfold mbind, M_bind in E. destruct (run_event e s) as [[x s1]|] eqn:E1; [|done]. destruct (run_events es s1) as [[rs s2]|] eqn:E2; [|done].
      injection E as <- <-. apply run_event_effect in E1 as [Hd1 He]; [|done]. destruct (IH _ _ Hd1 E2) as [H1 H2]. split; [done|].
      destruct x as [[[|b] r]|]; cbn [event_effect effect] in He.
      + rewrite He. cbn. fold (gots rs). by rewrite <-H2.
      + rewrite He in H2. cbn. fold (puts rs). rewrite <-app_assoc in H2. done.
      + by rewrite He in H2. }
  destruct Hr as [H1 H2]. split; [done|]. split; [|done]. rewrite length_contents. pose proof (Z.mod_pos_bound (head (que s') - tail (que s')) 64). lia.
Qed.

(** ** One thread at a time *)

(** The lock, the two waiters and the threads in a call. *)
Record status (s : qsys) (v h ne nf : Z) (ps : gmap Z pc) : Prop := {
  st_value : lock_value (que s) = v;
  st_holder : lock_holder (que s) = h;
  st_waiters : lock_waiters (que s) = [];
  st_not_empty : not_empty (que s) = ne;
  st_not_full : not_full (que s) = nf;
  st_pcs : pcs s = ps
}.

Inductive qok (s : qsys) : Prop :=
  | qok_idle : status s 1 NULL NULL NULL ∅ → qok s
  | qok_reader t : t ≠ NULL → status s 0 t t NULL {[t := P_wait Getc]} → intq_empty (que s) = true → qok s
  | qok_writer t b : t ≠ NULL → status s 0 t NULL t {[t := P_wait (Putc b)]} → intq_full (que s) = true → qok s
  | qok_woken t o : t ≠ NULL → status s 0 t NULL NULL {[t := P_woken o]} → qok s.

(** A thread calls only while no other one is in a call; an interrupt handler
    calls only when it does not have to wait. *)
Definition enabled (e : event) (s : qsys) : Prop :=
  match e with
  | E_call t o => t ≠ NULL ∧ pcs s = ∅
  | E_resume t => ∃ o, pcs s !! t = Some (P_relock o) ∨ pcs s !! t = Some (P_woken o)
  | E_intr o => blocked o (que s) = false
  end.

Inductive reach : qsys → Prop :=
  | reach_init s r s' : pcs s = ∅ → len (buf (que s)) = 64 → intq_init s = Ok (r, s') → reach s'
  | reach_step s e x s' : reach s → enabled e s → run_event e s = Ok (x, s') → reach s'.

Lemma not_both q : data_ok q → intq_empty q = true → intq_full q = true → False.
Proof. intros Hd H1%(intq_empty_spec q Hd) H2%(intq_full_spec q Hd). rewrite H1 in H2. done. Qed.

(** A byte in the queue, or room for one. *)
Lemma after_get q : data_ok q → intq_empty q = false → intq_full (set_data (buf q) (head q) (next (tail q)) q) = false.
Proof.
  intros Hd He. apply not_true_iff_false. intros Hf%intq_full_spec; [|by apply data_ok_get].
  destruct (lookup_lt_is_Some_2 (buf q) (Z.to_nat (tail q))) as [b Hb]; [pose proof (dok_buf _ Hd); pose proof (dok_tail _ Hd); lia|].
  pose proof (contents_get q b Hd He Hb) as E. pose proof (length_contents q) as Hl. rewrite E in Hl. cbn [length] in Hl.
  pose proof (Z.mod_pos_bound (head q - tail q) 64). lia.
Qed.
Lemma after_put q b : data_ok q → intq_full q = false → intq_empty (set_data (<[Z.to_nat (head q) := b]> (buf q)) (next (head q)) (tail q) q) = false.
Proof.
  intros Hd He. apply not_true_iff_false. intros Hf%intq_empty_spec; [|by apply data_ok_put]. rewrite contents_put in Hf by done.
  by destruct (contents q).
Qed.

(** [signal] when nobody waits, and when a thread waits. *)
Lemma signal_none o s : blocked o (que s) = false → waiter o (que s) = NULL → signal o s = Ok (tt, s).
Proof. intros Hb Hw. unfold signal, mbind, M_bind, gets. rewrite Hb. cbn [negb ASSERT]. by rewrite Hw. Qed.
Lemma signal_some o s t o' : blocked o (que s) = false → waiter o (que s) = t → t ≠ NULL → pcs s !! t = Some (P_wait o') →
  signal o s = Ok (tt, mk_qsys (set_waiter o NULL (que s)) (<[t := P_woken o']> (pcs s))).
Proof.
  intros Hb Hw Ht Hp. unfold signal, mbind, M_bind, gets. rewrite Hb. cbn [negb ASSERT]. rewrite Hw, (proj2 (Z.eqb_neq t 0)) by done.
  cbn [negb when]. unfold mbind, M_bind, unblock. rewrite Hp. done.
Qed.

(** A call that does not have to wait. *)
Lemma finish_ok o s : data_ok (que s) → qok s → blocked o (que s) = false → ∃ r s', finish o s = Ok (r, s') ∧ qok s'.
Proof.
  intros Hd Hq Hb. unfold finish, mbind, M_bind, gets. destruct o as [|b]; cbn [blocked] in Hb.
  - destruct (lookup_lt_is_Some_2 (buf (que s)) (Z.to_nat (tail (que s)))) as [b ->]; [pose proof (dok_buf _ Hd); pose proof (dok_tail _ Hd); lia|].
    unfold on_que, modify. pose proof (after_get _ Hd Hb) as Hf. set (s1 := mk_qsys _ _) in *.
    destruct Hq as [[]|t Ht [] He|t c Ht [] Hfull|t o Ht []]; [|congruence| |].
    + rewrite signal_none by done. do 2 eexists. split; [done|]. by apply qok_idle.
    + rewrite (signal_some _ _ t (Putc c)); [|done|done|done|cbn; rewrite st_pcs0; by rewrite lookup_singleton_eq].
      do 2 eexists. split; [done|]. apply (qok_woken _ t (Putc c)); [done|]. split; try done. cbn. rewrite st_pcs0. apply insert_singleton_eq.
    + rewrite signal_none by done. do 2 eexists. split; [done|]. by apply (qok_woken _ t o).
  - rewrite (proj2 (Z.leb_gt _ _)) by (pose proof (dok_buf _ Hd); pose proof (dok_head _ Hd); lia).
    unfold on_que, modify. pose proof (after_put _ b Hd Hb) as Hf. set (s1 := mk_qsys _ _) in *.
    destruct Hq as [[]|t Ht [] He|t c Ht [] Hfull|t o Ht []]; [| |congruence|].
    + rewrite signal_none by done. do 2 eexists. split; [done|]. by apply qok_idle.
    + rewrite (signal_some _ _ t Getc); [|done|done|done|cbn; rewrite st_pcs0; by rewrite lookup_singleton_eq].
      do 2 eexists. split; [done|]. apply (qok_woken _ t Getc); [done|]. split; try done. cbn. rewrite st_pcs0. apply insert_singleton_eq.
    + rewrite signal_none by done. do 2 eexists. split; [done|]. by apply (qok_woken _ t o).
Qed.

(** The loop in a thread while no other one is in a call. *)
Lemma intq_loop_ok t o s : data_ok (que s) → t ≠ NULL → status s 1 NULL NULL NULL ∅ → ∃ r s', intq_loop t o s = Ok (r, s') ∧ qok s'.
Proof.
  intros Hd Ht Hs. unfold intq_loop. unfold mbind at 1, M_bind at 1, gets. destruct (blocked o (que s)) eqn:Eb.
  - pose proof Hs as []. unfold mbind, M_bind. rewrite st_holder0, (proj2 (Z.eqb_neq 0 t)) by done. cbn [negb ASSERT].
    unfold acquire_and_wait, mbind, M_bind, gets. rewrite st_value0. cbn [Z.eqb]. unfold on_que, modify, wait, mbind, M_bind, gets. cbn [que].
    replace (blocked o (set_lock _ _ _ _)) with true by (by destruct o). cbn [ASSERT]. unfold on_que, modify, set_pc, modify. cbn [que pcs].
    do 2 eexists. split; [done|]. rewrite st_pcs0, insert_empty. destruct o as [|b]; [apply (qok_reader _ t)|apply (qok_writer _ t b)]; done.
  - destruct (finish_ok o s Hd (qok_idle _ Hs) Eb) as (r & s' & E & Hq). unfold mbind, M_bind. rewrite E. eauto.
Qed.

Lemma run_event_ok e s : data_ok (que s) → qok s → enabled e s → ∃ x s', run_event e s = Ok (x, s') ∧ qok s'.
Proof.
  intros Hd Hq He. destruct e as [t o|t|o]; cbn [run_event enabled] in *; unfold mbind, M_bind.
  - destruct He as [Ht Hp]. assert (Hs : status s 1 NULL NULL NULL ∅).
    { destruct Hq as [Hs|t' _ []|t' c _ []|t' o' _ []]; [done|..]; rewrite Hp in st_pcs0; symmetry in st_pcs0; by apply map_non_empty_singleton in st_pcs0. }
    destruct (intq_loop_ok t o s Hd Ht Hs) as (r & s' & -> & H). eauto.
  - destruct He as (o & He). destruct Hq as [[]|t' _ []|t' c _ []|t' o' Ht []]; rewrite st_pcs0 in He;
      try (rewrite ?lookup_empty, ?lookup_singleton_Some in He; naive_solver).
    assert (t = t' ∧ o' = o) as [-> ->]. { rewrite !lookup_singleton_Some in He. naive_solver. }
    unfold intq_resume. rewrite st_pcs0, lookup_singleton_eq. unfold mbind, M_bind, modify, lock_release, mbind, M_bind, gets. cbn [que pcs].
    rewrite st_holder0, Z.eqb_refl. cbn [ASSERT]. rewrite st_waiters0, st_value0. unfold on_que, modify. cbn [que pcs].
    rewrite ?st_pcs0, delete_singleton_eq. set (s1 := mk_qsys _ _).
    destruct (intq_loop_ok t' o s1) as (r & s' & E & H); [by eapply (data_data_ok (que s))|done|by split|]. rewrite E. eauto.
  - unfold intq_intr, mbind, M_bind, gets. rewrite He. cbn [negb ASSERT]. destruct (finish_ok o s Hd Hq He) as (r & s' & -> & H). eauto.
Qed.

Lemma reach_ok s : reach s → data_ok (que s) ∧ qok s.
Proof.
  induction 1 as [s r s' Hp Hb E|s e x s' _ [Hd Hq] He E].
  - unfold intq_init, on_que, modify in E. injection E as _ <-. split; [by split|]. by apply qok_idle.
  - split; [by eapply run_event_effect|]. destruct (run_event_ok e s Hd Hq He) as (x' & s'' & E' & H). congruence.
Qed.

(** C34: As long as threads call the functions of a queue one after the other,
    with interrupt handlers at any time, no assertion fails, whatever happens
    next; a thread sleeps only while the queue is empty (to read) or full (to
    write), so that it is woken up by the next call of an interrupt handler
    that ends that; and nobody else is in a call then. *)
Theorem intq_single_waiter s : reach s →
  (∀ e, enabled e s → ∃ x s', run_event e s = Ok (x, s') ∧ reach s') ∧
  (∀ t o, pcs s !! t = Some (P_wait o) → blocked o (que s) = true ∧ waiter o (que s) = t ∧ pcs s = {[t := P_wait o]}).
Proof.
  intros Hr. destruct (reach_ok s Hr) as [Hd Hq]. split.
  - intros e He. destruct (run_event_ok e s Hd Hq He) as (x & s' & E & _). exists x, s'. split; [done|]. by eapply reach_step.
  - intros t o Hp. destruct Hq as [[]|t' _ [] He|t' c _ [] Hf|t' o' _ []]; rewrite st_pcs0 in Hp;
      rewrite ?lookup_empty, ?lookup_singleton_Some in Hp; naive_solver.
Qed.

Definition empty_queue : qsys := mk_qsys (mk_intq 1 NULL [] NULL NULL (replicate 64 0) 0 0) ∅.

Lemma intq_single_waiter_witness :
  let s := mk_qsys (mk_intq 0 7 [] NULL 7 (replicate 64 0) 0 0) {[7 := P_wait Getc]} in
  (∀ e, enabled e s → ∃ x s', run_event e s = Ok (x, s') ∧ reach s') ∧
  (∀ t o, pcs s !! t = Some (P_wait o) → blocked o (que s) = true ∧ waiter o (que s) = t ∧ pcs s = {[t := P_wait o]}).
Proof.
  apply intq_single_waiter. apply (reach_step empty_queue (E_call 7 Getc) None).
  - by eapply (reach_init empty_queue tt).
  - by split.
  - vm_compute. reflexivity.
Defined.

Lemma intq_fifo_witness :
  let es := [E_intr (Putc 65); E_call 7 Getc; E_call 7 Getc; E_intr (Putc 66); E_intr (Putc 67); E_resume 7] in
  ∃ log s', run_events es empty_queue = Ok (log, s') ∧
    data_ok (que s') ∧ len (contents (que s')) ≤ 63 ∧ contents (que empty_queue) ++ puts log = gots log ++ contents (que s').
Proof.
  eexists _, _. split; [vm_compute; reflexivity|].
  apply (intq_fifo [E_intr (Putc 65); E_call 7 Getc; E_call 7 Getc; E_intr (Putc 66); E_intr (Putc 67); E_resume 7] empty_queue); [by split|].
  vm_compute. reflexivity.
Defined.

(** Two threads that read from one queue can stop the kernel.  The second
    one sleeps in [lock_acquire] while the first one waits for a byte.  If two
    bytes arrive, the first thread reads one of them; the second thread then
    takes the lock without looking at the queue again, and the assertion in
    [wait] that the queue is empty fails. *)
Theorem intq_two_readers_panic :
  run_events [E_call 7 Getc; E_call 8 Getc; E_intr (Putc 65); E_intr (Putc 66); E_resume 7] empty_queue =
    Ok ([(Putc 65, 0); (Putc 66, 0); (Getc, 65)],
        mk_qsys (mk_intq 1 NULL [] NULL NULL (65 :: 66 :: replicate 62 0) 2 1) {[8 := P_relock Getc]}) ∧
  run_events [E_call 7 Getc; E_call 8 Getc; E_intr (Putc 65); E_intr (Putc 66); E_resume 7; E_resume 8] empty_queue = Err AssertFailed.
Proof. split; vm_compute; reflexivity. Qed.

(** ** The keyboard and the serial port *)

Record kbd := mk_kbd {
  left_shift : bool; right_shift : bool;
  left_alt : bool; right_alt : bool;
  left_ctrl : bool; right_ctrl : bool;
  caps_lock : bool;
  key_cnt : Z
}.

Inductive serial_mode := UNINIT | POLL | QUEUE.
#[export] Instance serial_mode_eq_dec : EqDecision serial_mode.
Proof. solve_decision. Defined.

(** The registers of the serial port that are written; [LS] and [MS] have the
    addresses of [THR] and [IER] and are selected by a bit of [LCR]. *)
Inductive reg := THR | IER | LS | MS | FCR | LCR | MCR.
#[export] Instance reg_eq_dec : EqDecision reg.
Proof. solve_decision. Defined.

(** The device: the bytes the keyboard delivers, the bytes the serial port has
    received, what the transmitter answers when asked whether it is empty (it
    is, after the answers of the list), and all that was written to the
    registers. *)
Record dev := mk_dev {
  keys : kbd;
  input : qsys;
  txq : qsys;
  mode : serial_mode;
  intr_on : bool;
  key_data : list Z;
  rx : list Z;
  thre : list bool;
  outs : list (reg * Z)
}.

Definition set_keys (x : kbd) (d : dev) : dev := mk_dev x (input d) (txq d) (mode d) (intr_on d) (key_data d) (rx d) (thre d) (outs d).
Definition set_input (x : qsys) (d : dev) : dev := mk_dev (keys d) x (txq d) (mode d) (intr_on d) (key_data d) (rx d) (thre d) (outs d).
Definition set_txq (x : qsys) (d : dev) : dev := mk_dev (keys d) (input d) x (mode d) (intr_on d) (key_data d) (rx d) (thre d) (outs d).
Definition set_mode (x : serial_mode) (d : dev) : dev := mk_dev (keys d) (input d) (txq d) x (intr_on d) (key_data d) (rx d) (thre d) (outs d).
Definition set_intr_on (x : bool) (d : dev) : dev := mk_dev (keys d) (input d) (txq d) (mode d) x (key_data d) (rx d) (thre d) (outs d).
Definition set_key_data (x : list Z) (d : dev) : dev := mk_dev (keys d) (input d) (txq d) (mode d) (intr_on d) x (rx d) (thre d) (outs d).
Definition set_rx (x : list Z) (d : dev) : dev := mk_dev (keys d) (input d) (txq d) (mode d) (intr_on d) (key_data d) x (thre d) (outs d).
Definition set_thre (x : list bool) (d : dev) : dev := mk_dev (keys d) (input d) (txq d) (mode d) (intr_on d) (key_data d) (rx d) x (outs d).
Definition outb (r : reg) (v : Z) : M dev unit :=
  modify (λ d, mk_dev (keys d) (input d) (txq d) (mode d) (intr_on d) (key_data d) (rx d) (thre d) (outs d ++ [(r, v)])).

Definition on_input {A} (m : M qsys A) : M dev A := λ d,
  match m (input d) with Ok (a, q) => Ok (a, set_input q d) | Err f => Err f end.
Definition on_txq {A} (m : M qsys A) : M dev A := λ d,
  match m (txq d) with Ok (a, q) => Ok (a, set_txq q d) | Err f => Err f end.

Definition intr_off (d : dev) : bool := negb (intr_on d).
Definition intr_disable : M dev bool := old ← gets intr_on; modify (set_intr_on false) ;; mret old.
Definition intr_set_level (level : bool) : M dev unit := modify (set_intr_on level).

Definition input_full (d : dev) : bool := intq_full (que (input d)).
Definition txq_empty (d : dev) : bool := intq_empty (que (txq d)).
Definition txq_full (d : dev) : bool := intq_full (que (txq d)).

(** *** [serial.c], the registers *)

Definition IER_RECV : Z := 1.
Definition IER_XMIT : Z := 2.
Definition LCR_N81 : Z := 3.
Definition LCR_DLAB : Z := 0x80.
Definition MCR_OUT2 : Z := 8.

Definition write_ier : M dev unit :=
  off ← gets intr_off; ASSERT off ;;
  e ← gets txq_empty; f ← gets input_full;
  outb IER (Z.lor (if negb e then IER_XMIT else 0) (if negb f then IER_RECV else 0)).

Definition serial_notify : M dev unit :=
  off ← gets intr_off; ASSERT off ;;
  m ← gets mode;
  if decide (m = QUEUE) then write_ier else mret tt.

Definition set_serial (bps : Z) : M dev unit :=
  let divisor := (1843200 / 16 / bps) mod 2 ^ 16 in
  ASSERT ((300 <=? bps) && (bps <=? 115200)) ;;
  outb LCR (Z.lor LCR_N81 LCR_DLAB) ;;
  outb LS (Z.land divisor 0xff) ;;
  outb MS (Z.shiftr divisor 8) ;;
  outb LCR LCR_N81.

Definition init_poll : M dev unit :=
  m ← gets mode; ASSERT (bool_decide (m = UNINIT)) ;;
  outb IER 0 ;;
  outb FCR 0 ;;
  set_serial 9600 ;;
  outb MCR MCR_OUT2 ;;
  on_txq intq_init ;;
  modify (set_mode POLL).

(** The loop reads the answers of the transmitter until one says that it is
    empty. *)
Fixpoint skip_busy (l : list bool) : list bool := match l with true :: l => l | false :: l => skip_busy l | [] => [] end.
Definition putc_poll (byte : Z) : M dev unit :=
  off ← gets intr_off; ASSERT off ;;
  modify (λ d, set_thre (skip_busy (thre d)) d) ;;
  outb THR byte.

(** *** [input.c] *)

Definition input_init : M dev unit := on_input intq_init.

Definition input_putc (key : Z) : M dev unit :=
  off ← gets intr_off; ASSERT off ;;
  f ← gets input_full; ASSERT (negb f) ;;
  on_input (intq_intr (Putc key)) ;;
  serial_notify.

(** What follows the call of [intq_getc] in the thread. *)
Definition input_got (key : option Z) (old_level : bool) : M dev (option Z) :=
  match key with
  | Some key => serial_notify ;; intr_set_level old_level ;; mret (Some key)
  | None => mret None
  end.
Definition input_getc (t : Z) : M dev (option Z) :=
  old_level ← intr_disable;
  key ← on_input (intq_loop t Getc);
  input_got key old_level.
Definition input_getc_resume (t : Z) (old_level : bool) : M dev (option Z) :=
  key ← on_input (intq_resume t);
  input_got key old_level.

(** *** [serial.c] *)

Definition serial_init_queue : M dev unit :=
  m ← gets mode;
  when (bool_decide (m = UNINIT)) init_poll ;;
  m ← gets mode; ASSERT (bool_decide (m = POLL)) ;;
  modify (set_mode QUEUE) ;;
  old_level ← intr_disable;
  write_ier ;;
  intr_set_level old_level.

Definition serial_put_done (r : option Z) (old_level : bool) : M dev bool :=
  match r with Some _ => write_ier ;; intr_set_level old_level ;; mret true | None => mret false end.

(** Whether the call has returned; otherwise the thread sleeps in
    [intq_putc]. *)
Definition serial_putc (t byte : Z) : M dev bool :=
  old_level ← intr_disable;
  m ← gets mode;
  if decide (m = QUEUE) then
    f ← gets txq_full;
    when (negb old_level && f) (b ← on_txq (intq_intr Getc); putc_poll b) ;;
    r ← on_txq (intq_loop t (Putc byte));
    serial_put_done r old_level
  else
    when (bool_decide (m = UNINIT)) init_poll ;;
    putc_poll byte ;;
    intr_set_level old_level ;;
    mret true.
Definition serial_putc_resume (t : Z) (old_level : bool) : M dev bool :=
  r ← on_txq (intq_resume t);
  serial_put_done r old_level.

Fixpoint flush_loop (fuel : nat) : M dev unit :=
  match fuel with
  | O => throw OutOfFuel
  | S fuel =>
      e ← gets txq_empty;
      if (e : bool) then mret tt else
      b ← on_txq (intq_intr Getc); putc_poll b ;;
      flush_loop fuel
  end.
(** A queue holds less than 64 bytes. *)
Definition serial_flush : M dev unit :=
  old_level ← intr_disable;
  flush_loop 64 ;;
  intr_set_level old_level.

Fixpoint receive_loop (fuel : nat) : M dev unit :=
  match fuel with
  | O => throw OutOfFuel
  | S fuel =>
      f ← gets input_full; l ← gets rx;
      match f, l with
      | false, b :: l => modify (set_rx l) ;; input_putc b ;; receive_loop fuel
      | _, _ => mret tt
      end
  end.
Fixpoint transmit_loop (fuel : nat) : M dev unit :=
  match fuel with
  | O => throw OutOfFuel
  | S fuel =>
      e ← gets txq_empty;
      if (e : bool) then mret tt else
      l ← gets thre;
      modify (set_thre (list.tail l)) ;;
      if default true (list.head l) then b ← on_txq (intq_intr Getc); outb THR b ;; transmit_loop fuel
      else mret tt
  end.
Definition serial_interrupt : M dev unit :=
  receive_loop 64 ;;
  transmit_loop 64 ;;
  write_ier.

(** *** [kbd.c] *)

Definition invariant_keymap : list (Z * list Z) :=
  [(0x01, [27]); (0x0e, [8]); (0x0f, 9 :: text "QWERTYUIOP"); (0x1c, [13]); (0x1e, text "ASDFGHJKL"); (0x2c, text "ZXCVBNM");
   (0x37, text "*"); (0x39, text " "); (0x53, [127])].
Definition unshifted_keymap : list (Z * list Z) :=
  [(0x02, text "1234567890-="); (0x1a, text "[]"); (0x27, text ";'`"); (0x2b, text "\"); (0x33, text ",./")].
Definition shifted_keymap : list (Z * list Z) :=
  [(0x02, text "!@#$%^&*()_+"); (0x1a, text "{}"); (0x27, [58; 34; 126]); (0x2b, text "|"); (0x33, text "<>?")].

Fixpoint map_key (k : list (Z * list Z)) (scancode : Z) : option Z :=
  match k with
  | [] => None
  | (first, chars) :: k =>
      if (first <=? scancode) && (scancode <? first + len chars) then chars !! Z.to_nat (scancode - first) else map_key k scancode
  end.

Definition tolower (c : Z) : Z := if (65 <=? c) && (c <=? 90) then c + 32 else c.

Definition inb_data : M dev Z := λ d,
  match key_data d with b :: l => Ok (b, set_key_data l d) | [] => Err BadAccess end.

(** The table of shift keys. *)
Definition set_shift_key (code : Z) (down : bool) (k : kbd) : kbd :=
  if code =? 0x2a then mk_kbd down (right_shift k) (left_alt k) (right_alt k) (left_ctrl k) (right_ctrl k) (caps_lock k) (key_cnt k)
  else if code =? 0x36 then mk_kbd (left_shift k) down (left_alt k) (right_alt k) (left_ctrl k) (right_ctrl k) (caps_lock k) (key_cnt k)
  else if code =? 0x38 then mk_kbd (left_shift k) (right_shift k) down (right_alt k) (left_ctrl k) (right_ctrl k) (caps_lock k) (key_cnt k)
  else if code =? 0xe038 then mk_kbd (left_shift k) (right_shift k) (left_alt k) down (left_ctrl k) (right_ctrl k) (caps_lock k) (key_cnt k)
  else if code =? 0x1d then mk_kbd (left_shift k) (right_shift k) (left_alt k) (right_alt k) down (right_ctrl k) (caps_lock k) (key_cnt k)
  else if code =? 0xe01d then mk_kbd (left_shift k) (right_shift k) (left_alt k) (right_alt k) (left_ctrl k) down (caps_lock k) (key_cnt k)
  else k.
Definition set_caps_lock (b : bool) (k : kbd) : kbd :=
  mk_kbd (left_shift k) (right_shift k) (left_alt k) (right_alt k) (left_ctrl k) (right_ctrl k) b (key_cnt k).
Definition count_key (k : kbd) : kbd :=
  mk_kbd (left_shift k) (right_shift k) (left_alt k) (right_alt k) (left_ctrl k) (right_ctrl k) (caps_lock k) (int64 (key_cnt k + 1)).

Definition key_char (shift : bool) (code : Z) : option Z :=
  match map_key invariant_keymap code with
  | Some c => Some c
  | None => if shift then map_key shifted_keymap code else map_key unshifted_keymap code
  end.

(** The character that is stored. *)
Definition modified_char (shift ctrl alt caps : bool) (c : Z) : Z :=
  let c := if ctrl && (0x40 <=? c) && (c <? 0x60) then wrap8 (c - 0x40) else if Bool.eqb shift caps then tolower c else c in
  if alt then wrap8 (c + 0x80) else c.

(** Whether the machine is rebooted, which ends everything. *)
Definition keyboard_interrupt : M dev bool :=
  k ← gets keys;
  let shift := left_shift k || right_shift k in
  let alt := left_alt k || right_alt k in
  let ctrl := left_ctrl k || right_ctrl k in
  code ← inb_data;
  code ← (if code =? 0xe0 then b ← inb_data; mret (Z.lor (Z.shiftl code 8) b) else mret code);
  let release := negb (Z.land code 0x80 =? 0) in
  let code := Z.land code (wrap32 (Z.lnot 0x80)) in
  if code =? 0x3a then
    when (negb release) (modify (set_keys (set_caps_lock (negb (caps_lock k)) k))) ;; mret false
  else
    match key_char shift code with
    | Some c =>
        if release then mret false
        else if (c =? 127) && ctrl && alt then mret true
        else
          full ← gets input_full;
          if (full : bool) then mret false
          else modify (set_keys (count_key k)) ;; input_putc (modified_char shift ctrl alt (caps_lock k) c) ;; mret false
    | None => modify (set_keys (set_shift_key code (negb release) k)) ;; mret false
    end.

(** ** What is sent and received *)

Definition sent (d : dev) : list Z := flat_map (λ x, if decide (x.1 = THR) then [x.2] else []) (outs d).
Definition last_ier (d : dev) : option Z := last (flat_map (λ x, if decide (x.1 = IER) then [x.2] else []) (outs d)).
(** The interrupts that the queues ask for. *)
Definition ier_value (d : dev) : Z :=
  Z.lor (if negb (txq_empty d) then IER_XMIT else 0) (if negb (input_full d) then IER_RECV else 0).
(** The bytes that are still to be sent. *)
Definition pending (d : dev) : list Z := if decide (mode d = QUEUE) then contents (que (txq d)) else [].

Definition queue_ok (s : qsys) : Prop := data_ok (que s) ∧ qok s.

Record dev_ok (d : dev) : Prop := {
  ok_input : queue_ok (input d);
  ok_buf : len (buf (que (txq d))) = 64;
  ok_uninit : mode d = UNINIT → pcs (txq d) = ∅;
  ok_poll : mode d = POLL → status (txq d) 1 NULL NULL NULL ∅ ∧ data_ok (que (txq d)) ∧ contents (que (txq d)) = [];
  ok_queue : mode d = QUEUE → queue_ok (txq d)
}.

Lemma queue_dev_ok d : queue_ok (input d) → queue_ok (txq d) → mode d = QUEUE → dev_ok d.
Proof. intros Hi Hq Em. split; [done|apply Hq|congruence|congruence|done]. Qed.

(** Interrupts of the serial port are enabled for what there is to do. *)
Definition ier_ok (d : dev) : Prop := mode d = QUEUE → last_ier d = Some (ier_value d).

Lemma intq_intr_ok o s : queue_ok s → blocked o (que s) = false →
  ∃ r s', intq_intr o s = Ok (r, s') ∧ queue_ok s' ∧ effect o r (contents (que s)) (contents (que s')).
Proof.
  intros [Hd Hq] Hb. destruct (finish_ok o s Hd Hq Hb) as (r & s' & E & Hq'). destruct (finish_effect o s r s' Hd Hb E) as [Hd' He].
  exists r, s'. split; [|done]. unfold intq_intr, mbind, M_bind, gets. rewrite Hb. cbn [negb ASSERT]. done.
Qed.

Lemma wp_tx_get (Q : Z → dev → Prop) d : queue_ok (txq d) → txq_empty d = false →
  (∀ b q, queue_ok q → contents (que (txq d)) = b :: contents (que q) → Q b (set_txq q d)) → wp (on_txq (intq_intr Getc)) Q d.
Proof.
  intros Hq He HQ. destruct (intq_intr_ok Getc (txq d) Hq He) as (b & q & E & Hq' & Hc). unfold wp, on_txq. rewrite E. by apply HQ.
Qed.

Lemma wp_tx_put t byte (Q : option Z → dev → Prop) d : queue_ok (txq d) → txq_full d = false →
  (∀ q, queue_ok q → contents (que q) = contents (que (txq d)) ++ [byte] → Q (Some 0) (set_txq q d)) → wp (on_txq (intq_loop t (Putc byte))) Q d.
Proof.
  intros [Hd Hq] Hf HQ. destruct (finish_ok (Putc byte) (txq d) Hd Hq Hf) as (r & q & E & Hq').
  destruct (finish_effect (Putc byte) _ _ _ Hd Hf E) as [Hd' He]. unfold wp, on_txq, intq_loop, mbind, M_bind, gets. cbn [blocked].
  unfold txq_full in Hf. rewrite Hf, E. assert (r = 0) as ->; [|by apply HQ].
  unfold finish, mbind, M_bind, gets in E. destruct (len _ <=? _); [done|]. destruct (on_que _ _) as [[[] ?]|]; [|done].
  destruct (signal _ _) as [[[] ?]|]; [|done]. by injection E.
Qed.

Lemma wp_input_intr key (Q : Z → dev → Prop) d : queue_ok (input d) → input_full d = false →
  (∀ q r, queue_ok q → contents (que q) = contents (que (input d)) ++ [key] → Q r (set_input q d)) → wp (on_input (intq_intr (Putc key))) Q d.
Proof.
  intros Hq He HQ. destruct (intq_intr_ok (Putc key) (input d) Hq He) as (b & q & E & Hq' & Hc). unfold wp, on_input. rewrite E. by apply HQ.
Qed.

(** The state with other contents of the registers. *)
Definition with_outs (l : list (reg * Z)) (d : dev) : dev :=
  mk_dev (keys d) (input d) (txq d) (mode d) (intr_on d) (key_data d) (rx d) (thre d) l.
Lemma wp_write_ier (Q : unit → dev → Prop) d : intr_on d = false → Q tt (with_outs (outs d ++ [(IER, ier_value d)]) d) → wp write_ier Q d.
Proof. intros Hi HQ. unfold write_ier. repeat wp_step; [unfold intr_off; by rewrite Hi|]. done. Qed.

Lemma wp_putc_poll byte (Q : unit → dev → Prop) d : intr_on d = false →
  Q tt (set_thre (skip_busy (thre d)) (with_outs (outs d ++ [(THR, byte)]) d)) → wp (putc_poll byte) Q d.
Proof. intros Hi HQ. unfold putc_poll. repeat wp_step; [unfold intr_off; by rewrite Hi|]. done. Qed.

(** [d'] differs from [d] in the registers and the answers of the transmitter;
    what was sent and what is pending is what was, and then [l]. *)
Record sends (l : list Z) (d d' : dev) : Prop := {
  sn_bytes : sent d' ++ pending d' = sent d ++ pending d ++ l;
  sn_input : input d' = input d;
  sn_rx : rx d' = rx d;
  sn_keys : keys d' = keys d;
  sn_level : intr_on d' = intr_on d
}.

Lemma pending_queue d : mode d = QUEUE → pending d = contents (que (txq d)).
Proof. intros E. unfold pending. by rewrite decide_True. Qed.
Lemma sent_snoc r v d : sent (with_outs (outs d ++ [(r, v)]) d) = sent d ++ (if decide (r = THR) then [v] else []).
Proof. unfold sent. cbn [with_outs outs]. rewrite flat_map_app. cbn. by rewrite app_nil_r. Qed.
Lemma last_ier_snoc v d : last_ier (with_outs (outs d ++ [(IER, v)]) d) = Some v.
Proof. unfold last_ier. cbn [with_outs outs]. rewrite flat_map_app. cbn [flat_map]. rewrite decide_True by done. apply last_snoc. Qed.

Lemma queue_nonempty s : queue_ok s → intq_full (que s) = true → intq_empty (que s) = false.
Proof. intros [Hd _] Hf. apply not_true_iff_false. intros He. by eapply not_both. Qed.

Definition init_writes : list (reg * Z) := [(IER, 0); (FCR, 0); (LCR, 0x83); (LS, 12); (MS, 0); (LCR, 3); (MCR, 8)].
Definition polled (d : dev) : dev :=
  set_mode POLL (set_txq (mk_qsys (mk_intq 1 NULL [] NULL NULL (buf (que (txq d))) 0 0) (pcs (txq d))) (with_outs (outs d ++ init_writes) d)).

Lemma wp_outb r v (Q : unit → dev → Prop) d : Q tt (with_outs (outs d ++ [(r, v)]) d) → wp (outb r v) Q d.
Proof. done. Qed.

Lemma wp_init_poll (Q : unit → dev → Prop) d : mode d = UNINIT → Q tt (polled d) → wp init_poll Q d.
Proof.
  intros Hm HQ. unfold init_poll. repeat wp_step; [by rewrite bool_decide_true|]. unfold set_serial.
  repeat first [ wp_step | apply wp_outb; cbv beta ]; [done|].
  unfold polled, init_writes in HQ. unfold wp, on_txq. cbn [intq_init on_que modify].
  cbn [with_outs outs txq que pcs set_txq]. rewrite <-!app_assoc. exact HQ.
Qed.

Lemma polled_ok d : dev_ok d → mode d = UNINIT → dev_ok (polled d) ∧ sent (polled d) = sent d.
Proof.
  intros [Hin Hbuf Hun Hp Hq] Em. split.
  - split; [done|done|done| |done]. intros _. cbn. split; [split; cbn; [done..|by apply Hun]|]. split; [by split|]. done.
  - unfold sent, polled. cbn [set_mode set_txq with_outs outs]. rewrite flat_map_app. cbn. by rewrite app_nil_r.
Qed.

(** Sending a byte directly. *)
Lemma poll_put byte d : dev_ok d → mode d = POLL → intr_on d = false →
  wp (putc_poll byte) (λ _ d', dev_ok d' ∧ mode d' = POLL ∧ sends [byte] d d') d.
Proof.
  intros Hok Em Hi. apply wp_putc_poll; [done|]. destruct Hok as [Hin Hbuf Hun Hp Hq]. split; [by split|]. split; [done|].
  split; try done. unfold sent, pending. cbn [set_thre with_outs outs mode]. rewrite Em, !decide_False by done. rewrite flat_map_app. cbn.
  by rewrite !app_nil_r.
Qed.

(** Bytes for the serial port are sent in order and none is lost, in every
    mode of the driver: after [serial_putc], what was sent and what is in the
    transmit queue is what it was and then the byte.  It returns at once,
    unless interrupts are on and the queue is full, and leaves the transmit
    interrupt enabled as long as there is something to send. *)
Theorem serial_putc_correct t byte d : dev_ok d → ier_ok d → (mode d = QUEUE → intr_on d = true → txq_full d = false) →
  ∃ d', serial_putc t byte d = Ok (true, d') ∧ dev_ok d' ∧ ier_ok d' ∧ sends [byte] d d' ∧ (mode d = QUEUE → mode d' = QUEUE).
Proof.
  intros Hok Hier Hroom.
  enough (wp (serial_putc t byte) (λ r d', r = true ∧ dev_ok d' ∧ ier_ok d' ∧ sends [byte] d d' ∧ (mode d = QUEUE → mode d' = QUEUE)) d) as H.
  { apply wp_Ok in H as (r & d' & E & -> & H). eauto. }
  unfold serial_putc, intr_disable. repeat wp_step. set (d0 := set_intr_on false d).
  assert (Hok0 : dev_ok d0) by (by destruct Hok). change (mode d) with (mode d0). change (intr_on d) with (intr_on d).
  destruct (mode d0) eqn:Em.
  - rewrite decide_False by done. unfold when. rewrite bool_decide_true by done. repeat wp_step. apply wp_init_poll; [done|]. cbv beta. repeat wp_step.
    destruct (polled_ok d0 Hok0 Em) as [Hok1 Hs1]. eapply wp_mono; [by apply poll_put|]. intros _ d1 (Hok2 & Em2 & [B1 B2 B3 B4 B5]). repeat wp_step.
    split; [done|]. split; [by destruct Hok2|]. split; [intros H; cbn in H; congruence|]. split; [|done].
    split; [|done..]. change (sent d1 ++ pending d1 = sent d ++ pending d ++ [byte]). rewrite B1, Hs1. unfold pending. change (mode d) with (mode d0).
    rewrite Em. done.
  - rewrite decide_False by done. unfold when. rewrite bool_decide_false by done. repeat wp_step.
    eapply wp_mono; [by apply poll_put|]. intros _ d1 (Hok2 & Em2 & [B1 B2 B3 B4 B5]). repeat wp_step.
    split; [done|]. split; [by destruct Hok2|]. split; [intros H; cbn in H; congruence|]. split; [|done]. by split.
  - rewrite decide_True by done. repeat wp_step.
    assert (Hput : ∀ d1, dev_ok d1 → mode d1 = QUEUE → intr_on d1 = false → txq_full d1 = false → sends [] d0 d1 →
      wp (r ← on_txq (intq_loop t (Putc byte)); serial_put_done r (intr_on d))
        (λ r d', r = true ∧ dev_ok d' ∧ ier_ok d' ∧ sends [byte] d d' ∧ (QUEUE = QUEUE → mode d' = QUEUE)) d1).
    { intros d1 Hok1 Em1 Hi1 Hf1 [B1 B2 B3 B4 B5]. wp_step. apply wp_tx_put; [by apply Hok1|done|]. intros q Hq Hc. cbn [serial_put_done]. wp_step.
      apply wp_write_ier; [done|]. repeat wp_step. split; [done|]. split; [|split; [|split; [|done]]].
      + apply queue_dev_ok; [apply Hok1|done|done].
      + intros _. exact (last_ier_snoc _ (set_txq q d1)).
      + split; [|done..]. rewrite (pending_queue d1), (pending_queue d0) in B1 by done. rewrite pending_queue, (pending_queue d) by done.
        cbn [set_intr_on with_outs set_txq txq]. rewrite Hc. change (sent (with_outs (outs d1 ++ [(IER, ier_value (set_txq q d1))]) d1) ++ contents (que (txq d1)) ++ [byte] = sent d0 ++ contents (que (txq d0)) ++ [byte]).
        rewrite sent_snoc. rewrite decide_False by done. rewrite !app_nil_r in *. by rewrite app_assoc, B1, <-app_assoc. }
    unfold when. destruct (negb (intr_on d) && txq_full d0) eqn:Ef.
    + apply andb_true_iff in Ef as [Hi Hf]. pose proof (ok_queue _ Hok0 Em) as Hq0. repeat wp_step. apply wp_tx_get; [done|by apply queue_nonempty|].
      intros b q Hq Hc. apply wp_putc_poll; [done|]. apply Hput; [|done|done| |].
      * apply queue_dev_ok; [apply Hok0|done|done].
      * change (intq_full (que q) = false). apply not_true_iff_false. intros H. destruct Hq as [Hd _]. apply (intq_full_spec _ Hd) in H.
        pose proof (length_contents (que (txq d0))) as Hl. rewrite Hc in Hl. cbn [length] in Hl.
        pose proof (Z.mod_pos_bound (head (que (txq d0)) - tail (que (txq d0))) 64). lia.
      * split; [|done..]. rewrite !pending_queue by done. cbn [set_thre with_outs set_txq txq]. rewrite Hc.
        change (sent (with_outs (outs d0 ++ [(THR, b)]) d0) ++ contents (que q) = sent d0 ++ (b :: contents (que q)) ++ []).
        rewrite sent_snoc, decide_True by done. by rewrite app_nil_r, <-app_assoc.
    + wp_step. apply Hput; [done|done|done| |split; [by rewrite !app_nil_r|done..]].
      apply andb_false_iff in Ef as [Ef|Ef]; [|done]. apply Hroom; [done|]. by destruct (intr_on d).
Qed.

(** ** The interrupt handler of the serial port *)

Lemma wp_input_putc key (Q : unit → dev → Prop) d : queue_ok (input d) → input_full d = false → intr_on d = false →
  (∀ q l, queue_ok q → contents (que q) = contents (que (input d)) ++ [key] →
     (mode d ≠ QUEUE → l = outs d) → (mode d = QUEUE → l = outs d ++ [(IER, ier_value (set_input q d))]) → Q tt (with_outs l (set_input q d))) →
  wp (input_putc key) Q d.
Proof.
  intros Hq Hf Hi HQ. unfold input_putc. repeat wp_step; [unfold intr_off; by rewrite Hi|by rewrite Hf|].
  apply wp_input_intr; [done|done|]. intros q r Hq' Hc. unfold serial_notify. repeat wp_step; [unfold intr_off; cbn; by rewrite Hi|].
  change (mode (set_input q d)) with (mode d). case_decide as Em.
  - apply wp_write_ier; [done|]. by apply HQ.
  - wp_step. by apply (HQ q (outs d)).
Qed.

(** What the handler keeps. *)
Record handled (d d' : dev) : Prop := {
  hd_mode : mode d' = QUEUE;
  hd_intr : intr_on d' = false;
  hd_input : queue_ok (input d');
  hd_txq : queue_ok (txq d');
  hd_keys : keys d' = keys d;
  hd_sent : sent d' ++ contents (que (txq d')) = sent d ++ contents (que (txq d));
  hd_received : contents (que (input d')) ++ rx d' = contents (que (input d)) ++ rx d
}.

Lemma handled_refl d : dev_ok d → mode d = QUEUE → intr_on d = false → handled d d.
Proof. intros Hok Em Hi. split; try done; [apply Hok|by apply Hok]. Qed.

Lemma receive_loop_ok d0 d fuel : handled d0 d → 63 - len (contents (que (input d))) < Z.of_nat fuel →
  wp (receive_loop fuel) (λ _ d', handled d0 d' ∧ (rx d' = [] ∨ input_full d' = true)) d.
Proof.
  revert d. induction fuel as [|fuel IH]; intros d Hh Hf; cbn [receive_loop].
  { destruct (hd_input _ _ Hh) as [Hd _]. pose proof (length_contents (que (input d))).
    pose proof (Z.mod_pos_bound (head (que (input d)) - tail (que (input d))) 64). lia. }
  repeat wp_step. destruct (input_full d) eqn:Ef; [wp_step; split; [done|by right]|].
  destruct (rx d) as [|b l] eqn:El; [wp_step; split; [done|by left]|]. repeat wp_step.
  destruct Hh as [Em Hi Hin Htx Hk Hs Hr].
  apply wp_input_putc; [done|done|done|]. intros q os Hq Hc _ Hos. specialize (Hos Em). cbv beta. apply IH.
  - split; try done.
    + rewrite <-Hs. subst os. change (sent (with_outs (outs d ++ [(IER, ier_value (set_input q (set_rx l d)))]) d) ++ contents (que (txq d)) = sent d ++ contents (que (txq d))).
      rewrite sent_snoc, decide_False by done. by rewrite app_nil_r.
    + change (contents (que q) ++ l = contents (que (input d0)) ++ rx d0). rewrite <-Hr, El, Hc. cbn [set_rx input]. by rewrite <-app_assoc.
  - change (63 - len (contents (que q)) < Z.of_nat fuel). rewrite Hc, length_app. cbn [set_rx input length]. lia.
Qed.

Lemma transmit_loop_ok d0 d fuel : handled d0 d → len (contents (que (txq d))) < Z.of_nat fuel →
  wp (transmit_loop fuel) (λ _ d', handled d0 d' ∧ input d' = input d ∧ rx d' = rx d) d.
Proof.
  revert d. induction fuel as [|fuel IH]; intros d Hh Hf; cbn [transmit_loop]; [lia|]. repeat wp_step.
  destruct (txq_empty d) eqn:Ee; [by wp_step|]. repeat wp_step.
  assert (Hh1 : handled d0 (set_thre (list.tail (thre d)) d)) by (by destruct Hh).
  destruct (default true (list.head (thre d))); [|by wp_step]. repeat wp_step. destruct Hh as [Em Hi Hin Htx Hk Hs Hr].
  apply wp_tx_get; [done|done|]. intros b q Hq Hc. cbn [set_thre txq] in Hc. repeat wp_step. apply wp_outb. cbv beta.
  eapply wp_mono; [apply IH|].
  - split; try done. rewrite <-Hs, Hc. change (sent (with_outs (outs d ++ [(THR, b)]) d) ++ contents (que q) = sent d ++ b :: contents (que q)).
    rewrite sent_snoc, decide_True by done. by rewrite <-app_assoc.
  - change (len (contents (que q)) < Z.of_nat fuel). rewrite Hc in Hf. cbn [length] in Hf. lia.
  - done.
Qed.

Lemma contents_bound q : len (contents q) ≤ 63.
Proof. rewrite length_contents. pose proof (Z.mod_pos_bound (head q - tail q) 64). lia. Qed.

(** The interrupt handler of the serial port ends and loses nothing: the
    bytes received go to the end of the input buffer in order, until none is
    left or the buffer is full, and bytes go from the front of the transmit
    queue to the transmitter; afterwards exactly the interrupts that have
    something to do are enabled. *)
Theorem serial_interrupt_correct d : dev_ok d → mode d = QUEUE → intr_on d = false →
  ∃ d', serial_interrupt d = Ok (tt, d') ∧ dev_ok d' ∧ ier_ok d' ∧ mode d' = QUEUE ∧
    sent d' ++ contents (que (txq d')) = sent d ++ contents (que (txq d)) ∧
    contents (que (input d')) ++ rx d' = contents (que (input d)) ++ rx d ∧ (rx d' = [] ∨ input_full d' = true).
Proof.
  intros Hok Em Hi.
  enough (wp serial_interrupt (λ _ d', dev_ok d' ∧ ier_ok d' ∧ mode d' = QUEUE ∧ sent d' ++ contents (que (txq d')) = sent d ++ contents (que (txq d)) ∧
    contents (que (input d')) ++ rx d' = contents (que (input d)) ++ rx d ∧ (rx d' = [] ∨ input_full d' = true)) d) as H.
  { apply wp_Ok in H as ([] & d' & E & H). eauto. }
  unfold serial_interrupt. wp_step. eapply wp_mono; [apply (receive_loop_ok d)|].
  { by apply handled_refl. } { pose proof (contents_bound (que (input d))). lia. }
  intros _ d1 [H1 Hrx]. cbv beta. wp_step. eapply wp_mono; [apply (transmit_loop_ok d); [done|]|].
  { pose proof (contents_bound (que (txq d1))). lia. }
  intros _ d2 (H2 & Ein & Erx). cbv beta. destruct H2 as [Em2 Hi2 Hin2 Htx2 Hk2 Hs2 Hr2]. apply wp_write_ier; [done|].
  split; [by apply queue_dev_ok|]. split; [intros _; apply last_ier_snoc|]. split; [done|]. split; [|split; [done|]].
  - rewrite sent_snoc, decide_False by done. by rewrite app_nil_r.
  - unfold input_full in *. cbn [with_outs rx input]. by rewrite Ein, Erx.
Qed.

Definition idle_kbd : kbd := mk_kbd false false false false false false false 0.
Definition example_dev : dev :=
  mk_dev idle_kbd empty_queue (mk_qsys (mk_intq 1 NULL [] NULL NULL (replicate 64 88) 10 11) ∅) QUEUE false [] [65; 66] [true; false] [(IER, 3)].

Lemma example_dev_ok : dev_ok example_dev ∧ ier_ok example_dev.
Proof.
  split; [|done]. apply queue_dev_ok; [|split; [by split|by apply qok_idle]|done]. split; [by split|by apply qok_idle].
Qed.

Lemma serial_putc_correct_witness : txq_full example_dev = true ∧ ∃ d', serial_putc 7 89 example_dev = Ok (true, d') ∧ dev_ok d' ∧ ier_ok d' ∧
  sends [89] example_dev d' ∧ (mode example_dev = QUEUE → mode d' = QUEUE).
Proof.
  split; [reflexivity|]. apply (serial_putc_correct 7 89 example_dev); [apply example_dev_ok|apply example_dev_ok|done].
Defined.

Lemma serial_interrupt_correct_witness : ∃ d', serial_interrupt example_dev = Ok (tt, d') ∧ dev_ok d' ∧ ier_ok d' ∧ mode d' = QUEUE ∧
  sent d' ++ contents (que (txq d')) = sent example_dev ++ contents (que (txq example_dev)) ∧
  contents (que (input d')) ++ rx d' = contents (que (input example_dev)) ++ rx example_dev ∧ (rx d' = [] ∨ input_full d' = true).
Proof. apply (serial_interrupt_correct example_dev); [apply example_dev_ok|done|done]. Defined.

(** ** Keys *)

(** The scan codes of the letters. *)
Definition letter_code (c : Z) : Z := nth (Z.to_nat (c - 65)) [30; 48; 46; 32; 18; 33; 34; 35; 23; 36; 37; 38; 50; 49; 24; 25; 16; 19; 31; 20; 22; 47; 17; 45; 21; 44] 0.

Lemma letter_char c shift : 65 ≤ c ≤ 90 → key_char shift (letter_code c) = Some c ∧ 0 < letter_code c < 0x3a.
Proof.
  intros Hc. assert (Hin : c ∈ seqZ 65 26) by (apply elem_of_seqZ; lia). clear Hc. revert c Hin. apply Forall_forall.
  destruct shift; repeat (apply Forall_cons; split; [done|]); apply Forall_nil_2.
Qed.

(** The character for a letter key. *)
Definition typed (k : kbd) (c : Z) : Z :=
  let upper := xorb (left_shift k || right_shift k) (caps_lock k) in
  (if left_ctrl k || right_ctrl k then c - 64 else if upper then c else c + 32) + (if left_alt k || right_alt k then 128 else 0).

Lemma modified_typed k c : 65 ≤ c ≤ 90 →
  modified_char (left_shift k || right_shift k) (left_ctrl k || right_ctrl k) (left_alt k || right_alt k) (caps_lock k) c = typed k c.
Proof.
  intros Hc. unfold modified_char, typed, tolower. rewrite (proj2 (Z.leb_le 0x40 c)), (proj2 (Z.ltb_lt c 0x60)) by lia.
  rewrite (proj2 (Z.leb_le 65 c)), (proj2 (Z.leb_le c 90)) by lia. rewrite !andb_true_r. cbn [andb].
  destruct (left_shift k || right_shift k), (caps_lock k), (left_ctrl k || right_ctrl k), (left_alt k || right_alt k); cbn [Bool.eqb xorb];
    rewrite ?(wrap8_small (c - 64)), ?wrap8_small by lia; lia.
Qed.

(** Pressing the key of a letter puts one character at the end of the input
    buffer if there is room, and otherwise changes nothing: with Ctrl the
    control character, else the capital letter if exactly one of Shift and
    Caps Lock is on, else the small letter; Alt sets the high bit. *)
Theorem keyboard_letter c l d : 65 ≤ c ≤ 90 → dev_ok d → intr_on d = false → key_data d = letter_code c :: l →
  ∃ d', keyboard_interrupt d = Ok (false, d') ∧ key_data d' = l ∧
    (if input_full d then d' = set_key_data l d
     else contents (que (input d')) = contents (que (input d)) ++ [typed (keys d) c] ∧ queue_ok (input d') ∧ keys d' = count_key (keys d)).
Proof.
  intros Hc Hok Hi Hl.
  enough (wp keyboard_interrupt (λ r d', r = false ∧ key_data d' = l ∧
    (if input_full d then d' = set_key_data l d
     else contents (que (input d')) = contents (que (input d)) ++ [typed (keys d) c] ∧ queue_ok (input d') ∧ keys d' = count_key (keys d))) d) as H.
  { apply wp_Ok in H as (r & d' & E & -> & H). eauto. }
  destruct (letter_char c (left_shift (keys d) || right_shift (keys d)) Hc) as [Ech Hcode].
  assert (Hbits : Z.land (letter_code c) 0x80 = 0 ∧ Z.land (letter_code c) (wrap32 (Z.lnot 0x80)) = letter_code c).
  { assert (Hx : ∀ x, x ∈ seqZ 1 57 → Z.land x 0x80 = 0 ∧ Z.land x (wrap32 (Z.lnot 0x80)) = x).
    { apply Forall_forall. repeat (apply Forall_cons; split; [done|]). apply Forall_nil_2. }
    apply Hx, elem_of_seqZ. lia. }
  destruct Hbits as [Hb1 Hb2]. unfold keyboard_interrupt. repeat wp_step. unfold inb_data at 1, wp. rewrite Hl. cbv beta iota.
  rewrite (proj2 (Z.eqb_neq (letter_code c) 0xe0)) by lia. fold (@wp dev bool).
  unfold mbind, M_bind, mret, M_ret. rewrite Hb1, Hb2. cbn [Z.eqb negb]. rewrite (proj2 (Z.eqb_neq (letter_code c) 0x3a)) by lia. rewrite Ech.
  rewrite (proj2 (Z.eqb_neq c 127)) by lia. cbn [andb]. unfold gets. change (input_full (set_key_data l d)) with (input_full d).
  destruct (input_full d) eqn:Ef; [done|]. unfold modify.
  pose proof (wp_input_putc (modified_char (left_shift (keys d) || right_shift (keys d)) (left_ctrl (keys d) || right_ctrl (keys d)) (left_alt (keys d) || right_alt (keys d)) (caps_lock (keys d)) c)
    (λ _ d', key_data d' = l ∧ contents (que (input d')) = contents (que (input d)) ++ [typed (keys d) c] ∧ queue_ok (input d') ∧ keys d' = count_key (keys d))
    (set_keys (count_key (keys d)) (set_key_data l d))) as H.
  unfold wp in H. destruct (input_putc _ _) as [[[] d1]|]; [|exfalso; apply H; [apply Hok|done|done|]]; [split; [done|]; apply H; [apply Hok|done|done|]|].
  all: intros q os Hq Hcq _ _; split; [done|]; split; [|done]; cbn [with_outs set_input input] in *; rewrite Hcq; cbn [set_keys set_key_data input]; do 2 f_equal.
  all: by apply modified_typed.
Qed.

Lemma keyboard_letter_witness :
  let d := set_key_data [30] (set_keys (mk_kbd true false false false false false false 5) example_dev) in
  ∃ d', keyboard_interrupt d = Ok (false, d') ∧ key_data d' = [] ∧
    (if input_full d then d' = set_key_data [] d
     else contents (que (input d')) = contents (que (input d)) ++ [typed (keys d) 65] ∧ queue_ok (input d') ∧ keys d' = count_key (keys d)).
Proof.
  apply (keyboard_letter 65 []); [done| |reflexivity|reflexivity].
  apply queue_dev_ok; [|split; [by split|by apply qok_idle]|done]. split; [by split|by apply qok_idle].
Defined.

(** A whole word typed with Shift, release codes included, and Ctrl-C. *)
Example keyboard_example :
  let codes := [42; 35; 163; 170; 23; 151; 29; 46; 174; 157] in
  let d := set_key_data codes example_dev in
  match for_loop 10 0 (λ _, keyboard_interrupt ;; mret tt) d with
  | Ok (_, d') => contents (que (input d')) = [72; 105; 3] ∧ keys d' = mk_kbd false false false false false false false 3
  | Err _ => False
  end.
Proof. vm_compute. done. Qed.
