(* ===== verification/Syscall.v ===== *)
(** * System calls ([userprog/syscall.c], [userprog/exception.c])

    The handler of system calls for the running process: arguments are fetched
    from user memory through the page directory, checked, and the call is
    carried out on the file system, the console or the heap.  A page fault
    that kernel code takes on a user address ends the process.

    The state joins the process ([proc]) with the fields [name], [open_file]
    and [in_syscall] of its thread, the console, and whether the thread holds
    the console lock.  A call either returns or ends the process: [Exits] is
    the call of [thread_exit], and the state is the one in which it is called;
    what the exit frees is not part of this file.  Reading or writing a user buffer inside the file system
    is done on the part of the buffer that can be accessed; code that goes
    beyond it is stopped with [BadAccess], where the kernel would end the
    process in the middle of a disk operation. *)
From Stdlib Require Import Strings.String.
From S2P Require Import Prelude Bytes Bitmap Vaddr Palloc Pagedir Sbrk FsState Inode FreeMap Directory Process Stdio.
#[local] Open Scope Z_scope.

Record sys := mk_sys {
  prc : proc;
  open_file : Z;
  in_syscall : bool;
  con : console;
  console_held : bool;
  thread_name : list Z
}.

Definition set_prc (x : proc) (s : sys) : sys := mk_sys x (open_file s) (in_syscall s) (con s) (console_held s) (thread_name s).
Definition set_open_file (x : Z) (s : sys) : sys := mk_sys (prc s) x (in_syscall s) (con s) (console_held s) (thread_name s).
Definition set_in_syscall (x : bool) (s : sys) : sys := mk_sys (prc s) (open_file s) x (con s) (console_held s) (thread_name s).
Definition set_con (x : console) (s : sys) : sys := mk_sys (prc s) (open_file s) (in_syscall s) x (console_held s) (thread_name s).
Definition set_console_held (x : bool) (s : sys) : sys := mk_sys (prc s) (open_file s) (in_syscall s) (con s) x (thread_name s).
Definition kern_of (s : sys) : kernel := kern (prc s).
Definition set_kern_of (k : kernel) (s : sys) : sys := set_prc (set_kern k (prc s)) s.

(** ** Code that may end the process *)

Inductive outcome (A : Type) := Returns (a : A) | Exits (status : Z).
Arguments Returns {A} a.
Arguments Exits {A} status.

Definition K (A : Type) : Type := M sys (outcome A).
Definition kret {A} (a : A) : K A := mret (Returns a).
Definition kbind {A B} (m : K A) (k : A → K B) : K B := λ s,
  match m s with
  | Ok (Returns a, s') => k a s'
  | Ok (Exits n, s') => Ok (Exits n, s')
  | Err f => Err f
  end.
#[local] Notation "x ⇐ m ; k" := (kbind m (λ x, k)) (at level 20, m at level 100, k at level 200, right associativity).
#[local] Notation "m ⨾ k" := (kbind m (λ _, k)) (at level 100, k at level 200, right associativity).

Definition kget {A} (f : sys → A) : K A := λ s, Ok (Returns (f s), s).
Definition kmodify (f : sys → sys) : K unit := λ s, Ok (Returns tt, f s).
Definition on_proc {A} (m : M proc A) : K A := λ s,
  match m (prc s) with Ok (a, p) => Ok (Returns a, set_prc p s) | Err f => Err f end.
Definition on_con {A} (m : M console A) : K A := λ s,
  match m (con s) with Ok (a, c) => Ok (Returns a, set_con c s) | Err f => Err f end.

(** ** Ending the process *)

Definition syscall_exit {A} (status : Z) : K A :=
  n ⇐ kget thread_name;
  on_con (printf (text "%s: exit(%d)
") [Str (Some n); Word (wrap32 status)]) ⨾
  (λ s, Ok (Exits status, s)).

(** A page fault in the kernel or in user mode. *)
Definition page_fault {A} (user : bool) (fault_addr : Z) : K A :=
  b ⇐ kget in_syscall;
  if negb user && b && is_user_vaddr fault_addr then syscall_exit (-1)
  else if user then syscall_exit (-1)
  else throw Panicked.

(** ** User memory *)

(** The kernel address of a byte of user memory, if it may be accessed. *)
Definition access (write : bool) (va : Z) (s : kernel) : option Z :=
  let pte := pte_of s (pagedir s) va in
  if (Z.land pte PTE_P =? 0) || (write && (Z.land pte PTE_W =? 0)) then None
  else Some (Z.land pte PTE_ADDR + PHYS_BASE + pg_ofs va).

Definition byte_at (a : Z) (s : kernel) : option Z :=
  mem s !! pg_no a ≫= λ page : list Z, words_to_bytes page !! Z.to_nat (pg_ofs a).
Definition set_byte (a b : Z) (s : kernel) : kernel :=
  set_mem (alter (λ page, bytes_to_words (<[Z.to_nat (pg_ofs a) := b]> (words_to_bytes page))) (pg_no a) (mem s)) s.

(** The byte at an address as the kernel sees it: a user address goes through
    the page directory. *)
Definition get_byte (va : Z) : K Z := λ s,
  if is_user_vaddr va then
    match access false va (kern_of s) with
    | Some a => match byte_at a (kern_of s) with Some b => Ok (Returns b, s) | None => Err BadAccess end
    | None => page_fault false va s
    end
  else match byte_at va (kern_of s) with Some b => Ok (Returns b, s) | None => Err BadAccess end.

Definition get_word (va : Z) : K Z :=
  b0 ⇐ get_byte va; b1 ⇐ get_byte (wrap32 (va + 1)); b2 ⇐ get_byte (wrap32 (va + 2)); b3 ⇐ get_byte (wrap32 (va + 3));
  kret (of_le32 [b0; b1; b2; b3]).

(** The bytes from [va] on, up to [n] of them, that may be accessed. *)
Fixpoint user_bytes (write : bool) (n : nat) (va : Z) (s : kernel) : list Z :=
  match n with
  | O => []
  | S n => match access write va s ≫= λ a, byte_at a s with
           | Some b => b :: user_bytes write n (va + 1) s
           | None => []
           end
  end.
Fixpoint put_user_bytes (l : list Z) (va : Z) (s : kernel) : kernel :=
  match l with
  | [] => s
  | b :: l => put_user_bytes l (va + 1) (match access true va s with Some a => set_byte a b s | None => s end)
  end.

(** ** Checks *)

Definition validate_buffer_in_user_region (buffer length : Z) : K unit :=
  let delta := wrap32 (PHYS_BASE - buffer) in
  if negb (is_user_vaddr buffer) || (delta <? length) then syscall_exit (-1) else kret tt.

(** At most [p] rounds of [f]. *)
Fixpoint iter_until {St R} (p : positive) (f : St → St + R) (x : St) : St + R :=
  match p with
  | xH => f x
  | xO p => match iter_until p f x with inl y => iter_until p f y | inr r => inr r end
  | xI p => match f x with
            | inl y => match iter_until p f y with inl z => iter_until p f z | inr r => inr r end
            | inr r => inr r
            end
  end.

(** One round of the loop of [strnlen]: the length, or the result of the read
    that did not return a byte. *)
Definition strnlen_round (s : sys) (string maxlen length : Z) : Z + (Z + result (outcome Z * sys)) :=
  match get_byte (wrap32 (string + length)) s with
  | Ok (Returns b, _) => if negb (b =? 0) && (length <? maxlen) then inl (length + 1) else inr (inl length)
  | r => inr (inr r)
  end.
(** The loop looks at one byte more than [maxlen]. *)
Definition user_strnlen (string maxlen : Z) : K Z := λ s,
  match iter_until (Z.to_pos (maxlen + 1)) (strnlen_round s string maxlen) 0 with
  | inr (inl n) => Ok (Returns n, s)
  | inr (inr r) => r
  | inl _ => Err OutOfFuel
  end.

(** The length of the string, where the code only checks it. *)
Definition validate_string_in_user_region (string : Z) : K Z :=
  let delta := wrap32 (PHYS_BASE - string) in
  if negb (is_user_vaddr string) then syscall_exit (-1) else
  n ⇐ user_strnlen string delta;
  if n =? delta then syscall_exit (-1) else kret n.

(** ** The calls *)

Definition STDOUT_FILENO : Z := 1.

(** [filename] and its length. *)
Definition syscall_open (filename n : Z) : K Z :=
  f ⇐ kget open_file;
  if negb (f =? NULL) then kret (-1) else
  name ⇐ kget (λ s, user_bytes false (Z.to_nat n) filename (kern_of s));
  f ⇐ on_proc (on_fsys (filesys_open name));
  kmodify (set_open_file f) ⨾
  if f =? NULL then kret (-1) else kret 2.

(** [putbuf] on user memory, with the console lock. *)
Fixpoint putbuf_loop (n : nat) (buffer : Z) : K unit :=
  match n with
  | O => kret tt
  | S n => b ⇐ get_byte buffer; on_con (putchar_have_lock b) ⨾ putbuf_loop n (wrap32 (buffer + 1))
  end.
Definition user_putbuf (buffer n : Z) : K unit :=
  kmodify (set_console_held true) ⨾
  putbuf_loop (Z.to_nat n) buffer ⨾
  kmodify (set_console_held false).

Definition syscall_write (fd buffer size : Z) : K Z :=
  f ⇐ kget open_file;
  if fd =? STDOUT_FILENO then user_putbuf buffer size ⨾ kret (int32 size)
  else if negb (fd =? 2) || (f =? NULL) then kret (-1)
  else
    data ⇐ kget (λ s, user_bytes false (Z.to_nat size) buffer (kern_of s));
    on_proc (on_fsys (file_write f data (int32 size))).

Definition syscall_read (fd buffer size : Z) : K Z :=
  f ⇐ kget open_file;
  if negb (fd =? 2) || (f =? NULL) then kret (-1)
  else
    old ⇐ kget (λ s, user_bytes true (Z.to_nat size) buffer (kern_of s));
    r ⇐ on_proc (on_fsys (file_read f old (int32 size)));
    kmodify (λ s, set_kern_of (put_user_bytes (take (Z.to_nat r.1) r.2) buffer (kern_of s)) s) ⨾
    kret r.1.

Definition syscall_close (fd : Z) : K unit :=
  f ⇐ kget open_file;
  if (fd =? 2) && negb (f =? NULL) then
    on_proc (on_fsys (file_close f)) ⨾
    kmodify (set_open_file NULL)
  else kret tt.

Definition SYS_EXIT : Z := 1.
Definition SYS_OPEN : Z := 6.
Definition SYS_READ : Z := 8.
Definition SYS_WRITE : Z := 9.
Definition SYS_CLOSE : Z := 12.
Definition SYS_SBRK : Z := 14.

(** The new value of the register [eax] for the stack pointer [esp]. *)
Definition syscall_handler (esp eax : Z) : K Z :=
  let arg i := wrap32 (esp + 4 * i) in
  kmodify (set_in_syscall true) ⨾
  validate_buffer_in_user_region esp 4 ⨾
  n ⇐ get_word esp;
  r ⇐ (if n =? SYS_EXIT then
         validate_buffer_in_user_region (arg 1) 4 ⨾
         status ⇐ get_word (arg 1);
         syscall_exit (int32 status)
       else if n =? SYS_OPEN then
         validate_buffer_in_user_region (arg 1) 4 ⨾
         name ⇐ get_word (arg 1);
         l ⇐ validate_string_in_user_region name;
         r ⇐ syscall_open name l;
         kret (wrap32 r)
       else if n =? SYS_WRITE then
         validate_buffer_in_user_region (arg 1) 12 ⨾
         buffer ⇐ get_word (arg 2); size ⇐ get_word (arg 3);
         validate_buffer_in_user_region buffer size ⨾
         fd ⇐ get_word (arg 1);
         r ⇐ syscall_write (int32 fd) buffer size;
         kret (wrap32 r)
       else if n =? SYS_READ then
         validate_buffer_in_user_region (arg 1) 12 ⨾
         buffer ⇐ get_word (arg 2); size ⇐ get_word (arg 3);
         validate_buffer_in_user_region buffer size ⨾
         fd ⇐ get_word (arg 1);
         r ⇐ syscall_read (int32 fd) buffer size;
         kret (wrap32 r)
       else if n =? SYS_CLOSE then
         validate_buffer_in_user_region (arg 1) 4 ⨾
         fd ⇐ get_word (arg 1);
         syscall_close (int32 fd) ⨾
         kret eax
       else if n =? SYS_SBRK then
         validate_buffer_in_user_region (arg 1) 4 ⨾
         increment ⇐ get_word (arg 1);
         on_proc (on_kern (syscall_sbrk (int32 increment)))
       else
         on_con (printf (text "Unimplemented system call: %d
") [Word n]) ⨾
         kret eax);
  kmodify (set_in_syscall false) ⨾
  kret r.

(** ** User memory as the process sees it *)

(** The mapped pages are different pages of the user pool. *)
Record user_ok (s : kernel) : Prop := {
  uo_pd : pagedir_ok s (pagedir s);
  uo_frame va a : user_addr va → access false va s = Some a →
    ∃ i, 0 ≤ i < bit_cnt (used_map (user_pool s)) ∧ a = pool_page (user_pool s) i + pg_ofs va;
  uo_inj va va' a : user_addr va → user_addr va' → access false va s = Some a → access false va' s = Some a → va = va'
}.

Definition user_byte (s : kernel) (va : Z) : option Z := access false va s ≫= λ a, byte_at a s.

Lemma access_write va s a : access true va s = Some a → access false va s = Some a.
Proof. unfold access. cbn [andb]. rewrite orb_false_r. destruct (Z.land _ PTE_P =? 0); [done|]. cbn [orb]. by destruct (Z.land _ PTE_W =? 0). Qed.

Lemma access_any w va s a : access w va s = Some a → access false va s = Some a.
Proof. destruct w; [apply access_write|done]. Qed.

(** The page of a mapped address. *)
Lemma access_page s w va a : user_ok s → user_addr va → access w va s = Some a →
  ∃ i page, 0 ≤ i < bit_cnt (used_map (user_pool s)) ∧ a = pool_page (user_pool s) i + pg_ofs va ∧
    pg_no a = pg_no (pool_page (user_pool s) i) ∧ pg_ofs a = pg_ofs va ∧ 0 ≤ a < 2 ^ 32 ∧
    mem s !! pg_no a = Some page ∧ length page = page_words.
Proof.
  intros Hu Hva Ha%access_any. destruct (uo_frame _ Hu va a Hva Ha) as (i & Hi & ->). pose proof (pdo_kernel _ _ (uo_pd _ Hu)) as Hk.
  pose proof (kok_pool _ Hk true) as Hp. pose proof (kok_ram _ Hk). destruct (pool_page_kernel _ _ i Hp ltac:(lia) Hi) as [[Hr Hal] Hram].
  cbn [get_pool] in *. assert (Ho : 0 ≤ pg_ofs va < 4096) by (rewrite pg_ofs_mod; apply Z.mod_pos_bound; lia).
  assert (En : pg_no (pool_page (user_pool s) i + pg_ofs va) = pg_no (pool_page (user_pool s) i)) by (rewrite !pg_no_div; unfold aligned in Hal; div_lia).
  assert (Eo : pg_ofs (pool_page (user_pool s) i + pg_ofs va) = pg_ofs va) by (rewrite (pg_ofs_mod (_ + _)); unfold aligned in Hal; div_lia).
  rewrite En, Eo. destruct (kok_mem _ Hk _ Hram) as (page & Hm & Hlen). exists i, page. rewrite PHYS_BASE_eq in Hr. unfold aligned in Hal.
  repeat split; try done; try lia. div_lia.
Qed.

Lemma length_page_bytes page : length page = page_words → length (words_to_bytes page) = 4096%nat.
Proof. intros E. by rewrite words_to_bytes_length, E. Qed.

Lemma access_byte s w va a : user_ok s → user_addr va → access w va s = Some a → ∃ b, byte_at a s = Some b ∧ is_byte b.
Proof.
  intros Hu Hva Ha. destruct (access_page s w va a Hu Hva Ha) as (i & page & _ & _ & _ & _ & _ & Hm & Hlen). unfold byte_at. rewrite Hm. cbn.
  assert (Ho : 0 ≤ pg_ofs a < 4096) by (rewrite pg_ofs_mod; apply Z.mod_pos_bound; lia).
  destruct (lookup_lt_is_Some_2 (words_to_bytes page) (Z.to_nat (pg_ofs a))) as [b Hb]; [rewrite length_page_bytes by done; lia|].
  exists b. split; [done|]. pose proof (words_to_bytes_bytes page) as H. unfold bytes in H. rewrite Forall_forall in H. apply H. by eapply list_elem_of_lookup_2.
Qed.

(** ** Writing a byte *)

Lemma byte_at_set a b s page a' : mem s !! pg_no a = Some page → length page = page_words → is_byte b → 
  byte_at a' (set_byte a b s) = if decide (a' = a) then Some b else byte_at a' s.
Proof.
  intros Hm Hlen Hb. unfold byte_at, set_byte. cbn [set_mem mem]. rewrite pg_no_div, pg_ofs_mod. rewrite (pg_no_div a), (pg_ofs_mod a) in *.
  assert (Ho : 0 ≤ a mod 4096 < 4096) by (apply Z.mod_pos_bound; lia). assert (Ho' : 0 ≤ a' mod 4096 < 4096) by (apply Z.mod_pos_bound; lia).
  destruct (decide (a' / 4096 = a / 4096)) as [E|Hne].
  - rewrite E, lookup_alter_eq, Hm. cbn [fmap option_fmap option_map mbind option_bind].
    destruct (words_to_bytes_to_words 1024 (<[Z.to_nat (a mod 4096) := b]> (words_to_bytes page))) as [Ew _].
    { rewrite length_insert, length_page_bytes by done. done. } { apply Forall_insert; [apply words_to_bytes_bytes|done]. }
    rewrite Ew. case_decide as Ea.
    + rewrite Ea. rewrite list_lookup_insert_eq; [done|]. rewrite length_page_bytes by done. lia.
    + rewrite list_lookup_insert_ne; [done|]. intros En. apply Ea. div_lia.
  - rewrite lookup_alter_ne by congruence. rewrite decide_False; [done|]. intros ->. done.
Qed.

Lemma set_byte_ok s w va a b : user_ok s → user_addr va → access w va s = Some a → is_byte b →
  user_ok (set_byte a b s) ∧ (∀ w' va', user_addr va' → access w' va' (set_byte a b s) = access w' va' s).
Proof.
  intros Hu Hva Ha Hb. destruct (access_page s w va a Hu Hva Ha) as (i & page & Hi & Ea & En & Eo & _ & Hm & Hlen).
  pose proof (uo_pd _ Hu) as Hok. pose proof (pdo_kernel _ _ Hok) as Hk. set (s1 := set_byte a b s).
  assert (Hk1 : kernel_ok s1).
  { apply kernel_ok_set_mem; [done|]. intros p pg Hp Hl. destruct (decide (p = pg_no a)) as [->|Hne].
    - rewrite lookup_alter_eq, Hp. eexists. split; [done|].
      apply (words_to_bytes_to_words 1024); [rewrite length_insert, length_page_bytes by done; done|]. apply Forall_insert; [apply words_to_bytes_bytes|done].
    - rewrite lookup_alter_ne by done. eauto. }
  assert (Hw : ∀ p k, used_page s p → 0 ≤ k < 1024 → word s1 (p + 4 * k) = word s (p + 4 * k)).
  { intros p k Hp Hk'. unfold word. destruct (used_page_nonnull s p Hk Hp) as [_ Hal]. destruct (word_addr p k Hal Hk') as [-> _].
    unfold s1, set_byte. cbn [set_mem mem]. rewrite lookup_alter_ne; [done|]. rewrite En. destruct Hp as (j & Hj & -> & _).
    pose proof (pools_apart s j i Hk Hj ltac:(lia)). lia. }
  assert (Hpte : ∀ va', user_addr va' → pte_of s1 (pagedir s1) va' = pte_of s (pagedir s) va') by (intros; by apply (transfer_pte s)).
  assert (Hac : ∀ w' va', user_addr va' → access w' va' s1 = access w' va' s) by (intros w' va' Hva'; unfold access; by rewrite Hpte).
  split; [|done]. split.
  - by apply (transfer_ok s).
  - intros va' a' Hva' H. rewrite Hac in H by done. by apply (uo_frame _ Hu).
  - intros v1 v2 a' H1 H2 E1 E2. rewrite Hac in E1, E2 by done. by eapply (uo_inj _ Hu).
Qed.

Lemma user_byte_set s va va' a b : user_ok s → user_addr va → user_addr va' → access true va s = Some a → is_byte b →
  user_byte (set_byte a b s) va' = if decide (va' = va) then Some b else user_byte s va'.
Proof.
  intros Hu Hva Hva' Ha Hb. destruct (set_byte_ok s true va a b Hu Hva Ha Hb) as [_ Hac].
  destruct (access_page s true va a Hu Hva Ha) as (i & page & _ & _ & _ & _ & _ & Hm & Hlen). apply access_write in Ha.
  unfold user_byte. rewrite Hac by done. case_decide as E.
  - subst va'. rewrite Ha. cbn. rewrite (byte_at_set a b s page) by done. by rewrite decide_True.
  - destruct (access false va' s) as [a'|] eqn:Ea'; [|done]. cbn. rewrite (byte_at_set a b s page) by done.
    rewrite decide_False; [done|]. intros ->. apply E. by eapply (uo_inj _ Hu).
Qed.

(** ** Writing several bytes *)

(** [l] has been written at [va]. *)
Record written_user (l : list Z) (va : Z) (s s' : kernel) : Prop := {
  wu_ok : user_ok s';
  wu_access w va' : user_addr va' → access w va' s' = access w va' s;
  wu_byte va' : user_addr va' → user_byte s' va' = if decide (va ≤ va' < va + len l) then l !! Z.to_nat (va' - va) else user_byte s va';
  wu_mem p : (∀ va' a, va ≤ va' < va + len l → access true va' s = Some a → pg_no a ≠ p) → mem s' !! p = mem s !! p;
  wu_rest : s' = set_mem (mem s') s
}.

Lemma put_user_bytes_ok l va s : user_ok s → 0 ≤ va → va + len l ≤ PHYS_BASE → bytes l →
  (∀ i, 0 ≤ i < len l → is_Some (access true (va + i) s)) → written_user l va s (put_user_bytes l va s).
Proof.
  intros Hu Hva Hend Hb. revert va s Hu Hva Hend. induction Hb as [|b l Hb1 _ IH]; intros va s Hu Hva Hend Hacc; cbn [put_user_bytes length] in *.
  { split; try done; [|by destruct s]. intros va' _. rewrite decide_False by (cbn [length]; lia). done. }
  destruct (Hacc 0 ltac:(lia)) as [a Ha]. rewrite Z.add_0_r in Ha. rewrite Ha. assert (Hv : user_addr va) by (unfold user_addr; lia).
  destruct (set_byte_ok s true va a b Hu Hv Ha Hb1) as [Hu1 Hac1].
  destruct (IH (va + 1) (set_byte a b s)) as [W1 W2 W3 W4 W5]; [done|lia|lia| |].
  { intros i Hi. rewrite Hac1 by (unfold user_addr; lia). replace (va + 1 + i) with (va + (i + 1)) by lia. apply Hacc. lia. }
  split.
  - done.
  - intros w va' Hva'. by rewrite W2, Hac1.
  - intros va' Hva'. rewrite W3 by done. rewrite (user_byte_set s va va' a b) by done.
    destruct (decide (va' = va)) as [->|Hne].
    + rewrite decide_False by lia. rewrite decide_True by (cbn [length]; lia). by rewrite Z.sub_diag.
    + case_decide as E1.
      * rewrite decide_True by (cbn [length]; lia). replace (Z.to_nat (va' - va)) with (S (Z.to_nat (va' - (va + 1)))) by lia. done.
      * rewrite decide_False by (cbn [length]; lia). done.
  - intros p Hp. rewrite W4.
    + unfold set_byte. cbn [set_mem mem]. apply lookup_alter_ne. apply (Hp va a); [cbn [length]; lia|done].
    + intros va' a' Hr Ha'. rewrite Hac1 in Ha' by (unfold user_addr; lia). apply (Hp va' a'); [cbn [length]; lia|done].
  - rewrite W5 at 1. unfold set_byte. by destruct s.
Qed.

Lemma user_bytes_full w n va s : user_ok s → 0 ≤ va → va + Z.of_nat n ≤ PHYS_BASE →
  (∀ i, 0 ≤ i < Z.of_nat n → is_Some (access w (va + i) s)) →
  length (user_bytes w n va s) = n ∧ bytes (user_bytes w n va s) ∧
  ∀ i, (i < n)%nat → user_bytes w n va s !! i = user_byte s (va + Z.of_nat i).
Proof.
  intros Hu. revert va. induction n as [|n IH]; intros va Hva Hend Hacc; cbn [user_bytes].
  { split; [done|]. split; [by apply Forall_nil_2|lia]. }
  destruct (Hacc 0 ltac:(lia)) as [a Ha]. rewrite Z.add_0_r in Ha. rewrite Ha. cbn. assert (Hv : user_addr va) by (unfold user_addr; lia).
  destruct (access_byte s w va a Hu Hv Ha) as (b & Hb & Hbb). rewrite Hb.
  destruct (IH (va + 1)) as (H1 & H2 & H3); [lia|lia|intros i Hi; replace (va + 1 + i) with (va + (i + 1)) by lia; apply Hacc; lia|].
  split; [cbn; by rewrite H1|]. split; [by apply Forall_cons|]. intros [|i] Hi; cbn.
  - rewrite Z.add_0_r. unfold user_byte. by rewrite (access_any _ _ _ _ Ha).
  - rewrite H3 by lia. f_equal. lia.
Qed.

(** ** Ending the process *)

Lemma output_all_helper_console w c n : bytes w → ∃ c' n', output_all vprintf_helper w (c, n) = Ok (tt, (c', n')) ∧ console_text c' = console_text c ++ w.
Proof.
  intros Hw. revert c n. induction Hw as [|b w Hb _ IH]; intros c n; cbn [output_all].
  - exists c, n. split; [done|]. by rewrite app_nil_r.
  - unfold mbind, M_bind, vprintf_helper at 1. cbn [fst snd putchar_have_lock modify].
    destruct (IH (mk_console (console_text c ++ [wrap8 b]) (int64 (write_cnt c + 1))) (int32 (n + 1))) as (c' & n' & E & Ht).
    exists c', n'. split; [done|]. rewrite Ht. cbn [console_text]. rewrite wrap8_small by done. by rewrite <-app_assoc.
Qed.

Lemma printf_text format args w c : format_text format args = Ok w → bytes w →
  ∃ n c', printf format args c = Ok (n, c') ∧ console_text c' = console_text c ++ w.
Proof.
  intros Hf Hw. destruct (output_all_helper_console w c 0 Hw) as (c' & n' & E & Ht). exists n', c'. split; [|done].
  unfold printf, vprintf. by rewrite (vprintf_text vprintf_helper format args w Hf), E.
Qed.

Definition name_ok (s : sys) : Prop := len (thread_name s) < 16 ∧ bytes (thread_name s).

Lemma exit_text name : len name < 16 →
  format_text (text "%s: exit(%d)
") [Str (Some name); Word (wrap32 (-1))] = Ok (name ++ text ": exit(-1)
").
Proof.
  intros Hl. unfold format_text, __vprintf. cbn [vprintf_depth].
  set (nested := λ format args, vprintf_loop collect _ _ format args).
  change (text "%s: exit(%d)
") with (37 :: 115 :: text ": exit(%d)
"). rewrite vprintf_loop_string by lia. cbn [app].
  destruct (traced_loop collect nested nested 13 (text ": exit(%d)
") [Word (wrap32 (-1))] ltac:(intros; apply traced_loop; intros; apply traced_throw) [] tt (text ": exit(-1)
")) as (w & -> & E); [vm_compute; reflexivity|].
  change (length (37 :: 115 :: text ": exit(%d)
")) with 13%nat. rewrite E. unfold mbind, M_bind. by rewrite output_all_collect.
Qed.

(** The process was ended by the kernel: the message has been printed, nothing
    else has changed. *)
Definition killed (s s' : sys) : Prop :=
  ∃ c, s' = set_con c s ∧ console_text c = console_text (con s) ++ thread_name s ++ text ": exit(-1)
".

Lemma syscall_exit_killed {A} s : name_ok s → ∃ s', syscall_exit (A := A) (-1) s = Ok (Exits (-1), s') ∧ killed s s'.
Proof.
  intros [Hl Hb]. destruct (printf_text _ _ _ (con s) (exit_text _ Hl)) as (n & c & E & Ht).
  { apply Forall_app. split; [done|]. apply (bool_decide_unpack (bytes _)). vm_compute. done. }
  exists (set_con c s). split; [|by exists c]. unfold syscall_exit, kbind, kget, on_con. by rewrite E.
Qed.

(** ** Checks *)

Definition in_region (buffer length : Z) : Prop := 0 ≤ buffer < PHYS_BASE ∧ buffer + length ≤ PHYS_BASE.

Lemma validate_ok buffer length s : in_region buffer length → validate_buffer_in_user_region buffer length s = Ok (Returns tt, s).
Proof.
  intros [H1 H2]. unfold validate_buffer_in_user_region, is_user_vaddr. rewrite (proj2 (Z.ltb_lt _ _)) by lia. cbn [negb orb].
  rewrite wrap32_small by (rewrite PHYS_BASE_eq in *; lia). rewrite (proj2 (Z.ltb_ge _ _)) by lia. done.
Qed.
Lemma validate_bad buffer length s : 0 ≤ buffer → ¬ in_region buffer length →
  validate_buffer_in_user_region buffer length s = syscall_exit (-1) s.
Proof.
  intros H0 Hbad. unfold validate_buffer_in_user_region, is_user_vaddr. destruct (Z.ltb_spec buffer PHYS_BASE) as [H|H]; [|done]. cbn [negb orb].
  rewrite wrap32_small by (rewrite PHYS_BASE_eq in *; lia). rewrite (proj2 (Z.ltb_lt _ _)); [done|]. unfold in_region in Hbad. lia.
Qed.

(** ** Arguments *)

Definition user_word (k : kernel) (va : Z) : option Z :=
  b0 ← user_byte k va; b1 ← user_byte k (va + 1); b2 ← user_byte k (va + 2); b3 ← user_byte k (va + 3); Some (of_le32 [b0; b1; b2; b3]).

Lemma get_byte_user va s : user_ok (kern_of s) → user_addr va → in_syscall s = true →
  get_byte va s = match user_byte (kern_of s) va with Some b => Ok (Returns b, s) | None => syscall_exit (-1) s end.
Proof.
  intros Hu Hva Hin. unfold get_byte, user_byte, is_user_vaddr. rewrite (proj2 (Z.ltb_lt va PHYS_BASE)) by apply Hva.
  destruct (access false va (kern_of s)) as [a|] eqn:Ea; cbn [mbind option_bind].
  - destruct (access_byte _ _ _ _ Hu Hva Ea) as (b & -> & _). done.
  - unfold page_fault, kbind, kget. rewrite Hin. unfold is_user_vaddr. rewrite (proj2 (Z.ltb_lt va PHYS_BASE)) by apply Hva. done.
Qed.

Lemma get_word_user va s : user_ok (kern_of s) → in_region va 4 → in_syscall s = true →
  (∃ w, user_word (kern_of s) va = Some w ∧ get_word va s = Ok (Returns w, s)) ∨
  (user_word (kern_of s) va = None ∧ ∀ s', syscall_exit (A := Z) (-1) s = Ok (Exits (-1), s') → get_word va s = Ok (Exits (-1), s')).
Proof.
  intros Hu [Hr1 Hr2] Hin. unfold get_word, user_word, kbind. rewrite !wrap32_small by (rewrite PHYS_BASE_eq in *; lia).
  rewrite !get_byte_user by (done || (unfold user_addr; lia)).
  destruct (user_byte (kern_of s) va) as [b0|]; [|right; split; [done|]; intros s' E; by rewrite E].
  rewrite !get_byte_user by (done || (unfold user_addr; lia)).
  destruct (user_byte (kern_of s) (va + 1)) as [b1|]; [|right; split; [done|]; intros s' E; by rewrite E].
  rewrite !get_byte_user by (done || (unfold user_addr; lia)).
  destruct (user_byte (kern_of s) (va + 2)) as [b2|]; [|right; split; [done|]; intros s' E; by rewrite E].
  rewrite !get_byte_user by (done || (unfold user_addr; lia)).
  destruct (user_byte (kern_of s) (va + 3)) as [b3|]; [|right; split; [done|]; intros s' E; by rewrite E].
  left. eexists. split; reflexivity.
Qed.

Lemma get_word_some va w s : user_ok (kern_of s) → in_region va 4 → in_syscall s = true → user_word (kern_of s) va = Some w →
  get_word va s = Ok (Returns w, s).
Proof. intros Hu Hr Hin Hw. destruct (get_word_user va s Hu Hr Hin) as [(w' & E & ->)|[E _]]; congruence. Qed.

Lemma user_word_range k va w : user_ok k → in_region va 4 → user_word k va = Some w → 0 ≤ w < 2 ^ 32.
Proof.
  intros Hu [Hr1 Hr2] Hw. unfold user_word in Hw.
  assert (Hb : ∀ v b, va ≤ v < va + 4 → user_byte k v = Some b → is_byte b).
  { intros v b Hv E. unfold user_byte in E. destruct (access false v k) as [a|] eqn:Ea; [|done]. cbn in E.
    destruct (access_byte k false v a Hu ltac:(unfold user_addr; lia) Ea) as (b' & E' & H). congruence. }
  destruct (user_byte k va) as [b0|] eqn:E0; [|done]. destruct (user_byte k (va + 1)) as [b1|] eqn:E1; [|done].
  destruct (user_byte k (va + 2)) as [b2|] eqn:E2; [|done]. destruct (user_byte k (va + 3)) as [b3|] eqn:E3; [|done].
  cbn [mbind option_bind] in Hw. injection Hw as <-. apply (of_le32_range [b0; b1; b2; b3]); [done|]. repeat (apply Forall_cons; split; [eapply Hb; [|done]; lia|]). apply Forall_nil_2.
Qed.

(** ** Reading and writing a file *)

(** The call with number [n] for the descriptor [fd], with its buffer. *)
Record file_call (n fd esp buffer size : Z) (s : sys) : Prop := {
  fc_user : user_ok (kern_of s);
  fc_args : in_region esp 16;
  fc_number : user_word (kern_of s) esp = Some n;
  fc_fd : user_word (kern_of s) (esp + 4) = Some fd;
  fc_buffer : user_word (kern_of s) (esp + 8) = Some buffer;
  fc_size : user_word (kern_of s) (esp + 12) = Some size;
  fc_region : in_region buffer size;
  fc_int : 0 ≤ size < 2 ^ 31
}.

(** Fetching the arguments. *)
Lemma file_call_fetch n fd esp buffer size s eax o s' :
  file_call n fd esp buffer size s → n ∈ [SYS_READ; SYS_WRITE] →
  (if n =? SYS_READ then syscall_read (int32 fd) buffer size else syscall_write (int32 fd) buffer size) (set_in_syscall true s) = Ok (o, s') →
  syscall_handler esp eax s =
    match o with Returns r => Ok (Returns (wrap32 r), set_in_syscall false s') | Exits status => Ok (Exits status, s') end.
Proof.
  intros [Hu Ha Hn Hf Hb Hs Hr Hi] Hin E. set (s1 := set_in_syscall true s) in *. unfold syscall_handler. unfold kbind at 1, kmodify at 1. fold s1.
  assert (R0 : in_region esp 4) by (unfold in_region in *; lia). assert (R4 : in_region (esp + 4) 4) by (unfold in_region in *; lia).
  assert (R8 : in_region (esp + 8) 4) by (unfold in_region in *; lia). assert (R12 : in_region (esp + 12) 4) by (unfold in_region in *; lia).
  assert (RA : in_region (esp + 4) 12) by (unfold in_region in *; lia). destruct Ha as [Ha1 Ha2].
  unfold kbind at 1. rewrite validate_ok by done. unfold kbind at 1. rewrite (get_word_some esp n) by done.
  change (4 * 1) with 4. change (4 * 2) with 8. change (4 * 3) with 12.
  rewrite (wrap32_small (esp + 4)), (wrap32_small (esp + 8)), (wrap32_small (esp + 12)) by (rewrite PHYS_BASE_eq in *; lia).
  unfold kbind at 1. set (m := if n =? SYS_EXIT then _ else _).
  enough (Em : m s1 = match o with Returns r => Ok (Returns (wrap32 r), s') | Exits status => Ok (Exits status, s') end) by (rewrite Em; by destruct o). unfold m.
  repeat (apply elem_of_cons in Hin as [->|Hin]); [..|by apply not_elem_of_nil in Hin]; cbn [Z.eqb Pos.eqb SYS_EXIT SYS_OPEN SYS_CLOSE SYS_SBRK SYS_READ SYS_WRITE] in *;
    unfold kbind; rewrite validate_ok by done; rewrite (get_word_some (esp + 8) buffer), (get_word_some (esp + 12) size) by done;
    rewrite validate_ok by done; rewrite (get_word_some (esp + 4) fd) by done; rewrite E; by destruct o.
Qed.

Lemma take_put_0 (l buf : list Z) : len l ≤ len buf → take (Z.to_nat (len l)) (put 0 l buf) = l.
Proof. intros H. unfold put. rewrite Nat2Z.id. change (Z.to_nat 0) with O. rewrite take_0. cbn [app]. by rewrite take_app_length. Qed.

(** C16: [read] from a process.  With a buffer in writable user memory, the call
    returns the number of bytes that the file still has from its position on,
    at most the size asked for; user memory has these bytes of the file at the
    buffer and is otherwise unchanged, as is every page that the buffer is not
    in, kernel memory included; the position of the file moves on. *)
Theorem syscall_read_correct s esp eax buffer size p q i D pos :
  file_call SYS_READ 2 esp buffer size s → (∀ j, 0 ≤ j < size → is_Some (access true (buffer + j) (kern_of s))) →
  open_file s = p → reading p q i D pos (fsys (prc s)) → 0 ≤ pos ≤ len D → no_oom (fsys (prc s)) →
  let n := Z.min size (len D - pos) in
  ∃ s', syscall_handler esp eax s = Ok (Returns n, s') ∧ in_syscall s' = false ∧
    written_user (slice pos n D) buffer (kern_of s) (kern_of s') ∧ reading p q i D (pos + n) (fsys (prc s')).
Proof.
  intros Hc Hacc Hp Hr Hpos Hoom n. pose proof (fc_user _ _ _ _ _ _ Hc) as Hu. destruct (fc_region _ _ _ _ _ _ Hc) as [Hb1 Hb2]. pose proof (fc_int _ _ _ _ _ _ Hc) as Hi.
  set (s1 := set_in_syscall true s). set (old := user_bytes true (Z.to_nat size) buffer (kern_of s)).
  destruct (user_bytes_full true (Z.to_nat size) buffer (kern_of s) Hu ltac:(lia) ltac:(lia)) as (Hl & Hbytes & _); [intros j Hj; apply Hacc; lia|]. fold old in Hl, Hbytes.
  destruct (reading_len _ _ _ _ _ _ Hr) as (HlD & HlD2 & HbD).
  assert (Hrun : wp (file_read p old size) (λ r f', r = (n, put 0 (slice pos n D) old) ∧ reading p q i D (pos + n) f') (fsys (prc s))).
  { eapply (wp_file_read p q i D pos old size); [done|done|lia|lia|]. intros k f' Hk1 Hk2 Hk3 _ Hr'. specialize (Hk3 Hoom). assert (k = n) as -> by (unfold n; lia). done. }
  apply wp_Ok in Hrun as ([k new] & f' & Ef & Er & Hr'). injection Er as -> ->.
  assert (Hln : len (slice pos n D) = n) by (apply length_slice; lia).
  assert (Htake : take (Z.to_nat n) (put 0 (slice pos n D) old) = slice pos n D).
  { rewrite <-Hln at 1. apply take_put_0. lia. }
  set (k' := put_user_bytes (slice pos n D) buffer (kern_of s)).
  assert (Hw : written_user (slice pos n D) buffer (kern_of s) k').
  { apply put_user_bytes_ok; [done|lia|lia|by apply Forall_slice|]. intros j Hj. apply Hacc. lia. }
  exists (set_in_syscall false (set_kern_of k' (set_prc (set_fsys f' (prc s1)) s1))). split; [|done].
  rewrite <-(wrap32_small n) at 1 by lia.
  apply (file_call_fetch SYS_READ 2 esp buffer size s eax (Returns n)); [done|set_solver|]. change (int32 2) with 2.
  cbn [Z.eqb Pos.eqb SYS_READ]. unfold syscall_read, kbind, kget. cbn [set_in_syscall open_file]. rewrite Hp. change (2 =? 2) with true.
  rewrite (proj2 (Z.eqb_neq p 0)) by apply Hr. cbn [negb orb]. change (kern_of (set_in_syscall true s)) with (kern_of s). fold old.
  rewrite (signed_small 32) by lia. unfold on_proc, on_fsys. change (prc (set_in_syscall true s)) with (prc s). rewrite Ef. cbn [fst snd kmodify]. unfold kmodify.
  change (kern_of (set_prc (set_fsys f' (prc s)) (set_in_syscall true s))) with (kern_of s). rewrite Htake. done.
Qed.

(** The user buffer holds [data]. *)
Definition user_data (k : kernel) (buffer : Z) (data : list Z) : Prop :=
  ∀ j, (j < length data)%nat → user_byte k (buffer + Z.of_nat j) = data !! j.

Lemma user_data_bytes k buffer data : user_ok k → 0 ≤ buffer → buffer + len data ≤ PHYS_BASE → user_data k buffer data →
  user_bytes false (length data) buffer k = data ∧ bytes data.
Proof.
  intros Hu H0 Hend Hd.
  assert (Hacc : ∀ j, 0 ≤ j < len data → is_Some (access false (buffer + j) k)).
  { intros j Hj. specialize (Hd (Z.to_nat j) ltac:(lia)). rewrite Z2Nat.id in Hd by lia. destruct (lookup_lt_is_Some_2 data (Z.to_nat j)) as [x Hx]; [lia|].
    rewrite Hx in Hd. unfold user_byte in Hd. destruct (access false (buffer + j) k); [done|]. done. }
  destruct (user_bytes_full false (length data) buffer k Hu H0 Hend Hacc) as (Hl & Hb & Hlook).
  assert (E : user_bytes false (length data) buffer k = data); [|split; [done|]; by rewrite <-E].
  apply list_eq. intros j. destruct (decide (j < length data)%nat) as [Hj|Hj]; [by rewrite Hlook, Hd|]. rewrite !lookup_ge_None_2 by lia. done.
Qed.

(** C17: [write] to a file from a process.  As many bytes of the buffer as the
    file has room for from its position on are written there and nothing else
    of the file changes; their number is returned; memory does not change and
    the position moves on. *)
Theorem syscall_write_correct s esp eax buffer data p q i D pos :
  file_call SYS_WRITE 2 esp buffer (len data) s → user_data (kern_of s) buffer data →
  open_file s = p → reading p q i D pos (fsys (prc s)) → deny_write_cnt i = 0 → 0 ≤ pos ≤ len D → no_oom (fsys (prc s)) →
  let n := Z.min (len data) (len D - pos) in
  ∃ s', syscall_handler esp eax s = Ok (Returns n, s') ∧ in_syscall s' = false ∧ kern_of s' = kern_of s ∧
    reading p q i (put pos (slice 0 n data) D) (pos + n) (fsys (prc s')).
Proof.
  intros Hc Hd Hp Hr Hdeny Hpos Hoom n. pose proof (fc_user _ _ _ _ _ _ Hc) as Hu. destruct (fc_region _ _ _ _ _ _ Hc) as [Hb1 Hb2]. pose proof (fc_int _ _ _ _ _ _ Hc) as Hi.
  destruct (user_data_bytes (kern_of s) buffer data Hu ltac:(lia) ltac:(lia) Hd) as [Hdata Hbytes]. set (s1 := set_in_syscall true s).
  destruct (reading_len _ _ _ _ _ _ Hr) as (HlD & HlD2 & HbD). destruct (rd_file _ _ _ _ _ _ Hr) as [deny Hf].
  assert (Hrun : wp (file_write p data (len data)) (λ r f', r = n ∧ reading p q i (put pos (slice 0 n data) D) (pos + n) f') (fsys (prc s))).
  { unfold file_write. wp_step. eapply wp_file_at; [done|]. cbn [f_inode f_pos f_deny_write]. wp_step.
    eapply wp_mono; [apply wp_inode_write_at; [|done]|].
    { split; [apply Hr|apply Hr|apply Hr|apply Hr|lia|lia|lia]. }
    intros r f' H. cbv beta in H. rewrite decide_True in H by done. destruct H as (Hst & Hrange & Hno). specialize (Hno Hoom).
    assert (r = n) as ->. { rewrite Hno. unfold io_count, n. lia. }
    repeat wp_step. apply wp_modify. wp_step. split; [done|].
    rewrite int32_small by (unfold n; lia).
    eapply (reading_files p q i _ pos _ deny f'); [|done..]. destruct Hr. split; [done| | | | | |].
    - exists deny. by rewrite (ds_files _ _ _ Hst).
    - by rewrite (ds_inodes _ _ _ Hst).
    - apply (dev_ok_written (fsys (prc s)) f' (i_data i) data 0 pos n); done || (unfold n in *; lia).
    - destruct rd_placed. split; [done|done|]. by rewrite (ds_bsize _ _ _ Hst).
    - pose proof (ds_addr _ _ _ Hst). lia.
    - rewrite <-rd_data. apply (file_data_written (fsys (prc s))); done || (unfold n in *; lia). }
  apply wp_Ok in Hrun as (r & f' & Ef & -> & Hr').
  exists (set_in_syscall false (set_prc (set_fsys f' (prc s1)) s1)). split; [|done].
  rewrite <-(wrap32_small n) at 1 by (unfold n; lia).
  apply (file_call_fetch SYS_WRITE 2 esp buffer (len data) s eax (Returns n)); [done|set_solver|]. change (int32 2) with 2.
  cbn [Z.eqb Pos.eqb SYS_READ SYS_WRITE]. unfold syscall_write, kbind, kget. cbn [set_in_syscall open_file]. rewrite Hp. change (2 =? STDOUT_FILENO) with false. change (2 =? 2) with true.
  rewrite (proj2 (Z.eqb_neq p 0)) by apply Hr. cbn [negb orb]. change (kern_of (set_in_syscall true s)) with (kern_of s). rewrite Nat2Z.id, Hdata.
  rewrite (signed_small 32) by lia. unfold on_proc, on_fsys. change (prc (set_in_syscall true s)) with (prc s). rewrite Ef. done.
Qed.

(** ** Calls that the kernel refuses *)

(** The same rounds, counted down. *)
Fixpoint rounds {St R} (n : nat) (f : St → St + R) (x : St) : St + R :=
  match n with
  | O => inl x
  | S n => match f x with inl y => rounds n f y | inr r => inr r end
  end.

Lemma rounds_add {St R} a b (f : St → St + R) x :
  rounds (a + b) f x = match rounds a f x with inl y => rounds b f y | inr r => inr r end.
Proof. revert x. induction a as [|a IH]; intros x; [done|]. cbn. destruct (f x); [apply IH|done]. Qed.

Lemma iter_until_rounds {St R} p (f : St → St + R) x : iter_until p f x = rounds (Pos.to_nat p) f x.
Proof.
  revert x. induction p as [p IH|p IH|]; intros x; cbn [iter_until].
  - rewrite Pos2Nat.inj_xI. cbn [rounds]. destruct (f x) as [y|]; [|done].
    replace (2 * Pos.to_nat p)%nat with (Pos.to_nat p + Pos.to_nat p)%nat by lia. rewrite rounds_add, IH. by destruct (rounds _ f y).
  - rewrite Pos2Nat.inj_xO. replace (2 * Pos.to_nat p)%nat with (Pos.to_nat p + Pos.to_nat p)%nat by lia.
    rewrite rounds_add, IH. by destruct (rounds _ f x).
  - change (Pos.to_nat 1) with 1%nat. cbn [rounds]. by destruct (f x).
Qed.

Lemma rounds_stop {St R} (f : St → St + R) (x : nat → St) k n r : (k < n)%nat →
  (∀ i, (i < k)%nat → f (x i) = inl (x (S i))) → f (x k) = inr r → rounds n f (x O) = inr r.
Proof.
  revert x k. induction n as [|n IH]; intros x k Hk Hrun Hstop; [lia|]. cbn. destruct k as [|k]; [by rewrite Hstop|].
  rewrite Hrun by lia. apply (IH (λ i, x (S i)) k); [lia| |done]. intros i Hi. apply Hrun. lia.
Qed.

(** A word that cannot be fetched: it is not in the user region or a byte of it
    is not mapped. *)
Definition bad_word (k : kernel) (va : Z) : Prop := ¬ in_region va 4 ∨ in_region va 4 ∧ user_word k va = None.

(** A string that cannot be read: it starts outside the user region, or comes
    to a byte of the user region that is not mapped before a null byte. *)
Definition bad_string (k : kernel) (name : Z) : Prop :=
  PHYS_BASE ≤ name ∨
  ∃ n, 0 ≤ n ∧ name + n < PHYS_BASE ∧ user_byte k (name + n) = None ∧
    ∀ j, 0 ≤ j < n → ∃ b, user_byte k (name + j) = Some b ∧ b ≠ 0.

(** The call number, an argument, a file name, or the place of a buffer is
    bad.  All three arguments of [read] and [write] are covered; whether the
    pages of a buffer are mapped is not checked before the call. *)
Inductive bad_call (k : kernel) (esp : Z) : Prop :=
  | bad_number : bad_word k esp → bad_call k esp
  | bad_argument n : in_region esp 4 → user_word k esp = Some n → n ∈ [SYS_EXIT; SYS_OPEN; SYS_CLOSE; SYS_SBRK] → bad_word k (esp + 4) → bad_call k esp
  | bad_name name : in_region esp 4 → user_word k esp = Some SYS_OPEN → in_region (esp + 4) 4 → user_word k (esp + 4) = Some name →
      bad_string k name → bad_call k esp
  | bad_arguments n : in_region esp 4 → user_word k esp = Some n → n ∈ [SYS_READ; SYS_WRITE] →
      ¬ in_region (esp + 4) 12 ∨ in_region (esp + 4) 12 ∧ (∃ i, i ∈ [4; 8; 12] ∧ user_word k (esp + i) = None) → bad_call k esp
  | bad_buffer n buffer size : in_region esp 4 → user_word k esp = Some n → n ∈ [SYS_READ; SYS_WRITE] → in_region (esp + 4) 12 →
      user_word k (esp + 8) = Some buffer → user_word k (esp + 12) = Some size → ¬ in_region buffer size → bad_call k esp.

(** The state at the end is that of the exit, whatever the code before would
    have returned. *)
Lemma exit_any {A B} s s' : syscall_exit (A := A) (-1) s = Ok (Exits (-1), s') → syscall_exit (A := B) (-1) s = Ok (Exits (-1), s').
Proof. unfold syscall_exit, kbind, kget, on_con. destruct (printf _ _ _) as [[? ?]|]; [congruence|done]. Qed.

Section refused.
Context (s s' : sys) (Hu : user_ok (kern_of s)) (Hin : in_syscall s = true) (Hexit : syscall_exit (A := unit) (-1) s = Ok (Exits (-1), s')).

Definition dies {A} (m : K A) : Prop := m s = Ok (Exits (-1), s').

Lemma dies_exit A : dies (syscall_exit (A := A) (-1)).
Proof. by eapply exit_any. Qed.
Lemma dies_bind {A B} (m : K A) (k : A → K B) : dies m → dies (kbind m k).
Proof. unfold dies, kbind. by intros ->. Qed.
Lemma dies_after {A B} (m : K A) (k : A → K B) a : m s = Ok (Returns a, s) → dies (k a) → dies (kbind m k).
Proof. unfold dies, kbind. by intros ->. Qed.

Lemma dies_validate {B} buffer length (k : unit → K B) : 0 ≤ buffer →
  (in_region buffer length → dies (k tt)) → dies (kbind (validate_buffer_in_user_region buffer length) k).
Proof.
  intros H0 Hk. destruct (decide (0 ≤ buffer < PHYS_BASE ∧ buffer + length ≤ PHYS_BASE)) as [Hr|Hr].
  - eapply dies_after; [by apply validate_ok|by apply Hk].
  - apply dies_bind. unfold dies. rewrite validate_bad by done. apply dies_exit.
Qed.

(** Fetching a word of the user region: when it is there the code goes on. *)
Lemma dies_word {B} va (k : Z → K B) : in_region va 4 →
  (∀ w, user_word (kern_of s) va = Some w → 0 ≤ w → dies (k w)) → dies (kbind (get_word va) k).
Proof.
  intros Hr Hk. destruct (get_word_user va s Hu Hr Hin) as [(w & Hw & E)|[_ E]].
  - eapply dies_after; [exact E|]. apply Hk; [done|]. by apply (user_word_range _ _ _ Hu Hr Hw).
  - apply dies_bind, E, dies_exit.
Qed.

Lemma dies_string {B} name (k : Z → K B) : 0 ≤ name → bad_string (kern_of s) name → dies (kbind (validate_string_in_user_region name) k).
Proof.
  intros H0 Hbad. apply dies_bind. unfold validate_string_in_user_region, is_user_vaddr. destruct (Z.ltb_spec name PHYS_BASE) as [Hlt|Hge]; [|apply dies_exit].
  cbn [negb]. destruct Hbad as [Hge|(n & Hn & Hend & Hnone & Hsome)]; [lia|]. rewrite wrap32_small by (rewrite PHYS_BASE_eq in *; lia).
  apply dies_bind. unfold dies, user_strnlen. rewrite iter_until_rounds.
  assert (Hb : ∀ j, 0 ≤ j ≤ n → get_byte (wrap32 (name + j)) s =
    match user_byte (kern_of s) (name + j) with Some b => Ok (Returns b, s) | None => syscall_exit (-1) s end).
  { intros j Hj. rewrite wrap32_small by (rewrite PHYS_BASE_eq in *; lia). apply get_byte_user; [done|unfold user_addr; lia|done]. }
  change 0 with (Z.of_nat O) at 1. rewrite (rounds_stop _ Z.of_nat (Z.to_nat n) _ (inr (Ok (Exits (-1), s')))); [done|lia|..].
  - intros i Hi. destruct (Hsome (Z.of_nat i)) as (b & Eb & Hne); [lia|]. unfold strnlen_round. rewrite Hb, Eb by lia.
    rewrite (proj2 (Z.eqb_neq b 0)), (proj2 (Z.ltb_lt _ _)) by lia. cbn [negb andb]. f_equal. lia.
  - unfold strnlen_round. rewrite Z2Nat.id, Hb, Hnone by lia. by rewrite (exit_any s s' Hexit).
Qed.
End refused.

Lemma bad_call_dies s s' esp eax : user_ok (kern_of s) → 0 ≤ esp < 2 ^ 32 → bad_call (kern_of s) esp →
  syscall_exit (A := unit) (-1) (set_in_syscall true s) = Ok (Exits (-1), s') → syscall_handler esp eax s = Ok (Exits (-1), s').
Proof.
  intros Hu He Hbad Hexit. set (s1 := set_in_syscall true s) in *. assert (Hu1 : user_ok (kern_of s1)) by done. assert (Hin : in_syscall s1 = true) by done.
  change (kern_of s) with (kern_of s1) in Hbad. unfold syscall_handler. unfold kbind at 1, kmodify at 1. fold s1.
  match goal with |- ?m s1 = _ => change (dies s1 s' m) end.
  apply dies_validate; [done|lia|]. intros Hr. apply dies_word; [done..|]. intros n Hn _. apply dies_bind.
  change (4 * 1) with 4. change (4 * 2) with 8. change (4 * 3) with 12.
  assert (Hesp : esp + 4 ≤ PHYS_BASE) by apply Hr. rewrite (wrap32_small (esp + 4)), (wrap32_small (esp + 8)), (wrap32_small (esp + 12)) by (rewrite PHYS_BASE_eq in *; lia).
  assert (Hfile : n ∈ [SYS_READ; SYS_WRITE] → (in_region (esp + 4) 12 → ∀ w1 w2 w3, user_word (kern_of s1) (esp + 4) = Some w1 → user_word (kern_of s1) (esp + 8) = Some w2 →
      user_word (kern_of s1) (esp + 12) = Some w3 → in_region w2 w3 → False) → ∀ call : Z → Z → Z → K Z,
      dies s1 s' (validate_buffer_in_user_region (esp + 4) 12 ⨾ buffer ⇐ get_word (esp + 8); size ⇐ get_word (esp + 12);
        validate_buffer_in_user_region buffer size ⨾ fd ⇐ get_word (esp + 4); r ⇐ call fd buffer size; kret (wrap32 r))).
  { intros _ H call. apply dies_validate; [done|lia|]. intros Hr2. apply dies_word; [done|done|done|unfold in_region in *; lia|]. intros w2 Hw2 H2.
    apply dies_word; [done|done|done|unfold in_region in *; lia|]. intros w3 Hw3 _. apply dies_validate; [done|done|]. intros Hr3.
    apply dies_word; [done|done|done|unfold in_region in *; lia|]. intros w1 Hw1 _. destruct (H Hr2 w1 w2 w3); done. }
  destruct Hbad as [[Hb|[_ Hw]]|n' _ Hw Hi Hb|name _ Hw _ Hname Hb|n' _ Hw Hi Hb|n' buffer size _ Hw Hi _ Hw2 Hw3 Hb]; [done|congruence|..];
    rewrite Hn in Hw; injection Hw as ->.
  - assert (Hv : ∀ k : Z → K Z, dies s1 s' (validate_buffer_in_user_region (esp + 4) 4 ⨾ w ⇐ get_word (esp + 4); k w)).
    { intros k. apply dies_validate; [done|lia|]. intros Hr2. apply dies_word; [done..|]. intros w Hw _. destruct Hb as [Hb|[_ Hb]]; [done|congruence]. }
    repeat (apply elem_of_cons in Hi as [->|Hi]); [..|by apply not_elem_of_nil in Hi]; apply Hv.
  - change (SYS_OPEN =? SYS_EXIT) with false. change (SYS_OPEN =? SYS_OPEN) with true. cbn iota.
    apply dies_validate; [done|lia|]. intros Hr2. apply dies_word; [done..|]. intros w Hw Hw0. rewrite Hname in Hw. injection Hw as <-.
    by apply dies_string.
  - assert (Hm : in_region (esp + 4) 12 → ∀ w1 w2 w3, user_word (kern_of s1) (esp + 4) = Some w1 → user_word (kern_of s1) (esp + 8) = Some w2 →
      user_word (kern_of s1) (esp + 12) = Some w3 → in_region w2 w3 → False).
    { intros Hr2 w1 w2 w3 E1 E2 E3 _. destruct Hb as [Hb|[_ (i & Hi' & Ei)]]; [done|].
      repeat (apply elem_of_cons in Hi' as [->|Hi']); [congruence..|by apply not_elem_of_nil in Hi']. }
    specialize (Hfile Hi Hm). repeat (apply elem_of_cons in Hi as [->|Hi]); [..|by apply not_elem_of_nil in Hi];
      [apply (Hfile (λ fd, syscall_read (int32 fd)))|apply (Hfile (λ fd, syscall_write (int32 fd)))].
  - assert (Hm : in_region (esp + 4) 12 → ∀ w1 w2 w3, user_word (kern_of s1) (esp + 4) = Some w1 → user_word (kern_of s1) (esp + 8) = Some w2 →
      user_word (kern_of s1) (esp + 12) = Some w3 → in_region w2 w3 → False) by (intros _ w1 w2 w3 _ E2 E3 H; congruence).
    specialize (Hfile Hi Hm). repeat (apply elem_of_cons in Hi as [->|Hi]); [..|by apply not_elem_of_nil in Hi];
      [apply (Hfile (λ fd, syscall_read (int32 fd)))|apply (Hfile (λ fd, syscall_write (int32 fd)))].
Qed.

(** Writing to the console up to a byte that is not mapped. *)
Lemma putbuf_loop_dies data m buffer s : name_ok s → user_ok (kern_of s) → in_syscall s = true → 0 ≤ buffer → buffer + len data < PHYS_BASE →
  user_data (kern_of s) buffer data → user_byte (kern_of s) (buffer + len data) = None →
  ∃ c, putbuf_loop (length data + S m) buffer s = Ok (Exits (-1), set_con c s) ∧
    console_text c = console_text (con s) ++ data ++ thread_name s ++ text ": exit(-1)
".
Proof.
  revert buffer s. induction data as [|b data IH]; intros buffer s Hn Hu Hin H0 Hend Hd Hnone; cbn [length Nat.add putbuf_loop] in *; unfold kbind at 1.
  - rewrite get_byte_user by (done || (unfold user_addr; lia)). rewrite Z.add_0_r in Hnone. rewrite Hnone.
    destruct (syscall_exit_killed (A := Z) s Hn) as (s' & E & c & -> & Ht). exists c. by rewrite E.
  - rewrite get_byte_user by (done || (unfold user_addr; lia)). pose proof (Hd O ltac:(cbn; lia)) as Hb. cbn in Hb. rewrite Z.add_0_r in Hb. rewrite Hb.
    assert (Hbb : is_byte b).
    { unfold user_byte in Hb. destruct (access false buffer (kern_of s)) as [a|] eqn:Ea; [|done]. cbn in Hb.
      destruct (access_byte _ false buffer a Hu ltac:(unfold user_addr; lia) Ea) as (b' & E' & H). congruence. }
    unfold kbind at 1, on_con at 1, putchar_have_lock, modify. rewrite wrap32_small by (rewrite PHYS_BASE_eq in *; lia).
    set (c1 := mk_console _ _). destruct (IH (buffer + 1) (set_con c1 s)) as (c & E & Ht); [done|done|done|lia|lia|..].
    { intros j Hj. specialize (Hd (S j) ltac:(cbn; lia)). cbn [lookup list_lookup] in Hd. etransitivity; [|exact Hd]. change (kern_of (set_con c1 s)) with (kern_of s). f_equal. lia. }
    { change (kern_of (set_con c1 s)) with (kern_of s). rewrite <-Hnone. f_equal. lia. }
    exists c. split; [rewrite E; done|]. rewrite Ht. cbn [con set_con c1 console_text]. rewrite wrap8_small by done. by rewrite <-!app_assoc.
Qed.

(** C15: System calls with bad arguments.  A call ends the process with status
    -1 (the exit line is printed and [thread_exit] is called) if its number or
    one of its arguments is not in mapped user memory, if the name given to
    open is not in the user region or reaches a byte that is not mapped before
    a null byte, or if the buffer of read or write does not lie in the user
    region: nothing but the console and the flag [in_syscall] has changed by
    then, memory, files and the console lock included.

    A write to the console of fewer than 2^31 bytes, from a buffer in the user
    region with a byte that is not mapped, ends the process in the same way,
    but the bytes before are printed first, and the console lock stays with the
    thread. *)
Theorem syscall_bad_call esp eax s : name_ok s → user_ok (kern_of s) → 0 ≤ esp < 2 ^ 32 →
  (bad_call (kern_of s) esp →
   ∃ s', syscall_handler esp eax s = Ok (Exits (-1), s') ∧ killed (set_in_syscall true s) s') ∧
  (∀ buffer size data, file_call SYS_WRITE STDOUT_FILENO esp buffer size s → user_data (kern_of s) buffer data → len data < size →
   user_byte (kern_of s) (buffer + len data) = None →
   ∃ c, syscall_handler esp eax s = Ok (Exits (-1), set_con c (set_console_held true (set_in_syscall true s))) ∧
     console_text c = console_text (con s) ++ data ++ thread_name s ++ text ": exit(-1)
").
Proof.
  intros Hn Hu He. split.
  - intros Hbad. destruct (syscall_exit_killed (A := unit) (set_in_syscall true s) Hn) as (s' & E & Hk). exists s'. split; [|done].
    by eapply bad_call_dies.
  - intros buffer size data Hc Hd Hl Hnone. set (s2 := set_console_held true (set_in_syscall true s)). destruct (fc_region _ _ _ _ _ _ Hc) as [Hb1 Hb2].
    destruct (putbuf_loop_dies data (Z.to_nat size - S (length data)) buffer s2) as (c & E & Ht); try done; [lia..|]. exists c. split; [|done].
    apply (file_call_fetch SYS_WRITE STDOUT_FILENO esp buffer size s eax (Exits (-1))); [done|set_solver|]. change (int32 STDOUT_FILENO) with 1.
    change (SYS_WRITE =? SYS_READ) with false. cbn iota. unfold syscall_write, kbind, kget. change (1 =? STDOUT_FILENO) with true. cbn iota.
    unfold user_putbuf, kbind, kmodify. fold s2. replace (Z.to_nat size) with (length data + S (Z.to_nat size - S (length data)))%nat by lia. by rewrite E.
Qed.

(** ** Examples *)

(** One page of user memory at 0x8049000. *)
Definition example_user : kernel :=
  match pagedir_set_page 0xc0102000 0x8049000 0xc012a000 true example_heap with Ok (_, k) => k | Err _ => example_heap end.

Lemma example_user_ptes : pagedir example_user = 0xc0102000 ∧ user_pool example_user = user_pool example_heap ∧ pagedir_ok example_user 0xc0102000 ∧
  ∀ va, user_addr va → pte_of example_user 0xc0102000 va = if decide (pg_no va = 0x8049) then 0x12a007 else 0.
Proof.
  assert (Hu : user_addr 0x8049000) by (unfold user_addr; rewrite PHYS_BASE_eq; lia).
  assert (Hpte : ∀ va, user_addr va → pte_of example_heap 0xc0102000 va = 0).
  { intros va Hva. transitivity (pte_of example_kernel 0xc0102000 va); [reflexivity|by apply example_pte]. }
  pose proof (wp_pagedir_set_page example_heap 0xc0102000 0x8049000 0xc012a000 true example_heap_ok Hu eq_refl example_ram_page) as Hw.
  rewrite Hpte in Hw by done. specialize (Hw (Z.bits_0 0)). destruct (proj1 (wp_Ok _ _ _) Hw) as (ok & k & E & H).
  unfold example_user. rewrite E. destruct ok.
  - destruct H as (Hok & Hf & Hp). destruct (vmf_consts _ _ Hf) as (_ & _ & _ & Ep & _). split; [done|]. split; [apply Hf|]. split; [done|].
    intros va Hva. rewrite Hp by done. change (pg_no 0x8049000) with 0x8049. rewrite Hpte by done. repeat case_decide; first [reflexivity | congruence].
  - exfalso. destruct H as (_ & Hng & _). apply (Hng 3); [lia|cbn; lia|]. intros j Hj. replace j with 3 by lia. reflexivity.
Qed.

Lemma example_user_access w va : user_addr va → access w va example_user = if decide (pg_no va = 0x8049) then Some (0xc012a000 + pg_ofs va) else None.
Proof.
  intros Hva. destruct example_user_ptes as (Ep & _ & _ & Hp). unfold access. rewrite Ep, Hp by done. case_decide; [|by destruct w].
  replace (_ || _) with false by (by destruct w). done.
Qed.

Lemma example_user_ok : user_ok example_user.
Proof.
  destruct example_user_ptes as (Ep & Eu & Hok & _). split; [by rewrite Ep|..].
  - intros va a Hva. rewrite example_user_access by done. case_decide; [|done]. intros [= <-]. exists 0. rewrite Eu. split; [cbn; lia|done].
  - intros va va' a Hva Hva'. rewrite !example_user_access by done. repeat case_decide; [|done..]. intros [= <-] [= E].
    rewrite !pg_no_div, !pg_ofs_mod in *. div_lia.
Qed.

Lemma example_user_writable j : 0 ≤ j < 4096 → is_Some (access true (0x8049000 + j) example_user).
Proof.
  intros Hj. rewrite example_user_access by (unfold user_addr; rewrite PHYS_BASE_eq; lia). rewrite decide_True; [by eexists|]. rewrite pg_no_div. div_lia.
Qed.

(** The arguments of a call at 0x8049000, with a buffer of 4 bytes. *)
Definition example_args (n fd buffer : Z) : list Z := le32 n ++ le32 fd ++ le32 buffer ++ le32 4.
Definition example_call_at (n fd buffer : Z) : sys :=
  mk_sys (mk_proc (put_user_bytes (example_args n fd buffer) 0x8049000 example_user) example_elf_fs 0 0xc0110000 0) 11 false (mk_console [] 0) false (text "cat").

(** The buffer is at 0x8049100. *)
Abbreviation example_call n fd := (example_call_at n fd 0x8049100).

Lemma example_buffer : in_region 0x8049100 4.
Proof. unfold in_region. rewrite PHYS_BASE_eq. lia. Qed.

Lemma example_call_written n fd buffer : written_user (example_args n fd buffer) 0x8049000 example_user (kern_of (example_call_at n fd buffer)).
Proof.
  apply put_user_bytes_ok; [apply example_user_ok|lia|rewrite PHYS_BASE_eq; cbn; lia| |].
  - repeat (apply bytes_app; [apply le32_bytes|]). apply le32_bytes.
  - intros i Hi. apply example_user_writable. cbn in Hi. lia.
Qed.

Lemma example_call_ok n fd buffer : 0 ≤ n < 2 ^ 32 → 0 ≤ fd < 2 ^ 32 → in_region buffer 4 → file_call n fd 0x8049000 buffer 4 (example_call_at n fd buffer).
Proof.
  intros Hn Hfd Hbuf. pose proof (example_call_written n fd buffer) as [W1 _ W3 _ _].
  assert (Hw : ∀ i w, 0 ≤ i < 16 → 0 ≤ w < 2 ^ 32 → (∀ j, 0 ≤ j < 4 → example_args n fd buffer !! Z.to_nat (i + j) = le32 w !! Z.to_nat j) →
    user_word (kern_of (example_call_at n fd buffer)) (0x8049000 + i) = Some w).
  { intros i w Hi Hw Hl.
    assert (Hb : ∀ j, 0 ≤ j < 4 → user_byte (kern_of (example_call_at n fd buffer)) (0x8049000 + i + j) = le32 w !! Z.to_nat j).
    { intros j Hj. rewrite <-Hl by done. assert (Hlt : is_Some (example_args n fd buffer !! Z.to_nat (i + j))) by (rewrite Hl by done; apply lookup_lt_is_Some; cbn; lia).
      apply lookup_lt_is_Some in Hlt. rewrite W3 by (unfold user_addr; rewrite PHYS_BASE_eq; lia). rewrite decide_True by lia. f_equal. f_equal. lia. }
    unfold user_word. rewrite <-(Z.add_0_r (0x8049000 + i)) at 1. rewrite !Hb by lia.
    transitivity (Some (of_le32 (le32 w))); [reflexivity|]. by rewrite of_le32_le32, wrap32_small. }
  split; [done|unfold in_region; rewrite PHYS_BASE_eq; lia|..].
  - apply (Hw 0 n); [lia|done|]. intros j Hj. assert (j = 0 ∨ j = 1 ∨ j = 2 ∨ j = 3) as [-> | [-> | [-> | ->]]] by lia; reflexivity.
  - apply (Hw 4 fd); [lia|done|]. intros j Hj. assert (j = 0 ∨ j = 1 ∨ j = 2 ∨ j = 3) as [-> | [-> | [-> | ->]]] by lia; reflexivity.
  - apply (Hw 8 buffer); [lia|unfold in_region in Hbuf; rewrite PHYS_BASE_eq in Hbuf; lia|]. intros j Hj. assert (j = 0 ∨ j = 1 ∨ j = 2 ∨ j = 3) as [-> | [-> | [-> | ->]]] by lia; reflexivity.
  - apply (Hw 12 4); [lia|lia|]. intros j Hj. assert (j = 0 ∨ j = 1 ∨ j = 2 ∨ j = 3) as [-> | [-> | [-> | ->]]] by lia; reflexivity.
  - done.
  - lia.
Qed.

Lemma example_reading n fd : reading 11 12 example_elf_inode example_elf 0 (fsys (prc (example_call n fd))).
Proof. exact (ld_file _ _ _ _ _ _ _ example_loading). Qed.

Lemma syscall_read_correct_witness :
  let s := example_call SYS_READ 2 in
  ∃ s', syscall_handler 0x8049000 0 s = Ok (Returns 4, s') ∧ in_syscall s' = false ∧
    written_user [127; 69; 76; 70] 0x8049100 (kern_of s) (kern_of s') ∧ reading 11 12 example_elf_inode example_elf 4 (fsys (prc s')).
Proof.
  apply (syscall_read_correct (example_call SYS_READ 2) 0x8049000 0 0x8049100 4 11 12 example_elf_inode example_elf 0).
  - apply example_call_ok; [done|done|apply example_buffer].
  - intros j Hj. rewrite (wu_access _ _ _ _ (example_call_written SYS_READ 2 _)) by (unfold user_addr; rewrite PHYS_BASE_eq; lia).
    replace (0x8049100 + j) with (0x8049000 + (256 + j)) by lia. apply example_user_writable. lia.
  - reflexivity.
  - apply example_reading.
  - split; [lia|]. vm_compute. discriminate.
  - intros n. reflexivity.
Defined.

Lemma syscall_write_correct_witness :
  let s := example_call SYS_WRITE 2 in
  ∃ s', syscall_handler 0x8049000 0 s = Ok (Returns 4, s') ∧ in_syscall s' = false ∧ kern_of s' = kern_of s ∧
    reading 11 12 example_elf_inode (put 0 (slice 0 4 (user_bytes false 4 0x8049100 (kern_of s))) example_elf) 4 (fsys (prc s')).
Proof.
  pose proof (example_call_ok SYS_WRITE 2 _ ltac:(done) ltac:(done) example_buffer) as Hok. set (k := kern_of (example_call SYS_WRITE 2)).
  assert (Hfull : length (user_bytes false 4 0x8049100 k) = 4%nat ∧ bytes (user_bytes false 4 0x8049100 k) ∧
    ∀ i, (i < 4)%nat → user_bytes false 4 0x8049100 k !! i = user_byte k (0x8049100 + Z.of_nat i)).
  { apply user_bytes_full; [apply (fc_user _ _ _ _ _ _ Hok)|lia|rewrite PHYS_BASE_eq; lia|].
    intros j Hj. unfold k. rewrite (wu_access _ _ _ _ (example_call_written SYS_WRITE 2 _)) by (unfold user_addr; rewrite PHYS_BASE_eq; lia).
    replace (0x8049100 + j) with (0x8049000 + (256 + j)) by lia.
    destruct (example_user_writable (256 + j)) as [a Ha]; [lia|]. exists a. by apply access_write. }
  destruct Hfull as (Hl & _ & Hlook).
  pose proof (syscall_write_correct (example_call SYS_WRITE 2) 0x8049000 0 0x8049100 (user_bytes false 4 0x8049100 k) 11 12 example_elf_inode example_elf 0) as H.
  cbv zeta in H. rewrite Hl in H. change (Z.of_nat 4) with 4 in H. apply H; [exact Hok|..].
  - intros j Hj. rewrite Hl in Hj. symmetry. apply Hlook. exact Hj.
  - reflexivity.
  - apply example_reading.
  - reflexivity.
  - split; [lia|]. vm_compute. discriminate.
  - intros n. reflexivity.
Defined.

(** A descriptor that is not mapped, with its call number in the last word of
    the page; and a buffer whose first two bytes are the last of the page. *)
Definition example_last_word : sys :=
  mk_sys (mk_proc (put_user_bytes (le32 SYS_READ) 0x8049ffc example_user) example_elf_fs 0 0xc0110000 0) 11 false (mk_console [] 0) false (text "cat").
Definition example_edge : sys := example_call_at SYS_WRITE STDOUT_FILENO 0x8049ffe.

Lemma example_last_word_written : written_user (le32 SYS_READ) 0x8049ffc example_user (kern_of example_last_word).
Proof.
  apply put_user_bytes_ok; [apply example_user_ok|lia|rewrite PHYS_BASE_eq; cbn; lia|apply le32_bytes|].
  intros i Hi. replace (0x8049ffc + i) with (0x8049000 + (4092 + i)) by lia. apply example_user_writable. cbn in Hi. lia.
Qed.

Lemma example_bad_call : bad_call (kern_of example_last_word) 0x8049ffc.
Proof.
  apply (bad_arguments _ _ SYS_READ); [unfold in_region; rewrite PHYS_BASE_eq; lia|vm_compute; done|constructor|].
  right. split; [unfold in_region; rewrite PHYS_BASE_eq; lia|]. exists 4. split; [constructor|]. vm_compute. done.
Qed.

Lemma syscall_bad_call_witness :
  (∃ s', syscall_handler 0x8049ffc 0 example_last_word = Ok (Exits (-1), s') ∧ killed (set_in_syscall true example_last_word) s') ∧
  (∃ c, syscall_handler 0x8049000 0 example_edge = Ok (Exits (-1), set_con c (set_console_held true (set_in_syscall true example_edge))) ∧
     console_text c = [0; 0] ++ text "cat: exit(-1)
").
Proof.
  assert (Hname : ∀ s, thread_name s = text "cat" → name_ok s).
  { intros s E. unfold name_ok. rewrite E. split; [done|]. apply (bool_decide_unpack (bytes _)). vm_compute. done. }
  split.
  - apply (syscall_bad_call 0x8049ffc 0 example_last_word); [by apply Hname|apply example_last_word_written|lia|apply example_bad_call].
  - assert (Hc : file_call SYS_WRITE STDOUT_FILENO 0x8049000 0x8049ffe 4 example_edge).
    { apply example_call_ok; [done|done|]. unfold in_region. rewrite PHYS_BASE_eq. lia. }
    apply (syscall_bad_call 0x8049000 0 example_edge (Hname example_edge eq_refl) (fc_user _ _ _ _ _ _ Hc) ltac:(lia)) with (buffer := 0x8049ffe) (size := 4) (data := [0; 0]);
      [exact Hc| |done|vm_compute; done].
    intros [|[|j]] Hj; [vm_compute; done..|cbn in Hj; lia].
Defined.

(** The console lock after a write from memory that is not mapped. *)
Example syscall_write_unmapped :
  let s := example_call SYS_WRITE STDOUT_FILENO in
  let s := set_kern_of (put_user_bytes (le32 0x804a000) 0x8049008 (kern_of s)) s in
  match syscall_handler 0x8049000 0 s with
  | Ok (Exits n, s') => n = -1 ∧ console_held s' = true ∧ console_text (con s') = text "cat: exit(-1)
"
  | _ => False
  end.
Proof. vm_compute. done. Qed.
