(* ===== verification/Interrupt.v ===== *)
(** * Descriptor tables and interrupt handlers
    ([userprog/gdt.c], [threads/interrupt.c], [userprog/exception.c])

    Segment descriptors and interrupt gates are 64-bit words that the processor
    takes apart; the functions that put them together are shown to be inverse
    to that.  The interrupt system is a table of gates, a table of handlers, a
    table of names and counters.  Handlers are of any type; the addresses of
    the assembly stubs are a parameter.  Output to ports is recorded; what the
    load of the table registers does to the processor is not modelled.  How an
    interrupt is handled while threads run is part of [Thread]. *)
From Stdlib Require Import Strings.String.
From S2P Require Import Prelude Bytes Stdio.
#[local] Open Scope Z_scope.

(** ** Segment descriptors *)

Definition SEL_NULL : Z := 0x00.
Definition SEL_KCSEG : Z := 0x08.
Definition SEL_KDSEG : Z := 0x10.
Definition SEL_UCSEG : Z := 0x1B.
Definition SEL_UDSEG : Z := 0x23.
Definition SEL_TSS : Z := 0x28.
Definition SEL_CNT : Z := 6.

Inductive seg_class := CLS_SYSTEM | CLS_CODE_DATA.
Inductive seg_granularity := GRAN_BYTE | GRAN_PAGE.
Definition class_bit (c : seg_class) : Z := match c with CLS_SYSTEM => 0 | CLS_CODE_DATA => 1 end.
Definition granularity_bit (g : seg_granularity) : Z := match g with GRAN_BYTE => 0 | GRAN_PAGE => 1 end.

Definition make_seg_desc {S} (base limit : Z) (class : seg_class) (type dpl : Z) (granularity : seg_granularity) : M S Z :=
  ASSERT (limit <=? 0xfffff) ;;
  ASSERT ((0 <=? type) && (type <=? 15)) ;;
  ASSERT ((0 <=? dpl) && (dpl <=? 3)) ;;
  let e0 := Z.lor (Z.land limit 0xffff) (wrap32 (Z.shiftl base 16)) in
  let e1 :=
    Z.lor (Z.lor (Z.lor (Z.lor (Z.lor (Z.lor (Z.lor (Z.lor
      (Z.land (Z.shiftr base 16) 0xff)
      (Z.shiftl type 8))
      (Z.shiftl (class_bit class) 12))
      (Z.shiftl dpl 13))
      (Z.shiftl 1 15))
      (Z.land limit 0xf0000))
      (Z.shiftl 1 22))
      (Z.shiftl (granularity_bit granularity) 23))
      (Z.land base 0xff000000) in
  mret (Z.lor e0 (Z.shiftl e1 32)).

Definition make_code_desc {S} (dpl : Z) : M S Z := make_seg_desc 0 0xfffff CLS_CODE_DATA 10 dpl GRAN_PAGE.
Definition make_data_desc {S} (dpl : Z) : M S Z := make_seg_desc 0 0xfffff CLS_CODE_DATA 2 dpl GRAN_PAGE.
Definition make_tss_desc {S} (laddr : Z) : M S Z := make_seg_desc laddr 0x67 CLS_SYSTEM 9 0 GRAN_BYTE.
Definition make_gdtr_operand (limit base : Z) : Z := Z.lor limit (Z.shiftl base 16).

(** The table, for a task-state segment at [tss]; also the operand of [lgdt]
    for a table at [gdt]. *)
Definition gdt_init {S} (gdt tss : Z) : M S (list Z * Z) :=
  kc ← make_code_desc 0; kd ← make_data_desc 0; uc ← make_code_desc 3; ud ← make_data_desc 3; t ← make_tss_desc tss;
  let set sel d l := <[Z.to_nat (sel / 8) := d]> l in
  mret (set SEL_TSS t (set SEL_UDSEG ud (set SEL_UCSEG uc (set SEL_KDSEG kd (set SEL_KCSEG kc (set SEL_NULL 0 (replicate (Z.to_nat SEL_CNT) 0)))))),
        make_gdtr_operand (8 * SEL_CNT - 1) gdt).

(** ** Interrupt gates *)

Inductive intr_level := INTR_OFF | INTR_ON.
#[export] Instance intr_level_eq_dec : EqDecision intr_level.
Proof. solve_decision. Defined.

Definition make_gate {S} (function dpl type : Z) : M S Z :=
  ASSERT (negb (function =? NULL)) ;;
  ASSERT ((0 <=? dpl) && (dpl <=? 3)) ;;
  ASSERT ((0 <=? type) && (type <=? 15)) ;;
  let e0 := Z.lor (Z.land function 0xffff) (Z.shiftl SEL_KCSEG 16) in
  let e1 := Z.lor (Z.lor (Z.lor (Z.lor (Z.land function 0xffff0000) (Z.shiftl 1 15)) (Z.shiftl dpl 13)) (Z.shiftl 0 12)) (Z.shiftl type 8) in
  mret (Z.lor e0 (Z.shiftl e1 32)).

Definition make_intr_gate {S} (function dpl : Z) : M S Z := make_gate function dpl 14.
Definition make_trap_gate {S} (function dpl : Z) : M S Z := make_gate function dpl 15.
Definition make_idtr_operand (limit base : Z) : Z := Z.lor limit (Z.shiftl base 16).

(** ** The interrupt system *)

Section interrupts.
Context {handler : Type} (intr_stubs : Z → Z).

Record intr := mk_intr {
  idt : list Z;
  intr_handlers : list (option handler);
  intr_names : list (list Z);
  unexpected_cnt : list Z;
  ports : list (Z * Z)
}.

Definition INTR_CNT : Z := 256.
Definition PIC0_CTRL : Z := 0x20.
Definition PIC0_DATA : Z := 0x21.
Definition PIC1_CTRL : Z := 0xa0.
Definition PIC1_DATA : Z := 0xa1.

Definition outb (port data : Z) : M intr unit :=
  modify (λ s, mk_intr (idt s) (intr_handlers s) (intr_names s) (unexpected_cnt s) (ports s ++ [(port, data)])).
Definition set_idt (vec_no gate : Z) : M intr unit :=
  modify (λ s, mk_intr (<[Z.to_nat vec_no := gate]> (idt s)) (intr_handlers s) (intr_names s) (unexpected_cnt s) (ports s)).
Definition set_handler (vec_no : Z) (h : handler) : M intr unit :=
  modify (λ s, mk_intr (idt s) (<[Z.to_nat vec_no := Some h]> (intr_handlers s)) (intr_names s) (unexpected_cnt s) (ports s)).
Definition set_name (vec_no : Z) (name : list Z) : M intr unit :=
  modify (λ s, mk_intr (idt s) (intr_handlers s) (<[Z.to_nat vec_no := name]> (intr_names s)) (unexpected_cnt s) (ports s)).

Definition pic_init : M intr unit :=
  outb PIC0_DATA 0xff ;; outb PIC1_DATA 0xff ;;
  outb PIC0_CTRL 0x11 ;; outb PIC0_DATA 0x20 ;; outb PIC0_DATA 0x04 ;; outb PIC0_DATA 0x01 ;;
  outb PIC1_CTRL 0x11 ;; outb PIC1_DATA 0x28 ;; outb PIC1_DATA 0x02 ;; outb PIC1_DATA 0x01 ;;
  outb PIC0_DATA 0x00 ;; outb PIC1_DATA 0x00.

Definition pic_end_of_interrupt (irq : Z) : M intr unit :=
  ASSERT ((0x20 <=? irq) && (irq <? 0x30)) ;;
  outb 0x20 0x20 ;;
  when (0x28 <=? irq) (outb 0xa0 0x20).

Definition exception_names : list (Z * list Z) :=
  [(0, text "#DE Divide Error"); (1, text "#DB Debug Exception"); (2, text "NMI Interrupt"); (3, text "#BP Breakpoint Exception");
   (4, text "#OF Overflow Exception"); (5, text "#BR BOUND Range Exceeded Exception"); (6, text "#UD Invalid Opcode Exception");
   (7, text "#NM Device Not Available Exception"); (8, text "#DF Double Fault Exception"); (9, text "Coprocessor Segment Overrun");
   (10, text "#TS Invalid TSS Exception"); (11, text "#NP Segment Not Present"); (12, text "#SS Stack Fault Exception");
   (13, text "#GP General Protection Exception"); (14, text "#PF Page-Fault Exception"); (16, text "#MF x87 FPU Floating-Point Error");
   (17, text "#AC Alignment Check Exception"); (18, text "#MC Machine-Check Exception"); (19, text "#XF SIMD Floating-Point Exception")].

Fixpoint set_names (l : list (Z * list Z)) : M intr unit :=
  match l with [] => mret tt | (v, n) :: l => set_name v n ;; set_names l end.

Definition intr_init : M intr unit :=
  pic_init ;;
  for_loop (Z.to_nat INTR_CNT) 0 (λ i, g ← make_intr_gate (intr_stubs i) 0; set_idt i g) ;;
  for_loop (Z.to_nat INTR_CNT) 0 (λ i, set_name i (text "unknown")) ;;
  set_names exception_names.

(** [vec_no] is a byte. *)
Definition register_handler (vec_no dpl : Z) (level : intr_level) (h : handler) (name : list Z) : M intr unit :=
  o ← gets (λ s, intr_handlers s !! Z.to_nat vec_no);
  ASSERT (match o with Some None => true | _ => false end) ;;
  g ← (match level with INTR_ON => make_trap_gate (intr_stubs vec_no) dpl | INTR_OFF => make_intr_gate (intr_stubs vec_no) dpl end);
  set_idt vec_no g ;;
  set_handler vec_no h ;;
  set_name vec_no name.

Definition intr_register_ext (vec_no : Z) (h : handler) (name : list Z) : M intr unit :=
  ASSERT ((0x20 <=? vec_no) && (vec_no <=? 0x2f)) ;;
  register_handler vec_no 0 INTR_OFF h name.
Definition intr_register_int (vec_no dpl : Z) (level : intr_level) (h : handler) (name : list Z) : M intr unit :=
  ASSERT ((vec_no <? 0x20) || (0x2f <? vec_no)) ;;
  register_handler vec_no dpl level h name.

(** Handlers without their arguments: the message that is printed, if any. *)
Definition unexpected_interrupt (vec_no : Z) : M intr bool :=
  o ← gets (λ s, unexpected_cnt s !! Z.to_nat vec_no);
  match o with
  | None => throw BadAccess
  | Some n =>
      let n := wrap32 (n + 1) in
      modify (λ s, mk_intr (idt s) (intr_handlers s) (intr_names s) (<[Z.to_nat vec_no := n]> (unexpected_cnt s)) (ports s)) ;;
      mret (Z.land n (wrap32 (n - 1)) =? 0)
  end.

Definition intr_name (vec : Z) : M intr (list Z) :=
  o ← gets (λ s, intr_names s !! Z.to_nat vec);
  match o with Some n => mret n | None => throw BadAccess end.

(** *** The handlers of the kernel *)

Context (kill page_fault syscall_handler timer_interrupt keyboard_interrupt serial_interrupt ide_interrupt : handler).

Definition exception_init : M intr unit :=
  intr_register_int 3 3 INTR_ON kill (text "#BP Breakpoint Exception") ;;
  intr_register_int 4 3 INTR_ON kill (text "#OF Overflow Exception") ;;
  intr_register_int 5 3 INTR_ON kill (text "#BR BOUND Range Exceeded Exception") ;;
  intr_register_int 0 0 INTR_ON kill (text "#DE Divide Error") ;;
  intr_register_int 1 0 INTR_ON kill (text "#DB Debug Exception") ;;
  intr_register_int 6 0 INTR_ON kill (text "#UD Invalid Opcode Exception") ;;
  intr_register_int 7 0 INTR_ON kill (text "#NM Device Not Available Exception") ;;
  intr_register_int 11 0 INTR_ON kill (text "#NP Segment Not Present") ;;
  intr_register_int 12 0 INTR_ON kill (text "#SS Stack Fault Exception") ;;
  intr_register_int 13 0 INTR_ON kill (text "#GP General Protection Exception") ;;
  intr_register_int 16 0 INTR_ON kill (text "#MF x87 FPU Floating-Point Error") ;;
  intr_register_int 19 0 INTR_ON kill (text "#XF SIMD Floating-Point Exception") ;;
  intr_register_int 14 0 INTR_OFF page_fault (text "#PF Page-Fault Exception").

Definition syscall_init : M intr unit := intr_register_int 0x30 3 INTR_ON syscall_handler (text "syscall").
Definition timer_register : M intr unit := intr_register_ext 0x20 timer_interrupt (text "8254 Timer").
Definition kbd_init : M intr unit := intr_register_ext 0x21 keyboard_interrupt (text "8042 Keyboard").
Definition serial_register : M intr unit := intr_register_ext (0x20 + 4) serial_interrupt (text "serial").
Definition ide_register (chan_no : Z) : M intr unit := intr_register_ext (14 + chan_no + 0x20) ide_interrupt (text "ide" ++ [48 + chan_no]).

(** The calls of [main] that register handlers, in order. *)
Definition kernel_interrupts : M intr unit :=
  intr_init ;; timer_register ;; kbd_init ;; exception_init ;; syscall_init ;; serial_register ;; ide_register 0 ;; ide_register 1.
End interrupts.

(** ** Bit fields *)

Lemma lor_shiftl a b k : 0 ≤ k → 0 ≤ a < 2 ^ k → Z.lor a (Z.shiftl b k) = a + b * 2 ^ k.
Proof.
  intros Hk Ha. rewrite Z.shiftl_mul_pow2 by done. assert (Hl : Z.land a (b * 2 ^ k) = 0).
  { apply Z.bits_inj'. intros n Hn. rewrite Z.land_spec, Z.bits_0. destruct (decide (n < k)).
    - rewrite Z.mul_pow2_bits_low by lia. by rewrite andb_false_r.
    - rewrite <-(Z.mod_small a (2 ^ k)), Z.mod_pow2_bits_high by lia. done. }
  rewrite <-Z.lxor_lor by done. by rewrite Z.add_nocarry_lxor.
Qed.

Lemma lor_multiple a b k : 0 ≤ k → 0 ≤ a < 2 ^ k → b mod 2 ^ k = 0 → Z.lor a b = a + b.
Proof.
  intros Hk Ha Hb. assert (Hp : 0 < 2 ^ k) by (apply Z.pow_pos_nonneg; lia). assert (E : b = (b / 2 ^ k) * 2 ^ k) by (pose proof (Z.div_mod b (2 ^ k)); lia).
  rewrite E at 1. rewrite <-Z.shiftl_mul_pow2, lor_shiftl by done. lia.
Qed.

(** The bits of [a] from [i] on under a mask of [n] ones. *)
Lemma land_field a i n : 0 ≤ i → 0 ≤ n → Z.land a (Z.ones n * 2 ^ i) = (a / 2 ^ i) mod 2 ^ n * 2 ^ i.
Proof.
  intros Hi Hn. rewrite <-Z.land_ones, <-Z.shiftr_div_pow2 by done. rewrite <-!Z.shiftl_mul_pow2 by done. apply Z.bits_inj'. intros k Hk.
  rewrite Z.land_spec, !Z.shiftl_spec, Z.land_spec by done. destruct (decide (i ≤ k)).
  - rewrite Z.shiftr_spec by lia. by replace (k - i + i) with k by lia.
  - rewrite (Z.testbit_neg_r (Z.ones n)) by lia. by rewrite !andb_false_r.
Qed.

(** [lor_fields] turns a disjunction of shifted fields into their sum. *)
Ltac lor_fields :=
  repeat match goal with
  | |- context [Z.lor ?a (Z.shiftl ?b ?k)] => lazymatch a with context [Z.lor] => fail | _ => rewrite (lor_shiftl a b k) by lia end
  end.

(** A field of a word: [n] bits from bit [i] on. *)
Definition field (d i n : Z) : Z := (d / 2 ^ i) mod 2 ^ n.

(** ** What the processor reads *)

Definition desc_base (d : Z) : Z := field d 16 24 + field d 56 8 * 2 ^ 24.
Definition desc_limit (d : Z) : Z := field d 0 16 + field d 48 4 * 2 ^ 16.
Definition desc_type (d : Z) : Z := field d 40 4.
Definition desc_class (d : Z) : Z := field d 44 1.
Definition desc_dpl (d : Z) : Z := field d 45 2.
Definition desc_present (d : Z) : Z := field d 47 1.
Definition desc_32bit (d : Z) : Z := field d 54 1.
Definition desc_granularity (d : Z) : Z := field d 55 1.
Definition gate_offset (g : Z) : Z := field g 0 16 + field g 48 16 * 2 ^ 16.
Definition gate_selector (g : Z) : Z := field g 16 16.

Lemma seg_desc_value {S} base limit class type dpl granularity (s : S) :
  0 ≤ base < 2 ^ 32 → 0 ≤ limit < 2 ^ 20 → 0 ≤ type < 16 → 0 ≤ dpl < 4 →
  make_seg_desc base limit class type dpl granularity s =
    Ok (limit mod 2 ^ 16 + (base mod 2 ^ 16) * 2 ^ 16 + (base / 2 ^ 16) mod 2 ^ 8 * 2 ^ 32 + type * 2 ^ 40 + class_bit class * 2 ^ 44 + dpl * 2 ^ 45 + 2 ^ 47 +
        limit / 2 ^ 16 * 2 ^ 48 + 2 ^ 54 + granularity_bit granularity * 2 ^ 55 + base / 2 ^ 24 * 2 ^ 56, s).
Proof.
  intros Hb Hl Ht Hd. assert (Hc : 0 ≤ class_bit class < 2) by (destruct class; cbn; lia). assert (Hg : 0 ≤ granularity_bit granularity < 2) by (destruct granularity; cbn; lia).
  unfold make_seg_desc. unfold mbind at 1, M_bind at 1, ASSERT at 1. rewrite (proj2 (Z.leb_le limit _)) by lia.
  unfold mbind at 1, M_bind at 1, ASSERT at 1. rewrite (proj2 (Z.leb_le 0 type)), (proj2 (Z.leb_le type _)) by lia. cbn [andb].
  unfold mbind at 1, M_bind at 1, ASSERT at 1. rewrite (proj2 (Z.leb_le 0 dpl)), (proj2 (Z.leb_le dpl _)) by lia. cbn [andb]. unfold mret, M_ret. do 2 f_equal.
  change 0xffff with (Z.ones 16). rewrite Z.land_ones by lia. unfold wrap32. rewrite (Z.shiftl_mul_pow2 base) by lia.
  replace ((base * 2 ^ 16) mod 2 ^ 32) with (Z.shiftl (base mod 2 ^ 16) 16) by (rewrite Z.shiftl_mul_pow2 by lia; div_lia).
  rewrite (lor_shiftl (limit mod 2 ^ 16)) by (try apply Z.mod_pos_bound; lia).
  change 0xff with (Z.ones 8). rewrite Z.land_ones, Z.shiftr_div_pow2 by lia.
  change 0xf0000 with (Z.ones 4 * 2 ^ 16). rewrite land_field by lia. change 0xff000000 with (Z.ones 8 * 2 ^ 24). rewrite land_field by lia.
  rewrite (Z.mod_small (limit / 2 ^ 16)) by div_lia. rewrite (Z.mod_small (base / 2 ^ 24)) by div_lia. rewrite <-(Z.shiftl_mul_pow2 (limit / 2 ^ 16)), <-(Z.shiftl_mul_pow2 (base / 2 ^ 24)) by lia.
  assert (B0 : 0 ≤ limit mod 2 ^ 16 < 2 ^ 16) by (apply Z.mod_pos_bound; lia). assert (B1 : 0 ≤ base mod 2 ^ 16 < 2 ^ 16) by (apply Z.mod_pos_bound; lia).
  assert (B2 : 0 ≤ (base / 2 ^ 16) mod 2 ^ 8 < 2 ^ 8) by (apply Z.mod_pos_bound; lia). assert (B3 : 0 ≤ limit / 2 ^ 16 < 16) by div_lia.
  generalize dependent (limit mod 2 ^ 16); intros l0 B0. generalize dependent (base mod 2 ^ 16); intros b0 B1. generalize dependent ((base / 2 ^ 16) mod 2 ^ 8); intros b1 B2.
  generalize dependent (limit / 2 ^ 16); intros l1 B3. generalize dependent (base / 2 ^ 24); intros b2.
  lor_fields. lia.
Qed.

(** A segment descriptor holds what it was made of: taken apart the way the
    processor does it gives back base, limit, class, type, privilege level and
    granularity, of a present 32-bit segment. *)
Theorem seg_desc_roundtrip {S} base limit class type dpl granularity (s : S) :
  0 ≤ base < 2 ^ 32 → 0 ≤ limit < 2 ^ 20 → 0 ≤ type < 16 → 0 ≤ dpl < 4 → ∃ d,
  make_seg_desc base limit class type dpl granularity s = Ok (d, s) ∧ 0 ≤ d < 2 ^ 64 ∧
  desc_base d = base ∧ desc_limit d = limit ∧ desc_class d = class_bit class ∧ desc_type d = type ∧ desc_dpl d = dpl ∧
  desc_granularity d = granularity_bit granularity ∧ desc_present d = 1 ∧ desc_32bit d = 1.
Proof.
  intros Hb Hl Ht Hd. assert (Hc : 0 ≤ class_bit class < 2) by (destruct class; cbn; lia). assert (Hg : 0 ≤ granularity_bit granularity < 2) by (destruct granularity; cbn; lia).
  rewrite seg_desc_value by done. eexists. split; [done|]. unfold desc_base, desc_limit, desc_class, desc_type, desc_dpl, desc_granularity, desc_present, desc_32bit, field.
  generalize dependent (class_bit class); intros c Hc. generalize dependent (granularity_bit granularity); intros g Hg.
  split_and!; div_lia.
Qed.

Lemma gate_value {S} function dpl type (s : S) : 0 < function < 2 ^ 32 → 0 ≤ dpl < 4 → 0 ≤ type < 16 →
  make_gate function dpl type s =
    Ok (function mod 2 ^ 16 + SEL_KCSEG * 2 ^ 16 + type * 2 ^ 40 + dpl * 2 ^ 45 + 2 ^ 47 + function / 2 ^ 16 * 2 ^ 48, s).
Proof.
  intros Hf Hd Ht. unfold make_gate. unfold mbind at 1, M_bind at 1, ASSERT at 1. rewrite (proj2 (Z.eqb_neq function 0)) by lia. cbn [negb].
  unfold mbind at 1, M_bind at 1, ASSERT at 1. rewrite (proj2 (Z.leb_le 0 dpl)), (proj2 (Z.leb_le dpl _)) by lia. cbn [andb].
  unfold mbind at 1, M_bind at 1, ASSERT at 1. rewrite (proj2 (Z.leb_le 0 type)), (proj2 (Z.leb_le type _)) by lia. cbn [andb]. unfold mret, M_ret. do 2 f_equal.
  change 0xffff with (Z.ones 16). rewrite Z.land_ones by lia. change 0xffff0000 with (Z.ones 16 * 2 ^ 16). rewrite land_field by lia.
  rewrite (Z.mod_small (function / 2 ^ 16)) by div_lia. change SEL_KCSEG with 8.
  assert (B0 : 0 ≤ function mod 2 ^ 16 < 2 ^ 16) by (apply Z.mod_pos_bound; lia). assert (B1 : 0 ≤ function / 2 ^ 16 < 2 ^ 16) by div_lia.
  generalize dependent (function mod 2 ^ 16); intros f0 B0. generalize dependent (function / 2 ^ 16); intros f1 B1.
  rewrite (lor_shiftl f0) by lia. rewrite !(Z.shiftl_mul_pow2 _ 15), !(Z.shiftl_mul_pow2 _ 13), !(Z.shiftl_mul_pow2 _ 12), !(Z.shiftl_mul_pow2 _ 8) by lia.
  assert (L : ∀ x y k, 0 ≤ k → 0 ≤ y < 2 ^ k → x mod 2 ^ k = 0 → Z.lor x y = x + y) by (intros x y k H1 H2 H3; rewrite Z.lor_comm, (lor_multiple y x k) by done; lia).
  rewrite (L (f1 * 2 ^ 16) _ 16) by div_lia. rewrite (L _ (dpl * 2 ^ 13) 15) by div_lia. change (0 * 2 ^ 12) with 0. rewrite Z.lor_0_r.
  rewrite (L _ (type * 2 ^ 8) 12) by div_lia. rewrite lor_shiftl by lia. lia.
Qed.

(** A gate to the kernel's code with the given entry point. *)
Record gate_ok (g function dpl type : Z) : Prop := {
  go_offset : gate_offset g = function;
  go_selector : gate_selector g = SEL_KCSEG;
  go_dpl : desc_dpl g = dpl;
  go_type : desc_type g = type;
  go_system : desc_class g = 0;
  go_present : desc_present g = 1
}.

Lemma make_gate_ok {S} function dpl type (s : S) : 0 < function < 2 ^ 32 → 0 ≤ dpl < 4 → 0 ≤ type < 16 → ∃ g,
  make_gate function dpl type s = Ok (g, s) ∧ gate_ok g function dpl type.
Proof.
  intros Hf Hd Ht. rewrite gate_value by done. eexists. split; [done|]. change SEL_KCSEG with 8.
  split; unfold gate_offset, gate_selector, desc_dpl, desc_type, desc_class, desc_present, field; change SEL_KCSEG with 8; div_lia.
Qed.

(** ** The table of interrupts *)

Section table.
Context {handler : Type} (intr_stubs : Z → Z).
Hypothesis stubs_ok : ∀ i, 0 ≤ i < 256 → 0 < intr_stubs i < 2 ^ 32.

(** What is registered for a vector: privilege level, interrupt level, handler. *)
Abbreviation entry := (Z * intr_level * handler)%type.
Definition entry_dpl (e : option entry) : Z := match e with Some (d, _, _) => d | None => 0 end.
Definition entry_type (e : option entry) : Z := match e with Some (_, INTR_ON, _) => 15 | _ => 14 end.

(** The tables stand for the map [t]. *)
Record table_ok (s : intr) (t : gmap Z entry) : Prop := {
  to_gates : length (idt s) = 256%nat;
  to_handlers : length (intr_handlers s) = 256%nat;
  to_gate v g : 0 ≤ v < 256 → idt s !! Z.to_nat v = Some g → gate_ok g (intr_stubs v) (entry_dpl (t !! v)) (entry_type (t !! v));
  to_handler v : 0 ≤ v < 256 → intr_handlers s !! Z.to_nat v = Some (snd <$> t !! v)
}.

(** A call of one of the two functions that register a handler. *)
Inductive registration := Ext (vec_no : Z) (h : handler) (name : list Z) | Int (vec_no dpl : Z) (level : intr_level) (h : handler) (name : list Z).
Definition reg_vec (r : registration) : Z := match r with Ext v _ _ => v | Int v _ _ _ _ => v end.
Definition reg_entry (r : registration) : entry := match r with Ext _ h _ => (0, INTR_OFF, h) | Int _ d l h _ => (d, l, h) end.
Definition reg_legal (r : registration) : Prop :=
  match r with Ext v _ _ => 0x20 ≤ v ≤ 0x2f | Int v d _ _ _ => 0 ≤ v < 256 ∧ ¬ 0x20 ≤ v ≤ 0x2f ∧ 0 ≤ d < 4 end.
Definition register (r : registration) : M intr unit :=
  match r with Ext v h n => intr_register_ext intr_stubs v h n | Int v d l h n => intr_register_int intr_stubs v d l h n end.

Lemma register_handler_ok s t v d l h n : table_ok s t → 0 ≤ v < 256 → 0 ≤ d < 4 →
  match t !! v with
  | Some _ => register_handler intr_stubs v d l h n s = Err AssertFailed
  | None => wp (register_handler intr_stubs v d l h n) (λ _ s', table_ok s' (<[v := (d, l, h)]> t)) s
  end.
Proof.
  intros Ht Hv Hd. destruct (t !! v) as [e|] eqn:E.
  { unfold register_handler, mbind, M_bind, gets. rewrite (to_handler _ _ Ht v Hv), E. done. }
  unfold register_handler. repeat wp_step; [by rewrite (to_handler _ _ Ht v Hv), E|].
  assert (Hg : wp (match l with INTR_ON => make_trap_gate (intr_stubs v) d | INTR_OFF => make_intr_gate (intr_stubs v) d end)
    (λ g s', s' = s ∧ gate_ok g (intr_stubs v) d (entry_type (Some (d, l, h)))) s).
  { apply wp_Ok. destruct l; unfold make_trap_gate, make_intr_gate.
    - destruct (make_gate_ok (intr_stubs v) d 14 s) as (g & Eg & Hg); [by apply stubs_ok|done|lia|]. eauto.
    - destruct (make_gate_ok (intr_stubs v) d 15 s) as (g & Eg & Hg); [by apply stubs_ok|done|lia|]. eauto. }
  eapply wp_mono; [exact Hg|]. intros g s' [-> Hgo]. unfold set_idt, set_handler, set_name. repeat wp_step.
  destruct Ht as [H1 H2 H3 H4]. split; cbn [idt intr_handlers].
  - by rewrite length_insert.
  - by rewrite length_insert.
  - intros v' g' Hv'. destruct (decide (v' = v)) as [->|Hne].
    + rewrite list_lookup_insert_eq by lia. intros [= <-]. by rewrite lookup_insert_eq.
    + rewrite list_lookup_insert_ne by lia. rewrite lookup_insert_ne by done. by apply H3.
  - intros v' Hv'. destruct (decide (v' = v)) as [->|Hne].
    + rewrite list_lookup_insert_eq by lia. by rewrite lookup_insert_eq.
    + rewrite list_lookup_insert_ne by lia. rewrite lookup_insert_ne by done. by apply H4.
Qed.

Lemma register_ok s t r (Q : unit → intr → Prop) : table_ok s t → reg_legal r → t !! reg_vec r = None →
  (∀ s', table_ok s' (<[reg_vec r := reg_entry r]> t) → Q tt s') → wp (register r) Q s.
Proof.
  intros Ht Hl Hn HQ. eapply (wp_mono _ (λ _ s', table_ok s' (<[reg_vec r := reg_entry r]> t))); [|intros []; apply HQ].
  destruct r as [v h n|v d l h n]; cbn [reg_vec reg_legal register reg_entry] in *.
  - pose proof (register_handler_ok s t v 0 INTR_OFF h n Ht ltac:(lia) ltac:(lia)) as H. rewrite Hn in H. unfold intr_register_ext. wp_step. wp_step; [|done].
    rewrite (proj2 (Z.leb_le 0x20 v)), (proj2 (Z.leb_le v 0x2f)) by lia. done.
  - pose proof (register_handler_ok s t v d l h n Ht ltac:(lia) ltac:(lia)) as H. rewrite Hn in H. unfold intr_register_int. wp_step. wp_step; [|done].
    destruct (Z.ltb_spec v 0x20), (Z.ltb_spec 0x2f v); cbn; lia || done.
Qed.

(** Registering a handler.  A legal registration of a vector that has no
    handler yet adds it to the table: the gate of the vector leads to its stub
    in the kernel's code segment, can be called from user mode only with
    privilege level 3, and turns interrupts off unless level INTR_ON was asked
    for, which is always so for external interrupts; no other vector changes.
    A second registration of a vector, or a vector of the wrong range, is
    stopped by an assertion. *)
Theorem register_correct s t r : table_ok s t → 0 ≤ reg_vec r < 256 →
  (reg_legal r → t !! reg_vec r = None → wp (register r) (λ _ s', table_ok s' (<[reg_vec r := reg_entry r]> t)) s) ∧
  (is_Some (t !! reg_vec r) → reg_legal r → register r s = Err AssertFailed) ∧
  (match r with Ext v _ _ => ¬ 0x20 ≤ v ≤ 0x2f | Int v _ _ _ _ => 0x20 ≤ v ≤ 0x2f end → register r s = Err AssertFailed).
Proof.
  intros Ht Hv. split_and!.
  - intros Hl Hn. by eapply register_ok.
  - intros [e He] Hl. destruct r as [v h n|v d l h n]; cbn [reg_vec reg_legal register reg_entry] in *.
    + pose proof (register_handler_ok s t v 0 INTR_OFF h n Ht ltac:(lia) ltac:(lia)) as H. rewrite He in H. unfold intr_register_ext, mbind, M_bind, ASSERT.
      rewrite (proj2 (Z.leb_le 0x20 v)), (proj2 (Z.leb_le v 0x2f)) by lia. done.
    + pose proof (register_handler_ok s t v d l h n Ht ltac:(lia) ltac:(lia)) as H. rewrite He in H. unfold intr_register_int, mbind, M_bind, ASSERT.
      destruct (Z.ltb_spec v 0x20), (Z.ltb_spec 0x2f v); cbn; lia || done.
  - destruct r as [v h n|v d l h n]; cbn [register]; intros H; [unfold intr_register_ext|unfold intr_register_int]; unfold mbind, M_bind, ASSERT.
    + destruct (Z.leb_spec 0x20 v), (Z.leb_spec v 0x2f); cbn; lia || done.
    + rewrite (proj2 (Z.ltb_ge v 0x20)), (proj2 (Z.ltb_ge 0x2f v)) by lia. done.
Qed.

(** *** The table of the kernel *)

(** The tables before [intr_init]. *)
Definition boot (s : intr) : Prop := length (idt s) = 256%nat ∧ intr_handlers s = replicate 256 (@None handler).

Lemma set_names_ok l (Q : unit → intr → Prop) s : (∀ n, Q tt (mk_intr (idt s) (intr_handlers s) n (unexpected_cnt s) (ports s))) → wp (set_names (handler := handler) l) Q s.
Proof.
  revert s. induction l as [|[v n] l IH]; intros s HQ; cbn [set_names]; [wp_step; specialize (HQ (intr_names s)); by destruct s|].
  wp_step. unfold set_name. wp_step. apply IH. cbn. intros n'. apply HQ.
Qed.

Lemma wp_port_write port data (Q : unit → intr → Prop) s :
  (∀ p, Q tt (mk_intr (idt s) (intr_handlers s) (intr_names s) (unexpected_cnt s) p)) → wp (outb (handler := handler) port data) Q s.
Proof. intros H. unfold outb. wp_step. apply H. Qed.

Lemma pic_init_ok (Q : unit → intr → Prop) s : (∀ p, Q tt (mk_intr (idt s) (intr_handlers s) (intr_names s) (unexpected_cnt s) p)) → wp (pic_init (handler := handler)) Q s.
Proof. intros H. unfold pic_init. do 11 (wp_step; apply wp_port_write; cbn [idt intr_handlers intr_names unexpected_cnt]; intros ?). apply wp_port_write. apply H. Qed.

Lemma intr_init_ok s (Q : unit → intr → Prop) : boot s → (∀ s', table_ok s' ∅ → Q tt s') → wp (intr_init intr_stubs) Q s.
Proof.
  intros [Hl Hh] HQ. unfold intr_init. wp_step. apply pic_init_ok. intros p. wp_step.
  set (I := λ (i : Z) (s' : intr), length (idt s') = 256%nat ∧ intr_handlers s' = replicate 256 (@None handler) ∧
    ∀ v g, 0 ≤ v < i → idt s' !! Z.to_nat v = Some g → gate_ok g (intr_stubs v) 0 14).
  eapply wp_mono; [apply (wp_for_loop I)|].
  - split; [done|]. split; [done|]. lia.
  - intros j s' Hj (H1 & H2 & H3). change (Z.of_nat (Z.to_nat INTR_CNT)) with 256 in Hj. wp_step.
    destruct (make_gate_ok (intr_stubs j) 0 14 s') as (g & Eg & Hg); [apply stubs_ok; lia|lia|lia|]. apply wp_Ok. exists g, s'. split; [done|].
    unfold set_idt. wp_step. split; cbn [idt intr_handlers]; [by rewrite length_insert|]. split; [done|]. intros v g' Hv.
    destruct (decide (v = j)) as [->|Hne]; [rewrite list_lookup_insert_eq by lia; by intros [= <-]|]. rewrite list_lookup_insert_ne by lia. apply H3. lia.
  - intros [] s1 (H1 & H2 & H3). change (0 + Z.of_nat (Z.to_nat INTR_CNT)) with 256 in H3. cbv beta. wp_step.
    eapply wp_mono; [apply (wp_for_loop (λ _ s', idt s' = idt s1 ∧ intr_handlers s' = intr_handlers s1)); [done|]|].
    { intros j s' _ [E1 E2]. unfold set_name. wp_step. done. }
    intros [] s2 [E1 E2]. apply set_names_ok. intros n. apply HQ. split; cbn [idt intr_handlers]; rewrite ?E1, ?E2; [done|by rewrite H2| |].
    + intros v g Hv Hg. rewrite lookup_empty. by apply H3.
    + intros v Hv. rewrite lookup_empty, H2. apply lookup_replicate. split; [done|lia].
Qed.

Context (kill page_fault syscall_handler timer_interrupt keyboard_interrupt serial_interrupt ide_interrupt : handler).

Definition kernel_table : gmap Z entry :=
  list_to_map ((λ v, (v, (3, INTR_ON, kill))) <$> [3; 4; 5]) ∪ list_to_map ((λ v, (v, (0, INTR_ON, kill))) <$> [0; 1; 6; 7; 11; 12; 13; 16; 19]) ∪
  list_to_map [(14, (0, INTR_OFF, page_fault)); (0x30, (3, INTR_ON, syscall_handler)); (0x20, (0, INTR_OFF, timer_interrupt));
               (0x21, (0, INTR_OFF, keyboard_interrupt)); (0x24, (0, INTR_OFF, serial_interrupt)); (0x2e, (0, INTR_OFF, ide_interrupt)); (0x2f, (0, INTR_OFF, ide_interrupt))].

(** One registration of a sequence. *)
Ltac registers r :=
  lazymatch goal with H : table_ok ?s ?t |- _ => eapply (register_ok s t r); [exact H|cbn; lia|reflexivity|clear s H; intros ? ?; cbn [reg_vec reg_entry] in *] end.

Lemma kernel_interrupts_ok s : boot s →
  wp (kernel_interrupts intr_stubs kill page_fault syscall_handler timer_interrupt keyboard_interrupt serial_interrupt ide_interrupt) (λ _ s', table_ok s' kernel_table) s.
Proof.
  intros Hb. unfold kernel_interrupts, exception_init, syscall_init, timer_register, kbd_init, serial_register, ide_register.
  wp_step. apply intr_init_ok; [done|]. intros s0 H0.
  wp_step. registers (Ext 0x20 timer_interrupt (text "8254 Timer")).
  wp_step. registers (Ext 0x21 keyboard_interrupt (text "8042 Keyboard")). wp_step.
  wp_step. registers (Int 3 3 INTR_ON kill (text "#BP Breakpoint Exception")).
  wp_step. registers (Int 4 3 INTR_ON kill (text "#OF Overflow Exception")).
  wp_step. registers (Int 5 3 INTR_ON kill (text "#BR BOUND Range Exceeded Exception")).
  wp_step. registers (Int 0 0 INTR_ON kill (text "#DE Divide Error")).
  wp_step. registers (Int 1 0 INTR_ON kill (text "#DB Debug Exception")).
  wp_step. registers (Int 6 0 INTR_ON kill (text "#UD Invalid Opcode Exception")).
  wp_step. registers (Int 7 0 INTR_ON kill (text "#NM Device Not Available Exception")).
  wp_step. registers (Int 11 0 INTR_ON kill (text "#NP Segment Not Present")).
  wp_step. registers (Int 12 0 INTR_ON kill (text "#SS Stack Fault Exception")).
  wp_step. registers (Int 13 0 INTR_ON kill (text "#GP General Protection Exception")).
  wp_step. registers (Int 16 0 INTR_ON kill (text "#MF x87 FPU Floating-Point Error")).
  wp_step. registers (Int 19 0 INTR_ON kill (text "#XF SIMD Floating-Point Exception")).
  registers (Int 14 0 INTR_OFF page_fault (text "#PF Page-Fault Exception")).
  wp_step. registers (Int 0x30 3 INTR_ON syscall_handler (text "syscall")).
  wp_step. registers (Ext 0x24 serial_interrupt (text "serial")).
  wp_step. registers (Ext 0x2e ide_interrupt (text "ide0")).
  registers (Ext 0x2f ide_interrupt (text "ide1")).
  match goal with H : table_ok _ ?t |- _ => assert (E : t = kernel_table) by reflexivity; by rewrite <-E end.
Qed.

(** C18: The interrupts of the running kernel.  All handlers are registered
    without a failed assertion, and then user mode can call exactly the
    breakpoint, overflow and bound exceptions and the system call vector; all
    external interrupts and page faults are taken with interrupts off; every
    gate leads to the stub of its vector in kernel code. *)
Theorem kernel_interrupts_correct s : boot s →
  wp (kernel_interrupts intr_stubs kill page_fault syscall_handler timer_interrupt keyboard_interrupt serial_interrupt ide_interrupt) (λ _ s',
    ∀ v, 0 ≤ v < 256 → ∃ g, idt s' !! Z.to_nat v = Some g ∧ gate_offset g = intr_stubs v ∧ gate_selector g = SEL_KCSEG ∧ desc_present g = 1 ∧
      desc_dpl g = (if decide (v ∈ [3; 4; 5; 0x30]) then 3 else 0) ∧
      desc_type g = (if decide (v ∈ [0; 1; 3; 4; 5; 6; 7; 11; 12; 13; 16; 19; 0x30]) then 15 else 14) ∧
      intr_handlers s' !! Z.to_nat v = Some (snd <$> kernel_table !! v)) s.
Proof.
  intros Hb. eapply wp_mono; [by apply kernel_interrupts_ok|]. intros [] s' Ht v Hv.
  destruct (lookup_lt_is_Some_2 (idt s') (Z.to_nat v)) as [g Hg]; [rewrite (to_gates _ _ Ht); lia|]. exists g. split; [done|].
  destruct (to_gate _ _ Ht v g Hv Hg) as [H1 H2 H3 H4 _ H6]. split; [done|]. split; [done|]. split; [done|]. rewrite H3, H4, (to_handler _ _ Ht v Hv).
  assert (Hall : Forall (λ v, entry_dpl (kernel_table !! v) = (if decide (v ∈ [3; 4; 5; 0x30]) then 3 else 0) ∧
    entry_type (kernel_table !! v) = (if decide (v ∈ [0; 1; 3; 4; 5; 6; 7; 11; 12; 13; 16; 19; 0x30]) then 15 else 14)) (seqZ 0 256)).
  { apply (bool_decide_unpack _). vm_compute. done. }
  rewrite Forall_forall in Hall. destruct (Hall v) as [-> ->]; [by apply elem_of_seqZ|]. done.
Qed.
End table.

(** The global descriptor table.  Every selector of the kernel and of user
    programs leads to a present descriptor of a segment that covers all of
    memory, with the privilege level that the selector itself has; the
    selector of the task-state segment leads to the 104 bytes of the segment
    given.  The operand of [lgdt] describes all of the table. *)
Theorem gdt_init_correct {S} gdt tss (s : S) : 0 ≤ gdt < 2 ^ 32 → 0 ≤ tss < 2 ^ 32 → ∃ table operand,
  gdt_init gdt tss s = Ok ((table, operand), s) ∧ length table = 6%nat ∧ table !! O = Some 0 ∧
  (∀ sel, sel ∈ [SEL_KCSEG; SEL_KDSEG; SEL_UCSEG; SEL_UDSEG] → ∃ d, table !! Z.to_nat (sel / 8) = Some d ∧
     desc_base d = 0 ∧ desc_limit d = 0xfffff ∧ desc_granularity d = 1 ∧ desc_present d = 1 ∧ desc_class d = 1 ∧ desc_dpl d = sel mod 4 ∧
     desc_type d = (if decide (sel ∈ [SEL_KCSEG; SEL_UCSEG]) then 10 else 2)) ∧
  (∃ d, table !! Z.to_nat (SEL_TSS / 8) = Some d ∧ desc_base d = tss ∧ desc_limit d + 1 = 104 ∧ desc_class d = 0 ∧ desc_type d = 9 ∧ desc_dpl d = 0 ∧ desc_present d = 1) ∧
  field operand 0 16 + 1 = 8 * len table ∧ field operand 16 32 = gdt.
Proof.
  intros Hg Ht. unfold gdt_init, make_code_desc, make_data_desc, make_tss_desc. unfold mbind at 1, M_bind at 1.
  rewrite seg_desc_value by (cbn; lia). unfold mbind at 1, M_bind at 1. rewrite seg_desc_value by (cbn; lia). unfold mbind at 1, M_bind at 1. rewrite seg_desc_value by (cbn; lia).
  unfold mbind at 1, M_bind at 1. rewrite seg_desc_value by (cbn; lia). unfold mbind at 1, M_bind at 1. rewrite seg_desc_value by (cbn; lia). unfold mret, M_ret.
  eexists _, _. split; [done|]. split; [done|]. split; [done|]. split.
  - intros sel Hsel. repeat (apply elem_of_cons in Hsel as [-> | Hsel]; [eexists; split; [reflexivity|]; split_and!; vm_compute; reflexivity|]). by apply not_elem_of_nil in Hsel.
  - split.
    + eexists. split; [reflexivity|]. unfold desc_base, desc_limit, desc_class, desc_type, desc_dpl, desc_present, field, class_bit, granularity_bit. split_and!; div_lia.
    + unfold make_gdtr_operand. unfold SEL_CNT. rewrite lor_shiftl by lia. unfold field. split; [|div_lia]. cbn [length]. rewrite !length_insert, length_replicate. div_lia.
Qed.

(** ** Examples *)

Lemma seg_desc_roundtrip_witness : ∃ d, make_seg_desc 0xc0123000 0x67 CLS_SYSTEM 9 0 GRAN_BYTE tt = Ok (d, tt) ∧ 0 ≤ d < 2 ^ 64 ∧
  desc_base d = 0xc0123000 ∧ desc_limit d = 0x67 ∧ desc_class d = 0 ∧ desc_type d = 9 ∧ desc_dpl d = 0 ∧ desc_granularity d = 0 ∧ desc_present d = 1 ∧ desc_32bit d = 1.
Proof. apply (seg_desc_roundtrip 0xc0123000 0x67 CLS_SYSTEM 9 0 GRAN_BYTE tt); lia. Defined.

Lemma gdt_init_correct_witness : ∃ table operand, gdt_init 0xc0010000 0xc0123000 tt = Ok ((table, operand), tt) ∧ length table = 6%nat.
Proof. destruct (gdt_init_correct 0xc0010000 0xc0123000 tt) as (t & o & E & Hl & _); [lia|lia|]. by exists t, o. Defined.

Inductive example_handler := H_kill | H_fault | H_syscall | H_timer | H_kbd | H_serial | H_ide.
Definition example_stubs (i : Z) : Z := 0xc0020000 + 16 * i.
Definition example_boot : intr (handler := example_handler) := mk_intr (replicate 256 0) (replicate 256 None) (replicate 256 []) (replicate 256 0) [].

Lemma example_stubs_ok i : 0 ≤ i < 256 → 0 < example_stubs i < 2 ^ 32.
Proof. unfold example_stubs. lia. Qed.

Lemma kernel_interrupts_correct_witness :
  boot example_boot ∧
  wp (kernel_interrupts example_stubs H_kill H_fault H_syscall H_timer H_kbd H_serial H_ide) (λ _ s',
    ∃ g, idt s' !! 48%nat = Some g ∧ gate_offset g = example_stubs 48 ∧ desc_dpl g = 3) example_boot.
Proof.
  split; [done|]. eapply wp_mono; [apply (kernel_interrupts_correct example_stubs example_stubs_ok H_kill H_fault H_syscall H_timer H_kbd H_serial H_ide example_boot); done|].
  intros [] s' H. destruct (H 48 ltac:(lia)) as (g & Hg & Ho & _ & _ & Hd & _). exists g. split; [exact Hg|]. split; [exact Ho|exact Hd].
Defined.

(** The table after [intr_init]: no handler yet. *)
Lemma example_table : ∃ s : intr (handler := example_handler), table_ok example_stubs s ∅.
Proof.
  assert (H : wp (intr_init example_stubs) (λ _ s, table_ok example_stubs s ∅) example_boot) by (apply (intr_init_ok example_stubs example_stubs_ok); done).
  apply wp_Ok in H as (? & s & _ & H). by exists s.
Qed.

Lemma register_correct_witness : ∃ s : intr (handler := example_handler), table_ok example_stubs s ∅ ∧
  wp (register example_stubs (Ext 0x20 H_timer (text "8254 Timer"))) (λ _ s', table_ok example_stubs s' (<[0x20 := (0, INTR_OFF, H_timer)]> ∅)) s.
Proof.
  destruct example_table as [s Hs]. exists s. split; [done|].
  apply (register_correct example_stubs example_stubs_ok s ∅ (Ext 0x20 H_timer (text "8254 Timer")) Hs); cbn; lia || done.
Defined.
