(* ===== verification/Paging.v ===== *)
(** * The kernel's page tables ([paging_init] of [threads/init.c])

    The base page directory, which maps all of physical memory at PHYS_BASE and
    the kernel's code read-only.  It is built with the page allocator on the
    memory of [Palloc]; the bounds of the kernel's code, which the linker
    knows, are parameters. *)
From S2P Require Import Prelude Bitmap Vaddr Palloc Pagedir.

Definition set_init_page_dir (pd : Z) (s : kernel) : kernel :=
  mk_kernel (mem s) (kernel_pool s) (user_pool s) (init_ram_pages s) pd (cr3 s) (pagedir s) (segbreak s).

Section paging.
Context (text_start text_end : Z).

Definition in_kernel_text (vaddr : Z) : bool := (text_start <=? vaddr) && (vaddr <? text_end).

(** One round of the loop; [pt] is the page table of the round before. *)
Definition map_page (pd page pt : Z) : M kernel Z :=
  vaddr ← ptov (wrap32 (page * PGSIZE));
  let pde := wrap32 (pd + 4 * pd_no vaddr) in
  w ← load pde;
  pt ← (if w =? 0 then
          pt ← palloc_get_page (Z.lor PAL_ASSERT PAL_ZERO);
          e ← pde_create pt; store pde e ;; mret pt
        else mret pt);
  e ← pte_create_kernel vaddr (negb (in_kernel_text vaddr));
  store (wrap32 (pt + 4 * pt_no vaddr)) e ;;
  mret pt.

Fixpoint map_pages (n : nat) (pd page pt : Z) : M kernel unit :=
  match n with
  | O => mret tt
  | S n => pt ← map_page pd page pt; map_pages n pd (page + 1) pt
  end.

Definition paging_init : M kernel unit :=
  pd ← palloc_get_page (Z.lor PAL_ASSERT PAL_ZERO);
  modify (set_init_page_dir pd) ;;
  ram ← gets init_ram_pages;
  map_pages (Z.to_nat ram) pd 0 NULL ;;
  p ← vtop pd;
  modify (set_cr3 p).

(** ** The page tables after some rounds *)

(** The entry of a physical page: present, and writable outside of the code. *)
Definition frame_entry (page : Z) : Z := 4096 * page + if decide (text_start ≤ PHYS_BASE + 4096 * page < text_end) then 1 else 3.

(** At least [n] pages of the kernel pool are free. *)
Definition free_pages (s : kernel) (n : nat) : Prop :=
  ∃ F : gset Z, (n ≤ size F)%nat ∧ ∀ i, i ∈ F → 0 ≤ i < bit_cnt (used_map (kernel_pool s)) ∧ bit (used_map (kernel_pool s)) i = false.

(** [k] pages have been entered in the tables [T]. *)
Record mapped (ram : Z) (pd k : Z) (T : list Z) (s : kernel) : Prop := {
  mp_kernel : kernel_ok s;
  mp_ram : init_ram_pages s = ram;
  mp_init : init_page_dir s = pd;
  mp_pd : used_page s pd;
  mp_tables : Forall (used_page s) T ∧ NoDup (pd :: T);
  mp_pde j : 0 ≤ j < 1024 → pde_at s pd j = if decide (768 ≤ j) then match T !! Z.to_nat (j - 768) with Some t => t - PHYS_BASE + 7 | None => 0 end else 0;
  mp_pte j t m : T !! j = Some t → 0 ≤ m < 1024 → word s (t + 4 * m) = if decide (1024 * Z.of_nat j + m < k) then frame_entry (1024 * Z.of_nat j + m) else 0;
  mp_free : free_pages s (Z.to_nat ((ram + 1023) / 1024) - length T)
}.

Lemma page_address ram k : 0 ≤ k < ram → ram < 2 ^ 18 → wrap32 (k * PGSIZE) = 4096 * k ∧ pd_no (PHYS_BASE + 4096 * k) = 768 + k / 1024 ∧ pt_no (PHYS_BASE + 4096 * k) = k mod 1024 ∧ 0 ≤ k / 1024 < 256.
Proof.
  intros Hk Hr. rewrite wrap32_small by (rewrite PGSIZE_eq; lia). rewrite PGSIZE_eq, pd_no_div, pt_no_div, PHYS_BASE_eq.
  split; [lia|]. split; [div_lia|]. split; [|div_lia]. replace (3221225472 + 4096 * k) with ((786432 + k) * 4096) by lia. rewrite Z.div_mul by lia. div_lia.
Qed.

Lemma wp_ptov_frame k ram (Q : Z → kernel → Prop) s : 0 ≤ k < ram → ram < 2 ^ 18 → Q (PHYS_BASE + 4096 * k) s → wp (ptov (4096 * k)) Q s.
Proof. intros Hk Hr HQ. apply wp_ptov; [lia|]. by rewrite Z.add_comm. Qed.

(** A free page is handed out. *)
Lemma palloc_free_page_ok s n (Q : Z → kernel → Prop) : kernel_ok s → free_pages s (S n) →
  (∀ i s', first_group (used_map (kernel_pool s)) 0 1 false i → allocated false true i 1 s s' → free_pages s' n → Q (pool_page (kernel_pool s) i) s') →
  wp (palloc_get_page (Z.lor PAL_ASSERT PAL_ZERO)) Q s.
Proof.
  intros Hs (F & Hn & HF) HQ. unfold palloc_get_page. apply wp_palloc_get_multiple; [done|lia|]. change (flag (Z.lor PAL_ASSERT PAL_ZERO) PAL_USER) with false.
  change (flag (Z.lor PAL_ASSERT PAL_ZERO) PAL_ZERO) with true. cbn [get_pool]. split.
  - intros Hno. exfalso. destruct (decide (F = ∅)) as [->|Hne]; [rewrite size_empty in Hn; lia|]. apply set_choose_L in Hne as (i & Hi). destruct (HF i Hi) as [Hr Hb].
    apply (Hno i); [lia|lia|]. intros j Hj. by replace j with i by lia.
  - intros i s' Hg Hal. apply HQ; [done|done|]. exists (F ∖ {[i]}). split.
    + assert (size F ≤ size (F ∖ {[i]} ∪ {[i]}))%nat by (apply subseteq_size; intros x Hx; destruct (decide (x = i)); set_solver).
      pose proof (size_union_alt (F ∖ {[i]}) ({[i]} : gset Z)) as E. assert (size ({[i]} ∖ (F ∖ {[i]}) : gset Z) ≤ size ({[i]} : gset Z))%nat by (apply subseteq_size; set_solver). rewrite size_singleton in *. lia.
    + intros j Hj. apply elem_of_difference in Hj as [Hj Hji]. destruct (HF j Hj) as [Hr Hb]. destruct Hal as (b & _ & [Hsz _] & Hbit & ->). cbn [kernel_pool set_mem set_pool used_map get_pool] in *.
      rewrite Hsz. split; [done|]. rewrite Hbit by lia. rewrite decide_False; [done|]. set_solver by lia.
Qed.

(** A page is entered in its table. *)
Lemma mapped_entry ram pd k T s t : mapped ram pd k T s → T !! Z.to_nat (k / 1024) = Some t → 0 ≤ k →
  mapped ram pd (k + 1) T (set_word (t + 4 * (k mod 1024)) (frame_entry k) s).
Proof.
  intros [Hs Hr Hin Hpd [Hu Hnd] Hpde Hpte Hf] Ht Hk. assert (Hm : 0 ≤ k mod 1024 < 1024) by (apply Z.mod_pos_bound; lia).
  assert (Hut : used_page s t) by (rewrite Forall_forall in Hu; apply Hu; by eapply list_elem_of_lookup_2). pose proof (used_page_ram s t Hs Hut) as Hram.
  pose proof (vm_frame_set_word s t (k mod 1024) (frame_entry k) Hs Hut Hm) as Hfr. assert (Hal : ∀ p, used_page s p → aligned p) by (intros p Hp; by apply (used_page_nonnull s)).
  assert (Hne : t ≠ pd). { apply NoDup_cons in Hnd as [Hn _]. intros ->. apply Hn. by eapply list_elem_of_lookup_2. }
  split.
  - by apply kernel_ok_set_word.
  - done.
  - done.
  - by eapply used_page_frame.
  - split; [|done]. eapply Forall_impl; [exact Hu|]. intros p Hp. by eapply used_page_frame.
  - intros j Hj. unfold pde_at in *. rewrite word_set_word by (done || by apply Hal). rewrite decide_False by naive_solver. by apply Hpde.
  - intros j t' m Ht' Hm'. assert (Hut' : used_page s t') by (rewrite Forall_forall in Hu; apply Hu; by eapply list_elem_of_lookup_2).
    rewrite word_set_word by (done || by apply Hal). rewrite (Hpte j t' m Ht' Hm'). destruct (decide (t = t' ∧ k mod 1024 = m)) as [[<- <-]|Hno].
    + assert (j = Z.to_nat (k / 1024)) as -> by (apply NoDup_cons in Hnd as [_ Hnd]; by eapply (NoDup_lookup T)).
      replace (1024 * Z.of_nat (Z.to_nat (k / 1024)) + k mod 1024) with k by div_lia. by rewrite decide_True by lia.
    + assert (1024 * Z.of_nat j + m ≠ k). { intros E. apply Hno. assert (j = Z.to_nat (k / 1024)) as -> by div_lia. split; [congruence|]. div_lia. }
      repeat case_decide; done || lia.
  - exact Hf.
Qed.

(** A page table is allocated and entered in the directory. *)
Lemma mapped_table ram pd k T s s1 i n : mapped ram pd k T s → first_group (used_map (kernel_pool s)) 0 1 false i → allocated false true i 1 s s1 →
  Z.of_nat (length T) = k / 1024 → k mod 1024 = 0 → 0 ≤ k < ram → n = (Z.to_nat ((ram + 1023) / 1024) - length T - 1)%nat → free_pages s1 n →
  let t := pool_page (kernel_pool s) i in
  mapped ram pd k (T ++ [t]) (set_word (pd + 4 * (768 + k / 1024)) (t - PHYS_BASE + 7) s1).
Proof.
  intros [Hs Hr Hin Hpd [Hu Hnd] Hpde Hpte Hf] Hg Hal Hlen Hk0 Hk Hn Hfree t. pose proof (kok_ram _ Hs) as Hram. rewrite Hr in Hram.
  assert (Hidx : 0 ≤ i < bit_cnt (used_map (kernel_pool s))) by (by eapply new_page_index). assert (Hfr1 : vm_frame s s1) by (by eapply vm_frame_allocated).
  assert (Hs1 : kernel_ok s1) by (by eapply allocated_ok). assert (Ht1 : used_page s1 t) by (by eapply new_page_used).
  assert (Hfresh : ∀ p, used_page s p → p ≠ t) by (intros p Hp; by eapply new_page_fresh).
  assert (Hword : ∀ p m, aligned p → 0 ≤ m < 1024 → word s1 (p + 4 * m) = if decide (p = t) then 0 else word s (p + 4 * m)) by (intros; by eapply new_page_word).
  assert (Hpd1 : used_page s1 pd) by (by eapply used_page_frame). assert (Hslot : 0 ≤ 768 + k / 1024 < 1024) by div_lia.
  pose proof (used_page_ram s1 pd Hs1 Hpd1) as Hpdr. set (w := t - PHYS_BASE + 7). pose proof (vm_frame_set_word s1 pd (768 + k / 1024) w Hs1 Hpd1 Hslot) as Hfr2.
  assert (Hal1 : ∀ p, used_page s1 p → aligned p) by (intros p Hp; by apply (used_page_nonnull s1)). pose proof (Hfresh pd Hpd) as Hpt.
  assert (Hold : ∀ p, p ∈ T → used_page s p) by (by apply Forall_forall). split.
  - by apply kernel_ok_set_word.
  - destruct (vmf_consts _ _ Hfr1) as (E & _). cbn. congruence.
  - destruct (vmf_consts _ _ Hfr1) as (_ & E & _). cbn. congruence.
  - by eapply used_page_frame.
  - split.
    + apply Forall_app. split; [|apply Forall_singleton; by eapply used_page_frame]. eapply Forall_impl; [exact Hu|]. intros p Hp. eapply used_page_frame; [exact Hfr2|]. by eapply used_page_frame.
    + change (NoDup ((pd :: T) ++ [t])). apply NoDup_app. split; [done|]. split; [|apply NoDup_singleton]. intros p Hp ->%list_elem_of_singleton.
      apply elem_of_cons in Hp as [E|Hp]; [by symmetry in E|]. by apply (Hfresh t); [apply Hold|].
  - intros j Hj. unfold pde_at in *. rewrite word_set_word by (done || by apply Hal1). destruct (decide (pd = pd ∧ 768 + k / 1024 = j)) as [[_ <-]|Hno].
    + rewrite decide_True by lia. rewrite list_lookup_middle by lia. done.
    + rewrite Hword by (done || by apply Hal1). rewrite decide_False by done. rewrite Hpde by done. case_decide; [|done].
      destruct (decide (Z.to_nat (j - 768) < length T)%nat); [by rewrite lookup_app_l|]. rewrite lookup_ge_None_2 by lia. rewrite lookup_ge_None_2; [done|]. rewrite length_app. cbn. naive_solver lia.
  - intros j t' m Ht' Hm. assert (Hut' : used_page s1 t'). { apply list_elem_of_lookup_2, elem_of_app in Ht' as [Ht' | ->%list_elem_of_singleton]; [|done]. eapply used_page_frame; [done|]. by apply Hold. }
    assert (Htp : pd ≠ t'). { apply list_elem_of_lookup_2, elem_of_app in Ht' as [Ht' | ->%list_elem_of_singleton]; [|done]. apply NoDup_cons in Hnd as [Hni _]. by intros ->. }
    rewrite word_set_word by (done || by apply Hal1). rewrite decide_False by naive_solver. rewrite Hword by (done || by apply Hal1). destruct (decide (t' = t)) as [->|Hne].
    + rewrite decide_False; [done|]. assert (j = length T) as ->; [|rewrite Hlen; div_lia]. destruct (decide (j < length T)%nat).
      * rewrite lookup_app_l in Ht' by done. exfalso. by apply (Hfresh t); [apply Hold; by eapply list_elem_of_lookup_2|].
      * apply lookup_lt_Some in Ht'. rewrite length_app in Ht'. cbn in Ht'. lia.
    + destruct (decide (j < length T)%nat); [rewrite lookup_app_l in Ht' by done; by apply Hpte|]. rewrite lookup_app_r in Ht' by lia. destruct (j - length T)%nat; [by injection Ht' as <-|done].
  - rewrite length_app. cbn [length]. replace (_ - (length T + 1))%nat with n by lia. exact Hfree.
Qed.

Lemma pte_create_kernel_frame k ram s (Q : Z → kernel → Prop) : 0 ≤ k < ram → ram < 2 ^ 18 → Q (frame_entry k) s →
  wp (pte_create_kernel (PHYS_BASE + 4096 * k) (negb (in_kernel_text (PHYS_BASE + 4096 * k)))) Q s.
Proof.
  intros Hk Hr HQ. unfold pte_create_kernel. wp_step. wp_step; [rewrite pg_ofs_mod, PHYS_BASE_eq; apply Z.eqb_eq; div_lia|]. wp_step.
  unfold vtop. wp_step. wp_step; [unfold is_kernel_vaddr; apply Z.leb_le; lia|]. wp_step. wp_step.
  replace (Z.lor (Z.lor _ PTE_P) _) with (frame_entry k); [done|]. unfold frame_entry. replace (PHYS_BASE + 4096 * k - PHYS_BASE) with (4096 * k) by lia.
  rewrite (wrap32_small (4096 * k)) by lia. rewrite <-Z.lor_assoc. assert (Ha : 4096 * k mod 4096 = 0) by div_lia.
  assert (Et : in_kernel_text (PHYS_BASE + 4096 * k) = bool_decide (text_start ≤ PHYS_BASE + 4096 * k < text_end)).
  { unfold in_kernel_text. case_bool_decide; destruct (Z.leb_spec text_start (PHYS_BASE + 4096 * k)), (Z.ltb_spec (PHYS_BASE + 4096 * k) text_end); done || lia. }
  rewrite Et. destruct (decide (text_start ≤ PHYS_BASE + 4096 * k < text_end)) as [Ht|Ht]; [rewrite bool_decide_eq_true_2 by done|rewrite bool_decide_eq_false_2 by done]; cbn [negb]; [change (Z.lor PTE_P 0) with 1|change (Z.lor PTE_P PTE_W) with 3]; rewrite lor_flags; (done || lia).
Qed.

Lemma map_page_ok ram pd k T s : mapped ram pd k T s → Z.of_nat (length T) = (k + 1023) / 1024 → 0 ≤ k < ram →
  wp (map_page pd k (default NULL (list.last T))) (λ pt s', ∃ T', mapped ram pd (k + 1) T' s' ∧ Z.of_nat (length T') = (k + 1 + 1023) / 1024 ∧ pt = default NULL (list.last T')) s.
Proof.
  intros Hmp Hlen Hk. pose proof (mp_kernel _ _ _ _ _ Hmp) as Hs. pose proof (kok_ram _ Hs) as Hram. rewrite (mp_ram _ _ _ _ _ Hmp) in Hram.
  destruct (page_address ram k Hk ltac:(lia)) as (Ew & Ed & Et & Hd). pose proof (mp_pd _ _ _ _ _ Hmp) as Hpd. pose proof (used_page_ram s pd Hs Hpd) as Hpdr.
  assert (Hm : 0 ≤ k mod 1024 < 1024) by (apply Z.mod_pos_bound; lia).
  unfold map_page. wp_step. rewrite Ew. eapply wp_ptov_frame; [exact Hk|lia|]. cbv zeta. rewrite Ed, Et. wp_step. apply wp_load_word; [done|done|lia|].
  fold (pde_at s pd (768 + k / 1024)). rewrite (mp_pde _ _ _ _ _ Hmp) by lia. rewrite decide_True by lia. replace (Z.to_nat (768 + k / 1024 - 768)) with (Z.to_nat (k / 1024)) by lia.
  assert (Hend : ∀ T' t s', mapped ram pd k T' s' → T' !! Z.to_nat (k / 1024) = Some t → Z.of_nat (length T') = k / 1024 + 1 →
    wp (e ← pte_create_kernel (PHYS_BASE + 4096 * k) (negb (in_kernel_text (PHYS_BASE + 4096 * k))); store (wrap32 (t + 4 * (k mod 1024))) e ;; mret t)
       (λ pt s', ∃ T', mapped ram pd (k + 1) T' s' ∧ Z.of_nat (length T') = (k + 1 + 1023) / 1024 ∧ pt = default NULL (list.last T')) s').
  { intros T' t s' Hmp' Ht Hl. pose proof (mp_kernel _ _ _ _ _ Hmp') as Hs'. assert (Hut : used_page s' t). { destruct (mp_tables _ _ _ _ _ Hmp') as [Hu _]. rewrite Forall_forall in Hu. apply Hu. by eapply list_elem_of_lookup_2. }
    pose proof (used_page_ram s' t Hs' Hut) as Htr. wp_step. eapply pte_create_kernel_frame; [exact Hk|lia|]. wp_step. unfold wp at 1. rewrite wrap32_word by (apply Htr || done).
    rewrite store_ok by done. wp_step. exists T'. split; [apply mapped_entry; [done|done|lia]|]. split; [rewrite Hl; div_lia|].
    rewrite last_lookup. replace (Init.Nat.pred (length T')) with (Z.to_nat (k / 1024)) by lia. by rewrite Ht. }
  destruct (decide (k mod 1024 = 0)) as [Hk0|Hk0].
  - assert (Hlen0 : Z.of_nat (length T) = k / 1024) by (rewrite Hlen; div_lia). rewrite lookup_ge_None_2 by lia. cbn [Z.eqb]. wp_step. wp_step.
    eapply (palloc_free_page_ok s (Z.to_nat ((ram + 1023) / 1024) - length T - 1)); [done| |].
    { destruct (mp_free _ _ _ _ _ Hmp) as (F & HF & HF'). exists F. split; [|done]. assert (k / 1024 < (ram + 1023) / 1024) by div_lia. lia. }
    intros i s1 Hg Hal Hfree. pose proof (mapped_table ram pd k T s s1 i _ Hmp Hg Hal Hlen0 Hk0 Hk eq_refl Hfree) as Hmp'. cbv zeta in Hmp'. set (t := pool_page (kernel_pool s) i) in *.
    assert (Hs1 : kernel_ok s1) by (by eapply allocated_ok). assert (Hfr1 : vm_frame s s1) by (eapply vm_frame_allocated; [done|done|by eapply new_page_index]).
    assert (Hpd1 : used_page s1 pd) by (by eapply used_page_frame). pose proof (used_page_ram s1 pd Hs1 Hpd1) as Hpdr1.
    assert (Ht1 : used_page s1 t) by (by eapply new_page_used). pose proof (used_page_ram s1 t Hs1 Ht1) as [Hkt _].
    wp_step. apply wp_pde_create; [done|]. wp_step. unfold wp at 1. rewrite wrap32_word by (apply Hpdr1 || lia). rewrite store_ok by (done || lia). wp_step.
    eapply Hend; [exact Hmp'| |rewrite length_app; cbn; lia]. by apply list_lookup_middle; lia.
  - assert (Hlen0 : Z.of_nat (length T) = k / 1024 + 1) by (rewrite Hlen; div_lia). destruct (lookup_lt_is_Some_2 T (Z.to_nat (k / 1024))) as [t Ht]; [lia|]. rewrite Ht.
    assert (Hut : used_page s t). { destruct (mp_tables _ _ _ _ _ Hmp) as [Hu _]. rewrite Forall_forall in Hu. apply Hu. by eapply list_elem_of_lookup_2. }
    pose proof (used_page_ram s t Hs Hut) as [[Hkt _] _]. rewrite (proj2 (Z.eqb_neq _ 0)) by lia. wp_step. wp_step.
    assert (El : default NULL (list.last T) = t). { rewrite last_lookup. replace (Init.Nat.pred (length T)) with (Z.to_nat (k / 1024)) by lia. by rewrite Ht. }
    rewrite El. by eapply Hend.
Qed.

Lemma map_pages_ok ram pd n k T s : mapped ram pd k T s → Z.of_nat (length T) = (k + 1023) / 1024 → 0 ≤ k → k + Z.of_nat n = ram →
  wp (map_pages n pd k (default NULL (list.last T))) (λ _ s', ∃ T', mapped ram pd ram T' s' ∧ Z.of_nat (length T') = (ram + 1023) / 1024) s.
Proof.
  revert k T s. induction n as [|n IH]; intros k T s Hmp Hlen Hk Hn; cbn [map_pages].
  - wp_step. replace k with ram in * by lia. by exists T.
  - wp_step. eapply wp_mono; [apply (map_page_ok ram); [done|done|lia]|]. intros pt s' (T' & Hmp' & Hlen' & ->). apply IH; [done|done|lia|lia].
Qed.
End paging.

(** ** Properties *)

(** C19: with enough free pages, paging_init returns, and the page directory that
    it activates maps every physical page at PHYS_BASE plus its address, read-only
    if it is part of the kernel's code and for the kernel only, and no other
    address: none of user memory and none beyond the end of memory. *)
Theorem paging_init_correct text_start text_end s : kernel_ok s → free_pages s (S (Z.to_nat ((init_ram_pages s + 1023) / 1024))) →
  wp (paging_init text_start text_end) (λ _ s', let pd := init_page_dir s' in
    kernel_ok s' ∧ used_page s' pd ∧ cr3 s' = pd - PHYS_BASE ∧
    ∀ va, 0 ≤ va < 2 ^ 32 → pte_of s' pd va =
      if decide (0 ≤ va - PHYS_BASE < 4096 * init_ram_pages s) then frame_entry text_start text_end ((va - PHYS_BASE) / 4096) else 0) s.
Proof.
  intros Hs Hfree. pose proof (kok_ram _ Hs) as Hram. set (ram := init_ram_pages s) in *. unfold paging_init. wp_step. eapply palloc_free_page_ok; [done|exact Hfree|].
  intros i s1 Hg Hal Hfree1. set (pd := pool_page (kernel_pool s) i). wp_step. wp_step. wp_step. wp_step. wp_step.
  assert (Hs1 : kernel_ok s1) by (by eapply allocated_ok). assert (Hpd : used_page s1 pd) by (by eapply new_page_used).
  assert (Hw : ∀ m, 0 ≤ m < 1024 → word s1 (pd + 4 * m) = 0). { intros m Hm. erewrite new_page_word; [by rewrite decide_True|done|done|by apply (used_page_nonnull s1)|done]. }
  assert (Er : init_ram_pages s1 = ram) by (by destruct Hal as (b & _ & _ & _ & ->)). cbn [init_ram_pages set_init_page_dir]. rewrite Er.
  assert (Hmp : mapped text_start text_end ram pd 0 [] (set_init_page_dir pd s1)).
  { split; [| |done|done|split; [constructor|apply NoDup_singleton]| |done|by rewrite Nat.sub_0_r].
    - by destruct Hs1.
    - done.
    - intros j Hj. rewrite lookup_nil. case_decide; by apply Hw. }
  eapply wp_mono; [apply (map_pages_ok text_start text_end ram pd (Z.to_nat ram) 0 []); [done|done|done|lia]|].
  intros [] s2 (T & Hmp2 & Hlen). cbv beta.
  destruct Hmp2 as [Hs2 Hr2 Hin2 Hpd2 [Hu2 Hnd2] Hpde2 Hpte2 _]. destruct (used_page_ram s2 pd Hs2 Hpd2) as [[Hpdk _] _].
  unfold vtop. wp_step. wp_step. wp_step; [unfold is_kernel_vaddr; apply Z.leb_le; lia|]. wp_step. wp_step. cbn [init_page_dir set_cr3 cr3]. rewrite Hin2. rewrite wrap32_small by (rewrite PHYS_BASE_eq in *; lia).
  split_and!; [by destruct Hs2|done|done|]. intros va Hva. assert (Ew : ∀ a, word (set_cr3 (pd - PHYS_BASE) s2) a = word s2 a) by done.
  unfold pte_of, pt_at, pde_at in *. rewrite !Ew. assert (Hj : 0 ≤ pd_no va < 1024) by (rewrite pd_no_div; div_lia). rewrite (Hpde2 _ Hj). pose proof (pt_no_range va) as Hm.
  assert (Hva' : va - PHYS_BASE = 4194304 * (pd_no va - 768) + 4096 * pt_no va + va mod 4096) by (rewrite PHYS_BASE_eq, pd_no_div, pt_no_div; div_lia).
  pose proof (Z.mod_pos_bound va 4096 ltac:(lia)). case_decide as H768; [|rewrite decide_False by lia; done].
  destruct (T !! Z.to_nat (pd_no va - 768)) as [t|] eqn:Ht.
  - assert (Hut : used_page s2 t) by (rewrite Forall_forall in Hu2; apply Hu2; by eapply list_elem_of_lookup_2). destruct (used_page_ram s2 t Hs2 Hut) as [[Htk Hta] _].
    rewrite (proj2 (Z.eqb_neq _ 0)) by lia. assert (Ha : (t - PHYS_BASE) mod 4096 = 0) by (unfold aligned in Hta; rewrite PHYS_BASE_eq; div_lia). assert (Hphys : 0 < PHYS_BASE) by (by rewrite PHYS_BASE_eq). rewrite entry_addr by (done || lia). replace (t - PHYS_BASE + PHYS_BASE) with t by lia.
    rewrite (Hpte2 _ t _ Ht Hm). rewrite Z2Nat.id by lia. replace ((va - PHYS_BASE) / 4096) with (1024 * (pd_no va - 768) + pt_no va) by (rewrite Hva'; div_lia).
    destruct (decide (1024 * (pd_no va - 768) + pt_no va < ram)); [rewrite decide_True by lia; done|rewrite decide_False by lia; done].
  - cbn [Z.eqb]. apply lookup_ge_None in Ht. rewrite decide_False; [done|]. intros [_ Hlt]. assert (ram ≤ 1024 * ((ram + 1023) / 1024)) by div_lia. lia.
Qed.

(** ** Examples *)

Lemma paging_init_correct_witness : wp (paging_init 0xc0020000 0xc0022000) (λ _ s', let pd := init_page_dir s' in
    kernel_ok s' ∧ used_page s' pd ∧ cr3 s' = pd - PHYS_BASE ∧
    ∀ va, 0 ≤ va < 2 ^ 32 → pte_of s' pd va =
      if decide (0 ≤ va - PHYS_BASE < 4096 * init_ram_pages example_kernel) then frame_entry 0xc0020000 0xc0022000 ((va - PHYS_BASE) / 4096) else 0) example_kernel.
Proof.
  apply (paging_init_correct 0xc0020000 0xc0022000 example_kernel example_kernel_ok). exists {[3; 4]}. split; [vm_compute; lia|].
  intros i Hi. assert (i = 3 ∨ i = 4) as [-> | ->] by set_solver; by vm_compute.
Defined.
