(* ===== verification/Ide.v ===== *)
(** * The disk controller ([devices/ide.c])

    The controller is a parameter with five operations: the port accesses of
    the driver and the wait for an interrupt.  What the driver relies on is the
    ATA protocol, stated as laws about an abstract state of the controller: its
    registers, what it is doing, and the sectors of the disks.  The driver is
    shown to read and write those sectors.

    Time passes in the accesses: a controller that is busy answers a bounded
    number of status reads with "busy".  Calls of the driver run one at a time;
    an interrupt is taken where the driver waits for it.  Messages are left
    out. *)
From Stdlib Require Import Strings.String.
From S2P Require Import Prelude Bytes FsState Stdio.
#[local] Open Scope Z_scope.

Definition STA_BSY : Z := 0x80.
Definition STA_DRDY : Z := 0x40.
Definition STA_DRQ : Z := 0x08.
Definition CTL_SRST : Z := 0x04.
Definition DEV_MBS : Z := 0xa0.
Definition DEV_LBA : Z := 0x40.
Definition DEV_DEV : Z := 0x10.
Definition CMD_IDENTIFY_DEVICE : Z := 0xec.
Definition CMD_READ_SECTOR_RETRY : Z := 0x20.
Definition CMD_WRITE_SECTOR_RETRY : Z := 0x30.

(** ** The hardware *)

Class Ata (hw : Type) := {
  port_out : Z → Z → hw → hw;
  port_in : Z → hw → Z * hw;
  words_in : Z → hw → list Z * hw;
  words_out : Z → list Z → hw → hw;
  wait_interrupt : hw → option hw
}.

(** ** The driver *)

Record ata_disk := mk_disk { dev_no : Z; is_ata : bool }.
Record channel (hw : Type) := mk_channel {
  reg_base : Z;
  irq : Z;
  locked : bool;
  expecting_interrupt : bool;
  completion_wait : Z;
  devices : list ata_disk;
  hardware : hw
}.
Arguments mk_channel {hw}.
Arguments reg_base {hw}.
Arguments irq {hw}.
Arguments locked {hw}.
Arguments expecting_interrupt {hw}.
Arguments completion_wait {hw}.
Arguments devices {hw}.
Arguments hardware {hw}.

Section driver.
Context {hw : Type} `{!Ata hw}.
Abbreviation chan := (channel hw).
Abbreviation D := (M chan).

Definition set_hw (h : hw) (c : chan) : chan := mk_channel (reg_base c) (irq c) (locked c) (expecting_interrupt c) (completion_wait c) (devices c) h.
Definition set_locked (b : bool) (c : chan) : chan := mk_channel (reg_base c) (irq c) b (expecting_interrupt c) (completion_wait c) (devices c) (hardware c).
Definition set_expecting (b : bool) (c : chan) : chan := mk_channel (reg_base c) (irq c) (locked c) b (completion_wait c) (devices c) (hardware c).
Definition set_wait (n : Z) (c : chan) : chan := mk_channel (reg_base c) (irq c) (locked c) (expecting_interrupt c) n (devices c) (hardware c).
Definition set_device (i : Z) (d : ata_disk) (c : chan) : chan :=
  mk_channel (reg_base c) (irq c) (locked c) (expecting_interrupt c) (completion_wait c) (<[Z.to_nat i := d]> (devices c)) (hardware c).

(** Registers are offsets from [reg_base]. *)
Definition reg_data : Z := 0.
Definition reg_error : Z := 1.
Definition reg_nsect : Z := 2.
Definition reg_lbal : Z := 3.
Definition reg_lbam : Z := 4.
Definition reg_lbah : Z := 5.
Definition reg_device : Z := 6.
Definition reg_status : Z := 7.
Definition reg_command : Z := reg_status.
Definition reg_ctl : Z := 0x206.
Definition reg_alt_status : Z := reg_ctl.

Definition outb (r v : Z) : D unit := modify (λ c, set_hw (port_out (reg_base c + r) (wrap8 v) (hardware c)) c).
Definition inb (r : Z) : D Z := λ c, let '(v, h) := port_in (reg_base c + r) (hardware c) in Ok (v, set_hw h c).

Definition input_sector : D (list Z) := λ c, let '(l, h) := words_in (reg_base c + reg_data) (hardware c) in Ok (l, set_hw h c).
Definition output_sector (sector : list Z) : D unit := modify (λ c, set_hw (words_out (reg_base c + reg_data) sector (hardware c)) c).

Fixpoint idle_loop (n : nat) : D unit :=
  match n with
  | O => mret tt
  | S n => s ← inb reg_status; if Z.land s (Z.lor STA_BSY STA_DRQ) =? 0 then mret tt else idle_loop n
  end.
Definition wait_until_idle : D unit := idle_loop 1000.

Fixpoint busy_loop (n : nat) : D bool :=
  match n with
  | O => mret false
  | S n =>
      s ← inb reg_alt_status;
      if Z.land s STA_BSY =? 0 then s ← inb reg_alt_status; mret (negb (Z.land s STA_DRQ =? 0))
      else busy_loop n
  end.
Definition wait_while_busy : D bool := busy_loop 3000.

Definition select_device (d : ata_disk) : D unit :=
  outb reg_device (if dev_no d =? 1 then Z.lor DEV_MBS DEV_DEV else DEV_MBS) ;;
  _ ← inb reg_alt_status; mret tt.
Definition select_device_wait (d : ata_disk) : D unit := wait_until_idle ;; select_device d ;; wait_until_idle.

Definition select_sector (d : ata_disk) (sec_no : Z) : D unit :=
  ASSERT (sec_no <? Z.shiftl 1 28) ;;
  select_device_wait d ;;
  outb reg_nsect 1 ;;
  outb reg_lbal sec_no ;;
  outb reg_lbam (Z.shiftr sec_no 8) ;;
  outb reg_lbah (Z.shiftr sec_no 16) ;;
  outb reg_device (Z.lor (Z.lor (Z.lor DEV_MBS DEV_LBA) (if dev_no d =? 1 then DEV_DEV else 0)) (Z.shiftr sec_no 24)).

(** The code asserts first that interrupts are on, as they are in the threads
    that call the driver; the interrupt level is not part of this state. *)
Definition issue_pio_command (command : Z) : D unit := modify (set_expecting true) ;; outb reg_command command.

(** The handler on a channel, for the vector of the interrupt. *)
Definition interrupt_handler (vec_no : Z) : D unit :=
  i ← gets irq;
  if vec_no =? i then
    e ← gets expecting_interrupt;
    when e (_ ← inb reg_status; modify (λ c, set_wait (wrap32 (completion_wait c + 1)) c))
  else throw Panicked.

(** [sema_down (&c->completion_wait)]: waits for the interrupt unless it was
    taken before. *)
Definition completion_down : D unit := λ c,
  (if completion_wait c =? 0 then
     match wait_interrupt (hardware c) with
     | None => throw OutOfFuel
     | Some h => modify (set_hw h) ;; interrupt_handler (irq c) ;; gets completion_wait ≫= λ n, if n =? 0 then throw OutOfFuel else modify (set_wait (n - 1))
     end
   else modify (λ c, set_wait (completion_wait c - 1) c)) c.

Definition lock_acquire : D unit := b ← gets locked; ASSERT (negb b) ;; modify (set_locked true).
Definition lock_release : D unit := b ← gets locked; ASSERT b ;; modify (set_locked false).

Definition ide_read (d : ata_disk) (sec_no : Z) : D (list Z) :=
  lock_acquire ;;
  select_sector d sec_no ;;
  issue_pio_command CMD_READ_SECTOR_RETRY ;;
  completion_down ;;
  ok ← wait_while_busy;
  if negb ok then PANIC else
  buffer ← input_sector;
  lock_release ;;
  mret buffer.

Definition ide_write (d : ata_disk) (sec_no : Z) (buffer : list Z) : D unit :=
  lock_acquire ;;
  select_sector d sec_no ;;
  issue_pio_command CMD_WRITE_SECTOR_RETRY ;;
  ok ← wait_while_busy;
  if negb ok then PANIC else
  output_sector buffer ;;
  completion_down ;;
  lock_release.

(** ** Detection of disks *)

Definition probe (d : ata_disk) : D bool :=
  select_device d ;;
  outb reg_nsect 0x55 ;; outb reg_lbal 0xaa ;;
  outb reg_nsect 0xaa ;; outb reg_lbal 0x55 ;;
  outb reg_nsect 0x55 ;; outb reg_lbal 0xaa ;;
  n ← inb reg_nsect;
  if n =? 0x55 then l ← inb reg_lbal; mret (l =? 0xaa) else mret false.

Fixpoint reset_loop (n : nat) : D unit :=
  match n with
  | O => mret tt
  | S n =>
      a ← inb reg_nsect;
      b ← (if a =? 1 then l ← inb reg_lbal; mret (l =? 1) else mret false);
      if (b : bool) then mret tt else reset_loop n
  end.

Definition nth_device (i : Z) : D ata_disk := λ c, match devices c !! Z.to_nat i with Some d => Ok (d, c) | None => Err BadAccess end.

Definition reset_channel : D unit :=
  d0 ← nth_device 0; d1 ← nth_device 1;
  present0 ← probe d0; present1 ← probe d1;
  outb reg_ctl 0 ;; outb reg_ctl CTL_SRST ;; outb reg_ctl 0 ;;
  when present0 (select_device d0 ;; _ ← wait_while_busy; mret tt) ;;
  when present1 (select_device d1 ;; reset_loop 3000 ;; _ ← wait_while_busy; mret tt).

Definition check_device_type (i : Z) : D bool :=
  d ← nth_device i;
  select_device d ;;
  error ← inb reg_error; lbam ← inb reg_lbam; lbah ← inb reg_lbah; status ← inb reg_status;
  if (negb (error =? 1) && (negb (error =? 0x81) || (dev_no d =? 1))) || (Z.land status STA_DRDY =? 0) || negb (Z.land status STA_BSY =? 0) then
    modify (set_device i (mk_disk (dev_no d) false)) ;; mret (negb (error =? 0x81))
  else
    modify (set_device i (mk_disk (dev_no d) (((lbam =? 0) && (lbah =? 0)) || ((lbam =? 0x3c) && (lbah =? 0xc3))))) ;; mret true.

(** White space, as [isspace] has it. *)
Definition isspace (c : Z) : bool := (c =? 32) || (c =? 12) || (c =? 10) || (c =? 13) || (c =? 9) || (c =? 11).

Fixpoint swap_pairs (l : list Z) : list Z := match l with a :: b :: l => b :: a :: swap_pairs l | l => l end.
(** The size of the text without blanks and null bytes at its end, from [n]
    down. *)
Fixpoint trim_size (l : list Z) (n : nat) : nat :=
  match n with
  | O => O
  | S n' => let c := default 0 (l !! n') in if negb (c =? 0) && negb (isspace (signed 8 c)) then n else trim_size l n'
  end.
(** The string that is left in place. *)
Definition descramble_ata_string (s : list Z) : list Z := let s := swap_pairs s in take (trim_size s (length s - 1)) s.

Definition max_capacity : Z := 1024 * 1024 * 1024 / 512.

(** What is registered: the capacity and the model and serial strings. *)
Definition identify_ata_device (i : Z) : D (option (Z * list Z * list Z)) :=
  d ← nth_device i;
  ASSERT (is_ata d) ;;
  select_device_wait d ;;
  issue_pio_command CMD_IDENTIFY_DEVICE ;;
  completion_down ;;
  ok ← wait_while_busy;
  if negb ok then modify (set_device i (mk_disk (dev_no d) false)) ;; mret None else
  id ← input_sector;
  let capacity := of_le32 (slice 120 4 id) in
  let model := descramble_ata_string (slice 20 20 id) in
  let serial := descramble_ata_string (slice 54 40 id) in
  if max_capacity <=? capacity then modify (set_device i (mk_disk (dev_no d) false)) ;; mret None
  else mret (Some (capacity, model, serial)).

(** The part of [ide_init] for a channel: the disks that are registered. *)
Definition init_channel : D (list (Z * (Z * list Z * list Z))) :=
  reset_channel ;;
  b ← check_device_type 0;
  when b (_ ← check_device_type 1; mret tt) ;;
  d0 ← nth_device 0;
  r0 ← (if is_ata d0 then identify_ata_device 0 else mret None);
  d1 ← nth_device 1;
  r1 ← (if is_ata d1 then identify_ata_device 1 else mret None);
  mret ((match r0 with Some x => [(0, x)] | None => [] end) ++ (match r1 with Some x => [(1, x)] | None => [] end)).

Definition new_channel (chan_no : Z) (h : hw) : chan :=
  mk_channel (if chan_no =? 0 then 0x1f0 else 0x170) (if chan_no =? 0 then 14 + 0x20 else 15 + 0x20) false false 0 [mk_disk 0 false; mk_disk 1 false] h.
End driver.

(** ** The ATA protocol *)

Inductive phase :=
  | Idle
  | Busy (next : phase)
  | DataIn (data : list Z)
  | DataOut (dev lba : Z).

(** The state of a controller: its registers, what it does, whether an
    interrupt is to come, and the sectors of the two disks. *)
Record ata := mk_ata {
  nsect : Z; lbal : Z; lbam : Z; lbah : Z; device : Z;
  ph : phase;
  pending : bool;
  sectors : gmap (Z * Z) (list Z)
}.

Definition with_ph (p : phase) (b : bool) (a : ata) : ata := mk_ata (nsect a) (lbal a) (lbam a) (lbah a) (device a) p b (sectors a).
Definition with_sectors (m : gmap (Z * Z) (list Z)) (a : ata) : ata := mk_ata (nsect a) (lbal a) (lbam a) (lbah a) (device a) (ph a) (pending a) m.
Definition with_reg (r v : Z) (a : ata) : ata :=
  if r =? reg_nsect then mk_ata v (lbal a) (lbam a) (lbah a) (device a) (ph a) (pending a) (sectors a)
  else if r =? reg_lbal then mk_ata (nsect a) v (lbam a) (lbah a) (device a) (ph a) (pending a) (sectors a)
  else if r =? reg_lbam then mk_ata (nsect a) (lbal a) v (lbah a) (device a) (ph a) (pending a) (sectors a)
  else if r =? reg_lbah then mk_ata (nsect a) (lbal a) (lbam a) v (device a) (ph a) (pending a) (sectors a)
  else mk_ata (nsect a) (lbal a) (lbam a) (lbah a) v (ph a) (pending a) (sectors a).

(** The selected disk and sector: bit 4 and the low four bits of the device
    register, and the three LBA registers. *)
Definition sel_dev (a : ata) : Z := Z.b2z (Z.testbit (device a) 4).
Definition sel_lba (a : ata) : Z := lbal a + 2 ^ 8 * lbam a + 2 ^ 16 * lbah a + 2 ^ 24 * (device a mod 16).
Definition addresses (a : ata) (dev lba : Z) : Prop :=
  Z.testbit (device a) 6 = true ∧ Z.testbit (device a) 7 = true ∧ Z.testbit (device a) 5 = true ∧ nsect a = 1 ∧ sel_dev a = dev ∧ sel_lba a = lba.

(** The laws of a controller at [base]: commands are given while it is idle;
    a busy controller becomes ready after fewer than 3000 reads of the status
    and asks for an interrupt when data can be read or has been written. *)
Class AtaLaws (hw : Type) `{!Ata hw} (base : Z) (state : hw → ata) (polls : hw → nat) : Prop := {
  ata_register h r v : 2 ≤ r ≤ 6 → is_byte v → ph (state h) = Idle → state (port_out (base + r) v h) = with_reg r v (state h);
  ata_read h dev lba data : ph (state h) = Idle → pending (state h) = false → addresses (state h) dev lba → sectors (state h) !! (dev, lba) = Some data →
    let h' := port_out (base + reg_command) CMD_READ_SECTOR_RETRY h in state h' = with_ph (Busy (DataIn data)) true (state h);
  ata_write h dev lba data : ph (state h) = Idle → pending (state h) = false → addresses (state h) dev lba → sectors (state h) !! (dev, lba) = Some data →
    let h' := port_out (base + reg_command) CMD_WRITE_SECTOR_RETRY h in state h' = with_ph (Busy (DataOut dev lba)) false (state h) ∧ (polls h' < 3000)%nat;
  ata_status h r : r = reg_status ∨ r = reg_alt_status → (∀ p, ph (state h) ≠ Busy p) →
    let '(v, h') := port_in (base + r) h in
    state h' = state h ∧ (Z.land v STA_BSY =? 0) = true ∧ (Z.land v (Z.lor STA_BSY STA_DRQ) =? 0) = (Z.land v STA_DRQ =? 0) ∧
    (Z.land v STA_DRQ =? 0) = match ph (state h) with Idle => true | _ => false end;
  ata_busy h p : ph (state h) = Busy p → (∀ q, p ≠ Busy q) →
    let '(v, h') := port_in (base + reg_alt_status) h in
    ((Z.land v STA_BSY =? 0) = false ∧ state h' = state h ∧ (polls h' < polls h)%nat) ∨ ((Z.land v STA_BSY =? 0) = true ∧ state h' = with_ph p (pending (state h)) (state h));
  ata_interrupt h p : pending (state h) = true → ph (state h) = Busy p → ∃ h', wait_interrupt h = Some h' ∧ state h' = with_ph p false (state h);
  ata_data_in h data : ph (state h) = DataIn data → ∃ h', words_in (base + reg_data) h = (data, h') ∧ state h' = with_ph Idle (pending (state h)) (state h);
  ata_data_out h dev lba data : ph (state h) = DataOut dev lba → len data = 512 →
    state (words_out (base + reg_data) data h) = with_ph (Busy Idle) true (with_sectors (<[(dev, lba) := data]> (sectors (state h))) (state h))
}.

(** ** Proofs *)

Section proofs.
Context {hw : Type} `{!Ata hw} (base : Z) (state : hw → ata) (polls : hw → nat) `{Hata : !AtaLaws hw base state polls}.
Implicit Types c : channel hw.

(** The channel between two calls of the driver. *)
Record ready (c : channel hw) (m : gmap (Z * Z) (list Z)) : Prop := {
  rd_base : reg_base c = base;
  rd_unlocked : locked c = false;
  rd_wait : completion_wait c = 0;
  rd_idle : ph (state (hardware c)) = Idle;
  rd_pending : pending (state (hardware c)) = false;
  rd_sectors : sectors (state (hardware c)) = m
}.

(** Only the hardware changes. *)
Definition same (c c' : channel hw) : Prop := c' = set_hw (hardware c') c.
Lemma same_set_hw c h : same c (set_hw h c).
Proof. done. Qed.
Lemma same_trans c1 c2 c3 : same c1 c2 → same c2 c3 → same c1 c3.
Proof. unfold same. intros E1 E2. rewrite E2, E1. done. Qed.

Lemma inb_status c r (Q : Z → channel hw → Prop) : reg_base c = base → r = reg_status ∨ r = reg_alt_status → (∀ p, ph (state (hardware c)) ≠ Busy p) →
  (∀ v h, state h = state (hardware c) → (Z.land v STA_BSY =? 0) = true → (Z.land v (Z.lor STA_BSY STA_DRQ) =? 0) = (Z.land v STA_DRQ =? 0) →
     (Z.land v STA_DRQ =? 0) = match ph (state (hardware c)) with Idle => true | _ => false end → Q v (set_hw h c)) → wp (inb r) Q c.
Proof.
  intros Hb Hr Hp HQ. unfold wp, inb. rewrite Hb. pose proof (ata_status (hardware c) r Hr Hp) as H. destruct (port_in (base + r) (hardware c)) as [v h]. destruct H as (? & ? & ? & ?). by apply HQ.
Qed.

Lemma wait_until_idle_ok c (Q : unit → channel hw → Prop) : reg_base c = base → ph (state (hardware c)) = Idle →
  (∀ h, state h = state (hardware c) → Q tt (set_hw h c)) → wp wait_until_idle Q c.
Proof.
  intros Hb Hp HQ. unfold wait_until_idle. change 1000%nat with (S 999). generalize 999%nat as k. intros k. cbn [idle_loop]. wp_step. apply inb_status; [done|by left|by rewrite Hp|].
  intros v h E1 E2 E3 E4. rewrite E3, E4, Hp. wp_step. by apply HQ.
Qed.

(** The controller is ready after a bounded number of reads. *)
Lemma wait_while_busy_ok c p (Q : bool → channel hw → Prop) : reg_base c = base → ph (state (hardware c)) = Busy p → (∀ q, p ≠ Busy q) → (polls (hardware c) < 3000)%nat →
  (∀ h, state h = with_ph p (pending (state (hardware c))) (state (hardware c)) → Q (match p with Idle => false | _ => true end) (set_hw h c)) → wp wait_while_busy Q c.
Proof.
  intros Hb Hp Hnb Hn HQ. unfold wait_while_busy. revert Hn. generalize 3000%nat as n. intros n. revert c Hb Hp HQ. induction n as [|n IH]; intros c Hb Hp HQ Hn; [lia|]. cbn [busy_loop]. wp_step.
  unfold wp at 1, inb. rewrite Hb. pose proof (ata_busy (hardware c) p Hp Hnb) as H. destruct (port_in (base + reg_alt_status) (hardware c)) as [v h]. destruct H as [(-> & Es & Hpo)|(-> & Es)].
  - apply IH; cbn [set_hw hardware reg_base]; [done|by rewrite Es| |lia]. rewrite Es. intros h' Eh. by apply HQ.
  - wp_step. apply inb_status; cbn [set_hw hardware reg_base]; [done|by right|rewrite Es; cbn; done|]. intros v' h' Es' _ _ E4. wp_step. rewrite E4, Es.
    replace (negb match ph (with_ph p (pending (state (hardware c))) (state (hardware c))) with Idle => true | _ => false end) with (match p with Idle => false | _ => true end) by (cbn; by destruct p).
    apply (HQ h'). by rewrite Es'.
Qed.

(** The same when it is ready already. *)
Lemma wait_ready_ok c (Q : bool → channel hw → Prop) : reg_base c = base → (∀ p, ph (state (hardware c)) ≠ Busy p) →
  (∀ h, state h = state (hardware c) → Q (match ph (state (hardware c)) with Idle => false | _ => true end) (set_hw h c)) → wp wait_while_busy Q c.
Proof.
  intros Hb Hp HQ. unfold wait_while_busy. change 3000%nat with (S 2999). generalize 2999%nat as k. intros k. cbn [busy_loop]. wp_step. apply inb_status; [done|by right|done|].
  intros v h E1 E2 _ _. rewrite E2. wp_step. apply inb_status; cbn [set_hw hardware reg_base]; [done|by right|by rewrite E1|]. intros v' h' E1' _ _ E4. wp_step. rewrite E4, E1.
  replace (negb match ph (state (hardware c)) with Idle => true | _ => false end) with (match ph (state (hardware c)) with Idle => false | _ => true end) by (by destruct (ph (state (hardware c)))).
  apply (HQ h'). congruence.
Qed.

Lemma outb_register c r v (Q : unit → channel hw → Prop) : reg_base c = base → 2 ≤ r ≤ 6 → ph (state (hardware c)) = Idle →
  (∀ h, state h = with_reg r (wrap8 v) (state (hardware c)) → Q tt (set_hw h c)) → wp (outb r v) Q c.
Proof. intros Hb Hr Hp HQ. unfold outb. wp_step. rewrite Hb. apply HQ. apply ata_register; [done|apply wrap8_range|done]. Qed.

Lemma device_register dev s : dev = 0 ∨ dev = 1 → 0 ≤ s < 16 →
  let v := wrap8 (Z.lor (Z.lor (Z.lor DEV_MBS DEV_LBA) (if dev =? 1 then DEV_DEV else 0)) s) in
  Z.testbit v 6 = true ∧ Z.testbit v 7 = true ∧ Z.testbit v 5 = true ∧ Z.b2z (Z.testbit v 4) = dev ∧ v mod 16 = s.
Proof.
  intros Hd Hs. assert (∃ n, (n < 16)%nat ∧ s = Z.of_nat n) as (n & Hn & ->) by (exists (Z.to_nat s); lia). clear Hs.
  destruct Hd as [-> | ->]; do 16 (destruct n as [|n]; [vm_compute; done|]); lia.
Qed.

Lemma sector_registers sec : 0 ≤ sec < 2 ^ 28 →
  wrap8 sec + 2 ^ 8 * wrap8 (Z.shiftr sec 8) + 2 ^ 16 * wrap8 (Z.shiftr sec 16) + 2 ^ 24 * Z.shiftr sec 24 = sec ∧ 0 ≤ Z.shiftr sec 24 < 16.
Proof.
  intros H. rewrite !Z.shiftr_div_pow2 by lia. unfold wrap8. change (2 ^ 8) with 256. change (2 ^ 16) with 65536. change (2 ^ 24) with 16777216.
  change (2 ^ 28) with 268435456 in H. split; [|div_lia]. replace (sec / 65536) with (sec / 256 / 256) by (by rewrite Z.div_div). replace (sec / 16777216) with (sec / 256 / 256 / 256) by (by rewrite !Z.div_div). div_lia.
Qed.

Lemma select_sector_ok c d sec (Q : unit → channel hw → Prop) : reg_base c = base → ph (state (hardware c)) = Idle → dev_no d = 0 ∨ dev_no d = 1 → 0 ≤ sec < 2 ^ 28 →
  (∀ h, addresses (state h) (dev_no d) sec → ph (state h) = Idle → pending (state h) = pending (state (hardware c)) → sectors (state h) = sectors (state (hardware c)) → Q tt (set_hw h c)) →
  wp (select_sector d sec) Q c.
Proof.
  intros Hb Hp Hd Hs HQ. unfold select_sector. wp_step. wp_step; [apply Z.ltb_lt; change (Z.shiftl 1 28) with (2 ^ 28); lia|]. unfold select_device_wait. wp_step. wp_step.
  apply wait_until_idle_ok; [done|done|]. intros h1 E1. wp_step. unfold select_device. wp_step. apply outb_register; [done|done|cbn; by rewrite E1|]. intros h2 E2.
  assert (P2 : ph (state h2) = Idle) by (rewrite E2; cbn; by rewrite E1). wp_step. apply inb_status; [done|by right|cbn; by rewrite P2|]. intros v h3 E3 _ _ _. wp_step.
  cbn [set_hw hardware reg_base] in *. apply wait_until_idle_ok; cbn [set_hw hardware reg_base]; [done|congruence|]. intros h4 E4. cbn [set_hw hardware] in E4. rewrite E3, E2, E1 in E4.
  wp_step. apply outb_register; [done|done|cbn; by rewrite E4|]. intros h5 E5. cbn [set_hw hardware] in E5. rewrite E4 in E5.
  wp_step. apply outb_register; [done|done|cbn; by rewrite E5|]. intros h6 E6. cbn [set_hw hardware] in E6. rewrite E5 in E6.
  wp_step. apply outb_register; [done|done|cbn; by rewrite E6|]. intros h7 E7. cbn [set_hw hardware] in E7. rewrite E6 in E7.
  wp_step. apply outb_register; [done|done|cbn; by rewrite E7|]. intros h8 E8. cbn [set_hw hardware] in E8. rewrite E7 in E8.
  apply outb_register; [done|done|cbn; by rewrite E8|]. intros h9 E9. cbn [set_hw hardware] in E9. rewrite E8 in E9.
  destruct (sector_registers sec Hs) as [Hsec Hhi]. pose proof (device_register (dev_no d) (Z.shiftr sec 24) Hd Hhi) as (B6 & B7 & B5 & B4 & Bm).
  apply (HQ h9); rewrite E9; [|done..]. unfold addresses, sel_dev, sel_lba. cbn [with_reg Z.eqb Pos.eqb reg_nsect reg_lbal reg_lbam reg_lbah reg_device device nsect lbal lbam lbah].
  rewrite Bm. done.
Qed.

Lemma completion_down_ok c p (Q : unit → channel hw → Prop) : reg_base c = base → completion_wait c = 0 → expecting_interrupt c = true → ph (state (hardware c)) = Busy p →
  (∀ q, p ≠ Busy q) → pending (state (hardware c)) = true → (∀ h, state h = with_ph p false (state (hardware c)) → Q tt (set_hw h c)) → wp completion_down Q c.
Proof.
  intros Hb Hw He Hp Hnb Hpe HQ. unfold wp, completion_down. rewrite Hw. cbn [Z.eqb]. destruct (ata_interrupt (hardware c) p Hpe Hp) as (h1 & -> & E1).
  match goal with |- match ?m c with _ => _ end => change (wp m Q c) end. wp_step. wp_step. unfold interrupt_handler. wp_step. wp_step. wp_step. cbn [set_hw irq]. rewrite Z.eqb_refl.
  wp_step. wp_step. cbn [set_hw expecting_interrupt]. rewrite He. unfold when. wp_step. apply inb_status; [done|by left|cbn; rewrite E1; cbn; done|]. intros v h2 E2 _ _ _. wp_step. wp_step. wp_step.
  cbn [set_hw set_wait completion_wait]. rewrite Hw. change (wrap32 (0 + 1)) with 1. cbn [Z.eqb]. wp_step. cbn [set_hw set_wait hardware] in *.
  specialize (HQ h2 ltac:(congruence)). destruct c. cbn in *. subst. exact HQ.
Qed.

Lemma ide_read_ok c m d sec data (Q : list Z → channel hw → Prop) : ready c m → dev_no d = 0 ∨ dev_no d = 1 → 0 ≤ sec < 2 ^ 28 → m !! (dev_no d, sec) = Some data →
  (∀ c', ready c' m → Q data c') → wp (ide_read d sec) Q c.
Proof.
  intros [Hb Hu Hw Hi Hp Hm] Hd Hs Hdata HQ. unfold ide_read, lock_acquire. wp_step. wp_step. wp_step. wp_step. wp_step; [by rewrite Hu|]. wp_step. wp_step.
  apply select_sector_ok; [done|done|done|done|]. cbn [set_locked hardware]. intros h1 A1 I1 P1 S1. unfold issue_pio_command. wp_step. wp_step. wp_step. unfold outb. wp_step.
  cbn [set_hw set_expecting set_locked reg_base hardware]. rewrite Hb. change (wrap8 CMD_READ_SECTOR_RETRY) with CMD_READ_SECTOR_RETRY.
  assert (N1 : pending (state h1) = false) by congruence. assert (G1 : sectors (state h1) !! (dev_no d, sec) = Some data) by congruence.
  pose proof (ata_read h1 (dev_no d) sec data I1 N1 A1 G1) as E2. cbv zeta in E2. set (h2 := port_out (base + reg_command) CMD_READ_SECTOR_RETRY h1) in *.
  wp_step. apply (completion_down_ok _ (DataIn data)); [done|done|done|cbn; by rewrite E2|done|cbn; by rewrite E2|]. cbn [set_hw set_expecting set_locked hardware]. intros h3 E3.
  assert (P3 : ph (state h3) = DataIn data) by (by rewrite E3). wp_step. apply wait_ready_ok; [done|cbn; by rewrite P3|]. cbn [set_hw set_expecting set_locked hardware]. rewrite P3. intros h4 E4. cbn [negb].
  destruct (ata_data_in h4 data) as (h5 & E5 & F5); [congruence|]. wp_step. unfold wp at 1, input_sector. cbn [set_hw set_expecting set_locked reg_base hardware]. rewrite Hb, E5.
  unfold lock_release. wp_step. wp_step. wp_step. wp_step. wp_step; [done|]. wp_step. wp_step. apply HQ. split; cbn [set_hw set_locked set_expecting reg_base locked completion_wait hardware]; [done|done|done|by rewrite F5|rewrite F5; cbn; by rewrite E4, E3|].
  rewrite F5. cbn. rewrite E4, E3. cbn. rewrite E2. cbn. by rewrite S1.
Qed.

Lemma ide_write_ok c m d sec data old (Q : unit → channel hw → Prop) : ready c m → dev_no d = 0 ∨ dev_no d = 1 → 0 ≤ sec < 2 ^ 28 → m !! (dev_no d, sec) = Some old → len data = 512 →
  (∀ c', ready c' (<[(dev_no d, sec) := data]> m) → Q tt c') → wp (ide_write d sec data) Q c.
Proof.
  intros [Hb Hu Hw Hi Hp Hm] Hd Hs Hold Hl HQ. unfold ide_write, lock_acquire. wp_step. wp_step. wp_step. wp_step. wp_step; [by rewrite Hu|]. wp_step. wp_step.
  apply select_sector_ok; [done|done|done|done|]. cbn [set_locked hardware]. intros h1 A1 I1 P1 S1. unfold issue_pio_command. wp_step. wp_step. wp_step. unfold outb. wp_step.
  cbn [set_hw set_expecting set_locked reg_base hardware]. rewrite Hb. change (wrap8 CMD_WRITE_SECTOR_RETRY) with CMD_WRITE_SECTOR_RETRY.
  assert (N1 : pending (state h1) = false) by congruence. assert (G1 : sectors (state h1) !! (dev_no d, sec) = Some old) by congruence.
  pose proof (ata_write h1 (dev_no d) sec old I1 N1 A1 G1) as [E2 N2]. set (h2 := port_out (base + reg_command) CMD_WRITE_SECTOR_RETRY h1) in *.
  wp_step. apply (wait_while_busy_ok _ (DataOut (dev_no d) sec)); [done|cbn; by rewrite E2|done|done|]. cbn [set_hw set_expecting set_locked hardware]. intros h3 E3. cbn [negb].
  assert (P3 : ph (state h3) = DataOut (dev_no d) sec) by (by rewrite E3). wp_step. unfold output_sector. wp_step. cbn [set_hw set_expecting set_locked reg_base hardware]. rewrite Hb.
  pose proof (ata_data_out h3 _ _ data P3 Hl) as E4. set (h4 := words_out (base + reg_data) data h3) in *.
  wp_step. apply (completion_down_ok _ Idle); [done|done|done|cbn; by rewrite E4|done|cbn; by rewrite E4|]. cbn [set_hw set_expecting set_locked hardware]. intros h5 E5.
  unfold lock_release. wp_step. wp_step. wp_step. wp_step; [done|]. wp_step. apply HQ. split; cbn [set_hw set_locked set_expecting reg_base locked completion_wait hardware]; [done|done|done|by rewrite E5..|].
  rewrite E5. cbn. rewrite E4. cbn. rewrite E3. cbn. rewrite E2. cbn. by rewrite S1, Hm.
Qed.
End proofs.

(** ** Requests *)

Inductive request := Read (d : ata_disk) (sec_no : Z) | Write (d : ata_disk) (sec_no : Z) (buffer : list Z).

Fixpoint serve {hw} `{!Ata hw} (reqs : list request) : M (channel hw) (list (list Z)) :=
  match reqs with
  | [] => mret []
  | Read d sec :: reqs => x ← ide_read d sec; out ← serve reqs; mret (x :: out)
  | Write d sec buffer :: reqs => ide_write d sec buffer ;; serve reqs
  end.

(** The requests on the sectors of two disks: what is read, and the sectors
    afterwards. *)
Fixpoint specified (reqs : list request) (m : gmap (Z * Z) (list Z)) : list (list Z) * gmap (Z * Z) (list Z) :=
  match reqs with
  | [] => ([], m)
  | Read d sec :: reqs => let r := specified reqs m in (default [] (m !! (dev_no d, sec)) :: r.1, r.2)
  | Write d sec buffer :: reqs => specified reqs (<[(dev_no d, sec) := buffer]> m)
  end.

(** A request for a sector that is there. *)
Definition valid_request (m : gmap (Z * Z) (list Z)) (r : request) : Prop :=
  match r with
  | Read d sec => (dev_no d = 0 ∨ dev_no d = 1) ∧ 0 ≤ sec < 2 ^ 28 ∧ is_Some (m !! (dev_no d, sec))
  | Write d sec buffer => (dev_no d = 0 ∨ dev_no d = 1) ∧ 0 ≤ sec < 2 ^ 28 ∧ is_Some (m !! (dev_no d, sec)) ∧ len buffer = 512
  end.

(** ** Properties *)

(** C22: on a controller that follows the ATA protocol, with any delays, the
    driver serves every sequence of requests for sectors of its two disks like
    an array of sectors: reads return what was last written to that sector of
    that disk, writes change no other sector, and no assertion or timeout
    happens. *)
Theorem ide_serves_sectors {hw} `{!Ata hw} base state polls (c : channel hw) m reqs : AtaLaws hw base state polls → ready base state c m → Forall (valid_request m) reqs →
  wp (serve reqs) (λ out c', out = (specified reqs m).1 ∧ ready base state c' (specified reqs m).2) c.
Proof.
  intros Hata Hr Hv. revert c m Hr Hv. induction reqs as [|r reqs IH]; intros c m Hr Hv; cbn [serve specified]; [by wp_step|]. apply Forall_cons in Hv as [H1 Hv]. destruct r as [d sec|d sec buffer].
  - destruct H1 as (Hd & Hs & [x Hx]). wp_step. eapply (ide_read_ok base state polls); [done|done|done|exact Hx|]. intros c' Hr'. wp_step. eapply wp_mono; [by apply (IH c' m)|].
    intros out c'' [-> Hc]. wp_step. cbn [fst snd]. by rewrite Hx.
  - destruct H1 as (Hd & Hs & [x Hx] & Hl). wp_step. eapply (ide_write_ok base state polls); [done|done|done|exact Hx|done|]. intros c' Hr'. apply IH; [done|].
    eapply Forall_impl; [exact Hv|]. intros [d' sec'|d' sec' b']; cbn; rewrite lookup_insert_is_Some'; tauto.
Qed.

(** *** The strings of a disk *)

Lemma swap_pairs_length l : length (swap_pairs l) = length l.
Proof.
  assert (H : ∀ n l, (length l ≤ n)%nat → length (swap_pairs l) = length l).
  { clear l. induction n as [|n IH]; intros [|a [|b l]] Hl; cbn in *; try lia. rewrite IH by lia. done. }
  by apply (H (length l)).
Qed.
Lemma swap_pairs_involutive l : swap_pairs (swap_pairs l) = l.
Proof.
  assert (H : ∀ n l, (length l ≤ n)%nat → swap_pairs (swap_pairs l) = l).
  { clear l. induction n as [|n IH]; intros [|a [|b l]] Hl; cbn in *; try done; try lia. by rewrite IH by lia. }
  by apply (H (length l)).
Qed.

Definition visible (c : Z) : Prop := c ≠ 0 ∧ isspace (signed 8 c) = false.

Lemma trim_size_at l n k c : (S k ≤ n)%nat → l !! k = Some c → visible c → (∀ i, (S k ≤ i < n)%nat → l !! i = Some 32) → trim_size l n = S k.
Proof.
  intros Hk Hc [H0 Hv] Hb. induction n as [|n IH]; [lia|]. cbn [trim_size]. destruct (decide (n = k)) as [->|Hne].
  - rewrite Hc. cbn [default from_option id]. by rewrite (proj2 (Z.eqb_neq c 0)), Hv by done.
  - rewrite (Hb n) by lia. change (negb (default 0 (Some 32) =? 0) && negb (isspace (signed 8 (default 0 (Some 32))))) with false. cbv iota. apply IH; [lia|]. intros i Hi. apply Hb. lia.
Qed.

(** A text that is stored with its bytes swapped and with blanks after it is
    read back, if there is at least one blank. *)
Theorem descramble_roundtrip s c k : visible c → (0 < k)%nat → descramble_ata_string (swap_pairs ((s ++ [c]) ++ replicate k 32)) = s ++ [c].
Proof.
  intros Hc Hk. unfold descramble_ata_string. rewrite swap_pairs_involutive. rewrite (trim_size_at _ _ (length s) c).
  - rewrite take_app_le by (rewrite length_app; cbn; lia). apply take_ge. rewrite length_app. cbn. lia.
  - rewrite !length_app, length_replicate. cbn. lia.
  - rewrite <-app_assoc. by apply list_lookup_middle.
  - done.
  - intros i Hi. rewrite !length_app, length_replicate in Hi. cbn in Hi. rewrite lookup_app_r by (rewrite length_app; cbn; lia). apply lookup_replicate_2. rewrite length_app. cbn. lia.
Qed.

(** A text that fills its field loses its last character. *)
Theorem descramble_truncates s c d : visible c → descramble_ata_string (swap_pairs (s ++ [c; d])) = s ++ [c].
Proof.
  intros Hc. unfold descramble_ata_string. rewrite swap_pairs_involutive. rewrite (trim_size_at _ _ (length s) c).
  - change [c; d] with ([c] ++ [d]). rewrite app_assoc. rewrite take_app_le by (rewrite length_app; cbn; lia). apply take_ge. rewrite length_app. cbn. lia.
  - rewrite length_app. cbn. lia.
  - by apply list_lookup_middle.
  - done.
  - intros i Hi. rewrite length_app in Hi. cbn in Hi. lia.
Qed.

(** ** A controller *)

(** A controller with one disk of which every command takes a few reads of the
    status. *)
Record sim := mk_sim { sim_state : ata; sim_delay : nat }.
Definition sim_base : Z := 0x1f0.

Definition sim_command (v : Z) (s : sim) : sim :=
  let a := sim_state s in
  match ph a with
  | Idle =>
      match sectors a !! (sel_dev a, sel_lba a) with
      | Some data =>
          if v =? CMD_READ_SECTOR_RETRY then mk_sim (with_ph (Busy (DataIn data)) true a) 2
          else if v =? CMD_WRITE_SECTOR_RETRY then mk_sim (with_ph (Busy (DataOut (sel_dev a) (sel_lba a))) false a) 2
          else if v =? CMD_IDENTIFY_DEVICE then
            mk_sim (with_ph (Busy (DataIn (replicate 20 0 ++ swap_pairs (text "QM00001" ++ replicate 13 32) ++ replicate 14 0 ++ swap_pairs (text "QEMU HARDDISK" ++ replicate 27 32)
                                           ++ replicate 26 0 ++ le32 (Z.of_nat (size (sectors a))) ++ replicate 388 0))) true a) 2
          else s
      | None => s
      end
  | _ => s
  end.
Definition sim_out (p v : Z) (s : sim) : sim :=
  let r := p - sim_base in let a := sim_state s in
  if (2 <=? r) && (r <=? 6) then match ph a with Idle => mk_sim (with_reg r v a) (sim_delay s) | _ => s end
  else if r =? reg_command then sim_command v s
  else if (r =? reg_ctl) && (v =? CTL_SRST) then mk_sim (mk_ata 1 1 0 0 0 (ph a) (pending a) (sectors a)) (sim_delay s)
  else s.
Definition sim_in (p : Z) (s : sim) : Z * sim :=
  let r := p - sim_base in let a := sim_state s in
  if (r =? reg_status) || (r =? reg_alt_status) then
    match ph a with
    | Idle => (STA_DRDY, s)
    | Busy q =>
        if r =? reg_status then (STA_BSY, s) else
        match sim_delay s with O => (STA_DRDY, mk_sim (with_ph q (pending a) a) 0) | S n => (STA_BSY, mk_sim a n) end
    | _ => (Z.lor STA_DRDY STA_DRQ, s)
    end
  else if sel_dev a =? 1 then (0, s)
  else (if r =? reg_error then 1 else if r =? reg_nsect then nsect a else if r =? reg_lbal then lbal a else if r =? reg_lbam then lbam a else if r =? reg_lbah then lbah a else 0, s).

#[export] Instance sim_ata : Ata sim := {|
  port_out := sim_out;
  port_in := sim_in;
  words_in _ s := match ph (sim_state s) with DataIn data => (data, mk_sim (with_ph Idle (pending (sim_state s)) (sim_state s)) (sim_delay s)) | _ => ([], s) end;
  words_out _ data s :=
    match ph (sim_state s) with
    | DataOut dev lba => mk_sim (with_ph (Busy Idle) true (with_sectors (<[(dev, lba) := data]> (sectors (sim_state s))) (sim_state s))) 2
    | _ => s
    end;
  wait_interrupt s :=
    if pending (sim_state s) then match ph (sim_state s) with Busy p => Some (mk_sim (with_ph p false (sim_state s)) 0) | _ => None end else None
|}.

#[export] Instance sim_laws : AtaLaws sim sim_base sim_state sim_delay.
Proof.
  split; cbn [port_out port_in words_in words_out wait_interrupt sim_ata].
  - intros h r v Hr Hv Hp. unfold sim_out. replace (sim_base + r - sim_base) with r by lia. rewrite (proj2 (Z.leb_le 2 r)), (proj2 (Z.leb_le r 6)), Hp by lia. done.
  - intros h dev lba data Hp Hn (_ & _ & _ & _ & <- & <-) Hd. cbv zeta. change (sim_out _ ?v h) with (sim_command v h). unfold sim_command. by rewrite Hp, Hd.
  - intros h dev lba data Hp Hn (_ & _ & _ & _ & <- & <-) Hd. cbv zeta. change (sim_out _ ?v h) with (sim_command v h). unfold sim_command. rewrite Hp, Hd. cbn. split; [done|lia].
  - intros h r Hr Hb. unfold sim_in. replace (sim_base + r - sim_base) with r by lia.
    replace ((r =? reg_status) || (r =? reg_alt_status)) with true by (by destruct Hr as [-> | ->]). destruct (ph (sim_state h)) as [|q|data|dev lba]; [done|by destruct (Hb q)|done|done].
  - intros h p Hp Hnb. unfold sim_in. change (sim_base + reg_alt_status - sim_base) with reg_alt_status. rewrite Hp. cbn. destruct (sim_delay h) as [|n]; [by right|]. left. cbn. split; [done|]. split; [done|lia].
  - intros h p Hn Hp. rewrite Hn, Hp. by eexists.
  - intros h data Hp. rewrite Hp. by eexists.
  - intros h dev lba data Hp Hl. by rewrite Hp.
Qed.

(** ** Examples *)

Definition example_sectors : gmap (Z * Z) (list Z) := {[(0, 0) := replicate 512 1; (0, 1) := replicate 512 2]}.
Definition example_channel : channel sim := new_channel 0 (mk_sim (mk_ata 0 0 0 0 0 Idle false example_sectors) 0).
Definition example_requests : list request := let d := mk_disk 0 true in [Write d 1 (replicate 512 7); Read d 0; Read d 1].

Lemma example_ready : ready sim_base sim_state example_channel example_sectors.
Proof. by split. Qed.

Lemma ide_serves_sectors_witness : wp (serve example_requests)
  (λ out c', out = (specified example_requests example_sectors).1 ∧ ready sim_base sim_state c' (specified example_requests example_sectors).2) example_channel.
Proof.
  apply (ide_serves_sectors sim_base sim_state sim_delay example_channel example_sectors example_requests); [apply _|exact example_ready|].
  repeat constructor; try done; try lia; by apply lookup_insert_is_Some'; left || (apply lookup_insert_is_Some'; right; by eexists).
Defined.

(** Detection: one disk, whose model and serial strings are exchanged. *)
Example init_example :
  match init_channel example_channel with
  | Ok (l, c) => l = [(0, (2, text "QM00001", text "QEMU HARDDISK"))] ∧ is_ata <$> devices c = [true; false]
  | Err _ => False
  end.
Proof. vm_compute. done. Qed.
