(* ===== verification/Vga.v ===== *)
(** * The text screen ([devices/vga.c])

    The frame buffer is 25 rows of 80 cells of a character and an attribute;
    the hardware cursor is two bytes behind ports.  The screen is compared with
    a page of text that grows at the bottom: the screen shows its last 25
    rows.  Interrupts and the beep are left out. *)
From S2P Require Import Prelude Bytes Vaddr.

Definition COL_CNT : Z := 80.
Definition ROW_CNT : Z := 25.
Definition GRAY_ON_BLACK : Z := 7.

Abbreviation cell := (Z * Z)%type.
Abbreviation row := (list cell).

(** [cp] is the position that the hardware shows. *)
Record vga := mk_vga { fb : list row; cx : Z; cy : Z; cp : Z; inited : bool }.

Definition set_cursor (x y : Z) : M vga unit := modify (λ v, mk_vga (fb v) x y (cp v) (inited v)).
Definition set_cell (y x : Z) (c : cell) : M vga unit := λ v,
  match fb v !! Z.to_nat y with
  | Some r => match r !! Z.to_nat x with
              | Some _ => Ok (tt, mk_vga (<[Z.to_nat y := <[Z.to_nat x := c]> r]> (fb v)) (cx v) (cy v) (cp v) (inited v))
              | None => Err BadAccess
              end
  | None => Err BadAccess
  end.

Definition clear_row (y : Z) : M vga unit := for_loop (Z.to_nat COL_CNT) 0 (λ x, set_cell y x (32, GRAY_ON_BLACK)).

(** Two writes of a word to a pair of ports: the register index and its value. *)
Definition move_cursor : M vga unit :=
  x ← gets cx; y ← gets cy;
  let p := (x + COL_CNT * y) mod 2 ^ 16 in
  let high := Z.shiftr (Z.lor 0x0e (Z.land p 0xff00)) 8 in
  let low := Z.shiftr (Z.lor 0x0f (Z.shiftl p 8) mod 2 ^ 16) 8 in
  modify (λ v, mk_vga (fb v) (cx v) (cy v) (Z.lor (Z.shiftl high 8) low) (inited v)).

Definition find_cursor : M vga (Z * Z) :=
  p ← gets cp;
  let p := Z.lor (Z.shiftl (Z.shiftr p 8) 8) (Z.land p 0xff) in
  mret (p mod COL_CNT, p / COL_CNT).

Definition init : M vga unit :=
  i ← gets inited;
  when (negb i) ('(x, y) ← find_cursor; modify (λ v, mk_vga (fb v) x y (cp v) true)).

Definition cls : M vga unit :=
  for_loop (Z.to_nat ROW_CNT) 0 clear_row ;;
  set_cursor 0 0 ;;
  move_cursor.

(** [memmove] of all rows but the first to the front. *)
Definition scroll : M vga unit := λ v,
  if decide (ROW_CNT ≤ len (fb v)) then
    Ok (tt, mk_vga (take 24 (drop 1 (fb v)) ++ drop 24 (fb v)) (cx v) (cy v) (cp v) (inited v))
  else Err BadAccess.

Definition newline : M vga unit :=
  y ← gets cy; let y := wrap32 (y + 1) in
  set_cursor 0 y ;;
  if ROW_CNT <=? y then
    set_cursor 0 (ROW_CNT - 1) ;;
    scroll ;;
    clear_row (ROW_CNT - 1)
  else mret tt.

Definition ROUND_UP (x step : Z) : Z := (x + step - 1) / step * step.

Definition vga_putc (c : Z) : M vga unit :=
  init ;;
  x ← gets cx; y ← gets cy;
  (if c =? 10 then newline
   else if c =? 12 then cls
   else if c =? 8 then if 0 <? x then set_cursor (x - 1) y else mret tt
   else if c =? 13 then set_cursor 0 y
   else if c =? 9 then
     let x := ROUND_UP (x + 1) 8 in
     set_cursor x y ;;
     if COL_CNT <=? x then newline else mret tt
   else if c =? 7 then mret tt
   else
     set_cell y x (wrap8 c, GRAY_ON_BLACK) ;;
     set_cursor (x + 1) y ;;
     if COL_CNT <=? x + 1 then newline else mret tt) ;;
  move_cursor.

(** The calls of [vga_putc] for a text, one after the other. *)
Fixpoint vga_puts (l : list Z) : M vga unit := match l with [] => mret tt | c :: l => vga_putc c ;; vga_puts l end.

(** ** A page of text *)

Definition blank : row := replicate 80 (32, GRAY_ON_BLACK).

(** The page has at least as many rows as the screen; the cursor is on the
    screen.  [top] rows have scrolled off. *)
Record page := mk_page { rows : list row; top : nat; px : Z; py : Z }.

Definition page_newline (p : page) : page :=
  if decide (py p = 24) then mk_page (rows p ++ [blank]) (S (top p)) 0 24 else mk_page (rows p) (top p) 0 (py p + 1).

Definition page_put (c : Z) (p : page) : page :=
  mk_page (alter (λ r, <[Z.to_nat (px p) := (c, GRAY_ON_BLACK)]> r) (top p + Z.to_nat (py p))%nat (rows p)) (top p) (px p + 1) (py p).

Definition page_char (c : Z) (p : page) : page :=
  if c =? 10 then page_newline p
  else if c =? 12 then mk_page (take (top p) (rows p) ++ replicate 25 blank) (top p) 0 0
  else if c =? 8 then mk_page (rows p) (top p) (Z.max 0 (px p - 1)) (py p)
  else if c =? 13 then mk_page (rows p) (top p) 0 (py p)
  else if c =? 9 then
    let x := (px p / 8 + 1) * 8 in
    if decide (x = 80) then page_newline p else mk_page (rows p) (top p) x (py p)
  else if c =? 7 then p
  else if decide (px p = 79) then page_newline (page_put (wrap8 c) p) else page_put (wrap8 c) p.

Fixpoint page_text (l : list Z) (p : page) : page := match l with [] => p | c :: l => page_text l (page_char c p) end.

(** The screen shows the last rows of the page, with the cursor in place. *)
Record shows (v : vga) (p : page) : Prop := {
  sh_rows : length (rows p) = (top p + 25)%nat;
  sh_cells : Forall (λ r : row, length r = 80%nat) (rows p);
  sh_fb : fb v = drop (top p) (rows p);
  sh_x : cx v = px p ∧ 0 ≤ px p < 80;
  sh_y : cy v = py p ∧ 0 ≤ py p < 25;
  sh_cp : cp v = px p + 80 * py p;
  sh_inited : inited v = true
}.

(** ** Proofs *)

(** The screen and the page while a character is handled, before the hardware
    cursor is moved. *)
Record draws (v : vga) (p : page) : Prop := {
  dr_rows : length (rows p) = (top p + 25)%nat;
  dr_cells : Forall (λ r : row, length r = 80%nat) (rows p);
  dr_fb : fb v = drop (top p) (rows p);
  dr_x : cx v = px p ∧ 0 ≤ px p < 80;
  dr_y : cy v = py p ∧ 0 ≤ py p < 25;
  dr_inited : inited v = true
}.

Lemma shows_draws v p : shows v p → draws v p.
Proof. intros []. by split. Qed.

Lemma cursor_bytes p : 0 ≤ p < 2 ^ 16 →
  Z.lor (Z.shiftl (Z.shiftr (Z.lor 0x0e (Z.land p 0xff00)) 8) 8) (Z.shiftr (Z.lor 0x0f (Z.shiftl p 8) mod 2 ^ 16) 8) = p.
Proof.
  intros Hp. apply Z.bits_inj'. intros n Hn.
  rewrite Z.lor_spec, Z.shiftl_spec by done. rewrite (Z.shiftr_spec (_ mod _)) by done.
  destruct (decide (n < 8)) as [Hlt|Hge].
  - rewrite (Z.testbit_neg_r _ (n - 8)) by lia. cbn [orb]. rewrite Z.mod_pow2_bits_low by lia. rewrite Z.lor_spec, Z.shiftl_spec by lia. replace (n + 8 - 8) with n by lia.
    replace (Z.testbit 15 (n + 8)) with false; [done|]. symmetry. apply Z.bits_above_log2; [lia|]. change (Z.log2 15) with 3. lia.
  - rewrite Z.mod_pow2_bits_high by lia. rewrite orb_false_r. rewrite Z.shiftr_spec by lia. replace (n - 8 + 8) with n by lia. rewrite Z.lor_spec, Z.land_spec.
    replace (Z.testbit 14 n) with false; [|symmetry; apply Z.bits_above_log2; [lia|]; change (Z.log2 14) with 3; lia]. cbn [orb].
    destruct (decide (n < 16)).
    + replace (Z.testbit 0xff00 n) with true; [by rewrite andb_true_r|]. assert (n = 8 ∨ n = 9 ∨ n = 10 ∨ n = 11 ∨ n = 12 ∨ n = 13 ∨ n = 14 ∨ n = 15) as Hc by lia.
      repeat (destruct Hc as [-> | Hc]; [reflexivity|]). by subst.
    + rewrite <-(Z.mod_small p (2 ^ 16)) at 2 by done. rewrite <-(Z.mod_small p (2 ^ 16)) by done. rewrite !Z.mod_pow2_bits_high by lia. done.
Qed.

Lemma wp_move_cursor v p (Q : unit → vga → Prop) : draws v p → (∀ v', shows v' p → Q tt v') → wp move_cursor Q v.
Proof.
  intros [Hr Hc Hf [Hx Bx] [Hy By] Hi] HQ. unfold move_cursor. wp_step. wp_step. wp_step. wp_step. wp_step. apply HQ.
  assert (Ep : (cx v + COL_CNT * cy v) mod 2 ^ 16 = px p + 80 * py p) by (rewrite Hx, Hy; change COL_CNT with 80; rewrite Z.mod_small; lia).
  rewrite Ep, cursor_bytes by lia. by split.
Qed.

Lemma wp_set_cell v y x c r o (Q : unit → vga → Prop) : fb v !! Z.to_nat y = Some r → r !! Z.to_nat x = Some o →
  Q tt (mk_vga (<[Z.to_nat y := <[Z.to_nat x := c]> r]> (fb v)) (cx v) (cy v) (cp v) (inited v)) → wp (set_cell y x c) Q v.
Proof. intros H1 H2 HQ. unfold wp, set_cell. by rewrite H1, H2. Qed.

Lemma wp_clear_row v y r (Q : unit → vga → Prop) : fb v !! Z.to_nat y = Some r → length r = 80%nat →
  Q tt (mk_vga (<[Z.to_nat y := blank]> (fb v)) (cx v) (cy v) (cp v) (inited v)) → wp (clear_row y) Q v.
Proof.
  intros Hr Hl HQ. unfold clear_row.
  eapply wp_mono; [apply (wp_for_loop (λ x v', v' = mk_vga (<[Z.to_nat y := replicate (Z.to_nat x) (32, GRAY_ON_BLACK) ++ drop (Z.to_nat x) r]> (fb v)) (cx v) (cy v) (cp v) (inited v)))|].
  - cbn [Z.to_nat replicate app]. rewrite drop_0, list_insert_id by done. by destruct v.
  - intros x v' Hx ->. change (Z.of_nat (Z.to_nat COL_CNT)) with 80 in Hx. destruct (lookup_lt_is_Some_2 r (Z.to_nat x)) as [o Ho]; [lia|].
    set (r' := replicate (Z.to_nat x) _ ++ drop (Z.to_nat x) r). apply (wp_set_cell _ y x _ r' o); cbn [fb].
    + rewrite list_lookup_insert_eq; [done|]. by eapply lookup_lt_Some.
    + unfold r'. rewrite lookup_app_r by (rewrite length_replicate; lia). rewrite length_replicate, Nat.sub_diag, lookup_drop. by rewrite Nat.add_0_r.
    + cbn [cx cy cp inited]. rewrite list_insert_insert_eq. do 2 f_equal. unfold r'. rewrite insert_app_r_alt by (rewrite length_replicate; lia). rewrite length_replicate, Nat.sub_diag.
      rewrite (drop_S r o (Z.to_nat x)) by done. cbn. replace (Z.to_nat (x + 1)) with (S (Z.to_nat x)) by lia. rewrite replicate_S_end, <-(assoc_L (++)). done.
  - intros [] v' ->. change (0 + Z.of_nat (Z.to_nat COL_CNT)) with 80. change (Z.to_nat 80) with 80%nat. rewrite drop_ge, app_nil_r by lia. exact HQ.
Qed.

Lemma wp_newline v p (Q : unit → vga → Prop) : length (rows p) = (top p + 25)%nat → Forall (λ r : row, length r = 80%nat) (rows p) →
  fb v = drop (top p) (rows p) → cy v = py p → 0 ≤ py p < 25 → inited v = true →
  (∀ v', draws v' (page_newline p) → Q tt v') → wp newline Q v.
Proof.
  intros Hr Hc Hf Hy By Hi HQ. unfold newline. wp_step. wp_step. rewrite Hy. unfold wrap32. rewrite Z.mod_small by lia. wp_step. unfold set_cursor. wp_step.
  unfold page_newline in HQ. change ROW_CNT with 25 in *. destruct (decide (py p = 24)) as [E|E].
  - rewrite (proj2 (Z.leb_le 25 (py p + 1))) by lia. wp_step. wp_step. wp_step. unfold scroll, wp. cbn [fb cx cy cp inited]. change ROW_CNT with 25.
    assert (Hlen : length (fb v) = 25%nat) by (rewrite Hf, length_drop; lia). rewrite decide_True by lia.
    assert (Hall : Forall (λ r : row, length r = 80%nat) (fb v)) by (rewrite Hf; by apply Forall_drop).
    destruct (drop 24 (fb v)) as [|r l] eqn:E24; [apply (f_equal length) in E24; rewrite length_drop in E24; cbn in E24; lia|].
    assert (l = []) as -> by (apply (f_equal length) in E24; rewrite length_drop in E24; cbn in E24; destruct l; [done|cbn in E24; lia]).
    assert (Hl24 : length (take 24 (drop 1 (fb v))) = 24%nat) by (rewrite length_take, length_drop; lia).
    assert (Hr80 : length r = 80%nat) by (assert (Hd : Forall (λ r : row, length r = 80%nat) (drop 24 (fb v))) by (by apply Forall_drop); rewrite E24 in Hd; by apply Forall_cons in Hd as [? _]).
    apply (wp_clear_row _ (25 - 1) r); cbn [fb].
    + change (Z.to_nat (25 - 1)) with 24%nat. rewrite lookup_app_r by lia. by rewrite Hl24.
    + done.
    + cbn [cx cy cp inited]. apply HQ. split; cbn [rows top fb cx cy inited px py].
      * rewrite length_app. cbn. lia.
      * apply Forall_app. split; [done|]. by repeat constructor.
      * change (Z.to_nat (25 - 1)) with 24%nat. rewrite insert_app_r_alt by lia. rewrite Hl24. cbn. rewrite drop_app_le by lia. f_equal.
        rewrite Hf, drop_drop. rewrite take_ge by (rewrite length_drop; lia). f_equal. lia.
      * lia.
      * lia.
      * done.
  - rewrite (proj2 (Z.leb_gt 25 (py p + 1))) by lia. wp_step. apply HQ. split; cbn [rows top fb cx cy inited px py]; try done; lia.
Qed.

Lemma wp_cls v p (Q : unit → vga → Prop) : draws v p → (∀ v', shows v' (page_char 12 p) → Q tt v') → wp cls Q v.
Proof.
  intros [Hr Hc Hf [Hx Bx] [Hy By] Hi] HQ. unfold cls. wp_step.
  assert (Hlen : length (fb v) = 25%nat) by (rewrite Hf, length_drop; lia). assert (Hall : Forall (λ r : row, length r = 80%nat) (fb v)) by (rewrite Hf; by apply Forall_drop).
  eapply wp_mono; [apply (wp_for_loop (λ y v', v' = mk_vga (replicate (Z.to_nat y) blank ++ drop (Z.to_nat y) (fb v)) (cx v) (cy v) (cp v) (inited v)))|].
  - cbn [Z.to_nat replicate app]. rewrite drop_0. by destruct v.
  - intros y v' Hy' ->. change (Z.of_nat (Z.to_nat ROW_CNT)) with 25 in Hy'. destruct (lookup_lt_is_Some_2 (fb v) (Z.to_nat y)) as [r Hr']; [lia|].
    apply (wp_clear_row _ y r); cbn [fb].
    + rewrite lookup_app_r by (rewrite length_replicate; lia). rewrite length_replicate, Nat.sub_diag, lookup_drop. by rewrite Nat.add_0_r.
    + rewrite Forall_forall in Hall. apply Hall. by eapply list_elem_of_lookup_2.
    + cbn [cx cy cp inited]. f_equal. rewrite insert_app_r_alt by (rewrite length_replicate; lia). rewrite length_replicate, Nat.sub_diag.
      rewrite (drop_S (fb v) r (Z.to_nat y)) by done. cbn. replace (Z.to_nat (y + 1)) with (S (Z.to_nat y)) by lia. rewrite replicate_S_end, <-(assoc_L (++)). done.
  - intros [] v' ->. change (0 + Z.of_nat (Z.to_nat ROW_CNT)) with 25. change (Z.to_nat 25) with 25%nat. rewrite drop_ge, app_nil_r by lia. wp_step. unfold set_cursor. wp_step.
    cbn [fb cp inited]. apply (wp_move_cursor _ (page_char 12 p)); [|done]. unfold page_char. change (12 =? 10) with false. change (12 =? 12) with true. cbn iota.
    assert (Hlt : length (take (top p) (rows p)) = top p) by (rewrite length_take; lia).
    split; cbn [rows top fb cx cy inited px py]; try done; try lia.
    + rewrite length_app, length_replicate, Hlt. lia.
    + apply Forall_app. split; [by apply Forall_take|]. by apply Forall_replicate.
    + rewrite <-Hlt at 1. by rewrite drop_app_length.
Qed.

Lemma draws_cursor v p x : draws v p → 0 ≤ x < 80 → draws (mk_vga (fb v) x (cy v) (cp v) (inited v)) (mk_page (rows p) (top p) x (py p)).
Proof. intros [Hr Hc Hf [Hx Bx] [Hy By] Hi] H. split; cbn [rows top fb cx cy inited px py]; done. Qed.

Lemma wp_put v p c (Q : unit → vga → Prop) : draws v p →
  (∀ v', length (rows (page_put c p)) = (top p + 25)%nat → Forall (λ r : row, length r = 80%nat) (rows (page_put c p)) → fb v' = drop (top p) (rows (page_put c p)) →
     cx v' = cx v → cy v' = cy v → inited v' = true → Q tt v') →
  wp (set_cell (cy v) (cx v) (c, GRAY_ON_BLACK)) Q v.
Proof.
  intros [Hr Hc Hf [Hx Bx] [Hy By] Hi] HQ. rewrite Hx, Hy. destruct (lookup_lt_is_Some_2 (rows p) (top p + Z.to_nat (py p))) as [r Hrow]; [lia|].
  assert (Hl : length r = 80%nat) by (rewrite Forall_forall in Hc; apply Hc; by eapply list_elem_of_lookup_2).
  destruct (lookup_lt_is_Some_2 r (Z.to_nat (px p))) as [o Ho]; [lia|].
  assert (Hal : ∀ f, f r = <[Z.to_nat (px p) := (c, GRAY_ON_BLACK)]> r → alter f (top p + Z.to_nat (py p))%nat (rows p) = <[(top p + Z.to_nat (py p))%nat := f r]> (rows p)).
  { intros f _. apply list_eq. intros i. destruct (decide (i = (top p + Z.to_nat (py p))%nat)) as [->|Hne].
    - rewrite list_lookup_alter_eq, Hrow, list_lookup_insert_eq by (by eapply lookup_lt_Some). done.
    - by rewrite list_lookup_alter_ne, list_lookup_insert_ne by done. }
  apply (wp_set_cell _ _ _ _ r o); [by rewrite Hf, lookup_drop|done|]. unfold page_put in HQ. cbn [rows] in HQ. rewrite Hal in HQ by done.
  apply HQ; cbn [fb cx cy inited]; [by rewrite length_insert| |rewrite Hf, drop_insert_ge by lia; f_equal; lia|done..].
  apply Forall_insert; [done|]. by rewrite length_insert.
Qed.

(** A character moves the screen as it moves the page. *)
Lemma vga_putc_shows v p c (Q : unit → vga → Prop) : shows v p → (∀ v', shows v' (page_char c p) → Q tt v') → wp (vga_putc c) Q v.
Proof.
  intros Hsh HQ. pose proof (shows_draws v p Hsh) as Hd. destruct (dr_x _ _ Hd) as [Hx Bx]. destruct (dr_y _ _ Hd) as [Hy By].
  unfold vga_putc, init. repeat wp_step. rewrite (dr_inited _ _ Hd). cbn [negb when]. repeat wp_step.
  assert (Hend : ∀ v', draws v' (page_char c p) → wp move_cursor Q v') by (intros v' Hv'; eapply wp_move_cursor; [exact Hv'|exact HQ]).
  assert (Hnl : ∀ v' p', length (rows p') = (top p' + 25)%nat → Forall (λ r : row, length r = 80%nat) (rows p') → fb v' = drop (top p') (rows p') → cy v' = py p' → 0 ≤ py p' < 25 → inited v' = true →
    page_char c p = page_newline p' → wp newline (λ _ s', wp move_cursor Q s') v').
  { intros v' p' H1 H2 H3 H4 H5 H6 E. apply (wp_newline v' p'); [done..|]. intros v'' Hv''. apply Hend. by rewrite E. }
  unfold page_char in Hend, Hnl. change COL_CNT with 80.
  destruct (Z.eqb_spec c 10) as [->|]; [apply (Hnl v p); try done; apply Hd|].
  destruct (Z.eqb_spec c 12) as [->|]; [eapply wp_cls; [exact Hd|]; intros v' Hv'; apply Hend; exact (shows_draws _ _ Hv')|].
  destruct (Z.eqb_spec c 8) as [->|].
  { destruct (Z.ltb_spec 0 (cx v)) as [H0|H0]; unfold set_cursor; wp_step; apply Hend.
    - replace (Z.max 0 (px p - 1)) with (cx v - 1) by lia. apply draws_cursor; [done|lia].
    - replace (Z.max 0 (px p - 1)) with (px p) by lia. by destruct p. }
  destruct (Z.eqb_spec c 13) as [->|]; [unfold set_cursor; wp_step; apply Hend; apply draws_cursor; [done|lia]|].
  destruct (Z.eqb_spec c 9) as [->|].
  { assert (E : ROUND_UP (cx v + 1) 8 = (px p / 8 + 1) * 8) by (unfold ROUND_UP; rewrite Hx; div_lia). rewrite E. wp_step. unfold set_cursor. wp_step.
    cbv zeta in Hend, Hnl. destruct (decide ((px p / 8 + 1) * 8 = 80)) as [H8|H8].
    - rewrite (proj2 (Z.leb_le 80 _)) by lia. apply (Hnl _ p); try done; cbn [fb cy inited]; apply Hd.
    - rewrite (proj2 (Z.leb_gt 80 _)) by div_lia. wp_step. apply Hend. apply draws_cursor; [done|div_lia]. }
  destruct (Z.eqb_spec c 7) as [->|]; [wp_step; by apply Hend|].
  wp_step. apply (wp_put v p); [done|]. intros v' H1 H2 H3 H4 H5 H6. wp_step. unfold set_cursor. wp_step.
  destruct (decide (px p = 79)) as [H79|H79].
  - rewrite (proj2 (Z.leb_le 80 (cx v + 1))) by lia. apply (Hnl _ (page_put (wrap8 c) p)); cbn [fb cx cy inited]; try done; by rewrite Hy.
  - rewrite (proj2 (Z.leb_gt 80 (cx v + 1))) by lia. wp_step. apply Hend. split; cbn [fb cx cy inited page_put rows top px py]; try done; lia.
Qed.

(** The screen.  Whatever text is written, control characters included, the
    screen shows the last 25 rows of the page of text written so far, with the
    hardware cursor at the position where the next character goes, and no cell
    outside of the frame buffer is touched. *)
Theorem vga_puts_correct v p l : shows v p → wp (vga_puts l) (λ _ v', shows v' (page_text l p)) v.
Proof.
  revert v p. induction l as [|c l IH]; intros v p H; cbn [vga_puts page_text]; [by wp_step|].
  wp_step. eapply vga_putc_shows; [done|]. intros v' Hv'. by apply IH.
Qed.

(** The first character finds the cursor that the hardware has: if it is on the
    screen, the screen is a page from then on; if it is below, a character is
    written outside of the frame buffer. *)
Theorem vga_first_char v c : inited v = false → length (fb v) = 25%nat → Forall (λ r : row, length r = 80%nat) (fb v) → 0 ≤ cp v < 2 ^ 16 →
  (cp v < 2000 → wp (vga_putc c) (λ _ v', shows v' (page_char c (mk_page (fb v) 0 (cp v mod 80) (cp v / 80)))) v) ∧
  (2000 ≤ cp v → c ∉ [7; 8; 9; 10; 12; 13] → vga_putc c v = Err BadAccess).
Proof.
  intros Hi Hl Hc Hcp.
  assert (Ecp : Z.lor (Z.shiftl (Z.shiftr (cp v) 8) 8) (Z.land (cp v) 0xff) = cp v).
  { apply Z.bits_inj'. intros n Hn. rewrite Z.lor_spec, Z.shiftl_spec by done. change 0xff with (Z.ones 8). rewrite Z.land_ones by lia. destruct (decide (n < 8)).
    - rewrite (Z.testbit_neg_r _ (n - 8)) by lia. by rewrite Z.mod_pow2_bits_low.
    - rewrite Z.shiftr_spec by lia. rewrite Z.mod_pow2_bits_high by lia. rewrite orb_false_r. f_equal. lia. }
  set (v1 := mk_vga (fb v) (cp v mod 80) (cp v / 80) (cp v) true).
  assert (E : vga_putc c v = vga_putc c v1).
  { assert (Hb : ∀ (k : unit → M vga unit) w, init w = Ok (tt, v1) → (init ≫= k) w = k tt v1) by (intros k w Hw; unfold mbind, M_bind; by rewrite Hw).
    unfold vga_putc. rewrite !Hb; [done|done|]. unfold init, find_cursor, mbind, M_bind, gets, when, modify, mret, M_ret. rewrite Hi. cbn [negb]. by rewrite Ecp. }
  split.
  - intros H. unfold wp. rewrite E. apply (vga_putc_shows v1 (mk_page (fb v) 0 (cp v mod 80) (cp v / 80))); [|done].
    split; unfold v1; cbn [rows top fb cx cy cp inited px py]; try done; try (split; [done|]); div_lia.
  - intros H Hn. rewrite E. unfold vga_putc.
    rewrite (proj2 (Z.eqb_neq c 10)), (proj2 (Z.eqb_neq c 12)), (proj2 (Z.eqb_neq c 8)), (proj2 (Z.eqb_neq c 13)), (proj2 (Z.eqb_neq c 9)), (proj2 (Z.eqb_neq c 7)) by set_solver.
    assert (Hs : ∀ d, set_cell (cy v1) (cx v1) d v1 = Err BadAccess).
    { intros d. unfold set_cell, v1. cbn [fb cx cy]. rewrite lookup_ge_None_2; [done|]. assert (25 ≤ cp v / 80) by div_lia. lia. }
    unfold mbind, M_bind, gets, init, mbind, M_bind, gets. change (negb (inited v1)) with false. unfold when, mret, M_ret. by rewrite Hs.
Qed.

(** ** Examples *)

Definition example_screen : vga := mk_vga (replicate 25 blank) 0 24 (80 * 24) true.
Definition example_page : page := mk_page (replicate 25 blank) 0 0 24.

Lemma example_shows : shows example_screen example_page.
Proof. split; cbn; try done; try lia. by repeat constructor. Qed.

Lemma vga_puts_correct_witness : wp (vga_puts [104; 105; 10]) (λ _ v', shows v' (page_text [104; 105; 10] example_page)) example_screen.
Proof. exact (vga_puts_correct example_screen example_page [104; 105; 10] example_shows). Defined.

(** After "hi" and a new line on the last row, the text is one row higher. *)
Example scrolled : match vga_puts [104; 105; 10] example_screen with
  | Ok (_, v) => take 2 <$> fb v !! 23%nat = Some [(104, 7); (105, 7)] ∧ fb v !! 24%nat = Some blank ∧ cp v = 80 * 24
  | Err _ => False end.
Proof. vm_compute. done. Qed.
