(* ===== verification/Rtc.v ===== *)
(** * The real-time clock ([devices/rtc.c])

    The clock is a parameter: the byte that the [n]th read of a register
    returns.  The time in seconds is compared with the calendar from 1970 to
    2069, in which every fourth year is a leap year. *)
From S2P Require Import Prelude.

Definition RTC_REG_SEC : Z := 0.
Definition RTC_REG_MIN : Z := 2.
Definition RTC_REG_HOUR : Z := 4.
Definition RTC_REG_MDAY : Z := 7.
Definition RTC_REG_MON : Z := 8.
Definition RTC_REG_YEAR : Z := 9.

Definition bcd_to_bin (x : Z) : Z := Z.land x 0x0f + Z.shiftr x 4 * 10.

Definition days_per_month : list Z := [31; 28; 31; 30; 31; 30; 31; 31; 30; 31; 30; 31].

(** The days of the months from [i] on, [n] of them; an index outside of the
    table is an access outside of the array. *)
Fixpoint add_months (n : nat) (i time : Z) : result Z :=
  match n with
  | O => Ok time
  | S n =>
      match days_per_month !! Z.to_nat (i - 1) with
      | Some d => add_months n (i + 1) (wrap32 (time + d * 24 * 60 * 60))
      | None => Err BadAccess
      end
  end.

(** The part of [rtc_get_time] after the loop; [time_t] is 32 bits wide. *)
Definition seconds_of (sec min hour mday mon year : Z) : result Z :=
  let year := if year <? 70 then year + 100 else year in
  let year := year - 70 in
  let time := wrap32 ((year * 365 + Z.quot (year - 1) 4) * 24 * 60 * 60) in
  match add_months (Z.to_nat mon) 1 time with
  | Err f => Err f
  | Ok time =>
      let time := if (2 <? mon) && (Z.rem year 4 =? 0) then wrap32 (time + 24 * 60 * 60) else time in
      let time := wrap32 (time + (mday - 1) * 24 * 60 * 60) in
      let time := wrap32 (time + hour * 60 * 60) in
      let time := wrap32 (time + min * 60) in
      Ok (wrap32 (time + sec))
  end.

Section clock.
Context (cmos : Z → Z → Z).

(** Reads are numbered from [n] on; the loop makes at most [fuel] rounds. *)
Definition cmos_read (n index : Z) : Z := cmos n index.
Fixpoint read_loop (fuel : nat) (n : Z) : result (Z * Z * Z * Z * Z * Z) :=
  match fuel with
  | O => Err OutOfFuel
  | S fuel =>
      let sec := bcd_to_bin (cmos_read n RTC_REG_SEC) in
      let min := bcd_to_bin (cmos_read (n + 1) RTC_REG_MIN) in
      let hour := bcd_to_bin (cmos_read (n + 2) RTC_REG_HOUR) in
      let mday := bcd_to_bin (cmos_read (n + 3) RTC_REG_MDAY) in
      let mon := bcd_to_bin (cmos_read (n + 4) RTC_REG_MON) in
      let year := bcd_to_bin (cmos_read (n + 5) RTC_REG_YEAR) in
      if sec =? bcd_to_bin (cmos_read (n + 6) RTC_REG_SEC) then Ok (sec, min, hour, mday, mon, year) else read_loop fuel (n + 7)
  end.

Definition rtc_get_time (fuel : nat) (n : Z) : result Z :=
  match read_loop fuel n with
  | Err f => Err f
  | Ok (sec, min, hour, mday, mon, year) => seconds_of sec min hour mday mon year
  end.
End clock.

(** ** The calendar *)

Record date := mk_date { d_year : Z; d_mon : Z; d_mday : Z; d_hour : Z; d_min : Z; d_sec : Z }.

Definition leap (year : Z) : bool := year mod 4 =? 0.
Definition month_days (year mon : Z) : Z := default 0 (days_per_month !! Z.to_nat (mon - 1)) + if leap year && (mon =? 2) then 1 else 0.
Definition year_days (year : Z) : Z := if leap year then 366 else 365.

Definition valid_date (d : date) : Prop :=
  1970 ≤ d_year d < 2070 ∧ 1 ≤ d_mon d ≤ 12 ∧ 1 ≤ d_mday d ≤ month_days (d_year d) (d_mon d) ∧ 0 ≤ d_hour d < 24 ∧ 0 ≤ d_min d < 60 ∧ 0 ≤ d_sec d < 60.

Fixpoint sum_days (f : Z → Z) (n : nat) (k : Z) : Z := match n with O => 0 | S n => f k + sum_days f n (k + 1) end.

(** Days since January 1, 1970, and seconds. *)
Definition epoch_days (d : date) : Z :=
  sum_days year_days (Z.to_nat (d_year d - 1970)) 1970 + sum_days (month_days (d_year d)) (Z.to_nat (d_mon d - 1)) 1 + (d_mday d - 1).
Definition epoch_seconds (d : date) : Z := ((epoch_days d * 24 + d_hour d) * 60 + d_min d) * 60 + d_sec d.

(** The days by which the clock is wrong: the days of the current month are
    counted as well, leap days are counted from a wrong year on, and February
    29 is added in the second year after a leap year. *)
Definition error_days (d : date) : Z :=
  let y := d_year d - 1970 in
  default 0 (days_per_month !! Z.to_nat (d_mon d - 1)) + (Z.quot (y - 1) 4 - (y + 1) / 4)
  + (if (2 <? d_mon d) && (y mod 4 =? 0) then 1 else 0) - (if (2 <? d_mon d) && leap (d_year d) then 1 else 0).

Lemma year_days_sum n : sum_days year_days n 1970 = 365 * Z.of_nat n + (Z.of_nat n + 1) / 4.
Proof.
  assert (H : ∀ k, 1970 ≤ k → sum_days year_days n k = 365 * Z.of_nat n + ((k - 1970 + Z.of_nat n + 1) / 4 - (k - 1970 + 1) / 4)).
  { induction n as [|n IH]; intros k Hk; cbn [sum_days]; [rewrite Z.add_0_r; lia|]. rewrite IH by lia. unfold year_days, leap.
    destruct (Z.eqb_spec (k mod 4) 0); div_lia. }
  rewrite H by lia. replace (1970 - 1970 + Z.of_nat n + 1) with (Z.of_nat n + 1) by lia. change ((1970 - 1970 + 1) / 4) with 0. lia.
Qed.

(** The days before a month, without and with the leap day. *)
Definition before_month (mon : Z) : Z := sum_days (λ m, default 0 (days_per_month !! Z.to_nat (m - 1))) (Z.to_nat (mon - 1)) 1.

Lemma month_cases (P : Z → Prop) mon : 1 ≤ mon ≤ 12 → P 1 → P 2 → P 3 → P 4 → P 5 → P 6 → P 7 → P 8 → P 9 → P 10 → P 11 → P 12 → P mon.
Proof.
  intros H. assert (mon = 1 ∨ mon = 2 ∨ mon = 3 ∨ mon = 4 ∨ mon = 5 ∨ mon = 6 ∨ mon = 7 ∨ mon = 8 ∨ mon = 9 ∨ mon = 10 ∨ mon = 11 ∨ mon = 12) as Hm by lia.
  intros. repeat (destruct Hm as [-> | Hm]; [done|]). by rewrite Hm.
Qed.

Lemma months_sum year mon : 1 ≤ mon ≤ 12 →
  sum_days (month_days year) (Z.to_nat (mon - 1)) 1 = before_month mon + if (2 <? mon) && leap year then 1 else 0.
Proof.
  intros H. unfold month_days. pattern mon. apply month_cases; [done|..]; cbn -[Z.add]; destruct (leap year); reflexivity.
Qed.

Lemma add_months_sum n i time : 1 ≤ i → i + Z.of_nat n ≤ 13 →
  add_months n i (wrap32 time) = Ok (wrap32 (time + sum_days (λ m, default 0 (days_per_month !! Z.to_nat (m - 1))) n i * 86400)).
Proof.
  revert i time. induction n as [|n IH]; intros i time Hi Hn; cbn [add_months sum_days]; [by rewrite Z.add_0_r|].
  destruct (lookup_lt_is_Some_2 days_per_month (Z.to_nat (i - 1))) as [d Hd]; [cbn; lia|]. rewrite Hd. cbn [default from_option id].
  replace (wrap32 (wrap32 time + d * 24 * 60 * 60)) with (wrap32 (time + d * 86400)) by (unfold wrap32; rewrite Z.add_mod_idemp_l by lia; f_equal; lia).
  rewrite IH by lia. do 2 f_equal. lia.
Qed.

Lemma before_month_succ mon : 1 ≤ mon ≤ 12 →
  sum_days (λ m, default 0 (days_per_month !! Z.to_nat (m - 1))) (Z.to_nat mon) 1 = before_month mon + default 0 (days_per_month !! Z.to_nat (mon - 1)).
Proof. intros H. pattern mon. apply month_cases; [done|..]; reflexivity. Qed.

Lemma wrap32_add a b : wrap32 (wrap32 a + b) = wrap32 (a + b).
Proof. unfold wrap32. by rewrite Z.add_mod_idemp_l by lia. Qed.

(** The two digits of the year, as the clock keeps them. *)
Definition clock_year (d : date) : Z := d_year d mod 100.

(** The time of the clock for any date from 1970 to 2069 is wrong by
    [error_days] days: it is never right, since the days of the current month
    are always added as well. *)
Theorem seconds_of_wrong d : valid_date d →
  seconds_of (d_sec d) (d_min d) (d_hour d) (d_mday d) (d_mon d) (clock_year d) = Ok (wrap32 (epoch_seconds d + error_days d * 86400)) ∧ 26 ≤ error_days d ≤ 32.
Proof.
  intros (Hy & Hm & Hd & Hh & Hmi & Hs). set (y := d_year d - 1970).
  assert (Ey : (if clock_year d <? 70 then clock_year d + 100 else clock_year d) - 70 = y).
  { unfold clock_year, y. clear -Hy. destruct (Z.ltb_spec (d_year d mod 100) 70); div_lia. }
  unfold seconds_of. rewrite Ey. rewrite add_months_sum by lia. rewrite before_month_succ by done.
  assert (Er : Z.rem y 4 = y mod 4) by (apply Z.rem_mod_nonneg; lia). rewrite Er. split.
  - f_equal. unfold epoch_seconds, epoch_days, error_days. fold y. rewrite year_days_sum, months_sum by done. rewrite Z2Nat.id by lia.
    set (D := default 0 _). set (B := before_month _). set (q := Z.quot (y - 1) 4). set (q' := (y + 1) / 4).
    destruct ((2 <? d_mon d) && (y mod 4 =? 0)), ((2 <? d_mon d) && leap (d_year d)); repeat (rewrite <-?Z.add_assoc; rewrite wrap32_add); f_equal; lia.
  - unfold error_days. fold y.
    assert (HD : 28 ≤ default 0 (days_per_month !! Z.to_nat (d_mon d - 1)) ≤ 31) by (pattern (d_mon d); apply month_cases; [done|..]; split; by apply Z.leb_le).
    assert (Hq : -1 ≤ Z.quot (y - 1) 4 - (y + 1) / 4 ≤ 0) by (div_lia).
    destruct ((2 <? d_mon d) && (y mod 4 =? 0)), ((2 <? d_mon d) && leap (d_year d)); lia.
Qed.

(** A byte of the clock in binary-coded decimal. *)
Theorem bcd_roundtrip n : 0 ≤ n < 100 → bcd_to_bin (n / 10 * 16 + n mod 10) = n.
Proof.
  intros H. unfold bcd_to_bin. change 0x0f with (Z.ones 4). rewrite Z.land_ones, Z.shiftr_div_pow2 by lia. div_lia.
Qed.

(** The loop ends in the first round whose seconds do not change, with values
    that were all read in that round. *)
Theorem read_loop_stable cmos k fuel n : (k < fuel)%nat →
  (∀ i, (i < k)%nat → bcd_to_bin (cmos (n + 7 * Z.of_nat i) RTC_REG_SEC) ≠ bcd_to_bin (cmos (n + 7 * Z.of_nat i + 6) RTC_REG_SEC)) →
  bcd_to_bin (cmos (n + 7 * Z.of_nat k) RTC_REG_SEC) = bcd_to_bin (cmos (n + 7 * Z.of_nat k + 6) RTC_REG_SEC) →
  let m := n + 7 * Z.of_nat k in
  read_loop cmos fuel n = Ok (bcd_to_bin (cmos m RTC_REG_SEC), bcd_to_bin (cmos (m + 1) RTC_REG_MIN), bcd_to_bin (cmos (m + 2) RTC_REG_HOUR),
    bcd_to_bin (cmos (m + 3) RTC_REG_MDAY), bcd_to_bin (cmos (m + 4) RTC_REG_MON), bcd_to_bin (cmos (m + 5) RTC_REG_YEAR)).
Proof.
  cbv zeta. revert k n. induction fuel as [|fuel IH]; intros k n Hk Hne He; [lia|]. cbn [read_loop]. unfold cmos_read. destruct k as [|k].
  - replace (n + 7 * Z.of_nat 0) with n in * by lia. by rewrite (proj2 (Z.eqb_eq _ _)).
  - pose proof (Hne O ltac:(lia)) as H0. replace (n + 7 * Z.of_nat 0) with n in H0 by lia. rewrite (proj2 (Z.eqb_neq _ _)) by done.
    replace (n + 7 * Z.of_nat (S k)) with (n + 7 + 7 * Z.of_nat k) in * by lia. apply IH; [lia| |done].
    intros i Hi. specialize (Hne (S i) ltac:(lia)). by replace (n + 7 * Z.of_nat (S i)) with (n + 7 + 7 * Z.of_nat i) in Hne by lia.
Qed.

(** ** Examples *)

(** Midnight of January 1, 1970 is given as February 1. *)
Example clock_epoch : seconds_of 0 0 0 1 1 70 = Ok (31 * 86400).
Proof. reflexivity. Qed.
