(* ===== verification/Random.v ===== *)
(** * Random numbers ([lib/random.c])

    The generator keeps the state of the RC4 cipher: a permutation of the bytes
    and two indices.  It is compared with RC4 on functions from bytes to bytes.
    A random number [unsigned long] has 4 bytes. *)
From S2P Require Import Prelude Bytes.

Record rng := mk_rng { s : list Z; s_i : Z; s_j : Z; inited : bool }.

Definition get_s (i : Z) : M rng Z := λ r, match s r !! Z.to_nat i with Some x => Ok (x, r) | None => Err BadAccess end.
Definition set_s (i x : Z) : M rng unit := λ r,
  match s r !! Z.to_nat i with Some _ => Ok (tt, mk_rng (<[Z.to_nat i := x]> (s r)) (s_i r) (s_j r) (inited r)) | None => Err BadAccess end.
Definition set_indices (i j : Z) : M rng unit := modify (λ r, mk_rng (s r) i j (inited r)).

(** [swap_byte(s + a, s + b)] *)
Definition swap_byte (a b : Z) : M rng unit := t ← get_s a; x ← get_s b; set_s a x ;; set_s b t.

(** The second loop of [random_init] from index [i] on. *)
Fixpoint schedule_loop (n : nat) (i j : Z) (seedp : list Z) : M rng unit :=
  match n with
  | O => mret tt
  | S n =>
      x ← get_s i;
      let j := wrap8 (j + x + default 0 (seedp !! Z.to_nat (i mod 4))) in
      swap_byte i j ;; schedule_loop n (i + 1) j seedp
  end.

Definition random_init (seed : Z) : M rng unit :=
  for_loop 256 0 (λ i, set_s i i) ;;
  schedule_loop 256 0 0 (le32 seed) ;;
  modify (λ r, mk_rng (s r) 0 0 true).

Definition random_byte : M rng Z :=
  i ← gets s_i; let i := wrap8 (i + 1) in
  x ← get_s i; j ← gets s_j; let j := wrap8 (j + x) in
  set_indices i j ;;
  swap_byte i j ;;
  x ← get_s i; y ← get_s j;
  get_s (wrap8 (x + y)).

Fixpoint random_loop (n : nat) : M rng (list Z) :=
  match n with O => mret [] | S n => b ← random_byte; l ← random_loop n; mret (b :: l) end.

(** The bytes that are written to the buffer. *)
Definition random_bytes (size : Z) : M rng (list Z) :=
  i ← gets inited;
  when (negb i) (random_init 0) ;;
  random_loop (Z.to_nat size).

Definition random_ulong : M rng Z := l ← random_bytes 4; mret (of_le32 l).

(** ** RC4 *)

Module RC4.
Record state := mk_state { perm : Z → Z; i : Z; j : Z }.

Definition swap (f : Z → Z) (a b x : Z) : Z := if decide (x = a) then f b else if decide (x = b) then f a else f x.

(** Key scheduling: the permutation after the steps from [i] on. *)
Fixpoint schedule (n : nat) (key : Z → Z) (f : Z → Z) (i j : Z) : Z → Z :=
  match n with
  | O => f
  | S n => let j := (j + f i + key (i mod 4)) mod 256 in schedule n key (swap f i j) (i + 1) j
  end.
Definition start (key : Z → Z) : state := mk_state (schedule 256 key (λ x, x) 0 0) 0 0.

Definition next (st : state) : Z * state :=
  let i := (i st + 1) mod 256 in
  let j := (j st + perm st i) mod 256 in
  let f := swap (perm st) i j in
  (f ((f i + f j) mod 256), mk_state f i j).

Fixpoint stream (n : nat) (st : state) : list Z :=
  match n with O => [] | S n => let r := next st in r.1 :: stream n r.2 end.
Fixpoint after (n : nat) (st : state) : state := match n with O => st | S n => after n (next st).2 end.
End RC4.

(** The array holds the function [f] on bytes, which maps bytes to bytes. *)
Definition holds (l : list Z) (f : Z → Z) : Prop := length l = 256%nat ∧ ∀ x, is_byte x → l !! Z.to_nat x = Some (f x) ∧ is_byte (f x).
Record refines (r : rng) (st : RC4.state) : Prop := {
  rf_perm : holds (s r) (RC4.perm st);
  rf_i : s_i r = RC4.i st;
  rf_j : s_j r = RC4.j st;
  rf_bytes : is_byte (RC4.i st) ∧ is_byte (RC4.j st);
  rf_inited : inited r = true
}.

Lemma byte_mod x : is_byte (x mod 256).
Proof. unfold is_byte. apply Z.mod_pos_bound. lia. Qed.

Lemma wp_get_s r f x (Q : Z → rng → Prop) : holds (s r) f → is_byte x → Q (f x) r → wp (get_s x) Q r.
Proof. intros [_ H] Hx HQ. unfold wp, get_s. by destruct (H x Hx) as [-> _]. Qed.

Lemma wp_set_s r f x y (Q : unit → rng → Prop) : holds (s r) f → is_byte x → Q tt (mk_rng (<[Z.to_nat x := y]> (s r)) (s_i r) (s_j r) (inited r)) → wp (set_s x y) Q r.
Proof. intros [_ H] Hx HQ. unfold wp, set_s. by destruct (H x Hx) as [-> _]. Qed.

Lemma holds_set l f x y : holds l f → is_byte x → is_byte y → holds (<[Z.to_nat x := y]> l) (λ z, if decide (z = x) then y else f z).
Proof.
  intros [Hl H] Hx Hy. split; [by rewrite length_insert|]. intros z Hz. case_decide as E.
  - subst. rewrite list_lookup_insert_eq by (unfold is_byte in *; lia). done.
  - rewrite list_lookup_insert_ne by (unfold is_byte in *; lia). by apply H.
Qed.

Lemma holds_ext l f g : (∀ x, is_byte x → f x = g x) → holds l f → holds l g.
Proof. intros E [Hl H]. split; [done|]. intros x Hx. rewrite <-E by done. by apply H. Qed.

Lemma wp_swap_byte r f a b (Q : unit → rng → Prop) : holds (s r) f → is_byte a → is_byte b →
  (∀ l, holds l (RC4.swap f a b) → Q tt (mk_rng l (s_i r) (s_j r) (inited r))) → wp (swap_byte a b) Q r.
Proof.
  intros Hf Ha Hb HQ. unfold swap_byte. wp_step. eapply wp_get_s; [done..|]. wp_step. eapply wp_get_s; [done..|].
  assert (Hfa : is_byte (f a)) by (by apply Hf). assert (Hfb : is_byte (f b)) by (by apply Hf).
  wp_step. eapply wp_set_s; [done..|]. pose proof (holds_set _ _ a (f b) Hf Ha Hfb) as Hf1. eapply wp_set_s; [exact Hf1|done|]. cbn [s s_i s_j inited].
  pose proof (holds_set _ _ b (f a) Hf1 Hb Hfa) as Hf2. apply HQ. eapply holds_ext; [|exact Hf2]. intros x Hx. unfold RC4.swap. repeat case_decide; congruence.
Qed.

Definition key_of (seed x : Z) : Z := default 0 (le32 seed !! Z.to_nat x).

Lemma wp_schedule_loop n seed r f i j (Q : unit → rng → Prop) : holds (s r) f → 0 ≤ i → i + Z.of_nat n ≤ 256 →
  (∀ l, holds l (RC4.schedule n (key_of seed) f i j) → Q tt (mk_rng l (s_i r) (s_j r) (inited r))) → wp (schedule_loop n i j (le32 seed)) Q r.
Proof.
  revert r f i j. induction n as [|n IH]; intros r f i j Hf Hi Hn HQ; cbn [schedule_loop RC4.schedule] in *.
  { wp_step. specialize (HQ (s r) Hf). by destruct r. }
  assert (Hb : is_byte i) by (unfold is_byte; lia). wp_step. eapply wp_get_s; [done..|]. wp_step.
  eapply (wp_swap_byte _ f); [done|done|apply byte_mod|]. intros l Hl. eapply IH; [exact Hl|lia|lia|]. cbn [s s_i s_j inited]. intros l' Hl'. by apply HQ.
Qed.

Lemma random_init_ok seed r (Q : unit → rng → Prop) : length (s r) = 256%nat → (∀ r', refines r' (RC4.start (key_of seed)) → Q tt r') → wp (random_init seed) Q r.
Proof.
  intros Hl HQ. unfold random_init. wp_step.
  eapply wp_mono; [apply (wp_for_loop (λ k r', length (s r') = 256%nat ∧ ∀ x, 0 ≤ x < k → s r' !! Z.to_nat x = Some x))|].
  - split; [done|]. lia.
  - intros k r' Hk [H1 H2]. destruct (lookup_lt_is_Some_2 (s r') (Z.to_nat k)) as [y Hy]; [lia|]. unfold wp, set_s. rewrite Hy. cbn [s].
    split; [by rewrite length_insert|]. intros x Hx. destruct (decide (x = k)) as [->|]; [by rewrite list_lookup_insert_eq by lia|]. rewrite list_lookup_insert_ne by lia. apply H2. lia.
  - intros [] r1 [H1 H2]. cbv beta. wp_step. eapply (wp_schedule_loop _ _ _ (λ x, x)); [|lia|lia|].
    + split; [done|]. intros x Hx. split; [|done]. apply H2. unfold is_byte in Hx. lia.
    + intros l Hl'. wp_step. apply HQ. split; [exact Hl'|reflexivity|reflexivity|by split|reflexivity].
Qed.

Lemma random_byte_ok r st (Q : Z → rng → Prop) : refines r st → (∀ r', refines r' (RC4.next st).2 → is_byte (RC4.next st).1 → Q (RC4.next st).1 r') → wp random_byte Q r.
Proof.
  intros [Hp Hi Hj [Bi Bj] Hin] HQ. unfold random_byte. wp_step. wp_step. rewrite Hi. unfold wrap8. wp_step. eapply (wp_get_s _ (RC4.perm st)); [done|apply byte_mod|].
  wp_step. wp_step. rewrite Hj. set (i := (RC4.i st + 1) mod 256) in *. set (j := (RC4.j st + RC4.perm st i) mod 256).
  assert (Hbi : is_byte i) by apply byte_mod. assert (Hbj : is_byte j) by apply byte_mod. wp_step. unfold set_indices. wp_step. wp_step.
  eapply (wp_swap_byte _ (RC4.perm st)); [done..|]. cbn [s s_i s_j inited]. intros l Hl. set (f := RC4.swap (RC4.perm st) i j) in *.
  wp_step. eapply wp_get_s; [exact Hl|done|]. wp_step. eapply wp_get_s; [exact Hl|done|]. eapply wp_get_s; [exact Hl|apply byte_mod|].
  apply (HQ (mk_rng l i j (inited r))); [by split|]. apply Hl. apply byte_mod.
Qed.

Lemma random_loop_ok n r st (Q : list Z → rng → Prop) : refines r st → (∀ r', refines r' (RC4.after n st) → bytes (RC4.stream n st) → Q (RC4.stream n st) r') → wp (random_loop n) Q r.
Proof.
  revert r st Q. induction n as [|n IH]; intros r st Q Hr HQ; cbn [random_loop RC4.stream RC4.after] in *; [wp_step; apply HQ; [done|constructor]|].
  wp_step. eapply random_byte_ok; [done|]. intros r' Hr' Hb. wp_step. eapply IH; [done|]. intros r'' Hr'' Hbs. wp_step. apply HQ; [done|]. by constructor.
Qed.

(** The generator is RC4.  After [random_init] with a seed, the bytes of
    one or more calls of [random_bytes] are the key stream of RC4 for the four
    bytes of the seed, in order, and no access is outside of the state; without
    [random_init] the first call seeds the generator with zero. *)
Theorem random_bytes_rc4 n r : 0 ≤ n →
  (∀ seed, length (s r) = 256%nat → wp (random_init seed) (λ _ r', refines r' (RC4.start (key_of seed))) r) ∧
  (∀ st, refines r st → wp (random_bytes n) (λ buf r', buf = RC4.stream (Z.to_nat n) st ∧ len buf = n ∧ bytes buf ∧ refines r' (RC4.after (Z.to_nat n) st)) r) ∧
  (length (s r) = 256%nat → inited r = false →
     wp (random_bytes n) (λ buf r', buf = RC4.stream (Z.to_nat n) (RC4.start (key_of 0)) ∧ refines r' (RC4.after (Z.to_nat n) (RC4.start (key_of 0)))) r).
Proof.
  intros Hn. assert (Hlen : ∀ k st, length (RC4.stream k st) = k) by (intros k; induction k as [|k IH]; intros st; cbn; [done|by rewrite IH]). split_and!.
  - intros seed Hl. by apply random_init_ok.
  - intros st Hr. unfold random_bytes. wp_step. wp_step. rewrite (rf_inited _ _ Hr). wp_step. cbn [negb when]. wp_step.
    eapply random_loop_ok; [done|]. intros r' Hr' Hb. split; [done|]. rewrite Hlen. split; [lia|]. done.
  - intros Hl Hi. unfold random_bytes. wp_step. wp_step. rewrite Hi. wp_step. cbn [negb when]. apply random_init_ok; [done|]. intros r1 Hr1.
    eapply random_loop_ok; [done|]. done.
Qed.

(** Calls one after the other continue the stream. *)
Lemma stream_append n m st : RC4.stream (n + m) st = RC4.stream n st ++ RC4.stream m (RC4.after n st).
Proof. revert st. induction n as [|n IH]; intros st; [done|]. cbn. by rewrite IH. Qed.

(** ** Examples *)

Definition example_rng : rng := mk_rng (replicate 256 0) 0 0 false.

(** The published key stream for the key "Wiki". *)
Example rc4_wiki :
  match (random_init 0x696b6957 ;; random_bytes 5) example_rng with Ok (l, _) => l = [0x60; 0x44; 0xdb; 0x6d; 0x41] | Err _ => False end.
Proof. vm_compute. reflexivity. Qed.

Lemma random_bytes_rc4_witness : wp (random_bytes 3) (λ buf r', buf = RC4.stream 3 (RC4.start (key_of 0)) ∧ refines r' (RC4.after 3 (RC4.start (key_of 0)))) example_rng.
Proof. apply (random_bytes_rc4 3 example_rng); [lia|reflexivity|reflexivity]. Defined.
