(* ===== verification/FixedPoint.v ===== *)
(** * Fixed-point numbers ([threads/fixed-point.h])

    Numbers with 16 fractional bits in an [int].  A number is its internal
    value; [num] / 2^16 is what it stands for.  Machine arithmetic wraps. *)
From S2P Require Import Prelude.

Definition FIX_F : Z := Z.shiftl 1 16.
Definition FIX_MAX_INT : Z := Z.shiftl 1 16 - 1.
Definition FIX_MIN_INT : Z := - FIX_MAX_INT.

Record fixed_point_t := mk_fix { f : Z }.

Definition fix_int (n : Z) : result fixed_point_t :=
  if negb ((FIX_MIN_INT <=? n) && (n <=? FIX_MAX_INT)) then Err AssertFailed else Ok (mk_fix (int32 (n * FIX_F))).
Definition fix_frac (n d : Z) : result fixed_point_t :=
  if d =? 0 then Err AssertFailed else
  if (n =? - 2 ^ 31) && (d =? -1) then Err DivideError else
  if negb ((FIX_MIN_INT <=? Z.quot n d) && (Z.quot n d <=? FIX_MAX_INT)) then Err AssertFailed
  else Ok (mk_fix (int32 (Z.quot (int64 (n * FIX_F)) d))).
Definition fix_round (x : fixed_point_t) : Z := Z.quot (int32 (f x + Z.quot FIX_F 2)) FIX_F.
Definition fix_trunc (x : fixed_point_t) : Z := Z.quot (f x) FIX_F.
Definition fix_add (x y : fixed_point_t) : fixed_point_t := mk_fix (int32 (f x + f y)).
Definition fix_sub (x y : fixed_point_t) : fixed_point_t := mk_fix (int32 (f x - f y)).
Definition fix_mul (x y : fixed_point_t) : fixed_point_t := mk_fix (int32 (Z.quot (int64 (f x * f y)) FIX_F)).
Definition fix_scale (x : fixed_point_t) (n : Z) : result fixed_point_t :=
  if negb (0 <=? n) then Err AssertFailed else Ok (mk_fix (int32 (f x * n))).
Definition fix_div (x y : fixed_point_t) : result fixed_point_t :=
  if f y =? 0 then Err DivideError else Ok (mk_fix (int32 (Z.quot (int64 (f x * FIX_F)) (f y)))).
Definition fix_unscale (x : fixed_point_t) (n : Z) : result fixed_point_t :=
  if negb (0 <? n) then Err AssertFailed else Ok (mk_fix (Z.quot (f x) n)).
Definition fix_inv (x : fixed_point_t) : result fixed_point_t := one ← fix_int 1; fix_div one x.
Definition fix_compare (x y : fixed_point_t) : Z := if f x <? f y then -1 else if f y <? f x then 1 else 0.

(** ** Properties *)

Lemma FIX_F_eq : FIX_F = 65536.
Proof. reflexivity. Qed.

Definition fits_int (z : Z) : Prop := - 2 ^ 31 ≤ z < 2 ^ 31.
Definition fix_wf (x : fixed_point_t) : Prop := fits_int (f x).

(** Truncated division is within one of the quotient, towards zero. *)
Lemma quot_near n d : d ≠ 0 → Z.abs (Z.quot n d * d - n) < Z.abs d ∧ Z.abs (Z.quot n d * d) ≤ Z.abs n.
Proof.
  intros H. pose proof (Z.quot_rem' n d). pose proof (Z.rem_bound_abs n d H). split; [lia|].
  rewrite Z.abs_mul, <-Z.quot_abs by done. rewrite Z.mul_comm. apply Z.mul_quot_le; lia.
Qed.

(** ** Conversion *)

(** Integers below 2^15 are converted exactly and come back from both
    roundings. *)
Theorem fix_int_roundtrip n : - 2 ^ 15 ≤ n < 2 ^ 15 →
  ∃ x, fix_int n = Ok x ∧ fix_wf x ∧ f x = n * FIX_F ∧ fix_trunc x = n ∧ (0 ≤ n < 2 ^ 15 - 1 → fix_round x = n).
Proof.
  intros H. unfold fix_int. replace (_ && _) with true by (symmetry; apply andb_true_iff; rewrite !Z.leb_le; change FIX_MIN_INT with (-65535); change FIX_MAX_INT with 65535; lia). cbn [negb].
  rewrite int32_small by (unfold fits_int; rewrite FIX_F_eq; lia). eexists. split; [reflexivity|]. unfold fix_wf, fits_int, fix_trunc, fix_round. cbn [f].
  rewrite FIX_F_eq. split; [lia|]. split; [done|]. split; [by rewrite Z.quot_mul|]. intros Hn. change (Z.quot 65536 2) with 32768. rewrite int32_small by (unfold fits_int; lia). rewrite Z.quot_div_nonneg by lia.
  symmetry. apply (Z.div_unique_pos _ _ _ 32768); lia.
Qed.

(** Integers from 2^15 to [FIX_MAX_INT] pass the assertion and change sign. *)
Theorem fix_int_overflow n : 2 ^ 15 ≤ n ≤ FIX_MAX_INT → fix_int n = Ok (mk_fix ((n - 2 ^ 16) * FIX_F)).
Proof.
  change FIX_MAX_INT with 65535. intros H. unfold fix_int. replace (_ && _) with true by (symmetry; apply andb_true_iff; rewrite !Z.leb_le; change FIX_MIN_INT with (-65535); change FIX_MAX_INT with 65535; lia). cbn [negb].
  do 2 f_equal. rewrite FIX_F_eq. unfold signed. rewrite (Z.mod_small (n * 65536)) by lia. rewrite (proj2 (Z.ltb_ge _ _)) by lia. lia.
Qed.

(** A fraction is converted with an error of less than one unit in the last
    place, rounded towards zero. *)
Theorem fix_frac_correct n d : fits_int n → d ≠ 0 → Z.abs (n * FIX_F) < 2 ^ 31 * Z.abs d → Z.abs n ≤ FIX_MAX_INT * Z.abs d →
  ∃ x, fix_frac n d = Ok x ∧ fix_wf x ∧ Z.abs (f x * d - n * FIX_F) < Z.abs d ∧ Z.abs (f x * d) ≤ Z.abs (n * FIX_F).
Proof.
  unfold fits_int. rewrite FIX_F_eq. intros Hn Hd Hq Hm. unfold fix_frac. rewrite (proj2 (Z.eqb_neq d 0)) by done. destruct (quot_near n d Hd) as [_ Q0].
  destruct (_ && _) eqn:E; [apply andb_true_iff in E as [E1 E2]; rewrite !Z.eqb_eq in *; change FIX_MAX_INT with 65535 in *; lia|clear E].
  replace (_ && _) with true by (symmetry; apply andb_true_iff; rewrite !Z.leb_le; change FIX_MIN_INT with (-65535); change FIX_MAX_INT with 65535 in *; nia). cbn [negb].
  rewrite int64_small by (rewrite FIX_F_eq; lia). rewrite FIX_F_eq. destruct (quot_near (n * 65536) d Hd) as [Q1 Q2]. set (q := Z.quot (n * 65536) d) in *.
  assert (Hf : fits_int q) by (unfold fits_int; nia). rewrite int32_small by done. exists (mk_fix q). split; [reflexivity|]. split; [exact Hf|]. split; [exact Q1|exact Q2].
Qed.

(** ** Rounding *)

(** [fix_trunc] rounds towards zero. *)
Theorem fix_trunc_towards_zero x : Z.abs (fix_trunc x * FIX_F - f x) < FIX_F ∧ Z.abs (fix_trunc x * FIX_F) ≤ Z.abs (f x).
Proof. unfold fix_trunc. exact (quot_near (f x) FIX_F ltac:(rewrite FIX_F_eq; lia)). Qed.

(** [fix_round] rounds numbers that are not below minus one half to the nearest
    integer. *)
Theorem fix_round_nearest x : - (FIX_F / 2) ≤ f x → f x + FIX_F / 2 < 2 ^ 31 → 2 * Z.abs (fix_round x * FIX_F - f x) ≤ FIX_F.
Proof.
  unfold fix_round. rewrite FIX_F_eq. change (65536 / 2) with 32768. change (Z.quot 65536 2) with 32768. intros H1 H2. rewrite int32_small by (unfold fits_int; lia). rewrite Z.quot_div_nonneg by lia. div_lia.
Qed.

(** Below that the sum is truncated towards zero and not down: a negative
    integer [- n] is rounded to [1 - n]. *)
Theorem fix_round_negative n : 0 < n ≤ 2 ^ 15 → fix_round (mk_fix (- n * FIX_F)) = 1 - n.
Proof.
  intros H. unfold fix_round. cbn [f]. rewrite FIX_F_eq. change (Z.quot 65536 2) with 32768. rewrite int32_small by (unfold fits_int; lia).
  replace (- n * 65536 + 32768) with (- (n * 65536 - 32768)) by lia. rewrite Z.quot_opp_l, Z.quot_div_nonneg by lia.
  assert ((n * 65536 - 32768) / 65536 = n - 1) as -> by (symmetry; apply (Z.div_unique_pos _ _ _ 32768); lia). lia.
Qed.

(** ** Arithmetic *)

(** Sums, differences and multiples are exact when they can be represented; a
    quotient by an integer is rounded towards zero. *)
Theorem fix_linear_exact x y n : (fits_int (f x + f y) → f (fix_add x y) = f x + f y) ∧ (fits_int (f x - f y) → f (fix_sub x y) = f x - f y) ∧
  (0 ≤ n → fits_int (f x * n) → fix_scale x n = Ok (mk_fix (f x * n))) ∧ (n < 0 → fix_scale x n = Err AssertFailed) ∧
  if 0 <? n then ∃ z, fix_unscale x n = Ok z ∧ Z.abs (f z * n - f x) < n ∧ Z.abs (f z * n) ≤ Z.abs (f x) else fix_unscale x n = Err AssertFailed.
Proof.
  unfold fix_scale, fix_unscale. split_and!; [intros; by apply int32_small..| | |].
  - intros Hn H. rewrite (proj2 (Z.leb_le 0 n)) by lia. cbn. by rewrite int32_small.
  - intros Hn. by rewrite (proj2 (Z.leb_gt 0 n)).
  - destruct (Z.ltb_spec 0 n); [|done]. cbn. eexists. split; [done|]. cbn. pose proof (quot_near (f x) n). lia.
Qed.

(** A product is within one unit in the last place, and the intermediate value
    of 64 bits never overflows. *)
Theorem fix_mul_correct x y : fix_wf x → fix_wf y → fits_int (Z.quot (f x * f y) FIX_F) → Z.abs (f (fix_mul x y) * FIX_F - f x * f y) < FIX_F.
Proof.
  unfold fix_wf, fits_int. intros Hx Hy Hp. unfold fix_mul. cbn [f]. rewrite int64_small by nia. rewrite int32_small by done.
  exact (proj1 (quot_near (f x * f y) FIX_F ltac:(rewrite FIX_F_eq; lia))).
Qed.

(** So is a quotient; a division by zero traps, in [fix_inv] too. *)
Theorem fix_div_correct x y : fix_wf x → fix_wf y →
  if f y =? 0 then fix_div x y = Err DivideError ∧ fix_inv y = Err DivideError
  else fits_int (Z.quot (f x * FIX_F) (f y)) → ∃ z, fix_div x y = Ok z ∧ fix_wf z ∧ Z.abs (f z * f y - f x * FIX_F) < Z.abs (f y).
Proof.
  unfold fix_wf. intros Hx Hy. unfold fix_inv. change (fix_int 1) with (Ok (mk_fix FIX_F)). unfold fix_div. cbn [mbind result_bind f]. destruct (Z.eqb_spec (f y) 0) as [E|E]; [done|]. intros Hp.
  rewrite int64_small by (unfold fits_int in *; rewrite FIX_F_eq; lia). rewrite int32_small by done. eexists. split; [reflexivity|]. split; [done|]. exact (proj1 (quot_near (f x * FIX_F) (f y) E)).
Qed.

(** The comparison is that of the numbers. *)
Theorem fix_compare_correct x y : fix_compare x y = match f x ?= f y with Lt => -1 | Eq => 0 | Gt => 1 end.
Proof. unfold fix_compare, Z.ltb. rewrite (Z.compare_antisym (f x) (f y)). by destruct (f x ?= f y). Qed.
