(* ===== verification/Timer.v ===== *)
(** * Timer frequencies and delays ([devices/timer.c], [devices/pit.c], [devices/speaker.c])

    The arithmetic of the timer: the count that is loaded into the timer chip,
    the calibration of the delay loop and the lengths of delays.  How many
    rounds of the delay loop fit in one tick is a parameter.  Ticks and the
    sleeping of threads are part of [Thread]. *)
From S2P Require Import Prelude.

Definition TIMER_FREQ : Z := 100.
Definition PIT_HZ : Z := 1193180.
Definition PIT_PORT_CONTROL : Z := 0x43.
Definition PIT_PORT_COUNTER (channel : Z) : Z := 0x40 + channel.

(** ** The timer chip *)

Definition pit_count (frequency : Z) : Z :=
  if frequency <? 19 then 0
  else if PIT_HZ <? frequency then 2
  else ((PIT_HZ + Z.quot frequency 2) / frequency) mod 2 ^ 16.

(** The writes to ports. *)
Definition pit_configure_channel (channel mode frequency : Z) : result (list (Z * Z)) :=
  if negb ((channel =? 0) || (channel =? 2)) then Err AssertFailed else
  if negb ((mode =? 2) || (mode =? 3)) then Err AssertFailed else
  let count := pit_count frequency in
  Ok [(PIT_PORT_CONTROL, wrap8 (Z.lor (Z.lor (Z.shiftl channel 6) 0x30) (Z.shiftl mode 1)));
      (PIT_PORT_COUNTER channel, wrap8 count);
      (PIT_PORT_COUNTER channel, wrap8 (Z.shiftr count 8))].

(** ** The speaker *)

Definition SPEAKER_PORT_GATE : Z := 0x61.
Definition SPEAKER_GATE_ENABLE : Z := 3.

(** [gate] is what the gate port reads. *)
Definition speaker_off (gate : Z) : list (Z * Z) := [(SPEAKER_PORT_GATE, wrap8 (Z.land gate (Z.lnot SPEAKER_GATE_ENABLE)))].
Definition speaker_on (gate frequency : Z) : result (list (Z * Z)) :=
  if (20 <=? frequency) && (frequency <=? 20000) then
    w ← pit_configure_channel 2 3 frequency; Ok (w ++ [(SPEAKER_PORT_GATE, wrap8 (Z.lor gate SPEAKER_GATE_ENABLE))])
  else Ok (speaker_off gate).

(** ** Calibration *)

Section calibrate.
(** Does the delay loop take more than a tick for a number of rounds? *)
Context (too_many_loops : Z → bool).

(** The shifts of an unsigned number: 32 rounds are enough. *)
Fixpoint double_loop (fuel : nat) (loops_per_tick : Z) : result Z :=
  match fuel with
  | O => Err OutOfFuel
  | S fuel =>
      if too_many_loops (wrap32 (Z.shiftl loops_per_tick 1)) then Ok loops_per_tick
      else let l := wrap32 (Z.shiftl loops_per_tick 1) in if l =? 0 then Err AssertFailed else double_loop fuel l
  end.

Fixpoint refine_loop (fuel : nat) (loops_per_tick test_bit stop : Z) : result Z :=
  if test_bit =? stop then Ok loops_per_tick else
  match fuel with
  | O => Err OutOfFuel
  | S fuel =>
      let l := Z.lor loops_per_tick test_bit in
      refine_loop fuel (if too_many_loops l then loops_per_tick else l) (Z.shiftr test_bit 1) stop
  end.

Definition timer_calibrate : result Z :=
  high_bit ← double_loop 32 (Z.shiftl 1 10);
  refine_loop 32 high_bit (Z.shiftr high_bit 1) (Z.shiftr high_bit 10).
End calibrate.

(** ** Delays *)

(** [while (loops-- > 0)]: the rounds of the delay loop. *)
Fixpoint busy_wait_from (fuel : nat) (rounds loops : Z) : result Z :=
  match fuel with
  | O => Err OutOfFuel
  | S fuel => if 0 <? loops then busy_wait_from fuel (rounds + 1) (loops - 1) else Ok rounds
  end.
Definition busy_wait (loops : Z) : result Z := busy_wait_from (S (Z.to_nat loops)) 0 loops.

(** [num] is an [int64_t], [denom] an [int32_t]. *)
Definition delay_loops (loops_per_tick num denom : Z) : Z :=
  Z.quot (int64 (Z.quot (int64 (loops_per_tick * num)) 1000 * TIMER_FREQ)) (Z.quot denom 1000).
Definition real_time_delay (loops_per_tick num denom : Z) : result Z :=
  if negb (Z.rem denom 1000 =? 0) then Err AssertFailed else busy_wait (delay_loops loops_per_tick num denom).

(** What a sleep turns into: a call of [timer_sleep], or rounds of the loop. *)
Inductive waits := Sleeps (ticks : Z) | Spins (loops : Z).
Definition real_time_sleep (intr_on : bool) (loops_per_tick num denom : Z) : result waits :=
  let ticks := Z.quot (int64 (num * TIMER_FREQ)) denom in
  if negb intr_on then Err AssertFailed else
  if 0 <? ticks then Ok (Sleeps ticks) else n ← real_time_delay loops_per_tick num denom; Ok (Spins n).

Definition timer_msleep (on : bool) (l ms : Z) := real_time_sleep on l ms 1000.
Definition timer_usleep (on : bool) (l us : Z) := real_time_sleep on l us (1000 * 1000).
Definition timer_nsleep (on : bool) (l ns : Z) := real_time_sleep on l ns (1000 * 1000 * 1000).
Definition timer_mdelay (l ms : Z) := real_time_delay l ms 1000.
Definition timer_udelay (l us : Z) := real_time_delay l us (1000 * 1000).
Definition timer_ndelay (l ns : Z) := real_time_delay l ns (1000 * 1000 * 1000).

(** ** Properties *)

(** The count is the period in cycles of the chip, rounded to the nearest
    integer, and the chip gets its two bytes; zero stands for the largest
    count. *)
Lemma pit_count_near f : 19 ≤ f ≤ PIT_HZ → 2 * Z.abs (pit_count f * f - PIT_HZ) ≤ f ∧ 0 < pit_count f < 2 ^ 16 ∧
  wrap8 (pit_count f) + 2 ^ 8 * wrap8 (Z.shiftr (pit_count f) 8) = pit_count f.
Proof.
  unfold pit_count, PIT_HZ. intros H. rewrite (proj2 (Z.ltb_ge f 19)), (proj2 (Z.ltb_ge 1193180 f)) by lia. rewrite Z.quot_div_nonneg by lia.
  assert (E : ((1193180 + f / 2) / f) mod 2 ^ 16 = (1193180 + f / 2) / f).
  { apply Z.mod_small. split; [apply Z.div_pos; div_lia|]. apply Z.div_lt_upper_bound; [lia|]. change (2 ^ 16) with 65536. div_lia. }
  rewrite E. pose proof (Z.div_mod (1193180 + f / 2) f ltac:(lia)) as Hd. pose proof (Z.mod_pos_bound (1193180 + f / 2) f ltac:(lia)) as Hm.
  set (q := (1193180 + f / 2) / f) in *. assert (Hq : 0 < q < 65536).
  { split; [apply Z.div_str_pos; div_lia|]. apply Z.div_lt_upper_bound; [lia|]. div_lia. }
  split; [div_lia|]. split; [lia|]. unfold wrap8. rewrite Z.shiftr_div_pow2 by lia. change (2 ^ 8) with 256. div_lia.
Qed.

(** In mode 2 a count of 1 is not allowed, but it is what a frequency close to
    that of the chip gives. *)
Theorem pit_count_illegal f : 2 * PIT_HZ < 3 * f → f ≤ PIT_HZ → f mod 2 = 0 → pit_count f = 1.
Proof.
  unfold pit_count, PIT_HZ. intros H1 H2 H3. rewrite (proj2 (Z.ltb_ge f 19)), (proj2 (Z.ltb_ge 1193180 f)) by lia. rewrite Z.quot_div_nonneg by lia.
  replace ((1193180 + f / 2) / f) with 1; [done|]. apply (Z.div_unique_pos _ _ _ (1193180 + f / 2 - f)); div_lia.
Qed.

(** The speaker plays a tone that can be heard: its channel gets a legal count
    for a period that differs from the one asked for by at most half a cycle,
    and the other bits of the gate are kept. *)
Theorem speaker_on_correct gate f : 0 ≤ gate < 2 ^ 8 → 20 ≤ f ≤ 20000 → ∃ c lo hi gate',
  speaker_on gate f = Ok [(PIT_PORT_CONTROL, c); (PIT_PORT_COUNTER 2, lo); (PIT_PORT_COUNTER 2, hi); (SPEAKER_PORT_GATE, gate')] ∧
  c = 0xb6 ∧ 2 ≤ lo + 2 ^ 8 * hi ∧ 2 * Z.abs ((lo + 2 ^ 8 * hi) * f - PIT_HZ) ≤ f ∧
  Z.testbit gate' 0 = true ∧ Z.testbit gate' 1 = true ∧ ∀ i, 2 ≤ i < 8 → Z.testbit gate' i = Z.testbit gate i.
Proof.
  intros Hg Hf. destruct (pit_count_near f) as (H1 & H2 & H3); [unfold PIT_HZ; lia|]. unfold speaker_on. rewrite (proj2 (Z.leb_le 20 f)), (proj2 (Z.leb_le f 20000)) by lia.
  cbn [andb]. unfold pit_configure_channel. cbn -[pit_count wrap8 Z.shiftr Z.lor Z.testbit]. do 4 eexists. split; [reflexivity|]. split; [done|]. rewrite H3.
  split; [unfold PIT_HZ in *; nia|]. split; [done|]. unfold wrap8. split_and!; [by rewrite Z.mod_pow2_bits_low, Z.lor_spec, orb_true_r by lia..|].
  intros i Hi. rewrite Z.mod_pow2_bits_low, Z.lor_spec by lia. unfold SPEAKER_GATE_ENABLE. rewrite (Z.bits_above_log2 3 i), orb_false_r; [done|lia|]. change (Z.log2 3) with 1. lia.
Qed.

Lemma lor_low k n m : 0 ≤ k → 0 ≤ n → 0 ≤ m < 2 ^ k → Z.lor (n * 2 ^ k) m = n * 2 ^ k + m.
Proof.
  intros Hk Hn Hm. assert (E : Z.land (n * 2 ^ k) m = 0).
  { apply Z.bits_inj'. intros i Hi. rewrite Z.land_spec, Z.bits_0. destruct (decide (i < k)); [by rewrite Z.mul_pow2_bits_low|].
    destruct (decide (m = 0)) as [->|]; [by rewrite Z.bits_0, andb_false_r|]. rewrite (Z.bits_above_log2 m i); [by rewrite andb_false_r|lia|].
    apply Z.log2_lt_pow2; [lia|]. apply Z.lt_le_trans with (2 ^ k); [lia|]. apply Z.pow_le_mono_r; lia. }
  by rewrite <-Z.lxor_lor, Z.add_nocarry_lxor.
Qed.

(** The delay loop takes more than a tick for more than [T] rounds. *)
Section calibrated.
Context (T : Z) (too_many : Z → bool) (Htoo : ∀ n, 0 ≤ n → too_many n = (T <? n)).

Lemma double_loop_ok fuel k : 0 ≤ k → 2 ^ k ≤ T < 2 ^ 31 → (31 - k < Z.of_nat fuel) →
  ∃ j, k ≤ j < 31 ∧ double_loop too_many fuel (2 ^ k) = Ok (2 ^ j) ∧ 2 ^ j ≤ T < 2 ^ (j + 1).
Proof.
  revert k. induction fuel as [|fuel IH]; intros k Hk HT Hf.
  { assert (k < 31) by (apply (Z.pow_lt_mono_r_iff 2); lia). lia. }
  assert (Hk31 : k < 31) by (apply (Z.pow_lt_mono_r_iff 2); lia). assert (E : wrap32 (Z.shiftl (2 ^ k) 1) = 2 ^ (k + 1)).
  { rewrite Z.shiftl_mul_pow2, Z.pow_add_r by lia. apply wrap32_small. split; [lia|]. assert (2 ^ (k + 1) ≤ 2 ^ 31) by (apply Z.pow_le_mono_r; lia). rewrite Z.pow_add_r in * by lia. lia. }
  cbn [double_loop]. rewrite E, Htoo by lia. destruct (Z.ltb_spec T (2 ^ (k + 1))).
  - exists k. split_and!; [lia|lia|done|lia|lia].
  - rewrite (proj2 (Z.eqb_neq _ 0)) by (pose proof (Z.pow_pos_nonneg 2 (k + 1)); lia). destruct (IH (k + 1)) as (j & Hj & Ej & HTj); [lia|lia|lia|]. exists j. split; [lia|]. split; [done|lia].
Qed.

(** The bits from [i] down to [s + 1] are refined. *)
Lemma refine_loop_ok fuel i s n : 0 ≤ s ≤ i → i - s < Z.of_nat fuel + 1 → 0 ≤ n → n * 2 ^ (i + 1) ≤ T < (n + 1) * 2 ^ (i + 1) →
  ∃ L, refine_loop too_many fuel (n * 2 ^ (i + 1)) (2 ^ i) (2 ^ s) = Ok L ∧ n * 2 ^ (i + 1) ≤ L ∧ L ≤ T < L + 2 ^ (s + 1).
Proof.
  revert i n. induction fuel as [|fuel IH]; intros i n Hs Hf Hn HT; cbn [refine_loop].
  - assert (i = s) as -> by lia. rewrite Z.eqb_refl. exists (n * 2 ^ (s + 1)). split; [done|]. split; lia.
  - destruct (Z.eqb_spec (2 ^ i) (2 ^ s)) as [E|E].
    + apply Z.pow_inj_r in E as ->; [|lia..]. exists (n * 2 ^ (s + 1)). split; [done|]. split; lia.
    + assert (Hi : s < i) by (destruct (decide (i = s)) as [->|]; [done|lia]). rewrite lor_low by (rewrite ?Z.pow_add_r by lia; pose proof (Z.pow_pos_nonneg 2 i); lia).
      rewrite Z.shiftr_div_pow2 by lia. replace (2 ^ i / 2 ^ 1) with (2 ^ (i - 1)) by (rewrite Z.pow_sub_r by lia; done).
      assert (E2 : 2 ^ (i + 1) = 2 * 2 ^ i) by (rewrite Z.pow_add_r by lia; lia). pose proof (Z.pow_pos_nonneg 2 i ltac:(lia) ltac:(lia)) as Hp. rewrite Htoo by (rewrite E2; lia).
      destruct (Z.ltb_spec T (n * 2 ^ (i + 1) + 2 ^ i)).
      * destruct (IH (i - 1) (2 * n)) as (L & EL & HL); [lia|lia|lia|replace (i - 1 + 1) with i by lia; lia|]. replace (i - 1 + 1) with i in EL by lia. replace (n * 2 ^ (i + 1)) with (2 * n * 2 ^ i) by lia. exists L. split; [done|]. replace (i - 1 + 1) with i in HL by lia. lia.
      * destruct (IH (i - 1) (2 * n + 1)) as (L & EL & HL); [lia|lia|lia|replace (i - 1 + 1) with i by lia; lia|]. replace (i - 1 + 1) with i in EL by lia. replace (n * 2 ^ (i + 1) + 2 ^ i) with ((2 * n + 1) * 2 ^ i) by lia. exists L. split; [done|]. replace (i - 1 + 1) with i in HL by lia. lia.
Qed.
End calibrated.

(** If between 2^10 and 2^31 rounds of the delay loop fit in a tick, the
    calibration ends and finds their number, rounded down by less than one
    part in 512. *)
Theorem timer_calibrate_correct T too_many : (∀ n, 0 ≤ n → too_many n = (T <? n)) → 2 ^ 10 ≤ T < 2 ^ 31 →
  ∃ L, timer_calibrate too_many = Ok L ∧ L ≤ T ∧ 512 * (T - L) < L.
Proof.
  intros Htoo HT. unfold timer_calibrate. change (Z.shiftl 1 10) with (2 ^ 10). destruct (double_loop_ok T too_many Htoo 32 10) as (j & Hj & -> & HTj); [lia|lia|lia|]. cbn [mbind result_bind].
  rewrite !Z.shiftr_div_pow2 by lia. replace (2 ^ j / 2 ^ 1) with (2 ^ (j - 1)) by (rewrite Z.pow_sub_r by lia; done). replace (2 ^ j / 2 ^ 10) with (2 ^ (j - 10)) by (rewrite Z.pow_sub_r by lia; done).
  destruct (refine_loop_ok T too_many Htoo 32 (j - 1) (j - 10) 1) as (L & EL & HL1 & HL); [lia|lia|lia| |].
  { replace (j - 1 + 1) with j by lia. rewrite Z.pow_add_r in HTj by lia. lia. }
  replace (j - 1 + 1) with j in EL, HL1 by lia. rewrite Z.mul_1_l in EL. exists L. split; [done|]. split; [lia|].
  assert (Ep : 2 ^ j = 512 * 2 ^ (j - 10 + 1)) by (replace j with (9 + (j - 10 + 1)) at 1 by lia; rewrite Z.pow_add_r by lia; done).
  lia.
Qed.

(** ** The lengths of delays *)

Lemma busy_wait_from_eq fuel r n : n < Z.of_nat fuel → 0 < Z.of_nat fuel → busy_wait_from fuel r n = Ok (r + Z.max 0 n).
Proof.
  revert r n. induction fuel as [|fuel IH]; intros r n Hn Hf; [lia|]. cbn [busy_wait_from].
  destruct (Z.ltb_spec 0 n); [rewrite IH by lia|]; f_equal; lia.
Qed.
Lemma busy_wait_eq n : busy_wait n = Ok (Z.max 0 n).
Proof. unfold busy_wait. rewrite busy_wait_from_eq by lia. f_equal; lia. Qed.

(** A busy delay of [num] / [denom] seconds takes as many rounds as fit in that
    time, less than the rounds of one tick of a thousandth part of [denom] and
    one round too few, as long as the product with the rounds per tick is a
    64-bit number. *)
Theorem real_time_delay_correct L num d : 0 < d → 0 ≤ L * num < 2 ^ 63 →
  ∃ n, real_time_delay L num (1000 * d) = Ok n ∧ 0 ≤ n ∧
    n * (1000 * d) ≤ L * num * TIMER_FREQ < (n + 1) * (1000 * d) + 1000 * TIMER_FREQ.
Proof.
  intros Hd HL. unfold real_time_delay, delay_loops, TIMER_FREQ. rewrite (Z.mul_comm 1000 d), Z.rem_mul, Z.eqb_refl by lia. cbn [negb]. rewrite busy_wait_eq.
  rewrite (int64_small (L * num)) by lia. rewrite Z.quot_mul, (Z.quot_div_nonneg (L * num)) by lia. set (q := L * num / 1000). assert (Hq : 1000 * q ≤ L * num < 1000 * q + 1000) by (subst q; div_lia).
  rewrite int64_small by lia. rewrite Z.quot_div_nonneg by lia. set (n := q * 100 / d). assert (Hn : d * n ≤ q * 100 < d * n + d).
  { subst n. pose proof (Z.div_mod (q * 100) d ltac:(lia)). pose proof (Z.mod_pos_bound (q * 100) d ltac:(lia)). lia. }
  assert (0 ≤ n) by (apply Z.div_pos; lia). exists n. split; [f_equal; lia|]. split; [done|]. nia.
Qed.

(** A sleep of at least a tick sleeps for the number of whole ticks, a shorter
    one spins; with interrupts off it fails. *)
Theorem real_time_sleep_correct L num d : 0 < d → 0 ≤ num → num * TIMER_FREQ < 2 ^ 63 → 0 ≤ L * num < 2 ^ 63 →
  real_time_sleep false L num (1000 * d) = Err AssertFailed ∧
  if 1000 * d <=? num * TIMER_FREQ
  then ∃ t, real_time_sleep true L num (1000 * d) = Ok (Sleeps t) ∧ 0 < t ∧ t * (1000 * d) ≤ num * TIMER_FREQ < (t + 1) * (1000 * d)
  else ∃ n, real_time_sleep true L num (1000 * d) = Ok (Spins n) ∧ real_time_delay L num (1000 * d) = Ok n.
Proof.
  intros Hd Hn Ho HL. split; [done|]. unfold real_time_sleep. rewrite int64_small by (unfold TIMER_FREQ in *; lia). rewrite Z.quot_div_nonneg by (unfold TIMER_FREQ in *; lia). cbn [negb].
  pose proof (Z.div_mod (num * TIMER_FREQ) (1000 * d) ltac:(lia)) as E1. pose proof (Z.mod_pos_bound (num * TIMER_FREQ) (1000 * d) ltac:(lia)) as E2.
  set (t := num * TIMER_FREQ / (1000 * d)) in *. destruct (Z.leb_spec (1000 * d) (num * TIMER_FREQ)) as [Hle|Hlt].
  - assert (0 < t) by nia. rewrite (proj2 (Z.ltb_lt 0 t)) by lia. exists t. split; [done|]. lia.
  - assert (t = 0) as -> by (apply Z.div_small; unfold TIMER_FREQ in *; lia). cbn [Z.ltb Z.compare].
    destruct (real_time_delay L num (1000 * d)) as [n|f] eqn:E; [by exists n|]. unfold real_time_delay in E. rewrite (Z.mul_comm 1000 d), Z.rem_mul, Z.eqb_refl, busy_wait_eq in E by lia. done.
Qed.

(** The product is formed before it is scaled down, so a delay of ten seconds
    in nanoseconds is no delay at all for a fast loop. *)
Example timer_ndelay_overflow : timer_ndelay (2 ^ 30) (10 * 10 ^ 9) = Ok 0.
Proof. vm_compute. reflexivity. Qed.
