(* ===== verification/Init.v ===== *)
(** * Start-up of the kernel ([threads/init.c])

    The command line that the loader leaves in memory, the options and actions
    on it, and the choice of the block devices.  [memory] is the bytes from
    [LOADER_ARGS] on.  What an action does is a parameter.  The kernel is built
    with USERPROG and FILESYS, without VM. *)
From Stdlib Require Import Strings.String.
From S2P Require Import Prelude Bytes FsState CString CStdlib Stdio Blockdev Random.
#[local] Open Scope Z_scope.

Abbreviation str := (list Z).

Definition LOADER_ARGS_LEN : Z := 128.

(** ** The command line *)

Definition strnlen (s : str) (n : Z) : Z := default n (find_from (λ i, bool_decide (s !! Z.to_nat i = Some 0)) (Z.to_nat n) 0).

(** [argv] has room for [LOADER_ARGS_LEN / 2 + 1] pointers. *)
Definition argv_size : Z := LOADER_ARGS_LEN / 2 + 1.

Fixpoint read_loop (n : nat) (i p : Z) (memory : str) : result (list Z) :=
  match n with
  | O => if i <? argv_size then Ok [] else Err BadAccess
  | S n =>
      if LOADER_ARGS_LEN <=? p then Err Panicked else
      if negb (i <? argv_size) then Err BadAccess else
      argv ← read_loop n (i + 1) (p + strnlen (drop (Z.to_nat p) memory) (LOADER_ARGS_LEN - p) + 1) memory;
      Ok (p :: argv)
  end.
(** The offsets of the arguments; [argc] is an int. *)
Definition read_command_line (argc : Z) (memory : str) : result (list Z) :=
  if argc <? 0 then Err BadAccess else read_loop (Z.to_nat argc) 0 0 memory.

Fixpoint string_from (l : str) : str := match l with [] => [] | c :: l => if c =? 0 then [] else c :: string_from l end.
(** The string at an offset. *)
Definition string_at (memory : str) (p : Z) : str := string_from (drop (Z.to_nat p) memory).

(** ** Options *)

Inductive shutdown_type := SHUTDOWN_NONE | SHUTDOWN_POWER_OFF | SHUTDOWN_REBOOT.
Record config := mk_config {
  how : shutdown_type;
  format_filesys : bool;
  filesys_bdev_name : option str;
  scratch_bdev_name : option str;
  thread_mlfqs : bool;
  user_page_limit : Z;
  prng : rng
}.

Definition shutdown_configure (t : shutdown_type) : M config unit :=
  modify (λ c, mk_config t (format_filesys c) (filesys_bdev_name c) (scratch_bdev_name c) (thread_mlfqs c) (user_page_limit c) (prng c)).
Definition set_format : M config unit :=
  modify (λ c, mk_config (how c) true (filesys_bdev_name c) (scratch_bdev_name c) (thread_mlfqs c) (user_page_limit c) (prng c)).
Definition set_filesys (n : option str) : M config unit :=
  modify (λ c, mk_config (how c) (format_filesys c) n (scratch_bdev_name c) (thread_mlfqs c) (user_page_limit c) (prng c)).
Definition set_scratch (n : option str) : M config unit :=
  modify (λ c, mk_config (how c) (format_filesys c) (filesys_bdev_name c) n (thread_mlfqs c) (user_page_limit c) (prng c)).
Definition set_mlfqs : M config unit :=
  modify (λ c, mk_config (how c) (format_filesys c) (filesys_bdev_name c) (scratch_bdev_name c) true (user_page_limit c) (prng c)).
Definition set_limit (n : Z) : M config unit :=
  modify (λ c, mk_config (how c) (format_filesys c) (filesys_bdev_name c) (scratch_bdev_name c) (thread_mlfqs c) n (prng c)).
Definition seed_random (seed : Z) : M config unit := λ c,
  match random_init seed (prng c) with
  | Ok (_, r) => Ok (tt, mk_config (how c) (format_filesys c) (filesys_bdev_name c) (scratch_bdev_name c) (thread_mlfqs c) (user_page_limit c) r)
  | Err f => Err f
  end.

(** [atoi] of the library on a string, a null pointer if there is none. *)
Definition atoi_text (value : option str) : result Z :=
  match value with
  | None => match atoi NULL ∅ with Ok (v, _) => Ok v | Err f => Err f end
  | Some s => match atoi 1 (map_seqZ 1 (s ++ [0])) with Ok (v, _) => Ok v | Err f => Err f end
  end.
Definition atoi_value (value : option str) : M config Z := λ c, match atoi_text value with Ok v => Ok (v, c) | Err f => Err f end.

(** The name of an option, up to the first equals sign, and its value, the
    rest of the argument if there is any. *)
Fixpoint option_name (arg : str) : str := match arg with [] => [] | c :: arg => if c =? 61 then [] else c :: option_name arg end.
Fixpoint option_rest (arg : str) : str := match arg with [] => [] | c :: arg => if c =? 61 then arg else option_rest arg end.
Definition option_value (arg : str) : option str := match option_rest arg with [] => None | r => Some r end.

(** The effect of one option. *)
Definition apply_option (name : str) (value : option str) : M config unit :=
  if bool_decide (name = text "-q") then shutdown_configure SHUTDOWN_POWER_OFF
  else if bool_decide (name = text "-r") then shutdown_configure SHUTDOWN_REBOOT
  else if bool_decide (name = text "-f") then set_format
  else if bool_decide (name = text "-filesys") then set_filesys value
  else if bool_decide (name = text "-scratch") then set_scratch value
  else if bool_decide (name = text "-rs") then v ← atoi_value value; seed_random (wrap32 v)
  else if bool_decide (name = text "-mlfqs") then set_mlfqs
  else if bool_decide (name = text "-ul") then v ← atoi_value value; set_limit (wrap32 v)
  else PANIC.

Section options.
(** What the clock says. *)
Context (time : Z).

Definition is_option (arg : str) : bool := match arg with c :: _ => c =? 45 | [] => false end.

(** The arguments that are left; nothing if the machine was powered off. *)
Fixpoint parse_options (argv : list str) : M config (option (list str)) :=
  match argv with
  | arg :: rest =>
      if is_option arg then
        if bool_decide (option_name arg = text "-h") then mret None
        else apply_option (option_name arg) (option_value arg) ;; parse_options rest
      else seed_random time ;; mret (Some argv)
  | [] => seed_random time ;; mret (Some argv)
  end.
End options.

(** ** Actions *)

Inductive action := Run (task : str) | Ls | Cat (file : str) | Rm (file : str) | Extract | Append (file : str).

Section actions.
Context {St : Type} (perform : action → M St unit).

(** The table of actions: the name, the number of words, the action. *)
Definition actions : list (str * nat * (list str → action)) :=
  [(text "run", 2%nat, λ argv, Run (default [] (argv !! 1%nat))); (text "ls", 1%nat, λ _, Ls); (text "cat", 2%nat, λ argv, Cat (default [] (argv !! 1%nat)));
   (text "rm", 2%nat, λ argv, Rm (default [] (argv !! 1%nat))); (text "extract", 1%nat, λ _, Extract); (text "append", 2%nat, λ argv, Append (default [] (argv !! 1%nat)))].

Fixpoint find_action (name : str) (l : list (str * nat * (list str → action))) : option (nat * (list str → action)) :=
  match l with [] => None | a :: l => if bool_decide (name = a.1.1) then Some (a.1.2, a.2) else find_action name l end.

Fixpoint actions_loop (fuel : nat) (argv : list str) : M St unit :=
  match fuel, argv with
  | _, [] => mret tt
  | O, _ => throw OutOfFuel
  | S fuel, name :: _ =>
      match find_action name actions with
      | None => PANIC
      | Some (argc, function) =>
          if (length argv <? argc)%nat then PANIC else
          perform (function argv) ;; actions_loop fuel (drop argc argv)
      end
  end.
Definition run_actions (argv : list str) : M St unit := actions_loop (length argv) argv.
End actions.

(** ** Block devices *)

Fixpoint find_type (fuel : nat) (role : block_type) (block : option nat) : M bstate (option nat) :=
  match fuel with
  | O => throw OutOfFuel
  | S fuel =>
      match block with
      | None => mret None
      | Some b =>
          t ← block_type_of b;
          if bool_decide (t = role) then mret (Some b) else n ← block_next b; find_type fuel role n
      end
  end.

Definition locate_block_device (role : block_type) (name : option str) : M bstate unit :=
  block ← (match name with
           | Some n => b ← block_get_by_name n; match b with None => PANIC | Some _ => mret b end
           | None => b ← block_first; n ← gets (λ s, length (all_blocks s)); find_type (S n) role b
           end);
  match block with Some b => block_set_role role (Some b) | None => mret tt end.

Definition locate_block_devices (c : config) : M bstate unit :=
  locate_block_device BLOCK_FILESYS (filesys_bdev_name c) ;;
  locate_block_device BLOCK_SCRATCH (scratch_bdev_name c).

(** ** Properties *)

Definition in_memory (args : list str) : str := concat ((λ a : str, a ++ [0]) <$> args).

Lemma strnlen_eq s r n : Forall (λ c, c ≠ 0) s → len s < n → strnlen (s ++ 0 :: r) n = len s.
Proof.
  intros Hs Hn. unfold strnlen. assert (E : find_from (λ i, bool_decide ((s ++ 0 :: r) !! Z.to_nat i = Some 0)) (Z.to_nat n) 0 = Some (len s)); [|by rewrite E].
  apply find_from_Some. split; [lia|]. split.
  - rewrite Nat2Z.id. apply bool_decide_eq_true. by apply list_lookup_middle.
  - intros m Hm. apply bool_decide_eq_false. rewrite lookup_app_l by lia. intros E. rewrite Forall_forall in Hs. apply (Hs 0); [by eapply list_elem_of_lookup_2|done].
Qed.

Lemma string_from_eq s r : Forall (λ c, c ≠ 0) s → string_from (s ++ 0 :: r) = s.
Proof. intros H. induction H as [|c s Hc _ IH]; cbn [app string_from]; [done|]. by rewrite (proj2 (Z.eqb_neq c 0)), IH. Qed.

(** The arguments that the loader wrote one after the other, each with a null
    byte, are found again. *)
Theorem read_command_line_correct args rest : Forall (Forall (λ c, c ≠ 0)) args → len (in_memory args) ≤ LOADER_ARGS_LEN → len args < argv_size →
  ∃ argv, read_command_line (len args) (in_memory args ++ rest) = Ok argv ∧ string_at (in_memory args ++ rest) <$> argv = args.
Proof.
  intros Hz Hl Hn. unfold read_command_line. rewrite (proj2 (Z.ltb_ge _ _)) by lia. rewrite Nat2Z.id.
  assert (H : ∀ pre i, i + len args < argv_size → len pre + len (in_memory args) ≤ LOADER_ARGS_LEN →
    ∃ argv, read_loop (length args) i (len pre) (pre ++ in_memory args ++ rest) = Ok argv ∧ string_at (pre ++ in_memory args ++ rest) <$> argv = args).
  2:{ apply (H [] 0); cbn [length]; lia. }
  clear Hl Hn. induction Hz as [|a args Ha Hz IH]; intros pre i Hi Hl; cbn [read_loop length].
  { exists []. by rewrite (proj2 (Z.ltb_lt i argv_size)) by (cbn [length] in Hi; lia). }
  unfold in_memory in *. cbn [fmap list_fmap concat length] in *. rewrite !length_app in Hl. cbn [length] in Hl.
  rewrite (proj2 (Z.leb_gt _ _)) by lia. rewrite (proj2 (Z.ltb_lt i argv_size)) by lia. cbn [negb]. rewrite Nat2Z.id, drop_app_length. rewrite <-!app_assoc. cbn [app]. rewrite strnlen_eq by (done || lia).
  destruct (IH (pre ++ a ++ [0]) (i + 1)) as (argv & E1 & E2); [lia|rewrite !length_app; cbn [length]; lia|]. rewrite <-!app_assoc in E1, E2. cbn [app] in E1, E2.
  replace (len (pre ++ a ++ [0])) with (len pre + len a + 1) in E1 by (rewrite !length_app; cbn [length]; lia). rewrite E1. cbn [mbind result_bind]. eexists. split; [done|]. cbn [fmap list_fmap]. f_equal; [|done].
  unfold string_at. rewrite Nat2Z.id, drop_app_length. by apply string_from_eq.
Qed.

(** Empty arguments take one byte each, so that more of them fit in the command
    line than in [argv]. *)
Theorem argv_overflow rest : read_command_line argv_size (in_memory (replicate (Z.to_nat argv_size) []) ++ rest) = Err BadAccess.
Proof. reflexivity. Qed.

(** *** Options *)

Inductive opt := OptQ | OptR | OptF | OptFilesys (bdev : str) | OptScratch (bdev : str) | OptRs (seed : str) | OptMlfqs | OptUl (count : str).

Definition show_opt (o : opt) : str :=
  match o with
  | OptQ => text "-q" | OptR => text "-r" | OptF => text "-f" | OptFilesys n => text "-filesys=" ++ n | OptScratch n => text "-scratch=" ++ n
  | OptRs s => text "-rs=" ++ s | OptMlfqs => text "-mlfqs" | OptUl s => text "-ul=" ++ s
  end.
Definition opt_text (o : opt) : str := match o with OptFilesys n | OptScratch n => n | OptRs s | OptUl s => s | _ => [48] end.
Definition opt_effect (o : opt) : M config unit :=
  match o with
  | OptQ => shutdown_configure SHUTDOWN_POWER_OFF | OptR => shutdown_configure SHUTDOWN_REBOOT | OptF => set_format
  | OptFilesys n => set_filesys (Some n) | OptScratch n => set_scratch (Some n)
  | OptRs s => v ← atoi_value (Some s); seed_random (wrap32 v) | OptMlfqs => set_mlfqs | OptUl s => v ← atoi_value (Some s); set_limit (wrap32 v)
  end.
Fixpoint opt_effects (opts : list opt) : M config unit := match opts with [] => mret tt | o :: opts => opt_effect o ;; opt_effects opts end.

Definition no_option (argv : list str) : Prop := match argv with arg :: _ => is_option arg = false | [] => True end.

Lemma option_parts p n : 61 ∉ p → option_name (p ++ 61 :: n) = p ∧ option_rest (p ++ 61 :: n) = n.
Proof.
  induction p as [|c p IH]; intros Hp; [done|]. apply not_elem_of_cons in Hp as [Hc Hp]. destruct (IH Hp) as [E1 E2]. cbn [app option_name option_rest].
  rewrite (proj2 (Z.eqb_neq c 61)) by done. by rewrite E1, E2.
Qed.

Lemma show_value p n : is_option p = true → 61 ∉ p → n ≠ [] →
  is_option (p ++ 61 :: n) = true ∧ option_name (p ++ 61 :: n) = p ∧ option_value (p ++ 61 :: n) = Some n.
Proof.
  intros H1 H2 Hn. destruct (option_parts p n H2) as [E1 E2]. unfold option_value. rewrite E2. split_and!; [by destruct p|done|by destruct n].
Qed.

Lemma show_opt_parts o : opt_text o ≠ [] →
  is_option (show_opt o) = true ∧ option_name (show_opt o) ≠ text "-h" ∧ apply_option (option_name (show_opt o)) (option_value (show_opt o)) = opt_effect o.
Proof.
  assert (Hv : ∀ (p n : str) o', is_option p = true → bool_decide (61 ∈ p) = false → p ≠ text "-h" → n ≠ [] → show_opt o' = p ++ 61 :: n → apply_option p (Some n) = opt_effect o' →
    is_option (show_opt o') = true ∧ option_name (show_opt o') ≠ text "-h" ∧ apply_option (option_name (show_opt o')) (option_value (show_opt o')) = opt_effect o').
  { intros p n o' H1 H2 H3 Hn -> E. apply bool_decide_eq_false in H2. destruct (show_value p n H1 H2 Hn) as (-> & -> & ->). done. }
  destruct o as [| | |n|n|n| |n]; intros Ho; cbn [opt_text] in Ho.
  1-3, 7: split; [reflexivity|]; split; [discriminate|reflexivity].
  - by apply (Hv (text "-filesys") n).
  - by apply (Hv (text "-scratch") n).
  - by apply (Hv (text "-rs") n).
  - by apply (Hv (text "-ul") n).
Qed.

(** Options take effect in their order, up to the first argument that is none,
    and the generator is seeded with the time. *)
Theorem parse_options_correct time opts argv c : Forall (λ o, opt_text o ≠ []) opts → no_option argv →
  parse_options time ((show_opt <$> opts) ++ argv) c = (opt_effects opts ;; seed_random time ;; mret (Some argv)) c.
Proof.
  intros Ho Hn. revert c. induction Ho as [|o opts Ho _ IH]; intros c.
  - cbn [fmap list_fmap app opt_effects]. destruct argv as [|a rest]; [done|]. cbn [parse_options]. unfold no_option in Hn. rewrite Hn. done.
  - cbn [fmap list_fmap app opt_effects parse_options]. destruct (show_opt_parts o Ho) as (E1 & E2 & E3). rewrite E1, (bool_decide_eq_false_2 _ E2), E3.
    unfold mbind, M_bind. destruct (opt_effect o c) as [[[] c']|f]; [|done]. rewrite IH. done.
Qed.

(** What [-rs] does not do: whatever the options are, the generator is in the
    state that the time gives. *)
Lemma seed_random_ok seed c : length (s (prng c)) = 256%nat → wp (seed_random seed) (λ _ c', refines (prng c') (RC4.start (key_of seed))) c.
Proof.
  intros Hl. pose proof (random_init_ok seed (prng c) (λ _ r', refines r' (RC4.start (key_of seed))) Hl (λ _ H, H)) as H.
  unfold wp, seed_random in *. by destruct (random_init seed (prng c)) as [[[] r]|f].
Qed.

Lemma apply_option_state name value c : length (s (prng c)) = 256%nat →
  match apply_option name value c with Ok (_, c') => length (s (prng c')) = 256%nat | Err _ => True end.
Proof.
  intros Hl. unfold apply_option. repeat case_bool_decide; try exact Hl; try exact I.
  - unfold mbind, M_bind, atoi_value. destruct (atoi_text value) as [v|]; [|exact I]. pose proof (seed_random_ok (wrap32 v) c Hl) as Hw.
    unfold wp in Hw. destruct (seed_random (wrap32 v) c) as [[[] c']|]; [|exact I]. apply Hw.
  - unfold mbind, M_bind, atoi_value. destruct (atoi_text value) as [v|]; [exact Hl|exact I].
Qed.

Theorem seed_option_ignored time argv c rest c' : length (s (prng c)) = 256%nat → parse_options time argv c = Ok (Some rest, c') →
  refines (prng c') (RC4.start (key_of time)).
Proof.
  revert c. induction argv as [|arg argv IH]; intros c Hl H; cbn [parse_options] in H.
  - pose proof (seed_random_ok time c Hl) as Hs. unfold wp, mbind, M_bind in *. destruct (seed_random time c) as [[[] c1]|]; [|done]. by injection H as <- <-.
  - destruct (is_option arg).
    + case_bool_decide; [done|]. pose proof (apply_option_state (option_name arg) (option_value arg) c Hl) as Ha. unfold mbind, M_bind in H.
      destruct (apply_option (option_name arg) (option_value arg) c) as [[[] c1]|]; [|done]. by apply (IH c1).
    + pose proof (seed_random_ok time c Hl) as Hs. unfold wp, mbind, M_bind in *. destruct (seed_random time c) as [[[] c1]|]; [|done]. by injection H as <- <-.
Qed.

(** *** Actions *)

Definition show_action (a : action) : list str :=
  match a with
  | Run t => [text "run"; t] | Ls => [text "ls"] | Cat f => [text "cat"; f] | Rm f => [text "rm"; f] | Extract => [text "extract"] | Append f => [text "append"; f]
  end.
Fixpoint perform_all {St} (perform : action → M St unit) (acts : list action) : M St unit :=
  match acts with [] => mret tt | a :: acts => perform a ;; perform_all perform acts end.

(** Actions are performed in their order; a word that is no action, or an
    action without its argument, stops the kernel after the actions before
    it. *)
Theorem run_actions_correct {St} (perform : action → M St unit) acts rest st :
  (rest = [] ∨ (∃ w ws, rest = w :: ws ∧ find_action w actions = None) ∨ (∃ w argc f, rest = [w] ∧ find_action w actions = Some (argc, f) ∧ (1 < argc)%nat)) →
  run_actions perform (concat (show_action <$> acts) ++ rest) st = (perform_all perform acts ;; if decide (rest = []) then mret tt else PANIC) st.
Proof.
  intros Hr. unfold run_actions. assert (H : ∀ fuel, (length (concat (show_action <$> acts) ++ rest) ≤ fuel)%nat →
    actions_loop perform fuel (concat (show_action <$> acts) ++ rest) st = (perform_all perform acts ;; if decide (rest = []) then mret tt else PANIC) st); [|by apply H].
  revert st. induction acts as [|a acts IH]; intros st fuel Hf; cbn [fmap list_fmap concat app perform_all] in *.
  - destruct Hr as [->|[(w & ws & -> & E)|(w & argc & f & -> & E & Hn)]].
    + by destruct fuel.
    + destruct fuel as [|fuel]; [cbn in Hf; lia|]. cbn [actions_loop]. by rewrite E.
    + destruct fuel as [|fuel]; [cbn in Hf; lia|]. cbn [actions_loop]. rewrite E. cbn [length]. by rewrite (proj2 (Nat.ltb_lt 1 argc)).
  - rewrite <-app_assoc in *. rewrite length_app in Hf. set (tl := concat (show_action <$> acts) ++ rest) in *.
    assert (E : ∀ k, actions_loop perform (S k) (show_action a ++ tl) st = (perform a ;; actions_loop perform k tl) st) by (intros k; by destruct a).
    destruct fuel as [|fuel]; [destruct a; cbn in Hf; lia|]. rewrite E. unfold mbind, M_bind. destruct (perform a st) as [[[] st']|f]; [|done].
    rewrite IH; [done|]. destruct a; cbn in Hf; lia.
Qed.

(** *** Block devices *)

Definition first_of_type (role : block_type) (l : list device) : option nat := fst <$> list_find (λ d, type d = role) l.

Lemma find_type_ok role s b fuel : (length (all_blocks s) - b < fuel)%nat → (b ≤ length (all_blocks s))%nat →
  find_type fuel role (elem_to_block b s) s = Ok ((λ k, (b + k)%nat) <$> first_of_type role (drop b (all_blocks s)), s).
Proof.
  revert b. induction fuel as [|fuel IH]; intros b Hf Hb; [lia|]. cbn [find_type]. unfold elem_to_block. destruct (decide (b < length (all_blocks s))%nat) as [Hlt|Hge].
  - rewrite (bool_decide_eq_true_2 (b < _)%nat) by done. destruct (lookup_lt_is_Some_2 (all_blocks s) b Hlt) as [d Hd]. rewrite (drop_S _ d b Hd). unfold first_of_type. cbn [list_find].
    unfold block_type_of, block_next, get_block, mbind, M_bind, mret, M_ret, gets. rewrite Hd. case_bool_decide as E.
    + rewrite decide_True by done. cbn. by rewrite Nat.add_0_r.
    + rewrite decide_False by done. rewrite Hd. rewrite (IH (S b)) by lia. unfold first_of_type. do 2 f_equal. destruct (list_find _ (drop (S b) (all_blocks s))) as [[k x]|]; [cbn; f_equal; lia|done].
  - rewrite bool_decide_eq_false_2 by done. rewrite drop_ge by lia. done.
Qed.

Lemma find_name_index n l b : find_name n l b = (λ k, (b + k)%nat) <$> (fst <$> list_find (λ d, name d = n) l).
Proof.
  revert b. induction l as [|d l IH]; intros b; cbn [find_name list_find]; [done|]. case_bool_decide as E.
  - rewrite decide_True by done. cbn. by rewrite Nat.add_0_r.
  - rewrite decide_False by congruence. rewrite IH. destruct (list_find _ l) as [[k x]|]; [cbn; f_equal; lia|done].
Qed.

(** The device of a role: the named one, or the first one of its type; the
    role is left alone if there is none of its type, and a name that is not
    there stops the kernel. *)
Theorem locate_block_device_correct role n s : (type_no role < BLOCK_ROLE_CNT)%nat →
  locate_block_device role n s =
  match n with
  | Some n => match fst <$> list_find (λ d, name d = n) (all_blocks s) with Some b => Ok (tt, set_roles (<[type_no role := Some b]> (block_by_role s)) s) | None => Err Panicked end
  | None => match first_of_type role (all_blocks s) with Some b => Ok (tt, set_roles (<[type_no role := Some b]> (block_by_role s)) s) | None => Ok (tt, s) end
  end.
Proof.
  intros Hr. assert (Hs : ∀ b s, block_set_role role (Some b) s = Ok (tt, set_roles (<[type_no role := Some b]> (block_by_role s)) s)).
  { intros b s'. unfold block_set_role, mbind, M_bind, ASSERT. by rewrite bool_decide_eq_true_2. }
  unfold locate_block_device. destruct n as [n|].
  - unfold block_get_by_name, mbind, M_bind, gets. rewrite find_name_index. destruct (list_find _ (all_blocks s)) as [[k x]|]; [|done]. cbn. by rewrite Hs.
  - unfold block_first, mbind, M_bind, gets. rewrite find_type_ok by lia. rewrite drop_0. destruct (first_of_type role (all_blocks s)) as [k|]; [|done]. cbn. by rewrite Hs.
Qed.

(** ** Examples *)

Definition example_config : config := mk_config SHUTDOWN_NONE false None None false (2 ^ 32 - 1) (mk_rng (replicate 256 0) 0 0 false).

Example command_line_example :
  match parse_options 0 [text "-q"; text "-filesys=hda1"; text "-ul=100"; text "run"; text "echo x"] example_config with
  | Ok (Some rest, c) => rest = [text "run"; text "echo x"] ∧ how c = SHUTDOWN_POWER_OFF ∧ filesys_bdev_name c = Some (text "hda1") ∧ user_page_limit c = 100
  | _ => False
  end.
Proof. vm_compute. done. Qed.

(** An option that needs a value and has none. *)
Example missing_value : parse_options 0 [text "-rs"] example_config = Err AssertFailed.
Proof. vm_compute. reflexivity. Qed.
