(* ===== verification/MapReduce.v ===== *)
(** * MapReduce tasks ([hw-map-reduce/lib], [codec], [worker/task_handler.c], [app])

    What a worker does with a task.  A buffer with its length is the list of
    its bytes, [None] being the one of length -1.  The file system is a
    function from paths to contents; a stream open for reading is the bytes
    that are left.  Paths are the values of the two format strings, and
    are taken to differ from the names of the input files and, for different
    arguments, from each other (no job has an input in an output directory of
    its own that is named like an intermediate file).  In the
    worker [malloc] and the opening of a file for writing may fail ([alloc],
    [can_create]); the applications do not check [malloc].  [qsort] is the
    sorting function of the C library.  Messages and [free] are left out. *)
From Stdlib Require Import Strings.String.
From stdpp Require Import sorting.
From S2P Require Import Prelude Bytes Stdio.
#[local] Open Scope Z_scope.

Abbreviation key_value := (list Z * list Z)%type.

(** ** [lib.c] *)

Fixpoint ihash_loop (l : list Z) (hash : Z) : Z :=
  match l with
  | [] => hash
  | c :: l => ihash_loop l (Z.lxor (wrap32 (hash * 0x811C9DC5)) (wrap32 (signed 8 c)))
  end.
Definition ihash (buf : list Z) : Z := Z.land (ihash_loop buf 0) 0x7fffffff.

(** [strncmp] stops at a null byte. *)
Fixpoint strncmp (n : nat) (s1 s2 : list Z) : Z :=
  match n, s1, s2 with
  | S n, c1 :: s1, c2 :: s2 => if negb (c1 =? c2) then c1 - c2 else if c1 =? 0 then 0 else strncmp n s1 s2
  | _, _, _ => 0
  end.

Definition by_key (kv1 kv2 : key_value) : Z :=
  let ret := strncmp (Nat.min (length kv1.1) (length kv2.1)) kv1.1 kv2.1 in
  if ret =? 0 then int32 (len kv1.1 - len kv2.1) else ret.

(** [sized_buffer_to_str]: a string ends at the first null byte. *)
Fixpoint c_string (l : list Z) : list Z := match l with [] => [] | c :: l => if c =? 0 then [] else c :: c_string l end.

Fixpoint strcmp (s1 s2 : list Z) : Z :=
  match s1, s2 with
  | [], [] => 0
  | [], c2 :: _ => - c2
  | c1 :: _, [] => c1
  | c1 :: s1, c2 :: s2 => if c1 =? c2 then strcmp s1 s2 else c1 - c2
  end.

(** ** Files *)

Inductive path :=
  | Input (name : list Z)
  | Tmp (dir : list Z) (map_task reduce_task : Z)
  | Out (dir : list Z) (task : Z).
#[export] Instance path_eq_dec : EqDecision path.
Proof. solve_decision. Defined.

Definition files : Type := path → option (list Z).
Definition write_file (p : path) (c : list Z) (f : files) : files := λ q, if decide (q = p) then Some c else f q.

(** ** [codec.c] *)

Definition le64 (w : Z) : list Z := le32 w ++ le32 (w / 2 ^ 32).
Definition of_le64 (l : list Z) : Z := of_le32 (take 4 l) + 2 ^ 32 * of_le32 (drop 4 l).

Definition ldw_write (out buf : list Z) : list Z := out ++ le64 (len buf) ++ buf.

(** ** [app.h], [rpc.x] *)

Record app := mk_app {
  name : list Z;
  map : key_value → list Z → result (list key_value);
  reduce : list Z → list key_value → list Z → result key_value;
  process_output : list key_value → result (list Z)
}.

Record get_task_reply := mk_reply {
  task : Z;
  file : list Z;
  output_dir : list Z;
  app_name : list Z;
  n_reduce : Z;
  n_map : Z;
  is_reduce : bool;
  args : list Z
}.

(** ** Numbers *)

Definition isspace (c : Z) : bool := (c =? 32) || ((9 <=? c) && (c <=? 13)).
Definition isdigit (c : Z) : bool := (48 <=? c) && (c <=? 57).

Fixpoint skip_space (s : list Z) : list Z :=
  match s with c :: s' => if isspace c then skip_space s' else s | [] => [] end.
Fixpoint take_digits (s : list Z) (v : Z) : Z * list Z :=
  match s with c :: s' => if isdigit c then take_digits s' (10 * v + (c - 48)) else (v, s) | [] => (v, []) end.

(** [strtol] in base 10 on a string: the value and the rest, or nothing where
    no number was found.  A value that is too large becomes the largest one. *)
Definition strtol (s : list Z) : option (Z * list Z) :=
  let s := skip_space s in
  let '(neg, s) := match s with 45 :: s' => (true, s') | 43 :: s' => (false, s') | _ => (false, s) end in
  match s with
  | c :: _ =>
      if isdigit c then
        let '(v, rest) := take_digits s 0 in
        Some (if neg : bool then Z.max (- 2 ^ 63) (- v) else Z.min (2 ^ 63 - 1) v, rest)
      else None
  | [] => None
  end.

Definition atoi (s : list Z) : Z := match strtol s with Some (v, _) => int32 v | None => 0 end.

(** [%d] and [%i]: 10 digits are enough for an int. *)
Fixpoint dec_digits (n : nat) (v : Z) : list Z :=
  match n with
  | O => []
  | S n => (if v <? 10 then [] else dec_digits n (v / 10)) ++ [48 + v mod 10]
  end.
Definition dec (v : Z) : list Z := if v <? 0 then 45 :: dec_digits 10 (- v) else dec_digits 10 v.

(** The int at the start of a buffer. *)
Definition get_int (b : list Z) : result Z := if len b <? 4 then Err BadAccess else Ok (int32 (of_le32 (take 4 b))).

(** ** Word count ([app/wc/wc.c]) *)

Definition isalpha (c : Z) : bool := ((65 <=? c) && (c <=? 90)) || ((97 <=? c) && (c <=? 122)).
Definition tolower (c : Z) : Z := if (65 <=? c) && (c <=? 90) then c + 32 else c.

Fixpoint num_words_loop (l : list Z) (counter num_words : Z) : Z :=
  match l with
  | [] => if 1 <? counter then int32 (num_words + 1) else num_words
  | c :: l =>
      if isalpha c then num_words_loop l (int32 (counter + 1)) num_words
      else num_words_loop l 0 (if 1 <? counter then int32 (num_words + 1) else num_words)
  end.
Definition num_words (buf : list Z) : Z := num_words_loop buf 0 0.

(** The array has room for [n] pairs. *)
Fixpoint wc_map_loop (fuel : nat) (text : list Z) (n : Z) (p1 p2 : Z) (kva : list key_value) : result (list key_value) :=
  match fuel with
  | O => Err OutOfFuel
  | S fuel =>
      if p1 <? len text then
        if (len text <=? p2) || negb (isalpha (default 0 (text !! Z.to_nat p2))) then
          kva ← (if p1 + 1 <? p2 then
                   if len kva <? n then Ok (kva ++ [(tolower <$> slice p1 (p2 - p1) text, le32 1)]) else Err BadAccess
                 else Ok kva);
          wc_map_loop fuel text n (p2 + 1) (p2 + 1) kva
        else wc_map_loop fuel text n p1 (p2 + 1) kva
      else Ok kva
  end.

(** The array that is returned has [n] pairs; one that was not set must not be
    read. *)
Definition wc_map (input : key_value) (aux : list Z) : result (list key_value) :=
  let n := num_words input.2 in
  kva ← wc_map_loop (S (S (length input.2))) input.2 n 0 0 [];
  if len kva =? n then Ok kva else Err BadAccess.

Fixpoint sum_values (kvs : list key_value) (count : Z) : result Z :=
  match kvs with
  | [] => Ok count
  | kv :: kvs => v ← get_int kv.2; sum_values kvs (int32 (count + v))
  end.

Definition wc_reduce (key : list Z) (input : list key_value) (aux : list Z) : result key_value :=
  count ← sum_values input 0; Ok (key, le32 count).

(** A comparison function reads the ints of both values; a value that is too
    short is read as 0 here, and as an error by the printing. *)
Definition value_int (kv : key_value) : Z := int32 (of_le32 (take 4 kv.2)).

Definition wc_compare_fn (kv1 kv2 : key_value) : Z :=
  if value_int kv1 =? value_int kv2 then by_key kv1 kv2 else int32 (value_int kv1 - value_int kv2).

(** [%.*s] prints up to the first null byte. *)
Fixpoint print_values (input : list key_value) : result (list Z) :=
  match input with
  | [] => Ok []
  | kv :: input =>
      v ← get_int kv.2;
      out ← print_values input;
      Ok (dec v ++ [9] ++ c_string kv.1 ++ [10] ++ out)
  end.

(** ** Vertex degrees ([app/vertex_degree/vertex_degree.c]) *)

(** A pair of ints. *)
Definition get_pair (contents : list Z) : option (Z * Z * list Z) :=
  match strtol contents with
  | None => None
  | Some (a, next) => match strtol next with None => None | Some (b, next) => Some (int32 a, int32 b, next) end
  end.

Fixpoint get_pairs (fuel : nat) (contents : list Z) : result (list (Z * Z)) :=
  match fuel with
  | O => Err OutOfFuel
  | S fuel => match get_pair contents with
              | None => Ok []
              | Some (a, b, next) => ps ← get_pairs fuel next; Ok ((a, b) :: ps)
              end
  end.

Definition vertex_degree_map (input : key_value) (aux : list Z) : result (list key_value) :=
  let contents := c_string input.2 in
  ps ← get_pairs (S (length contents)) contents;
  Ok (flat_map (λ p, [(le32 p.1, le32 1); (le32 p.2, le32 1)]) ps).

Definition vertex_degree_reduce (key : list Z) (input : list key_value) (aux : list Z) : result key_value :=
  count ← sum_values input 0; Ok (key, le32 count).

Definition key_int (kv : key_value) : Z := int32 (of_le32 (take 4 kv.1)).

Definition vertex_degree_compare_fn (kv1 kv2 : key_value) : Z := int32 (key_int kv1 - key_int kv2).

Fixpoint print_pairs (input : list key_value) : result (list Z) :=
  match input with
  | [] => Ok []
  | kv :: input =>
      key ← get_int kv.1;
      value ← get_int kv.2;
      out ← print_pairs input;
      Ok (dec key ++ [9] ++ dec value ++ [10] ++ out)
  end.

(** ** Search ([app/grep/grep.c]) *)

Fixpoint starts_with (s search : list Z) : bool :=
  match search, s with
  | [], _ => true
  | _, [] => false
  | c :: search, d :: s => (c =? d) && starts_with s search
  end.
(** [strstr (s, search) != NULL] *)
Fixpoint strstr (s search : list Z) : bool :=
  starts_with s search || match s with [] => false | _ :: s => strstr s search end.

(** [cur] is the part of the line in front of [rest]. *)
Fixpoint find_occurrences_loop (cur rest search : list Z) (line_num : Z) : list (Z * list Z) :=
  match rest with
  | [] => []
  | c :: rest =>
      if c =? 10 then
        (if strstr cur search then [(line_num, cur)] else []) ++ find_occurrences_loop [] rest search (int32 (line_num + 1))
      else find_occurrences_loop (cur ++ [c]) rest search line_num
  end.
Definition find_occurrences (contents search : list Z) : list (Z * list Z) := find_occurrences_loop [] contents search 1.

Definition grep_map (input : key_value) (aux : list Z) : result (list key_value) :=
  Ok ((λ occ, (input.1, [9] ++ dec occ.1 ++ text ": " ++ occ.2)) <$> find_occurrences (c_string input.2) (c_string aux)).

Definition grep_line_num_compare_fn (kv1 kv2 : key_value) : Z := int32 (atoi (c_string kv1.2) - atoi (c_string kv2.2)).
Definition grep_file_name_compare_fn (kv1 kv2 : key_value) : Z := strcmp (c_string kv1.1) (c_string kv2.1).

(** The last newline is cut off.  Where a value has a null byte the buffer has
    fewer bytes than its length says. *)
Definition join_values (input : list key_value) : result (list Z) :=
  let buf := flat_map (λ kv, c_string kv.2 ++ [10]) input in
  let total_length := foldr (λ kv n, len kv.2 + 1 + n) 0 input in
  if (len buf <? total_length) || (total_length =? 0) then Err BadAccess else Ok (take (Z.to_nat (total_length - 1)) buf).

Fixpoint drop_slashes (r : list Z) : list Z := match r with c :: r' => if c =? 47 then drop_slashes r' else r | [] => [] end.
Fixpoint before_slash (r : list Z) : list Z := match r with c :: r' => if c =? 47 then [] else c :: before_slash r' | [] => [] end.
(** [basename] of [libgen.h] *)
Definition basename (p : list Z) : list Z :=
  match p, drop_slashes (rev p) with
  | [], _ => text "."
  | _, [] => text "/"
  | _, r => rev (before_slash r)
  end.

Definition print_matches (input : list key_value) : list Z :=
  flat_map (λ kv, basename (c_string kv.1) ++ text ":" ++ [10] ++ c_string kv.2 ++ [10]) input.

(** ** The worker *)

Section worker.
Context (alloc : Z → bool) (can_create : path → bool) (qsort : (key_value → key_value → Z) → list key_value → list key_value).

Definition malloc (n : Z) : bool := (n <? 2 ^ 63) && alloc n.

Definition ldr_next (infile : list Z) : option (list Z) * list Z :=
  if len infile <? 8 then (None, []) else
  let length := of_le64 (take 8 infile) in
  let infile := drop 8 infile in
  if length =? 0 then (Some [], infile) else
  if negb (malloc length) then (None, infile) else
  if len infile <? length then (None, []) else
  (Some (take (Z.to_nat length) infile), drop (Z.to_nat length) infile).

Fixpoint ldr_count_loop (fuel : nat) (infile : list Z) (count : Z) : result Z :=
  match fuel with
  | O => Err OutOfFuel
  | S fuel => match ldr_next infile with
              | (Some _, infile) => ldr_count_loop fuel infile (count + 1)
              | (None, _) => Ok count
              end
  end.
(** Every buffer takes bytes from the file. *)
Definition ldr_count (infile : list Z) : result Z := ldr_count_loop (S (length infile)) infile 0.

Definition read_all (p : path) (f : files) : option (list Z) :=
  match f p with Some c => if malloc (len c) then Some c else None | None => None end.

(** ** [app.c] *)

Definition wc_process_output (input : list key_value) : result (list Z) := print_values (qsort wc_compare_fn input).
Definition vertex_degree_process_output (input : list key_value) : result (list Z) := print_pairs (qsort vertex_degree_compare_fn input).
Definition grep_process_output (input : list key_value) : result (list Z) := Ok (print_matches (qsort grep_file_name_compare_fn input)).
Definition grep_reduce (key : list Z) (input : list key_value) (aux : list Z) : result key_value :=
  value ← join_values (qsort grep_line_num_compare_fn input); Ok (key, value).

Definition apps : list app :=
  [mk_app (text "wc") wc_map wc_reduce wc_process_output;
   mk_app (text "grep") grep_map grep_reduce grep_process_output;
   mk_app (text "vertex-degree") vertex_degree_map vertex_degree_reduce vertex_degree_process_output].

Definition get_app (n : list Z) : option app := List.find (λ a, bool_decide (n = name a)) apps.

(** ** Map tasks *)

Fixpoint open_map_writers (n : nat) (i : Z) (r : get_task_reply) : M files Z :=
  match n with
  | O => mret 0
  | S n =>
      let p := Tmp (output_dir r) (task r) i in
      if can_create p then modify (write_file p []) ;; open_map_writers n (i + 1) r else mret 1
  end.

Definition append (p : path) (b : list Z) : M files unit := λ f,
  match f p with Some c => Ok (tt, write_file p (ldw_write c b) f) | None => Err BadAccess end.

Fixpoint write_map_kvs (kvs : list key_value) (r : get_task_reply) : M files unit :=
  match kvs with
  | [] => mret tt
  | kv :: kvs =>
      let reduce_task := ihash kv.1 mod n_reduce r in
      append (Tmp (output_dir r) (task r) reduce_task) kv.1 ;;
      append (Tmp (output_dir r) (task r) reduce_task) kv.2 ;;
      write_map_kvs kvs r
  end.

Definition pure_r {A} (x : result A) : M files A := λ f, match x with Ok a => Ok (a, f) | Err e => Err e end.

Definition handle_map_task (r : get_task_reply) : M files Z :=
  match get_app (app_name r) with
  | None => mret 1
  | Some current_app =>
      st ← open_map_writers (Z.to_nat (n_reduce r)) 0 r;
      if negb (st =? 0) then mret 1 else
      contents ← gets (read_all (Input (file r)));
      match contents with
      | None => mret 1
      | Some c =>
          kva ← pure_r (map current_app (file r, c) (args r));
          write_map_kvs kva r ;;
          mret 0
      end
  end.

(** ** Reduce tasks *)

(** The readers, and the number of buffers in all of them. *)
Fixpoint open_readers (ps : list path) (readers : list (list Z)) (entries : Z) : M files (option (list (list Z) * Z)) :=
  match ps with
  | [] => mret (Some (readers, entries))
  | p :: ps =>
      x ← gets (λ f, f p);
      match x with
      | None => mret None
      | Some c => k ← pure_r (ldr_count c); open_readers ps (readers ++ [c]) (entries + k)
      end
  end.
Definition open_reduce_readers (r : get_task_reply) : M files (option (list (list Z) * Z)) :=
  open_readers ((λ i, Tmp (output_dir r) i (task r)) <$> seqZ 0 (n_map r)) [] 0.

(** The pairs of one file, at most [room] of them. *)
Fixpoint read_pairs (fuel room : nat) (infile : list Z) : result (list key_value) :=
  match fuel with
  | O => Err OutOfFuel
  | S fuel =>
      let '(key, infile) := ldr_next infile in
      let '(value, infile) := ldr_next infile in
      match room, key, value with
      | S room, Some k, Some v => kvs ← read_pairs fuel room infile; Ok ((k, v) :: kvs)
      | _, _, _ => Ok []
      end
  end.

Fixpoint read_map_kvs (readers : list (list Z)) (room : nat) : result (list key_value) :=
  match readers with
  | [] => Ok []
  | c :: readers =>
      kvs ← read_pairs (S (length c)) room c;
      rest ← read_map_kvs readers (room - length kvs);
      Ok (kvs ++ rest)
  end.

Fixpoint reduce_loop (fuel : nat) (kvs : list key_value) (p1 p2 : nat) (reduce : list Z → list key_value → list Z → result key_value)
    (aux : list Z) (out : list Z) : result (list Z) :=
  match fuel with
  | O => Err OutOfFuel
  | S fuel =>
      match kvs !! p1 with
      | None => Ok out
      | Some kv1 =>
          let boundary := match kvs !! p2 with None => true | Some kv2 => negb (by_key kv1 kv2 =? 0) end in
          if boundary then
            out ← (if bool_decide (p1 < p2)%nat then
                     kv ← reduce kv1.1 (take (p2 - p1) (drop p1 kvs)) aux;
                     Ok (ldw_write (ldw_write out kv.1) kv.2)
                   else Ok out);
            reduce_loop fuel kvs p2 (S p2) reduce aux out
          else reduce_loop fuel kvs p1 (S p2) reduce aux out
      end
  end.

(** Every round advances [p2]. *)
Definition reduce_kvs (kvs : list key_value) (reduce : list Z → list key_value → list Z → result key_value) (aux : list Z)
    : result (list Z) :=
  let kvs := qsort by_key kvs in
  reduce_loop (S (S (length kvs))) kvs 0 1 reduce aux [].

Definition handle_reduce_task (r : get_task_reply) : M files Z :=
  x ← open_reduce_readers r;
  match x with
  | None => mret 1
  | Some (readers, entries) =>
      if entries mod 2 =? 1 then mret 1 else
      let p := Out (output_dir r) (task r) in
      if negb (can_create p) then mret 1 else
      modify (write_file p []) ;;
      if (0 <? entries / 2) then
        if negb (malloc (32 * (entries / 2))) then mret 1 else
        kvs ← pure_r (read_map_kvs readers (Z.to_nat (entries / 2)));
        match get_app (app_name r) with
        | None => throw BadAccess
        | Some current_app =>
            out ← pure_r (reduce_kvs kvs (reduce current_app) (args r));
            modify (write_file p out) ;;
            mret 0
        end
      else mret 0
  end.

(** ** The worker and the client *)

(** What [run_worker] does with a task that is not [wait]: whether it
    succeeded. *)
Definition handle_task (r : get_task_reply) : M files bool :=
  st ← (if is_reduce r then handle_reduce_task r else handle_map_task r);
  mret (st =? 0).

(** [process] of [client.c], with the number of reduce tasks: what it prints,
    or nothing where it gives up. *)
Definition process (n dir : list Z) (n_reduce : Z) : M files (option (list Z)) :=
  match get_app n with
  | None => mret None
  | Some current_app =>
      x ← open_readers ((λ i, Out dir i) <$> seqZ 0 n_reduce) [] 0;
      match x with
      | None => mret None
      | Some (readers, entries) =>
          if entries mod 2 =? 1 then mret None else
          if (0 <? entries / 2) then
            if negb (malloc (32 * (entries / 2))) then throw BadAccess else
            kvs ← pure_r (read_map_kvs readers (Z.to_nat (entries / 2)));
            out ← pure_r (process_output current_app kvs);
            mret (Some out)
          else mret (Some [])
      end
  end.
End worker.

(** ** The codec *)

Section codec.
Context (alloc : Z → bool) (Halloc : ∀ n, alloc n = true).

Definition encode (bufs : list (list Z)) : list Z := foldl ldw_write [] bufs.

Lemma ldw_write_app bufs out : foldl ldw_write out bufs = out ++ encode bufs.
Proof.
  unfold encode. revert out. induction bufs as [|b bufs IH] using rev_ind; intros out; cbn; [by rewrite app_nil_r|].
  rewrite !foldl_app. cbn. rewrite IH. unfold ldw_write. by rewrite <-!app_assoc.
Qed.

Lemma encode_cons b bufs : encode (b :: bufs) = le64 (len b) ++ b ++ encode bufs.
Proof. unfold encode at 1. cbn [foldl]. rewrite ldw_write_app. unfold ldw_write. by rewrite <-!app_assoc. Qed.

Lemma encode_app l1 l2 : encode (l1 ++ l2) = encode l1 ++ encode l2.
Proof. unfold encode at 1. by rewrite foldl_app, ldw_write_app. Qed.

Lemma of_le64_le64 w l : 0 ≤ w < 2 ^ 64 → of_le64 (take 8 (le64 w ++ l)) = w.
Proof.
  intros Hw. change (take 8 (le64 w ++ l)) with (le32 w ++ le32 (w / 2 ^ 32)). unfold of_le64.
  change (take 4 (le32 w ++ le32 (w / 2 ^ 32))) with (le32 w). change (drop 4 (le32 w ++ le32 (w / 2 ^ 32))) with (le32 (w / 2 ^ 32)).
  rewrite !of_le32_le32. rewrite (wrap32_small (w / 2 ^ 32)) by div_lia. unfold wrap32. div_lia.
Qed.

Lemma ldr_next_encode b bufs : len b < 2 ^ 63 → ldr_next alloc (encode (b :: bufs)) = (Some b, encode bufs).
Proof.
  intros Hb. rewrite encode_cons. unfold ldr_next.
  assert (Hl : len (le64 (len b) ++ b ++ encode bufs) = 8 + len b + len (encode bufs)) by (rewrite !length_app; change (length (le64 (len b))) with 8%nat; lia).
  rewrite Hl, (proj2 (Z.ltb_ge _ _)) by lia. rewrite of_le64_le64 by lia.
  change (drop 8 (le64 (len b) ++ b ++ encode bufs)) with (b ++ encode bufs).
  destruct (Z.eqb_spec (len b) 0) as [E|E]; [by destruct b|]. unfold malloc. rewrite Halloc, (proj2 (Z.ltb_lt _ _)) by lia. cbn [andb negb].
  rewrite (proj2 (Z.ltb_ge _ _)) by (rewrite length_app; lia). rewrite Nat2Z.id, take_app_length, drop_app_length. done.
Qed.

Lemma ldr_next_nil : ldr_next alloc [] = (None, []).
Proof. done. Qed.

Lemma ldr_count_encode bufs : Forall (λ b, len b < 2 ^ 63) bufs → ldr_count alloc (encode bufs) = Ok (len bufs).
Proof.
  intros Hb. unfold ldr_count.
  enough (H : ∀ fuel k, (length bufs < fuel)%nat → ldr_count_loop alloc fuel (encode bufs) k = Ok (k + len bufs)).
  { rewrite H; [done|]. clear H. induction Hb as [|b bufs Hb1 _ IH]; [cbn; lia|]. rewrite encode_cons, !length_app. change (length (le64 (len b))) with 8%nat. cbn [length]. lia. }
  induction Hb as [|b bufs Hb1 _ IH]; intros fuel k Hf; (destruct fuel as [|fuel]; [cbn in Hf; lia|]).
  - cbn [ldr_count_loop]. change (encode []) with (@nil Z). rewrite ldr_next_nil. cbn. by rewrite Z.add_0_r.
  - cbn [ldr_count_loop length] in *. rewrite ldr_next_encode by done. rewrite IH by lia. f_equal. lia.
Qed.

(** The pairs of a file. *)
Definition flat (kvs : list key_value) : list (list Z) := flat_map (λ kv, [kv.1; kv.2]) kvs.
Definition kv_ok (kv : key_value) : Prop := len kv.1 < 2 ^ 63 ∧ len kv.2 < 2 ^ 63.

Lemma flat_app l1 l2 : flat (l1 ++ l2) = flat l1 ++ flat l2.
Proof. apply flat_map_app. Qed.
Lemma length_flat kvs : length (flat kvs) = (2 * length kvs)%nat.
Proof. induction kvs as [|kv kvs IH]; cbn; [done|]. fold (flat kvs). lia. Qed.
Lemma flat_ok kvs : Forall kv_ok kvs → Forall (λ b, len b < 2 ^ 63) (flat kvs).
Proof. induction 1 as [|kv kvs [H1 H2] _ IH]; cbn; [done|]. apply Forall_cons; split; [done|]. apply Forall_cons; split; done. Qed.

Lemma read_pairs_encode kvs fuel room : Forall kv_ok kvs → (length kvs < fuel)%nat → (length kvs ≤ room)%nat →
  read_pairs alloc fuel room (encode (flat kvs)) = Ok kvs.
Proof.
  intros Hk. revert fuel room. induction Hk as [|[k v] kvs [H1 H2] _ IH]; intros fuel room Hf Hr; (destruct fuel as [|fuel]; [cbn in Hf; lia|]); cbn [read_pairs].
  - change (encode (flat [])) with (@nil Z). rewrite !ldr_next_nil. by destruct room.
  - change (flat ((k, v) :: kvs)) with (k :: v :: flat kvs). rewrite ldr_next_encode by done. rewrite ldr_next_encode by done.
    cbn [length] in *. destruct room as [|room]; [lia|]. rewrite IH by lia. done.
Qed.

Lemma encode_length kvs : (length kvs ≤ length (encode (flat kvs)))%nat.
Proof.
  induction kvs as [|[k v] kvs IH]; [cbn; lia|]. change (flat ((k, v) :: kvs)) with (k :: v :: flat kvs). rewrite !encode_cons, !length_app.
  change (length (le64 (len k))) with 8%nat. cbn [length]. lia.
Qed.

Lemma read_map_kvs_encode kvss room : Forall (Forall kv_ok) kvss → (length (concat kvss) ≤ room)%nat →
  read_map_kvs alloc ((λ kvs, encode (flat kvs)) <$> kvss) room = Ok (concat kvss).
Proof.
  intros H. revert room. induction H as [|kvs kvss Hk _ IH]; intros room Hr; [done|]. cbn [fmap list_fmap read_map_kvs concat] in *.
  rewrite length_app in Hr. pose proof (encode_length kvs). rewrite read_pairs_encode by (done || lia). cbn [mbind result_bind]. rewrite IH by lia. done.
Qed.
End codec.

(** ** Keys *)

(** What [qsort] of the C library promises for a comparison that is a total
    preorder on the elements. *)
Definition consistent (cmp : key_value → key_value → Z) (l : list key_value) : Prop :=
  (∀ x y, x ∈ l → y ∈ l → cmp x y ≤ 0 ∨ cmp y x ≤ 0) ∧
  (∀ x y z, x ∈ l → y ∈ l → z ∈ l → cmp x y ≤ 0 → cmp y z ≤ 0 → cmp x z ≤ 0).

Class Qsort (qsort : (key_value → key_value → Z) → list key_value → list key_value) : Prop := {
  qsort_perm cmp l : qsort cmp l ≡ₚ l;
  qsort_sorted cmp l : consistent cmp l → StronglySorted (λ x y, cmp x y ≤ 0) (qsort cmp l)
}.

(** Keys without null bytes are compared byte by byte. *)
Definition plain (k : list Z) : Prop := Forall (λ c, c ≠ 0) k ∧ len k < 2 ^ 31.

Fixpoint blex (s1 s2 : list Z) : Z :=
  match s1, s2 with
  | [], [] => 0
  | [], _ => -1
  | _, [] => 1
  | c1 :: s1, c2 :: s2 => if c1 =? c2 then blex s1 s2 else c1 - c2
  end.

Lemma by_key_blex kv1 kv2 : plain kv1.1 → plain kv2.1 → Z.sgn (by_key kv1 kv2) = Z.sgn (blex kv1.1 kv2.1).
Proof.
  destruct kv1 as [k1 v1], kv2 as [k2 v2]. unfold plain, by_key. cbn [fst]. intros [H1 L1] [H2 L2].
  assert (Hd : - 2 ^ 31 ≤ len k1 - len k2 < 2 ^ 31) by lia. rewrite (signed_small 32) by lia. clear L1 L2 Hd.
  revert k2 H2. induction H1 as [|c1 k1 Hc1 _ IH]; intros k2 H2; destruct H2 as [|c2 k2 Hc2 H2]; [done|cbn -[Z.sgn]; lia|cbn -[Z.sgn]; lia|].
  specialize (IH k2 H2). cbn [length Nat.min strncmp blex]. destruct (Z.eqb_spec c1 c2) as [->|Hne]; cbn [negb].
  - rewrite (proj2 (Z.eqb_neq c2 0)) by done. replace (Z.of_nat (S (length k1)) - Z.of_nat (S (length k2))) with (len k1 - len k2) by lia. done.
  - by rewrite (proj2 (Z.eqb_neq (c1 - c2) 0)) by lia.
Qed.

Lemma blex_eq s1 s2 : blex s1 s2 = 0 ↔ s1 = s2.
Proof.
  revert s2. induction s1 as [|c1 s1 IH]; intros [|c2 s2]; cbn; try done. destruct (Z.eqb_spec c1 c2) as [->|Hne].
  - rewrite IH. split; [by intros ->|by intros [=]].
  - split; [lia|intros [=]; lia].
Qed.
Lemma blex_total s1 s2 : blex s1 s2 ≤ 0 ∨ blex s2 s1 ≤ 0.
Proof.
  revert s2. induction s1 as [|c1 s1 IH]; intros [|c2 s2]; cbn; try lia. destruct (Z.eqb_spec c1 c2) as [->|Hne].
  - rewrite Z.eqb_refl. apply IH.
  - rewrite (proj2 (Z.eqb_neq c2 c1)) by done. lia.
Qed.
Lemma blex_trans s1 s2 s3 : blex s1 s2 ≤ 0 → blex s2 s3 ≤ 0 → blex s1 s3 ≤ 0.
Proof.
  revert s2 s3. induction s1 as [|c1 s1 IH]; intros [|c2 s2] [|c3 s3]; cbn; try lia.
  destruct (Z.eqb_spec c1 c2), (Z.eqb_spec c2 c3), (Z.eqb_spec c1 c3); intros; try lia; eauto.
Qed.
Lemma blex_antisym s1 s2 : blex s1 s2 ≤ 0 → blex s2 s1 ≤ 0 → s1 = s2.
Proof.
  revert s2. induction s1 as [|c1 s1 IH]; intros [|c2 s2]; cbn; try done; try lia. destruct (Z.eqb_spec c1 c2) as [->|Hne].
  - rewrite Z.eqb_refl. intros H1 H2. f_equal. by apply IH.
  - rewrite (proj2 (Z.eqb_neq c2 c1)) by done. lia.
Qed.

Lemma blex_opp s1 s2 : blex s2 s1 = - blex s1 s2.
Proof.
  revert s2. induction s1 as [|c1 s1 IH]; intros [|c2 s2]; cbn; try lia. rewrite Z.eqb_sym. destruct (c1 =? c2); [apply IH|lia].
Qed.

(** The characters of a string, on which [strcmp] is the same order. *)
Abbreviation zero_free := (Forall (λ c : Z, 0 < c)).

Lemma strcmp_blex s1 s2 : zero_free s1 → zero_free s2 → Z.sgn (strcmp s1 s2) = Z.sgn (blex s1 s2).
Proof.
  intros H1. revert s2. induction H1 as [|c1 s1 Hc1 _ IH]; intros s2 H2; destruct H2 as [|c2 s2 Hc2 H2]; cbn -[Z.sgn]; try lia.
  destruct (c1 =? c2); [by apply IH|done].
Qed.

Definition plain_keys (l : list key_value) : Prop := Forall (λ kv, plain kv.1) l.

Lemma by_key_zero kv1 kv2 : plain kv1.1 → plain kv2.1 → by_key kv1 kv2 = 0 ↔ kv1.1 = kv2.1.
Proof. intros H1 H2. rewrite <-blex_eq. pose proof (by_key_blex kv1 kv2 H1 H2). lia. Qed.
Lemma by_key_le kv1 kv2 : plain kv1.1 → plain kv2.1 → by_key kv1 kv2 ≤ 0 ↔ blex kv1.1 kv2.1 ≤ 0.
Proof. intros H1 H2. pose proof (by_key_blex kv1 kv2 H1 H2). lia. Qed.

Lemma by_key_consistent l : plain_keys l → consistent by_key l.
Proof.
  intros Hp. unfold plain_keys in Hp. rewrite Forall_forall in Hp. split.
  - intros x y Hx Hy. rewrite !by_key_le by auto. apply blex_total.
  - intros x y z Hx Hy Hz. rewrite !by_key_le by auto. apply blex_trans.
Qed.

(** ** Groups *)

(** The runs of pairs that compare equal to the first of the run. *)
Fixpoint group_from (cur : list key_value) (k : key_value) (rest : list key_value) : list (list key_value) :=
  match rest with
  | [] => [cur]
  | y :: rest => if by_key k y =? 0 then group_from (cur ++ [y]) k rest else cur :: group_from [y] y rest
  end.

Definition emit_group (reduce : list Z → list key_value → list Z → result key_value) (aux : list Z) (g : list key_value) : result (list (list Z)) :=
  match g with [] => Ok [] | kv1 :: _ => kv ← reduce kv1.1 g aux; Ok [kv.1; kv.2] end.
Fixpoint emit_groups (reduce : list Z → list key_value → list Z → result key_value) (aux : list Z) (gs : list (list key_value)) : result (list (list Z)) :=
  match gs with [] => Ok [] | g :: gs => a ← emit_group reduce aux g; b ← emit_groups reduce aux gs; Ok (a ++ b) end.

Lemma reduce_loop_groups reduce aux pre cur k rest fuel out :
  head cur = Some k → (length rest + 1 < fuel)%nat →
  reduce_loop fuel (pre ++ cur ++ rest) (length pre) (length pre + length cur) reduce aux out =
  (bs ← emit_groups reduce aux (group_from cur k rest); Ok (out ++ encode bs)).
Proof.
  revert pre cur k fuel out. induction rest as [|y rest IH]; intros pre cur k fuel out Hk Hf.
  - destruct fuel as [|[|fuel]]; cbn [length] in Hf; try lia. cbn [reduce_loop group_from]. rewrite app_nil_r.
    destruct cur as [|k' cur]; [done|]. injection Hk as ->. rewrite list_lookup_middle by done.
    rewrite (lookup_ge_None_2 (pre ++ k :: cur) (length pre + length (k :: cur))) by (rewrite length_app; lia).
    rewrite bool_decide_true by (cbn [length]; lia). rewrite drop_app_length.
    replace (length pre + length (k :: cur) - length pre)%nat with (length (k :: cur)) by lia. rewrite firstn_all.
    cbn [emit_groups emit_group]. destruct (reduce k.1 (k :: cur) aux) as [kv|]; [|done]. cbn [mbind result_bind reduce_loop].
    f_equal. unfold ldw_write. rewrite app_nil_r, encode_cons, encode_cons. change (encode []) with (@nil Z). by rewrite !app_nil_r, <-!app_assoc.
  - destruct fuel as [|fuel]; [lia|]. cbn [length] in Hf. cbn [reduce_loop group_from]. destruct cur as [|k' cur]; [done|]. injection Hk as ->.
    assert (Hk1 : (pre ++ (k :: cur) ++ y :: rest) !! length pre = Some k) by (by apply list_lookup_middle).
    rewrite Hk1. clear Hk1.
    assert (Hy : (pre ++ (k :: cur) ++ y :: rest) !! (length pre + length (k :: cur))%nat = Some y).
    { rewrite app_assoc. rewrite list_lookup_middle; [done|]. by rewrite length_app. }
    rewrite Hy. destruct (Z.eqb_spec (by_key k y) 0) as [E|E]; cbn [negb].
    + replace (S (length pre + length (k :: cur))) with (length pre + length ((k :: cur) ++ [y]))%nat by (rewrite length_app; cbn [length]; lia).
      replace (pre ++ (k :: cur) ++ y :: rest) with (pre ++ ((k :: cur) ++ [y]) ++ rest) by (by rewrite <-!app_assoc).
      apply IH; [done|lia].
    + rewrite bool_decide_true by (cbn [length]; lia). rewrite drop_app_length.
      replace (length pre + length (k :: cur) - length pre)%nat with (length (k :: cur)) by lia. rewrite take_app_length.
      cbn [emit_groups emit_group]. destruct (reduce k.1 (k :: cur) aux) as [kv|]; [|done]. cbn [mbind result_bind].
      replace (S (length pre + length (k :: cur))) with (length (pre ++ k :: cur) + length [y])%nat by (rewrite length_app; cbn [length]; lia).
      replace (length pre + length (k :: cur))%nat with (length (pre ++ k :: cur)) by (by rewrite length_app).
      replace (pre ++ (k :: cur) ++ y :: rest) with ((pre ++ k :: cur) ++ [y] ++ rest) by (by rewrite <-app_assoc).
      rewrite (IH (pre ++ k :: cur) [y] y); [|done|lia]. cbn [mbind result_bind]. destruct (emit_groups reduce aux (group_from [y] y rest)) as [bs|]; [|done]. cbn [mbind result_bind].
      f_equal. unfold ldw_write. cbn [Datatypes.app]. rewrite !encode_cons. by rewrite <-!app_assoc.
Qed.

(** The pairs with a given key. *)
Definition with_key (κ : list Z) (l : list key_value) : list key_value := filter (λ kv, kv.1 = κ) l.

Lemma with_key_all κ l : Forall (λ kv, kv.1 = κ) l → with_key κ l = l.
Proof. intros H. rewrite Forall_forall in H. by apply list_filter_all. Qed.
Lemma with_key_none κ l : Forall (λ kv, kv.1 ≠ κ) l → with_key κ l = [].
Proof. intros H. rewrite Forall_forall in H. by apply list_filter_none. Qed.
Lemma with_key_app κ l1 l2 : with_key κ (l1 ++ l2) = with_key κ l1 ++ with_key κ l2.
Proof. apply filter_app. Qed.

(** What follows a pair with a smaller key in a sorted list has other keys. *)
Lemma sorted_other_keys k y rest : plain_keys (k :: y :: rest) → StronglySorted (λ a b, by_key a b ≤ 0) (k :: y :: rest) → k.1 ≠ y.1 →
  Forall (λ kv, kv.1 ≠ k.1) (y :: rest).
Proof.
  intros Hp Hs Hne. apply Forall_cons_1 in Hp as [Hk Hp]. pose proof Hp as [Hy Hr]%Forall_cons_1.
  apply StronglySorted_inv in Hs as [Hs Hk1]. apply StronglySorted_inv in Hs as [_ Hy1].
  apply Forall_cons; split; [congruence|]. rewrite Forall_forall in *. intros z Hz E.
  apply Hne, blex_antisym.
  - apply by_key_le; [done|done|]. apply Hk1. left.
  - rewrite <-E. apply by_key_le; [done|by apply Hr|by apply Hy1].
Qed.

Lemma group_from_keys cur k rest : head cur = Some k → Forall (λ kv, kv.1 = k.1) cur → plain_keys (cur ++ rest) →
  StronglySorted (λ a b, by_key a b ≤ 0) (cur ++ rest) →
  ∃ ks, group_from cur k rest = (λ κ, with_key κ (cur ++ rest)) <$> (k.1 :: ks) ∧ NoDup (k.1 :: ks) ∧
    ∀ κ, κ ∈ k.1 :: ks ↔ κ ∈ (cur ++ rest).*1.
Proof.
  revert cur k. induction rest as [|y rest IH]; intros cur k Hk Hc Hp Hs; cbn [group_from].
  - rewrite app_nil_r in *. exists []. split; [by cbn; rewrite with_key_all|]. split; [apply NoDup_singleton|].
    intros κ. rewrite list_elem_of_singleton, list_elem_of_fmap. split.
    + intros ->. exists k. split; [done|]. destruct cur; [done|]. injection Hk as ->. left.
    + intros (kv & -> & Hin). rewrite Forall_forall in Hc. by apply Hc.
  - destruct cur as [|k' cur]; [done|]. injection Hk as ->.
    assert (Hpk : plain k.1) by (by apply Forall_cons_1 in Hp as [? _]).
    assert (Hpy : plain y.1). { unfold plain_keys in Hp. rewrite Forall_forall in Hp. apply Hp. rewrite elem_of_app. right. left. }
    destruct (Z.eqb_spec (by_key k y) 0) as [E|E].
    + apply by_key_zero in E; [|done|done]. destruct (IH ((k :: cur) ++ [y]) k) as (ks & H1 & H2 & H3).
      * done.
      * apply Forall_app. split; [done|]. by apply Forall_singleton.
      * by rewrite <-app_assoc.
      * by rewrite <-app_assoc.
      * rewrite <-app_assoc in *. by exists ks.
    + assert (Hne : k.1 ≠ y.1) by (by rewrite <-by_key_zero).
      assert (Hs2 : StronglySorted (λ a b, by_key a b ≤ 0) (k :: y :: rest) ∧ StronglySorted (λ a b, by_key a b ≤ 0) (y :: rest)).
      { apply StronglySorted_app_1_r in Hs as Hs2. split; [|done]. apply SSorted_cons; [done|].
        apply StronglySorted_inv in Hs as [_ Hf]. apply Forall_app in Hf as [_ Hf]. done. }
      assert (Hp2 : plain_keys (y :: rest)) by (by apply Forall_app in Hp as [_ ?]).
      assert (Hother : Forall (λ kv, kv.1 ≠ k.1) (y :: rest)) by (apply sorted_other_keys; [by apply Forall_cons|apply Hs2|done]).
      destruct (IH [y] y) as (ks & H1 & H2 & H3); [done|by apply Forall_singleton|done|apply Hs2|].
      change ([y] ++ rest) with (y :: rest) in *. exists (y.1 :: ks). split; [|split].
      * rewrite fmap_cons, with_key_app, (with_key_all k.1), (with_key_none k.1), app_nil_r by done. f_equal. etransitivity; [exact H1|].
        apply list_fmap_ext. intros i κ Hin. rewrite with_key_app.
        rewrite (with_key_none κ (k :: cur)); [done|]. eapply Forall_impl; [exact Hc|]. intros kv Ekv Ek. cbn in Ekv.
        assert (Hκ : κ ∈ (y :: rest).*1) by (apply H3; by eapply list_elem_of_lookup_2). apply list_elem_of_fmap in Hκ as (z & -> & Hz).
        rewrite Forall_forall in Hother. apply (Hother z Hz). congruence.
      * apply NoDup_cons. split; [|done]. intros Hin. apply H3, list_elem_of_fmap in Hin as (z & Ez & Hz). rewrite Forall_forall in Hother. by apply (Hother z Hz).
      * intros κ. rewrite elem_of_cons, H3, fmap_app, elem_of_app. split; [intros [->|?]; [left; left|by right]|].
        intros [Hin|?]; [|by right]. left. apply list_elem_of_fmap in Hin as (z & -> & Hz). rewrite Forall_forall in Hc. by apply Hc.
Qed.

(** [reduce_kvs] calls [reduce] once for each key, with all the pairs of that
    key. *)
Lemma reduce_kvs_run qsort `{!Qsort qsort} reduce aux rf l : plain_keys l →
  (∀ κ g, g ≠ [] → g ⊆+ l → Forall (λ kv, kv.1 = κ) g → reduce κ g aux = Ok (rf κ g)) →
  ∃ ks, NoDup ks ∧ (∀ κ, κ ∈ ks ↔ κ ∈ l.*1) ∧
    reduce_kvs qsort l reduce aux = Ok (encode (flat ((λ κ, rf κ (with_key κ (qsort by_key l))) <$> ks))).
Proof.
  intros Hp Hrf. pose proof (qsort_perm by_key l) as Hperm. pose proof (qsort_sorted by_key l (by_key_consistent l Hp)) as Hs.
  assert (Hp2 : plain_keys (qsort by_key l)) by (unfold plain_keys; by rewrite Hperm).
  unfold reduce_kvs. set (s := qsort by_key l) in *. destruct s as [|k rest] eqn:Es.
  { exists []. split; [by apply NoDup_nil|]. split; [|done]. intros κ. by rewrite <-Hperm. }
  destruct (group_from_keys [k] k rest) as (ks & H1 & H2 & H3); [done|by apply Forall_singleton|done|done|].
  change ([k] ++ rest) with (k :: rest) in *. exists (k.1 :: ks). split; [done|]. split; [intros κ; by rewrite H3, Hperm|].
  pose proof (reduce_loop_groups reduce aux [] [k] k rest (S (S (length (k :: rest)))) [] eq_refl) as Hloop.
  cbn [Datatypes.app length Nat.add] in Hloop. cbn [length]. rewrite Hloop by lia. clear Hloop. rewrite H1.
  assert (Hin : ∀ κ, κ ∈ k.1 :: ks → κ ∈ (k :: rest).*1) by (intros κ; apply H3). clear H1 H2 H3.
  enough (He : emit_groups reduce aux ((λ κ, with_key κ (k :: rest)) <$> (k.1 :: ks)) = Ok (flat ((λ κ, rf κ (with_key κ (k :: rest))) <$> (k.1 :: ks)))).
  { by rewrite He. }
  induction (k.1 :: ks) as [|κ l' IH]; [done|]. rewrite !fmap_cons. cbn [emit_groups].
  assert (Hκ : κ ∈ (k :: rest).*1) by (apply Hin; left). apply list_elem_of_fmap in Hκ as (z & Ez & Hz).
  assert (Hall : Forall (λ kv, kv.1 = κ) (with_key κ (k :: rest))) by (apply Forall_forall; intros kv Hkv; by apply list_elem_of_filter in Hkv as [? _]).
  assert (Hz' : z ∈ with_key κ (k :: rest)) by (by apply list_elem_of_filter).
  assert (Hne : with_key κ (k :: rest) ≠ []) by (intros E; rewrite E in Hz'; by apply not_elem_of_nil in Hz').
  specialize (Hrf κ (with_key κ (k :: rest)) Hne ltac:(rewrite <-Hperm; apply sublist_submseteq, sublist_filter) Hall).
  destruct (with_key κ (k :: rest)) as [|kv g] eqn:Eg; [done|]. cbn [emit_group]. apply Forall_cons_1 in Hall as [Ekv _]. rewrite Ekv, Hrf.
  cbn [mbind result_bind]. rewrite IH by (intros; apply Hin; by right). done.
Qed.
