(* ===== verification/MapReduceJob.v ===== *)
(** * A word count job ([hw-map-reduce])

    The words of a text, the files that map and reduce tasks leave, and what a
    whole job prints when its tasks have been executed in any order and any
    number of times. *)
From Stdlib Require Import Strings.String.
From stdpp Require Import sorting.
From S2P Require Import Prelude Bytes Stdio MapReduce.
#[local] Open Scope Z_scope.

(** ** Words *)

(** A text split at the bytes that are not letters. *)
Fixpoint alpha_runs (cur text : list Z) : list (list Z) :=
  match text with
  | [] => [cur]
  | c :: text => if isalpha c then alpha_runs (cur ++ [c]) text else cur :: alpha_runs [] text
  end.

(** The words have at least two letters. *)
Definition is_word (w : list Z) : Prop := (1 < length w)%nat.
#[export] Instance is_word_dec w : Decision (is_word w).
Proof. unfold is_word. apply _. Defined.
Definition word_runs (cur text : list Z) : list (list Z) := filter is_word (alpha_runs cur text).
Definition words (text : list Z) : list (list Z) := (λ w : list Z, tolower <$> w) <$> word_runs [] text.

Lemma word_runs_nil cur : word_runs cur [] = if decide (is_word cur) then [cur] else [].
Proof. unfold word_runs. cbn [alpha_runs]. rewrite filter_cons. done. Qed.
Lemma word_runs_alpha cur c text : isalpha c = true → word_runs cur (c :: text) = word_runs (cur ++ [c]) text.
Proof. intros H. unfold word_runs. cbn [alpha_runs]. by rewrite H. Qed.
Lemma word_runs_other cur c text : isalpha c = false →
  word_runs cur (c :: text) = (if decide (is_word cur) then [cur] else []) ++ word_runs [] text.
Proof. intros H. unfold word_runs. cbn [alpha_runs]. rewrite H, filter_cons. by case_decide. Qed.

Lemma length_word_runs cur text : len (word_runs cur text) ≤ len cur + len text.
Proof.
  revert cur. induction text as [|c text IH]; intros cur.
  - rewrite word_runs_nil. case_decide as H; unfold is_word in *; cbn; lia.
  - destruct (isalpha c) eqn:E.
    + rewrite word_runs_alpha by done. specialize (IH (cur ++ [c])). rewrite length_app in IH. cbn [length] in *. lia.
    + rewrite word_runs_other, length_app by done. specialize (IH []). case_decide as H; unfold is_word in *; cbn [length] in *; lia.
Qed.

Lemma num_words_loop_runs cur text k : 0 ≤ k → k + len cur + len text < 2 ^ 31 - 1 →
  num_words_loop text (len cur) k = k + len (word_runs cur text).
Proof.
  revert cur k. induction text as [|c text IH]; intros cur k H0 Hk; cbn [num_words_loop].
  - rewrite word_runs_nil. case_decide as H; unfold is_word in H; destruct (Z.ltb_spec 1 (len cur)); cbn [length] in *; try lia.
    rewrite (signed_small 32) by lia. done.
  - cbn [length] in Hk. destruct (isalpha c) eqn:E.
    + rewrite word_runs_alpha by done. rewrite (signed_small 32) by lia.
      replace (len cur + 1) with (len (cur ++ [c])) by (rewrite length_app; cbn [length]; lia). apply IH; [done|]. rewrite length_app. cbn [length]. lia.
    + rewrite word_runs_other, length_app by done. change 0 with (len (@nil Z)).
      case_decide as H; unfold is_word in H; destruct (Z.ltb_spec 1 (len cur)); try (cbn [length] in *; lia).
      * rewrite (signed_small 32) by (cbn [length]; lia). rewrite IH by (cbn [length]; lia). cbn [length]. lia.
      * rewrite IH by (cbn [length]; lia). cbn [length]. lia.
Qed.

Definition one (w : list Z) : key_value := (tolower <$> w, le32 1).

Lemma slice_middle (pre cur rest : list Z) : slice (len pre) (len pre + len cur - len pre) (pre ++ cur ++ rest) = cur.
Proof.
  unfold slice. replace (len pre + len cur - len pre) with (len cur) by lia. by rewrite !Nat2Z.id, drop_app_length, take_app_length.
Qed.

Lemma wc_map_loop_runs pre cur rest n kva fuel : (length rest + 2 ≤ fuel)%nat →
  len kva + len (word_runs cur rest) ≤ n →
  wc_map_loop fuel (pre ++ cur ++ rest) n (len pre) (len pre + len cur) kva = Ok (kva ++ (one <$> word_runs cur rest)).
Proof.
  revert pre cur kva fuel. induction rest as [|c rest IH]; intros pre cur kva fuel Hf Hn.
  - destruct fuel as [|[|fuel]]; [cbn in Hf; lia..|]. rewrite word_runs_nil in *. cbn [wc_map_loop]. rewrite app_nil_r, !length_app.
    destruct (Z.ltb_spec (len pre) (Z.of_nat (length pre + length cur))) as [H|H].
    + rewrite (proj2 (Z.leb_le _ _)) by lia. cbn [orb].
      case_decide as Hw; unfold is_word in Hw.
      * rewrite (proj2 (Z.ltb_lt (len pre + 1) _)) by lia. cbn [length] in Hn. rewrite (proj2 (Z.ltb_lt (len kva) _)) by lia. cbn [mbind result_bind].
        rewrite (proj2 (Z.ltb_ge _ _)) by lia. 
        pose proof (slice_middle pre cur []) as Hs. rewrite app_nil_r in Hs. by rewrite Hs.
      * rewrite (proj2 (Z.ltb_ge (len pre + 1) _)) by lia. cbn [mbind result_bind]. rewrite (proj2 (Z.ltb_ge _ _)) by lia. by rewrite app_nil_r.
    + destruct cur; [|cbn [length] in H; lia]. cbn. by rewrite app_nil_r.
  - destruct fuel as [|fuel]; [lia|]. cbn [length] in Hf. cbn [wc_map_loop].
    assert (Hl : len pre + len cur < len (pre ++ cur ++ c :: rest)) by (rewrite !length_app; cbn [length]; lia).
    rewrite (proj2 (Z.ltb_lt (len pre) _)) by lia. rewrite (proj2 (Z.leb_gt _ _)) by lia.
    assert (Hc : (pre ++ cur ++ c :: rest) !! Z.to_nat (len pre + len cur) = Some c).
    { rewrite app_assoc. apply list_lookup_middle. rewrite length_app. lia. }
    rewrite Hc. cbn [default from_option id orb]. destruct (isalpha c) eqn:E; cbn [negb].
    + rewrite word_runs_alpha in * by done. replace (len pre + len cur + 1) with (len pre + len (cur ++ [c])) by (rewrite length_app; cbn [length]; lia).
      replace (pre ++ cur ++ c :: rest) with (pre ++ (cur ++ [c]) ++ rest) by (by rewrite <-!app_assoc). apply IH; [lia|done].
    + rewrite word_runs_other in * by done. rewrite length_app in Hn.
      replace (len pre + len cur + 1) with (len (pre ++ cur ++ [c]) + len (@nil Z)) by (rewrite !length_app; cbn [length]; lia).
      rewrite fmap_app, (app_assoc kva). case_decide as Hw; unfold is_word in Hw; cbn [length] in Hn.
      * rewrite (proj2 (Z.ltb_lt (len pre + 1) _)) by lia. rewrite (proj2 (Z.ltb_lt (len kva) _)) by lia. cbn [mbind result_bind].
        rewrite slice_middle.
        replace (pre ++ cur ++ c :: rest) with ((pre ++ cur ++ [c]) ++ [] ++ rest) by (by rewrite <-!app_assoc).
        rewrite <-(IH (pre ++ cur ++ [c]) [] _ fuel); [|lia|rewrite length_app, length_fmap; cbn [length]; lia]. f_equal. cbn [length]. lia.
      * rewrite (proj2 (Z.ltb_ge (len pre + 1) _)) by lia. cbn [mbind result_bind].
        replace (pre ++ cur ++ c :: rest) with ((pre ++ cur ++ [c]) ++ [] ++ rest) by (by rewrite <-!app_assoc).
        rewrite <-(IH (pre ++ cur ++ [c]) [] _ fuel); [|lia|rewrite length_app, length_fmap; cbn [length]; lia]. f_equal; [cbn [length]; lia|]. cbn. by rewrite app_nil_r.
Qed.

Lemma wc_map_words k text aux : len text < 2 ^ 31 - 1 → wc_map (k, text) aux = Ok ((λ w, (w, le32 1)) <$> words text).
Proof.
  intros Hl. unfold wc_map, num_words. cbn [snd].
  pose proof (num_words_loop_runs [] text 0) as Hn. change (len (@nil Z)) with 0 in Hn. rewrite Hn, Z.add_0_l by lia. clear Hn.
  pose proof (wc_map_loop_runs [] [] text (len (word_runs [] text)) [] (S (S (length text)))) as H. change (len (@nil Z)) with 0 in H. change (len (@nil key_value)) with 0 in H.
  rewrite Z.add_0_r in H. cbn [Datatypes.app] in H. rewrite H by lia. cbn [mbind result_bind]. rewrite length_fmap, Z.eqb_refl.
  unfold words. by rewrite <-list_fmap_compose.
Qed.

(** ** Map tasks *)

(** The pairs of a reduce task. *)
Definition part (n j : Z) (kvs : list key_value) : list key_value := filter (λ kv, ihash kv.1 mod n = j) kvs.

Lemma length_part n j kvs : (length (part n j kvs) ≤ length kvs)%nat.
Proof. apply length_filter. Qed.

(** The files of a map task with the contents [g]. *)
Definition task_files (r : get_task_reply) (g : Z → list Z) (f : files) : files := λ p,
  match p with
  | Tmp d t j => if decide (d = output_dir r ∧ t = task r ∧ 0 ≤ j < n_reduce r) then Some (g j) else f p
  | _ => f p
  end.

#[local] Ltac path_cases :=
  repeat case_decide; destruct_and?; simplify_eq; try done;
  exfalso; match goal with H : ¬ _ |- _ => apply H; repeat split; first [done | lia | f_equal; lia] end.

Section map_task.
Context (alloc : Z → bool) (can_create : path → bool) (qsort : (key_value → key_value → Z) → list key_value → list key_value).
Context (Halloc : ∀ n, alloc n = true) (Hcreate : ∀ p, can_create p = true).

Lemma open_map_writers_files n i r f : ∃ f', open_map_writers can_create n i r f = Ok (0, f') ∧
  ∀ p, f' p = match p with
              | Tmp d t j => if decide (d = output_dir r ∧ t = task r ∧ i ≤ j < i + Z.of_nat n) then Some [] else f p
              | _ => f p
              end.
Proof.
  revert i f. induction n as [|n IH]; intros i f; cbn [open_map_writers].
  - exists f. split; [done|]. intros [| d t j|]; [done| |done]. rewrite decide_False by lia. done.
  - rewrite Hcreate. destruct (IH (i + 1) (write_file (Tmp (output_dir r) (task r) i) [] f)) as (f' & E & H). exists f'. split; [done|].
    intros p. rewrite H. unfold write_file. destruct p as [| d t j|]; [done| |done].
    destruct (decide (j = i)) as [->|Hj]; path_cases.
Qed.

Lemma part_cons n j kv kvs : part n j (kv :: kvs) = (if decide (ihash kv.1 mod n = j) then [kv] else []) ++ part n j kvs.
Proof. unfold part. rewrite filter_cons. by case_decide. Qed.

Lemma append_files r g f f0 j b : (∀ p, f p = task_files r g f0 p) → 0 ≤ j < n_reduce r →
  ∃ f', append (Tmp (output_dir r) (task r) j) b f = Ok (tt, f') ∧
    ∀ p, f' p = task_files r (λ i, if decide (i = j) then ldw_write (g i) b else g i) f0 p.
Proof.
  intros Hf Hj. unfold append. rewrite Hf. cbn [task_files]. rewrite decide_True by done. eexists. split; [done|].
  intros p. unfold write_file. rewrite Hf. destruct p as [| d t i|]; cbn [task_files]; [done| |done].
  path_cases.
Qed.

Lemma write_map_kvs_files kvs r f f0 g : 0 < n_reduce r → (∀ p, f p = task_files r g f0 p) →
  ∃ f', write_map_kvs kvs r f = Ok (tt, f') ∧ ∀ p, f' p = task_files r (λ j, g j ++ encode (flat (part (n_reduce r) j kvs))) f0 p.
Proof.
  intros Hn. revert f g. induction kvs as [|kv kvs IH]; intros f g Hf; cbn [write_map_kvs].
  - exists f. split; [done|]. intros p. rewrite Hf. destruct p; cbn [task_files]; [done| |done]. case_decide; [|done]. by rewrite app_nil_r.
  - assert (Hj : 0 ≤ ihash kv.1 mod n_reduce r < n_reduce r) by (apply Z.mod_pos_bound; lia).
    destruct (append_files r g f f0 _ kv.1 Hf Hj) as (f1 & E1 & Hf1). destruct (append_files r _ f1 f0 _ kv.2 Hf1 Hj) as (f2 & E2 & Hf2).
    destruct (IH f2 _ Hf2) as (f' & E & Hf'). exists f'. split.
    + unfold mbind, M_bind. rewrite E1, E2. done.
    + intros p. rewrite Hf'. destruct p as [| d t j|]; cbn [task_files]; [done| |done]. case_decide; [|done]. f_equal. rewrite part_cons.
      case_decide as E3; subst; [rewrite decide_True by done|rewrite decide_False by done; done].
      rewrite flat_app, encode_app. change (encode (flat [kv])) with (encode [kv.1; kv.2]). rewrite !encode_cons. unfold ldw_write.
      change (encode []) with (@nil Z). by rewrite app_nil_r, <-!app_assoc.
Qed.

Lemma handle_map_task_files r f a c kvs : 0 < n_reduce r →
  get_app qsort (app_name r) = Some a → f (Input (file r)) = Some c → len c < 2 ^ 63 → map a (file r, c) (args r) = Ok kvs →
  ∃ f', handle_map_task alloc can_create qsort r f = Ok (0, f') ∧
    ∀ p, f' p = task_files r (λ j, encode (flat (part (n_reduce r) j kvs))) f p.
Proof.
  intros Hn Ha Hc Hl Hm. unfold handle_map_task. rewrite Ha.
  destruct (open_map_writers_files (Z.to_nat (n_reduce r)) 0 r f) as (f1 & E1 & H1).
  destruct (write_map_kvs_files kvs r f1 f (λ _, [])) as (f2 & E2 & H2); [done| |].
  { intros p. rewrite H1. destruct p; cbn [task_files]; [done| |done]. path_cases. }
  exists f2. split; [|done]. unfold mbind, M_bind. rewrite E1. cbn [Z.eqb negb]. unfold gets, read_all. rewrite (H1 (Input _)), Hc.
  unfold malloc. rewrite Halloc, (proj2 (Z.ltb_lt _ _)) by lia. cbn [andb]. unfold pure_r. rewrite Hm. rewrite E2. done.
Qed.
End map_task.

(** ** Reduce tasks *)

Definition enc (kvs : list key_value) : list Z := encode (flat kvs).
Definition has_pairs (f : files) (p : path) (kvs : list key_value) : Prop := f p = Some (enc kvs) ∧ Forall kv_ok kvs.

Section reduce_task.
Context (alloc : Z → bool) (can_create : path → bool) (qsort : (key_value → key_value → Z) → list key_value → list key_value).
Context (Halloc : ∀ n, alloc n = true) (Hcreate : ∀ p, can_create p = true) `{!Qsort qsort}.

Lemma open_readers_pairs f ps kvss readers entries : Forall2 (has_pairs f) ps kvss →
  open_readers alloc ps readers entries f = Ok (Some (readers ++ (enc <$> kvss), entries + 2 * len (concat kvss)), f).
Proof.
  intros H. revert readers entries. induction H as [|p kvs ps kvss [Hp Hk] _ IH]; intros readers entries; cbn [open_readers].
  - cbn. by rewrite app_nil_r, Z.add_0_r.
  - unfold mbind, M_bind, gets. rewrite Hp. unfold pure_r, enc at 1. rewrite ldr_count_encode by (done || by apply flat_ok).
    rewrite IH. do 4 f_equal.
    + rewrite <-app_assoc. done.
    + cbn [concat]. rewrite length_app, length_flat. lia.
Qed.

Lemma double_entries n : (2 * n) mod 2 = 0 ∧ 2 * n / 2 = n.
Proof. div_lia. Qed.

Lemma qsort_nil cmp : qsort cmp [] = [].
Proof. apply Permutation_nil_r, qsort_perm. Qed.

Lemma handle_reduce_task_files r f a kvss out :
  Forall2 (has_pairs f) ((λ i, Tmp (output_dir r) i (task r)) <$> seqZ 0 (n_map r)) kvss →
  32 * len (concat kvss) < 2 ^ 63 → get_app qsort (app_name r) = Some a →
  reduce_kvs qsort (concat kvss) (reduce a) (args r) = Ok out →
  ∃ f', handle_reduce_task alloc can_create qsort r f = Ok (0, f') ∧ ∀ p, f' p = write_file (Out (output_dir r) (task r)) out f p.
Proof.
  intros Hf Hl Ha Hr. unfold handle_reduce_task, open_reduce_readers. unfold mbind, M_bind. rewrite (open_readers_pairs f _ kvss) by done.
  rewrite Z.add_0_l. destruct (double_entries (len (concat kvss))) as [-> ->]. cbn [Z.eqb]. rewrite Hcreate. cbn [negb Datatypes.app].
  destruct (Z.ltb_spec 0 (len (concat kvss))) as [H0|H0].
  - unfold malloc. rewrite Halloc, (proj2 (Z.ltb_lt _ _)) by lia. cbn [andb negb]. unfold modify, pure_r at 1, enc.
    rewrite read_map_kvs_encode; [|done| |lia].
    + rewrite Ha. unfold pure_r. rewrite Hr. eexists. split; [done|]. intros p. unfold write_file. by case_decide.
    + clear -Hf. induction Hf as [|p kvs ps kvss [_ ?] _ IH]; constructor; done.
  - destruct (concat kvss); [|cbn [length] in H0; lia]. unfold reduce_kvs in Hr. rewrite qsort_nil in Hr. cbn in Hr. injection Hr as <-.
    eexists. split; [done|]. done.
Qed.

Lemma process_pairs f n dir nr a kvss out : Forall2 (has_pairs f) (Out dir <$> seqZ 0 nr) kvss → 32 * len (concat kvss) < 2 ^ 63 →
  get_app qsort n = Some a → process_output a (concat kvss) = Ok out → (concat kvss = [] → out = []) →
  process alloc qsort n dir nr f = Ok (Some out, f).
Proof.
  intros Hf Hl Ha Hp Hnil. unfold process. rewrite Ha. unfold mbind, M_bind. rewrite (open_readers_pairs f _ kvss) by done.
  rewrite Z.add_0_l. destruct (double_entries (len (concat kvss))) as [-> ->]. cbn [Z.eqb Datatypes.app].
  destruct (Z.ltb_spec 0 (len (concat kvss))) as [H0|H0].
  - unfold malloc. rewrite Halloc, (proj2 (Z.ltb_lt _ _)) by lia. cbn [andb negb]. unfold pure_r at 1, enc.
    rewrite read_map_kvs_encode; [|done| |lia].
    + unfold pure_r. rewrite Hp. done.
    + clear -Hf. induction Hf as [|p kvs ps kvss [_ ?] _ IH]; constructor; done.
  - destruct (concat kvss); [|cbn [length] in H0; lia]. by rewrite Hnil.
Qed.
End reduce_task.

(** ** Jobs *)

(** Tasks are executed one after the other, each by some worker. *)
Fixpoint run_tasks (alloc : Z → bool) (can_create : path → bool) (qsort : (key_value → key_value → Z) → list key_value → list key_value)
    (ts : list get_task_reply) : M files (list bool) :=
  match ts with
  | [] => mret []
  | t :: ts => s ← handle_task alloc can_create qsort t; ss ← run_tasks alloc can_create qsort ts; mret (s :: ss)
  end.

Lemma run_tasks_app alloc can_create qsort ts1 ts2 f ss1 f1 ss2 f2 :
  run_tasks alloc can_create qsort ts1 f = Ok (ss1, f1) → run_tasks alloc can_create qsort ts2 f1 = Ok (ss2, f2) →
  run_tasks alloc can_create qsort (ts1 ++ ts2) f = Ok (ss1 ++ ss2, f2).
Proof.
  revert f ss1. induction ts1 as [|t ts1 IH]; intros f ss1 H1 H2; cbn [run_tasks Datatypes.app] in *.
  - by injection H1 as <- <-.
  - unfold mbind, M_bind in *. destruct (handle_task alloc can_create qsort t f) as [[s f']|]; [|done].
    destruct (run_tasks alloc can_create qsort ts1 f') as [[ss f'']|] eqn:E; [|done]. injection H1 as <- <-. by rewrite (IH _ _ E H2).
Qed.

Record job := mk_job { inputs : list key_value; dir : list Z; app_of : list Z; reducers : Z; job_args : list Z }.

Definition map_reply (J : job) (i : nat) (f : list Z) : get_task_reply :=
  mk_reply (Z.of_nat i) f (dir J) (app_of J) (reducers J) (len (inputs J)) false (job_args J).
Definition reduce_reply (J : job) (j : Z) : get_task_reply :=
  mk_reply j [] (dir J) (app_of J) (reducers J) (len (inputs J)) true (job_args J).

Definition is_map_task (J : job) (t : get_task_reply) : Prop := ∃ i inp, inputs J !! i = Some inp ∧ t = map_reply J i inp.1.
Definition is_reduce_task (J : job) (t : get_task_reply) : Prop := ∃ j, 0 ≤ j < reducers J ∧ t = reduce_reply J j.

(** The input files are there. *)
Definition inputs_in (J : job) (f : files) : Prop :=
  Forall (λ inp, f (Input inp.1) = Some inp.2 ∧ len inp.2 < 2 ^ 63) (inputs J).

Section job.
Context (alloc : Z → bool) (can_create : path → bool) (qsort : (key_value → key_value → Z) → list key_value → list key_value).
Context (Halloc : ∀ n, alloc n = true) (Hcreate : ∀ p, can_create p = true) `{!Qsort qsort}.
Context (J : job) (a : app) (Ha : get_app qsort (app_of J) = Some a) (Hn : 0 < reducers J).
Context (kvss : list (list key_value)) (Hmap : Forall2 (λ inp kvs, map a inp (job_args J) = Ok kvs) (inputs J) kvss).
Context (Hok : Forall (Forall kv_ok) kvss) (Hlen : 32 * len (concat kvss) < 2 ^ 63).

Abbreviation run := (run_tasks alloc can_create qsort).
Abbreviation piece j kvs := (part (reducers J) j kvs).

Lemma run_map_tasks ts f : Forall (is_map_task J) ts → inputs_in J f →
  ∃ f', run ts f = Ok (replicate (length ts) true, f') ∧ inputs_in J f' ∧
    ∀ i inp kvs j, inputs J !! i = Some inp → kvss !! i = Some kvs → 0 ≤ j < reducers J →
      map_reply J i inp.1 ∈ ts ∨ f (Tmp (dir J) (Z.of_nat i) j) = Some (enc (piece j kvs)) →
      f' (Tmp (dir J) (Z.of_nat i) j) = Some (enc (piece j kvs)).
Proof.
  intros Hts. revert f. induction Hts as [|t ts (i & inp & Hi & ->) _ IH]; intros f Hf.
  { exists f. split; [done|]. split; [done|]. intros i inp kvs j _ _ _ [H|?]; [|done]. by apply not_elem_of_nil in H. }
  destruct (Forall2_lookup_l _ _ _ _ _ Hmap Hi) as (kvs & Hk & Hm). pose proof Hf as Hf0. unfold inputs_in in Hf0.
  rewrite Forall_forall in Hf0. destruct (Hf0 inp) as [Hf1 Hf2]; [by eapply list_elem_of_lookup_2|].
  destruct (handle_map_task_files alloc can_create qsort Halloc Hcreate (map_reply J i inp.1) f a inp.2 kvs) as (f1 & E1 & H1);
    [done|done|done|done|by destruct inp|].
  destruct (IH f1) as (f' & E & Hin & H).
  { eapply Forall_impl; [exact Hf|]. intros x Hx. by rewrite H1. }
  exists f'. split; [|split; [done|]].
  - cbn [run_tasks]. unfold handle_task. cbn [is_reduce map_reply]. unfold mbind, M_bind, mret, M_ret. rewrite E1. cbn [Z.eqb]. by rewrite E.
  - intros i' inp' kvs' j Hi' Hk' Hj Hd. apply (H i' inp' kvs' j Hi' Hk' Hj). rewrite H1. cbn [task_files map_reply output_dir task n_reduce].
    destruct (decide (i' = i)) as [->|Hne].
    + right. rewrite decide_True by done. by simplify_eq.
    + rewrite decide_False by naive_solver lia. destruct Hd as [Hd|?]; [|by right]. left. apply elem_of_cons in Hd as [Hd|?]; [|done].
      exfalso. apply Hne. injection Hd. lia.
Qed.

Lemma concat_part j (l : list (list key_value)) : concat ((λ kvs, piece j kvs) <$> l) = piece j (concat l).
Proof. induction l as [|kvs l IH]; [done|]. cbn. rewrite IH. unfold part. by rewrite filter_app. Qed.

Lemma run_reduce_tasks outs ts f : Forall (is_reduce_task J) ts →
  (∀ i inp kvs j, inputs J !! i = Some inp → kvss !! i = Some kvs → 0 ≤ j < reducers J →
    f (Tmp (dir J) (Z.of_nat i) j) = Some (enc (piece j kvs))) →
  (∀ j, 0 ≤ j < reducers J → reduce_kvs qsort (piece j (concat kvss)) (reduce a) (job_args J) = Ok (outs j)) →
  ∃ f', run ts f = Ok (replicate (length ts) true, f') ∧ 
    ∀ j, reduce_reply J j ∈ ts ∨ f (Out (dir J) j) = Some (outs j) → 0 ≤ j < reducers J → f' (Out (dir J) j) = Some (outs j).
Proof.
  intros Hts. revert f. induction Hts as [|t ts (j & Hj & ->) _ IH]; intros f Hf Hr.
  { exists f. split; [done|]. intros j [H|?]; [|done]. by apply not_elem_of_nil in H. }
  destruct (handle_reduce_task_files alloc can_create qsort Halloc Hcreate (reduce_reply J j) f a ((λ kvs, piece j kvs) <$> kvss) (outs j))
    as (f1 & E1 & H1).
  - cbn [reduce_reply output_dir task n_map]. apply Forall2_fmap_l, Forall2_fmap_r, Forall2_lookup. intros i.
    pose proof (Forall2_length _ _ _ Hmap) as Hlk.
    destruct (inputs J !! i) as [inp|] eqn:Ei.
    + destruct (Forall2_lookup_l _ _ _ _ _ Hmap Ei) as (kvs & Hk & _). rewrite Hk. apply lookup_lt_Some in Ei as Hlt.
      rewrite lookup_seqZ_lt by lia. constructor. rewrite Z.add_0_l. split; [by eapply Hf|].
      rewrite Forall_forall in Hok. specialize (Hok kvs ltac:(by eapply list_elem_of_lookup_2)). rewrite Forall_forall in Hok.
      apply Forall_forall. intros x [_ Hx]%list_elem_of_filter. by apply Hok.
    + apply lookup_ge_None in Ei. rewrite lookup_seqZ_ge by lia. rewrite (lookup_ge_None_2 kvss) by lia. constructor.
  - rewrite concat_part. pose proof (length_part (reducers J) j (concat kvss)). lia.
  - done.
  - rewrite concat_part. by apply Hr.
  - destruct (IH f1) as (f' & E & H); [|done|].
    { intros. rewrite H1. unfold write_file. rewrite decide_False by done. by eapply Hf. }
    exists f'. split.
    + cbn [run_tasks]. unfold handle_task. cbn [is_reduce reduce_reply]. unfold mbind, M_bind, mret, M_ret. rewrite E1. cbn [Z.eqb]. by rewrite E.
    + intros j' Hd Hj'. apply H; [|done]. rewrite H1. unfold write_file. cbn [reduce_reply output_dir task].
      destruct (decide (j' = j)) as [->|Hne]; [right; by rewrite decide_True|]. rewrite decide_False by congruence.
      destruct Hd as [Hd|?]; [|by right]. left. apply elem_of_cons in Hd as [Hd|?]; [|done]. exfalso. apply Hne. by injection Hd.
Qed.
End job.

(** ** Counting words *)

Definition ones (ws : list (list Z)) : list key_value := (λ w, (w, le32 1)) <$> ws.
Definition occ (κ : list Z) (ws : list (list Z)) : Z := len (filter (λ w, w = κ) ws).
Definition counted (ws : list (list Z)) (κ : list Z) : key_value := (κ, le32 (occ κ ws)).

Lemma occ_bound κ ws : 0 ≤ occ κ ws ≤ len ws.
Proof. unfold occ. pose proof (length_filter (λ w, w = κ) ws). lia. Qed.

Lemma occ_snoc κ ws w : occ κ (ws ++ [w]) = occ κ ws + if decide (w = κ) then 1 else 0.
Proof. unfold occ. rewrite filter_app, length_app, filter_cons. case_decide; cbn [length filter list_filter]; lia. Qed.
Lemma occ_absent κ ws : κ ∉ ws → occ κ ws = 0.
Proof. intros H. unfold occ. rewrite list_filter_none; [done|]. intros w Hw ->. done. Qed.
Lemma occ_perm κ ws ws' : ws ≡ₚ ws' → occ κ ws = occ κ ws'.
Proof. intros H. unfold occ. by rewrite H. Qed.

Lemma alpha_runs_alpha cur text : Forall (λ c, isalpha c = true) cur → Forall (Forall (λ c, isalpha c = true)) (alpha_runs cur text).
Proof.
  revert cur. induction text as [|c text IH]; intros cur H; cbn [alpha_runs]; [by apply Forall_singleton|].
  destruct (isalpha c) eqn:E; [apply IH, Forall_app; split; [done|by apply Forall_singleton]|]. apply Forall_cons. split; [done|]. apply IH, Forall_nil_2.
Qed.
Lemma alpha_runs_length cur text w : w ∈ alpha_runs cur text → (length w ≤ length cur + length text)%nat.
Proof.
  revert cur. induction text as [|c text IH]; intros cur; cbn [alpha_runs].
  - intros ->%list_elem_of_singleton. lia.
  - destruct (isalpha c); [intros H%IH; rewrite length_app in H; cbn [length] in *; lia|].
    intros [->|H%IH]%elem_of_cons; cbn [length] in *; lia.
Qed.

Lemma words_plain text w : len text < 2 ^ 31 → w ∈ words text → plain w.
Proof.
  intros Hl (u & -> & [_ Hu]%list_elem_of_filter)%list_elem_of_fmap. split.
  - apply Forall_fmap. pose proof (alpha_runs_alpha [] text (Forall_nil_2 _)) as H. rewrite Forall_forall in H.
    eapply Forall_impl; [exact (H u Hu)|]. intros c. unfold isalpha, tolower. cbn.
    repeat match goal with |- context [Z.leb ?x ?y] => destruct (Z.leb_spec x y) end; cbn; intros; first [done | lia].
  - rewrite length_fmap. apply alpha_runs_length in Hu. cbn [length] in Hu. lia.
Qed.

Lemma sum_values_ones g count : Forall (λ kv, kv.2 = le32 1) g → 0 ≤ count → count + len g < 2 ^ 31 → sum_values g count = Ok (count + len g).
Proof.
  intros H. revert count. induction H as [|kv g Hkv _ IH]; intros count H0 Hc; cbn [sum_values length] in *; [by rewrite Z.add_0_r|].
  rewrite Hkv. change (get_int (le32 1)) with (@Ok Z 1). cbn [mbind result_bind]. rewrite (signed_small 32) by lia. rewrite IH by lia. f_equal. lia.
Qed.

Lemma length_with_key n j κ ws : ihash κ mod n = j → length (with_key κ (part n j (ones ws))) = length (filter (λ w, w = κ) ws).
Proof.
  intros H. unfold with_key, part. induction ws as [|w ws IH]; [done|].
  change (ones (w :: ws)) with ((w, le32 1) :: ones ws). rewrite !filter_cons. cbn [fst].
  destruct (decide (w = κ)) as [->|Hne].
  - rewrite decide_True by done. rewrite filter_cons. cbn [fst]. rewrite decide_True by done. cbn [length]. by rewrite IH.
  - case_decide; [|done]. rewrite filter_cons. cbn [fst]. by rewrite decide_False.
Qed.

Lemma elem_of_ones_part n j ws kv : kv ∈ part n j (ones ws) → kv.1 ∈ ws ∧ kv.2 = le32 1 ∧ ihash kv.1 mod n = j.
Proof. intros [H1 (w & -> & Hw)%list_elem_of_fmap]%list_elem_of_filter. done. Qed.

Lemma keys_of_part n j ws κ : κ ∈ (part n j (ones ws)).*1 ↔ κ ∈ ws ∧ ihash κ mod n = j.
Proof.
  rewrite list_elem_of_fmap. split.
  - intros (kv & -> & H%elem_of_ones_part). naive_solver.
  - intros [H1 H2]. exists (κ, le32 1). split; [done|]. apply list_elem_of_filter. split; [done|]. apply list_elem_of_fmap. by exists κ.
Qed.

Lemma wc_reduce_part qsort `{!Qsort qsort} n j ws aux : Forall plain ws → len ws < 2 ^ 31 →
  ∃ ks, NoDup ks ∧ (∀ κ, κ ∈ ks ↔ κ ∈ ws ∧ ihash κ mod n = j) ∧
    reduce_kvs qsort (part n j (ones ws)) wc_reduce aux = Ok (enc (counted ws <$> ks)).
Proof.
  intros Hp Hl. rewrite Forall_forall in Hp.
  destruct (reduce_kvs_run qsort wc_reduce aux (λ κ g, (κ, le32 (len g))) (part n j (ones ws))) as (ks & H1 & H2 & H3).
  - apply Forall_forall. intros kv [H _]%elem_of_ones_part. by apply Hp.
  - intros κ g _ Hg _. unfold wc_reduce. rewrite sum_values_ones; [done| |done|].
    + apply Forall_forall. intros kv H. by eapply elem_of_submseteq in Hg as [_ [? _]]%elem_of_ones_part; [|done].
    + apply submseteq_length in Hg. pose proof (length_part n j (ones ws)) as Hlp. unfold ones in *. rewrite length_fmap in Hlp. lia.
  - exists ks. split; [done|]. split; [intros κ; by rewrite H2, keys_of_part|]. rewrite H3. unfold enc. do 3 f_equal.
    apply list_fmap_ext. intros i κ Hκ. unfold counted, occ. do 3 f_equal. rewrite <-(length_with_key n j κ ws).
    + unfold with_key. by rewrite (qsort_perm by_key (part n j (ones ws))).
    + apply (keys_of_part n j ws), H2. by eapply list_elem_of_lookup_2.
Qed.

(** ** The output *)

Definition line (ws : list (list Z)) (κ : list Z) : list Z := dec (occ κ ws) ++ [9] ++ κ ++ [10].
(** The order of the lines. *)
Definition rank (ws : list (list Z)) (κ1 κ2 : list Z) : Prop :=
  occ κ1 ws < occ κ2 ws ∨ occ κ1 ws = occ κ2 ws ∧ blex κ1 κ2 ≤ 0.

Lemma c_string_plain κ : plain κ → c_string κ = κ.
Proof. intros [H _]. induction H as [|c κ Hc _ IH]; cbn [c_string]; [done|]. by rewrite (proj2 (Z.eqb_neq c 0)), IH. Qed.

Lemma int_of_count n : 0 ≤ n < 2 ^ 31 → int32 (of_le32 (take 4 (le32 n))) = n.
Proof. intros H. change (take 4 (le32 n)) with (le32 n). rewrite of_le32_le32, wrap32_small, (signed_small 32) by lia. done. Qed.

Lemma print_counted ws ks : len ws < 2 ^ 31 → Forall plain ks → print_values (counted ws <$> ks) = Ok (flat_map (line ws) ks).
Proof.
  intros Hl H. induction H as [|κ ks Hk _ IH]; [done|]. rewrite fmap_cons. cbn [print_values flat_map]. unfold get_int. cbn [snd fst counted].
  pose proof (occ_bound κ ws). change (len (le32 (occ κ ws)) <? 4) with false. cbn iota. rewrite int_of_count by lia. cbn [mbind result_bind].
  rewrite IH. cbn [mbind result_bind]. rewrite c_string_plain by done. unfold line. by rewrite <-!app_assoc.
Qed.

Lemma wc_compare_rank ws κ1 κ2 : len ws < 2 ^ 31 → plain κ1 → plain κ2 →
  wc_compare_fn (counted ws κ1) (counted ws κ2) ≤ 0 ↔ rank ws κ1 κ2.
Proof.
  intros Hl H1 H2. unfold wc_compare_fn, rank, value_int. cbn [snd counted]. pose proof (occ_bound κ1 ws). pose proof (occ_bound κ2 ws).
  rewrite !int_of_count by lia. destruct (Z.eqb_spec (occ κ1 ws) (occ κ2 ws)).
  - rewrite by_key_le by done. cbn [fst]. naive_solver lia.
  - rewrite (signed_small 32) by lia. lia.
Qed.

Lemma wc_compare_consistent ws ks : len ws < 2 ^ 31 → Forall plain ks → consistent wc_compare_fn (counted ws <$> ks).
Proof.
  intros Hl Hp. rewrite Forall_forall in Hp. split.
  - intros x y (κ1 & -> & H1)%list_elem_of_fmap (κ2 & -> & H2)%list_elem_of_fmap. rewrite !wc_compare_rank by auto. unfold rank.
    pose proof (blex_total κ1 κ2). lia.
  - intros x y z (κ1 & -> & H1)%list_elem_of_fmap (κ2 & -> & H2)%list_elem_of_fmap (κ3 & -> & H3)%list_elem_of_fmap.
    rewrite !wc_compare_rank by auto. unfold rank. pose proof (blex_trans κ1 κ2 κ3). lia.
Qed.

Lemma wc_process_counted qsort `{!Qsort qsort} ws ks : len ws < 2 ^ 31 → Forall plain ks →
  ∃ ks', ks' ≡ₚ ks ∧ StronglySorted (rank ws) ks' ∧ wc_process_output qsort (counted ws <$> ks) = Ok (flat_map (line ws) ks').
Proof.
  intros Hl Hp. unfold wc_process_output. pose proof (qsort_perm wc_compare_fn (counted ws <$> ks)) as Hperm.
  pose proof (qsort_sorted wc_compare_fn _ (wc_compare_consistent ws ks Hl Hp)) as Hs.
  set (s := qsort wc_compare_fn (counted ws <$> ks)) in *.
  assert (Es : s = counted ws <$> s.*1).
  { rewrite <-list_fmap_compose. symmetry. rewrite <-(list_fmap_id s) at 2. apply list_fmap_ext. intros i kv Hi. cbn.
    apply list_elem_of_lookup_2 in Hi. rewrite Hperm in Hi. apply list_elem_of_fmap in Hi as (κ & -> & _). done. }
  assert (Hk : s.*1 ≡ₚ ks). { rewrite Hperm, <-list_fmap_compose. by rewrite list_fmap_id. }
  assert (Hp' : Forall plain s.*1) by (by rewrite Hk).
  exists (s.*1). split; [done|]. split.
  - rewrite Es in Hs. clear Es Hperm Hk. induction Hp' as [|κ l H1 H2 IH]; [constructor|]. cbn [fmap list_fmap] in Hs.
    apply StronglySorted_inv in Hs as [Hs Hf]. constructor; [by apply IH|].
    rewrite Forall_forall in H2. rewrite Forall_forall in Hf. apply Forall_forall.
    intros κ' Hκ'. apply wc_compare_rank; [done|done|by apply H2|]. apply Hf, list_elem_of_fmap. by exists κ'.
  - rewrite Es at 1. by apply print_counted.
Qed.

(** ** Word count *)

Lemma elem_of_concat {A} (x : A) (ls : list (list A)) : x ∈ concat ls ↔ ∃ l, x ∈ l ∧ l ∈ ls.
Proof.
  induction ls as [|l ls IH]; cbn [concat].
  - split; [by intros ?%not_elem_of_nil|]. by intros (l & _ & ?%not_elem_of_nil).
  - rewrite elem_of_app, IH. split.
    + intros [H|(l' & H1 & H2)]; [exists l; split; [done|left]|exists l'; split; [done|by right]].
    + intros (l' & H1 & [->|H2]%elem_of_cons); [by left|right; by exists l'].
Qed.

Definition job_words (J : job) : list (list Z) := concat ((λ inp, words inp.2) <$> inputs J).
Definition total_length (J : job) : Z := foldr (λ inp n, len inp.2 + n) 0 (inputs J).

Lemma total_length_nonneg l : 0 ≤ foldr (λ (inp : key_value) n, len inp.2 + n) 0 l.
Proof. induction l; cbn; lia. Qed.
Lemma total_length_bound J : Forall (λ inp, len inp.2 ≤ total_length J) (inputs J).
Proof.
  unfold total_length. induction (inputs J) as [|inp l IH]; [constructor|]. cbn [foldr]. pose proof (total_length_nonneg l). apply Forall_cons. split; [lia|].
  eapply Forall_impl; [exact IH|]. cbn. lia.
Qed.
Lemma job_words_length J : len (job_words J) ≤ total_length J.
Proof.
  unfold job_words, total_length. induction (inputs J) as [|inp l IH]; [done|]. rewrite fmap_cons. cbn [concat foldr]. rewrite length_app.
  unfold words at 1. rewrite length_fmap. pose proof (length_word_runs [] inp.2). cbn [length] in *. lia.
Qed.
Lemma job_words_plain J : total_length J < 2 ^ 31 → Forall plain (job_words J).
Proof.
  intros Hl. pose proof (total_length_bound J) as Hb. rewrite Forall_forall in Hb. apply Forall_forall. intros w Hw.
  unfold job_words in Hw. apply elem_of_concat in Hw as (ws & Hw & Hin). apply list_elem_of_fmap in Hin as (inp & -> & Hi).
  specialize (Hb _ Hi). eapply words_plain; [|done]. lia.
Qed.

Lemma choose_keys {A} (a0 : A) (P : Z → A → Prop) n : (∀ j, 0 ≤ j < n → ∃ x, P j x) → ∃ g, ∀ j, 0 ≤ j < n → P j (g j).
Proof.
  intros H. destruct (Z.le_gt_cases n 0) as [H0|H0]; [exists (λ _, a0); lia|]. rewrite <-(Z2Nat.id n) in H |- * by lia.
  induction (Z.to_nat n) as [|k IH]; [exists (λ _, a0); lia|]. destruct IH as (g & Hg); [intros j Hj; apply H; lia|].
  destruct (H (Z.of_nat k)) as (x & Hx); [lia|]. exists (λ j, if decide (j = Z.of_nat k) then x else g j). intros j Hj.
  case_decide; [by subst|apply Hg; lia].
Qed.

Lemma concat_fmap_counted ws (ks : Z → list (list Z)) js :
  concat ((λ j, counted ws <$> ks j) <$> js) = counted ws <$> concat (ks <$> js).
Proof. induction js as [|j js IH]; [done|]. cbn. rewrite fmap_app. by rewrite IH. Qed.

Lemma NoDup_concat_keys n (ks : Z → list (list Z)) js : NoDup js → (∀ j, j ∈ js → NoDup (ks j) ∧ ∀ κ, κ ∈ ks j → ihash κ mod n = j) →
  NoDup (concat (ks <$> js)).
Proof.
  induction 1 as [|j js Hj _ IH]; intros H; [constructor|]. rewrite fmap_cons. cbn [concat]. apply NoDup_app. split; [apply H; left|]. split.
  - intros κ H1 H2. apply elem_of_concat in H2 as (l & H2 & (j' & -> & H3)%list_elem_of_fmap). apply Hj.
    destruct (H j) as [_ E1]; [left|]. destruct (H j') as [_ E2]; [by right|]. by rewrite <-(E1 κ H1), (E2 κ H2).
  - apply IH. intros j' Hj'. apply H. by right.
Qed.

(** The keys of all reduce tasks. *)
Lemma all_keys n (ks : Z → list (list Z)) (ws : list (list Z)) : 0 < n →
  (∀ j, 0 ≤ j < n → NoDup (ks j) ∧ (∀ κ, κ ∈ ks j ↔ κ ∈ ws ∧ ihash κ mod n = j)) →
  NoDup (concat (ks <$> seqZ 0 n)) ∧ (∀ w, w ∈ concat (ks <$> seqZ 0 n) ↔ w ∈ ws) ∧ (length (concat (ks <$> seqZ 0 n)) ≤ length ws)%nat.
Proof.
  intros Hn Hks.
  assert (H1 : NoDup (concat (ks <$> seqZ 0 n))).
  { apply (NoDup_concat_keys n); [apply NoDup_seqZ|]. intros j Hj%elem_of_seqZ. destruct (Hks j) as (? & Hm); [lia|].
    split; [done|]. intros κ Hκ. by apply Hm. }
  assert (H2 : ∀ w, w ∈ concat (ks <$> seqZ 0 n) ↔ w ∈ ws).
  { intros w. rewrite elem_of_concat. split.
    - intros (l & Hw & (j & -> & Hj)%list_elem_of_fmap). apply elem_of_seqZ in Hj. by apply (Hks j) in Hw as [? _]; [|lia].
    - intros Hw. assert (Hj : 0 ≤ ihash w mod n < n) by (apply Z.mod_pos_bound; lia).
      exists (ks (ihash w mod n)). split; [by apply Hks|]. apply list_elem_of_fmap. eexists. split; [done|]. apply elem_of_seqZ. lia. }
  split; [done|]. split; [done|]. apply submseteq_length, NoDup_submseteq; [done|]. intros w. apply H2.
Qed.

Lemma concat_ones J : concat ((λ inp, ones (words inp.2)) <$> inputs J) = ones (job_words J).
Proof. unfold job_words, ones. induction (inputs J) as [|inp l IH]; [done|]. rewrite !fmap_cons. cbn [concat]. by rewrite fmap_app, IH. Qed.

Lemma ones_ok ws : Forall plain ws → Forall kv_ok (ones ws).
Proof. intros H. apply Forall_fmap. eapply Forall_impl; [exact H|]. intros w [_ Hw]. split; cbn; lia. Qed.
Lemma counted_ok ws ks : Forall plain ks → Forall kv_ok (counted ws <$> ks).
Proof. intros H. apply Forall_fmap. eapply Forall_impl; [exact H|]. intros w [_ Hw]. split; cbn; lia. Qed.

(** C2: A word count job is right.  Its map tasks may be executed in any
    order and any number of times, and after them its reduce tasks; every task
    succeeds.  Then the client prints one line for each word of the input
    files, with the number of its occurrences in all of them, in the order of
    the numbers and for the same number of the words. *)
Theorem wc_job_correct alloc can_create qsort `{!Qsort qsort} J ts1 ts2 f :
  (∀ n, alloc n = true) → (∀ p, can_create p = true) → app_of J = text "wc" → 0 < reducers J → total_length J < 2 ^ 31 - 1 → inputs_in J f →
  Forall (is_map_task J) ts1 → (∀ i inp, inputs J !! i = Some inp → map_reply J i inp.1 ∈ ts1) →
  Forall (is_reduce_task J) ts2 → (∀ j, 0 ≤ j < reducers J → reduce_reply J j ∈ ts2) →
  ∃ f' ks, run_tasks alloc can_create qsort (ts1 ++ ts2) f = Ok (replicate (length (ts1 ++ ts2)) true, f') ∧
    process alloc qsort (text "wc") (dir J) (reducers J) f' = Ok (Some (flat_map (line (job_words J)) ks), f') ∧
    NoDup ks ∧ (∀ w, w ∈ ks ↔ w ∈ job_words J) ∧ StronglySorted (rank (job_words J)) ks.
Proof.
  intros Halloc Hcreate Happ Hn Hl Hf Hts1 Hall1 Hts2 Hall2. pose proof (job_words_length J) as HW. pose proof (job_words_plain J ltac:(lia)) as Hp.
  set (W := job_words J) in *. set (kvss := (λ inp : key_value, ones (words inp.2)) <$> inputs J).
  assert (HC : concat kvss = ones W) by apply concat_ones.
  assert (HlW : len (ones W) = len W) by (unfold ones; by rewrite length_fmap).
  assert (Hok : Forall (Forall kv_ok) kvss).
  { pose proof (ones_ok W Hp) as H. rewrite <-HC in H. rewrite Forall_forall in H. apply Forall_forall. intros l Hin. apply Forall_forall. intros kv Hkv.
    apply H. apply elem_of_concat. by exists l. }
  assert (Hmap : Forall2 (λ inp kvs, map (mk_app (text "wc") wc_map wc_reduce (wc_process_output qsort)) inp (job_args J) = Ok kvs) (inputs J) kvss).
  { apply Forall2_fmap_r, Forall_Forall2_diag. eapply Forall_impl; [exact (total_length_bound J)|]. intros [k c] Hc. cbn [snd] in Hc. exact (wc_map_words k c _ ltac:(lia)). }
  assert (Ha : get_app qsort (app_of J) = Some (mk_app (text "wc") wc_map wc_reduce (wc_process_output qsort))) by (by rewrite Happ).
  destruct (run_map_tasks alloc can_create qsort Halloc Hcreate J _ Ha Hn kvss Hmap ts1 f Hts1 Hf) as (f1 & E1 & _ & H1).
  destruct (choose_keys [] (λ j ks, NoDup ks ∧ (∀ κ, κ ∈ ks ↔ κ ∈ W ∧ ihash κ mod reducers J = j) ∧
    reduce_kvs qsort (part (reducers J) j (ones W)) wc_reduce (job_args J) = Ok (enc (counted W <$> ks))) (reducers J)) as (ks & Hks).
  { intros j _. apply wc_reduce_part; [done|done|lia]. }
  destruct (run_reduce_tasks alloc can_create qsort Halloc Hcreate J _ Ha kvss Hmap Hok ltac:(rewrite HC; lia) (λ j, enc (counted W <$> ks j)) ts2 f1) as (f2 & E2 & H2).
  { done. } { intros i inp kvs j Hi Hk Hj. eapply H1; [done|done|done|]. left. by apply Hall1. }
  { intros j Hj. rewrite HC. by apply Hks. }
  set (KS := concat (ks <$> seqZ 0 (reducers J))).
  destruct (all_keys (reducers J) ks W Hn) as (HND & HKS & HlK); [intros j Hj; destruct (Hks j Hj) as (? & ? & _); done|]. fold KS in HND, HKS, HlK.
  assert (HpKS : Forall plain KS). { apply Forall_forall. intros w Hw%HKS. rewrite Forall_forall in Hp. by apply Hp. }
  destruct (wc_process_counted qsort W KS) as (ks' & P1 & P2 & P3); [lia|done|].
  exists f2, ks'. split; [rewrite length_app, replicate_add; by eapply run_tasks_app|]. split; [|split; [|split]].
  - eapply (process_pairs alloc qsort Halloc f2 _ _ _ _ ((λ j, counted W <$> ks j) <$> seqZ 0 (reducers J))).
    + apply Forall2_fmap_l, Forall2_fmap_r, Forall_Forall2_diag, Forall_seqZ. intros j Hj. split; [apply H2; [left; apply Hall2|]; lia|].
      apply counted_ok, Forall_forall. intros w Hw. apply (Hks j) in Hw as [Hw _]; [|lia]. rewrite Forall_forall in Hp. by apply Hp.
    + rewrite concat_fmap_counted, length_fmap. fold KS. lia.
    + rewrite <-Happ. done.
    + cbn [process_output]. rewrite concat_fmap_counted. done.
    + rewrite concat_fmap_counted. fold KS. intros Hnil%fmap_nil_inv. rewrite Hnil in P1. apply Permutation_nil_r in P1. by rewrite P1.
  - by rewrite P1.
  - intros w. by rewrite P1.
  - done.
Qed.

(** ** A sorting function *)

Fixpoint insert_sorted (cmp : key_value → key_value → Z) (x : key_value) (l : list key_value) : list key_value :=
  match l with [] => [x] | y :: l' => if cmp x y <=? 0 then x :: l else y :: insert_sorted cmp x l' end.
Definition isort (cmp : key_value → key_value → Z) (l : list key_value) : list key_value := foldr (insert_sorted cmp) [] l.

Lemma insert_sorted_perm cmp x l : insert_sorted cmp x l ≡ₚ x :: l.
Proof. induction l as [|y l IH]; cbn [insert_sorted]; [done|]. destruct (Z.leb_spec (cmp x y) 0); [done|]. rewrite IH. apply Permutation_swap. Qed.

Lemma insert_sorted_sorted cmp x l : consistent cmp (x :: l) → StronglySorted (λ a b, cmp a b ≤ 0) l →
  StronglySorted (λ a b, cmp a b ≤ 0) (insert_sorted cmp x l).
Proof.
  intros Hc Hs. induction Hs as [|y l Hs IH Hy]; cbn [insert_sorted]; [by repeat constructor|]. destruct Hc as [Ht Htr].
  destruct (Z.leb_spec (cmp x y) 0) as [H|H].
  - constructor; [by constructor|]. constructor; [done|]. rewrite Forall_forall in *. intros z Hz.
    eapply (Htr x y z); [set_solver|set_solver|set_solver|done|by apply Hy].
  - constructor.
    + apply IH. split; [intros; apply Ht; set_solver|intros a b c ???; apply Htr; set_solver].
    + rewrite insert_sorted_perm. constructor; [|done]. destruct (Ht y x); [set_solver|set_solver|done|lia].
Qed.

#[export] Instance isort_Qsort : Qsort isort.
Proof.
  split.
  - intros cmp l. induction l as [|x l IH]; [done|]. cbn. by rewrite insert_sorted_perm, IH.
  - intros cmp l. induction l as [|x l IH]; intros Hc; [constructor|]. cbn. fold (isort cmp l).
    assert (Hp : isort cmp l ≡ₚ l) by (clear; induction l as [|x l IH]; [done|]; cbn; by rewrite insert_sorted_perm, IH).
    destruct Hc as [Ht Htr]. apply insert_sorted_sorted.
    + split; [intros a b Ha Hb|intros a b c Ha Hb Hc]; [apply Ht|apply Htr]; by rewrite ?Hp in *.
    + apply IH. split; [intros; apply Ht; by right|intros a b c ???; apply Htr; by right].
Qed.

Definition example_job : job :=
  mk_job [(text "a", text "The cat, the dog"); (text "b", text "a dog: I see the dogs")] (text "out") (text "wc") 2 [].
Definition example_files : files := λ p,
  match p with
  | Input n => if decide (n = text "a") then Some (text "The cat, the dog") else if decide (n = text "b") then Some (text "a dog: I see the dogs") else None
  | _ => None
  end.
Definition example_maps : list get_task_reply := [map_reply example_job 1 (text "b"); map_reply example_job 0 (text "a"); map_reply example_job 1 (text "b")].
Definition example_reduces : list get_task_reply := [reduce_reply example_job 1; reduce_reply example_job 0].

Lemma wc_job_correct_witness :
  ∃ f' ks, run_tasks (λ _, true) (λ _, true) isort (example_maps ++ example_reduces) example_files = Ok ([true; true; true; true; true], f') ∧
    process (λ _, true) isort (text "wc") (dir example_job) (reducers example_job) f' = Ok (Some (flat_map (line (job_words example_job)) ks), f') ∧
    NoDup ks ∧ (∀ w, w ∈ ks ↔ w ∈ job_words example_job) ∧ StronglySorted (rank (job_words example_job)) ks.
Proof.
  apply (wc_job_correct (λ _, true) (λ _, true) isort example_job example_maps example_reduces example_files).
  - done.
  - done.
  - done.
  - reflexivity.
  - vm_compute. reflexivity.
  - repeat constructor.
  - unfold example_maps, is_map_task. repeat constructor; [exists 1%nat|exists 0%nat|exists 1%nat]; by eexists.
  - intros [|[|i]] inp [= <-]; set_solver.
  - unfold example_reduces, is_reduce_task. repeat constructor; [exists 1|exists 0]; done.
  - intros j Hj. cbn in Hj. assert (j = 0 ∨ j = 1) as [-> | ->] by lia; set_solver.
Defined.

(** What that job prints. *)
Example wc_job_example :
  match run_tasks (λ _, true) (λ _, true) isort (example_maps ++ example_reduces) example_files with
  | Ok (_, f) => match process (λ _, true) isort (text "wc") (text "out") 2 f with Ok (out, _) => out | Err _ => None end
  | Err _ => None
  end = Some (text "1" ++ [9] ++ text "cat" ++ [10] ++ text "1" ++ [9] ++ text "dogs" ++ [10] ++ text "1" ++ [9] ++ text "see" ++ [10] ++
              text "2" ++ [9] ++ text "dog" ++ [10] ++ text "3" ++ [9] ++ text "the" ++ [10]).
Proof. vm_compute. reflexivity. Qed.

(** ** Vertex degrees *)

(** The pairs of an edge list whose vertices are all multiples of 256. *)
Definition round_vertices (l : list key_value) : Prop :=
  Forall (λ kv, (∃ v, kv.1 = le32 v ∧ v mod 256 = 0) ∧ kv.2 = le32 1) l.

Lemma le32_round v : v mod 256 = 0 → le32 v = 0 :: tail (le32 v).
Proof. intros H. unfold le32. cbn [tail]. by rewrite H. Qed.

Lemma by_key_round kv1 kv2 : (∃ v, kv1.1 = le32 v ∧ v mod 256 = 0) → (∃ v, kv2.1 = le32 v ∧ v mod 256 = 0) → by_key kv1 kv2 = 0.
Proof. intros (v1 & E1 & H1) (v2 & E2 & H2). unfold by_key. rewrite E1, E2, (le32_round v1 H1), (le32_round v2 H2). done. Qed.

Lemma group_from_round cur k rest : (∃ v, k.1 = le32 v ∧ v mod 256 = 0) → round_vertices rest → group_from cur k rest = [cur ++ rest].
Proof.
  intros Hk H. revert cur. induction H as [|y rest [Hy _] _ IH]; intros cur; cbn [group_from]; [by rewrite app_nil_r|].
  rewrite by_key_round by done. cbn [Z.eqb]. rewrite IH. by rewrite <-app_assoc.
Qed.

(** The degrees of different vertices are added up: a key of
    [vertex_degree] is the four bytes of an int, which [by_key] compares only
    up to the first null byte, so all vertices that are multiples of 256 (0,
    256, 512, ...) are one key, and the reduce task writes one pair for all of
    them, with the sum of their degrees. *)
Theorem vertex_degree_merges qsort `{!Qsort qsort} l aux : l ≠ [] → round_vertices l → len l < 2 ^ 31 →
  ∃ kv, kv ∈ l ∧ reduce_kvs qsort l vertex_degree_reduce aux = Ok (encode [kv.1; le32 (len l)]).
Proof.
  intros Hne Hr Hl. pose proof (qsort_perm by_key l) as Hp.
  assert (Hr' : round_vertices (qsort by_key l)) by (unfold round_vertices; by rewrite Hp).
  unfold reduce_kvs. rewrite <-Hp in Hl. destruct (qsort by_key l) as [|k rest] eqn:E; [by apply Permutation_nil_l in Hp|].
  pose proof (reduce_loop_groups vertex_degree_reduce aux [] [k] k rest (S (S (length (k :: rest)))) [] eq_refl) as Hloop.
  cbn [Datatypes.app length Nat.add] in Hloop. cbn [length] in *. rewrite Hloop by lia. pose proof Hr' as [[Hk _] Hrest]%Forall_cons_1.
  rewrite group_from_round by done. cbn [emit_groups emit_group Datatypes.app]. unfold vertex_degree_reduce.
  rewrite sum_values_ones; [|by eapply Forall_impl; [exact Hr'|]; intros ? [_ ?]|done|cbn [length]; lia].
  exists k. split; [rewrite <-Hp; left|]. rewrite <-Hp. done.
Qed.

(** An edge between vertices 256 and 512. *)
Definition example_edge : list key_value := [(le32 256, le32 1); (le32 512, le32 1)].

Lemma vertex_degree_merges_witness : vertex_degree_map (text "g", text "256 512") [] = Ok example_edge ∧
  ∃ kv, kv ∈ example_edge ∧ reduce_kvs isort example_edge vertex_degree_reduce [] = Ok (encode [kv.1; le32 2]).
Proof.
  split; [vm_compute; reflexivity|]. apply (vertex_degree_merges isort example_edge []); [done| |done].
  unfold example_edge, round_vertices. repeat constructor; eexists; split; (reflexivity || done).
Defined.

(** ** Search *)

(** A last line that does not end in a newline is not searched. *)
Theorem grep_last_line_ignored contents last search : Forall (λ c, c ≠ 10) last →
  find_occurrences (contents ++ 10 :: last) search = find_occurrences (contents ++ [10]) search.
Proof.
  intros H. unfold find_occurrences.
  enough (∀ cur n, find_occurrences_loop cur (contents ++ 10 :: last) search n = find_occurrences_loop cur (contents ++ [10]) search n) by done.
  assert (Hl : ∀ cur n, find_occurrences_loop cur last search n = []).
  { induction H as [|c last Hc _ IH]; intros cur n; [done|]. cbn [find_occurrences_loop]. by rewrite (proj2 (Z.eqb_neq c 10)). }
  induction contents as [|c contents IH]; intros cur n; cbn [Datatypes.app find_occurrences_loop].
  - change (10 =? 10) with true. cbn iota. by rewrite Hl.
  - destruct (c =? 10); by rewrite IH.
Qed.
