(* ===== verification/Shell.v ===== *)
(** * The command shell ([hw-shell/tokenizer.c], [hw-shell/shell.c])

    The tokenizer turns a line into words; the shell runs a line as a built-in
    command, or in a child process with its input and output redirected.

    Strings are lists of bytes without their terminating zero.  What the calls
    to the operating system return is a parameter ([os]): a function of the
    calls that the process has made so far, the last one included; a process is
    described by the list of its calls.  The memory of the words is not
    modelled.  The branch for lines with a pipe has syntax errors and is left
    out ([Piped]). *)
From Stdlib Require Import Strings.String.
From S2P Require Import Prelude Bytes CString CStdlib Stdio.
#[local] Open Scope Z_scope.

Module Tokenizer.

Inductive mode := MODE_NORMAL | MODE_SQUOTE | MODE_DQUOTE.

(** The size of the buffer [token]. *)
Definition n_max : Z := 4096.

(** The bytes of [source] up to the first zero behind its first [n] bytes. *)
Fixpoint copy_word (source : list Z) : list Z :=
  match source with
  | [] => []
  | c :: source => if c =? 0 then [] else c :: copy_word source
  end.

Definition vector_push (tokens : list (list Z)) (elem : list Z) : list (list Z) := tokens ++ [elem].

(** [token[n++] = c]; [token] is the part of the buffer that is in use. *)
Definition put_char (token : list Z) (c : Z) : result (list Z) :=
  if len token <? n_max then Ok (token ++ [c]) else Err BadAccess.

Definition end_word (token : list Z) (tokens : list (list Z)) : list (list Z) :=
  if 0 <? len token then vector_push tokens (copy_word token) else tokens.

(** The end of a round. *)
Definition check_size (token : list Z) : result unit :=
  if n_max <=? len token + 1 then Err Panicked else Ok tt.

(** The loop, on the rest of the line. *)
Fixpoint tokenize_loop (line : list Z) (m : mode) (token : list Z) (tokens : list (list Z)) : result (list Z * list (list Z)) :=
  let escape rest :=
    match rest with
    | c :: rest => token ← put_char token c; _ ← check_size token; tokenize_loop rest m token tokens
    | [] => _ ← check_size token; Ok (token, tokens)
    end in
  let goes_on rest m token tokens := _ ← check_size token; tokenize_loop rest m token tokens in
  match line with
  | [] => Ok (token, tokens)
  | c :: rest =>
      match m with
      | MODE_NORMAL =>
          if c =? 39 then goes_on rest MODE_SQUOTE token tokens
          else if c =? 34 then goes_on rest MODE_DQUOTE token tokens
          else if c =? 92 then escape rest
          else if isspace c then goes_on rest MODE_NORMAL [] (end_word token tokens)
          else token ← put_char token c; goes_on rest MODE_NORMAL token tokens
      | MODE_SQUOTE =>
          if c =? 39 then goes_on rest MODE_NORMAL token tokens
          else if c =? 92 then escape rest
          else token ← put_char token c; goes_on rest MODE_SQUOTE token tokens
      | MODE_DQUOTE =>
          if c =? 34 then goes_on rest MODE_NORMAL token tokens
          else if c =? 92 then escape rest
          else token ← put_char token c; goes_on rest MODE_DQUOTE token tokens
      end
  end.

Definition tokenize (line : option (list Z)) : result (option (list (list Z))) :=
  match line with
  | None => Ok None
  | Some line => r ← tokenize_loop line MODE_NORMAL [] []; Ok (Some (end_word r.1 r.2))
  end.

Definition tokens_get_length (tokens : option (list (list Z))) : Z :=
  match tokens with None => 0 | Some tokens => len tokens end.
Definition tokens_get_token (tokens : option (list (list Z))) (n : Z) : option (list Z) :=
  match tokens with None => None | Some tokens => if len tokens <=? n then None else tokens !! Z.to_nat n end.

End Tokenizer.
Import Tokenizer.

(** ** The language of lines

    A line is a sequence of items: white space, plain characters, escaped
    characters and quoted strings.  It may end with a backslash or in the
    middle of a quoted string. *)

Inductive quote := Single | Double.
Definition quote_char (q : quote) : Z := match q with Single => 39 | Double => 34 end.
Definition quote_mode (q : quote) : mode := match q with Single => MODE_SQUOTE | Double => MODE_DQUOTE end.

(** A character inside of a quoted string, escaped or not. *)
Inductive qchar := Q (c : Z) | QEsc (c : Z).
Inductive item := Space (c : Z) | Plain (c : Z) | Esc (c : Z) | Quoted (q : quote) (l : list qchar).
Inductive ending := Done | Backslash | Unclosed (q : quote) (l : list qchar) (backslash : bool).

Definition qchar_text (x : qchar) : list Z := match x with Q c => [c] | QEsc c => [92; c] end.
Definition qchar_meaning (x : qchar) : Z := match x with Q c => c | QEsc c => c end.
Definition item_text (x : item) : list Z :=
  match x with
  | Space c | Plain c => [c]
  | Esc c => [92; c]
  | Quoted q l => quote_char q :: (l ≫= qchar_text) ++ [quote_char q]
  end.
Definition ending_text (e : ending) : list Z :=
  match e with
  | Done => []
  | Backslash => [92]
  | Unclosed q l b => quote_char q :: (l ≫= qchar_text) ++ (if b then [92] else [])
  end.
Definition line_text (l : list item) (e : ending) : list Z := (l ≫= item_text) ++ ending_text e.

Definition valid_qchar (q : quote) (x : qchar) : Prop := match x with Q c => c ≠ quote_char q ∧ c ≠ 92 | QEsc _ => True end.
Definition valid_item (x : item) : Prop :=
  match x with
  | Space c => isspace c = true
  | Plain c => isspace c = false ∧ c ∉ [39; 34; 92]
  | Esc _ => True
  | Quoted q l => Forall (valid_qchar q) l
  end.
Definition valid_ending (e : ending) : Prop := match e with Unclosed q l _ => Forall (valid_qchar q) l | _ => True end.

(** The words of a line: what is between white space, if it is not empty. *)
Definition word (w : list Z) : list (list Z) := if decide (w = []) then [] else [w].
Definition ending_meaning (e : ending) : list Z := match e with Unclosed _ l _ => qchar_meaning <$> l | _ => [] end.
Fixpoint words_of (w : list Z) (l : list item) (e : ending) : list (list Z) :=
  match l with
  | [] => word (w ++ ending_meaning e)
  | Space _ :: l => word w ++ words_of [] l e
  | (Plain c | Esc c) :: l => words_of (w ++ [c]) l e
  | Quoted _ q :: l => words_of (w ++ (qchar_meaning <$> q)) l e
  end.

(** ** The tokenizer and the language *)

Definition short (w : list Z) : Prop := len w < n_max - 1.
#[export] Instance short_dec w : Decision (short w).
Proof. unfold short. apply _. Defined.

Definition finished (r : result (list Z * list (list Z))) : result (list (list Z)) := r ← r; Ok (end_word r.1 r.2).

Lemma put_char_short {A} w c (k : list Z → result A) : short w →
  (token ← put_char w c; _ ← check_size token; k token) = if decide (short (w ++ [c])) then k (w ++ [c]) else Err Panicked.
Proof.
  unfold short, put_char, check_size. change n_max with 4096. intros H. rewrite (proj2 (Z.ltb_lt _ _)) by lia.
  cbn [mbind result_bind]. destruct (decide (len (w ++ [c]) < 4096 - 1)).
  - by rewrite (proj2 (Z.leb_gt _ _)) by lia.
  - by rewrite (proj2 (Z.leb_le _ _)) by lia.
Qed.

Lemma check_size_short {A} w (k : result A) : short w → (_ ← check_size w; k) = k.
Proof. unfold short, check_size. change n_max with 4096. intros H. by rewrite (proj2 (Z.leb_gt _ _)) by lia. Qed.

Lemma copy_word_chars w : chars w → copy_word w = w.
Proof.
  induction 1 as [|c w Hc Hw IH]; [done|]. cbn [copy_word]. rewrite (proj2 (Z.eqb_neq c 0)) by lia. by rewrite IH.
Qed.

Lemma end_word_word w tokens : chars w → end_word w tokens = tokens ++ word w.
Proof.
  intros H. unfold end_word, word, vector_push. rewrite copy_word_chars by done. destruct w; [|done].
  case_decide; [|done]. by rewrite app_nil_r.
Qed.

Lemma word_long w : ¬ short w → ¬ Forall short (word w).
Proof. intros H. unfold word. case_decide as E; [subst; by destruct H|]. rewrite Forall_singleton. done. Qed.

Lemma short_app_l w w' : short (w ++ w') → short w.
Proof. unfold short. rewrite length_app. lia. Qed.

(** A word does not get shorter. *)
Lemma words_of_long w l e : ¬ short w → ¬ Forall short (words_of w l e).
Proof.
  revert w. induction l as [|x l IH]; intros w H; cbn [words_of].
  - apply word_long. intros Hs. by apply H, (short_app_l _ (ending_meaning e)).
  - destruct x.
    + intros [Hw _]%Forall_app. by apply (word_long w).
    + apply IH. intros Hs. by apply H, (short_app_l _ [c]).
    + apply IH. intros Hs. by apply H, (short_app_l _ [c]).
    + apply IH. intros Hs. by apply H, (short_app_l _ (qchar_meaning <$> l0)).
Qed.

(** The inside of a quoted string. *)
Lemma tokenize_qchar q x rest w tokens : valid_qchar q x → short w →
  tokenize_loop (qchar_text x ++ rest) (quote_mode q) w tokens =
    if decide (short (w ++ [qchar_meaning x])) then tokenize_loop rest (quote_mode q) (w ++ [qchar_meaning x]) tokens else Err Panicked.
Proof.
  intros Hx Hw. destruct x as [c|c]; cbn [qchar_text qchar_meaning app].
  - destruct Hx as [H1 H2]. destruct q; cbn [quote_char quote_mode tokenize_loop] in *;
      rewrite (proj2 (Z.eqb_neq c _) H1), (proj2 (Z.eqb_neq c _) H2); by apply put_char_short.
  - destruct q; cbn [quote_mode tokenize_loop Z.eqb Pos.eqb]; by apply put_char_short.
Qed.

Lemma tokenize_quoted q l rest w tokens : Forall (valid_qchar q) l → short w →
  tokenize_loop ((l ≫= qchar_text) ++ rest) (quote_mode q) w tokens =
    if decide (short (w ++ (qchar_meaning <$> l))) then tokenize_loop rest (quote_mode q) (w ++ (qchar_meaning <$> l)) tokens else Err Panicked.
Proof.
  intros Hv. revert w. induction Hv as [|x l Hx Hl IH]; intros w Hw.
  { cbn. rewrite app_nil_r. by rewrite decide_True. }
  cbn [mbind list_bind]. rewrite <-(assoc_L (++)), tokenize_qchar by done. cbn [fmap list_fmap].
  replace (w ++ qchar_meaning x :: (qchar_meaning <$> l)) with ((w ++ [qchar_meaning x]) ++ (qchar_meaning <$> l)) by (by rewrite <-(assoc_L (++))).
  destruct (decide (short (w ++ [qchar_meaning x]))) as [Hs|Hs].
  - by apply IH.
  - rewrite decide_False; [done|]. intros H. by apply Hs, (short_app_l _ (qchar_meaning <$> l)).
Qed.

Lemma tokenize_quote_open q rest w tokens : short w →
  tokenize_loop (quote_char q :: rest) MODE_NORMAL w tokens = tokenize_loop rest (quote_mode q) w tokens.
Proof. intros H. destruct q; cbn [quote_char tokenize_loop Z.eqb Pos.eqb quote_mode]; by rewrite check_size_short. Qed.
Lemma tokenize_quote_close q rest w tokens : short w →
  tokenize_loop (quote_char q :: rest) (quote_mode q) w tokens = tokenize_loop rest MODE_NORMAL w tokens.
Proof. intros H. destruct q; cbn [quote_char tokenize_loop Z.eqb Pos.eqb quote_mode]; by rewrite check_size_short. Qed.

(** The end of the line. *)
Lemma tokenize_ending e w tokens : valid_ending e → short w → chars w → chars (ending_text e) →
  finished (tokenize_loop (ending_text e) MODE_NORMAL w tokens) =
    if decide (short (w ++ ending_meaning e)) then Ok (tokens ++ word (w ++ ending_meaning e)) else Err Panicked.
Proof.
  intros He Hw Hc Hce. destruct e as [| |q l b]; cbn [ending_text ending_meaning].
  - rewrite app_nil_r, decide_True by done. cbn. by rewrite end_word_word.
  - rewrite app_nil_r, decide_True by done. cbn [tokenize_loop Z.eqb Pos.eqb]. rewrite check_size_short by done. cbn. by rewrite end_word_word.
  - rewrite tokenize_quote_open by done. rewrite tokenize_quoted by done. case_decide as Hs; [|done].
    assert (Hcw : chars (w ++ (qchar_meaning <$> l))).
    { apply Forall_app. split; [done|]. cbn [ending_text] in Hce. apply Forall_cons in Hce as [_ Hce]. apply Forall_app in Hce as [Hce _].
      clear -Hce. induction l as [|x l IH]; [done|]. cbn [mbind list_bind] in Hce. apply Forall_app in Hce as [H1 H2]. constructor; [|by apply IH].
      destruct x; cbn in H1 |- *; [by apply Forall_cons in H1 as [? _]|]. apply Forall_cons in H1 as [_ H1]. by apply Forall_cons in H1 as [? _]. }
    set (w' := w ++ _) in *.
    assert (E : tokenize_loop (if b then [92] else []) (quote_mode q) w' tokens = Ok (w', tokens)).
    { destruct b, q; cbn [tokenize_loop quote_mode Z.eqb Pos.eqb]; rewrite ?check_size_short; done. }
    rewrite E. cbn. by rewrite end_word_word.
Qed.

Definition item_meaning (x : item) : option (list Z) :=
  match x with
  | Space _ => None
  | Plain c | Esc c => Some [c]
  | Quoted _ l => Some (qchar_meaning <$> l)
  end.

Lemma tokenize_item x m rest w tokens : valid_item x → item_meaning x = Some m → short w →
  tokenize_loop (item_text x ++ rest) MODE_NORMAL w tokens =
    if decide (short (w ++ m)) then tokenize_loop rest MODE_NORMAL (w ++ m) tokens else Err Panicked.
Proof.
  intros Hv Hm Hw. destruct x as [c|c|c|q l]; cbn [item_meaning] in Hm; [done|injection Hm as <-..]; cbn [item_text app].
  - destruct Hv as [Hs Hc]. cbn [tokenize_loop].
    rewrite (proj2 (Z.eqb_neq c 39)), (proj2 (Z.eqb_neq c 34)), (proj2 (Z.eqb_neq c 92)), Hs by (intros ->; apply Hc; set_solver). by apply put_char_short.
  - cbn [tokenize_loop Z.eqb Pos.eqb]. by apply put_char_short.
  - rewrite <-(assoc_L (++)), tokenize_quote_open, tokenize_quoted by done. case_decide as Hs; [|done]. cbn [app]. by apply tokenize_quote_close.
Qed.

Lemma words_of_item x m w l e : item_meaning x = Some m → words_of w (x :: l) e = words_of (w ++ m) l e.
Proof. destruct x; cbn [item_meaning]; [done|intros [= <-]; done..]. Qed.

Lemma item_meaning_chars x m : item_meaning x = Some m → chars (item_text x) → chars m.
Proof.
  destruct x as [c|c|c|q l]; cbn [item_meaning item_text]; [done|intros [= <-]..].
  - done.
  - intros [_ H]%Forall_cons. done.
  - intros [_ [H _]%Forall_app]%Forall_cons. induction l as [|x l IH]; [done|]. cbn [mbind list_bind] in H. apply Forall_app in H as [H1 H2].
    constructor; [|by apply IH]. destruct x; cbn in H1 |- *; [by apply Forall_cons in H1 as [? _]|]. apply Forall_cons in H1 as [_ H1]. by apply Forall_cons in H1 as [? _].
Qed.

Lemma space_not_special c : isspace c = true → c ∉ [39; 34; 92].
Proof. intros H Hc. repeat (apply elem_of_cons in Hc as [-> | Hc]; [done|]). by apply not_elem_of_nil in Hc. Qed.

Lemma word_short w : short w → Forall short (word w).
Proof. intros H. unfold word. case_decide; [done|]. by apply Forall_singleton. Qed.

Lemma tokenize_items l e w tokens : Forall valid_item l → valid_ending e → short w → chars w → chars (line_text l e) →
  finished (tokenize_loop (line_text l e) MODE_NORMAL w tokens) =
    if decide (Forall short (words_of w l e)) then Ok (tokens ++ words_of w l e) else Err Panicked.
Proof.
  intros Hl He. revert w tokens. unfold line_text. induction Hl as [|x l Hx Hl IH]; intros w tokens Hw Hc Ht.
  { cbn [mbind list_bind app words_of] in *. rewrite tokenize_ending by done. case_decide as Hs.
    - rewrite decide_True; [done|]. by apply word_short.
    - rewrite decide_False; [done|]. by apply word_long. }
  cbn [mbind list_bind] in *. rewrite <-(assoc_L (++)) in *. apply Forall_app in Ht as [Hcx Ht]. destruct (item_meaning x) as [m|] eqn:Em.
  - rewrite (tokenize_item x m), (words_of_item x m) by done. destruct (decide (short (w ++ m))) as [Hs|Hs].
    + apply IH; [done| |done]. apply Forall_app. split; [done|]. by apply (item_meaning_chars x).
    + rewrite decide_False; [done|]. by apply words_of_long.
  - destruct x as [c|c|c|q q']; try done. cbn [item_text app tokenize_loop words_of]. cbn in Hx. pose proof (space_not_special c Hx) as Hn.
    rewrite (proj2 (Z.eqb_neq c 39)), (proj2 (Z.eqb_neq c 34)), (proj2 (Z.eqb_neq c 92)), Hx by (intros ->; apply Hn; set_solver).
    rewrite check_size_short by done. rewrite IH by (done || constructor). rewrite end_word_word by done.
    destruct (decide (Forall short (words_of [] l e))) as [Hs|Hs].
    + rewrite decide_True; [by rewrite (assoc_L (++))|]. apply Forall_app. split; [by apply word_short|done].
    + rewrite decide_False; [done|]. intros [_ H]%Forall_app. done.
Qed.

(** Every line is one of the language. *)
Lemma quoted_split q line : 
  (∃ l rest, Forall (valid_qchar q) l ∧ line = (l ≫= qchar_text) ++ quote_char q :: rest) ∨
  (∃ l (b : bool), Forall (valid_qchar q) l ∧ line = (l ≫= qchar_text) ++ if b then [92] else []).
Proof.
  induction (Nat.lt_wf_0_projected length line) as [line _ IH]. destruct line as [|c line]; [right; by exists [], false|].
  destruct (decide (c = quote_char q)) as [->|Hq]; [left; by exists [], line|].
  destruct (decide (c = 92)) as [->|Hb].
  - destruct line as [|d line]; [right; by exists [], true|].
    destruct (IH line) as [(l & rest & Hl & ->) | (l & b & Hl & ->)]; [cbn; lia|left; exists (QEsc d :: l), rest|right; exists (QEsc d :: l), b]; by split; [constructor|].
  - destruct (IH line) as [(l & rest & Hl & ->) | (l & b & Hl & ->)]; [cbn; lia|left; exists (Q c :: l), rest|right; exists (Q c :: l), b]; by split; [constructor|].
Qed.

Lemma line_split line : ∃ l e, Forall valid_item l ∧ valid_ending e ∧ line = line_text l e.
Proof.
  induction (Nat.lt_wf_0_projected length line) as [line _ IH]. destruct line as [|c line]; [by exists [], Done|].
  assert (Hstep : ∀ x rest, c :: line = item_text x ++ rest → valid_item x → (length rest < length (c :: line))%nat →
    ∃ l e, Forall valid_item l ∧ valid_ending e ∧ c :: line = line_text l e).
  { intros x rest E Hx Hlt. destruct (IH rest Hlt) as (l & e & Hl & He & ->). rewrite E. exists (x :: l), e. split; [by constructor|]. split; [done|].
    unfold line_text. cbn [mbind list_bind]. by rewrite <-(assoc_L (++)). }
  assert (Hquote : ∀ q, c = quote_char q → ∃ l e, Forall valid_item l ∧ valid_ending e ∧ c :: line = line_text l e).
  { intros q ->. destruct (quoted_split q line) as [(l & rest & Hl & ->) | (l & b & Hl & ->)].
    - apply (Hstep (Quoted q l) rest); [cbn; by rewrite <-(assoc_L (++))|done|]. cbn. rewrite length_app. cbn. lia.
    - exists [], (Unclosed q l b). done. }
  destruct (decide (c = 39)) as [->|H1]; [by apply (Hquote Single)|]. destruct (decide (c = 34)) as [->|H2]; [by apply (Hquote Double)|].
  destruct (decide (c = 92)) as [->|H3].
  - destruct line as [|d line]; [by exists [], Backslash|]. apply (Hstep (Esc d) line); [done..|cbn; lia].
  - destruct (isspace c) eqn:Hs; [apply (Hstep (Space c) line); [done..|cbn; lia]|].
    apply (Hstep (Plain c) line); [done| |cbn; lia]. split; [done|]. set_solver.
Qed.

(** C27: The tokenizer.  Every line is a sequence of white space, plain and
    escaped characters and quoted strings, possibly ending with a backslash or
    in an open quoted string, and the tokenizer returns its words: the
    characters between white space with quotes and backslashes removed, where
    there are any.  It aborts exactly when a word has more than 4094 bytes; the
    buffer of a word never overflows. *)
Theorem tokenize_correct line : chars line → ∃ l e, Forall valid_item l ∧ valid_ending e ∧ line = line_text l e ∧
  let ws := words_of [] l e in
  tokenize (Some line) = if decide (Forall (λ w, len w ≤ 4094) ws) then Ok (Some ws) else Err Panicked.
Proof.
  intros Hc. destruct (line_split line) as (l & e & Hl & He & ->). exists l, e. split; [done|]. split; [done|]. split; [done|]. cbv zeta.
  pose proof (tokenize_items l e [] [] Hl He ltac:(done) ltac:(by constructor) Hc) as H. unfold finished in H. unfold tokenize.
  destruct (tokenize_loop _ _ _ _) as [r|f]; cbn [mbind result_bind] in *; (destruct (decide (Forall short _)) as [Hs|Hs];
    [rewrite decide_True by (eapply Forall_impl; [done|]; unfold short, n_max; intros; lia); cbn [app] in H; congruence
    |rewrite decide_False by (intros Hn; apply Hs; eapply Forall_impl; [done|]; unfold short, n_max; intros; lia); congruence]).
Qed.

(** A word written so that the tokenizer returns it: every character escaped. *)
Definition escaped (w : list Z) : list Z := w ≫= λ c, [92; c].
Definition command_line (ws : list (list Z)) : list Z := ws ≫= λ w, escaped w ++ [32].

Definition escaped_items (ws : list (list Z)) : list item := ws ≫= λ w, (Esc <$> w) ++ [Space 32].

Lemma escaped_text w : ((Esc <$> w) ≫= item_text) = escaped w.
Proof. unfold escaped. induction w as [|c w IH]; [done|]. cbn [fmap list_fmap mbind list_bind item_text] in *. by rewrite IH. Qed.

Lemma words_of_escaped v w l : words_of v ((Esc <$> w) ++ l) Done = words_of (v ++ w) l Done.
Proof.
  revert v. induction w as [|c w IH]; intros v; [by rewrite app_nil_r|]. cbn [fmap list_fmap app words_of]. rewrite IH. by rewrite <-(assoc_L (++)).
Qed.

Lemma words_of_escaped_items ws : Forall (λ w, w ≠ []) ws → words_of [] (escaped_items ws) Done = ws.
Proof.
  unfold escaped_items. induction 1 as [|w ws Hw Hws IH]; [done|]. cbn [mbind list_bind]. rewrite <-(assoc_L (++)), words_of_escaped.
  cbn [app words_of]. unfold word. rewrite decide_False by done. cbn [app]. by rewrite IH.
Qed.

Lemma escaped_items_text ws : line_text (escaped_items ws) Done = command_line ws.
Proof.
  unfold line_text, escaped_items, command_line. cbn [ending_text]. rewrite app_nil_r. induction ws as [|w ws IH]; [done|].
  cbn [mbind list_bind]. rewrite !bind_app, escaped_text, IH. cbn [mbind list_bind item_text]. done.
Qed.

(** Words survive the tokenizer: a line in which every character of every
    word is escaped has exactly these words, if none is empty or longer than
    4094 bytes. *)
Theorem tokenize_escaped ws : Forall (λ w, w ≠ [] ∧ chars w ∧ len w ≤ 4094) ws →
  tokenize (Some (command_line ws)) = Ok (Some ws).
Proof.
  intros H. assert (Hne : Forall (λ w, w ≠ []) ws) by (eapply Forall_impl; [exact H|naive_solver]).
  assert (Hs : Forall short ws) by (eapply Forall_impl; [exact H|]; unfold short, n_max; intros w (_ & _ & ?); cbn in *; lia).
  assert (Hc : chars (line_text (escaped_items ws) Done)).
  { rewrite escaped_items_text. unfold command_line. clear -H. induction H as [|w ws (_ & Hw & _) Hws IH]; [constructor|]. cbn [mbind list_bind].
    apply Forall_app. split; [|done]. apply Forall_app. split; [|by repeat constructor]. unfold escaped. clear -Hw.
    induction Hw as [|c w Hc Hw IH]; [constructor|]. cbn [mbind list_bind app]. constructor; [lia|]. by constructor. }
  assert (Hv : Forall valid_item (escaped_items ws)).
  { unfold escaped_items. clear. induction ws as [|w ws IH]; [constructor|]. cbn [mbind list_bind]. apply Forall_app. split; [|done].
    apply Forall_app. split; [|by repeat constructor]. induction w; by constructor. }
  pose proof (tokenize_items (escaped_items ws) Done [] [] Hv I ltac:(done) ltac:(by constructor) Hc) as E.
  rewrite words_of_escaped_items, decide_True in E by done. rewrite escaped_items_text in E. unfold finished in E. unfold tokenize.
  destruct (tokenize_loop _ _ _ _); cbn [mbind result_bind app] in *; congruence.
Qed.

(** ** The shell *)

(** Calls to the operating system, with their arguments. *)
Inductive call :=
  | Printf (s : list Z)
  | Prompt (line_num : Z)
  | Chdir (path : option (list Z))
  | Fork
  | Wait
  | Open (path : option (list Z)) (flags : Z)
  | Dup2 (fd fd2 : Z)
  | Close (fd : Z)
  | Execv (args : list (list Z)) (path : list Z).

(** What becomes of the process: it reads the next line, has exited, or runs
    another program.  [Piped] stands for the branch that is left out. *)
Inductive fate := Next | Exited | Running (path : list Z) (args : list (list Z)) | Piped.

(** The process: its calls so far, and the value of PATH in its environment. *)
Record process := mk_process { trace : list call; env_path : option (list Z) }.
Definition set_env_path (x : option (list Z)) (s : process) : process := mk_process (trace s) x.

Section shell.
(** The result of the last call of a list of calls. *)
Context (os : list call → Z).
(** Whether [execv] can run a program; if so it does not return. *)
Context (runs : list Z → list (list Z) → bool).
Context (cwd : list Z) (shell_is_interactive : bool).

Definition do_call (c : call) : M process Z := λ s,
  let tr := trace s ++ [c] in Ok (os tr, mk_process tr (env_path s)).

(** *** Built-in commands *)

Inductive builtin := cmd_help | cmd_exit | cmd_pwd | cmd_cd.
Definition cmd_table : list (builtin * list Z * list Z) :=
  [(cmd_help, text "?", text "show this help menu");
   (cmd_exit, text "exit", text "exit the command shell");
   (cmd_pwd, text "pwd", text "print current working directory");
   (cmd_cd, text "cd", text "change working directory")].

Fixpoint lookup_loop (table : list (builtin * list Z * list Z)) (i : Z) (cmd : list Z) : Z :=
  match table with
  | [] => -1
  | (_, name, _) :: table => if decide (name = cmd) then i else lookup_loop table (i + 1) cmd
  end.
Definition lookup (cmd : option (list Z)) : Z :=
  match cmd with Some cmd => lookup_loop cmd_table 0 cmd | None => -1 end.

Fixpoint print_help (table : list (builtin * list Z * list Z)) : M process unit :=
  match table with
  | [] => mret tt
  | (_, name, doc) :: table => do_call (Printf (name ++ text " - " ++ doc ++ [10])) ;; print_help table
  end.

Definition run_builtin (b : builtin) (tokens : option (list (list Z))) : M process fate :=
  match b with
  | cmd_help => print_help cmd_table ;; mret Next
  | cmd_exit => mret Exited
  | cmd_pwd => do_call (Printf (cwd ++ [10])) ;; mret Next
  | cmd_cd => do_call (Chdir (tokens_get_token tokens 1)) ;; mret Next
  end.

(** *** Running a program *)

(** [*s] for a string [s]. *)
Definition first_char (s : list Z) : Z := default 0 (head s).

(** The arguments and the redirections; a file name may be missing. *)
Record command := mk_command { rest_of_args : list (list Z); outfile : option (option (list Z)); infile : option (option (list Z)) }.

Fixpoint parse_args (tokens : list (list Z)) (c : command) : command :=
  match tokens with
  | [] => c
  | t :: rest =>
      if first_char t =? 62 then
        let c := mk_command (rest_of_args c) (Some (head rest)) (infile c) in
        match rest with [] => c | _ :: rest => parse_args rest c end
      else if first_char t =? 60 then
        let c := mk_command (rest_of_args c) (outfile c) (Some (head rest)) in
        match rest with [] => c | _ :: rest => parse_args rest c end
      else parse_args rest (mk_command (rest_of_args c ++ [t]) (outfile c) (infile c))
  end.

(** [O_CREAT | O_RDWR | O_TRUNC] and [O_RDONLY]. *)
Definition OUT_FLAGS : Z := 64 + 2 + 512.
Definition IN_FLAGS : Z := 0.

Definition redirect (file : option (option (list Z))) (flags target : Z) : M process unit :=
  match file with
  | None => mret tt
  | Some file => fd ← do_call (Open file flags); do_call (Dup2 fd target) ;; do_call (Close fd) ;; mret tt
  end.

(** The strings that [strtok_r] returns one after the other. *)
Fixpoint strtok_all (delimiter : Z) (word s : list Z) : list (list Z) :=
  let ends := if decide (word = []) then [] else [word] in
  match s with
  | [] => ends
  | c :: s => if c =? delimiter then ends ++ strtok_all delimiter [] s else strtok_all delimiter (word ++ [c]) s
  end.

(** What is left of the string after the first [strtok_r]: the delimiter after
    the first word is overwritten with a null byte. *)
Fixpoint strtok_cut (delimiter : Z) (in_word : bool) (s : list Z) : list Z :=
  match s with
  | [] => []
  | c :: s =>
      if c =? delimiter then if in_word then [] else c :: strtok_cut delimiter false s
      else c :: strtok_cut delimiter true s
  end.

(** [execv]: whether the process has become another program. *)
Definition execv (path : list Z) (args : list (list Z)) : M process bool :=
  do_call (Execv args path) ;; mret (runs path args).

(** Writing [dir/program] to an array of 2048 bytes. *)
Definition make_full_path (dir program : list Z) : result (list Z) :=
  if len dir + 1 + len program + 1 <=? 2048 then Ok (dir ++ [47] ++ program) else Err BadAccess.

Fixpoint path_loop (dirs : list (list Z)) (program : option (list Z)) (args : list (list Z)) : M process (option (list Z)) :=
  match dirs with
  | [] => mret None
  | dir :: dirs =>
      match program with
      | None => throw BadAccess
      | Some program =>
          done ← (if first_char program =? 47 then execv program args else mret false);
          if (done : bool) then mret (Some program) else
          match make_full_path dir program with
          | Err f => throw f
          | Ok full_path =>
              done ← execv full_path args;
              if (done : bool) then mret (Some full_path) else path_loop dirs (Some program) args
          end
      end
  end.

Definition count_pipes (tokens : list (list Z)) : Z := len (filter (λ t, first_char t = 124) tokens).

(** The child: it returns only if no program could be run.  [getenv] returns
    the string in the environment, and [strtok_r] writes to it before the first
    program is tried: that program, and the child itself from then on, have a
    PATH that ends after its first directory. *)
Definition child (tokens : list (list Z)) : M process (option (list Z * list (list Z))) :=
  let c := parse_args tokens (mk_command [] None None) in
  redirect (outfile c) OUT_FLAGS 1 ;;
  redirect (infile c) IN_FLAGS 0 ;;
  PATH ← gets env_path;
  match PATH with
  | None => throw BadAccess
  | Some path =>
      modify (set_env_path (Some (strtok_cut 58 false path))) ;;
      r ← path_loop (strtok_all 58 [] path) (head tokens) (rest_of_args c);
      mret ((λ p, (p, rest_of_args c)) <$> r)
  end.

Definition prompt (line_num : Z) : M process unit :=
  when shell_is_interactive (do_call (Prompt line_num) ;; mret tt).

(** One round of the loop of [main]. *)
Definition run_line (line : list Z) (line_num : Z) : M process fate := λ s,
  match tokenize (Some line) with
  | Err f => Err f
  | Ok tokens =>
      (let fundex := lookup (tokens_get_token tokens 0) in
       if 0 <=? fundex then
         match cmd_table !! Z.to_nat fundex with
         | Some (b, _, _) =>
             f ← run_builtin b tokens;
             match f with Next => prompt (line_num + 1) ;; mret Next | f => mret f end
         | None => throw BadAccess
         end
       else
         let tokens := default [] tokens in
         if negb (count_pipes tokens =? 0) then mret Piped else
         child_pid ← do_call Fork;
         r ← (if child_pid =? 0 then child tokens else do_call Wait ;; mret None);
         match r with
         | Some (path, args) => mret (Running path args)
         | None => do_call Wait ;; prompt (line_num + 1) ;; mret Next
         end) s
  end.

(** The loop of [main] on the lines that [fgets] returns. *)
Fixpoint main_loop (lines : list (list Z)) (line_num : Z) : M process fate :=
  match lines with
  | [] => mret Exited
  | line :: lines =>
      f ← run_line line line_num;
      match f with Next => main_loop lines (line_num + 1) | f => mret f end
  end.
Definition main (lines : list (list Z)) : M process fate := prompt 0 ;; main_loop lines 0.

(** *** The command of a line *)

Inductive part := Arg (w : list Z) | Out (t file : list Z) | In (t file : list Z).
Definition part_tokens (p : part) : list (list Z) := match p with Arg w => [w] | Out t f | In t f => [t; f] end.
Definition valid_part (p : part) : Prop :=
  match p with Arg w => first_char w ∉ [60; 62; 124] | Out t _ => first_char t = 62 | In t _ => first_char t = 60 end.
Definition part_args (p : part) : list (list Z) := match p with Arg w => [w] | _ => [] end.
Definition part_out (p : part) : list (list Z) := match p with Out _ f => [f] | _ => [] end.
Definition part_in (p : part) : list (list Z) := match p with In _ f => [f] | _ => [] end.

Lemma parse_args_parts ps c : Forall valid_part ps →
  parse_args (ps ≫= part_tokens) c =
    mk_command (rest_of_args c ++ (ps ≫= part_args)) (from_option (Some ∘ Some) (outfile c) (last (ps ≫= part_out)))
      (from_option (Some ∘ Some) (infile c) (last (ps ≫= part_in))).
Proof.
  intros H. revert c. induction H as [|p ps Hp Hps IH]; intros c; [destruct c; cbn; by rewrite app_nil_r|].
  destruct p as [w|t f|t f]; cbn [mbind list_bind part_tokens part_args part_out part_in app parse_args].
  - cbn in Hp. rewrite (proj2 (Z.eqb_neq _ 62)), (proj2 (Z.eqb_neq _ 60)) by set_solver. rewrite IH. cbn [rest_of_args outfile infile].
    by rewrite <-(assoc_L (++)).
  - cbn in Hp. rewrite Hp. change (62 =? 62) with true. cbn [head]. rewrite IH. cbn [rest_of_args outfile infile].
    rewrite last_cons. destruct (last _); done.
  - cbn in Hp. rewrite Hp. change (60 =? 62) with false. change (60 =? 60) with true. cbn [head]. rewrite IH. cbn [rest_of_args outfile infile].
    rewrite (last_cons _ (ps ≫= part_in)). destruct (last (ps ≫= part_in)); done.
Qed.

(** The calls of a redirection after the calls [tr]. *)
Definition redirected (file : option (list Z)) (flags target : Z) (tr : list call) : list call :=
  match file with
  | None => tr
  | Some f => let fd := os (tr ++ [Open (Some f) flags]) in tr ++ [Open (Some f) flags; Dup2 fd target; Close fd]
  end.

Lemma redirect_run file flags target tr path :
  redirect (Some <$> file) flags target (mk_process tr path) = Ok (tt, mk_process (redirected file flags target tr) path).
Proof.
  destruct file; [|done]. cbn [fmap option_fmap option_map]. unfold redirect, redirected, do_call, mbind, M_bind, mret, M_ret. cbn [trace env_path].
  by rewrite <-!(assoc_L (++)).
Qed.

(** The programs that are tried, in order. *)
Definition attempts (dirs : list (list Z)) (program : list Z) : list (list Z) :=
  dirs ≫= λ d, (if decide (first_char program = 47) then [program] else []) ++ [d ++ [47] ++ program].

Definition fits (program dir : list Z) : Prop := len dir + 1 + len program < 2048.

Lemma path_loop_run dirs program args tr path : Forall (fits program) dirs →
  path_loop dirs (Some program) args (mk_process tr path) =
    match list_find (λ p, runs p args) (attempts dirs program) with
    | Some (k, p) => Ok (Some p, mk_process (tr ++ (Execv args <$> take (S k) (attempts dirs program))) path)
    | None => Ok (None, mk_process (tr ++ (Execv args <$> attempts dirs program)) path)
    end.
Proof.
  intros H. revert tr. induction H as [|d dirs Hd Hdirs IH]; intros tr; [cbn; by rewrite app_nil_r|].
  unfold attempts in *. cbn [mbind list_bind path_loop]. unfold make_full_path, fits in *. rewrite (proj2 (Z.leb_le _ 2048)) by lia.
  set (full := d ++ [47] ++ program). set (rest := dirs ≫= _) in *.
  assert (Hfull : ∀ tr, (done ← execv full args; if (done : bool) then mret (Some full) else path_loop dirs (Some program) args) (mk_process tr path) =
    match list_find (λ p, runs p args) (full :: rest) with
    | Some (k, p) => Ok (Some p, mk_process (tr ++ (Execv args <$> take (S k) (full :: rest))) path)
    | None => Ok (None, mk_process (tr ++ (Execv args <$> full :: rest)) path)
    end).
  { intros tr'. unfold execv, do_call. unfold mbind at 1, M_bind at 1. cbn [mbind M_bind mret M_ret trace env_path]. cbn [list_find].
    destruct (runs full args) eqn:E; [rewrite decide_True by done; done|]. destruct (decide false) as [[]|_]. unfold mbind, M_bind, mret, M_ret.
    rewrite IH. destruct (list_find _ rest) as [[k p]|]; cbn [fmap option_fmap option_map prod_map]; rewrite <-(assoc_L (++)); done. }
  destruct (decide (first_char program = 47)) as [E|E].
  - rewrite E. change (47 =? 47) with true. cbn [app]. remember (full :: rest) as more eqn:Emore. clear Emore. unfold mbind at 1, M_bind at 1. unfold execv at 1, do_call at 1. cbn [mbind M_bind mret M_ret trace env_path].
    cbn [list_find]. destruct (runs program args) eqn:Er; [rewrite decide_True by done; done|]. destruct (decide false) as [[]|_].
    etransitivity; [apply (Hfull (tr ++ [Execv args program]))|]. destruct (list_find _ more) as [[k p]|]; cbn [fmap option_fmap option_map prod_map]; rewrite <-(assoc_L (++)); done.
  - rewrite (proj2 (Z.eqb_neq _ 47)) by done. cbn [app]. unfold mbind at 1, M_bind at 1. cbn [mret M_ret]. apply Hfull.
Qed.

Definition prompt_calls (line_num : Z) : list call := if shell_is_interactive then [Prompt line_num] else [].

(** C29: A line that is neither a built-in command nor a pipeline, in the child
    process, when PATH is set and each of its directories fits into the array
    of 2048 bytes for the path, with a slash, the first word and the null byte.
    The words are arguments and redirections; the child opens the last output
    and the last input file that is named and makes it the standard output and
    input, then tries to run the program with the arguments: as it is if it
    begins with a slash, and in each directory of PATH, in this order, up to
    the first that can be run.  The program that is run, and the child if none
    can be run, find PATH cut after its first directory in their environment.
    If none can be run, the child goes on to the next line, with that PATH:
    from then on two shells read the input. *)
Theorem child_runs_command line line_num tr program ps path :
  let tokens := program :: (ps ≫= part_tokens) in
  tokenize (Some line) = Ok (Some tokens) → lookup (Some program) = -1 → first_char program ∉ [60; 62; 124] → Forall valid_part ps → count_pipes tokens = 0 →
  Forall (fits program) (strtok_all 58 [] path) → os (tr ++ [Fork]) = 0 →
  let args := program :: (ps ≫= part_args) in
  let tried := attempts (strtok_all 58 [] path) program in
  let tr' := redirected (last (ps ≫= part_in)) IN_FLAGS 0 (redirected (last (ps ≫= part_out)) OUT_FLAGS 1 (tr ++ [Fork])) in
  let cut := Some (strtok_cut 58 false path) in
  run_line line line_num (mk_process tr (Some path)) =
    match list_find (λ p, runs p args) tried with
    | Some (k, p) => Ok (Running p args, mk_process (tr' ++ (Execv args <$> take (S k) tried)) cut)
    | None => Ok (Next, mk_process (tr' ++ (Execv args <$> tried) ++ Wait :: prompt_calls (line_num + 1)) cut)
    end.
Proof.
  intros tokens Ht Hl Hp Hps Hpipes Hfit Hfork args tried tr' cut. unfold run_line. rewrite Ht.
  replace (tokens_get_token (Some tokens) 0) with (Some program) by done. rewrite Hl. change (0 <=? -1) with false. cbn [default from_option id].
  rewrite Hpipes. change (negb (0 =? 0)) with false. cbn iota. unfold mbind at 1, M_bind at 1. unfold do_call at 1. cbn [trace env_path]. rewrite Hfork. change (0 =? 0) with true. cbn iota.
  assert (Hparse : parse_args tokens (mk_command [] None None) = mk_command args (Some <$> last (ps ≫= part_out)) (Some <$> last (ps ≫= part_in))).
  { change tokens with ((Arg program :: ps) ≫= part_tokens). rewrite parse_args_parts by (by constructor).
    cbn [mbind list_bind part_args part_out part_in app rest_of_args outfile infile]. f_equal; by destruct (last _). }
  assert (Hchild : child tokens (mk_process (tr ++ [Fork]) (Some path)) = match list_find (λ p, runs p args) tried with
    | Some (k, p) => Ok (Some (p, args), mk_process (tr' ++ (Execv args <$> take (S k) tried)) cut)
    | None => Ok (None, mk_process (tr' ++ (Execv args <$> tried)) cut) end).
  { unfold child. rewrite Hparse. cbn [rest_of_args outfile infile]. unfold mbind at 1, M_bind at 1. rewrite redirect_run.
    unfold mbind at 1, M_bind at 1. rewrite redirect_run. unfold mbind at 1, M_bind at 1, gets. cbn [env_path]. unfold mbind at 1, M_bind at 1, modify, set_env_path. cbn [trace].
    unfold mbind at 1, M_bind at 1. unfold tokens at 1. cbn [head]. rewrite path_loop_run by done.
    fold tried tr' cut. by destruct (list_find _ tried) as [[k p]|]. }
  unfold mbind at 1, M_bind at 1. rewrite Hchild. destruct (list_find _ tried) as [[k p]|]; [done|].
  unfold prompt_calls, prompt, do_call. unfold when, mbind, M_bind, mret, M_ret. cbn [trace env_path]. destruct shell_is_interactive; cbn [trace env_path]; rewrite <-?(assoc_L (++)); done.
Qed.

(** A directory of PATH and a program with together 2047 bytes or more overflow
    the array that holds the path. *)
Theorem long_path_overflows dir dirs program args s : first_char program ≠ 47 → 2047 ≤ len dir + len program →
  path_loop (dir :: dirs) (Some program) args s = Err BadAccess.
Proof.
  intros Hf Hlen. cbn [path_loop]. rewrite (proj2 (Z.eqb_neq _ 47)) by done. unfold mbind, M_bind, make_full_path. cbn [mret M_ret].
  by rewrite (proj2 (Z.leb_gt _ _)) by lia.
Qed.

(** A blank line crashes the child that is started for it. *)
Theorem blank_line_crashes line line_num tr path d dirs : tokenize (Some line) = Ok (Some []) →
  strtok_all 58 [] path = d :: dirs → os (tr ++ [Fork]) = 0 → run_line line line_num (mk_process tr (Some path)) = Err BadAccess.
Proof.
  intros Ht Hd Hf. unfold run_line. rewrite Ht. change (tokens_get_token (Some []) 0) with (@None (list Z)). cbn [lookup]. change (0 <=? -1) with false. cbn [default from_option id].
  change (negb (count_pipes [] =? 0)) with false. cbn iota. unfold mbind at 1, M_bind at 1. unfold do_call at 1. cbn [trace env_path]. rewrite Hf. change (0 =? 0) with true. cbn iota.
  unfold mbind at 1, M_bind at 1. unfold child. cbn [parse_args outfile infile redirect]. unfold mbind, M_bind, gets, modify. cbn [mret M_ret env_path]. rewrite Hd. done.
Qed.

(** The first directory is all that is left of PATH. *)
Lemma strtok_cut_word w s : w ≠ [] → strtok_all 58 w (strtok_cut 58 true s) = take 1 (strtok_all 58 w s).
Proof.
  revert w. induction s as [|c s IH]; intros w Hw; cbn [strtok_cut]; [cbn; by rewrite decide_False|].
  cbn [strtok_all]. destruct (c =? 58) eqn:E; [cbn; by rewrite !decide_False|]. cbn [strtok_all]. rewrite E. apply IH. by destruct w.
Qed.

Lemma strtok_cut_first s : strtok_all 58 [] (strtok_cut 58 false s) = take 1 (strtok_all 58 [] s).
Proof.
  induction s as [|c s IH]; [done|]. cbn [strtok_cut]. destruct (c =? 58) eqn:E; cbn [strtok_all]; rewrite E; [apply IH|].
  by apply strtok_cut_word.
Qed.
End shell.

Definition example_os (tr : list call) : Z := match last tr with Some (Open _ _) => 3 | _ => 0 end.
Definition example_runs (path : list Z) (args : list (list Z)) : bool := bool_decide (path = text "/bin/sort").

Lemma child_runs_command_witness :
  run_line example_os example_runs [] true (text "sort -r > out 'a b' < in
") 4 (mk_process [] (Some (text "/usr/bin:/bin"))) = Ok (Running (text "/bin/sort") [text "sort"; text "-r"; text "a b"], mk_process
    [Fork; Open (Some (text "out")) OUT_FLAGS; Dup2 3 1; Close 3; Open (Some (text "in")) IN_FLAGS; Dup2 3 0; Close 3;
     Execv [text "sort"; text "-r"; text "a b"] (text "/usr/bin/sort"); Execv [text "sort"; text "-r"; text "a b"] (text "/bin/sort")] (Some (text "/usr/bin"))).
Proof.
  pose proof (child_runs_command example_os example_runs [] true (text "sort -r > out 'a b' < in
") 4 [] (text "sort") [Arg (text "-r"); Out (text ">") (text "out"); Arg (text "a b"); In (text "<") (text "in")] (text "/usr/bin:/bin")) as H.
  apply H; try reflexivity; cbn.
  - set_solver.
  - repeat constructor; cbn; set_solver.
  - repeat constructor.
Defined.

Lemma tokenize_correct_witness : chars (text "a 'b c'\ d") ∧ ∃ l e, Forall valid_item l ∧ valid_ending e ∧ text "a 'b c'\ d" = line_text l e ∧
  let ws := words_of [] l e in
  tokenize (Some (text "a 'b c'\ d")) = if decide (Forall (λ w, len w ≤ 4094) ws) then Ok (Some ws) else Err Panicked.
Proof.
  assert (H : chars (text "a 'b c'\ d")) by (apply (bool_decide_unpack (chars _)); vm_compute; done). split; [done|]. exact (tokenize_correct _ H).
Defined.

Lemma tokenize_escaped_witness : tokenize (Some (command_line [text "a b"; text "'"])) = Ok (Some [text "a b"; text "'"]).
Proof. apply (tokenize_escaped [text "a b"; text "'"]). repeat constructor; cbn; lia || done. Defined.

Example tokenize_empty_quotes : tokenize (Some (text "echo '' x")) = Ok (Some [text "echo"; text "x"]).
Proof. reflexivity. Qed.
