(* ===== verification/Http.v ===== *)
(** * The HTTP server ([hw-http/libhttp.c], [hw-http/httpserver.c])

    The parsing of a request, the text of a response and the handling of a
    request for a file.  Strings are lists of bytes without the terminating
    zero; [printf] is the one of [Stdio].  What [read] returns is an argument:
    the bytes, or nothing when it fails.  Allocation does not fail. *)
From Stdlib Require Import Strings.String.
From S2P Require Import Prelude Bytes CString CStdlib Stdio.
#[local] Open Scope Z_scope.

Module Libhttp.

Record http_request := mk_request { method : list Z; path : list Z }.

Definition LIBHTTP_REQUEST_MAX_SIZE : Z := 8192.

(** A loop that moves [read_end] over the characters that satisfy [P]. *)
Fixpoint span (P : Z → bool) (s : list Z) : list Z * list Z :=
  match s with
  | [] => ([], [])
  | c :: rest => if P c then let r := span P rest in (c :: r.1, r.2) else ([], s)
  end.

Definition is_upper (c : Z) : bool := (65 <=? c) && (c <=? 90).
Definition is_path_char (c : Z) : bool := negb (c =? 0) && negb (c =? 32) && negb (c =? 10).
Definition is_line_char (c : Z) : bool := negb (c =? 0) && negb (c =? 10).

Definition http_request_parse (bytes_read : option (list Z)) : result (option http_request) :=
  match bytes_read with
  | None => Err BadAccess  (* [read_buffer[-1] = 0] *)
  | Some data =>
      let read_buffer := take (Z.to_nat LIBHTTP_REQUEST_MAX_SIZE) data in
      let '(method, s) := span is_upper read_buffer in
      if len method =? 0 then Ok None else
      if negb (cur s =? 32) then Ok None else
      let '(path, s) := span is_path_char (tail s) in
      if len path =? 0 then Ok None else
      let '(_, s) := span is_line_char s in
      if negb (cur s =? 10) then Ok None else
      Ok (Some (mk_request method path))
  end.

Definition http_get_response_message (status_code : Z) : list Z :=
  if status_code =? 100 then text "Continue"
  else if status_code =? 200 then text "OK"
  else if status_code =? 301 then text "Moved Permanently"
  else if status_code =? 302 then text "Found"
  else if status_code =? 304 then text "Not Modified"
  else if status_code =? 400 then text "Bad Request"
  else if status_code =? 401 then text "Unauthorized"
  else if status_code =? 403 then text "Forbidden"
  else if status_code =? 404 then text "Not Found"
  else if status_code =? 405 then text "Method Not Allowed"
  else text "Internal Server Error".

(** The state is what has been written to the client. *)
Definition dprintf (format : list Z) (args : list arg) : M (list Z) unit := λ out,
  match format_text format args with Ok w => Ok (tt, out ++ w) | Err f => Err f end.

Definition http_start_response (status_code : Z) : M (list Z) unit :=
  dprintf (text "HTTP/1.0 %d %s" ++ [13; 10]) [Word (wrap32 status_code); Str (Some (http_get_response_message status_code))].
Definition http_send_header (key value : list Z) : M (list Z) unit := dprintf (text "%s: %s" ++ [13; 10]) [Str (Some key); Str (Some value)].
Definition http_end_headers : M (list Z) unit := dprintf [13; 10] [].

(** The string from the last occurrence of [c] on. *)
Fixpoint strrchr (s : list Z) (c : Z) : option (list Z) :=
  match s with
  | [] => None
  | d :: rest => match strrchr rest c with Some r => Some r | None => if d =? c then Some s else None end
  end.

Definition http_get_mime_type (file_name : list Z) : list Z :=
  match strrchr file_name 46 with
  | None => text "text/plain"
  | Some file_extension =>
      let ext s := bool_decide (file_extension = text s) in
      if ext ".html"%string || ext ".htm"%string then text "text/html"
      else if ext ".jpg"%string || ext ".jpeg"%string then text "image/jpeg"
      else if ext ".png"%string then text "image/png"
      else if ext ".css"%string then text "text/css"
      else if ext ".js"%string then text "application/javascript"
      else if ext ".pdf"%string then text "application/pdf"
      else text "text/plain"
  end.

(** The bytes that are stored in the buffer. *)
Definition href_format : list Z := text "<a href=" ++ [34] ++ text "/%s/%s" ++ [34] ++ text ">%s</a><br/>".
Definition href_frame : list Z := text "<a href=" ++ [34] ++ text "//" ++ [34] ++ text "></a><br/>".
Definition http_format_href (path filename : list Z) : result (list Z) :=
  let length := int32 (len href_frame + len path + len filename * 2 + 1) in
  match format_text href_format [Str (Some path); Str (Some filename); Str (Some filename)] with
  | Ok w => Ok (buffer_text length w)
  | Err f => Err f
  end.
Definition http_format_index (path : list Z) : result (list Z) :=
  let length := int32 (len path + len (text "/index.html") + 1) in
  match format_text (text "%s/index.html") [Str (Some path)] with
  | Ok w => Ok (buffer_text length w)
  | Err f => Err f
  end.

End Libhttp.
Import Libhttp.

Module Httpserver.

Definition serve_file (path : list Z) : M (list Z) unit :=
  http_start_response 200 ;;
  http_send_header (text "Content-Type") (http_get_mime_type path) ;;
  http_send_header (text "Content-Length") (text "0") ;;
  http_end_headers.

Definition serve_directory (path : list Z) : M (list Z) unit :=
  http_start_response 200 ;;
  http_send_header (text "Content-Type") (http_get_mime_type (text ".html")) ;;
  http_end_headers.

(** A response without a body. *)
Definition error_response (status_code : Z) : M (list Z) unit :=
  http_start_response status_code ;;
  http_send_header (text "Content-Type") (text "text/html") ;;
  http_end_headers.

(** The path that is looked up, if it gets that far. *)
Definition handle_files_request (bytes_read : option (list Z)) : M (list Z) (option (list Z)) :=
  match http_request_parse bytes_read with
  | Err f => throw f
  | Ok None => error_response 400 ;; mret None
  | Ok (Some request) =>
      if negb (cur (path request) =? 47) then error_response 400 ;; mret None
      else if bool_decide (is_Some (first_occurrence (path request) (text ".."))) then error_response 403 ;; mret None
      else mret (Some ([46; 47] ++ path request))
  end.

(** *** Options *)

Inductive handler := files_request | proxy_request.
Record config := mk_config {
  request_handler : option handler;
  server_port : Z;
  server_files_directory : option (list Z);
  server_proxy_hostname : option (list Z);
  server_proxy_port : Z;
  num_threads : Z
}.
Definition default_config : config := mk_config None 8000 None None 0 0.

Inductive started := Serve (c : config) | Usage (message : list Z).

Fixpoint atoi_digits (s : list Z) (value : Z) : Z :=
  match s with
  | c :: s => if isdigit c then atoi_digits s (value * 10 + (c - 48)) else value
  | [] => value
  end.
Fixpoint atoi (s : list Z) : Z :=
  match s with
  | c :: rest => if isspace c then atoi rest else if c =? 45 then int32 (- atoi_digits rest 0) else if c =? 43 then int32 (atoi_digits rest 0) else int32 (atoi_digits s 0)
  | [] => 0
  end.

(** The part of a string before the first [c], and the part behind it. *)
Fixpoint split_at (c : Z) (s : list Z) : list Z * option (list Z) :=
  match s with
  | [] => ([], None)
  | d :: s => if d =? c then ([], Some s) else let r := split_at c s in (d :: r.1, r.2)
  end.

Definition set_proxy (proxy_target : list Z) (c : config) : config :=
  let '(host, port) := split_at 58 proxy_target in
  mk_config (Some proxy_request) (server_port c) (server_files_directory c) (Some host) (match port with Some p => atoi p | None => 80 end) (num_threads c).

(** The loop over the arguments behind the name of the program. *)
Fixpoint parse_options (argv : list (list Z)) (c : config) : started :=
  match argv with
  | [] =>
      match server_files_directory c, server_proxy_hostname c with
      | None, None => Usage (text "Please specify either --files or --proxy")
      | _, _ => Serve c
      end
  | o :: rest =>
      let missing := Usage (text "Expected argument after " ++ o) in
      if decide (o = text "--files") then
        match rest with
        | d :: rest => parse_options rest (mk_config (Some files_request) (server_port c) (Some d) (server_proxy_hostname c) (server_proxy_port c) (num_threads c))
        | [] => missing
        end
      else if decide (o = text "--proxy") then match rest with t :: rest => parse_options rest (set_proxy t c) | [] => missing end
      else if decide (o = text "--port") then
        match rest with
        | p :: rest => parse_options rest (mk_config (request_handler c) (atoi p) (server_files_directory c) (server_proxy_hostname c) (server_proxy_port c) (num_threads c))
        | [] => missing
        end
      else if decide (o = text "--num-threads") then
        match rest with
        | n :: rest =>
            if atoi n <? 1 then Usage (text "Expected positive integer after --num-threads")
            else parse_options rest (mk_config (request_handler c) (server_port c) (server_files_directory c) (server_proxy_hostname c) (server_proxy_port c) (atoi n))
        | [] => Usage (text "Expected positive integer after --num-threads")
        end
      else if decide (o = text "--help") then Usage []
      else Usage (text "Unrecognized option: " ++ o)
  end.

End Httpserver.
Import Httpserver.

(** ** Requests *)

Lemma span_spec P s : s = (span P s).1 ++ (span P s).2 ∧ Forall (λ c, P c = true) (span P s).1 ∧
  (∀ c rest, (span P s).2 = c :: rest → P c = false).
Proof.
  induction s as [|c s IH]; cbn [span]; [split; [done|]; split; [constructor|done]|].
  destruct (P c) eqn:E; cbn [fst snd app].
  - destruct IH as (H1 & H2 & H3). split; [by rewrite <-H1|]. split; [by constructor|done].
  - split; [done|]. split; [constructor|]. by intros c' rest [= <- <-].
Qed.

Lemma span_prefix P s rest : Forall (λ c, P c = true) s → (∀ c r, rest = c :: r → P c = false) → span P (s ++ rest) = (s, rest).
Proof.
  intros Hs Hr. induction Hs as [|c s Hc Hs IH]; cbn [app span].
  - destruct rest as [|c rest]; [done|]. cbn [span]. by rewrite (Hr c rest).
  - by rewrite Hc, IH.
Qed.

Lemma len_zero {A} (l : list A) : (len l =? 0) = false ↔ l ≠ [].
Proof. rewrite Z.eqb_neq. destruct l; cbn; split; intros; [lia|done|done|lia]. Qed.

(** C30: The parser accepts exactly the requests that begin with a line of upper
    case letters, a space, a path without space, and anything up to the end of
    the line, within the first 8192 bytes and before any zero byte; it returns
    the method and the path.  Any other input is refused, and nothing is read
    behind the input. *)
Theorem http_request_parse_correct data request :
  http_request_parse (Some data) = Ok (Some request) ↔
  ∃ rest more, take (Z.to_nat LIBHTTP_REQUEST_MAX_SIZE) data = method request ++ [32] ++ path request ++ rest ++ [10] ++ more ∧
    method request ≠ [] ∧ path request ≠ [] ∧ Forall (λ c, is_upper c = true) (method request) ∧ Forall (λ c, is_path_char c = true) (path request) ∧
    Forall (λ c, is_line_char c = true) rest ∧ (rest = [] ∨ cur rest = 32).
Proof.
  unfold http_request_parse. set (b := take _ data). destruct request as [m p]; cbn [method path]. split.
  - destruct (span_spec is_upper b) as (E1 & Hm & _). destruct (span is_upper b) as [m' s1]. cbn [fst snd] in *.
    destruct (len m' =? 0) eqn:Em; [done|]. destruct (cur s1 =? 32) eqn:Es1; [|done]. cbn [negb].
    destruct (span_spec is_path_char (tail s1)) as (E2 & Hp & Hp'). destruct (span is_path_char (tail s1)) as [p' s2]. cbn [fst snd] in *.
    destruct (len p' =? 0) eqn:Ep; [done|]. destruct (span_spec is_line_char s2) as (E3 & Hr & _). destruct (span is_line_char s2) as [r s3]. cbn [fst snd] in *.
    destruct (cur s3 =? 10) eqn:Es3; [|done]. cbn [negb]. intros [= -> ->]. apply len_zero in Em, Ep. apply Z.eqb_eq in Es1, Es3.
    destruct s1 as [|c1 s1]; [done|]. cbn in Es1. subst c1. destruct s3 as [|c3 s3]; [done|]. cbn in Es3. subst c3. cbn [tail] in E2.
    exists r, s3. split; [rewrite E1, E2, E3; cbn [app]; by rewrite <-?(assoc_L (++))|]. repeat (split; [done|]).
    destruct r as [|c r]; [by left|right]. rewrite E3 in Hp'. specialize (Hp' c (r ++ 10 :: s3) eq_refl). apply Forall_cons in Hr as [Hc _].
    unfold is_path_char, is_line_char in *. cbn [cur head default from_option id]. destruct (c =? 0); [done|]. destruct (Z.eqb_spec c 32); [done|]. destruct (c =? 10); done.
  - intros (r & more & E & Hm & Hp & Fm & Fp & Fr & Hr). rewrite E. rewrite (span_prefix is_upper m) by (done || by intros c r' [= <- _]).
    rewrite (proj2 (len_zero m)) by done. cbn [cur head default from_option id app]. change (32 =? 32) with true. cbn [negb tail].
    rewrite (span_prefix is_path_char p) by (done || (intros c r' Hc; destruct r as [|c' r]; [by injection Hc as <- _|]; injection Hc as <- _; destruct Hr as [|Hr]; [done|]; cbn in Hr; by subst)).
    rewrite (proj2 (len_zero p)) by done. rewrite (span_prefix is_line_char r) by (done || by intros c r' [= <- _]).
    cbn [cur head default from_option id]. done.
Qed.

(** ** Responses *)

Definition CRLF : list Z := [13; 10].
Definition error_text (status : list Z) : list Z :=
  text "HTTP/1.0 " ++ status ++ CRLF ++ text "Content-Type: text/html" ++ CRLF ++ CRLF.

Lemma error_response_text code status out : (code, status) ∈ [(400, text "400 Bad Request"); (403, text "403 Forbidden")] →
  error_response code out = Ok (tt, out ++ error_text status).
Proof.
  intros H. assert (E : ∀ w1 w2 w3, format_text (text "HTTP/1.0 %d %s" ++ [13; 10]) [Word (wrap32 code); Str (Some (http_get_response_message code))] = Ok w1 →
    format_text (text "%s: %s" ++ [13; 10]) [Str (Some (text "Content-Type")); Str (Some (text "text/html"))] = Ok w2 → format_text [13; 10] [] = Ok w3 →
    w1 ++ w2 ++ w3 = error_text status → error_response code out = Ok (tt, out ++ error_text status)).
  { intros w1 w2 w3 E1 E2 E3 <-. unfold error_response, http_start_response, http_send_header, http_end_headers, dprintf, mbind, M_bind.
    rewrite E1, E2, E3. by rewrite <-!(assoc_L (++)). }
  repeat (apply elem_of_cons in H as [[= -> ->] | H]; [eapply E; vm_compute; reflexivity|]). by apply not_elem_of_nil in H.
Qed.

Lemma first_occurrence_app s t : is_Some (first_occurrence s t) ↔ ∃ s1 s2, s = s1 ++ t ++ s2.
Proof.
  unfold first_occurrence. split.
  - intros [i Hi]. apply find_from_Some in Hi as (Hi & Ho & _). unfold occurs_at, slice in Ho. apply bool_decide_eq_true in Ho.
    exists (take (Z.to_nat i) s), (drop (Z.to_nat (len t)) (drop (Z.to_nat i) s)). rewrite <-Ho at 1. by rewrite take_drop, take_drop.
  - intros (s1 & s2 & ->). destruct (find_from _ _ 0) eqn:E; [by eexists|]. exfalso. rewrite find_from_None in E.
    specialize (E (len s1)). unfold occurs_at in E. rewrite bool_decide_eq_false in E. apply E; [rewrite !length_app; lia|].
    unfold slice. rewrite !Nat2Z.id, drop_app_length. by rewrite take_app_length.
Qed.

(** A request for a file.  Input that is no request, or a request for a path
    that does not begin with a slash, is answered with 400; a path with two
    dots in a row anywhere with 403; otherwise the path that is looked up is
    the one of the request below the current directory, and has no two dots in
    a row: it cannot leave that directory.  Nothing is sent then. *)
Theorem handle_files_request_correct data out :
  match http_request_parse (Some data) with
  | Ok (Some request) =>
      (cur (path request) ≠ 47 → handle_files_request (Some data) out = Ok (None, out ++ error_text (text "400 Bad Request"))) ∧
      (cur (path request) = 47 → (∃ s1 s2, path request = s1 ++ text ".." ++ s2) →
        handle_files_request (Some data) out = Ok (None, out ++ error_text (text "403 Forbidden"))) ∧
      (cur (path request) = 47 → (∀ s1 s2, path request ≠ s1 ++ text ".." ++ s2) →
        handle_files_request (Some data) out = Ok (Some (text "./" ++ path request), out))
  | _ => handle_files_request (Some data) out = Ok (None, out ++ error_text (text "400 Bad Request"))
  end.
Proof.
  assert (Hno : ∀ f, http_request_parse (Some data) ≠ Err f).
  { intros f. unfold http_request_parse. destruct (span _ _) as [m s]. destruct (len m =? 0); [done|]. destruct (negb _); [done|].
    destruct (span _ _) as [p s']. destruct (len p =? 0); [done|]. destruct (span _ _) as [r s'']. by destruct (negb _). }
  assert (H400 : (error_response 400 ;; mret None) out = Ok (@None (list Z), out ++ error_text (text "400 Bad Request"))).
  { unfold mbind, M_bind. rewrite (error_response_text 400 (text "400 Bad Request")); [done|left]. }
  unfold handle_files_request. destruct (http_request_parse (Some data)) as [[request|]|f] eqn:E; [|done|by destruct (Hno f)].
  split; [|split].
  - intros Hc. by rewrite (proj2 (Z.eqb_neq _ 47)).
  - intros -> Ho. rewrite bool_decide_eq_true_2 by (by apply first_occurrence_app). cbn [negb Z.eqb Pos.eqb]. unfold mbind, M_bind.
    rewrite (error_response_text 403 (text "403 Forbidden")); [done|]. right. left.
  - intros -> Ho. rewrite bool_decide_eq_false_2 by (rewrite first_occurrence_app; naive_solver). done.
Qed.

(** Links and names of index files fit into the buffers that are sized for
    them: the text is complete and ends with the only zero byte. *)
Theorem http_format_href_fits path filename : len path + 2 * len filename < 2 ^ 31 - 24 →
  http_format_href path filename =
    Ok (text "<a href=" ++ [34] ++ text "/" ++ path ++ text "/" ++ filename ++ [34] ++ text ">" ++ filename ++ text "</a><br/>" ++ [0]).
Proof.
  intros H. unfold http_format_href. change (len href_frame) with 22.
  set (w := text "<a href=" ++ [34] ++ text "/" ++ path ++ text "/" ++ filename ++ [34] ++ text ">" ++ filename ++ text "</a><br/>").
  change [Str (Some path); Str (Some filename); Str (Some filename)] with ((Str ∘ Some) <$> [path; filename; filename]).
  rewrite (format_text_fill href_format [path; filename; filename] w).
  - assert (Hl : len w = 22 + len path + len filename * 2) by (unfold w; rewrite !length_app; change (length (text "<a href=")) with 8%nat; change (length (text "/")) with 1%nat;
      change (length (text ">")) with 1%nat; change (length (text "</a><br/>")) with 9%nat; cbn [length]; lia).
    rewrite (signed_small 32) by lia. unfold buffer_text. rewrite (proj2 (Z.ltb_lt _ _)) by lia.
    rewrite firstn_all2 by lia. unfold w. by rewrite <-!(assoc_L (++)).
  - repeat constructor; lia.
  - unfold href_format. cbn. by rewrite <-?(assoc_L (++)).
Qed.

(** ** Options *)

(** A server never starts without something to serve: it has a directory or a
    proxy target, and the handler of the last such option; the number of
    threads is not negative, and positive if it was given. *)
Theorem parse_options_serves argv c : parse_options argv default_config = Serve c →
  0 ≤ num_threads c ∧
  match request_handler c with
  | Some files_request => is_Some (server_files_directory c)
  | Some proxy_request => is_Some (server_proxy_hostname c)
  | None => False
  end.
Proof.
  set (inv c := 0 ≤ num_threads c ∧ match request_handler c with
    | Some files_request => is_Some (server_files_directory c) | Some proxy_request => is_Some (server_proxy_hostname c)
    | None => server_files_directory c = None ∧ server_proxy_hostname c = None end).
  enough (H : ∀ n argv c0 c, (length argv ≤ n)%nat → inv c0 → parse_options argv c0 = Serve c → inv c ∧ request_handler c ≠ None).
  { intros E. destruct (H (length argv) argv default_config c) as [[H1 H2] H3]; [lia|done|done|]. split; [done|]. by destruct (request_handler c) as [[]|]. }
  induction n as [|n IH]; intros argv' c0 c' Hn Hi; (destruct argv' as [|o rest]; cbn [parse_options length] in *; [|try lia]).
  1, 2: destruct Hi as [Hi1 Hi2]; destruct (server_files_directory c0) eqn:Ef, (server_proxy_hostname c0) eqn:Ep; try done; intros [= <-];
    (split; [by split; [|rewrite Ef, Ep]|intros E; rewrite E in Hi2; by destruct Hi2]).
  destruct Hi as [Hi1 Hi2].
  repeat (case_decide; [destruct rest as [|d rest]; try done; cbn [length] in *|]); try done.
  - apply IH; [lia|]. split; [done|by eexists].
  - apply IH; [lia|]. unfold set_proxy. destruct (split_at 58 d). split; [done|by eexists].
  - apply IH; [lia|]. by split.
  - destruct (Z.ltb_spec (atoi d) 1); [done|]. apply IH; [lia|]. split; [cbn; lia|done].
Qed.

(** ** Examples *)

Lemma parse_options_serves_witness :
  parse_options [text "--proxy"; text "host:81"; text "--num-threads"; text "5"] default_config = Serve (mk_config (Some proxy_request) 8000 None (Some (text "host")) 81 5) ∧
  0 ≤ 5 ∧ is_Some (Some (text "host")).
Proof. split; [reflexivity|]. apply (parse_options_serves [text "--proxy"; text "host:81"; text "--num-threads"; text "5"] (mk_config (Some proxy_request) 8000 None (Some (text "host")) 81 5)). reflexivity. Defined.

Lemma http_format_href_fits_witness : http_format_href (text "a") (text "b.c") =
  Ok (text "<a href=" ++ [34] ++ text "/a/b.c" ++ [34] ++ text ">b.c</a><br/>" ++ [0]).
Proof. apply (http_format_href_fits (text "a") (text "b.c")). cbn. lia. Defined.

Example get_request : http_request_parse (Some (text "GET /index.html HTTP/1.0
Host: x

")) = Ok (Some (mk_request (text "GET") (text "/index.html"))).
Proof. reflexivity. Qed.

Example mime_types : http_get_mime_type (text "a.b/c.html") = text "text/html" ∧ http_get_mime_type (text "a.html/c") = text "text/plain".
Proof. split; reflexivity. Qed.
