(* ===== verification/WorkQueue.v ===== *)
(** * The work queue of the HTTP server ([hw-http/wq.c], [hw-http/utlist.h])

    A queue of client sockets between threads: a doubly linked list on a heap
    of items, guarded by a mutex, with a condition variable for threads that
    wait for an item.

    The critical sections are functions of the queue.  The threads are a state
    machine: each thread is at a point of [wq_push] or [wq_pop], a thread that
    does not hold the mutex can only ask for it, and a thread that waits sleeps
    until it is woken by the broadcast of a push, or for no reason, as POSIX
    allows.  Addresses of new items are any that are not in use. *)
From S2P Require Import Prelude Bytes.

(** ** The queue *)

Record wq_item := mk_item { client_socket_fd : Z; next : Z; prev : Z }.
Record wq := mk_wq { size : Z; head : Z; items : gmap Z wq_item }.

Definition wq_init : wq := mk_wq 0 NULL ∅.

Definition item_at (p : Z) : M wq wq_item := λ q,
  match items q !! p with Some i => Ok (i, q) | None => Err BadAccess end.
Definition set_head (p : Z) : M wq unit := modify (λ q, mk_wq (size q) p (items q)).
Definition set_size (n : Z) : M wq unit := modify (λ q, mk_wq n (head q) (items q)).
Definition set_item (p : Z) (f : wq_item → wq_item) : M wq unit :=
  i ← item_at p; modify (λ q, mk_wq (size q) (head q) (<[p := f i]> (items q))).
Definition with_next (n : Z) (i : wq_item) : wq_item := mk_item (client_socket_fd i) n (prev i).
Definition with_prev (p : Z) (i : wq_item) : wq_item := mk_item (client_socket_fd i) (next i) p.

Definition DL_APPEND (add : Z) : M wq unit :=
  h ← gets head;
  if negb (h =? NULL) then
    i ← item_at h; set_item add (with_prev (prev i)) ;;
    i ← item_at h; set_item (prev i) (with_next add) ;;
    set_item h (with_prev add) ;;
    set_item add (with_next NULL)
  else
    set_head add ;;
    set_item add (with_prev add) ;;
    set_item add (with_next NULL).

(** [DL_DELETE(head, head)]: the first item. *)
Definition DL_DELETE : M wq unit :=
  del ← gets head;
  i ← item_at del;
  ASSERT (negb (prev i =? NULL)) ;;
  if prev i =? del then set_head NULL
  else
    set_item (next i) (with_prev (prev i)) ;;
    set_head (next i).

(** The critical section of [wq_push] up to the broadcast, with the address
    that [calloc] returns, which is not checked. *)
Definition push_item (wq_item fd : Z) : M wq unit :=
  (if wq_item =? NULL then throw BadAccess else mret tt) ;;
  modify (λ q, mk_wq (size q) (head q) (<[wq_item := mk_item fd 0 0]> (items q))) ;;
  DL_APPEND wq_item ;;
  n ← gets size; set_size (int32 (n + 1)).

(** The critical section of [wq_pop] after the loop: the item and its socket. *)
Definition pop_item : M wq (Z * Z) :=
  wq_item ← gets head;
  i ← item_at wq_item;
  n ← gets size; set_size (int32 (n - 1)) ;;
  DL_DELETE ;;
  mret (wq_item, client_socket_fd i).

Definition free_item (wq_item : Z) : M wq unit := λ q,
  match items q !! wq_item with
  | Some _ => Ok (tt, mk_wq (size q) (head q) (delete wq_item (items q)))
  | None => Err BadAccess
  end.

(** ** Threads *)

(** Where a thread is: outside, or before the action that is named. *)
Inductive pc :=
  | Outside
  | PopLock | PopCheck | PopWait | PopTake | PopUnlock (wq_item fd : Z) | PopFree (wq_item fd : Z)
  | PushLock (fd : Z) | PushAdd (fd : Z) | PushBroadcast | PushUnlock.

#[export] Instance pc_eq_dec : EqDecision pc.
Proof. solve_decision. Defined.

(** [pushed] and [popped] are the sockets so far, in the order in which the
    calls of [wq_push] had the mutex and the calls of [wq_pop] took them. *)
Record world := mk_world { queue : wq; mutex : option Z; pcs : gmap Z pc; pushed : list Z; popped : list Z }.

Definition pc_of (w : world) (t : Z) : pc := default Outside (pcs w !! t).
Definition goto (t : Z) (p : pc) (w : world) : world := mk_world (queue w) (mutex w) (<[t := p]> (pcs w)) (pushed w) (popped w).
Definition lock (m : option Z) (w : world) : world := mk_world (queue w) m (pcs w) (pushed w) (popped w).
Definition with_queue (q : wq) (w : world) : world := mk_world q (mutex w) (pcs w) (pushed w) (popped w).

(** A thread that waits goes on to ask for the mutex. *)
Definition woken (p : pc) : pc := match p with PopWait => PopLock | p => p end.

(** One action of a thread: [None] when it cannot go on. *)
Definition thread_step (t new : Z) (w : world) : option (result world) :=
  match pc_of w t with
  | Outside | PopWait => None
  | PopLock => match mutex w with None => Some (Ok (goto t PopCheck (lock (Some t) w))) | Some _ => None end
  | PopCheck =>
      if size (queue w) =? 0 then Some (Ok (goto t PopWait (lock None w))) else Some (Ok (goto t PopTake w))
  | PopTake => Some (match pop_item (queue w) with
      | Ok ((i, fd), q) => Ok (goto t (PopUnlock i fd) (mk_world q (mutex w) (pcs w) (pushed w) (popped w ++ [fd])))
      | Err f => Err f
      end)
  | PopUnlock i fd => Some (Ok (goto t (PopFree i fd) (lock None w)))
  | PopFree i fd => Some (match free_item i (queue w) with Ok (_, q) => Ok (goto t Outside (with_queue q w)) | Err f => Err f end)
  | PushLock fd => match mutex w with None => Some (Ok (goto t (PushAdd fd) (lock (Some t) w))) | Some _ => None end
  | PushAdd fd => Some (match push_item new fd (queue w) with
      | Ok (_, q) => Ok (goto t PushBroadcast (mk_world q (mutex w) (pcs w) (pushed w ++ [fd]) (popped w)))
      | Err f => Err f
      end)
  | PushBroadcast => Some (Ok (goto t PushUnlock (mk_world (queue w) (mutex w) (woken <$> pcs w) (pushed w) (popped w))))
  | PushUnlock => Some (Ok (goto t Outside (lock None w)))
  end.

Definition start : world := mk_world wq_init None ∅ [] [].

(** The queue holds fewer than 2^31 - 1 items. *)
Definition has_room (w : world) : Prop := size (queue w) < 2 ^ 31 - 1.

Inductive step (w : world) : world → Prop :=
  | step_pop t : pc_of w t = Outside → step w (goto t PopLock w)
  | step_push t fd : pc_of w t = Outside → step w (goto t (PushLock fd) w)
  | step_run t new w' : 0 < new → items (queue w) !! new = None → has_room w → thread_step t new w = Some (Ok w') → step w w'
  | step_spurious t : pc_of w t = PopWait → step w (goto t PopLock w).

Inductive reachable : world → Prop :=
  | reachable_start : reachable start
  | reachable_step w w' : reachable w → step w w' → reachable w'.

(** ** The list *)

(** The [i]th item of the list [xs] of addresses and sockets; the first item
    points back to the last one. *)
Definition node (xs : list (Z * Z)) (i : nat) (fd : Z) : wq_item :=
  mk_item fd (default 0 (xs.*1 !! S i)) (default 0 (match i with O => last xs.*1 | S j => xs.*1 !! j end)).

Record dl (q : wq) (xs : list (Z * Z)) : Prop := {
  dl_head : head q = default 0 (xs.*1 !! O);
  dl_size : size q = len xs;
  dl_nodup : NoDup xs.*1;
  dl_pos : Forall (λ a, 0 < a) xs.*1;
  dl_items i a fd : xs !! i = Some (a, fd) → items q !! a = Some (node xs i fd)
}.

(** What is not in the list is not touched. *)
Definition elsewhere (xs : list (Z * Z)) (q q' : wq) : Prop := ∀ b, b ∉ xs.*1 → items q' !! b = items q !! b.

Lemma wp_item_at p i (Q : wq_item → wq → Prop) q : items q !! p = Some i → Q i q → wp (item_at p) Q q.
Proof. unfold wp, item_at. by intros ->. Qed.
Lemma wp_set_item p f i (Q : unit → wq → Prop) q : items q !! p = Some i → Q tt (mk_wq (size q) (head q) (<[p := f i]> (items q))) → wp (set_item p f) Q q.
Proof. intros Hi HQ. unfold set_item. wp_step. by eapply wp_item_at. Qed.

Lemma addr_inj (xs : list (Z * Z)) i j a fd fd' : NoDup xs.*1 → xs !! i = Some (a, fd) → xs !! j = Some (a, fd') → i = j.
Proof. intros Hn Hi Hj. eapply (NoDup_lookup xs.*1); [done|rewrite list_lookup_fmap, Hi; done|by rewrite list_lookup_fmap, Hj]. Qed.

Lemma in_addrs (xs : list (Z * Z)) i a fd : xs !! i = Some (a, fd) → a ∈ xs.*1.
Proof. intros H. apply list_elem_of_fmap. exists (a, fd). split; [done|]. by eapply list_elem_of_lookup_2. Qed.

Lemma fst_lookup (xs : list (Z * Z)) i a fd : xs !! i = Some (a, fd) → xs.*1 !! i = Some a.
Proof. intros H. by rewrite list_lookup_fmap, H. Qed.

(** Appending: the last item points to the new one, the first one back to it. *)
Lemma node_append xs i a fd b fdb : xs !! i = Some (b, fdb) →
  node (xs ++ [(a, fd)]) i fdb =
    mk_item fdb (if decide (S i = length xs) then a else next (node xs i fdb)) (if decide (i = O) then a else prev (node xs i fdb)).
Proof.
  intros Hi. pose proof (lookup_lt_Some _ _ _ Hi) as Hlt. unfold node. cbn [next prev]. rewrite fmap_app. cbn [fmap list_fmap fst]. f_equal.
  - case_decide as E.
    + rewrite list_lookup_middle; [done|]. by rewrite length_fmap.
    + by rewrite lookup_app_l by (rewrite length_fmap; lia).
  - destruct i as [|j]; [by rewrite last_snoc|]. rewrite decide_False by done. by rewrite lookup_app_l by (rewrite length_fmap; lia).
Qed.

Lemma node_last xs a fd : node (xs ++ [(a, fd)]) (length xs) fd = mk_item fd 0 (default a (last xs.*1)).
Proof.
  unfold node. rewrite fmap_app. cbn [fmap list_fmap fst]. f_equal.
  - rewrite lookup_ge_None_2; [done|]. rewrite length_app, length_fmap. cbn. lia.
  - destruct xs as [|x xs]; [done|]. cbn [length]. rewrite lookup_app_l by (rewrite length_fmap; cbn; lia).
    rewrite last_lookup, length_fmap. cbn [length Nat.pred]. destruct ((x :: xs).*1 !! length xs) eqn:E; [done|].
    apply lookup_ge_None in E. rewrite length_fmap in E. cbn in E. lia.
Qed.

(** The items after appending [a] to a list that begins with [h] and ends with
    [z]. *)
Lemma appended_items (m m' : gmap Z wq_item) l h fh z fz a fd : NoDup l.*1 → l !! O = Some (h, fh) → last l = Some (z, fz) → a ∉ l.*1 →
  (∀ i b fdb, l !! i = Some (b, fdb) → m !! b = Some (node l i fdb)) →
  m' !! a = Some (mk_item fd 0 z) →
  (∀ b i, b ≠ a → m !! b = Some i → m' !! b = Some (mk_item (client_socket_fd i) (if decide (b = z) then a else next i) (if decide (b = h) then a else prev i))) →
  ∀ i b fdb, (l ++ [(a, fd)]) !! i = Some (b, fdb) → m' !! b = Some (node (l ++ [(a, fd)]) i fdb).
Proof.
  intros Hn Hh El Hna Hi Ha Hm' i b fdb Hib.
  assert (Elz : last l.*1 = Some z) by (by rewrite fmap_last, El).
  assert (Hz : l !! (length l - 1)%nat = Some (z, fz)) by (rewrite last_lookup in El; by replace (length l - 1)%nat with (pred (length l)) by lia).
  destruct (decide (i < length l)%nat) as [Hlt|Hge].
  - rewrite lookup_app_l in Hib by done. assert (Hb : b ≠ a) by (intros ->; apply Hna; by eapply in_addrs).
    rewrite (Hm' b (node l i fdb)), (node_append l i a fd b fdb) by eauto. do 2 f_equal; cbn [next prev].
    + assert (b = z ↔ S i = length l) as Hiff.
      { split; [intros ->; assert (i = length l - 1)%nat by (by eapply (addr_inj l)); lia|].
        intros E. replace (length l - 1)%nat with i in Hz by lia. rewrite Hz in Hib. by injection Hib. }
      by rewrite (decide_ext _ _ _ _ Hiff).
    + assert (b = h ↔ i = O) as Hiff.
      { split; [intros ->; by eapply (addr_inj l)|]. intros ->. rewrite Hh in Hib. by injection Hib. }
      by rewrite (decide_ext _ _ _ _ Hiff).
  - rewrite lookup_app_r in Hib by lia. destruct (i - length l)%nat as [|k] eqn:Ek; [|by destruct k]. injection Hib as <- <-.
    rewrite Ha. replace i with (length l) by lia. by rewrite node_last, Elz.
Qed.

Lemma DL_APPEND_correct q xs a fd : dl q xs → items q !! a = None → 0 < a →
  wp (DL_APPEND a) (λ _ q', size q' = size q ∧ head q' = default 0 ((xs ++ [(a, fd)]).*1 !! O) ∧ elsewhere (xs ++ [(a, fd)]) q q' ∧
    ∀ i b fdb, (xs ++ [(a, fd)]) !! i = Some (b, fdb) → items q' !! b = Some (node (xs ++ [(a, fd)]) i fdb))
  (mk_wq (size q) (head q) (<[a := mk_item fd 0 0]> (items q))).
Proof.
  intros [Hh Hs Hn Hp Hi] Ha Hpos.
  assert (Hna : a ∉ xs.*1).
  { intros Hin. apply list_elem_of_fmap in Hin as ([a' fd'] & -> & Hin). apply list_elem_of_lookup in Hin as [i Hin]. cbn in Ha. by rewrite (Hi i a' fd' Hin) in Ha. }
  unfold DL_APPEND. wp_step. wp_step. cbn [head]. rewrite Hh. destruct xs as [|[h fh] xs].
  { cbn [fmap list_fmap lookup list_lookup default from_option id]. change (negb (0 =? NULL)) with false. cbn iota.
    unfold set_head. repeat wp_step. cbn [size head items app]. eapply wp_set_item; [cbn [items]; by rewrite lookup_insert_eq|].
    eapply wp_set_item; [cbn [items]; by rewrite lookup_insert_eq|]. cbn [size head items]. split; [done|]. split; [done|]. split.
    - intros b Hb. cbn [items]. rewrite !lookup_insert_ne by (cbn in Hb; set_solver). done.
    - intros i b fdb Hib. destruct i as [|i]; [|done]. injection Hib as <- <-. by rewrite lookup_insert_eq. }
  replace (default 0 (((h, fh) :: xs).*1 !! O)) with h by done. set (l := (h, fh) :: xs) in *.
  assert (Hh0 : 0 < h) by (rewrite Forall_forall in Hp; apply Hp; by left). rewrite (proj2 (Z.eqb_neq h 0)) by lia. cbn [negb].
  destruct (last l) as [[z fz]|] eqn:El; [|by apply last_None in El]. pose proof El as Hz. rewrite last_lookup in Hz.
  assert (Hhi : items q !! h = Some (node l 0 fh)) by (by apply Hi). assert (Hzi : items q !! z = Some (node l (pred (length l)) fz)) by (by apply Hi).
  assert (Hah : a ≠ h) by congruence. assert (Haz : a ≠ z) by congruence.
  assert (Epz : prev (node l 0 fh) = z) by (unfold node; cbn [prev]; by rewrite fmap_last, El).
  wp_step. eapply wp_item_at; [cbn [items]; by rewrite lookup_insert_ne|]. rewrite Epz. wp_step. eapply wp_set_item; [cbn [items]; by rewrite lookup_insert_eq|]. cbn [size head items].
  wp_step. eapply wp_item_at; [cbn [items]; by rewrite !lookup_insert_ne|]. rewrite Epz. wp_step. eapply wp_set_item; [cbn [items]; by rewrite !lookup_insert_ne|]. cbn [size head items].
  set (m1 := <[z := _]> _). destruct (m1 !! h) as [ih|] eqn:Hm1; [|unfold m1 in Hm1; apply lookup_insert_None in Hm1 as [Hm1 _]; by rewrite !lookup_insert_ne, Hhi in Hm1].
  wp_step. eapply wp_set_item; [exact Hm1|]. cbn [size head items]. eapply wp_set_item.
  { cbn [items]. rewrite lookup_insert_ne by done. unfold m1. rewrite lookup_insert_ne by done. by rewrite lookup_insert_eq. }
  cbn [size head items]. split; [done|]. split; [done|]. split.
  - intros b Hb. rewrite fmap_app in Hb. assert (b ≠ a ∧ b ≠ h ∧ b ≠ z) as (? & ? & ?).
    { split_and!; intros ->; apply Hb; apply elem_of_app; [right; by left|left; by left|left; by eapply (in_addrs _ _ _ fz)]. }
    cbn [items]. unfold m1. by rewrite !lookup_insert_ne by done.
  - apply (appended_items (items q) _ l h fh z fz); [done..|by rewrite lookup_insert_eq|]. intros b i Hb Hbi. rewrite lookup_insert_ne by done.
    destruct (decide (b = h)) as [->|Hbh].
    + rewrite lookup_insert_eq. unfold m1 in Hm1. rewrite Hhi in Hbi. injection Hbi as <-. destruct (decide (h = z)) as [<-|Hhz].
      * rewrite lookup_insert_eq in Hm1. assert (E : node l 0 fh = node l (pred (length l)) fz) by congruence. assert (ih = with_next a (node l 0 fh)) as -> by congruence. done.
      * rewrite !lookup_insert_ne, Hhi in Hm1 by done. by injection Hm1 as <-.
    + rewrite lookup_insert_ne by done. unfold m1. destruct (decide (b = z)) as [->|Hbz].
      * rewrite lookup_insert_eq. rewrite Hzi in Hbi. by injection Hbi as <-.
      * rewrite !lookup_insert_ne by done. rewrite Hbi. by destruct i.
Qed.

Lemma push_item_correct q xs a fd : dl q xs → items q !! a = None → 0 < a → len xs < 2 ^ 31 - 1 →
  wp (push_item a fd) (λ _ q', dl q' (xs ++ [(a, fd)]) ∧ elsewhere (xs ++ [(a, fd)]) q q') q.
Proof.
  intros Hdl Ha Hpos Hlen. unfold push_item. rewrite (proj2 (Z.eqb_neq a NULL)) by lia. do 5 wp_step. eapply wp_mono; [by apply DL_APPEND_correct|].
  intros [] q' (Es & Eh & He & Hit). wp_step. wp_step. unfold set_size. wp_step. split; [|done]. destruct Hdl as [Hh Hs Hn Hp Hi].
  split; cbn [head size items]; [done| | | |done].
  - rewrite Es, Hs, (signed_small 32), length_app by lia. cbn. lia.
  - rewrite fmap_app. apply NoDup_app. split; [done|]. split; [|apply NoDup_singleton]. intros x Hx Hx'. apply list_elem_of_singleton in Hx'. cbn in Hx'. subst.
    apply list_elem_of_fmap in Hx as ([a' fd'] & -> & Hin). apply list_elem_of_lookup in Hin as [i Hin]. cbn in Ha. by rewrite (Hi i a' fd' Hin) in Ha.
  - rewrite fmap_app. apply Forall_app. split; [done|]. by repeat constructor.
Qed.

Lemma node_tail x xs i b fdb : xs !! i = Some (b, fdb) →
  node xs i fdb = mk_item fdb (next (node (x :: xs) (S i) fdb)) (if decide (i = O) then default 0 (last (x :: xs).*1) else prev (node (x :: xs) (S i) fdb)).
Proof.
  intros Hi. unfold node. cbn [next prev fmap list_fmap lookup list_lookup]. f_equal. destruct i; [|done]. rewrite decide_True by done.
  by destruct xs.
Qed.

Lemma pop_item_correct q a fd xs : dl q ((a, fd) :: xs) → len xs < 2 ^ 31 - 1 →
  wp pop_item (λ r q', r = (a, fd) ∧ dl q' xs ∧ elsewhere xs q q' ∧ is_Some (items q' !! a)) q.
Proof.
  intros [Hh Hs Hn Hp Hi] Hlen. pose proof (Hi O a fd eq_refl) as Ha. set (l := (a, fd) :: xs) in *.
  assert (Hh' : head q = a) by done. assert (Hp' : 0 < a ∧ Forall (λ a, 0 < a) xs.*1) by (by apply Forall_cons in Hp). assert (Hn' : a ∉ xs.*1 ∧ NoDup xs.*1) by (by apply NoDup_cons in Hn).
  clear Hp Hn. destruct Hp' as [Ha0 Hp], Hn' as [Hna Hn].
  destruct (last l) as [[z fz]|] eqn:El; [|by apply last_None in El]. pose proof El as Hz. rewrite last_lookup in Hz.
  assert (Epz : prev (node l 0 fd) = z) by (unfold node; cbn [prev]; by rewrite fmap_last, El).
  assert (Hz0 : 0 < z) by (destruct (pred (length l)) as [|k]; [by injection Hz as <- _|]; rewrite Forall_forall in Hp; apply Hp; by apply (in_addrs xs k z fz)).
  unfold pop_item, DL_DELETE. wp_step. wp_step. rewrite Hh'. wp_step. eapply wp_item_at; [done|]. repeat wp_step. unfold set_size. repeat wp_step.
  cbn [head]. rewrite Hh'. eapply wp_item_at; [done|]. rewrite Epz. wp_step. wp_step; [by rewrite (proj2 (Z.eqb_neq z 0)) by lia|]. cbv beta.
  assert (Hsz : int32 (size q - 1) = len xs) by (rewrite Hs; unfold l; cbn [length]; rewrite (signed_small 32); lia). rewrite Hsz.
  destruct xs as [|[b fb] xs].
  - assert (z = a) as -> by (by injection El as <- _). rewrite Z.eqb_refl. unfold set_head. repeat wp_step. split; [done|].
    split; [by split; [..|intros [] ? ? ?]|]. split; [by intros c Hc|]. cbn [items]. by rewrite Ha.
  - assert (Hza : z ≠ a).
    { intros ->. unfold l in El. rewrite last_cons_cons in El. apply Hna. rewrite last_lookup in El. by eapply in_addrs. }
    rewrite (proj2 (Z.eqb_neq z a)) by done. wp_step. replace (next (node l 0 fd)) with b by done.
    assert (Hab : a ≠ b) by (intros ->; apply Hna; left). pose proof (Hi 1%nat b fb eq_refl) as Hb.
    eapply wp_set_item; [done|]. cbn [size head items]. unfold set_head. repeat wp_step. cbn [size head items]. split; [done|]. split; [split; cbn [size head items]|split].
    + done.
    + done.
    + done.
    + done.
    + intros i c fc Hic. pose proof (Hi (S i) c fc Hic) as Hc. rewrite (node_tail (a, fd) _ i c fc) by done. fold l. rewrite fmap_last, El. cbn [fmap option_fmap option_map default from_option id fst].
      case_decide as E.
      * subst i. injection Hic as <- <-. by rewrite lookup_insert_eq.
      * rewrite lookup_insert_ne; [by rewrite Hc|]. intros <-. apply E. by eapply (addr_inj ((b, fb) :: xs) i O).
    + intros c Hc. cbn [items]. rewrite lookup_insert_ne; [done|]. intros <-. apply Hc. left.
    + rewrite lookup_insert_ne by done. by rewrite Ha.
Qed.

(** ** All runs *)

(** The thread is between locking and unlocking the mutex. *)
Definition critical (p : pc) : bool :=
  match p with PopCheck | PopTake | PopUnlock _ _ | PushAdd _ | PushBroadcast | PushUnlock => true | _ => false end.
(** The item that the thread has taken and not yet freed. *)
Definition pending (p : pc) : option Z := match p with PopUnlock a _ | PopFree a _ => Some a | _ => None end.

Record inv (w : world) (xs : list (Z * Z)) : Prop := {
  iv_dl : dl (queue w) xs;
  iv_len : len xs < 2 ^ 31;
  iv_fifo : pushed w = popped w ++ xs.*2;
  iv_mutex t : critical (pc_of w t) = true ↔ mutex w = Some t;
  iv_take t : pc_of w t = PopTake → xs ≠ [];
  iv_wait t : pc_of w t = PopWait → xs = [] ∨ ∃ t', pc_of w t' = PushBroadcast;
  iv_pending t a : pending (pc_of w t) = Some a → is_Some (items (queue w) !! a) ∧ a ∉ xs.*1;
  iv_own t t' a : pending (pc_of w t) = Some a → pending (pc_of w t') = Some a → t = t'
}.

Lemma pc_of_goto t p w t' : pc_of (goto t p w) t' = if decide (t' = t) then p else pc_of w t'.
Proof. unfold pc_of, goto. cbn [pcs]. case_decide; [subst; by rewrite lookup_insert_eq|by rewrite lookup_insert_ne]. Qed.

Lemma inv_start : inv start [].
Proof.
  assert (E : ∀ t, pc_of start t = Outside) by done. split; try done; try (intros t; rewrite E; done).
  - split; try done; by constructor.
Qed.

(** A thread moves on from [pc_of w t] to [p] while the queue becomes [q']. *)
Lemma inv_goto w xs t p q' m' pu po xs' :
  inv w xs → dl q' xs' → len xs' < 2 ^ 31 → pu = po ++ xs'.*2 →
  (critical p = true ↔ m' = Some t) → (∀ t', t' ≠ t → m' = Some t' ↔ mutex w = Some t') →
  (xs' = xs ∨ mutex w = Some t) → (p = PopTake → xs' ≠ []) →
  (p = PopWait → xs' = []) → (∀ t', t' ≠ t → pc_of w t' = PopWait → xs' = [] ∨ p = PushBroadcast ∨ ∃ t'', t'' ≠ t ∧ pc_of w t'' = PushBroadcast) →
  (∀ a, (pending p = Some a ∨ ∃ t', t' ≠ t ∧ pending (pc_of w t') = Some a) → is_Some (items q' !! a) ∧ a ∉ xs'.*1) →
  (∀ a t', pending p = Some a → t' ≠ t → pending (pc_of w t') ≠ Some a) →
  inv (goto t p (mk_world q' m' (pcs w) pu po)) xs'.
Proof.
  intros Hi Hdl Hlen Hf Hm Hm' Hx Ht Hw Hw' Hp Ho.
  set (w' := mk_world q' m' (pcs w) pu po). assert (Epc : ∀ t', pc_of w' t' = pc_of w t') by done.
  split; [done|done|done|intros t'; rewrite pc_of_goto; case_decide as E..|]; subst.
  - done.
  - rewrite Epc, (iv_mutex _ _ Hi t'). cbn. symmetry. by apply Hm'.
  - done.
  - rewrite Epc. intros E'. destruct Hx as [->|Hx]; [by apply (iv_take _ _ Hi t')|].
    assert (mutex w = Some t') by (apply (iv_mutex _ _ Hi); by rewrite E'). congruence.
  - intros E'. left. by apply Hw.
  - rewrite Epc. intros E'. destruct (Hw' t' E E') as [->|[->|(t'' & Hne & Ht'')]]; [by left|right; exists t|right; exists t'']; rewrite pc_of_goto.
    + by rewrite decide_True.
    + by rewrite decide_False.
  - intros a Ha. apply Hp. by left.
  - intros a. rewrite Epc. intros Ha. apply Hp. right. eauto.
  - intros t' t'' a. rewrite !pc_of_goto. repeat case_decide; subst; rewrite ?Epc; intros H1 H2; [done| | |by eapply (iv_own _ _ Hi)].
    + by destruct (Ho a t'' H1).
    + by destruct (Ho a t' H2).
Qed.

(** An action that leaves the queue as it is. *)
Lemma inv_move w xs t p m' : inv w xs →
  (critical p = true ↔ m' = Some t) → (∀ t', t' ≠ t → m' = Some t' ↔ mutex w = Some t') → (p = PopTake → xs ≠ []) →
  (p = PopWait → xs = []) → (pc_of w t = PushBroadcast → ∀ t', pc_of w t' ≠ PopWait) → (∀ a, pending p = Some a → pending (pc_of w t) = Some a) →
  inv (goto t p (lock m' w)) xs.
Proof.
  intros Hi Hm Hm' Ht Hw Hb Hp. apply (inv_goto w xs t p); try apply Hi; try done.
  - by left.
  - intros t' Ht' E. destruct (iv_wait _ _ Hi t' E) as [->|[t'' Ht'']]; [by left|]. right. right. exists t''. split; [|done]. intros ->. by apply (Hb Ht'' t').
  - intros a [Ha|(t' & _ & Ha)]; [apply Hp in Ha|]; by apply (iv_pending _ _ Hi) in Ha.
  - intros a t' Ha Hne Ha'. apply Hne. apply (iv_own _ _ Hi _ _ a); [done|]. by apply Hp.
Qed.

(** Waking all threads that wait. *)
Lemma inv_broadcast w xs t : inv w xs → pc_of w t = PushBroadcast →
  inv (goto t PushUnlock (mk_world (queue w) (mutex w) (woken <$> pcs w) (pushed w) (popped w))) xs.
Proof.
  intros Hi Ht. set (w' := mk_world _ _ _ _ _).
  assert (E : ∀ t', pc_of w' t' = woken (pc_of w t')) by (intros t'; unfold pc_of, w'; cbn [pcs]; rewrite lookup_fmap; by destruct (pcs w !! t')).
  assert (Hno : ∀ t', pc_of w' t' ≠ PopWait) by (intros t'; rewrite E; by destruct (pc_of w t')).
  assert (Ec : ∀ p, critical (woken p) = critical p) by (by intros []). assert (Ep : ∀ p, pending (woken p) = pending p) by (by intros []).
  assert (Hi' : inv w' xs).
  { split; try apply Hi.
    - intros t'. rewrite E, Ec. apply (iv_mutex _ _ Hi).
    - intros t' Ht'. apply (iv_take _ _ Hi t'). rewrite E in Ht'. by destruct (pc_of w t').
    - intros t' Ht'. by apply Hno in Ht'.
    - intros t' a. rewrite E, Ep. apply (iv_pending _ _ Hi).
    - intros t' t'' a. rewrite !E, !Ep. apply (iv_own _ _ Hi). }
  change (inv (goto t PushUnlock (lock (mutex w) w')) xs). apply inv_move; try done.
  assert (mutex w = Some t) as -> by (apply (iv_mutex _ _ Hi); by rewrite Ht). done.
Qed.

(** The owner of the mutex is the only thread in a critical section. *)
Lemma critical_unique w xs t t' : inv w xs → mutex w = Some t → critical (pc_of w t') = true → t' = t.
Proof. intros Hi Hm Hc. apply (iv_mutex _ _ Hi) in Hc. congruence. Qed.

Lemma inv_pop w xs t : inv w xs → pc_of w t = PopTake → ∃ a fd q' xs', pop_item (queue w) = Ok ((a, fd), q') ∧ xs = (a, fd) :: xs' ∧
  inv (goto t (PopUnlock a fd) (mk_world q' (mutex w) (pcs w) (pushed w) (popped w ++ [fd]))) xs'.
Proof.
  intros Hi E. assert (Em : mutex w = Some t) by (apply (iv_mutex _ _ Hi); by rewrite E). destruct xs as [|[a fd] xs]; [by destruct (iv_take _ _ Hi t E)|].
  pose proof (iv_len _ _ Hi) as Hlen. cbn [length] in Hlen.
  destruct (proj1 (wp_Ok _ _ _) (pop_item_correct _ _ _ _ (iv_dl _ _ Hi) ltac:(lia))) as (? & q' & Eq & -> & Hdl & He & Ha).
  pose proof (dl_nodup _ _ (iv_dl _ _ Hi)) as Hn. assert (Hn' : a ∉ xs.*1) by (by apply NoDup_cons in Hn as [? _]).
  exists a, fd, q', xs. split; [done|]. split; [done|]. apply (inv_goto w ((a, fd) :: xs) t); try done.
  - lia.
  - rewrite (iv_fifo _ _ Hi). cbn. by rewrite <-(assoc_L (++)).
  - by right.
  - intros t' Hne Hw. destruct (iv_wait _ _ Hi t' Hw) as [|[t'' Hb]]; [done|]. assert (t'' = t) as -> by (eapply critical_unique; [done..|by rewrite Hb]). congruence.
  - intros b [Hb|(t' & Hne & Hb)]; [by injection Hb as <-|]. destruct (iv_pending _ _ Hi t' b Hb) as [H1 H2]. cbn in H2. apply not_elem_of_cons in H2 as [_ H2].
    split; [by rewrite He|done].
  - intros b t' [= <-] Hne Hb. destruct (iv_pending _ _ Hi t' a Hb) as [_ H2]. apply H2. left.
Qed.

Lemma inv_push w xs t new fd : inv w xs → pc_of w t = PushAdd fd → 0 < new → items (queue w) !! new = None → has_room w → ∃ q',
  push_item new fd (queue w) = Ok (tt, q') ∧ inv (goto t PushBroadcast (mk_world q' (mutex w) (pcs w) (pushed w ++ [fd]) (popped w))) (xs ++ [(new, fd)]).
Proof.
  intros Hi E Hnew Hfresh Hroom. assert (Em : mutex w = Some t) by (apply (iv_mutex _ _ Hi); by rewrite E).
  unfold has_room in Hroom. rewrite (dl_size _ _ (iv_dl _ _ Hi)) in Hroom.
  destruct (proj1 (wp_Ok _ _ _) (push_item_correct _ _ new fd (iv_dl _ _ Hi) Hfresh Hnew ltac:(lia))) as ([] & q' & Eq & Hdl & He).
  exists q'. split; [done|]. apply (inv_goto w xs t); try done.
  - rewrite length_app. cbn. lia.
  - rewrite (iv_fifo _ _ Hi), fmap_app. by rewrite (assoc_L (++)).
  - by right.
  - intros t' _ _. by right; left.
  - intros b [Hb|(t' & Hne & Hb)]; [done|]. destruct (iv_pending _ _ Hi t' b Hb) as [[i H1] H2]. rewrite fmap_app. assert (b ≠ new) by congruence.
    assert (Hb' : b ∉ xs.*1 ++ [(new, fd)].*1) by (rewrite elem_of_app; cbn; set_solver). split; [|done]. rewrite He; [by rewrite H1|]. by rewrite fmap_app.
Qed.

Lemma inv_free w xs t a fd : inv w xs → pc_of w t = PopFree a fd → ∃ q', free_item a (queue w) = Ok (tt, q') ∧ inv (goto t Outside (with_queue q' w)) xs.
Proof.
  intros Hi E. destruct (iv_pending _ _ Hi t a) as [[i Ha] Hn]; [by rewrite E|]. unfold free_item. rewrite Ha. eexists. split; [done|].
  unfold with_queue. apply (inv_goto w xs t); try apply Hi; try done.
  - destruct (iv_dl _ _ Hi) as [H1 H2 H3 H4 H5]. split; cbn [head size items]; try done. intros j b fdb Hj. rewrite lookup_delete_ne; [by apply H5|]. intros <-. apply Hn. by eapply in_addrs.
  - split; [done|]. intros Hm. apply (iv_mutex _ _ Hi) in Hm. by rewrite E in Hm.
  - by left.
  - intros t' Hne Hw. destruct (iv_wait _ _ Hi t' Hw) as [|[t'' Hb]]; [by left|]. right. right. exists t''. split; [|done]. intros ->. congruence.
  - intros b [Hb|(t' & Hne & Hb)]; [done|]. destruct (iv_pending _ _ Hi t' b Hb) as [H1 H2]. split; [|done]. cbn [items]. rewrite lookup_delete_ne; [done|].
    intros <-. apply Hne. apply (iv_own _ _ Hi _ _ a); [done|]. by rewrite E.
Qed.

Lemma thread_step_inv t new w xs r : inv w xs → 0 < new → items (queue w) !! new = None → has_room w → thread_step t new w = Some r →
  ∃ w' xs', r = Ok w' ∧ inv w' xs'.
Proof.
  intros Hi Hnew Hfresh Hroom Hs. unfold thread_step in Hs. pose proof (iv_mutex _ _ Hi t) as Hm.
  assert (Hlock : ∀ p, critical p = true → pending p = None → p ≠ PopTake → p ≠ PopWait → mutex w = None → pc_of w t ≠ PushBroadcast → inv (goto t p (lock (Some t) w)) xs).
  { intros p Hp1 Hp2 Hp3 Hp4 Em Hb. apply inv_move; try done; [|by rewrite Hp2]. intros t' Ht'. rewrite Em. split; congruence. }
  assert (Hunlock : ∀ p, critical p = false → (∀ a, pending p = Some a → pending (pc_of w t) = Some a) → (p = PopWait → xs = []) → mutex w = Some t → pc_of w t ≠ PushBroadcast →
    inv (goto t p (lock None w)) xs).
  { intros p Hp1 Hp2 Hp3 Em Hb. apply inv_move; try done; [by rewrite Hp1|intros t' Ht'; rewrite Em; split; congruence|by intros ->]. }
  destruct (pc_of w t) eqn:E; cbn [critical] in Hm; try done.
  - destruct (mutex w) eqn:Em; [done|]. injection Hs as <-. eexists _, xs. split; [done|]. by apply Hlock.
  - rewrite (dl_size _ _ (iv_dl _ _ Hi)) in Hs. destruct (Z.eqb_spec (len xs) 0) as [H0|H0]; injection Hs as <-; eexists _, xs; (split; [done|]).
    + apply Hunlock; try done; [|by apply Hm]. intros _. destruct xs; [done|cbn in H0; lia].
    + replace w with (lock (mutex w) w) at 1 by (by destruct w). apply inv_move; try done; [by intros _ ->|by rewrite E].
  - injection Hs as <-. destruct (inv_pop w xs t Hi E) as (a & fd & q' & xs' & -> & _ & Hi'). by eexists _, xs'.
  - injection Hs as <-. eexists _, xs. split; [done|]. apply Hunlock; try done. by apply Hm.
  - injection Hs as <-. destruct (inv_free w xs t _ _ Hi E) as (q' & -> & Hi'). by eexists _, xs.
  - destruct (mutex w) eqn:Em; [done|]. injection Hs as <-. eexists _, xs. split; [done|]. by apply Hlock.
  - injection Hs as <-. destruct (inv_push w xs t new fd Hi E Hnew Hfresh Hroom) as (q' & -> & Hi'). by eexists _, _.
  - injection Hs as <-. eexists _, xs. split; [done|]. by apply inv_broadcast.
  - injection Hs as <-. eexists _, xs. split; [done|]. apply Hunlock; try done. by apply Hm.
Qed.

Lemma inv_enter w xs t p : inv w xs → pc_of w t ∈ [Outside; PopWait] → critical p = false → pending p = None → p ≠ PopWait → p ≠ PopTake →
  inv (goto t p w) xs.
Proof.
  intros Hi Ht Hc Hp Hw Hk. assert (Hpc : critical (pc_of w t) = false ∧ pc_of w t ≠ PushBroadcast) by (set_unfold in Ht; destruct Ht as [->|[->|[]]]; done).
  replace w with (lock (mutex w) w) by (by destruct w). apply inv_move; try done.
  - rewrite Hc. split; [done|]. intros Hm. apply (iv_mutex _ _ Hi) in Hm. destruct Hpc. congruence.
  - intros E. by destruct Hpc.
  - by rewrite Hp.
Qed.

Lemma reachable_queue_inv w : reachable w → ∃ xs, inv w xs.
Proof.
  induction 1 as [|w w' _ [xs Hi] Hs]; [exists []; apply inv_start|]. destruct Hs as [t Ht|t fd Ht|t new w' Hnew Hf Hr Hs|t Ht].
  - exists xs. apply inv_enter; try done. rewrite Ht. set_solver.
  - exists xs. apply inv_enter; try done. rewrite Ht. set_solver.
  - destruct (thread_step_inv t new w xs (Ok w') Hi Hnew Hf Hr Hs) as (w'' & xs' & [= <-] & Hi'). by exists xs'.
  - exists xs. apply inv_enter; try done. rewrite Ht. set_solver.
Qed.

(** C33: The work queue, in any run of any number of threads.  What is in the
    list is what has been pushed and not yet popped, in the order of the
    pushes: no socket is lost, none is handed out twice, and they come out
    first in, first out.  At most one thread is in a critical section.  A
    thread waits only while the queue is empty or the broadcast that wakes it
    is about to come.  No step of a thread fails: no assertion, no access to an
    item that is not there, no item freed twice. *)
Theorem wq_correct w : reachable w → ∃ xs, dl (queue w) xs ∧ pushed w = popped w ++ xs.*2 ∧
  (∀ t t', critical (pc_of w t) = true → critical (pc_of w t') = true → t = t') ∧
  (∀ t, pc_of w t = PopWait → xs = [] ∨ ∃ t', pc_of w t' = PushBroadcast) ∧
  (∀ t new f, 0 < new → items (queue w) !! new = None → has_room w → thread_step t new w ≠ Some (Err f)).
Proof.
  intros [xs Hi]%reachable_queue_inv. exists xs. split; [apply Hi|]. split; [apply Hi|]. split; [|split; [apply Hi|]].
  - intros t t' H1 H2. apply (iv_mutex _ _ Hi) in H1. symmetry. by eapply critical_unique.
  - intros t new f H1 H2 H3 E. by destruct (thread_step_inv t new w xs _ Hi H1 H2 H3 E) as (w' & xs' & ? & _).
Qed.

(** No deadlock and no lost wake-up: while the queue is not empty and a
    thread is in [wq_pop], some thread can go on by itself. *)
Theorem wq_progress w t new : reachable w → size (queue w) ≠ 0 → pc_of w t ∈ [PopLock; PopCheck; PopWait; PopTake] →
  ∃ t' w', thread_step t' new w = Some w'.
Proof.
  intros [xs Hi]%reachable_queue_inv Hs Ht.
  assert (Hcrit : ∀ t', critical (pc_of w t') = true → ∃ w', thread_step t' new w = Some w').
  { intros t' Hc. unfold thread_step. destruct (pc_of w t'), (size (queue w) =? 0); try done; by eexists. }
  destruct (mutex w) as [t'|] eqn:Em; [exists t'; apply Hcrit; by apply (iv_mutex _ _ Hi)|].
  assert (Hno : ∀ t', critical (pc_of w t') = false) by (intros t'; destruct (critical _) eqn:Hc; [apply (iv_mutex _ _ Hi) in Hc; congruence|done]).
  pose proof (Hno t) as Hct. set_unfold in Ht. destruct Ht as [E|[E|[E|[E|[]]]]]; rewrite E in Hct; try done.
  - exists t. unfold thread_step. rewrite E, Em. by eexists.
  - destruct (iv_wait _ _ Hi t E) as [->|[t' Hb]]; [by rewrite (dl_size _ _ (iv_dl _ _ Hi)) in Hs|]. specialize (Hno t'). by rewrite Hb in Hno.
Qed.

(** ** Examples *)

(** An action of thread [t], if it can go on. *)
Definition exec (t new : Z) (w : world) : world := match thread_step t new w with Some (Ok w') => w' | _ => w end.

Lemma exec_reachable t new w : reachable w → 0 < new → items (queue w) !! new = None → size (queue w) < 2 ^ 31 - 1 → reachable (exec t new w).
Proof.
  intros Hr H1 H2 H3. unfold exec. destruct (thread_step t new w) as [[w'|f]|] eqn:E; [|done..]. eapply reachable_step; [done|by eapply step_run].
Qed.

(** Thread 1 waits; thread 2 has pushed the socket 7 and still has the mutex. *)
Definition example_waiting : world := exec 1 100 (exec 1 100 (goto 1 PopLock start)).
Definition example_world : world := exec 2 100 (exec 2 100 (goto 2 (PushLock 7) example_waiting)).

Lemma example_reachable : reachable example_world.
Proof.
  repeat (apply exec_reachable; [|lia|vm_compute; reflexivity|vm_compute; reflexivity]). eapply reachable_step; [|apply step_push; vm_compute; reflexivity].
  repeat (apply exec_reachable; [|lia|vm_compute; reflexivity|vm_compute; reflexivity]). eapply reachable_step; [apply reachable_start|by apply step_pop].
Qed.

Lemma wq_correct_witness : ∃ xs, dl (queue example_world) xs ∧ [7] = [] ++ xs.*2.
Proof. destruct (wq_correct example_world example_reachable) as (xs & H1 & H2 & _). exists xs. split; [exact H1|exact H2]. Defined.

Lemma wq_progress_witness : ∃ t' w', thread_step t' 101 example_world = Some w'.
Proof.
  apply (wq_progress example_world 1 101 example_reachable); [vm_compute; discriminate|].
  assert (E : pc_of example_world 1 = PopWait) by (vm_compute; reflexivity). rewrite E. set_solver.
Defined.
