(* ===== verification/Words.v ===== *)
(** * Word counts ([hw-intro/words])

    A program that counts the words of files, in total or word by word.  A file
    is the list of its bytes.  Counts are kept in a linked list on a heap: a
    node has pointers to its word and to the next node.  The [n]th call of
    [malloc] returns [malloc_ret n]; memory is never freed.  [wordcount_sort]
    comes without source, so it is a parameter of the program. *)
From Stdlib Require Import Strings.String.
From stdpp Require Import sorting.
From S2P Require Import Prelude Bytes Stdio MapReduce MapReduceJob.
#[local] Open Scope Z_scope.

Record word_count := mk_wc { word : Z; count : Z; next : Z }.
Record heap := mk_heap { nodes : gmap Z word_count; strs : gmap Z (list Z); heads : gmap Z Z; mallocs : nat }.

Definition MAX_WORD_LEN : Z := 64.

Definition node_at (p : Z) : M heap word_count := λ h, match nodes h !! p with Some n => Ok (n, h) | None => Err BadAccess end.
Definition str_at (p : Z) : M heap (list Z) := λ h, match strs h !! p with Some s => Ok (s, h) | None => Err BadAccess end.
Definition head_at (p : Z) : M heap Z := λ h, match heads h !! p with Some x => Ok (x, h) | None => Err BadAccess end.
Definition set_node (p : Z) (n : word_count) : M heap unit := modify (λ h, mk_heap (<[p := n]> (nodes h)) (strs h) (heads h) (mallocs h)).
Definition set_str (p : Z) (s : list Z) : M heap unit := modify (λ h, mk_heap (nodes h) (<[p := s]> (strs h)) (heads h) (mallocs h)).
Definition set_head (p x : Z) : M heap unit := modify (λ h, mk_heap (nodes h) (strs h) (<[p := x]> (heads h)) (mallocs h)).

Definition lift {A} (r : result A) : M heap A := λ h, match r with Ok a => Ok (a, h) | Err f => Err f end.

(** [strcmp] on arrays that must hold a null byte. *)
Fixpoint strcmp_in (a b : list Z) : result Z :=
  match a, b with
  | x :: a, y :: b => if x =? y then if x =? 0 then Ok 0 else strcmp_in a b else Ok (x - y)
  | _, _ => Err BadAccess
  end.
Definition string_in (buf : list Z) : result (list Z) := if decide (0 ∈ buf) then Ok (c_string buf) else Err BadAccess.
Definition set_char (buf : list Z) (i c : Z) : result (list Z) := if decide (0 ≤ i < len buf) then Ok (<[Z.to_nat i := c]> buf) else Err BadAccess.

Section words.
Context (malloc_ret : nat → Z).

Definition malloc : M heap Z := λ h, Ok (malloc_ret (mallocs h), mk_heap (nodes h) (strs h) (heads h) (S (mallocs h))).

(** ** [word_count.c] *)

Definition new_string (str : list Z) : M heap Z :=
  s ← lift (string_in str);
  new_str ← malloc;
  if new_str =? NULL then mret NULL else set_str new_str s ;; mret new_str.

Definition init_words (wclist : Z) : M heap Z := if wclist =? NULL then mret 1 else set_head wclist NULL ;; mret 0.

(** The walks along the list are bounded by the number of nodes. *)
Definition walk {A} (f : nat → M heap A) : M heap A := n ← gets (λ h, S (size (nodes h))); f n.

Fixpoint len_loop (fuel : nat) (curr l : Z) : M heap Z :=
  match fuel with
  | O => throw OutOfFuel
  | S fuel => if curr =? NULL then mret l else n ← node_at curr; len_loop fuel (next n) (wrap64 (l + 1))
  end.
Definition len_words (wchead : Z) : M heap Z := walk (λ n, len_loop n wchead 0).

Fixpoint find_loop (fuel : nat) (curr : Z) (w : list Z) : M heap Z :=
  match fuel with
  | O => throw OutOfFuel
  | S fuel =>
      if curr =? NULL then mret NULL else
      n ← node_at curr; s ← str_at (word n);
      r ← lift (strcmp_in (s ++ [0]) w);
      if r =? 0 then mret curr else find_loop fuel (next n) w
  end.
Definition find_word (wchead : Z) (w : list Z) : M heap Z := walk (λ n, find_loop n wchead w).

Definition add_word (wclist : Z) (w : list Z) : M heap Z :=
  if wclist =? NULL then mret 1 else
  hd ← head_at wclist;
  found ← find_word hd w;
  if negb (found =? NULL) then
    n ← node_at found;
    set_node found (mk_wc (word n) (int32 (count n + 1)) (next n)) ;; mret 0
  else
    new_word ← malloc;
    if new_word =? NULL then mret 1 else
    p ← new_string w;
    if p =? NULL then mret 1 else
    hd ← head_at wclist;
    set_node new_word (mk_wc p 1 hd) ;;
    set_head wclist new_word ;;
    mret 0.

(** [fprintf (ofile, "%i\t%s\n", ..)] *)
Fixpoint print_loop (fuel : nat) (wc : Z) : M heap (list Z) :=
  match fuel with
  | O => throw OutOfFuel
  | S fuel =>
      if wc =? NULL then mret [] else
      n ← node_at wc; s ← str_at (word n);
      out ← print_loop fuel (next n);
      mret (dec (count n) ++ [9] ++ s ++ [10] ++ out)
  end.
Definition fprint_words (wchead : Z) : M heap (list Z) := walk (λ n, print_loop n wchead).

(** ** [main.c] *)

Fixpoint num_loop (infile : list Z) (num_words letterCount : Z) (inWord : bool) : Z :=
  match infile with
  | [] => num_words
  | curr :: infile =>
      if isalpha (signed 8 curr) then
        let letterCount := int32 (letterCount + 1) in
        if negb inWord && (2 <=? letterCount) then num_loop infile (int32 (num_words + 1)) letterCount true
        else num_loop infile num_words letterCount inWord
      else num_loop infile num_words 0 false
  end.
Definition num_words (infile : list Z) : Z := num_loop infile 0 0 false.

Definition no_word : list Z := replicate (Z.to_nat (MAX_WORD_LEN + 1)) 0.

Fixpoint count_loop (wclist : Z) (infile word : list Z) (letterCount : Z) (inWord : bool) : M heap Z :=
  match infile with
  | [] =>
      r ← lift (strcmp_in word no_word);
      if negb (r =? 0) && inWord then
        err ← add_word wclist word; if err =? 1 then mret 1 else mret 0
      else mret 0
  | curr :: infile =>
      if isalpha (signed 8 curr) then
        word ← lift (set_char word letterCount (tolower curr));
        let letterCount := int32 (letterCount + 1) in
        count_loop wclist infile word letterCount (if negb inWord && (2 <=? letterCount) then true else inWord)
      else if inWord then
        err ← add_word wclist word;
        if err =? 1 then mret 1 else count_loop wclist infile no_word 0 false
      else count_loop wclist infile no_word 0 false
  end.
Definition count_words (wclist : Z) (infile : option (list Z)) : M heap Z :=
  match infile with
  | None => mret 1
  | Some infile => if wclist =? NULL then mret 1 else count_loop wclist infile no_word 0 false
  end.

Definition wordcount_less (wc1 wc2 : list Z * Z) : bool :=
  if wc2.2 <? wc1.2 then false
  else if wc1.2 <? wc2.2 then true
  else if 0 <=? strcmp wc1.1 wc2.1 then false else true.

(** The options that [getopt_long] finds: [true] for the total; [None] for the
    help text. *)
Fixpoint set_flags (count_mode : bool) (options : list Z) : option bool :=
  match options with
  | [] => Some count_mode
  | i :: options => if i =? 99 then set_flags true options else if i =? 102 then set_flags false options
                    else if i =? 104 then None else set_flags count_mode options
  end.

Section main.
Context (wordcount_sort : Z → (list Z * Z → list Z * Z → bool) → M heap unit).
Context (display_help : list Z).

Definition total_line (n : Z) : list Z := text "The total number of words is: " ++ dec n ++ [10].
Definition freq_line : list Z := text "The frequencies of each word are: " ++ [10].

(** Files in the order of the arguments, [None] one that cannot be opened: the
    exit status and the output. *)
Fixpoint total_files (files : list (option (list Z))) (total : Z) : Z * list Z :=
  match files with
  | [] => (0, total_line total)
  | None :: _ => (1, [])
  | Some infile :: files => total_files files (int32 (total + num_words infile))
  end.

Fixpoint freq_files (wclist : Z) (files : list (option (list Z))) : M heap (Z * list Z) :=
  match files with
  | [] => mret (0, [])
  | None :: _ => mret (1, [])
  | Some infile :: files =>
      err ← count_words wclist (Some infile);
      if err =? 1 then mret (1, []) else
      wordcount_sort wclist wordcount_less ;;
      match files with
      | [] => hd ← head_at wclist; out ← fprint_words hd; mret (0, freq_line ++ out)
      | _ => freq_files wclist files
      end
  end.

Definition main (wclist : Z) (options : list Z) (files : list (option (list Z))) (stdin : list Z) : M heap (Z * list Z) :=
  match set_flags true options with
  | None => mret (0, display_help)
  | Some count_mode =>
      initerr ← init_words wclist;
      if initerr =? 1 then mret (1, []) else
      match files with
      | [] =>
          if (count_mode : bool) then mret (0, total_line (num_words stdin))
          else
            err ← count_words wclist (Some stdin);
            if err =? 1 then mret (1, []) else
            wordcount_sort wclist wordcount_less ;;
            hd ← head_at wclist; out ← fprint_words hd; mret (0, freq_line ++ out)
      | _ => if (count_mode : bool) then mret (total_files files 0) else freq_files wclist files
      end
  end.
End main.
End words.

(** ** The list of counts *)

Abbreviation lower := (λ w : list Z, tolower <$> w).
Abbreviation letters := (Forall (λ c : Z, isalpha c = true)).

(** The nodes from [p] on. *)
Fixpoint chain (h : heap) (p : Z) (ps : list Z) : Prop :=
  match ps with
  | [] => p = NULL
  | a :: ps => p = a ∧ a ≠ NULL ∧ ∃ n, nodes h !! a = Some n ∧ chain h (next n) ps
  end.
Definition entry (h : heap) (ws : list (list Z)) (a : Z) (κ : list Z) : Prop :=
  ∃ n, nodes h !! a = Some n ∧ strs h !! word n = Some κ ∧ count n = occ κ ws.

Section proofs.
Context (malloc_ret : nat → Z).

Definition allocated (h : heap) (p : Z) : Prop := ∃ i, (i < mallocs h)%nat ∧ malloc_ret i = p.

(** The list at [wclist] has one node for every word of [ws], in the order
    [ks], with the number of its occurrences. *)
Record counts (wclist : Z) (h : heap) (ws ks : list (list Z)) : Prop := {
  co_list : ∃ p ps, heads h !! wclist = Some p ∧ chain h p ps ∧ NoDup ps ∧ Forall2 (entry h ws) ps ks;
  co_keys : NoDup ks ∧ (∀ w, w ∈ ks ↔ w ∈ ws) ∧ Forall zero_free ks;
  co_nodes : ∀ p, is_Some (nodes h !! p) → allocated h p;
  co_strs : ∀ p, is_Some (strs h !! p) → allocated h p
}.

Lemma strcmp_in_eq s w rest : zero_free s → zero_free w → ∃ r, strcmp_in (s ++ [0]) (w ++ 0 :: rest) = Ok r ∧ (r = 0 ↔ s = w).
Proof.
  revert w. induction s as [|x s IH]; intros [|y w] Hs Hw; cbn [Datatypes.app strcmp_in].
  - by exists 0.
  - apply Forall_cons in Hw as [Hy _]. rewrite (proj2 (Z.eqb_neq 0 y)) by lia. exists (0 - y). split; [done|]. split; [lia|done].
  - apply Forall_cons in Hs as [Hx _]. rewrite (proj2 (Z.eqb_neq x 0)) by lia. exists (x - 0). split; [done|]. split; [lia|done].
  - apply Forall_cons in Hs as [Hx Hs]. apply Forall_cons in Hw as [Hy Hw]. destruct (Z.eqb_spec x y) as [->|E].
    + rewrite (proj2 (Z.eqb_neq y 0)) by lia. destruct (IH w Hs Hw) as (r & Hr & Hiff). exists r. split; [done|]. rewrite Hiff. naive_solver.
    + exists (x - y). split; [done|]. split; [lia|]. by intros [= ? ?].
Qed.

Lemma string_in_eq w rest : zero_free w → string_in (w ++ 0 :: rest) = Ok w.
Proof.
  intros H. unfold string_in. rewrite decide_True by set_solver. f_equal. induction H as [|c w Hc _ IH]; cbn [Datatypes.app c_string]; [done|].
  rewrite (proj2 (Z.eqb_neq c 0)) by lia. by rewrite IH.
Qed.

Lemma chain_elem h p ps a : chain h p ps → a ∈ ps → is_Some (nodes h !! a).
Proof.
  revert p. induction ps as [|b ps IH]; intros p H Ha; [by apply not_elem_of_nil in Ha|]. destruct H as (_ & _ & n & Hn & H).
  apply elem_of_cons in Ha as [->|Ha]; [by exists n|]. by eapply IH.
Qed.

Lemma chain_length h p ps : chain h p ps → NoDup ps → (length ps ≤ size (nodes h))%nat.
Proof.
  intros H Hd. rewrite <-size_dom. rewrite <-(size_list_to_set (C := gset Z) ps) by done. apply subseteq_size.
  intros a Ha%elem_of_list_to_set. apply elem_of_dom. by eapply chain_elem.
Qed.

Lemma list_chain_ext h h' p ps : (∀ a n, a ∈ ps → nodes h !! a = Some n → ∃ n', nodes h' !! a = Some n' ∧ next n' = next n) → chain h p ps → chain h' p ps.
Proof.
  revert p. induction ps as [|b ps IH]; intros p Hext H; [done|]. destruct H as (-> & Hb & n & Hn & H).
  destruct (Hext b n) as (n' & Hn' & En); [by left|done|]. split; [done|]. split; [done|]. exists n'. split; [done|]. rewrite En. apply IH; [|done].
  intros a m Ha. apply Hext. by right.
Qed.

Lemma Forall2_entry_ext h h' ws ps ks : (∀ a, a ∈ ps → nodes h' !! a = nodes h !! a) → (∀ a, is_Some (strs h !! a) → strs h' !! a = strs h !! a) →
  Forall2 (entry h ws) ps ks → Forall2 (entry h' ws) ps ks.
Proof.
  intros Hn Hs H. induction H as [|a κ ps ks (n & E1 & E2 & E3) H IH]; constructor.
  - exists n. rewrite Hn by (by left). split; [done|]. rewrite Hs by (by exists κ). done.
  - apply IH. intros b Hb. apply Hn. by right.
Qed.

(** Another heap with the same list. *)
Lemma counts_ext wclist h h' ws ks : counts wclist h ws ks → nodes h' = nodes h → strs h' = strs h → heads h' = heads h → (mallocs h ≤ mallocs h')%nat → counts wclist h' ws ks.
Proof.
  intros [(p & ps & H1 & H2 & H3 & H4) Hk Hn Hs] E1 E2 E3 E4. split; [|done|..].
  - exists p, ps. rewrite E3. split; [done|]. split; [|split; [done|]].
    + eapply list_chain_ext; [|done]. intros a n _ Ha. exists n. by rewrite E1.
    + eapply Forall2_entry_ext; [..|done]; intros; by rewrite ?E1, ?E2.
  - intros q Hq. rewrite E1 in Hq. destruct (Hn q Hq) as (i & Hi & <-). exists i. split; [lia|done].
  - intros q Hq. rewrite E2 in Hq. destruct (Hs q Hq) as (i & Hi & <-). exists i. split; [lia|done].
Qed.

Lemma find_loop_ok h ws w rest fuel p ps ks (Q : Z → heap → Prop) : chain h p ps → Forall2 (entry h ws) ps ks → Forall zero_free ks → zero_free w →
  (length ps < fuel)%nat →
  (w ∉ ks → Q NULL h) → (∀ i a, ps !! i = Some a → ks !! i = Some w → Q a h) → wp (find_loop fuel p (w ++ 0 :: rest)) Q h.
Proof.
  intros Hc He. revert p fuel Hc. induction He as [|a κ ps ks (n & Hn & Hs & _) He IH]; intros p fuel Hc Hz Hw Hf H0 H1;
    (destruct fuel as [|fuel]; [cbn in Hf; lia|]); cbn [find_loop].
  - cbn in Hc. subst p. cbn [Z.eqb]. wp_step. apply H0. by apply not_elem_of_nil.
  - destruct Hc as (-> & Ha & n' & Hn' & Hc). rewrite Hn in Hn'. injection Hn' as <-. rewrite (proj2 (Z.eqb_neq a 0)) by done.
    apply Forall_cons in Hz as [Hκ Hz]. wp_step. unfold wp at 1, node_at. rewrite Hn. wp_step. unfold wp at 1, str_at. rewrite Hs.
    destruct (strcmp_in_eq κ w rest Hκ Hw) as (r & Hr & Hiff). wp_step. unfold wp at 1, lift. rewrite Hr. destruct (Z.eqb_spec r 0) as [E|E].
    + wp_step. apply Hiff in E as ->. by apply (H1 0%nat).
    + apply IH; [done|done|done|cbn in Hf; lia| |].
      * intros Hni. apply H0. rewrite not_elem_of_cons. split; [|done]. intros ->. by apply E, Hiff.
      * intros i b Hb Hk. by apply (H1 (S i)).
Qed.

(** [malloc] does not return an address twice. *)
Context (Hmalloc : ∀ i j, malloc_ret i = malloc_ret j → malloc_ret i ≠ NULL → i = j).

(** An allocation failed. *)
Definition out_of_memory : Prop := ∃ i, malloc_ret i = NULL.

Lemma not_allocated h i p : allocated h p → (mallocs h ≤ i)%nat → malloc_ret i ≠ NULL → p ≠ malloc_ret i.
Proof. intros (j & Hj & <-) Hi H0 E. symmetry in E. apply Hmalloc in E; [lia|done]. Qed.

Lemma Forall2_index {A B} (R : A → B → Prop) l k i a b : Forall2 R l k → l !! i = Some a → k !! i = Some b → R a b.
Proof. intros H Ha Hb. by eapply Forall2_lookup_lr. Qed.

(** One more occurrence of a word that is in the list. *)
Lemma counts_increment wclist h ws ks w i a p ps n : heads h !! wclist = Some p → chain h p ps → NoDup ps → Forall2 (entry h ws) ps ks →
  counts wclist h ws ks → ps !! i = Some a → ks !! i = Some w → nodes h !! a = Some n → len ws < 2 ^ 31 - 1 →
  counts wclist (mk_heap (<[a := mk_wc (word n) (int32 (count n + 1)) (next n)]> (nodes h)) (strs h) (heads h) (mallocs h)) (ws ++ [w]) ks.
Proof.
  intros Hp Hc Hd He [_ (Hk1 & Hk2 & Hk3) Hns Hss] Ha Hw Hn Hl. split; cbn [heads nodes strs mallocs].
  - exists p, ps. split; [done|]. split_and!; [|done|].
    + eapply list_chain_ext; [|done]. intros b m Hb Hm. cbn [nodes]. destruct (decide (b = a)) as [->|].
      * rewrite lookup_insert_eq. eexists. split; [done|]. cbn. congruence.
      * rewrite lookup_insert_ne by done. by exists m.
    + apply Forall2_same_length_lookup_2; [by eapply Forall2_length|]. intros j b κ Hb Hκ.
      destruct (Forall2_index _ _ _ _ _ _ He Hb Hκ) as (m & Hm & Hs & Hcn). unfold entry. cbn [nodes strs]. rewrite occ_snoc. destruct (decide (b = a)) as [->|Hne].
      * assert (j = i) as -> by (eapply (NoDup_lookup ps); done). rewrite lookup_insert_eq. eexists. split; [done|]. cbn [word count]. simplify_eq.
        split; [done|]. rewrite decide_True by done. pose proof (occ_bound w ws). rewrite Hcn, (signed_small 32) by lia. done.
      * rewrite lookup_insert_ne by done. exists m. split; [done|]. split; [done|]. rewrite decide_False; [lia|]. intros ->. apply Hne.
        assert (j = i) as -> by (eapply (NoDup_lookup ks); done). congruence.
  - split_and!; [done| |done]. intros v. rewrite elem_of_app, list_elem_of_singleton, <-Hk2. split; [by left|]. intros [? | ->]; [done|]. by eapply list_elem_of_lookup_2.
  - intros q [m Hm]. destruct (decide (q = a)) as [->|]; [apply Hns; by exists n|]. rewrite lookup_insert_ne in Hm by done. apply Hns. by exists m.
  - exact Hss.
Qed.

(** A new node at the front. *)
Lemma counts_add wclist h ws ks w i j : counts wclist h ws ks → w ∉ ks → zero_free w → (mallocs h ≤ i)%nat → (i < j)%nat → malloc_ret i ≠ NULL → malloc_ret j ≠ NULL →
  ∃ p, heads h !! wclist = Some p ∧
  counts wclist (mk_heap (<[malloc_ret i := mk_wc (malloc_ret j) 1 p]> (nodes h)) (<[malloc_ret j := w]> (strs h)) (<[wclist := malloc_ret i]> (heads h)) (S j)) (ws ++ [w]) (w :: ks).
Proof.
  intros [(p & ps & Hp & Hc & Hd & He) (Hk1 & Hk2 & Hk3) Hns Hss] Hw Hz Hi Hj Hni Hnj. exists p. split; [done|].
  assert (Hfi : ∀ q, is_Some (nodes h !! q) → q ≠ malloc_ret i) by (intros q Hq; eapply not_allocated; [by apply Hns|lia|done]).
  assert (Hfj : ∀ q, is_Some (strs h !! q) → q ≠ malloc_ret j) by (intros q Hq; eapply not_allocated; [by apply Hss|lia|done]).
  assert (Hps : ∀ a, a ∈ ps → a ≠ malloc_ret i) by (intros a Ha; apply Hfi; by eapply chain_elem).
  split; cbn [heads nodes strs mallocs].
  - exists (malloc_ret i), (malloc_ret i :: ps). rewrite lookup_insert_eq. split; [done|]. split_and!.
    + cbn [chain nodes]. split; [done|]. split; [done|]. eexists. rewrite lookup_insert_eq. split; [done|]. cbn [next]. eapply list_chain_ext; [|done].
      intros a n Ha Hn. exists n. cbn [nodes]. rewrite lookup_insert_ne by (symmetry; by apply Hps). done.
    + apply NoDup_cons. split; [|done]. intros Ha. by apply (Hps _ Ha).
    + constructor.
      * eexists. cbn [nodes strs]. rewrite lookup_insert_eq. split; [done|]. cbn [word count]. rewrite lookup_insert_eq. split; [done|].
        rewrite occ_snoc, decide_True, occ_absent by (by rewrite <-?Hk2). done.
      * assert (He' : Forall2 (entry h (ws ++ [w])) ps ks).
        { apply Forall2_same_length_lookup_2; [by eapply Forall2_length|]. intros k a κ Ha Hκ. destruct (Forall2_index _ _ _ _ _ _ He Ha Hκ) as (n & H1 & H2 & H3).
          exists n. split; [done|]. split; [done|]. rewrite occ_snoc, decide_False; [lia|]. intros ->. apply Hw. by eapply list_elem_of_lookup_2. }
        eapply Forall2_entry_ext; [..|exact He']; cbn [nodes strs].
        -- intros a Ha. rewrite lookup_insert_ne by (symmetry; by apply Hps). done.
        -- intros a Ha. rewrite lookup_insert_ne by (symmetry; by apply Hfj). done.
  - split_and!; [by apply NoDup_cons| |by constructor]. intros v. rewrite elem_of_cons, elem_of_app, list_elem_of_singleton, Hk2. tauto.
  - intros q [m Hm]. destruct (decide (q = malloc_ret i)) as [->|]; [exists i; cbn; split; [lia|done]|]. rewrite lookup_insert_ne in Hm by done.
    destruct (Hns q) as (k & Hk & <-); [by exists m|]. exists k. cbn. split; [lia|done].
  - intros q [m Hm]. destruct (decide (q = malloc_ret j)) as [->|]; [exists j; cbn; split; [lia|done]|]. rewrite lookup_insert_ne in Hm by done.
    destruct (Hss q) as (k & Hk & <-); [by exists m|]. exists k. cbn. split; [lia|done].
Qed.

Lemma add_word_ok wclist h ws ks w rest (Q : Z → heap → Prop) : wclist ≠ NULL → counts wclist h ws ks → zero_free w → len ws < 2 ^ 31 - 1 →
  (∀ h' ks', counts wclist h' (ws ++ [w]) ks' → Q 0 h') → (∀ h', counts wclist h' ws ks → out_of_memory → Q 1 h') →
  wp (add_word malloc_ret wclist (w ++ 0 :: rest)) Q h.
Proof.
  intros H0 Hco Hz Hl HQ HQ1. pose proof Hco as [(p & ps & Hp & Hc & Hd & He) (Hk1 & Hk2 & Hk3) Hns Hss].
  unfold add_word. rewrite (proj2 (Z.eqb_neq wclist 0)) by done. wp_step. unfold wp at 1, head_at. rewrite Hp. unfold find_word, walk. wp_step. wp_step. wp_step.
  pose proof (chain_length _ _ _ Hc Hd). eapply find_loop_ok; [done|done|done|done|lia|..]; cbv beta.
  - intros Hw. cbn [Z.eqb negb]. wp_step. unfold wp at 1, malloc. destruct (Z.eqb_spec (malloc_ret (mallocs h)) 0) as [E|E].
    { wp_step. apply HQ1; [eapply counts_ext; [done..|cbn; lia]|by eexists]. }
    unfold new_string. wp_step. wp_step. unfold lift at 1, wp at 1. rewrite string_in_eq by done. wp_step. unfold malloc, wp at 1. cbn [mallocs nodes strs heads].
    destruct (Z.eqb_spec (malloc_ret (S (mallocs h))) 0) as [E1|E1].
    { wp_step. cbn [Z.eqb]. wp_step. apply HQ1; [eapply counts_ext; [done..|cbn; lia]|by eexists]. }
    destruct (counts_add wclist h ws ks w (mallocs h) (S (mallocs h))) as (p' & Hp' & Hco'); [done..|lia|lia|done|done|]. rewrite Hp in Hp'. injection Hp' as <-.
    wp_step. unfold set_str. wp_step. wp_step. rewrite (proj2 (Z.eqb_neq _ 0) E1). wp_step. unfold head_at, wp at 1. cbn [heads]. rewrite Hp.
    wp_step. unfold set_node. wp_step. wp_step. unfold set_head. wp_step. wp_step. cbn [nodes strs heads mallocs]. eapply HQ. exact Hco'.
  - intros i a Ha Hw. assert (a ≠ NULL) as Han. { clear -Hc Ha. revert p i Hc Ha. induction ps as [|b ps IH]; intros p [|i] Hc Ha; [done|done|..]; destruct Hc as (_ & Hb & n & _ & Hc); [by injection Ha as <-|by eapply IH]. }
    rewrite (proj2 (Z.eqb_neq a 0)) by done. cbn [negb]. destruct (Forall2_index _ _ _ _ _ _ He Ha Hw) as (n & Hn & _ & _).
    wp_step. unfold node_at, wp at 1. rewrite Hn. wp_step. unfold set_node. wp_step. wp_step. eapply HQ. by eapply counts_increment.
Qed.

(** ** The words of a file *)

Definition buffer (cur : list Z) : list Z := (tolower <$> cur) ++ replicate (65 - length cur) 0.

Lemma isalpha_char c : is_byte c → isalpha (signed 8 c) = isalpha c.
Proof.
  unfold is_byte. intros H. destruct (decide (c < 128)); [by rewrite (signed_small 8) by lia|].
  assert (signed 8 c < 0). { unfold signed. rewrite Z.mod_small by lia. change (2 ^ 8) with 256. destruct (Z.ltb_spec c (2 ^ (8 - 1))); lia. }
  unfold isalpha. repeat match goal with |- context [Z.leb ?x ?y] => destruct (Z.leb_spec x y) end; cbn; first [done | lia].
Qed.

Lemma lower_zero_free w : letters w → zero_free (tolower <$> w).
Proof.
  intros H. apply Forall_fmap. eapply Forall_impl; [exact H|]. intros c. unfold isalpha, tolower. cbn.
  repeat match goal with |- context [Z.leb ?x ?y] => destruct (Z.leb_spec x y) end; cbn; intros; first [done | lia].
Qed.

Lemma buffer_string cur : len cur ≤ 64 → buffer cur = (tolower <$> cur) ++ 0 :: replicate (64 - length cur) 0.
Proof. intros H. unfold buffer. f_equal. by replace (65 - length cur)%nat with (S (64 - length cur)) by lia. Qed.

Lemma buffer_snoc cur c : len cur < 65 → set_char (buffer cur) (len cur) (tolower c) = Ok (buffer (cur ++ [c])).
Proof.
  intros H. unfold set_char, buffer. rewrite decide_True by (rewrite length_app, length_fmap, length_replicate; lia). f_equal.
  rewrite Nat2Z.id, fmap_app, length_app. replace (length cur) with (length (tolower <$> cur) + 0)%nat at 1 by (rewrite length_fmap; lia).
  rewrite insert_app_r. replace (65 - length cur)%nat with (S (65 - (length cur + length [c]))) by (cbn; lia). rewrite <-app_assoc. done.
Qed.

Lemma runs_cur cur text : ∃ w, w ∈ alpha_runs cur text ∧ (length cur ≤ length w)%nat.
Proof.
  revert cur. induction text as [|c text IH]; intros cur; cbn [alpha_runs]; [exists cur; by split; [left|]|].
  destruct (isalpha c); [|exists cur; by split; [left|]]. destruct (IH (cur ++ [c])) as (w & Hw & Hl). exists w. rewrite length_app in Hl. split; [done|lia].
Qed.

Lemma not_word (cur : list Z) : bool_decide (2 ≤ len cur) = false → ¬ is_word cur.
Proof. intros H%bool_decide_eq_false. unfold is_word. lia. Qed.

Lemma count_loop_ok wclist infile cur h ws ks (Q : Z → heap → Prop) : bytes infile → wclist ≠ NULL → counts wclist h ws ks → letters cur →
  (∀ w, w ∈ alpha_runs cur infile → len w ≤ 64) → len ws + len (word_runs cur infile) < 2 ^ 31 - 1 →
  (∀ h' ks', counts wclist h' (ws ++ (lower <$> word_runs cur infile)) ks' → Q 0 h') →
  (∀ h' ks' k, counts wclist h' (ws ++ take k (lower <$> word_runs cur infile)) ks' → out_of_memory → Q 1 h') →
  wp (count_loop malloc_ret wclist infile (buffer cur) (len cur) (bool_decide (2 ≤ len cur))) Q h.
Proof.
  intros Hb H0. revert cur h ws ks. induction Hb as [|c infile Hc Hb IH]; intros cur h ws ks Hco Hcur Hr Hl HQ HQ1; cbn [count_loop].
  - assert (Hcl : len cur ≤ 64) by (apply Hr; by left). rewrite buffer_string by done.
    assert (∃ r, strcmp_in ((tolower <$> cur) ++ 0 :: replicate (64 - length cur) 0) no_word = Ok r ∧ (r = 0 ↔ cur = [])) as (r & Hr' & Hiff).
    { destruct cur as [|x cur]; [by exists 0|]. apply lower_zero_free in Hcur as Hz. apply Forall_cons in Hz as [Hx _]. exists (tolower x - 0).
      change no_word with (0 :: replicate 64 0). cbn [fmap list_fmap Datatypes.app strcmp_in]. rewrite (proj2 (Z.eqb_neq (tolower x) 0)) by lia. split; [done|]. split; [lia|done]. }
    wp_step. unfold lift, wp at 1. rewrite Hr'. rewrite word_runs_nil in *. destruct (bool_decide (2 ≤ len cur)) eqn:E.
    + apply bool_decide_eq_true in E. rewrite decide_True in * by (unfold is_word; lia). rewrite (proj2 (Z.eqb_neq r 0)) by (rewrite Hiff; intros ->; cbn in E; lia). cbn [negb andb].
      wp_step. eapply add_word_ok; [done|done|by apply lower_zero_free|cbn in Hl; lia|..].
      * intros h' ks' H. cbn [Z.eqb Pos.eqb]. wp_step. by eapply HQ.
      * intros h' H Hm. cbn [Z.eqb Pos.eqb]. wp_step. eapply (HQ1 h' ks 0%nat); [|done]. cbn [take]. by rewrite app_nil_r.
    + rewrite andb_false_r. wp_step. apply not_word in E. rewrite decide_False in HQ by done. eapply HQ. cbn [fmap list_fmap]. by rewrite app_nil_r.
  - rewrite isalpha_char by done. destruct (isalpha c) eqn:Ea.
    + rewrite word_runs_alpha in * by done. assert (Hcl : len cur < 64).
      { cbn [alpha_runs] in Hr. rewrite Ea in Hr. destruct (runs_cur (cur ++ [c]) infile) as (w & Hw & Hlw). specialize (Hr w Hw). rewrite length_app in Hlw. cbn [length] in Hlw. lia. }
      wp_step. unfold lift, wp at 1. rewrite buffer_snoc by lia. rewrite (signed_small 32) by lia.
      replace (len cur + 1) with (len (cur ++ [c])) by (rewrite length_app; cbn [length]; lia).
      replace (if negb (bool_decide (2 ≤ len cur)) && (2 <=? len (cur ++ [c])) then true else bool_decide (2 ≤ len cur)) with (bool_decide (2 ≤ len (cur ++ [c]))).
      2:{ rewrite length_app. cbn [length]. repeat case_bool_decide; destruct (Z.leb_spec 2 (Z.of_nat (length cur + 1))); cbn; lia || done. }
      eapply IH; [done| | |done|done|done].
      * apply Forall_app. split; [done|by apply Forall_singleton].
      * cbn [alpha_runs] in Hr. by rewrite Ea in Hr.
    + rewrite word_runs_other in * by done. cbn [alpha_runs] in Hr. rewrite Ea in Hr. assert (Hcl : len cur ≤ 64) by (apply Hr; by left).
      assert (Hr' : ∀ w, w ∈ alpha_runs [] infile → len w ≤ 64) by (intros w Hw; apply Hr; by right). destruct (bool_decide (2 ≤ len cur)) eqn:E.
      * apply bool_decide_eq_true in E. rewrite decide_True in * by (unfold is_word; lia). cbn [Datatypes.app length] in Hl. rewrite buffer_string by done.
        wp_step. eapply add_word_ok; [done|done|by apply lower_zero_free|lia|..].
        -- intros h' ks' H. cbn [Z.eqb Pos.eqb]. eapply (IH []); [exact H|constructor|done|rewrite length_app; cbn [length]; lia|..].
           ++ intros h'' ks''. rewrite <-app_assoc. apply HQ.
           ++ intros h'' ks'' k H''. eapply (HQ1 h'' ks'' (S k)). rewrite <-app_assoc in H''. exact H''.
        -- intros h' H Hm. cbn [Z.eqb Pos.eqb]. wp_step. eapply (HQ1 h' ks 0%nat); [|done]. cbn [take]. by rewrite app_nil_r.
      * apply not_word in E. rewrite decide_False in * by done. cbn [Datatypes.app] in *. by eapply (IH []).
Qed.

(** ** Output *)

Lemma print_loop_ok h ws fuel p ps ks (Q : list Z → heap → Prop) : chain h p ps → Forall2 (entry h ws) ps ks → (length ps < fuel)%nat →
  Q (flat_map (line ws) ks) h → wp (print_loop fuel p) Q h.
Proof.
  intros Hc He. revert p fuel Q Hc. induction He as [|a κ ps ks (n & Hn & Hs & Hcn) He IH]; intros p fuel Q Hc Hf HQ;
    (destruct fuel as [|fuel]; [cbn in Hf; lia|]); cbn [print_loop].
  - cbn in Hc. subst p. cbn [Z.eqb]. by wp_step.
  - destruct Hc as (-> & Ha & n' & Hn' & Hc). rewrite Hn in Hn'. injection Hn' as <-. rewrite (proj2 (Z.eqb_neq a 0)) by done.
    wp_step. unfold wp at 1, node_at. rewrite Hn. wp_step. unfold wp at 1, str_at. rewrite Hs. wp_step. eapply IH; [done|cbn in Hf; lia|].
    wp_step. rewrite Hcn. cbn [flat_map] in HQ. unfold line in HQ at 1. rewrite <-!app_assoc in HQ. exact HQ.
Qed.

Lemma fprint_words_ok wclist h ws ks (Q : list Z → heap → Prop) : counts wclist h ws ks → Q (flat_map (line ws) ks) h →
  wp (hd ← head_at wclist; fprint_words hd) Q h.
Proof.
  intros [(p & ps & Hp & Hc & Hd & He) _ _ _] HQ. wp_step. unfold wp at 1, head_at. rewrite Hp. unfold fprint_words, walk. wp_step. wp_step.
  pose proof (chain_length _ _ _ Hc Hd). eapply print_loop_ok; [done|done|lia|done].
Qed.

Definition tally (ws : list (list Z)) (κ : list Z) : list Z * Z := (κ, occ κ ws).

Lemma wordcount_less_rank ws κ1 κ2 : zero_free κ1 → zero_free κ2 → wordcount_less (tally ws κ2) (tally ws κ1) = false ↔ rank ws κ1 κ2.
Proof.
  intros H1 H2. unfold wordcount_less, rank, tally. cbn [fst snd]. pose proof (strcmp_blex κ2 κ1 H2 H1) as Hs. rewrite (blex_opp κ1 κ2) in Hs.
  destruct (Z.ltb_spec (occ κ1 ws) (occ κ2 ws)); [split; [lia|done]|]. destruct (Z.ltb_spec (occ κ2 ws) (occ κ1 ws)); [split; [done|lia]|].
  destruct (Z.leb_spec 0 (strcmp κ2 κ1)); split; intros; try done; try lia.
Qed.

(** A comparison that orders the entries: a strict weak order on them. *)
Definition orders (less : list Z * Z → list Z * Z → bool) (es : list (list Z * Z)) : Prop :=
  (∀ x y, x ∈ es → y ∈ es → less x y = true → less y x = false) ∧
  (∀ x y z, x ∈ es → y ∈ es → z ∈ es → less y x = false → less z y = false → less z x = false).

Lemma wordcount_less_orders ws ks : Forall zero_free ks → orders wordcount_less (tally ws <$> ks).
Proof.
  intros Hz. rewrite Forall_forall in Hz. split.
  - intros x y (κ1 & -> & H1)%list_elem_of_fmap (κ2 & -> & H2)%list_elem_of_fmap H. rewrite wordcount_less_rank by auto.
    apply not_false_iff_true in H. rewrite wordcount_less_rank in H by auto. unfold rank in *. pose proof (blex_total κ1 κ2). lia.
  - intros x y z (κ1 & -> & H1)%list_elem_of_fmap (κ2 & -> & H2)%list_elem_of_fmap (κ3 & -> & H3)%list_elem_of_fmap. rewrite !wordcount_less_rank by auto.
    unfold rank. pose proof (blex_trans κ1 κ2 κ3). lia.
Qed.

(** What is promised of [wordcount_sort]: it reorders the list in place. *)
Class Wordcount_sort (wordcount_sort : Z → (list Z * Z → list Z * Z → bool) → M heap unit) : Prop :=
  sort_in_place less wclist h ws ks : orders less (tally ws <$> ks) → counts wclist h ws ks →
    wp (wordcount_sort wclist less) (λ _ h', ∃ ks', counts wclist h' ws ks' ∧ ks' ≡ₚ ks ∧ StronglySorted (λ κ1 κ2, less (tally ws κ2) (tally ws κ1) = false) ks') h.

Section main.
Context (wordcount_sort : Z → (list Z * Z → list Z * Z → bool) → M heap unit) `{Hsort : !Wordcount_sort wordcount_sort} (help : list Z).

Lemma StronglySorted_impl_in {A} (R R' : A → A → Prop) l : (∀ x y, x ∈ l → y ∈ l → R x y → R' x y) → StronglySorted R l → StronglySorted R' l.
Proof.
  intros H Hs. induction Hs as [|x l Hs IH Hf]; constructor.
  - apply IH. intros y z Hy Hz. apply H; by right.
  - rewrite Forall_forall in Hf. apply Forall_forall. intros y Hy. apply H; [by left|by right|by apply Hf].
Qed.

Lemma sorted_ok wclist h ws ks (Q : unit → heap → Prop) : counts wclist h ws ks →
  (∀ h' ks', counts wclist h' ws ks' → StronglySorted (rank ws) ks' → Q tt h') → wp (wordcount_sort wclist wordcount_less) Q h.
Proof.
  intros Hco HQ. pose proof (co_keys _ _ _ _ Hco) as (_ & _ & Hz). eapply wp_mono; [apply sort_in_place; [by apply wordcount_less_orders|done]|].
  intros [] h' (ks' & Hco' & _ & Hs). eapply HQ; [done|]. pose proof (co_keys _ _ _ _ Hco') as (_ & _ & Hz'). rewrite Forall_forall in Hz'.
  eapply StronglySorted_impl_in; [|exact Hs]. intros x y Hx Hy. rewrite wordcount_less_rank by auto. done.
Qed.

(** What the program prints for the words [ws]: a line for each of them. *)
Definition frequencies (ws : list (list Z)) (out : list Z) : Prop :=
  ∃ ks, NoDup ks ∧ (∀ w, w ∈ ks ↔ w ∈ ws) ∧ StronglySorted (rank ws) ks ∧ out = freq_line ++ flat_map (line ws) ks.

Lemma sort_and_print_ok wclist h ws ks (Q : Z * list Z → heap → Prop) : counts wclist h ws ks → (∀ out h', frequencies ws out → Q (0, out) h') →
  wp (wordcount_sort wclist wordcount_less ;; hd ← head_at wclist; out ← fprint_words hd; mret (0, freq_line ++ out)) Q h.
Proof.
  intros Hco HQ. wp_step. eapply sorted_ok; [done|]. intros h' ks' Hco' Hs. pose proof (fprint_words_ok wclist h' ws ks' (λ out h'', wp (mret (0, freq_line ++ out)) Q h'') Hco') as H.
  assert (Hf : Q (0, freq_line ++ flat_map (line ws) ks') h'). { apply HQ. destruct (co_keys _ _ _ _ Hco') as (? & ? & _). by exists ks'. }
  specialize (H Hf). revert H. unfold wp, mbind, M_bind. destruct (head_at wclist h') as [[hd h1]|]; [|done]. by destruct (fprint_words hd h1) as [[out h2]|].
Qed.

Definition texts (files : list (option (list Z))) : list (list Z) := omap id files.
Definition all_words (fs : list (list Z)) : list (list Z) := concat (words <$> fs).

(** A file whose words fit the buffer. *)
Definition short_words (f : list Z) : Prop := bytes f ∧ ∀ w, w ∈ alpha_runs [] f → len w ≤ MAX_WORD_LEN.

Lemma count_words_ok wclist f h ws ks (Q : Z → heap → Prop) : short_words f → wclist ≠ NULL → counts wclist h ws ks → len ws + len (words f) < 2 ^ 31 - 1 →
  (∀ h' ks', counts wclist h' (ws ++ words f) ks' → Q 0 h') → (∀ h', out_of_memory → Q 1 h') → wp (count_words malloc_ret wclist (Some f)) Q h.
Proof.
  intros [Hb Hw] H0 Hco Hl HQ HQ1. unfold words in Hl. rewrite length_fmap in Hl. unfold count_words. rewrite (proj2 (Z.eqb_neq wclist 0)) by done.
  apply (count_loop_ok wclist f [] h ws ks Q); [done|done|done|constructor|done|done|exact HQ|]. intros h' _ _ _. apply HQ1.
Qed.

Lemma freq_files_ok wclist fs h ws ks (Q : Z * list Z → heap → Prop) : fs ≠ [] → Forall short_words fs → wclist ≠ NULL → counts wclist h ws ks →
  len ws + len (all_words fs) < 2 ^ 31 - 1 →
  (∀ out h', frequencies (ws ++ all_words fs) out → Q (0, out) h') → (∀ h', out_of_memory → Q (1, []) h') →
  wp (freq_files malloc_ret wordcount_sort wclist (Some <$> fs)) Q h.
Proof.
  intros Hne Hf H0. revert h ws ks. induction Hf as [|f fs Hf1 Hf IH]; intros h ws ks Hco Hl HQ HQ1; [done|]. cbn [fmap list_fmap freq_files].
  unfold all_words in *. cbn [fmap list_fmap concat] in *. rewrite length_app in Hl.
  wp_step. eapply count_words_ok; [done|done|done|lia|..]; [|intros h' Hm; cbn [Z.eqb Pos.eqb]; wp_step; by apply HQ1].
  intros h' ks' Hco'. cbn [Z.eqb Pos.eqb]. destruct fs as [|f' fs].
  - cbn [fmap list_fmap concat] in *. rewrite app_nil_r in HQ. by eapply sort_and_print_ok.
  - wp_step. eapply sorted_ok; [done|]. intros h'' ks'' Hco'' _. cbn [fmap list_fmap]. eapply (IH ltac:(done)); [exact Hco''| | |done].
    + rewrite length_app. lia.
    + intros out h3. rewrite <-app_assoc. apply HQ.
Qed.
End main.
End proofs.

(** ** The total *)

Lemma num_loop_runs infile cur n : bytes infile → 0 ≤ n → n + len cur + len infile < 2 ^ 31 - 1 →
  num_loop infile (n + if bool_decide (2 ≤ len cur) then 1 else 0) (len cur) (bool_decide (2 ≤ len cur)) = n + len (word_runs cur infile).
Proof.
  intros Hb. revert cur n. induction Hb as [|c infile Hc Hb IH]; intros cur n Hn Hl; cbn [num_loop length] in *.
  - rewrite word_runs_nil. case_bool_decide; [rewrite decide_True by (unfold is_word; lia)|rewrite decide_False by (unfold is_word; lia)]; cbn [length]; lia.
  - rewrite isalpha_char by done. destruct (isalpha c) eqn:Ea.
    + rewrite word_runs_alpha by done. rewrite <-(IH (cur ++ [c])) by (rewrite ?length_app; cbn [length]; lia). rewrite !(signed_small 32) by (try case_bool_decide; lia).
      replace (len (cur ++ [c])) with (len cur + 1) by (rewrite length_app; cbn [length]; lia).
      destruct (Z.leb_spec 2 (len cur + 1)); [rewrite (bool_decide_eq_true_2 (2 ≤ len cur + 1)) by done|rewrite (bool_decide_eq_false_2 (2 ≤ len cur + 1)) by lia];
        case_bool_decide; cbn [negb andb]; f_equal; lia.
    + rewrite word_runs_other, length_app by done. pose proof (IH [] (n + if bool_decide (2 ≤ len cur) then 1 else 0)) as H. cbn [length] in H. change (bool_decide (2 ≤ Z.of_nat 0)) with false in H.
      change (Z.of_nat 0) with 0 in H. rewrite !Z.add_0_r in H. rewrite H by (case_bool_decide; lia).
      case_bool_decide; [rewrite decide_True by (unfold is_word; lia)|rewrite decide_False by (unfold is_word; lia)]; cbn [length]; lia.
Qed.

Lemma num_words_eq f : bytes f → len f < 2 ^ 31 - 1 → num_words f = len (words f).
Proof.
  intros Hb Hl. unfold num_words, words. rewrite length_fmap. assert (H : num_loop f 0 0 false = 0 + len (word_runs [] f)) by (apply (num_loop_runs f [] 0 Hb); cbn [length]; lia). rewrite H. lia.
Qed.

Lemma total_files_eq fs n : Forall bytes fs → 0 ≤ n → n + len (concat fs) < 2 ^ 31 - 1 → total_files (Some <$> fs) n = (0, total_line (n + len (all_words fs))).
Proof.
  intros Hf. revert n. unfold all_words. induction Hf as [|f fs Hb Hf IH]; intros n Hn Hl; cbn [fmap list_fmap concat total_files] in *; [by rewrite Z.add_0_r|].
  rewrite length_app in *. pose proof (length_word_runs [] f) as Hw. cbn [length] in Hw. rewrite num_words_eq by (done || lia).
  assert (len (words f) = len (word_runs [] f)) by (unfold words; by rewrite length_fmap). rewrite (signed_small 32) by lia. rewrite IH by lia. do 2 f_equal. lia.
Qed.

Lemma length_all_words fs : len (all_words fs) ≤ len (concat fs).
Proof.
  unfold all_words. induction fs as [|f fs IH]; [done|]. cbn [fmap list_fmap concat]. rewrite !length_app. pose proof (length_word_runs [] f) as H. cbn [length] in H.
  unfold words at 1. rewrite length_fmap. lia.
Qed.

(** ** Properties *)

(** C23: for one or more files that can all be opened, that have fewer than
    2^31 - 1 bytes in all and no word of more than MAX_WORD_LEN = 64 letters,
    where [malloc] returns different addresses or null pointers and
    [wordcount_sort] keeps its promise: the program prints with --frequency one
    line for every word of the files, a word being two or more letters in a
    row, with the number of its occurrences and in the order of the numbers,
    and exits with 1 and no output only if memory runs out; without options it
    prints the number of words of all files.  (A file that cannot be opened
    makes the program exit with 1; a longer word overflows a buffer, see
    [count_words_overflow].) *)
Theorem words_main_correct malloc_ret wordcount_sort help wclist h fs stdin :
  (∀ i j, malloc_ret i = malloc_ret j → malloc_ret i ≠ NULL → i = j) → Wordcount_sort malloc_ret wordcount_sort →
  wclist ≠ NULL → nodes h = ∅ → strs h = ∅ → fs ≠ [] → Forall short_words fs → len (concat fs) < 2 ^ 31 - 1 →
  wp (main malloc_ret wordcount_sort help wclist [102] (Some <$> fs) stdin)
     (λ r _, (r.1 = 0 ∧ frequencies (all_words fs) r.2) ∨ (r = (1, []) ∧ out_of_memory malloc_ret)) h ∧
  wp (main malloc_ret wordcount_sort help wclist [] (Some <$> fs) stdin) (λ r _, r = (0, total_line (len (all_words fs)))) h.
Proof.
  intros Hm Hsort H0 Hn Hs Hne Hf Hl. pose proof (length_all_words fs). unfold main, init_words. cbn [set_flags Z.eqb Pos.eqb]. rewrite (proj2 (Z.eqb_neq wclist 0)) by done.
  destruct fs as [|f fs]; [done|]. change (Some <$> f :: fs) with (Some f :: (Some <$> fs)). split; (wp_step; wp_step; unfold set_head; wp_step; wp_step; cbn [Z.eqb]).
  - eapply (freq_files_ok malloc_ret Hm wordcount_sort wclist (f :: fs) _ [] []); [done|done|done| |cbn [length]; lia| |].
    + split; cbn [heads nodes strs]; [|split_and!; [constructor|done|constructor]|rewrite Hn|rewrite Hs].
      * exists NULL, []. rewrite lookup_insert_eq. split_and!; [done|done|constructor|constructor].
      * intros p. rewrite lookup_empty. by intros [].
      * intros p. rewrite lookup_empty. by intros [].
    + intros out h' Ho. by left.
    + intros h' Ho. by right.
  - change (Some f :: (Some <$> fs)) with (Some <$> f :: fs). rewrite total_files_eq; [done| |done|done]. eapply Forall_impl; [exact Hf|]. by intros x [].
Qed.

(** A word of more than 65 letters is written beyond the end of the buffer, in
    any state. *)
Theorem count_words_overflow malloc_ret wclist h run rest : wclist ≠ NULL → bytes run → letters run → 65 < len run →
  count_words malloc_ret wclist (Some (run ++ rest)) h = Err BadAccess.
Proof.
  intros H0 Hb Hr Hl. unfold count_words. rewrite (proj2 (Z.eqb_neq wclist 0)) by done.
  assert (H : ∀ cur b, 65 < len cur + len run → len cur ≤ 65 → count_loop malloc_ret wclist (run ++ rest) (buffer cur) (len cur) b h = Err BadAccess).
  2:{ apply (H [] false); cbn [length]; lia. }
  clear Hl. induction Hr as [|c run Hc Hr IH]; intros cur b Hl Hcl; [cbn [length] in Hl; lia|]. apply Forall_cons in Hb as [Hbc Hb].
  cbn [Datatypes.app count_loop]. rewrite isalpha_char, Hc by done. unfold mbind, M_bind, lift. destruct (decide (len cur < 65)).
  - rewrite buffer_snoc by done. rewrite (signed_small 32) by lia. replace (len cur + 1) with (len (cur ++ [c])) by (rewrite length_app; cbn [length]; lia).
    apply IH; [done|..]; rewrite length_app; cbn [length] in *; lia.
  - unfold set_char, buffer. rewrite decide_False; [done|]. rewrite length_app, length_fmap, length_replicate. lia.
Qed.

(** ** A sorting function that keeps the promise *)

Abbreviation item := (Z * (list Z * Z))%type.

Section insertion_sort.
Context (less : list Z * Z → list Z * Z → bool).

Fixpoint insert_item (x : item) (l : list item) : list item :=
  match l with [] => [x] | y :: l => if less y.2 x.2 then y :: insert_item x l else x :: y :: l end.
Fixpoint sort_items (l : list item) : list item := match l with [] => [] | x :: l => insert_item x (sort_items l) end.

Lemma insert_item_perm x l : insert_item x l ≡ₚ x :: l.
Proof. induction l as [|y l IH]; cbn [insert_item]; [done|]. destruct (less y.2 x.2); [|done]. rewrite IH. constructor. Qed.
Lemma sort_items_perm l : sort_items l ≡ₚ l.
Proof. induction l as [|x l IH]; cbn [sort_items]; [done|]. by rewrite insert_item_perm, IH. Qed.

Lemma insert_item_sorted x l es : orders less es → x.2 ∈ es → Forall (λ y, y.2 ∈ es) l →
  StronglySorted (λ x y, less y.2 x.2 = false) l → StronglySorted (λ x y, less y.2 x.2 = false) (insert_item x l).
Proof.
  intros [Ha Ht] Hx Hl Hs. induction Hs as [|y l Hs IH Hf]; cbn [insert_item]; [by repeat constructor|]. apply Forall_cons in Hl as [Hy Hl]. destruct (less y.2 x.2) eqn:E.
  - constructor; [by apply IH|]. rewrite insert_item_perm. constructor; [by apply Ha|done].
  - constructor; [by constructor|]. constructor; [done|]. rewrite Forall_forall in Hf, Hl |- *. intros z Hz. by apply (Ht x.2 y.2 z.2); auto.
Qed.
Lemma sort_items_sorted l es : orders less es → Forall (λ y, y.2 ∈ es) l → StronglySorted (λ x y, less y.2 x.2 = false) (sort_items l).
Proof.
  intros Ho Hl. induction Hl as [|x l Hx Hl IH]; cbn [sort_items]; [constructor|]. eapply insert_item_sorted; [done|done| |done]. by rewrite sort_items_perm.
Qed.
End insertion_sort.

Fixpoint collect (fuel : nat) (p : Z) : M heap (list item) :=
  match fuel with
  | O => throw OutOfFuel
  | S fuel =>
      if p =? NULL then mret [] else
      n ← node_at p; s ← str_at (word n);
      l ← collect fuel (next n);
      mret ((p, (s, count n)) :: l)
  end.

Definition first (ps : list Z) : Z := default NULL (list.head ps).
Fixpoint relink (ps : list Z) (ns : gmap Z word_count) : gmap Z word_count :=
  match ps with
  | [] => ns
  | a :: ps => alter (λ n, mk_wc (word n) (count n) (first ps)) a (relink ps ns)
  end.

Definition example_sort (wclist : Z) (less : list Z * Z → list Z * Z → bool) : M heap unit :=
  hd ← head_at wclist;
  l ← walk (λ n, collect n hd);
  let ps := (sort_items less l).*1 in
  modify (λ h, mk_heap (relink ps (nodes h)) (strs h) (<[wclist := first ps]> (heads h)) (mallocs h)).

Lemma collect_ok h ws fuel p ps ks (Q : list item → heap → Prop) : chain h p ps → Forall2 (entry h ws) ps ks → (length ps < fuel)%nat →
  Q (zip ps (tally ws <$> ks)) h → wp (collect fuel p) Q h.
Proof.
  intros Hc He. revert p fuel Q Hc. induction He as [|a κ ps ks (n & Hn & Hs & Hcn) He IH]; intros p fuel Q Hc Hf HQ;
    (destruct fuel as [|fuel]; [cbn in Hf; lia|]); cbn [collect].
  - cbn in Hc. subst p. cbn [Z.eqb]. by wp_step.
  - destruct Hc as (-> & Ha & n' & Hn' & Hc). rewrite Hn in Hn'. injection Hn' as <-. rewrite (proj2 (Z.eqb_neq a 0)) by done.
    wp_step. unfold wp at 1, node_at. rewrite Hn. wp_step. unfold wp at 1, str_at. rewrite Hs. wp_step. eapply IH; [done|cbn in Hf; lia|].
    wp_step. rewrite Hcn. exact HQ.
Qed.

Lemma relink_keeps ps ns a n : ns !! a = Some n → ∃ n', relink ps ns !! a = Some n' ∧ word n' = word n ∧ count n' = count n.
Proof.
  intros Hn. induction ps as [|b ps (n' & Hn' & E1 & E2)]; cbn [relink]; [by exists n|]. destruct (decide (a = b)) as [->|Hne].
  - rewrite lookup_alter_eq, Hn'. eexists. split; [done|]. by split.
  - rewrite lookup_alter_ne by done. by exists n'.
Qed.
Lemma relink_is_Some ps ns a : is_Some (relink ps ns !! a) → is_Some (ns !! a).
Proof. induction ps as [|b ps IH]; cbn [relink]; [done|]. intros H. apply IH. by rewrite lookup_alter_is_Some in H. Qed.

Lemma relink_chain h ps ns : NoDup ps → (∀ a, a ∈ ps → a ≠ NULL ∧ is_Some (ns !! a)) → nodes h = relink ps ns → chain h (first ps) ps.
Proof.
  revert h. induction ps as [|a ps IH]; intros h Hd Ha Hh; [done|]. apply NoDup_cons in Hd as [Hn Hd]. destruct (Ha a) as [H0 [n Hna]]; [by left|].
  destruct (relink_keeps ps ns a n Hna) as (n' & Hn' & _). split; [done|]. split; [done|]. rewrite Hh. cbn [relink]. rewrite lookup_alter_eq, Hn'. eexists. split; [done|]. cbn [next].
  apply (list_chain_ext (mk_heap (relink ps ns) (strs h) (heads h) (mallocs h))).
  - intros b m Hb Hm. cbn [nodes] in Hm. exists m. rewrite Hh. cbn [relink]. rewrite lookup_alter_ne by (intros ->; done). done.
  - apply IH; [done| |done]. intros b Hb. apply Ha. by right.
Qed.

Lemma chain_nonnull h p ps a : chain h p ps → a ∈ ps → a ≠ NULL.
Proof.
  revert p. induction ps as [|b ps IH]; intros p H Ha; [by apply not_elem_of_nil in Ha|]. destruct H as (_ & Hb & n & _ & H).
  apply elem_of_cons in Ha as [->|Ha]; [done|]. by eapply IH.
Qed.

#[export] Instance example_sort_ok malloc_ret : Wordcount_sort malloc_ret example_sort.
Proof.
  intros less wclist h ws ks Ho [(p & ps & Hp & Hc & Hd & He) (Hk1 & Hk2 & Hk3) Hns Hss]. unfold example_sort. wp_step. unfold wp at 1, head_at. rewrite Hp.
  unfold walk. wp_step. wp_step. wp_step. pose proof (chain_length _ _ _ Hc Hd). eapply collect_ok; [done|done|lia|]. set (l := zip ps (tally ws <$> ks)). wp_step.
  pose proof (Forall2_length _ _ _ He) as Hlen. assert (Hl1 : l.*1 = ps) by (apply fst_zip; rewrite length_fmap; lia).
  assert (Hl2 : l.*2 = tally ws <$> ks) by (apply snd_zip; rewrite length_fmap; lia). pose proof (sort_items_perm less l) as Hperm. set (s := sort_items less l) in *.
  assert (Hin : ∀ x, x ∈ s → ∃ κ, κ ∈ ks ∧ x.2 = tally ws κ ∧ entry h ws x.1 κ).
  { intros x Hx. rewrite Hperm in Hx. apply list_elem_of_lookup in Hx as (i & Hi). apply lookup_zip_with_Some in Hi as (a & e & -> & Ha & Hi).
    rewrite list_lookup_fmap in Hi. apply fmap_Some in Hi as (κ & Hκ & ->). exists κ. split; [by eapply list_elem_of_lookup_2|]. split; [done|].
    by eapply Forall2_lookup_lr. }
  assert (Es : s.*2 = tally ws <$> s.*2.*1).
  { rewrite <-!list_fmap_compose. apply list_fmap_ext. intros i x Hx. destruct (Hin x) as (κ & _ & E & _); [by eapply list_elem_of_lookup_2|]. cbn. by rewrite E. }
  assert (Hk : s.*2.*1 ≡ₚ ks) by (rewrite Hperm, Hl2, <-list_fmap_compose; by rewrite list_fmap_id).
  assert (Hps : s.*1 ≡ₚ ps) by (by rewrite Hperm, Hl1).
  exists (s.*2.*1). split_and!; [|done|].
  - split; cbn [heads nodes strs mallocs].
    + exists (first s.*1), s.*1. rewrite lookup_insert_eq. split_and!; [done| |by rewrite Hps|].
      * eapply relink_chain; [by rewrite Hps| |done]. intros a. rewrite Hps. intros Ha. split; [by eapply chain_nonnull|by eapply chain_elem].
      * apply Forall2_same_length_lookup_2; [by rewrite !length_fmap|]. intros i a κ. rewrite !list_lookup_fmap. destruct (s !! i) as [x|] eqn:Hx; [|done].
        intros [= <-] [= <-]. destruct (Hin x) as (κ & _ & -> & n & Hn & Hs & Hcn); [by eapply list_elem_of_lookup_2|]. cbn [tally fst].
        destruct (relink_keeps s.*1 (nodes h) _ _ Hn) as (n' & Hn' & E1 & E2). exists n'. cbn [nodes strs]. split; [done|]. by rewrite E1, E2.
    + split_and!; [by rewrite Hk| |by rewrite Hk]. intros w. by rewrite Hk.
    + intros q Hq%relink_is_Some. by apply Hns.
    + done.
  - assert (Hss' : StronglySorted (λ x y : item, less y.2 x.2 = false) s).
    { eapply sort_items_sorted; [exact Ho|]. apply Forall_forall. intros x Hx. rewrite <-Hl2. apply list_elem_of_fmap. by exists x. }
    rewrite <-list_fmap_compose. clear -Hss' Hin. induction Hss' as [|x s Hss IH Hf]; [constructor|]. cbn [fmap list_fmap]. constructor.
    + apply IH. intros y Hy. apply Hin. by right.
    + rewrite Forall_forall in Hf. apply Forall_forall. intros κ (y & -> & Hy)%list_elem_of_fmap. specialize (Hf y Hy). destruct (Hin x) as (κ1 & _ & E1 & _); [by left|].
      destruct (Hin y) as (κ2 & _ & E2 & _); [by right|]. cbn. rewrite E1, E2 in Hf. by rewrite E1, E2.
Qed.

(** ** Examples *)

Definition example_heap : heap := mk_heap ∅ ∅ ∅ 0.
Definition example_malloc (i : nat) : Z := 100 + Z.of_nat i.
Definition example_files : list (list Z) := [text "The cat and the dog"; text "a dog, I see"].

Lemma example_short : Forall short_words example_files.
Proof.
  assert (H : Forall (λ f, bytes f ∧ Forall (λ w, len w ≤ 64) (alpha_runs [] f)) example_files) by (repeat (constructor || split || by apply Z.leb_le)).
  eapply Forall_impl; [exact H|]. intros f [Hb Hr]. split; [done|]. by rewrite Forall_forall in Hr.
Qed.

Lemma words_main_correct_witness :
  wp (main example_malloc example_sort [] 8 [102] (Some <$> example_files) [])
     (λ r _, (r.1 = 0 ∧ frequencies (all_words example_files) r.2) ∨ (r = (1, []) ∧ out_of_memory example_malloc)) example_heap.
Proof.
  apply (words_main_correct example_malloc example_sort [] 8 example_heap example_files []);
    [unfold example_malloc; intros; lia|apply _|done|reflexivity|reflexivity|done|exact example_short|vm_compute; reflexivity].
Defined.

Example words_example :
  match main example_malloc example_sort [] 8 [102] (Some <$> example_files) [] example_heap with
  | Ok ((0, out), _) => out = freq_line ++ text "1" ++ [9] ++ text "and" ++ [10] ++ text "1" ++ [9] ++ text "cat" ++ [10] ++ text "1" ++ [9] ++ text "see" ++ [10]
                              ++ text "2" ++ [9] ++ text "dog" ++ [10] ++ text "2" ++ [9] ++ text "the" ++ [10]
  | _ => False
  end.
Proof. vm_compute. reflexivity. Qed.
