(* ===== verification/WordList.v ===== *)
(** * Word counts shared by threads ([hw-list])

    The word counts of [word_count_l.c] and [word_count_p.c] are kept in a list
    of the kernel's list library: [hw-list/list.c] is the code that [KernelList]
    models.  A node is named by the address of its list element.  One thread per
    file adds the words that it finds ([count_words] comes without source: the
    words of each file are a parameter), each under a mutex.

    The threads are a state machine whose steps are the parts of [add_word]:
    taking the mutex, the search, the change, the release. *)
From stdpp Require Import sorting.
From S2P Require Import Prelude Bytes Stdio MapReduce MapReduceJob KernelList KernelListSort.

Abbreviation word_t := (list Z).

Record store := mk_store { links : heap; recs : gmap Z (word_t * Z) }.

Definition on_list {A} (m : M heap A) : M store A := λ s, match m (links s) with Ok (a, h) => Ok (a, mk_store h (recs s)) | Err f => Err f end.
(** [list_entry (e, word_count_t, elem)] and its word and count. *)
Definition rec_at (e : Z) : M store (word_t * Z) := λ s, match recs s !! e with Some r => Ok (r, s) | None => Err BadAccess end.
Definition set_rec (e : Z) (r : word_t * Z) : M store unit := modify (λ s, mk_store (links s) (<[e := r]> (recs s))).

(** ** [word_count_l.c] *)

Definition init_words (wclist : Z) : M store unit := on_list (list_init wclist).

(** Walks along the list are bounded by the number of nodes. *)
Definition walk {A} (f : nat → M store A) : M store A := n ← gets (λ s, S (size (recs s))); f n.

Definition len_words (wclist : Z) : M store Z := walk (λ n, on_list (list_size n wclist)).

Fixpoint find_loop (fuel : nat) (wclist e : Z) (word : word_t) : M store Z :=
  match fuel with
  | O => throw OutOfFuel
  | S fuel =>
      t ← on_list (list_end wclist);
      if e =? t then mret NULL else
      wc ← rec_at e;
      if strcmp wc.1 word =? 0 then mret e else
      e ← on_list (list_next e); find_loop fuel wclist e word
  end.
Definition find_word (wclist : Z) (word : word_t) : M store Z :=
  e ← on_list (list_begin wclist); walk (λ n, find_loop n wclist e word).

(** [new_word] is what [malloc] returns, which is not checked. *)
Definition new_rec (new_word : Z) (r : word_t * Z) : M store unit :=
  if new_word =? NULL then throw BadAccess
  else modify (λ s, mk_store (<[new_word := mk_list_elem 0 0]> (links s)) (<[new_word := r]> (recs s))).
(** [add_word] after the search. *)
Definition add_found (wclist found new_word : Z) (word : word_t) : M store Z :=
  if negb (found =? NULL) then
    wc ← rec_at found; set_rec found (wc.1, int32 (wc.2 + 1)) ;; mret found
  else
    new_rec new_word (word, 1) ;;
    on_list (list_push_back wclist new_word) ;;
    mret new_word.
Definition add_word (wclist new_word : Z) (word : word_t) : M store Z :=
  found ← find_word wclist word; add_found wclist found new_word word.

Fixpoint print_loop (fuel : nat) (wclist e : Z) : M store (list Z) :=
  match fuel with
  | O => throw OutOfFuel
  | S fuel =>
      t ← on_list (list_end wclist);
      if e =? t then mret [] else
      wc ← rec_at e;
      e ← on_list (list_next e);
      out ← print_loop fuel wclist e;
      mret (dec wc.2 ++ [9] ++ wc.1 ++ [10] ++ out)
  end.
Definition fprint_words (wclist : Z) : M store (list Z) :=
  e ← on_list (list_begin wclist); walk (λ n, print_loop n wclist e).

(** The comparison reads the records of the elements, which the sort leaves
    alone. *)
Definition less_list (less : word_t * Z → word_t * Z → bool) (s : store) (ewc1 ewc2 : Z) : bool :=
  less (default ([], 0) (recs s !! ewc1)) (default ([], 0) (recs s !! ewc2)).
Definition wordcount_sort (wclist : Z) (less : word_t * Z → word_t * Z → bool) : M store unit :=
  s ← gets id; walk (λ n, on_list (list_sort (less_list less s) n wclist)).

(** ** [word_count_p.c] and the threads of [pwords.c] *)

(** Where a thread is: before a call of [add_word] or at its end, with the
    mutex before the search, after it, and after the change. *)
Inductive pc := Next | Locked (word : word_t) | Found (found : Z) (word : word_t) | Changed.
Record thread := mk_thread { where_at : pc; todo : list word_t }.
Record machine := mk_machine { mem : store; lock : option nat; threads : list thread }.

Definition run {A} (m : machine) (c : M store A) (k : A → store → machine) : result machine :=
  match c (mem m) with Ok (a, s) => Ok (k a s) | Err f => Err f end.
Definition goto (m : machine) (i : nat) (t : thread) : list thread := <[i := t]> (threads m).

(** A step of thread [i]: [None] if it waits for the mutex or is finished. *)
Definition thread_step (wclist new_word : Z) (i : nat) (m : machine) : option (result machine) :=
  match threads m !! i with
  | None => None
  | Some t =>
      match where_at t, todo t with
      | Next, [] => None
      | Next, w :: ws => match lock m with None => Some (Ok (mk_machine (mem m) (Some i) (goto m i (mk_thread (Locked w) ws)))) | Some _ => None end
      | Locked w, ws => Some (run m (find_word wclist w) (λ p s, mk_machine s (lock m) (goto m i (mk_thread (Found p w) ws))))
      | Found p w, ws => Some (run m (add_found wclist p new_word w) (λ _ s, mk_machine s (lock m) (goto m i (mk_thread Changed ws))))
      | Changed, ws => Some (Ok (mk_machine (mem m) None (goto m i (mk_thread Next ws))))
      end
  end.

(** An address that [malloc] returns when there is memory.  The runs below are
    the ones in which it succeeds: on [NULL] the program faults ([new_rec]). *)
Definition fresh (m : machine) (p : Z) : Prop := p ≠ NULL ∧ links (mem m) !! p = None ∧ recs (mem m) !! p = None.

Inductive step (wclist : Z) (m m' : machine) : Prop :=
  | step_thread i new_word : fresh m new_word → thread_step wclist new_word i m = Some (Ok m') → step wclist m m'.

(** [main] with the words of the files: the mutex is free and every thread is
    at its start. *)
Definition start (s : store) (files : list (list word_t)) : machine := mk_machine s None (mk_thread Next <$> files).
Definition finished (t : thread) : Prop := where_at t = Next ∧ todo t = [].

(** The loop of [main] that creates the threads, with the array of handles. *)
Fixpoint create_loop (n : nat) (i : Z) (handles : list Z) : result (list Z) :=
  match n with
  | O => Ok handles
  | S n => if decide (i < len handles) then create_loop n (i + 1) (<[Z.to_nat i := i]> handles) else Err BadAccess
  end.
Definition create_threads (argc : Z) : result (list Z) := create_loop (Z.to_nat (argc - 1)) 1 (replicate (Z.to_nat (argc - 1)) 0).

(** ** The list of counts *)

Lemma wp_on_list {A} (m : M heap A) (Q : A → store → Prop) s : wp m (λ a h, Q a (mk_store h (recs s))) (links s) → wp (on_list m) Q s.
Proof. unfold wp, on_list. by destruct (m (links s)) as [[a h]|f]. Qed.

(** The list has the elements [xs], one for every word of [ws] in the order
    [ks], with the number of its occurrences. *)
Record counts (l : Z) (s : store) (ws : list word_t) (xs : list Z) (ks : list word_t) : Prop := {
  co_list : dll (links s) l xs;
  co_recs : Forall2 (λ x κ, recs s !! x = Some (κ, occ κ ws)) xs ks;
  co_keys : NoDup ks ∧ ∀ w, w ∈ ks ↔ w ∈ ws
}.

Lemma dll_NoDup h l xs : dll h l xs → NoDup xs.
Proof. intros H. pose proof (nodes_NoDup _ _ H) as Hd. unfold all_nodes in Hd. apply NoDup_cons in Hd as [_ Hd]. by apply NoDup_app in Hd as (? & _). Qed.

Lemma dll_cell h l xs a : dll h l xs → a ∈ all_nodes l xs → is_Some (h !! a).
Proof.
  intros Hd Ha. destruct (list_elem_of_split _ _ Ha) as (P & S & E). unfold dll in Hd. rewrite E in Hd. eapply nodes_is_Some; [exact Hd|].
  destruct S as [|b S]; [|by left]. right. intros ->. apply (f_equal (@List.length Z)) in E. unfold all_nodes in E. cbn in E. rewrite length_app in E. cbn in E. lia.
Qed.

Lemma dll_other_cells h h' l xs : (∀ a, a ∈ all_nodes l xs → h' !! a = h !! a) → dll h l xs → dll h' l xs.
Proof.
  intros H [Hc Hd H0 Hf Hl]. assert (Hn : ∀ a, a ∈ all_nodes l xs → nxt h' a = nxt h a) by (intros a Ha; unfold nxt; by rewrite H).
  assert (Hp : ∀ a, a ∈ all_nodes l xs → prv h' a = prv h a) by (intros a Ha; unfold prv; by rewrite H). split; [|done|done|..].
  - eapply chain_ext; [..|exact Hc]; [intros a Ha%elem_of_removelast; by apply Hn|intros a Ha%elem_of_tail; by apply Hp].
  - by rewrite (head_fmap_ext h).
  - by rewrite (last_fmap_ext h).
Qed.

Lemma counts_length l s ws xs ks : counts l s ws xs ks → (length xs ≤ size (recs s))%nat.
Proof.
  intros [Hd Hr _]. apply dll_NoDup in Hd. rewrite <-size_dom. rewrite <-(size_list_to_set (C := gset Z) xs) by done. apply subseteq_size.
  intros a Ha%elem_of_list_to_set. apply elem_of_dom. apply list_elem_of_lookup in Ha as (i & Hi). eapply Forall2_lookup_l in Hr as (κ & _ & Hκ); [|exact Hi]. by eexists.
Qed.

Lemma strcmp_zero κ w : zero_free κ → zero_free w → (strcmp κ w =? 0) = bool_decide (κ = w).
Proof.
  intros H1 H2. pose proof (strcmp_blex κ w H1 H2) as H. pose proof (blex_eq κ w) as E. case_bool_decide as Hw.
  - apply E in Hw. apply Z.eqb_eq. lia.
  - apply Z.eqb_neq. intros H0. apply Hw, E. lia.
Qed.

(** A loop along the list: at the end of the list, or at an element with its
    record. *)
Lemma find_elem_ok l s ws w xs1 xs2 ks2 fuel (Q : Z → store → Prop) : dll (links s) l (xs1 ++ xs2) →
  Forall2 (λ x κ, recs s !! x = Some (κ, occ κ ws)) xs2 ks2 → Forall zero_free ks2 → zero_free w → (length xs2 < fuel)%nat →
  (w ∉ ks2 → Q NULL s) → (∀ i x, xs2 !! i = Some x → ks2 !! i = Some w → Q x s) → wp (find_loop fuel l (hd_or (tail_of l) xs2) w) Q s.
Proof.
  intros Hd Hr. revert xs1 fuel Hd. induction Hr as [|x κ xs2 ks2 Hx Hr IH]; intros xs1 fuel Hd Hz Hw Hf H0 H1;
    (destruct fuel as [|fuel]; [cbn in Hf; lia|]); cbn [find_loop]; wp_step; apply wp_on_list; (apply wp_list_end; [by eapply dll_nonnull|]); destruct s as [h r]; cbn [links recs] in *.
  - cbn. rewrite Z.eqb_refl. wp_step. apply H0. by apply not_elem_of_nil.
  - cbn [hd_or list.head default from_option id]. destruct (dll_in_ne_tail h l (xs1 ++ x :: xs2) x) as [Hy _]; [done|set_solver|]. unfold hd_or. cbn. rewrite (proj2 (Z.eqb_neq x (tail_of l))) by done.
    apply Forall_cons in Hz as [Hκ Hz]. wp_step. unfold rec_at, wp at 1. cbn [recs]. rewrite Hx. cbn [fst]. rewrite strcmp_zero by done. case_bool_decide as E.
    + subst κ. wp_step. by apply (H1 0%nat).
    + wp_step. apply wp_on_list. eapply dll_next; [exact Hd|]. cbn [links recs]. apply (IH (xs1 ++ [x])); [by rewrite <-app_assoc|done|done|cbn in Hf; lia| |].
      * intros Hn. apply H0. rewrite not_elem_of_cons. by split.
      * intros i y Hi Hk. by apply (H1 (S i)).
Qed.

Lemma find_word_ok l s ws xs ks w (Q : Z → store → Prop) : counts l s ws xs ks → Forall zero_free ks → zero_free w →
  (w ∉ ks → Q NULL s) → (∀ i x, xs !! i = Some x → ks !! i = Some w → Q x s) → wp (find_word l w) Q s.
Proof.
  intros Hco Hz Hw H0 H1. pose proof (counts_length _ _ _ _ _ Hco). destruct Hco as [Hd Hr _]. unfold find_word, walk. wp_step. apply wp_on_list. eapply wp_list_begin; [done|].
  wp_step. wp_step. assert (E : mk_store (links s) (recs s) = s) by (by destruct s). rewrite E. eapply (find_elem_ok l s ws w []); [done|done|done|done|lia|done|done].
Qed.

Lemma print_elems_ok l s ws xs1 xs2 ks2 fuel (Q : list Z → store → Prop) : dll (links s) l (xs1 ++ xs2) →
  Forall2 (λ x κ, recs s !! x = Some (κ, occ κ ws)) xs2 ks2 → (length xs2 < fuel)%nat →
  Q (flat_map (line ws) ks2) s → wp (print_loop fuel l (hd_or (tail_of l) xs2)) Q s.
Proof.
  intros Hd Hr. revert xs1 fuel Q Hd. induction Hr as [|x κ xs2 ks2 Hx Hr IH]; intros xs1 fuel Q Hd Hf HQ;
    (destruct fuel as [|fuel]; [cbn in Hf; lia|]); cbn [print_loop]; wp_step; apply wp_on_list; (apply wp_list_end; [by eapply dll_nonnull|]); destruct s as [h r]; cbn [links recs] in *.
  - cbn. rewrite Z.eqb_refl. by wp_step.
  - destruct (dll_in_ne_tail h l (xs1 ++ x :: xs2) x) as [Hy _]; [done|set_solver|]. unfold hd_or. cbn. rewrite (proj2 (Z.eqb_neq x (tail_of l))) by done.
    wp_step. unfold rec_at, wp at 1. cbn [recs]. rewrite Hx. wp_step. apply wp_on_list. eapply dll_next; [exact Hd|]. wp_step. apply (IH (xs1 ++ [x])); [by rewrite <-app_assoc|cbn in Hf; lia|].
    wp_step. cbn [fst snd flat_map] in *. unfold line in HQ at 1. rewrite <-!app_assoc in HQ. exact HQ.
Qed.

Lemma Forall2_same_index {A B} (R : A → B → Prop) l k i a b : Forall2 R l k → l !! i = Some a → k !! i = Some b → R a b.
Proof. intros H Ha Hb. by eapply Forall2_lookup_lr. Qed.

(** The change that [add_word] makes after its search. *)
Lemma add_found_ok l s ws xs ks w p new (Q : Z → store → Prop) : counts l s ws xs ks → len ws < 2 ^ 31 - 1 →
  new ≠ NULL → links s !! new = None → recs s !! new = None →
  (p = NULL ∧ w ∉ ks ∨ ∃ i, xs !! i = Some p ∧ ks !! i = Some w) →
  (∀ v s' xs' ks', counts l s' (ws ++ [w]) xs' ks' → ks' = (if decide (w ∈ ks) then ks else ks ++ [w]) → Q v s') → wp (add_found l p new w) Q s.
Proof.
  intros [Hd Hr [Hk1 Hk2]] Hl Hn0 Hnl Hnr Hp HQ. unfold add_found. destruct Hp as [[-> Hw]|(i & Hi & Hw)].
  - cbn [Z.eqb negb]. wp_step. unfold new_rec. rewrite (proj2 (Z.eqb_neq new 0)) by done. wp_step. wp_step. apply wp_on_list. cbn [links recs].
    assert (Hnew : new ∉ all_nodes l xs).
    { intros Ha. destruct (dll_cell _ _ _ _ Hd Ha). congruence. }
    assert (Hd0 : dll (<[new := mk_list_elem 0 0]> (links s)) l xs).
    { eapply dll_other_cells; [|exact Hd]. intros a Ha. rewrite lookup_insert_ne; [done|]. intros ->. done. }
    eapply wp_list_push_back; [exact Hd0|done|done|rewrite lookup_insert_eq; by eexists|]. intros h' Hd' _. wp_step.
    eapply (HQ _ _ (xs ++ [new]) (ks ++ [w])); [|by rewrite decide_False]. split; cbn [links recs]; [done| |split].
    + apply Forall2_app.
      * apply Forall2_same_length_lookup_2; [by eapply Forall2_length|]. intros j x κ Hx Hκ. pose proof (Forall2_same_index _ _ _ _ _ _ Hr Hx Hκ) as E. cbn in E.
        rewrite lookup_insert_ne by congruence. rewrite E, occ_snoc, decide_False; [by rewrite Z.add_0_r|]. intros ->. apply Hw. by eapply list_elem_of_lookup_2.
      * constructor; [|constructor]. rewrite lookup_insert_eq, occ_snoc, decide_True, occ_absent by (by rewrite <-?Hk2). done.
    + apply NoDup_app. split; [done|]. split; [|apply NoDup_singleton]. intros v Hv ->%list_elem_of_singleton. done.
    + intros v. rewrite !elem_of_app, Hk2. done.
  - destruct (dll_in_ne_tail _ _ _ p Hd) as (_ & _ & Hp0); [by eapply list_elem_of_lookup_2|]. rewrite (proj2 (Z.eqb_neq p 0)) by done. cbn [negb].
    pose proof (Forall2_same_index _ _ _ _ _ _ Hr Hi Hw) as Ep. cbn in Ep. wp_step. unfold rec_at, wp at 1. rewrite Ep. cbn [fst snd]. wp_step. unfold set_rec. wp_step. wp_step.
    pose proof (occ_bound w ws). rewrite (signed_small 32) by lia. eapply (HQ _ _ xs ks); [|rewrite decide_True; [done|by eapply list_elem_of_lookup_2]]. split; cbn [links recs]; [done| |split; [done|]].
    + apply Forall2_same_length_lookup_2; [by eapply Forall2_length|]. intros j x κ Hx Hκ. pose proof (Forall2_same_index _ _ _ _ _ _ Hr Hx Hκ) as E. cbn in E. rewrite occ_snoc.
      destruct (decide (x = p)) as [->|Hne].
      * rewrite lookup_insert_eq. assert (κ = w) as -> by congruence. by rewrite decide_True.
      * rewrite lookup_insert_ne by done. rewrite decide_False; [by rewrite Z.add_0_r|]. intros ->. apply Hne. assert (j = i) as -> by (eapply (NoDup_lookup ks); done). congruence.
    + intros v. rewrite elem_of_app, list_elem_of_singleton, <-Hk2. split; [by left|]. intros [? | ->]; [done|]. by eapply list_elem_of_lookup_2.
Qed.

(** ** The machine *)

Definition pc_words (p : pc) : list word_t := match p with Locked w | Found _ w => [w] | _ => [] end.
Definition pending (t : thread) : list word_t := pc_words (where_at t) ++ todo t.

(** The steps that a thread has left. *)
Definition weight (t : thread) : nat :=
  (4 * length (todo t) + match where_at t with Next => 0 | Locked _ => 3 | Found _ _ => 2 | Changed => 1 end)%nat.
Definition steps_left (m : machine) : nat := sum_list_with weight (threads m).

(** What a thread found stays true while it holds the mutex. *)
Record inv (l : Z) (total : list word_t) (m : machine) (ws : list word_t) (xs : list Z) (ks : list word_t) : Prop := {
  inv_counts : counts l (mem m) ws xs ks;
  inv_total : ws ++ flat_map pending (threads m) ≡ₚ total;
  inv_lock i t : threads m !! i = Some t → where_at t = Next ↔ lock m ≠ Some i;
  inv_holder i : lock m = Some i → is_Some (threads m !! i);
  inv_found i t p w : threads m !! i = Some t → where_at t = Found p w → p = NULL ∧ w ∉ ks ∨ ∃ j, xs !! j = Some p ∧ ks !! j = Some w
}.

Lemma insert_perm {A} (l : list A) i x : l !! i = Some x → ∃ R, l ≡ₚ x :: R ∧ ∀ y, <[i := y]> l ≡ₚ y :: R.
Proof.
  intros H. exists (take i l ++ drop (S i) l). split.
  - rewrite <-(take_drop_middle l i x H) at 1. by rewrite Permutation_middle.
  - intros y. rewrite insert_take_drop by (by eapply lookup_lt_Some). by rewrite Permutation_middle.
Qed.

Section steps.
Context (l : Z) (total : list word_t) (Hz : Forall zero_free total) (Hlen : len total < 2 ^ 31).

Lemma inv_zero_free m ws xs ks : inv l total m ws xs ks → Forall zero_free ks ∧ (∀ i t w, threads m !! i = Some t → w ∈ pending t → zero_free w).
Proof.
  intros [[_ _ [_ Hk]] Ht _ _ _]. rewrite Forall_forall in Hz. split.
  - apply Forall_forall. intros w Hw. apply Hz. rewrite <-Ht, elem_of_app. left. by apply Hk.
  - intros i t w Hi Hw. apply Hz. rewrite <-Ht, elem_of_app. right. apply list_elem_of_In, in_flat_map. exists t. split; apply list_elem_of_In; [by eapply list_elem_of_lookup_2|done].
Qed.

(** A thread goes on: the invariant of the next state, from what changes. *)
Lemma inv_thread_goes m i t t' s' lk ws ws' xs' ks' :
  (∀ i t, threads m !! i = Some t → where_at t = Next ↔ lock m ≠ Some i) → (∀ i, lock m = Some i → is_Some (threads m !! i)) →
  ws ++ flat_map pending (threads m) ≡ₚ total → threads m !! i = Some t →
  counts l s' ws' xs' ks' → ws' ++ pending t' ≡ₚ ws ++ pending t → (lock m = None ∨ lock m = Some i) →
  lk = (match where_at t' with Next => None | _ => Some i end) →
  (∀ p w, where_at t' = Found p w → p = NULL ∧ w ∉ ks' ∨ ∃ j, xs' !! j = Some p ∧ ks' !! j = Some w) →
  inv l total (mk_machine s' lk (<[i := t']> (threads m))) ws' xs' ks'.
Proof.
  intros Hl Hh Ht Hi Hco Hp Hlk -> Hf. destruct (insert_perm _ _ _ Hi) as (R & H1 & H2).
  assert (Hlt : (i < length (threads m))%nat) by (by eapply lookup_lt_Some).
  assert (Ho : ∀ j u, j ≠ i → threads m !! j = Some u → where_at u = Next). { intros j u Hj Hu. apply (Hl j u Hu). destruct Hlk as [-> | ->]; congruence. }
  split; cbn [mem lock threads]; [done|..].
  - rewrite <-Ht. rewrite (Permutation_flat_map pending (H2 t')), (Permutation_flat_map pending H1). cbn [flat_map]. rewrite !app_assoc. by rewrite Hp.
  - intros j u Hu. destruct (decide (j = i)) as [->|Hj].
    + rewrite list_lookup_insert_eq in Hu by done. injection Hu as <-. by destruct (where_at t').
    + rewrite list_lookup_insert_ne in Hu by done. split; [|intros _; by eapply Ho]. intros _. destruct (where_at t'); congruence.
  - intros j Hj. destruct (where_at t'); [done|..]; injection Hj as <-; rewrite list_lookup_insert_eq by done; by eexists.
  - intros j u p w Hu Hw. destruct (decide (j = i)) as [->|Hj].
    + rewrite list_lookup_insert_eq in Hu by done. injection Hu as <-. by apply Hf.
    + rewrite list_lookup_insert_ne in Hu by done. rewrite (Ho j u Hj Hu) in Hw. done.
Qed.

Lemma weight_goto m i t t' s' lk : threads m !! i = Some t → (weight t' < weight t)%nat → (steps_left (mk_machine s' lk (<[i := t']> (threads m))) < steps_left m)%nat.
Proof.
  intros Hi Hw. destruct (insert_perm _ _ _ Hi) as (R & H1 & H2). unfold steps_left. cbn [threads]. rewrite (H2 t'), H1. cbn [sum_list_with]. lia.
Qed.

(** No step of a thread fails. *)
Lemma thread_step_ok m ws xs ks new i r : inv l total m ws xs ks → fresh m new → thread_step l new i m = Some r →
  ∃ m' ws' xs' ks', r = Ok m' ∧ inv l total m' ws' xs' ks' ∧ (steps_left m' < steps_left m)%nat.
Proof.
  intros Hinv (Hn0 & Hnl & Hnr) Hs. pose proof (inv_zero_free _ _ _ _ Hinv) as [Hzk Hzt]. pose proof Hinv as [Hco Ht Hlk Hh Hfo].
  unfold thread_step in Hs. destruct (threads m !! i) as [t|] eqn:Hi; [|done].
  assert (Hown : where_at t ≠ Next → lock m = Some i) by (intros Ht'; destruct (decide (lock m = Some i)); [done|]; exfalso; by apply Ht', (Hlk i t Hi)).
  assert (Hlw : len ws + len (pending t) ≤ len total).
  { rewrite <-Ht, length_app. destruct (insert_perm _ _ _ Hi) as (R & H1 & _). rewrite (Permutation_flat_map pending H1). cbn [flat_map]. rewrite length_app. lia. }
  destruct t as [p td]; cbn [where_at todo] in *. destruct p as [|w|p w|].
  - destruct td as [|w td]; [done|]. destruct (lock m) eqn:El; [done|]. injection Hs as <-. eexists _, ws, xs, ks. split; [done|]. split.
    + eapply inv_thread_goes; [by rewrite El|by rewrite El|done|exact Hi|done|done|by left|done|done].
    + eapply weight_goto; [exact Hi|]. cbn. lia.
  - specialize (Hown ltac:(done)). injection Hs as <-. unfold run.
    assert (H : wp (find_word l w) (λ p s', s' = mem m ∧ (p = NULL ∧ w ∉ ks ∨ ∃ j, xs !! j = Some p ∧ ks !! j = Some w)) (mem m)).
    { eapply find_word_ok; [done|done|eapply Hzt; [exact Hi|by left]|by auto|]. intros j x Hx Hw. split; [done|]. right. by exists j. }
    apply wp_Ok in H as (p & s' & -> & -> & Hp). eexists _, ws, xs, ks. split; [done|]. split.
    + eapply inv_thread_goes; [done|done|done|exact Hi|done|done|by right|done|]. intros p' w' [= <- <-]. exact Hp.
    + eapply weight_goto; [exact Hi|]. cbn. lia.
  - specialize (Hown ltac:(done)). injection Hs as <-. unfold run. cbn [pending pc_words where_at todo Datatypes.app length] in Hlw.
    assert (H : wp (add_found l p new w) (λ _ s', ∃ xs' ks', counts l s' (ws ++ [w]) xs' ks') (mem m)).
    { eapply add_found_ok; [done|cbn in Hlw; lia|done|done|done|by eapply Hfo|]. intros v s' xs' ks' H _. by exists xs', ks'. }
    apply wp_Ok in H as (v & s' & -> & xs' & ks' & Hco'). eexists _, (ws ++ [w]), xs', ks'. split; [done|]. split.
    + eapply inv_thread_goes; [done|done|done|exact Hi|done| |by right|done|done]. cbn. by rewrite <-app_assoc.
    + eapply weight_goto; [exact Hi|]. cbn. lia.
  - specialize (Hown ltac:(done)). injection Hs as <-. eexists _, ws, xs, ks. split; [done|]. split.
    + eapply inv_thread_goes; [done|done|done|exact Hi|done|done|by right|done|done].
    + eapply weight_goto; [exact Hi|]. cbn. lia.
Qed.
End steps.

Lemma counts_perm l s ws ws' xs ks : ws ≡ₚ ws' → counts l s ws xs ks → counts l s ws' xs ks.
Proof.
  intros Hp [Hd Hr [Hk1 Hk2]]. split; [done| |split; [done|]].
  - eapply Forall2_impl; [exact Hr|]. intros x κ. cbn. by rewrite (occ_perm κ ws ws').
  - intros w. by rewrite Hk2, Hp.
Qed.

Lemma flat_map_start files : flat_map pending (mk_thread Next <$> files) = concat files.
Proof. induction files as [|f files IH]; [done|]. cbn [fmap list_fmap flat_map concat]. by rewrite IH. Qed.

Lemma start_inv l s files : dll (links s) l [] → inv l (concat files) (start s files) [] [] [].
Proof.
  intros Hd. split; cbn [start mem lock threads].
  - split; [done|constructor|]. split; [constructor|done].
  - cbn. by rewrite flat_map_start.
  - intros i t Hi. rewrite list_lookup_fmap in Hi. apply fmap_Some in Hi as (f & _ & ->). done.
  - done.
  - intros i t p w Hi. rewrite list_lookup_fmap in Hi. apply fmap_Some in Hi as (f & _ & ->). done.
Qed.

Lemma start_steps s files : steps_left (start s files) = (4 * length (concat files))%nat.
Proof.
  unfold steps_left. cbn [start threads]. induction files as [|f files IH]; [done|]. cbn [fmap list_fmap sum_list_with concat]. rewrite length_app, IH. unfold weight. cbn [where_at todo]. lia.
Qed.

Lemma run_inv l total n m m' ws xs ks : Forall zero_free total → len total < 2 ^ 31 → inv l total m ws xs ks → nsteps (step l) n m m' →
  (∃ ws' xs' ks', inv l total m' ws' xs' ks') ∧ (n + steps_left m' ≤ steps_left m)%nat.
Proof.
  intros Hz Hl Hinv Hn. revert ws xs ks Hinv. induction Hn as [m|n m1 m2 m3 Hs Hn IH]; intros ws xs ks Hinv; [split; [by exists ws, xs, ks|done]|].
  destruct Hs as [i new Hf Hs]. destruct (thread_step_ok l total Hz Hl _ _ _ _ _ _ _ Hinv Hf Hs) as (m' & ws' & xs' & ks' & [= <-] & Hinv' & Hw).
  destruct (IH _ _ _ Hinv') as [H1 H2]. split; [done|]. lia.
Qed.

Lemma exists_fresh m : ∃ p, fresh m p.
Proof.
  set (X := {[ NULL ]} ∪ dom (links (mem m)) ∪ dom (recs (mem m)) : gset Z). pose proof (is_fresh X) as H. exists (base.fresh X). unfold X in H at 2.
  apply not_elem_of_union in H as [[H1 H2]%not_elem_of_union H3]. apply not_elem_of_singleton in H1. apply not_elem_of_dom in H2, H3. done.
Qed.

(** Not all threads are finished: one can go on. *)
Lemma no_deadlock l m total ws xs ks : Forall zero_free total → len total < 2 ^ 31 → inv l total m ws xs ks → Forall finished (threads m) ∨ ∃ m', step l m m'.
Proof.
  intros Hz Hl Hinv. destruct (exists_fresh m) as (new & Hf).
  assert (Hgo : ∀ i r, thread_step l new i m = Some r → ∃ m', step l m m').
  { intros i r Hs. destruct (thread_step_ok l total Hz Hl _ _ _ _ _ _ _ Hinv Hf Hs) as (m' & _ & _ & _ & -> & _). exists m'. by econstructor. }
  destruct Hinv as [_ _ Hlk Hh _]. destruct (lock m) as [i|] eqn:El.
  - right. destruct (Hh i eq_refl) as [t Hi]. destruct t as [p td] eqn:Et. destruct p as [|w|q w|]; [|eapply (Hgo i); unfold thread_step; rewrite Hi; cbn; reflexivity..].
    exfalso. by apply (Hlk i _ Hi).
  - destruct (decide (Forall (λ t, todo t = []) (threads m))) as [H|H].
    + left. apply Forall_lookup. intros i t Hi. rewrite Forall_lookup in H. split; [|by eapply H]. by apply (Hlk i t Hi).
    + right. apply not_Forall_Exists, Exists_exists in H; [|intros t; apply _]. destruct H as (t & [i Hi]%list_elem_of_lookup & Ht). cbn in Ht.
      assert (where_at t = Next) as Hn by (by apply (Hlk i t Hi)). destruct t as [p [|w td]]; [done|]. cbn in Hn. subst p.
      eapply (Hgo i). unfold thread_step. rewrite Hi. cbn. rewrite El. reflexivity.
Qed.

(** ** Properties *)

(** C24: threads that add the words of their files to an empty list, in any
    interleaving, never fail and never all wait; every run ends after at most
    four steps for every word; and when all threads are finished the list has
    one node for every word, with the number of its occurrences in all files. *)
Theorem pwords_threads_correct l s files n m : dll (links s) l [] → Forall zero_free (concat files) → len (concat files) < 2 ^ 31 →
  nsteps (step l) n (start s files) m →
  (∀ i new r, fresh m new → thread_step l new i m = Some r → ∃ m', r = Ok m') ∧
  (Forall finished (threads m) ∨ ∃ m', step l m m') ∧
  (n ≤ 4 * length (concat files))%nat ∧
  (Forall finished (threads m) → ∃ xs ks, counts l (mem m) (concat files) xs ks).
Proof.
  intros Hd Hz Hl Hn. destruct (run_inv l _ n _ _ _ _ _ Hz Hl (start_inv l s files Hd) Hn) as [(ws & xs & ks & Hinv) Hw]. rewrite start_steps in Hw. split_and!.
  - intros i new r Hf Hs. destruct (thread_step_ok l _ Hz Hl _ _ _ _ _ _ _ Hinv Hf Hs) as (m' & _ & _ & _ & -> & _). by exists m'.
  - by eapply no_deadlock.
  - lia.
  - intros Hfin. exists xs, ks. destruct Hinv as [Hco Ht _ _ _]. eapply counts_perm; [|exact Hco].
    assert (flat_map pending (threads m) = []) as E; [|by rewrite E, app_nil_r in Ht]. clear -Hfin. induction Hfin as [|t ts [H1 H2] _ IH]; [done|]. cbn [flat_map]. unfold pending at 1. by rewrite H1, H2, IH.
Qed.

(** What is promised of the comparison that [main] passes to the sort. *)
Definition compares_counts (less_count : word_t * Z → word_t * Z → bool) : Prop :=
  ∀ wc1 wc2, less_count wc1 wc2 = true ↔ wc1.2 < wc2.2 ∨ wc1.2 = wc2.2 ∧ blex wc1.1 wc2.1 < 0.

Lemma less_false less_count wc1 wc2 : compares_counts less_count → less_count wc2 wc1 = false ↔ wc1.2 < wc2.2 ∨ wc1.2 = wc2.2 ∧ blex wc1.1 wc2.1 ≤ 0.
Proof. intros H. rewrite <-not_true_iff_false, (H wc2 wc1). rewrite (blex_opp wc1.1 wc2.1). lia. Qed.

(** The end of [main]: the list is sorted and printed, a line for every word
    in the order of the counts. *)
Theorem sort_and_print l s ws xs ks less_count : compares_counts less_count → counts l s ws xs ks → len ws < 2 ^ 32 →
  wp (wordcount_sort l less_count ;; fprint_words l) (λ out _, ∃ ks', ks' ≡ₚ ks ∧ Sorted (rank ws) ks' ∧ out = flat_map (line ws) ks') s.
Proof.
  intros Hc Hco Hl. pose proof (counts_length _ _ _ _ _ Hco) as Hsz. destruct Hco as [Hd Hr [Hk1 Hk2]]. pose proof (Forall2_length _ _ _ Hr) as Hlen.
  assert (Hks : (length ks ≤ length ws)%nat) by (apply submseteq_length, NoDup_submseteq; [done|]; intros w; by apply Hk2).
  unfold wordcount_sort, walk. wp_step. wp_step. wp_step. wp_step. wp_step. apply wp_on_list. cbn [id].
  eapply wp_mono; [eapply wp_list_sort; [| |exact Hd|lia|lia]|].
  - intros x y H. unfold less_list in *. apply (less_false less_count); [done|]. apply Hc in H. lia.
  - intros x y z. unfold in_order, less_list. rewrite !(less_false less_count) by done. pose proof (blex_trans (default ([], 0) (recs s !! x)).1 (default ([], 0) (recs s !! y)).1 (default ([], 0) (recs s !! z)).1). lia.
  - intros [] h (zs & Hd' & Hs & Hp & _ & _). cbn [id].
    set (key := λ x, (default ([], 0) (recs s !! x)).1). assert (Ek : key <$> xs = ks).
    { clear -Hr. induction Hr as [|x κ xs ks Hx _ IH]; [done|]. cbn [fmap list_fmap]. rewrite IH. f_equal. unfold key. by rewrite Hx. }
    assert (Hr' : Forall2 (λ x κ, recs s !! x = Some (κ, occ κ ws)) zs (key <$> zs)).
    { apply Forall2_fmap_r, Forall_Forall2_diag. rewrite Hp. apply Forall_lookup. intros i x Hx. destruct (Forall2_lookup_l _ _ _ _ _ Hr Hx) as (κ & _ & E). cbn. unfold key. by rewrite E. }
    unfold fprint_words. wp_step. apply wp_on_list. cbn [links recs]. eapply wp_list_begin; [done|]. unfold walk. wp_step. wp_step.
    eapply (print_elems_ok l (mk_store h (recs s)) ws []); [done|exact Hr'|cbn [recs]; rewrite Hp; lia|]. exists (key <$> zs). split_and!; [by rewrite Hp, Ek| |done].
    clear -Hs Hr' Hc. unfold in_order in Hs. induction Hs as [|x zs Hs IH Hh]; [constructor|]. cbn [fmap list_fmap] in *. apply Forall2_cons in Hr' as [Hx Hr']. constructor; [by apply IH|].
    destruct Hh as [|y zs Hxy]; [constructor|]. cbn [fmap list_fmap] in *. apply Forall2_cons in Hr' as [Hy _]. constructor. unfold less_list in Hxy. rewrite Hx, Hy in Hxy. cbn [default from_option id] in Hxy.
    apply (less_false less_count) in Hxy; [|done]. cbn [fst snd] in Hxy. exact Hxy.
Qed.

(** The array of thread handles has one element less than the loop that fills
    it needs: with a file on the command line, [main] writes beyond its end. *)
Theorem create_threads_overflow argc : 2 ≤ argc → create_threads argc = Err BadAccess.
Proof.
  intros H. unfold create_threads. set (k := Z.to_nat (argc - 1)). assert (Hk : (0 < k)%nat) by (unfold k; lia).
  assert (Hgo : ∀ n i hs, length hs = k → (0 < n)%nat → i + Z.of_nat n = Z.of_nat k + 1 → 0 ≤ i → create_loop n i hs = Err BadAccess).
  { induction n as [|n IH]; intros i hs Hl Hn Hi Hi0; [lia|]. cbn [create_loop]. case_decide; [|done]. apply IH; [by rewrite length_insert|lia|lia|lia]. }
  apply Hgo; [by rewrite length_replicate|done|lia|lia].
Qed.

(** ** Examples *)

Definition example_store : store := mk_store (<[100 := mk_list_elem 0 108]> (<[108 := mk_list_elem 100 0]> ∅)) ∅.
Definition example_files : list (list word_t) := [[[97; 98]]; [[97; 98]]].

Lemma example_empty : dll (links example_store) 100 [].
Proof. split; cbn; [done|..|done|done]; [repeat constructor; set_solver|set_solver]. Qed.

Definition example_end : machine :=
  mk_machine (mk_store (<[100 := mk_list_elem 0 200]> (<[108 := mk_list_elem 200 0]> (<[200 := mk_list_elem 100 108]> ∅))) {[200 := ([97; 98], 2)]}) None [mk_thread Next []; mk_thread Next []].

Ltac example_step i new := eapply nsteps_l; [eapply (step_thread _ _ _ i new); [repeat split; discriminate || reflexivity|vm_compute; reflexivity]|].

Lemma example_run : nsteps (step 100) 8 (start example_store example_files) example_end.
Proof. do 3 example_step 0%nat 200. example_step 0%nat 300. do 4 example_step 1%nat 300. constructor. Qed.

Lemma pwords_threads_correct_witness : ∃ xs ks, counts 100 (mem example_end) (concat example_files) xs ks.
Proof.
  refine (proj2 (proj2 (proj2 (pwords_threads_correct 100 example_store example_files 8 example_end example_empty _ _ example_run))) _).
  - by repeat constructor.
  - vm_compute. reflexivity.
  - by repeat constructor.
Defined.
